(* ===== verification/_CoqProject ===== *)
-Q . S2P
Prelude.v
Vpid.v
Addr.v
Ept.v
VmMemory.v
ForkTree.v
GuestMem.v
Wire.v
EventLog.v
Random.v
Rtc.v
Apic.v
Vcpu.v
Relational.v
Precise.v
Handlers.v
Safety.v
Emulation.v
Decoder.v
Mmio.v
ExitLog.v
IoChannel.v
Vmcall.v
Ioctl.v
Dispatch.v
Footprint.v
Run.v
HostState.v
Requests.v
Setup.v
Registers.v
Registry.v
VmFile.v
Lifecycle.v
Boot.v
Channel.v
Lab.v
LabTree.v
FileXfer.v
Mmap.v
GuestIo.v
VmxInit.v
Chaos.v
