(* ===== verification/Prelude.v ===== *)
(** * A verification of the bedrock deterministic hypervisor

    bedrock runs a Linux guest on Intel VMX such that everything the guest can
    observe is a function of its image, its configuration and the inputs that
    userspace gives it.  Time is the number of retired instructions; interrupts
    arrive at exact instruction counts; a VM can be forked, and a fork shares the
    pages of its parent until it writes them.  The program is a Linux kernel module
    ([src/crates/bedrock]) around a portable core ([bedrock-vmx], [bedrock-ept],
    [bedrock-memory]), a userspace library ([bedrock-vm]), a library of branching
    experiments over it ([bedrock-lab]), and programs in the guest ([src/guest]).

    ** Parts and files

    - Memory.  [Addr] has the index extractors of [bedrock-memory/addr.rs]; [Ept]
      the page-table trees of [bedrock-ept]; [VmMemory] the memory of root and
      forked VMs ([cow.rs], [vm/root.rs], [vm/forked.rs]); [ForkTree] any number of
      VMs on one host, as a transition system; [GuestMem] the interface through
      which exit handlers use memory ([traits/context.rs]), a class with laws, and
      the instance that [VmMemory] gives.
    - The log of events.  [Wire] has the structs of [events/types.rs] and
      [exit_record/record.rs] with their bytes, and the reader of
      [bedrock-vm/events.rs]; [EventLog] the producer in [vm_state.rs] and its
      abstract specification, a list of records; [ExitLog] what a record says of
      the processor and which exits are recorded.
    - Devices.  [Random], [Rtc] and [Apic] ([devices/], [exits/apic.rs],
      [exits/interrupts.rs]); [IoChannel] the queue of I/O requests.
    - The virtual processor.  [Vcpu] is the state ([VmState] without the pages that
      only hardware reads) and the decoders of hardware words; [Relational] its
      well-formedness and the relation of processors that differ in host time;
      [Precise] precise exits, single-stepping, injection ([exits/pebs.rs],
      [exits/interrupts.rs], [exits/mod.rs]); [Handlers] the exits that need no
      memory ([exits/time.rs], [io.rs], [rdrand.rs], [cr.rs], [misc.rs],
      [cpuid.rs], [msr.rs]) with [Safety] and [Emulation] for their theorems;
      [Decoder] ([decoder.rs]) and [Mmio] ([exits/ept.rs], [exits/apic.rs]);
      [Vmcall] ([exits/vmcall.rs]); [Dispatch] ([exits/mod.rs]) the whole of an
      exit; [Footprint] which fields of the VMCS an exit may write.
    - Running.  [Run] is [traits/vm_run.rs] with the instruction counter; [HostState]
      what the host finds afterwards.
    - The life of a VM.  [Vpid] is the lock-free allocator of address-space tags
      ([traits/vpid.rs]); [Setup] the creation and the fork of a VM
      ([VmState::new], [new_for_fork], [traits/vmcs.rs], [traits/vmx.rs], [host.rs]);
      [Registers] GET_REGS and SET_REGS ([traits/registers.rs]); [Registry] the VMs
      of the module under concurrent ioctls ([handler.rs], [bedrock_main.rs],
      [vm_file/fd.rs]); [Ioctl] the handlers of [vm_file/handlers.rs]; [Requests] the
      journey of an I/O request through ioctl, interrupt and hypercall; [VmFile] the
      dispatch of the calls and RUN; [Lifecycle] their composition; [VmxInit] loading and
      unloading the module, which puts every processor into VMX operation and takes it
      out again ([traits/vmx.rs], [vmxon.rs], [machine.rs], [bedrock_main.rs]); [Mmap] the mappings
      of memory and buffers into a process ([vm_file/root.rs], [vm_file/forked.rs],
      [helpers.c], with the library's side of them).
    - Userspace.  [Boot] is the image a guest boots from ([bedrock-vm/src/boot]) and its
      entry into the kernel; [Channel] the framing of commands and the console's lines
      ([io_channel.rs], [bedrock-lab/src/event.rs]); [Lab] virtual time, sources and
      recordings of input and the loop of a branch ([time.rs], [rng.rs], [branch.rs]);
      [LabTree] checkpoints, branching and rewinding ([checkpoint.rs], [inner.rs]).
    - Programs of the guest, with the host's side of their protocols.  [FileXfer] has
      both file transfers ([file_xfer.rs], [file_store.rs], [guest/file-fetch.c],
      [guest/file-store.c]); [GuestIo] the worker that runs commands
      ([guest/bedrock-io]); [Chaos] the scheduler that provokes rare interleavings and
      the service that feeds it random values ([guest/scx-fuzz]).

    ** How code is rendered

    A machine integer is a [Z] with its wrap-around written out; [in_width] states
    the range.  A struct of scalars is a record, or a function of the field's name
    where the code treats the fields alike.  Fallible and stateful code is a
    computation in [M S E A], a state passing function with the outcomes [Done],
    [Fail] (an error value) and [Stuck] (a panic, or an access to memory that is
    not owned); theorems exclude [Stuck].  The VMCS is a finite map from field
    encodings to values, so that an access to a field the processor does not have
    fails.  Concurrency is a step relation at the grain of the atomic operations
    ([Vpid]) or of the critical sections ([Registry], [ForkTree]).  A definition has
    the name of the function it renders, where that is free.

    Code that is not in the repository is a parameter, with what is documented of
    it as hypotheses: page allocators ([FrameAllocatorSpec], [CowAllocatorSpec]), a
    stay of the guest between entry and exit ([env_stay] with [hardware_ok] and
    [env_ok]), CPUID and the model-specific registers of the host, the time stamp
    counter (an oracle), copies from and to the memory of a caller, XXH64; for userspace,
    the VM as a lab uses it ([VmOps], of which nothing is assumed), sources of input
    ([InputSource]), the ELF parser, lossy decoding of text, and the guest's kernel, whose
    reads and writes may be cut anywhere or fail and whose dispatch queues are a class ([Dsq]).

    ** What is shown

    - Isolation: nothing that a VM does changes the memory of another
      ([ForkTree.isolation]), because a copy-on-write fault and a fork do what they
      must ([VmMemory]) on page tables that stay trees ([Ept]).
    - Determinism: an exit, and a whole run, have the same effect on the guest
      whatever the host's clock shows ([Dispatch], [Run]); exits that the host causes
      are invisible ([Dispatch.host_exits_invisible]); an interrupt arrives at its
      instruction, on the runs that [Precise] describes; a new VM has the controls set that
      make the instructions listed there exit ([Setup.interception_controls_set]; RDPID is
      not among them); CPUID shows a fixed processor ([Emulation]).
    - Safety of the host: no exit panics and the VM stays well-formed
      ([Dispatch.handle_exit_type_safe]); the guest cannot redirect host state
      ([Footprint.exits_confined]); the MSR bitmap lets through exactly what a run
      restores ([Setup.msr_bitmap_exact]); any VM that comes about can be run, without
      a panic, and when the call returns the registers of the host are as they were,
      unless the VMCS could not be loaded or flushed ([Lifecycle.every_vm_runs]);
      address-space tags are not shared ([Vpid]); loading the module on processors outside
      VMX operation executes no instruction that faults, and unloading it undoes the load
      ([VmxInit]).
    - Faithful emulation: page walks, device accesses, the decoder's language,
      interrupt delivery, the clock, the stored registers ([Mmio], [Decoder], [Apic],
      [Rtc], [Emulation]).
    - The log and the channel: the bytes that userspace drains are the records of an
      abstract log, and none is lost or altered by a dispatcher that drains every full
      buffer ([EventLog], [Wire]); requests that are not empty arrive in
      order, once ([Requests]); a record identifies the processor ([ExitLog]).
    - The interface: library and module agree on every request number; a call that
      fails changes nothing, with two exceptions ([VmFile]); registers are read as they
      were set ([Registers]); concurrent creation, forking and closing keep the
      registry consistent and runs exclusive ([Registry]); a process that maps a fork's
      buffer sees the guest's own pages, where they could be copied ([Mmap]).
    - Booting: the builders stay in memory and do not overwrite each other, and the
      guest begins in its kernel with the address space the tables describe ([Boot]).
    - Experiments: a branch replayed from a complete recording runs the same ([Lab]); the
      tree of checkpoints stays consistent, a walk in it ends, and rewinding gives the
      checkpoint it should ([LabTree]).
    - Guest services: files arrive whole in both directions if nothing fails ([FileXfer]);
      a command is one word of the guest's shell whatever it contains, is the one the host
      sent, and its result is the one the host reads ([GuestIo], [Channel]); if the service
      keeps pace the fuzzing scheduler's decisions are a function of the random stream, word
      by word; its victims run again and the time it takes from them is capped ([Chaos]).

    Where the code does less than it says, an execution shows it: forking a running
    VM ([ForkTree.fork_while_running_unsound], [Registry.fork_of_running_vm]), runs
    that fail early ([HostState.failed_setup_leaves_guest_msrs],
    [HostState.failed_entry_skips_finish]), single-stepping that is not turned off
    ([VmFile.single_step_off_keeps_trap_flag], [Setup.fork_keeps_trap_flag]), a rewind
    that stops early ([LabTree.rewind_stops_early]), transfers that fail unseen
    ([FileXfer.fetch_failure_unseen], [FileXfer.store_failure_unseen]), memory sizes the
    boot layout does not allow for ([Boot.cmdline_over_directory]), a failed load that is
    not undone ([VmxInit.failed_load_leaves_vmx]), and others named in the files.

    ** Bounds and fuel

    Recursion that is not structural takes fuel, and a theorem says that it is
    enough.  The run loop takes a number of iterations, and ends within them if the
    scheduler asks for the processor during one of them; RUN takes a number of
    attempts, is still going when it has used them, and can only be if the page pool was
    refilled each time;
    copy loops of hypercalls take the number of bytes, of which each step moves one;
    the event reader takes the length of its input; the scan for a tag takes its
    65536 candidates; the calendar loops take the number of years; the walk to the root
    of a lab takes one step for each link and one more; a transfer takes one round for each full buffer, or each
    read, and one more.  The loop of a branch takes a number of exits: a guest may run
    for ever, and the theorems hold for each number, the end of fuel included.  No data
    is bounded for convenience; the bounds on memory in [Boot] are those of the layout.

    ** Not modelled

    The assembly stubs of entry and exit and page allocation are the kernel's or the
    hardware's.  The library's wrappers of single system
    calls, argument parsing and printing of the command line, the rendering of a lab's
    tree, floating-point conversions of time, and the loop that boots a lab's root VM have
    no logic beyond the calls they make, which are modelled.  [bedrock-assertions] formats
    values for test programs, and the workload monitor starts processes.  In the guest's
    command module, loading and the interrupt handler are calls of the Linux kernel.  The
    hash of guest memory and XXH64 are parameters.  The preemption of a run by other
    processors is in the steps of [Registry] and [ForkTree]; within a run the model is
    sequential, as the code is with preemption disabled.  In [FileXfer] and [GuestIo] one
    program of the guest runs at a time; its exits to the host are in the loop. *)
From stdpp Require Export prelude gmap.
From Stdlib Require Export ZArith Lia.
From Stdlib Require Import Btauto.

#[global] Open Scope Z_scope.

Declare Scope bedrock_scope.
Delimit Scope bedrock_scope with bedrock.
#[global] Open Scope bedrock_scope.

(** ** Machine integers

    An unsigned [w]-bit integer is a [Z] in [0, 2^w); the operations that wrap
    write the wrap-around out. *)

Definition in_width (w z : Z) : Prop := 0 ≤ z < 2 ^ w.
Definition wrap (w z : Z) : Z := z mod 2 ^ w.
Definition u8 (z : Z) : Z := wrap 8 z.
Definition u16 (z : Z) : Z := wrap 16 z.
Definition u32 (z : Z) : Z := wrap 32 z.
Definition u64 (z : Z) : Z := wrap 64 z.
Definition u64_MAX : Z := 2 ^ 64 - 1.

Definition wrapping_add (a b : Z) : Z := u64 (a + b).
Definition wrapping_sub (a b : Z) : Z := u64 (a - b).
Definition wrapping_mul (a b : Z) : Z := u64 (a * b).
Definition saturating_add (a b : Z) : Z := Z.min u64_MAX (a + b).
Definition saturating_sub (a b : Z) : Z := Z.max 0 (a - b).

Notation "a '+!' b" := (wrapping_add a b) (at level 50, left associativity) : bedrock_scope.
Notation "a '-!' b" := (wrapping_sub a b) (at level 50, left associativity) : bedrock_scope.
Notation "a '+|' b" := (saturating_add a b) (at level 50, left associativity) : bedrock_scope.
Notation "a '-|' b" := (saturating_sub a b) (at level 50, left associativity) : bedrock_scope.

(** A bit mask test, the code's [(x & m) != 0]. *)
Definition has (x m : Z) : bool := negb (Z.land x m =? 0).

(** ** Automation *)

Create HintDb bedrock.
Create Rewrite HintDb zbits.
Create Rewrite HintDb bedrock_list.

Lemma in_width_wrap w z : 0 ≤ w → in_width w (wrap w z).
Proof. intros. unfold in_width, wrap. apply Z.mod_pos_bound. lia. Qed.

Lemma wrap_small w z : in_width w z → wrap w z = z.
Proof. unfold in_width, wrap. intros. apply Z.mod_small. lia. Qed.

Lemma in_width_mono w w' z : in_width w z → w ≤ w' → in_width w' z.
Proof.
  unfold in_width. intros [? ?] ?. split; [done|].
  assert (2 ^ w ≤ 2 ^ w') by (apply Z.pow_le_mono_r; lia). lia.
Qed.

Lemma in_width_u8 z : in_width 8 (u8 z).
Proof. apply in_width_wrap. lia. Qed.
Lemma in_width_u16 z : in_width 16 (u16 z).
Proof. apply in_width_wrap. lia. Qed.
Lemma in_width_u32 z : in_width 32 (u32 z).
Proof. apply in_width_wrap. lia. Qed.
Lemma in_width_u64 z : in_width 64 (u64 z).
Proof. apply in_width_wrap. lia. Qed.
#[export] Hint Resolve in_width_wrap in_width_u8 in_width_u16 in_width_u32 in_width_u64 : bedrock.

Lemma testbit_above w z i : in_width w z → 0 ≤ w ≤ i → Z.testbit z i = false.
Proof.
  intros Hz Hi. rewrite <-(wrap_small w z Hz). unfold wrap.
  apply Z.mod_pow2_bits_high. lia.
Qed.

Lemma in_width_bits w z :
  0 ≤ w → 0 ≤ z → (∀ i, w ≤ i → Z.testbit z i = false) → in_width w z.
Proof.
  intros Hw Hz Hb. split; [done|].
  destruct (Z.eq_dec z 0) as [->|Hne]; [apply Z.pow_pos_nonneg; lia|].
  apply Z.log2_lt_pow2; [lia|].
  destruct (Z.lt_ge_cases (Z.log2 z) w) as [|Hge]; [done|].
  specialize (Hb _ Hge). rewrite Z.bit_log2 in Hb by lia. done.
Qed.

Lemma in_width_land_l w a b : 0 ≤ w → in_width w a → 0 ≤ b → in_width w (Z.land a b).
Proof.
  intros Hw Ha Hb. apply in_width_bits; [done|apply Z.land_nonneg; right; lia|].
  intros i Hi. rewrite Z.land_spec, (testbit_above w a) by (done || lia). done.
Qed.

Lemma in_width_land_r w a b : 0 ≤ w → in_width w b → in_width w (Z.land a b).
Proof.
  intros Hw Hb. apply in_width_bits; [done|apply Z.land_nonneg; right; apply Hb|].
  intros i Hi. rewrite Z.land_spec, (testbit_above w b) by (done || lia). apply andb_false_r.
Qed.

Lemma in_width_lor w a b : 0 ≤ w → in_width w a → in_width w b → in_width w (Z.lor a b).
Proof.
  intros Hw Ha Hb. apply in_width_bits; [done|apply Z.lor_nonneg; split; [apply Ha|apply Hb]|].
  intros i Hi. rewrite Z.lor_spec, (testbit_above w a), (testbit_above w b) by (done || lia). done.
Qed.

Lemma in_width_lxor w a b : 0 ≤ w → in_width w a → in_width w b → in_width w (Z.lxor a b).
Proof.
  intros Hw Ha Hb. apply in_width_bits; [done| |].
  { apply Z.lxor_nonneg. split; intros; [apply Hb|apply Ha]. }
  intros i Hi. rewrite Z.lxor_spec, (testbit_above w a), (testbit_above w b) by (done || lia). done.
Qed.

Lemma in_width_shiftr w a n : 0 ≤ n → in_width w a → in_width w (Z.shiftr a n).
Proof.
  unfold in_width. intros Hn Ha. rewrite Z.shiftr_div_pow2 by done.
  assert (0 < 2 ^ n) by (apply Z.pow_pos_nonneg; lia).
  split; [apply Z.div_pos; lia|].
  apply Z.div_lt_upper_bound; nia.
Qed.
#[export] Hint Resolve in_width_land_r in_width_lor in_width_lxor in_width_shiftr : bedrock.

(** A contiguous mask of [n] ones at bit [lo]. *)
Lemma testbit_field lo n i :
  0 ≤ lo → 0 ≤ n → 0 ≤ i →
  Z.testbit (Z.shiftl (Z.ones n) lo) i = (lo <=? i) && (i <? lo + n).
Proof.
  intros. destruct (Z.leb_spec lo i).
  - rewrite Z.shiftl_spec, Z.testbit_ones by lia.
    destruct (Z.ltb_spec (i - lo) n), (Z.ltb_spec i (lo + n)), (Z.leb_spec 0 (i - lo)); lia || done.
  - rewrite Z.shiftl_spec_low by lia. done.
Qed.

#[export] Hint Rewrite Z.land_spec Z.lor_spec Z.lxor_spec Z.ldiff_spec : zbits.

(** [zbits] proves an equality of integers bit by bit. *)
Ltac zbits_rw :=
  repeat first
    [ progress autorewrite with zbits
    | rewrite testbit_field by lia
    | rewrite Z.shiftr_spec by lia
    | rewrite Z.shiftl_spec by lia
    | rewrite Z.testbit_ones by lia
    | rewrite Z.testbit_mod_pow2 by lia
    | rewrite Z.lnot_spec by lia ].
Ltac zbits_cmp :=
  repeat match goal with
  | |- context [?a <=? ?b] => destruct (Z.leb_spec a b); try lia
  | |- context [?a <? ?b] => destruct (Z.ltb_spec a b); try lia
  end.
Ltac zbits :=
  apply Z.bits_inj'; let i := fresh "i" in let Hi := fresh "Hi" in
  intros i Hi; zbits_rw; zbits_cmp; simpl; try btauto.

(** ** Outcomes and stateful computations

    A Rust function that threads [&mut] state is a computation [M S E A]: it
    takes the state and returns its outcome with the final state.  [Done] is a
    normal return, [Fail] the [Err] of a [Result] (the state keeps what was
    written before the error), and [Stuck] a step the source gives no meaning
    to: an access outside owned memory, or a panic. *)

Inductive outcome (E A : Type) : Type :=
| Done (a : A)
| Fail (e : E)
| Stuck.
Arguments Done {E A} a.
Arguments Fail {E A} e.
Arguments Stuck {E A}.

Definition M (S E A : Type) : Type := S → outcome E A * S.

#[export] Instance M_ret {S E} : MRet (M S E) := λ A a s, (Done a, s).
#[export] Instance M_bind {S E} : MBind (M S E) := λ A B f m s,
  match m s with
  | (Done a, s') => f a s'
  | (Fail e, s') => (Fail e, s')
  | (Stuck, s') => (Stuck, s')
  end.

Section Computations.
Context {S E : Type}.

Definition throw {A} (e : E) : M S E A := λ s, (Fail e, s).
Definition stuck {A} : M S E A := λ s, (Stuck, s).
Definition gets {A} (f : S → A) : M S E A := λ s, (Done (f s), s).
Definition modify (f : S → S) : M S E () := λ s, (Done (), f s).

(** A partial access: [None] is [Stuck]. *)
Definition demand {A} (f : S → option A) : M S E A := λ s,
  match f s with Some a => (Done a, s) | None => (Stuck, s) end.

(** [for x in l { body }] *)
Fixpoint for_each {B} (l : list B) (body : B → M S E ()) : M S E () :=
  match l with
  | [] => mret ()
  | x :: l' => body x ≫= λ _, for_each l' body
  end.

(** [for i in 0..n { body }] *)
Definition for_range (n : nat) (body : nat → M S E ()) : M S E () :=
  for_each (seq 0 n) body.

(** [triple P m Q R]: from a state satisfying [P], [m] is never [Stuck],
    returns normally in [Q] or with an error in [R]. *)
Definition triple {A} (P : S → Prop) (m : M S E A)
    (Q : A → S → Prop) (R : E → S → Prop) : Prop :=
  ∀ s, P s → match m s with
             | (Done a, s') => Q a s'
             | (Fail e, s') => R e s'
             | (Stuck, _) => False
             end.

Lemma triple_ret {A} (P : S → Prop) (a : A) (Q : A → S → Prop) R :
  (∀ s, P s → Q a s) → triple P (mret a) Q R.
Proof. intros H s Hs. apply H, Hs. Qed.

Lemma triple_bind {A B} (P : S → Prop) (m : M S E A) (f : A → M S E B) Q Q' R :
  triple P m Q R → (∀ a, triple (Q a) (f a) Q' R) → triple P (m ≫= f) Q' R.
Proof.
  intros Hm Hf s Hs. specialize (Hm s Hs). unfold mbind, M_bind.
  destruct (m s) as [[a|e|] s'] eqn:E'; [|done..]. apply Hf, Hm.
Qed.

Lemma triple_conseq {A} (P P' : S → Prop) (m : M S E A) Q Q' R R' :
  triple P' m Q' R' → (∀ s, P s → P' s) → (∀ a s, Q' a s → Q a s) →
  (∀ e s, R' e s → R e s) → triple P m Q R.
Proof.
  intros Hm HP HQ HR s Hs. specialize (Hm s (HP _ Hs)).
  destruct (m s) as [[a|e|] s']; eauto.
Qed.

Lemma triple_for_range (n : nat) (body : nat → M S E ()) (I : nat → S → Prop) R :
  (∀ i, (i < n)%nat → triple (I i) (body i) (λ _, I (Datatypes.S i)) R) →
  triple (I 0%nat) (for_range n body) (λ _, I n) R.
Proof.
  unfold for_range. intros Hb.
  assert (∀ m i, (i + m = n)%nat →
    triple (I i) (for_each (seq i m) body) (λ _, I n) R) as H; [|by apply H].
  induction m as [|m IH]; intros i Him; simpl.
  - apply triple_ret. intros s Hs. by replace n with i by lia.
  - eapply triple_bind; [apply Hb; lia|]. intros a. simpl. apply IH. lia.
Qed.
End Computations.

Lemma bind_Done {S E A B} (m : M S E A) (f : A → M S E B) s b s' :
  (m ≫= f) s = (Done b, s') ↔ ∃ a s1, m s = (Done a, s1) ∧ f a s1 = (Done b, s').
Proof.
  unfold mbind, M_bind. destruct (m s) as [[a|e|] s1]; split.
  - eauto.
  - intros (a' & s2 & ? & ?). by simplify_eq.
  - done.
  - intros (a' & s2 & ? & ?). by simplify_eq.
  - done.
  - intros (a' & s2 & ? & ?). by simplify_eq.
Qed.

(** Destructs every existential and conjunction among the hypotheses. *)
Ltac deex :=
  repeat match goal with
  | H : ∃ x, _ |- _ => let y := fresh x in destruct H as [y H]
  | H : _ ∧ _ |- _ => destruct H
  end.

(** Case analysis on every [if] and [match] the goal still shows. *)
Ltac split_cases :=
  repeat match goal with
  | |- context [match ?x with _ => _ end] =>
      lazymatch x with context [match _ with _ => _ end] => fail | _ => destruct x eqn:? end
  end.

(** ** Little-endian byte strings (Rust's [to_le_bytes] / [from_le_bytes]) *)

Fixpoint le_bytes (n : nat) (z : Z) : list Z :=
  match n with
  | O => []
  | S n' => z mod 256 :: le_bytes n' (z / 256)
  end.

Fixpoint of_le (l : list Z) : Z :=
  match l with
  | [] => 0
  | b :: l' => b + 256 * of_le l'
  end.

Lemma length_le_bytes n z : length (le_bytes n z) = n.
Proof. revert z. induction n; intros; simpl; [done|]. f_equal. auto. Qed.

Lemma of_le_le_bytes n z : of_le (le_bytes n z) = z mod 2 ^ (8 * Z.of_nat n).
Proof.
  revert z. induction n as [|n IH]; intros z; simpl le_bytes; simpl of_le.
  - rewrite Z.mod_1_r. done.
  - rewrite IH. replace (8 * Z.of_nat (S n)) with (8 + 8 * Z.of_nat n) by lia.
    rewrite Z.pow_add_r by lia. change (2 ^ 8) with 256.
    assert (0 < 2 ^ (8 * Z.of_nat n)) by (apply Z.pow_pos_nonneg; lia).
    rewrite Z.rem_mul_r by lia. done.
Qed.

Lemma of_le_le_bytes_small n z : in_width (8 * Z.of_nat n) z → of_le (le_bytes n z) = z.
Proof. intros H. rewrite of_le_le_bytes. by apply Z.mod_small. Qed.

Definition is_byte (b : Z) : Prop := 0 ≤ b < 256.

Lemma le_bytes_is_byte n z : Forall is_byte (le_bytes n z).
Proof.
  revert z. induction n; intros z; simpl; constructor; auto.
  apply Z.mod_pos_bound. lia.
Qed.

Lemma of_le_width l : Forall is_byte l → in_width (8 * Z.of_nat (length l)) (of_le l).
Proof.
  unfold in_width. induction 1 as [|b l Hb _ IH]; simpl of_le; simpl length; [done|]. unfold is_byte in Hb.
  replace (8 * Z.of_nat (S (length l))) with (8 + 8 * Z.of_nat (length l)) by lia.
  rewrite Z.pow_add_r by lia. change (2 ^ 8) with 256. lia.
Qed.

Lemma le_bytes_of_le l : Forall is_byte l → le_bytes (length l) (of_le l) = l.
Proof.
  induction 1 as [|b l Hb _ IH]; simpl; [done|]. unfold is_byte in Hb. f_equal.
  - rewrite Z.mul_comm, Z.mod_add by lia. apply Z.mod_small. lia.
  - rewrite Z.mul_comm, Z.div_add by lia. rewrite Z.div_small by lia. exact IH.
Qed.

#[export] Hint Rewrite length_le_bytes : bedrock_list.
#[export] Hint Resolve le_bytes_is_byte : bedrock.

(** Rust's [Result]. *)
Inductive result (A E : Type) : Type :=
| Ok (a : A)
| Err (e : E).
Arguments Ok {A E} a.
Arguments Err {A E} e.

Lemma mapM_app_option {A B} (f : A → option B) l1 l2 :
  mapM f (l1 ++ l2) = (k1 ← mapM f l1; k2 ← mapM f l2; Some (k1 ++ k2)).
Proof.
  induction l1 as [|x l1 IH]; simpl.
  - by destruct (mapM f l2).
  - destruct (f x); simpl; [|done]. rewrite IH. destruct (mapM f l1); simpl; [|done].
    by destruct (mapM f l2).
Qed.
