(* ===== verification/Vpid.v ===== *)
(** * The VPID allocator ([traits/vpid.rs])

    Every VM has a 16-bit tag for its translations in the TLB.  The tags are
    handed out from a bitmap of atomic words shared by all the threads of the
    host, without a lock: a thread loads a word, picks its first clear bit and
    claims it with a fetch-or, and starts over when another thread was faster.
    The model is at the grain of the atomic operations: [atomic] is one of them,
    [vpid_steps] any interleaving of any number of threads.  The theorems: no
    two VMs ever hold the same tag and none holds zero, under any interleaving;
    and an allocation that is not disturbed ends within a fixed number of steps,
    with a tag unless all 65535 are held. *)
From S2P Require Import Prelude.

Definition BITMAP_WORDS : nat := 1024.

(** [u64::trailing_zeros], the number of bits looked at being [n]. *)
Fixpoint trailing_zeros (n : nat) (x : Z) : Z :=
  match n with
  | O => 0
  | S n' => if Z.odd x then 0 else 1 + trailing_zeros n' (Z.shiftr x 1)
  end.

(** The two statics. *)
Record allocator := mkAllocator { words : list Z; search_hint : Z }.
Definition vpid_bitmap_new : allocator := mkAllocator (replicate BITMAP_WORDS 0) 1.
Definition reset_vpid_counter : allocator := mkAllocator (<[0%nat := 1]> (replicate BITMAP_WORDS 0)) 1.

Definition word_idx (vpid : Z) : nat := Z.to_nat (vpid / 64).
Definition mask (vpid : Z) : Z := Z.shiftl 1 (vpid mod 64).
Definition load_word (i : nat) (a : allocator) : Z := nth i (words a) 0.
Definition store_word (i : nat) (w : Z) (a : allocator) : allocator := mkAllocator (<[i := w]> (words a)) (search_hint a).
Definition store_hint (h : Z) (a : allocator) : allocator := mkAllocator (words a) h.

(** [try_allocate]: one fetch-or, and whether the bit was clear before. *)
Definition try_allocate (vpid : Z) (a : allocator) : bool * allocator :=
  let old := load_word (word_idx vpid) a in
  (Z.land old (mask vpid) =? 0, store_word (word_idx vpid) (Z.lor old (mask vpid)) a).
(** [deallocate]: one fetch-and, none for the reserved tag. *)
Definition deallocate (vpid : Z) (a : allocator) : allocator :=
  if vpid =? 0 then a
  else store_word (word_idx vpid) (Z.ldiff (load_word (word_idx vpid) a) (mask vpid)) a.

(** The words in the order [allocate_any] looks at them. *)
Definition scan_order (hint : Z) : list nat :=
  let start := word_idx hint in seq start (BITMAP_WORDS - start) ++ seq 0 start.

(** Where a thread is. *)
Inductive thread :=
| Idle                                   (** has no tag and asks for none *)
| LoadHint                               (** [allocate_vpid]: about to load the hint *)
| Scan (i : nat) (rest : list nat)       (** [try_allocate_in_word]: about to load word [i] *)
| MarkZero (i : nat) (rest : list nat)   (** about to reserve tag zero *)
| Claim (v : Z) (i : nat) (rest : list nat)  (** about to try [v] *)
| StoreHint (v : Z)                      (** has [v], about to store the hint *)
| Holds (v : Z)                          (** a VM with the tag [v] *)
| Drop (v : Z)                           (** [deallocate_vpid]: about to clear the bit *)
| ReadHint (v : Z)                       (** about to load the hint *)
| LowerHint (v h : Z)                    (** about to compare and store *)
| Panicked.

Definition next_word (rest : list nat) : thread := match rest with [] => Panicked | i :: rest => Scan i rest end.

(** One atomic operation of a thread; [None] where the thread waits for its VM. *)
Definition atomic (t : thread) (a : allocator) : option (thread * allocator) :=
  match t with
  | Idle | Holds _ | Panicked => None
  | LoadHint => Some (next_word (scan_order (search_hint a)), a)
  | Scan i rest =>
      let word := load_word i a in
      if word =? u64_MAX then Some (next_word rest, a)
      else
        let vpid := u16 (Z.of_nat i * 64 + trailing_zeros 64 (u64 (Z.lnot word))) in
        Some (if vpid =? 0 then MarkZero i rest else Claim vpid i rest, a)
  | MarkZero i rest => Some (Scan i rest, store_word 0 (Z.lor (load_word 0 a) 1) a)
  | Claim v i rest => let '(got, a') := try_allocate v a in Some (if got then StoreHint v else Scan i rest, a')
  | StoreHint v => Some (Holds v, store_hint (u16 (v + 1)) a)
  | Drop v => Some (ReadHint v, deallocate v a)
  | ReadHint v => Some (LowerHint v (search_hint a), a)
  | LowerHint v h => Some (Idle, if v <? h then store_hint v a else a)
  end.

(** Any thread may take its next step; a VM may come to life or be dropped. *)
Definition system : Type := list thread * allocator.
Inductive vpid_step : system → system → Prop :=
| thread_step ts a n t t' a' : ts !! n = Some t → atomic t a = Some (t', a') → vpid_step (ts, a) (<[n := t']> ts, a')
| thread_create ts a n : ts !! n = Some Idle → vpid_step (ts, a) (<[n := LoadHint]> ts, a)
| thread_drop ts a n v : ts !! n = Some (Holds v) → vpid_step (ts, a) (<[n := Drop v]> ts, a).
Inductive vpid_steps : system → system → Prop :=
| steps_none st : vpid_steps st st
| steps_more st st' st'' : vpid_steps st st' → vpid_step st' st'' → vpid_steps st st''.

(** An allocation or release left alone. *)
Fixpoint run_thread (n : nat) (t : thread) (a : allocator) : thread * allocator :=
  match n with
  | O => (t, a)
  | S n' => match atomic t a with Some (t', a') => run_thread n' t' a' | None => (t, a) end
  end.

(** ** The bitmap *)
Definition in_use (a : allocator) (v : Z) : bool := Z.testbit (load_word (word_idx v) a) (v mod 64).
Definition is_vpid (v : Z) : Prop := 0 ≤ v < 65536.
Record allocator_ok (a : allocator) : Prop := {
  ao_length : length (words a) = BITMAP_WORDS;
  ao_words i : in_width 64 (load_word i a);
  ao_hint : is_vpid (search_hint a);
}.

Lemma word_idx_bound v : is_vpid v → (word_idx v < BITMAP_WORDS)%nat.
Proof. unfold is_vpid, word_idx, BITMAP_WORDS. intros. assert (v / 64 < 1024) by (apply Z.div_lt_upper_bound; lia). lia. Qed.
Lemma load_word_store i j w a :
  (i < length (words a))%nat → load_word j (store_word i w a) = if decide (i = j) then w else load_word j a.
Proof.
  intros Hi. unfold load_word, store_word. cbn. rewrite !nth_lookup. case_decide as Hij.
  - subst j. by rewrite list_lookup_insert_eq.
  - by rewrite list_lookup_insert_ne.
Qed.
Lemma testbit_mask v i : 0 ≤ i → Z.testbit (mask v) i = (v mod 64 =? i).
Proof. intros Hi. unfold mask. rewrite Z.shiftl_1_l. destruct (Z.eqb_spec (v mod 64) i) as [<-|Hne]; [apply Z.pow2_bits_true|apply Z.pow2_bits_false; lia]. lia. Qed.
Lemma mask_width v : in_width 64 (mask v).
Proof.
  unfold mask, in_width. rewrite Z.shiftl_1_l. pose proof (Z.mod_pos_bound v 64). split; [apply Z.pow_nonneg; lia|]. apply Z.pow_lt_mono_r; lia.
Qed.
Lemma same_vpid v v' : is_vpid v → is_vpid v' → word_idx v = word_idx v' → v mod 64 = v' mod 64 → v = v'.
Proof.
  unfold is_vpid, word_idx. intros. pose proof (Z.div_pos v 64). pose proof (Z.div_pos v' 64).
  rewrite (Z.div_mod v 64), (Z.div_mod v' 64) by lia. lia.
Qed.

(** A change of one word at the bit of [v]. *)
Lemma in_use_store a v v' (b : bool) w :
  allocator_ok a → is_vpid v → is_vpid v' →
  (∀ i, 0 ≤ i → Z.testbit w i = if v mod 64 =? i then b else Z.testbit (load_word (word_idx v) a) i) →
  in_use (store_word (word_idx v) w a) v' = if v =? v' then b else in_use a v'.
Proof.
  intros Ha Hv Hv' Hw. unfold in_use. rewrite load_word_store by (rewrite (ao_length _ Ha); by apply word_idx_bound).
  pose proof (Z.mod_pos_bound v' 64). destruct (decide (word_idx v = word_idx v')) as [E|E].
  - rewrite Hw by lia. destruct (Z.eqb_spec (v mod 64) (v' mod 64)) as [Em|Em]; [by rewrite (proj2 (Z.eqb_eq v v')) by (by apply same_vpid)|].
    rewrite (proj2 (Z.eqb_neq v v')) by congruence. by rewrite E.
  - by rewrite (proj2 (Z.eqb_neq v v')) by congruence.
Qed.
Lemma in_use_set a v v' :
  allocator_ok a → is_vpid v → is_vpid v' →
  in_use (store_word (word_idx v) (Z.lor (load_word (word_idx v) a) (mask v)) a) v' = (v =? v') || in_use a v'.
Proof.
  intros Ha Hv Hv'. rewrite (in_use_store a v v' true) by (try done; intros; rewrite Z.lor_spec, testbit_mask by done; by destruct (_ =? _); rewrite ?orb_true_r, ?orb_false_r).
  by destruct (v =? v').
Qed.
Lemma in_use_clear a v v' :
  allocator_ok a → is_vpid v → is_vpid v' →
  in_use (store_word (word_idx v) (Z.ldiff (load_word (word_idx v) a) (mask v)) a) v' = negb (v =? v') && in_use a v'.
Proof.
  intros Ha Hv Hv'. rewrite (in_use_store a v v' false) by (try done; intros; rewrite Z.ldiff_spec, testbit_mask by done; by destruct (_ =? _); rewrite ?andb_false_r, ?andb_true_r).
  by destruct (v =? v').
Qed.
Lemma store_word_ok a i w : allocator_ok a → in_width 64 w → (i < BITMAP_WORDS)%nat → allocator_ok (store_word i w a).
Proof.
  intros [Hl Hw Hh] Hww Hi. constructor; [by cbn; rewrite length_insert| |done]. intros j. rewrite load_word_store by lia. by case_decide.
Qed.
Lemma store_hint_ok a h : allocator_ok a → is_vpid h → allocator_ok (store_hint h a).
Proof. by intros [Hl Hw _] Hh. Qed.

(** The fetch-or says whether the tag was free. *)
Lemma land_mask_zero w v : 0 ≤ w → (Z.land w (mask v) =? 0) = negb (Z.testbit w (v mod 64)).
Proof.
  intros Hw. pose proof (Z.mod_pos_bound v 64). destruct (Z.testbit w (v mod 64)) eqn:E; cbn.
  - apply Z.eqb_neq. intros H0. apply (f_equal (λ z, Z.testbit z (v mod 64))) in H0.
    by rewrite Z.land_spec, E, testbit_mask, Z.eqb_refl, Z.bits_0 in H0 by lia.
  - apply Z.eqb_eq. apply Z.bits_inj'. intros i Hi. rewrite Z.land_spec, testbit_mask, Z.bits_0 by done.
    destruct (Z.eqb_spec (v mod 64) i) as [<-|]; [by rewrite E|apply andb_false_r].
Qed.
Lemma try_allocate_run a v :
  allocator_ok a → is_vpid v →
  ∃ a', try_allocate v a = (negb (in_use a v), a') ∧ allocator_ok a' ∧ ∀ v', is_vpid v' → in_use a' v' = (v =? v') || in_use a v'.
Proof.
  intros Ha Hv. unfold try_allocate. eexists. split; [|split].
  - f_equal. apply land_mask_zero, (ao_words _ Ha).
  - apply store_word_ok; [done| |by apply word_idx_bound]. apply in_width_lor; [done|apply (ao_words _ Ha)|apply mask_width].
  - intros v' Hv'. by apply in_use_set.
Qed.
Lemma deallocate_run a v :
  allocator_ok a → is_vpid v → v ≠ 0 →
  allocator_ok (deallocate v a) ∧ ∀ v', is_vpid v' → in_use (deallocate v a) v' = negb (v =? v') && in_use a v'.
Proof.
  intros Ha Hv Hv0. unfold deallocate. rewrite (proj2 (Z.eqb_neq v 0)) by done. split; [|intros; by apply in_use_clear].
  apply store_word_ok; [done| |by apply word_idx_bound]. apply in_width_bits; [done| |].
  - apply Z.ldiff_nonneg. left. apply (ao_words _ Ha).
  - intros i Hi. rewrite Z.ldiff_spec, (testbit_above 64) by (try apply (ao_words _ Ha); lia). done.
Qed.

(** The first clear bit of a word that is not full. *)
Lemma trailing_zeros_bound n x : 0 ≤ trailing_zeros n x ≤ Z.of_nat n.
Proof. revert x. induction n as [|n IH]; intros x; cbn; [lia|]. destruct (Z.odd x); [lia|]. specialize (IH (Z.shiftr x 1)). lia. Qed.
Lemma trailing_zeros_spec n x :
  (∃ i, 0 ≤ i < Z.of_nat n ∧ Z.testbit x i = true) → trailing_zeros n x < Z.of_nat n ∧ Z.testbit x (trailing_zeros n x) = true.
Proof.
  revert x. induction n as [|n IH]; intros x (i & Hi & Hb); [lia|]. cbn. destruct (Z.odd x) eqn:Ho.
  - split; [lia|]. by rewrite Z.bit0_odd.
  - assert (i ≠ 0) by (intros ->; rewrite Z.bit0_odd in Hb; congruence).
    destruct (IH (Z.shiftr x 1)) as [H1 H2]. { exists (i - 1). split; [lia|]. rewrite Z.shiftr_spec by lia. by replace (i - 1 + 1) with i by lia. }
    pose proof (trailing_zeros_bound n (Z.shiftr x 1)). split; [lia|]. rewrite Z.shiftr_spec in H2 by lia. by rewrite Z.add_comm.
Qed.
Lemma first_clear w :
  in_width 64 w → w ≠ u64_MAX →
  let b := trailing_zeros 64 (u64 (Z.lnot w)) in 0 ≤ b < 64 ∧ Z.testbit w b = false.
Proof.
  intros Hw Hne b.
  assert (∀ i, 0 ≤ i < 64 → Z.testbit (u64 (Z.lnot w)) i = negb (Z.testbit w i)) as Hbit.
  { intros i Hi. unfold u64, wrap. rewrite Z.testbit_mod_pow2, Z.lnot_spec by lia. by rewrite (proj2 (Z.ltb_lt i 64)) by lia. }
  assert (∃ i, 0 ≤ i < 64 ∧ Z.testbit w i = false) as (i & Hi & Hz).
  { destruct (decide (Exists (λ i, Z.testbit w i = false) (seqZ 0 64))) as [H|H].
    - apply Exists_exists in H as (i & Hi%elem_of_seqZ & Hz). exists i. split; [lia|done].
    - destruct Hne.
      apply Z.bits_inj'. intros i Hi. change u64_MAX with (Z.ones 64). rewrite Z.testbit_ones_nonneg by lia.
      destruct (Z.ltb_spec i 64); [|by apply (testbit_above 64)].
      destruct (Z.testbit w i) eqn:E; [done|]. destruct H. apply Exists_exists. exists i. split; [apply elem_of_seqZ; lia|done]. }
  destruct (trailing_zeros_spec 64 (u64 (Z.lnot w))) as [H1 H2]. { exists i. split; [lia|]. by rewrite Hbit, Hz by lia. }
  pose proof (trailing_zeros_bound 64 (u64 (Z.lnot w))) as [H0 _]. fold b in H0, H1, H2. split; [lia|].
  rewrite Hbit in H2 by lia. by apply negb_true_iff.
Qed.
(** What the load of a word leads to. *)
Lemma candidate a i :
  allocator_ok a → (i < BITMAP_WORDS)%nat → load_word i a ≠ u64_MAX →
  let v := u16 (Z.of_nat i * 64 + trailing_zeros 64 (u64 (Z.lnot (load_word i a)))) in
  is_vpid v ∧ word_idx v = i ∧ in_use a v = false.
Proof.
  intros Ha Hi Hw v. destruct (first_clear _ (ao_words _ Ha i) Hw) as [Hb Hz].
  set (b := trailing_zeros 64 (u64 (Z.lnot (load_word i a)))) in *. unfold BITMAP_WORDS in Hi.
  assert (v = Z.of_nat i * 64 + b) as Ev by (apply wrap_small; split; lia).
  assert (word_idx v = i) as Ei. { unfold word_idx. rewrite Ev, Z.div_add_l, Z.div_small by lia. lia. }
  split; [unfold is_vpid; lia|]. split; [done|]. unfold in_use. rewrite Ei, Ev.
  rewrite Z.add_comm, Z.mod_add, Z.mod_small by lia. done.
Qed.

#[local] Arguments trailing_zeros : simpl never.

(** ** No two VMs share a tag *)

(** The tag a thread owns. *)
Definition owns (t : thread) : option Z :=
  match t with StoreHint v | Holds v | Drop v => Some v | _ => None end.
Definition in_range (i : nat) (rest : list nat) : Prop := (i < BITMAP_WORDS)%nat ∧ Forall (λ j, (j < BITMAP_WORDS)%nat) rest.
Definition thread_ok (t : thread) : Prop :=
  match t with
  | Scan i rest => in_range i rest
  | MarkZero i rest => i = 0%nat ∧ in_range i rest
  | Claim v i rest => is_vpid v ∧ v ≠ 0 ∧ in_range i rest
  | StoreHint v | Holds v | Drop v | ReadHint v | LowerHint v _ => is_vpid v ∧ v ≠ 0
  | _ => True
  end.
Definition owner (ts : list thread) (v : Z) (n : nat) : Prop := ∃ t, ts !! n = Some t ∧ owns t = Some v.
(** A tag in use has exactly one owner, any other has none. *)
Definition tag_ok (ts : list thread) (a : allocator) (v : Z) : Prop :=
  if in_use a v then ∃ n, ∀ m, owner ts v m ↔ m = n else ∀ m, ~ owner ts v m.
Record system_ok (st : system) : Prop := {
  so_allocator : allocator_ok st.2;
  so_threads : Forall thread_ok st.1;
  so_tags v : is_vpid v → v ≠ 0 → tag_ok st.1 st.2 v;
}.

Lemma scan_order_ok h : is_vpid h → Forall (λ j, (j < BITMAP_WORDS)%nat) (scan_order h).
Proof.
  intros Hh%word_idx_bound. unfold scan_order. apply Forall_app. split; apply Forall_forall; intros j Hj%elem_of_seq; lia.
Qed.
Lemma next_word_ok rest : Forall (λ j, (j < BITMAP_WORDS)%nat) rest → thread_ok (next_word rest) ∧ owns (next_word rest) = None.
Proof. intros H. destruct rest as [|i rest]; [done|]. apply Forall_cons in H. done. Qed.

(** What one atomic operation does to the tags: the owner changes nothing of the
    others', and the bitmap follows it. *)
Lemma atomic_run t a t' a' :
  allocator_ok a → thread_ok t → (∀ v, owns t = Some v → in_use a v = true) → atomic t a = Some (t', a') →
  allocator_ok a' ∧ thread_ok t' ∧
  ((owns t' = owns t ∧ ∀ v, is_vpid v → v ≠ 0 → in_use a' v = in_use a v) ∨
   (∃ v, owns t = None ∧ owns t' = Some v ∧ in_use a v = false ∧ ∀ v', is_vpid v' → in_use a' v' = (v =? v') || in_use a v') ∨
   (∃ v, owns t = Some v ∧ owns t' = None ∧ ∀ v', is_vpid v' → in_use a' v' = negb (v =? v') && in_use a v')).
Proof.
  intros Ha Ht Hu E. destruct t as [| |i rest|i rest|v i rest|v|v|v|v|v h|]; cbn [atomic] in E; try done.
  - injection E as <- <-. destruct (next_word_ok _ (scan_order_ok _ (ao_hint _ Ha))). auto.
  - destruct Ht as [Hi Hrest]. destruct (Z.eqb_spec (load_word i a) u64_MAX) as [|Hw]; injection E as <- <-.
    { destruct (next_word_ok _ Hrest). auto. }
    destruct (candidate a i Ha Hi Hw) as (Hv & Hidx & _). split; [done|].
    destruct (Z.eqb_spec (u16 (Z.of_nat i * 64 + trailing_zeros 64 (u64 (Z.lnot (load_word i a))))) 0) as [E0|E0]; [|split; [done|auto]].
    split; [|auto]. rewrite E0 in Hidx. split; [|done]. by rewrite <-Hidx.
  - destruct Ht as [-> [Hi Hrest]]. injection E as <- <-. assert (is_vpid 0) as H0 by (unfold is_vpid; lia).
    destruct (try_allocate_run a 0 Ha H0) as (a' & Hrun & Ha' & Hin). unfold try_allocate in Hrun. injection Hrun as _ <-.
    split; [exact Ha'|]. split; [done|]. left. split; [done|]. intros v Hv Hne.
    change (word_idx 0) with 0%nat in Hin. change (mask 0) with 1 in Hin. rewrite Hin by done. by rewrite (proj2 (Z.eqb_neq 0 v)) by done.
  - destruct Ht as (Hv & Hne & Hr). destruct (try_allocate_run a v Ha Hv) as (b & Hrun & Hb & Hin). rewrite Hrun in E. injection E as <- <-.
    split; [done|]. destruct (in_use a v) eqn:Eu; cbn [negb].
    + split; [done|]. left. split; [done|]. intros v' Hv' _. rewrite Hin by done. destruct (Z.eqb_spec v v') as [<-|]; [by rewrite Eu|done].
    + split; [done|]. right; left. by exists v.
  - injection E as <- <-. split; [apply store_hint_ok; [done|]|by auto]. apply (in_width_u16 (v + 1)).
  - injection E as <- <-. destruct Ht as [Hv Hne]. destruct (deallocate_run a v Ha Hv Hne) as [Hb Hin].
    split; [done|]. split; [done|]. right; right. by exists v.
  - injection E as <- <-. auto.
  - injection E as <- <-. destruct (v <? h); (split; [|split; [done|by left]]); [|done]. by apply store_hint_ok; [|apply Ht].
Qed.

Lemma owner_vpid t v : thread_ok t → owns t = Some v → is_vpid v ∧ v ≠ 0.
Proof. intros Ht Hv. destruct t; try done; injection Hv as ->; apply Ht. Qed.
Lemma owner_insert ts n t t' v m :
  ts !! n = Some t → owner (<[n := t']> ts) v m ↔ (m = n ∧ owns t' = Some v) ∨ (m ≠ n ∧ owner ts v m).
Proof.
  intros Hn%lookup_lt_Some. unfold owner. destruct (decide (m = n)) as [->|Hne].
  - rewrite list_lookup_insert_eq by done. split; [intros (u & [= <-] & Hu); auto|intros [[_ Hu]|[? _]]; [by eexists|done]].
  - rewrite list_lookup_insert_ne by done. split; [auto|intros [[? _]|[_ H]]; done].
Qed.
Lemma owner_at ts n t v : ts !! n = Some t → owner ts v n ↔ owns t = Some v.
Proof. intros Hn. unfold owner. rewrite Hn. split; [intros (u & [= <-] & Hu); done|by eexists]. Qed.
(** A thread that keeps what it owns does not change the owners. *)
Lemma owner_same ts n t t' v m : ts !! n = Some t → owns t' = Some v ↔ owns t = Some v → owner (<[n := t']> ts) v m ↔ owner ts v m.
Proof.
  intros Hn Hs. rewrite (owner_insert ts n t) by done. rewrite Hs. destruct (decide (m = n)) as [->|]; [rewrite (owner_at ts n t) by done|]; tauto.
Qed.
Lemma owner_bit st n t v : system_ok st → st.1 !! n = Some t → owns t = Some v → in_use st.2 v = true.
Proof.
  intros [_ Hts Ht] Hn Hv. destruct (owner_vpid t v (Forall_lookup_1 _ _ _ _ Hts Hn) Hv) as [Hvp Hv0]. specialize (Ht v Hvp Hv0).
  unfold tag_ok in Ht. destruct (in_use st.2 v); [done|]. destruct (Ht n). by apply (owner_at _ n t).
Qed.

Lemma tags_same ts a n t t' a' :
  ts !! n = Some t → owns t' = owns t → (∀ v, is_vpid v → v ≠ 0 → in_use a' v = in_use a v) →
  ∀ v, is_vpid v → v ≠ 0 → tag_ok ts a v → tag_ok (<[n := t']> ts) a' v.
Proof.
  intros Hn Hown Hin v Hv H0 Ht. unfold tag_ok in *. rewrite Hin by done.
  assert (∀ m, owner (<[n := t']> ts) v m ↔ owner ts v m) as Ho by (intros m; apply (owner_same ts n t); [done|by rewrite Hown]).
  destruct (in_use a v); [destruct Ht as [k Hk]; exists k|]; intros m; rewrite Ho; apply Ht || apply Hk.
Qed.
Lemma system_step st st' : system_ok st → vpid_step st st' → system_ok st'.
Proof.
  intros Hok Hstep. pose proof Hok as [Ha Hts Htags]. destruct Hstep as [ts a n t t' a' Hn E|ts a n Hn|ts a n v Hn]; cbn [fst snd] in *.
  2, 3: constructor; cbn [fst snd]; [done|apply Forall_insert; [done|]|intros; eapply (tags_same ts a n); eauto].
  2: done. 2: exact (Forall_lookup_1 _ _ _ _ Hts Hn).
  pose proof (Forall_lookup_1 _ _ _ _ Hts Hn) as Ht.
  destruct (atomic_run t a t' a' Ha Ht (λ v, owner_bit _ n t v Hok Hn) E) as (Ha' & Ht' & Hcase).
  constructor; cbn [fst snd]; [done|by apply Forall_insert|]. intros v Hv H0. specialize (Htags v Hv H0).
  destruct Hcase as [[Hown Hin]|[(w & Hnone & Hsome & Hfree & Hin)|(w & Hsome & Hnone & Hin)]].
  - by apply (tags_same ts a n t).
  - unfold tag_ok in *. rewrite Hin by done. destruct (Z.eqb_spec w v) as [->|Hne]; cbn [orb].
    + rewrite Hfree in Htags. exists n. intros m. rewrite (owner_insert ts n t) by done. split; [intros [[? _]|[_ Hm]]; [done|by destruct (Htags m)]|auto].
    + assert (∀ m, owner (<[n := t']> ts) v m ↔ owner ts v m) as Ho by (intros m; apply (owner_same ts n t); [done|split; congruence]).
      destruct (in_use a v); [destruct Htags as [k Hk]; exists k|]; intros m; rewrite Ho; apply Htags || apply Hk.
  - pose proof (owner_bit _ n t w Hok Hn Hsome) as Hbit. unfold tag_ok in *. rewrite Hin by done. destruct (Z.eqb_spec w v) as [->|Hne]; cbn [negb andb].
    + cbn [snd] in Hbit. rewrite Hbit in Htags. destruct Htags as [k Hk]. intros m. rewrite (owner_insert ts n t) by done.
      intros [[_ ?]|[Hmn Hm%Hk]]; [congruence|]. apply Hmn. rewrite Hm. symmetry. apply Hk. by apply (owner_at ts n t).
    + assert (∀ m, owner (<[n := t']> ts) v m ↔ owner ts v m) as Ho by (intros m; apply (owner_same ts n t); [done|split; congruence]).
      destruct (in_use a v); [destruct Htags as [k Hk]; exists k|]; intros m; rewrite Ho; apply Htags || apply Hk.
Qed.
Lemma system_steps st st' : system_ok st → vpid_steps st st' → system_ok st'.
Proof. intros Hok Hs. induction Hs as [|st st' st'' _ IH Hstep]; [done|]. apply (system_step st'); [by apply IH|done]. Qed.

(** ** An allocation on its own *)
Definition holds_new (a : allocator) (v : Z) (a' : allocator) : Prop :=
  is_vpid v ∧ v ≠ 0 ∧ in_use a v = false ∧ search_hint a' = u16 (v + 1) ∧ allocator_ok a' ∧
  ∀ v', is_vpid v' → v' ≠ 0 → in_use a' v' = (v =? v') || in_use a v'.
Definition all_in_use (a : allocator) (l : list nat) : Prop := ∀ v, is_vpid v → v ≠ 0 → word_idx v ∈ l → in_use a v = true.
Definition scan_result (a : allocator) (l : list nat) (t : thread) (a' : allocator) : Prop :=
  (∃ v, t = Holds v ∧ holds_new a v a') ∨ (t = Panicked ∧ all_in_use a l).

Lemma run_thread_done n t a : atomic t a = None → run_thread n t a = (t, a).
Proof. intros H. destruct n; cbn [run_thread]; [done|]. by rewrite H. Qed.
Lemma full_word a i v : is_vpid v → load_word i a = u64_MAX → word_idx v = i → in_use a v = true.
Proof.
  intros Hv Hw <-. unfold in_use. rewrite Hw. change u64_MAX with (Z.ones 64). pose proof (Z.mod_pos_bound v 64).
  rewrite Z.testbit_ones_nonneg by lia. apply Z.ltb_lt. lia.
Qed.
Lemma claim_run a v i rest :
  allocator_ok a → is_vpid v → v ≠ 0 → in_use a v = false →
  ∃ a', (∀ n, run_thread (S (S n)) (Claim v i rest) a = (Holds v, a')) ∧ holds_new a v a'.
Proof.
  intros Ha Hv H0 Hu. destruct (try_allocate_run a v Ha Hv) as (b & Hrun & Hb & Hin). rewrite Hu in Hrun.
  exists (store_hint (u16 (v + 1)) b). split.
  - intros n. cbn [run_thread atomic]. rewrite Hrun. cbn [negb run_thread atomic]. by apply run_thread_done.
  - split; [done|]. split; [done|]. split; [done|]. split; [done|]. split; [apply store_hint_ok; [done|apply in_width_u16]|].
    intros v' Hv' _. by apply Hin.
Qed.
Lemma scan_full n a i rest :
  load_word i a = u64_MAX → run_thread (S n) (Scan i rest) a = run_thread n (next_word rest) a.
Proof. intros Hw. cbn [run_thread atomic]. by rewrite Hw, Z.eqb_refl. Qed.
(** A word with a clear bit: its tag, or tag zero. *)
Lemma scan_takes a i rest :
  allocator_ok a → (i < BITMAP_WORDS)%nat → load_word i a ≠ u64_MAX →
  (∃ v a', (∀ n, run_thread (3 + n) (Scan i rest) a = (Holds v, a')) ∧ holds_new a v a') ∨
  (i = 0%nat ∧ in_use a 0 = false ∧ ∀ n, run_thread (S n) (Scan i rest) a = run_thread n (MarkZero i rest) a).
Proof.
  intros Ha Hi Hw. destruct (candidate a i Ha Hi Hw) as (Hv & Hidx & Hu).
  set (v := u16 (Z.of_nat i * 64 + trailing_zeros 64 (u64 (Z.lnot (load_word i a))))) in *.
  destruct (Z.eqb_spec v 0) as [E0|E0].
  - right. rewrite E0 in Hidx, Hu. split; [done|]. split; [done|]. intros n. cbn [run_thread atomic]. fold v. by rewrite (proj2 (Z.eqb_neq _ _)), E0.
  - left. destruct (claim_run a v i rest Ha Hv E0 Hu) as (a' & Hrun & Hnew). exists v, a'. split; [|done]. intros n.
    change (3 + n)%nat with (S (S (S n))). cbn [run_thread atomic]. fold v. rewrite (proj2 (Z.eqb_neq _ _)) by done.
    rewrite (proj2 (Z.eqb_neq v 0)) by done. apply Hrun.
Qed.
Lemma scan_result_cons a i l t a' : load_word i a = u64_MAX → scan_result a l t a' → scan_result a (i :: l) t a'.
Proof.
  intros Hw [?|[-> Hall]]; [by left|right]. split; [done|]. intros v Hv Hv0 [Hvi|Hvi]%elem_of_cons; [by apply (full_word a i)|by apply Hall].
Qed.

(** The scan when tag zero is reserved, and in general. *)
Lemma scan_reserved l : ∀ n a, allocator_ok a → Forall (λ j, (j < BITMAP_WORDS)%nat) l → in_use a 0 = true →
  ∃ t a', run_thread (length l + 2 + n) (next_word l) a = (t, a') ∧ scan_result a l t a'.
Proof.
  induction l as [|i l IH]; intros n a Ha Hl H0.
  { exists Panicked, a. split; [by apply run_thread_done|]. right. split; [done|]. intros v _ _ []%not_elem_of_nil. }
  apply Forall_cons in Hl as [Hi Hl]. cbn [next_word]. destruct (decide (load_word i a = u64_MAX)) as [Hw|Hw].
  - destruct (IH n a Ha Hl H0) as (t & a' & Hrun & Hres). exists t, a'. split; [|by apply scan_result_cons]. rewrite <-Hrun. by apply scan_full.
  - destruct (scan_takes a i l Ha Hi Hw) as [(v & a' & Hrun & Hnew)|(-> & Hu & _)]; [|congruence].
    exists (Holds v), a'. split; [|left; by exists v].
    replace (length (i :: l) + 2 + n)%nat with (3 + (length l + n))%nat by (cbn; lia). apply Hrun.
Qed.
Lemma mark_zero a : allocator_ok a →
  let a' := store_word 0 (Z.lor (load_word 0 a) 1) a in
  allocator_ok a' ∧ in_use a' 0 = true ∧ ∀ v, is_vpid v → v ≠ 0 → in_use a' v = in_use a v.
Proof.
  intros Ha. assert (is_vpid 0) as H0 by (unfold is_vpid; lia). destruct (try_allocate_run a 0 Ha H0) as (a' & Hrun & Ha' & Hin).
  unfold try_allocate in Hrun. injection Hrun as _ <-. change (word_idx 0) with 0%nat in *. change (mask 0) with 1 in *.
  split; [done|]. split; [by rewrite Hin|]. intros v Hv Hv0. rewrite Hin by done. by rewrite (proj2 (Z.eqb_neq 0 v)).
Qed.
Lemma scan_result_same a a1 l t a' :
  (∀ v, is_vpid v → v ≠ 0 → in_use a1 v = in_use a v) → scan_result a1 l t a' → scan_result a l t a'.
Proof.
  intros Hs [(v & -> & Hv & H0 & Hu & Hh & Hok & Hin)|[-> Hall]].
  - left. exists v. split; [done|]. rewrite Hs in Hu by done. do 5 (split; [done|]). intros v' Hv' Hv0. rewrite Hin by done. by rewrite Hs.
  - right. split; [done|]. intros v Hv H0 Hl. rewrite <-Hs by done. by apply Hall.
Qed.
Lemma scan_any l : ∀ n a, allocator_ok a → Forall (λ j, (j < BITMAP_WORDS)%nat) l →
  ∃ t a', run_thread (length l + 4 + n) (next_word l) a = (t, a') ∧ scan_result a l t a'.
Proof.
  induction l as [|i l IH]; intros n a Ha Hl.
  { exists Panicked, a. split; [by apply run_thread_done|]. right. split; [done|]. intros v _ _ []%not_elem_of_nil. }
  apply Forall_cons in Hl as [Hi Hl]. cbn [next_word]. destruct (decide (load_word i a = u64_MAX)) as [Hw|Hw].
  - destruct (IH n a Ha Hl) as (t & a' & Hrun & Hres). exists t, a'. split; [|by apply scan_result_cons]. rewrite <-Hrun. by apply scan_full.
  - destruct (scan_takes a i l Ha Hi Hw) as [(v & a' & Hrun & Hnew)|(-> & Hu & Hrun)].
    + exists (Holds v), a'. split; [|left; by exists v].
      replace (length (i :: l) + 4 + n)%nat with (3 + (length l + 2 + n))%nat by (cbn; lia). apply Hrun.
    + destruct (mark_zero a Ha) as (Ha1 & Hz & Hs). set (a1 := store_word 0 (Z.lor (load_word 0 a) 1) a) in *.
      destruct (scan_reserved (0%nat :: l) n a1 Ha1 ltac:(by apply Forall_cons) Hz) as (t & a' & Hrun' & Hres).
      exists t, a'. split; [|by apply (scan_result_same a a1)].
      replace (length (0%nat :: l) + 4 + n)%nat with (S (S (length (0%nat :: l) + 2 + n))) by (cbn; lia). by rewrite Hrun.
Qed.

(** The steps an undisturbed allocation may need: the hint, a load for every
    word, tag zero reserved and its word loaded again, the claim and the hint. *)
Definition alloc_steps : nat := 1 + BITMAP_WORDS + 4.
Lemma scan_order_all h i : is_vpid h → (i < BITMAP_WORDS)%nat → i ∈ scan_order h.
Proof. intros Hh%word_idx_bound Hi. unfold scan_order. apply elem_of_app. rewrite !elem_of_seq. lia. Qed.
Lemma length_scan_order h : is_vpid h → length (scan_order h) = BITMAP_WORDS.
Proof. intros Hh%word_idx_bound. unfold scan_order. rewrite length_app, !length_seq. lia. Qed.

Lemma load_word_new i : load_word i vpid_bitmap_new = 0.
Proof. unfold load_word, vpid_bitmap_new. cbn [words]. rewrite nth_lookup. destruct (_ !! i) eqn:E; [|done]. by apply lookup_replicate in E as [-> _]. Qed.
Lemma new_ok : allocator_ok vpid_bitmap_new.
Proof.
  constructor; [apply length_replicate| |unfold is_vpid; cbn; lia]. intros i. rewrite load_word_new. done.
Qed.
Lemma reset_marks : reset_vpid_counter = store_word 0 (Z.lor (load_word 0 vpid_bitmap_new) 1) vpid_bitmap_new.
Proof. by rewrite load_word_new. Qed.
Lemma in_use_new v : in_use vpid_bitmap_new v = false.
Proof. unfold in_use. rewrite load_word_new. apply Z.bits_0. Qed.
Definition fresh (a : allocator) : Prop := allocator_ok a ∧ ∀ v, is_vpid v → v ≠ 0 → in_use a v = false.
Lemma fresh_new : fresh vpid_bitmap_new.
Proof. split; [apply new_ok|]. intros. apply in_use_new. Qed.
Lemma fresh_reset : fresh reset_vpid_counter.
Proof. rewrite reset_marks. destruct (mark_zero _ new_ok) as (Ha & _ & Hin). split; [done|]. intros v Hv H0. rewrite Hin by done. apply in_use_new. Qed.
Lemma fresh_ok n a : fresh a → system_ok (replicate n Idle, a).
Proof.
  intros [Ha Hf]. constructor; [done|by apply Forall_replicate|]. intros v Hv H0. unfold tag_ok. cbn [fst snd]. rewrite Hf by done.
  intros m (t & Ht & Hv'). by apply lookup_replicate in Ht as [-> _].
Qed.

(** ** Theorems *)

(** C26: no two VMs ever share a tag.  Take any number of threads and any
    interleaving of their atomic operations from the initial state or from a
    reset: the tag of a VM, from the moment its bit was claimed to the moment it
    is cleared, belongs to no other VM and is not zero; and a bit that is set
    belongs to some VM, so no tag leaks. *)
Theorem vpids_unique n a0 ts a :
  a0 = vpid_bitmap_new ∨ a0 = reset_vpid_counter → vpid_steps (replicate n Idle, a0) (ts, a) →
  (∀ v m, owner ts v m → 0 < v < 65536 ∧ in_use a v = true ∧ ∀ k, owner ts v k → k = m) ∧
  (∀ v, 0 < v < 65536 → in_use a v = true → ∃ m, owner ts v m).
Proof.
  intros Ha0 Hs. assert (system_ok (replicate n Idle, a0)) as Hinit by (destruct Ha0 as [-> | ->]; apply fresh_ok; [apply fresh_new|apply fresh_reset]).
  destruct (system_steps _ _ Hinit Hs) as [Ha Hts Htags]; cbn [fst snd] in *. split.
  - intros v m [t [Hm Hv]]. destruct (owner_vpid t v (Forall_lookup_1 _ _ _ _ Hts Hm) Hv) as [Hvp Hv0]. specialize (Htags v Hvp Hv0).
    unfold is_vpid, tag_ok in *. split; [lia|]. destruct (in_use a v); [|by destruct (Htags m); exists t]. split; [done|].
    destruct Htags as [k Hk]. intros j Hj%Hk. subst j. symmetry. apply Hk. by exists t.
  - intros v Hv Hu. specialize (Htags v ltac:(unfold is_vpid; lia) ltac:(lia)). unfold tag_ok in Htags. rewrite Hu in Htags.
    destruct Htags as [k Hk]. exists k. by apply Hk.
Qed.

(** C27: An allocation that no other processor disturbs comes to an end.  From any state of the
    bitmap it returns a tag within a fixed number of atomic operations, a tag that was
    free and that is marked, with no other tag touched; it panics exactly when all
    65535 tags are in use.  (Under contention the compare-and-swap may be retried, and a
    scan may miss a tag that is freed behind it.) *)
Theorem allocation_ends a :
  allocator_ok a →
  ∃ t a', run_thread alloc_steps LoadHint a = (t, a') ∧
    ((∃ v, t = Holds v ∧ 0 < v < 65536 ∧ in_use a v = false ∧ search_hint a' = u16 (v + 1) ∧ allocator_ok a' ∧
        ∀ v', 0 < v' < 65536 → in_use a' v' = (v =? v') || in_use a v') ∨
     (t = Panicked ∧ ∀ v, 0 < v < 65536 → in_use a v = true)).
Proof.
  intros Ha. pose proof (ao_hint _ Ha) as Hh.
  destruct (scan_any (scan_order (search_hint a)) 0 a Ha (scan_order_ok _ Hh)) as (t & a' & Hrun & Hres).
  exists t, a'. split.
  - unfold alloc_steps. change (1 + BITMAP_WORDS + 4)%nat with (S (BITMAP_WORDS + 4)). cbn [run_thread atomic]. rewrite <-Hrun, length_scan_order by done.
    by rewrite Nat.add_0_r.
  - destruct Hres as [(v & -> & Hv & H0 & Hu & Hhint & Hok & Hin)|[-> Hall]]; unfold is_vpid in *.
    + left. exists v. split; [done|]. split; [lia|]. do 3 (split; [done|]). intros v' Hv'. apply Hin; lia.
    + right. split; [done|]. intros v Hv. apply Hall; [unfold is_vpid; lia|lia|]. apply scan_order_all; [done|]. apply word_idx_bound. unfold is_vpid. lia.
Qed.

(** *** Witnesses *)

(** The threads taken in a given order, an idle one starting an allocation. *)
Definition take_step (n : nat) (st : system) : option system :=
  t ← st.1 !! n;
  match t with
  | Idle => Some (<[n := LoadHint]> st.1, st.2)
  | _ => '(t', a') ← atomic t st.2; Some (<[n := t']> st.1, a')
  end.
Fixpoint schedule (order : list nat) (st : system) : option system :=
  match order with [] => Some st | n :: order => take_step n st ≫= schedule order end.
Lemma take_step_ok n st st' : take_step n st = Some st' → vpid_step st st'.
Proof.
  destruct st as [ts a]. unfold take_step. cbn [fst snd]. destruct (ts !! n) as [t|] eqn:Hn; [|done]. cbn [mbind option_bind].
  destruct t; try (intros [= <-]; by constructor); try done.
  all: intros E; apply bind_Some in E as ([t' a'] & Hat & [= <-]); by eapply thread_step.
Qed.
Lemma schedule_steps order : ∀ st0 st st', vpid_steps st0 st → schedule order st = Some st' → vpid_steps st0 st'.
Proof.
  induction order as [|n order IH]; intros st0 st st' Hs E; [by injection E as <-|].
  apply bind_Some in E as (st1 & Hn & E). apply (IH st0 st1); [|done]. apply (steps_more _ st); [done|]. by apply (take_step_ok n).
Qed.

(** Two VMs race for the first tag: both see it free, the second loses its claim
    and takes the next. *)
Definition race : option system := schedule [0; 0; 0; 0; 0; 1; 1; 1; 0; 1; 1; 1; 1; 0]%nat (replicate 2 Idle, vpid_bitmap_new).
Lemma vpids_unique_witness :
  ∃ ts a, vpid_steps (replicate 2 Idle, vpid_bitmap_new) (ts, a) ∧ ts = [Holds 1; Holds 2] ∧ ∀ k, owner ts 2 k → k = 1%nat.
Proof.
  assert (fst <$> race = Some [Holds 1; Holds 2]) as Hr by (vm_compute; reflexivity).
  destruct race as [[ts a]|] eqn:E; [|discriminate Hr]. cbn in Hr. injection Hr as ->.
  pose proof (schedule_steps _ _ _ _ (steps_none _) E) as Hs. exists [Holds 1; Holds 2], a. split; [exact Hs|]. split; [reflexivity|].
  destruct (vpids_unique 2 vpid_bitmap_new _ a (or_introl eq_refl) Hs) as [Hu _].
  destruct (Hu 2 1%nat (ex_intro _ (Holds 2) (conj eq_refl eq_refl))) as (_ & _ & H). exact H.
Defined.
Lemma allocation_ends_witness : ∃ a', run_thread alloc_steps LoadHint vpid_bitmap_new = (Holds 1, a') ∧ search_hint a' = 2.
Proof.
  destruct (allocation_ends vpid_bitmap_new new_ok) as (t & a' & Hrun & Hres).
  assert ((run_thread alloc_steps LoadHint vpid_bitmap_new).1 = Holds 1) as Ht by (vm_compute; reflexivity).
  rewrite Hrun in Ht. cbn in Ht. subst t. exists a'. split; [exact Hrun|].
  destruct Hres as [(v & [= <-] & _ & _ & Hh & _)|[? _]]; [exact Hh|discriminate].
Defined.

(** The initial bitmap does not reserve tag zero: the first allocation in its word
    does, as a reset would have. *)
Lemma zero_not_reserved_initially :
  in_use vpid_bitmap_new 0 = false ∧ in_use reset_vpid_counter 0 = true ∧
  in_use (run_thread alloc_steps LoadHint vpid_bitmap_new).2 0 = true.
Proof. split; [|split]; vm_compute; reflexivity. Qed.
