(* ===== verification/Addr.v ===== *)
(** * Addresses (crate [bedrock-memory], [addr.rs])

    [PhysAddr] and [VirtAddr] are transparent wrappers of [u64], so an address
    is a [Z].  The four index extractors drive every page-table walk; the file
    shows that the list of the four indices names the 4 KiB page of an address
    and nothing else. *)
From S2P Require Import Prelude.

Definition pml4_index (a : Z) : nat := Z.to_nat (Z.land (Z.shiftr a 39) 0x1FF).
Definition pdpt_index (a : Z) : nat := Z.to_nat (Z.land (Z.shiftr a 30) 0x1FF).
Definition pd_index (a : Z) : nat := Z.to_nat (Z.land (Z.shiftr a 21) 0x1FF).
Definition pt_index (a : Z) : nat := Z.to_nat (Z.land (Z.shiftr a 12) 0x1FF).

(** The indices of the three directory levels, and of all four levels. *)
Definition dir_path (a : Z) : list nat := [pml4_index a; pdpt_index a; pd_index a].
Definition page_path (a : Z) : list nat := dir_path a ++ [pt_index a].

(** The number of the 4 KiB page an address lies in, within the 48 bits the
    four-level walk translates. *)
Definition page_no (a : Z) : Z := (a / 2 ^ 12) mod 2 ^ 36.

Lemma index_at (a s : Z) :
  0 ≤ s → Z.to_nat (Z.land (Z.shiftr a s) 0x1FF) = Z.to_nat ((a / 2 ^ s) mod 512).
Proof.
  intros. change 0x1FF with (Z.ones 9). rewrite Z.land_ones by lia.
  by rewrite Z.shiftr_div_pow2.
Qed.

Lemma index_lt (a s : Z) : 0 ≤ s → (Z.to_nat (Z.land (Z.shiftr a s) 0x1FF) < 512)%nat.
Proof.
  intros. rewrite index_at by done.
  pose proof (Z.mod_pos_bound (a / 2 ^ s) 512). lia.
Qed.

Lemma pml4_index_lt a : (pml4_index a < 512)%nat.
Proof. by apply index_lt. Qed.
Lemma pdpt_index_lt a : (pdpt_index a < 512)%nat.
Proof. by apply index_lt. Qed.
Lemma pd_index_lt a : (pd_index a < 512)%nat.
Proof. by apply index_lt. Qed.
Lemma pt_index_lt a : (pt_index a < 512)%nat.
Proof. by apply index_lt. Qed.
#[export] Hint Resolve pml4_index_lt pdpt_index_lt pd_index_lt pt_index_lt : bedrock.

Lemma page_no_digits a :
  page_no a = Z.of_nat (pt_index a) + 512 * (Z.of_nat (pd_index a)
    + 512 * (Z.of_nat (pdpt_index a) + 512 * Z.of_nat (pml4_index a))).
Proof.
  unfold page_no, pt_index, pd_index, pdpt_index, pml4_index.
  rewrite !index_at by lia.
  pose proof (Z.mod_pos_bound (a / 2 ^ 12) 512). pose proof (Z.mod_pos_bound (a / 2 ^ 21) 512).
  pose proof (Z.mod_pos_bound (a / 2 ^ 30) 512). pose proof (Z.mod_pos_bound (a / 2 ^ 39) 512).
  rewrite !Z2Nat.id by lia.
  change (2 ^ 36) with (512 * (512 * (512 * 512))).
  replace (2 ^ 21) with (2 ^ 12 * 512) by done. replace (2 ^ 30) with (2 ^ 12 * 512 * 512) by done.
  replace (2 ^ 39) with (2 ^ 12 * 512 * 512 * 512) by done.
  rewrite <-!Z.div_div by lia.
  rewrite !Z.rem_mul_r by lia. lia.
Qed.

(** Two addresses take the same path exactly when they are in the same page. *)
Lemma page_path_inj a b : page_path a = page_path b ↔ page_no a = page_no b.
Proof.
  split; intros H.
  - rewrite !page_no_digits. unfold page_path, dir_path in H. simpl in H. by simplify_eq; congruence.
  - rewrite !page_no_digits in H. unfold page_path, dir_path.
    pose proof (pml4_index_lt a). pose proof (pdpt_index_lt a).
    pose proof (pd_index_lt a). pose proof (pt_index_lt a).
    pose proof (pml4_index_lt b). pose proof (pdpt_index_lt b).
    pose proof (pd_index_lt b). pose proof (pt_index_lt b).
    assert (pt_index a = pt_index b ∧ pd_index a = pd_index b ∧
            pdpt_index a = pdpt_index b ∧ pml4_index a = pml4_index b) by lia.
    simpl. by destruct_and!; repeat apply (f_equal2 cons).
Qed.
