(* ===== verification/Ept.v ===== *)
(** * Extended page tables (crate [bedrock-ept]: [entry.rs], [traits.rs], [table.rs])

    The host memory that holds table pages is a finite map from the physical
    address of a frame to its 512 entries; an access to an address that is not
    an owned frame is [Stuck].  [FrameAllocator] is the Rust trait, and
    [FrameAllocatorSpec] what its documentation promises: a frame it returns is
    4 KiB aligned and is handed out once.

    The theorems: the four-level structure stays a tree of owned frames under
    every operation, [map_4k]/[remap_4k] change the translation of their own
    page only, [clone_for_fork] yields a disjoint tree with the same
    translations made read+execute and leaves the source as it was, and no
    operation ever follows a wild pointer. *)
From S2P Require Import Prelude Addr.

(** ** Entries ([entry.rs]) *)

Definition READ_WRITE_EXECUTE : Z := 7.
Definition READ_EXECUTE : Z := 5.
Definition from_bits (bits : Z) : Z := Z.land bits 7.

Inductive EptMemoryType := WriteBack.
Definition mem_type_to_bits (m : EptMemoryType) : Z :=
  Z.shiftl (match m with WriteBack => 6 end) 3.

Definition ADDR_MASK : Z := 0x000FFFFFFFFFF000.
Definition table_entry (addr perms : Z) : Z := Z.lor (Z.land addr ADDR_MASK) perms.
Definition page_entry_4k (addr perms : Z) (mem_type : EptMemoryType) : Z :=
  Z.lor (Z.lor (Z.land addr ADDR_MASK) perms) (mem_type_to_bits mem_type).
Definition is_present (e : Z) : bool := negb (Z.land e 7 =? 0).
Definition entry_addr (e : Z) : Z := Z.land e ADDR_MASK.
Definition entry_permissions (e : Z) : Z := from_bits e.

(** A frame address an entry can hold: 4 KiB aligned, below 2^52. *)
Definition frame_aligned (p : Z) : Prop := in_width 52 p ∧ p mod 2 ^ 12 = 0.
(** A value of [EptPermissions] that grants something. *)
Definition some_perms (p : Z) : Prop := 0 < p ≤ 7.

Lemma ADDR_MASK_field : ADDR_MASK = Z.shiftl (Z.ones 40) 12.
Proof. done. Qed.

Lemma frame_aligned_mask p : frame_aligned p → Z.land p ADDR_MASK = p.
Proof.
  intros [Hw Ha]. rewrite ADDR_MASK_field. apply Z.bits_inj'. intros i Hi.
  rewrite Z.land_spec, testbit_field by lia.
  destruct (Z.leb_spec 12 i) as [?|Hlt]; [destruct (Z.ltb_spec i (12 + 40)) as [?|Hge]|].
  - by rewrite andb_true_r.
  - rewrite (testbit_above 52 p) by (done || lia). done.
  - simpl. rewrite andb_false_r. symmetry.
    rewrite <-(Z.mod_pow2_bits_low p 12 i) by lia. rewrite Ha. apply Z.testbit_0_l.
Qed.

(** The low bits an entry carries besides its address. *)
Lemma entry_addr_low a x : in_width 12 x → entry_addr (Z.lor (Z.land a ADDR_MASK) x) = Z.land a ADDR_MASK.
Proof.
  intros Hx. unfold entry_addr. rewrite ADDR_MASK_field. apply Z.bits_inj'. intros i Hi.
  rewrite !Z.land_spec, Z.lor_spec, !Z.land_spec, !testbit_field by lia.
  destruct (Z.leb_spec 12 i); [|by rewrite !andb_false_r].
  rewrite (testbit_above 12 x) by (done || lia). rewrite orb_false_r.
  by destruct (Z.testbit a i), (i <? 12 + 40).
Qed.

Lemma land_mask_low a x : Z.land (Z.lor (Z.land a ADDR_MASK) x) 7 = Z.land x 7.
Proof.
  rewrite Z.land_lor_distr_l, <-Z.land_assoc.
  change (Z.land ADDR_MASK 7) with 0. by rewrite Z.land_0_r, Z.lor_0_l.
Qed.

Lemma perms_small p : some_perms p → Z.land p 7 = p.
Proof. unfold some_perms. intros. change 7 with (Z.ones 3). rewrite Z.land_ones by lia. apply Z.mod_small. lia. Qed.

Lemma table_entry_addr a p : some_perms p → frame_aligned a → entry_addr (table_entry a p) = a.
Proof.
  intros Hp Ha. unfold table_entry. rewrite entry_addr_low; [by apply frame_aligned_mask|].
  unfold in_width, some_perms in *. lia.
Qed.

Lemma table_entry_perms a p : some_perms p → entry_permissions (table_entry a p) = p.
Proof. intros Hp. unfold entry_permissions, from_bits, table_entry. by rewrite land_mask_low, perms_small. Qed.

Lemma page_entry_addr a p m : some_perms p → frame_aligned a → entry_addr (page_entry_4k a p m) = a.
Proof.
  intros Hp Ha. unfold page_entry_4k. rewrite <-Z.lor_assoc, entry_addr_low; [by apply frame_aligned_mask|].
  apply in_width_lor; [lia|unfold in_width, some_perms in *; lia|by destruct m].
Qed.

Lemma page_entry_perms a p m : some_perms p → entry_permissions (page_entry_4k a p m) = p.
Proof.
  intros Hp. unfold entry_permissions, from_bits, page_entry_4k.
  rewrite <-Z.lor_assoc, land_mask_low, Z.land_lor_distr_l.
  replace (Z.land (mem_type_to_bits m) 7) with 0 by (by destruct m).
  by rewrite Z.lor_0_r, perms_small.
Qed.

Lemma is_present_perms e : is_present e = true ↔ some_perms (entry_permissions e).
Proof.
  unfold is_present, entry_permissions, from_bits, some_perms.
  assert (0 ≤ Z.land e 7 < 8) by (change 7 with (Z.ones 3); rewrite Z.land_ones by lia; apply Z.mod_pos_bound; lia).
  destruct (Z.eqb_spec (Z.land e 7) 0); simpl; split; intros; (done || lia).
Qed.

Lemma table_entry_present a p : some_perms p → is_present (table_entry a p) = true.
Proof. intros. apply is_present_perms. by rewrite table_entry_perms. Qed.
Lemma page_entry_present a p m : some_perms p → is_present (page_entry_4k a p m) = true.
Proof. intros. apply is_present_perms. by rewrite page_entry_perms. Qed.

Lemma entry_addr_aligned e : frame_aligned (entry_addr e).
Proof.
  unfold frame_aligned, entry_addr. split.
  - apply in_width_land_r; [lia|]. by vm_compute.
  - rewrite <-Z.land_ones by lia. rewrite <-Z.land_assoc.
    change (Z.land ADDR_MASK (Z.ones 12)) with 0. apply Z.land_0_r.
Qed.
#[export] Hint Resolve table_entry_present page_entry_present entry_addr_aligned : bedrock.

(** ** The allocator interface ([traits.rs]) *)

Class FrameAllocator (A F E : Type) := {
  allocate_frame : A → result F E * A;
  frame_phys_addr : F → Z;
}.

(** What the trait documents: [avail a p] says that [a] may still hand out the
    frame at [p].  A frame is aligned, and once returned it is not available
    again; a failed call makes nothing available. *)
Class FrameAllocatorSpec (A F E : Type) `{!FrameAllocator A F E} := {
  avail : A → Z → Prop;
  avail_aligned a p : avail a p → frame_aligned p;
  allocate_frame_ok a f a' :
    allocate_frame a = (Ok f, a') →
    avail a (frame_phys_addr f) ∧ ∀ p, avail a' p → avail a p ∧ p ≠ frame_phys_addr f;
  allocate_frame_err a e a' :
    allocate_frame a = (Err e, a') → ∀ p, avail a' p → avail a p;
}.

(** ** Page tables ([table.rs]) *)

Inductive EptRemapError := NotMapped.

Section Table.
Context {A F E : Type} `{!FrameAllocator A F E}.

Record EptPageTable := mkEpt { pml4_phys : Z; ept_frames : list F }.

(** The allocator and the memory of the table pages. *)
Record host := mkHost { alloc : A; tables : gmap Z (list Z) }.

(** A pointer to an entry: the table it is in and its index. *)
Definition entry_ptr : Type := Z * nat.
Definition zero_table : list Z := replicate 512 0.

Definition entry_at (T : gmap Z (list Z)) (p : entry_ptr) : option Z :=
  T !! p.1 ≫= λ tbl, tbl !! p.2.
Definition set_entry (T : gmap Z (list Z)) (p : entry_ptr) (e : Z) : gmap Z (list Z) :=
  alter (λ tbl, <[p.2 := e]> tbl) p.1 T.

(** The state of the operations that build tables: the host, and the vector
    of frames owned by the table being built. *)
Definition st : Type := host * list F.

Definition read_entry (p : entry_ptr) : M st E Z := demand (λ s, entry_at (tables s.1) p).
Definition write_entry (p : entry_ptr) (e : Z) : M st E () := λ s,
  match entry_at (tables s.1) p with
  | Some _ => (Done (), (mkHost (alloc s.1) (set_entry (tables s.1) p e), s.2))
  | None => (Stuck, s)
  end.
Definition alloc_frame : M st E F := λ s,
  match allocate_frame (alloc s.1) with
  | (Ok f, a') => (Done f, (mkHost a' (tables s.1), s.2))
  | (Err e, a') => (Fail e, (mkHost a' (tables s.1), s.2))
  end.
(** [ptr::write_bytes(phys_to_virt(phys), 0, 4096)] on a freshly allocated frame. *)
Definition zero_page (phys : Z) : M st E () :=
  modify (λ s, (mkHost (alloc s.1) (<[phys := zero_table]> (tables s.1)), s.2)).
Definition push_frame (f : F) : M st E () := modify (λ s, (s.1, s.2 ++ [f])).

Definition get_entry_mut (table_phys : Z) (index : nat) : entry_ptr := (table_phys, index).
Definition get_or_create_entry (table_phys : Z) (index : nat) : M st E entry_ptr :=
  mret (get_entry_mut table_phys index).

Definition new (h : host) : outcome E EptPageTable * host :=
  match allocate_frame (alloc h) with
  | (Err e, a') => (Fail e, mkHost a' (tables h))
  | (Ok pml4_frame, a') =>
      let pml4 := frame_phys_addr pml4_frame in
      (Done (mkEpt pml4 [pml4_frame]), mkHost a' (<[pml4 := zero_table]> (tables h)))
  end.

Definition eptp (self : EptPageTable) : Z :=
  Z.lor (Z.lor (pml4_phys self) (Z.shiftl 3 3)) 6.

(** One level of the walk of [lookup] and [remap_4k]: the entry at [index] of
    the table, if it is present. *)
Definition present_entry {X : Type} (T : gmap Z (list Z)) (table : Z) (index : nat)
    : outcome X (option Z) :=
  match entry_at T (table, index) with
  | None => Stuck
  | Some e => Done (if is_present e then Some e else None)
  end.

(** [lookup] returns no error; its only bad outcome is [Stuck]. *)
Definition lookup (T : gmap Z (list Z)) (self : EptPageTable) (gpa : Z)
    : outcome Empty_set (option (Z * Z)) :=
  match present_entry T (pml4_phys self) (pml4_index gpa) with
  | Done (Some pml4e) =>
    match present_entry T (entry_addr pml4e) (pdpt_index gpa) with
    | Done (Some pdpte) =>
      match present_entry T (entry_addr pdpte) (pd_index gpa) with
      | Done (Some pde) =>
        match present_entry T (entry_addr pde) (pt_index gpa) with
        | Done (Some pte) => Done (Some (entry_addr pte, entry_permissions pte))
        | Done None => Done None | Fail e => Fail e | Stuck => Stuck
        end
      | Done None => Done None | Fail e => Fail e | Stuck => Stuck
      end
    | Done None => Done None | Fail e => Fail e | Stuck => Stuck
    end
  | Done None => Done None | Fail e => Fail e | Stuck => Stuck
  end.

Definition ensure_table (entry : entry_ptr) (perms : Z) : M st E Z :=
  current ← read_entry entry;
  if is_present current then mret (entry_addr current)
  else
    new_frame ← alloc_frame;
    let new_phys := frame_phys_addr new_frame in
    _ ← zero_page new_phys;
    _ ← write_entry entry (table_entry new_phys perms);
    _ ← push_frame new_frame;
    mret new_phys.

Definition map_4k_body (root gpa hpa perms : Z) (mem_type : EptMemoryType) : M st E () :=
  pml4_entry ← get_or_create_entry root (pml4_index gpa);
  pdpt_phys ← ensure_table pml4_entry perms;
  pdpt_entry ← get_or_create_entry pdpt_phys (pdpt_index gpa);
  pd_phys ← ensure_table pdpt_entry perms;
  pd_entry ← get_or_create_entry pd_phys (pd_index gpa);
  pt_phys ← ensure_table pd_entry perms;
  let pt_entry := get_entry_mut pt_phys (pt_index gpa) in
  write_entry pt_entry (page_entry_4k hpa perms mem_type).

Definition map_4k (self : EptPageTable) (h : host) (gpa hpa perms : Z) (mem_type : EptMemoryType)
    : outcome E () * (EptPageTable * host) :=
  let '(r, (h', frames')) := map_4k_body (pml4_phys self) gpa hpa perms mem_type (h, ept_frames self) in
  (r, (mkEpt (pml4_phys self) frames', h')).

Definition remap_4k (T : gmap Z (list Z)) (self : EptPageTable) (gpa new_host_phys perms : Z)
    (mem_type : EptMemoryType) : outcome EptRemapError (gmap Z (list Z)) :=
  match present_entry T (pml4_phys self) (pml4_index gpa) with
  | Done (Some pml4e) =>
    match present_entry T (entry_addr pml4e) (pdpt_index gpa) with
    | Done (Some pdpte) =>
      match present_entry T (entry_addr pdpte) (pd_index gpa) with
      | Done (Some pde) =>
        let pte_ptr := (entry_addr pde, pt_index gpa) in
        match present_entry T (entry_addr pde) (pt_index gpa) with
        | Done (Some _) => Done (set_entry T pte_ptr (page_entry_4k new_host_phys perms mem_type))
        | Done None => Fail NotMapped | Fail e => Fail e | Stuck => Stuck
        end
      | Done None => Fail NotMapped | Fail e => Fail e | Stuck => Stuck
      end
    | Done None => Fail NotMapped | Fail e => Fail e | Stuck => Stuck
    end
  | Done None => Fail NotMapped | Fail e => Fail e | Stuck => Stuck
  end.

Definition frame_count (self : EptPageTable) : nat := length (ept_frames self).

(** The nested loops of [clone_for_fork].  [clone_pt] is the innermost one;
    the three directory loops have the same body around the next one. *)
Definition clone_pt (src dst : Z) : M st E () :=
  for_range 512 (λ idx,
    src_pte ← read_entry (src, idx);
    if is_present src_pte then
      write_entry (dst, idx) (page_entry_4k (entry_addr src_pte) READ_EXECUTE WriteBack)
    else mret ()).

Definition clone_dir (clone_child : Z → Z → M st E ()) (src dst : Z) : M st E () :=
  for_range 512 (λ idx,
    src_e ← read_entry (src, idx);
    if is_present src_e then
      new_frame ← alloc_frame;
      let new_phys := frame_phys_addr new_frame in
      _ ← zero_page new_phys;
      _ ← push_frame new_frame;
      _ ← write_entry (dst, idx) (table_entry new_phys (entry_permissions src_e));
      clone_child (entry_addr src_e) new_phys
    else mret ()).

(** [clone_level k] copies a table with [k] directory levels below it. *)
Fixpoint clone_level (k : nat) : Z → Z → M st E () :=
  match k with
  | O => clone_pt
  | S k' => clone_dir (clone_level k')
  end.

Definition clone_body (root : Z) : M st E Z :=
  new_pml4_frame ← alloc_frame;
  let new_pml4_phys := frame_phys_addr new_pml4_frame in
  _ ← zero_page new_pml4_phys;
  _ ← push_frame new_pml4_frame;
  _ ← clone_level 3 root new_pml4_phys;
  mret new_pml4_phys.

Definition clone_for_fork (self : EptPageTable) (h : host) : outcome E EptPageTable * host :=
  match clone_body (pml4_phys self) (h, []) with
  | (Done new_pml4_phys, (h', frames)) => (Done (mkEpt new_pml4_phys frames), h')
  | (Fail e, (h', _)) => (Fail e, h')
  | (Stuck, (h', _)) => (Stuck, h')
  end.
End Table.
Arguments EptPageTable F : clear implicits.
Arguments host A : clear implicits.
Arguments st A F : clear implicits.
Arguments set_entry : simpl never.
Arguments entry_at : simpl never.

(** ** Walks

    [walk T t q] is the table reached from table [t] through the present
    entries at the indices [q]; [ent T t q i] the present entry at index [i] of
    that table. *)
Section Walk.
Implicit Types (T : gmap Z (list Z)) (q : list nat) (t : Z) (i : nat).

Definition pent T t i : option Z :=
  match entry_at T (t, i) with
  | Some e => if is_present e then Some e else None
  | None => None
  end.

Fixpoint walk T t q : option Z :=
  match q with
  | [] => Some t
  | i :: q' => match pent T t i with
               | Some e => walk T (entry_addr e) q'
               | None => None
               end
  end.

Definition ent T t q i : option Z := walk T t q ≫= λ t', pent T t' i.

Lemma walk_app T t q q' : walk T t (q ++ q') = walk T t q ≫= λ t', walk T t' q'.
Proof. revert t. induction q as [|i q IH]; intros t; simpl; [done|]. by destruct (pent T t i). Qed.

Lemma walk_snoc T t q i : walk T t (q ++ [i]) = entry_addr <$> ent T t q i.
Proof.
  rewrite walk_app. unfold ent. destruct (walk T t q) as [t'|]; simpl; [|done].
  by destruct (pent T t' i).
Qed.

Lemma ent_cons T t j q i :
  ent T t (j :: q) i = pent T t j ≫= λ e, ent T (entry_addr e) q i.
Proof. unfold ent. simpl. by destruct (pent T t j). Qed.

Lemma pent_present T t i e : pent T t i = Some e → is_present e = true.
Proof. unfold pent. destruct (entry_at T (t, i)); [|done]. case_match; by intros; simplify_eq. Qed.

Lemma pent_dom T t i e : pent T t i = Some e → is_Some (T !! t).
Proof. unfold pent, entry_at. simpl. destruct (T !! t); [eauto|done]. Qed.

Lemma pent_agree T T' t i : T' !! t = T !! t → pent T' t i = pent T t i.
Proof. unfold pent, entry_at. simpl. by intros ->. Qed.

Lemma entry_at_set T t i e t' i' :
  entry_at (set_entry T (t, i) e) (t', i') =
    if decide (t' = t ∧ i' = i) then (λ _, e) <$> entry_at T (t, i) else entry_at T (t', i').
Proof.
  unfold entry_at, set_entry. simpl. destruct (decide (t' = t)) as [->|Hne].
  - rewrite lookup_alter_eq. destruct (T !! t) as [tbl|]; simpl; [|by case_decide].
    destruct (decide (i' = i)) as [->|Hi].
    + rewrite decide_True by done. destruct (tbl !! i) eqn:Hl; simpl.
      * apply list_lookup_insert_eq. by eapply lookup_lt_Some.
      * rewrite list_insert_ge; [done|]. by apply lookup_ge_None.
    + rewrite decide_False by naive_solver. by rewrite list_lookup_insert_ne by done.
  - rewrite decide_False by naive_solver. by rewrite lookup_alter_ne by done.
Qed.

Lemma pent_set_ne T t i e t' i' :
  (t', i') ≠ (t, i) → pent (set_entry T (t, i) e) t' i' = pent T t' i'.
Proof.
  intros Hne. unfold pent. rewrite entry_at_set, decide_False by naive_solver. done.
Qed.

Lemma pent_set_eq T t i e :
  is_Some (entry_at T (t, i)) → is_present e = true → pent (set_entry T (t, i) e) t i = Some e.
Proof.
  intros [x Hx] He. unfold pent. rewrite entry_at_set, decide_True, Hx by done. simpl. by rewrite He.
Qed.

Lemma lookup_set_entry_ne T t i e t' : t' ≠ t → set_entry T (t, i) e !! t' = T !! t'.
Proof. intros. unfold set_entry. simpl. by rewrite lookup_alter_ne. Qed.

Lemma lookup_set_entry_is_Some T p e t : is_Some (set_entry T p e !! t) ↔ is_Some (T !! t).
Proof.
  unfold set_entry. destruct (decide (t = p.1)) as [->|].
  - rewrite lookup_alter_eq. by rewrite fmap_is_Some.
  - by rewrite lookup_alter_ne.
Qed.

Lemma set_entry_length T p e t tbl :
  T !! t = Some tbl → length tbl = 512%nat →
  ∃ tbl', set_entry T p e !! t = Some tbl' ∧ length tbl' = 512%nat.
Proof.
  intros Ht Hl. unfold set_entry. destruct (decide (t = p.1)) as [->|].
  - rewrite lookup_alter_eq, Ht. eexists. split; [done|]. by rewrite length_insert.
  - rewrite lookup_alter_ne by done. eauto.
Qed.

Lemma pent_zero T t i : T !! t = Some zero_table → pent T t i = None.
Proof.
  intros Ht. unfold pent, entry_at. simpl. rewrite Ht. simpl.
  destruct (zero_table !! i) eqn:Hz; [|done].
  apply lookup_replicate in Hz as [-> _]. done.
Qed.

Lemma pent_fresh T f t i : T !! f = None → pent (<[f := zero_table]> T) t i = pent T t i.
Proof.
  intros Hf. destruct (decide (t = f)) as [->|Hne].
  - rewrite pent_zero by apply lookup_insert_eq. unfold pent, entry_at. simpl. by rewrite Hf.
  - apply pent_agree. by rewrite lookup_insert_ne.
Qed.

(** A walk only reads the tables it passes. *)
Lemma walk_agree T T' t q :
  (∀ q1 i q2 t', q = q1 ++ i :: q2 → walk T t q1 = Some t' → pent T' t' i = pent T t' i) →
  walk T' t q = walk T t q.
Proof.
  revert t. induction q as [|i q IH]; intros t H; simpl; [done|].
  rewrite (H [] i q t) by done. destruct (pent T t i) as [e|] eqn:He; [|done].
  apply IH. intros q1 j q2 t' -> Hw. apply (H (i :: q1) j q2); [done|]. simpl. by rewrite He.
Qed.

Lemma walk_ext T T' t q : (∀ t' i, pent T' t' i = pent T t' i) → walk T' t q = walk T t q.
Proof. intros H. apply walk_agree. auto. Qed.

Lemma ent_ext T T' t q i : (∀ t' i', pent T' t' i' = pent T t' i') → ent T' t q i = ent T t q i.
Proof.
  intros H. unfold ent. rewrite (walk_ext T T') by done.
  destruct (walk T t q); simpl; auto.
Qed.
End Walk.

(** ** The tree invariant

    [tree T root fs]: the tables reachable from [root] by at most three
    directory entries are exactly the frames [fs], each by one path only, and
    each is a full 512-entry page. *)
Record tree (T : gmap Z (list Z)) (root : Z) (fs : list Z) : Prop := {
  tree_table p t : (length p ≤ 3)%nat → walk T root p = Some t →
    ∃ tbl, T !! t = Some tbl ∧ length tbl = 512%nat;
  tree_inj p q t : (length p ≤ 3)%nat → (length q ≤ 3)%nat →
    walk T root p = Some t → walk T root q = Some t → p = q;
  tree_owned p t : (length p ≤ 3)%nat → walk T root p = Some t → t ∈ fs;
  tree_reach t : t ∈ fs → ∃ p, (length p ≤ 3)%nat ∧ walk T root p = Some t;
  tree_nodup : NoDup fs;
}.

Section Tree.
Context (T : gmap Z (list Z)) (root : Z) (fs : list Z) (HT : tree T root fs).

Lemma tree_entry_at p t i :
  (length p ≤ 3)%nat → walk T root p = Some t → (i < 512)%nat → is_Some (entry_at T (t, i)).
Proof.
  intros Hp Hw Hi. destruct (tree_table _ _ _ HT p t Hp Hw) as (tbl & Ht & Hl).
  unfold entry_at. simpl. rewrite Ht. simpl. apply lookup_lt_is_Some. lia.
Qed.

(** Writing one entry changes only the walks through it. *)
Lemma walk_set_other p t i e q :
  (length p ≤ 3)%nat → walk T root p = Some t → (length q ≤ 4)%nat → ¬ (p ++ [i]) `prefix_of` q →
  walk (set_entry T (t, i) e) root q = walk T root q.
Proof.
  intros Hp Hw Hq Hnp. apply walk_agree. intros q1 j q2 t' -> Hw'.
  apply pent_set_ne. intros [= -> ->]. apply Hnp.
  rewrite length_app in Hq. simpl in Hq.
  rewrite (tree_inj _ _ _ HT q1 p t) by (done || lia).
  exists q2. by rewrite <-app_assoc.
Qed.

Lemma ent_set_other p t i e q j :
  (length p ≤ 3)%nat → walk T root p = Some t → (length q ≤ 3)%nat →
  (q, j) ≠ (p, i) → ¬ (p ++ [i]) `prefix_of` q →
  ent (set_entry T (t, i) e) root q j = ent T root q j.
Proof.
  intros Hp Hw Hq Hne Hnp. unfold ent. rewrite (walk_set_other p) by (done || lia).
  destruct (walk T root q) as [t'|] eqn:Hw'; simpl; [|done].
  apply pent_set_ne. intros [= -> ->]. apply Hne. f_equal.
  by apply (tree_inj _ _ _ HT q p t).
Qed.

(** Writing a leaf entry. *)
Section Leaf.
Context (p : list nat) (t : Z) (i : nat) (e : Z).
Context (Hp : length p = 3%nat) (Hw : walk T root p = Some t).

Lemma leaf_walk q : (length q ≤ 3)%nat → walk (set_entry T (t, i) e) root q = walk T root q.
Proof.
  intros Hq. apply (walk_set_other p); [lia|done|lia|].
  intros Hpre%prefix_length. rewrite length_app in Hpre. simpl in Hpre. lia.
Qed.

Lemma leaf_ent_other q j :
  (length q ≤ 3)%nat → (q, j) ≠ (p, i) → ent (set_entry T (t, i) e) root q j = ent T root q j.
Proof.
  intros Hq Hne. apply (ent_set_other p); [lia|done|done|done|].
  intros Hpre%prefix_length. rewrite length_app in Hpre. simpl in Hpre. lia.
Qed.

Lemma leaf_ent_same :
  (i < 512)%nat → is_present e = true → ent (set_entry T (t, i) e) root p i = Some e.
Proof.
  intros Hi He. unfold ent. rewrite leaf_walk, Hw by lia. simpl.
  apply pent_set_eq; [|done]. apply (tree_entry_at p); (done || lia).
Qed.

Lemma leaf_tree : tree (set_entry T (t, i) e) root fs.
Proof.
  constructor.
  - intros q t' Hq. rewrite leaf_walk by done. intros Hw'.
    destruct (tree_table _ _ _ HT q t' Hq Hw') as (tbl & ? & ?). by eapply set_entry_length.
  - intros q q' t' Hq Hq'. rewrite !leaf_walk by done. by apply (tree_inj _ _ _ HT).
  - intros q t' Hq. rewrite leaf_walk by done. by apply (tree_owned _ _ _ HT).
  - intros t' Ht'. destruct (tree_reach _ _ _ HT t' Ht') as (q & ? & ?).
    exists q. by rewrite leaf_walk.
  - apply (tree_nodup _ _ _ HT).
Qed.
End Leaf.
End Tree.

(** Hooking a fresh zeroed frame [f] at an absent directory entry. *)
Section Hook.
Context (T : gmap Z (list Z)) (root : Z) (fs : list Z) (HT : tree T root fs).
Context (p : list nat) (t : Z) (i : nat) (f perms : Z).
Context (Hp : (length p ≤ 2)%nat) (Hw : walk T root p = Some t) (Hi : (i < 512)%nat).
Context (Habs : pent T t i = None) (Hf : T !! f = None).
Context (Haf : frame_aligned f) (Hperms : some_perms perms).

Let T0 := <[f := zero_table]> T.
Let T1 := set_entry T0 (t, i) (table_entry f perms).

Lemma hook_walk0 q : walk T0 root q = walk T root q.
Proof. apply walk_ext. intros. by apply pent_fresh. Qed.

Lemma hook_ne : t ≠ f.
Proof.
  intros ->. destruct (tree_table _ _ _ HT p f ltac:(lia) Hw) as (tbl & Ht & _). congruence.
Qed.

Lemma hook_tree0 : tree T0 root fs.
Proof.
  destruct HT as [H1 H2 H3 H4 H5]. constructor; try setoid_rewrite hook_walk0; try done.
  intros q t' Hq Hw'. destruct (H1 q t' Hq Hw') as (tbl & ? & ?).
  exists tbl. unfold T0. rewrite lookup_insert_ne; [done|]. congruence.
Qed.

Lemma hook_pent : pent T1 t i = Some (table_entry f perms).
Proof.
  apply pent_set_eq; [|by apply table_entry_present].
  apply (tree_entry_at T0 root fs hook_tree0 p); [lia|by rewrite hook_walk0|done].
Qed.

Lemma hook_walk_below q : walk T1 f q = match q with [] => Some f | _ => None end.
Proof.
  destruct q as [|j q]; simpl; [done|]. pose proof hook_ne.
  unfold T1. rewrite pent_set_ne by naive_solver.
  rewrite pent_zero; [done|]. unfold T0. apply lookup_insert_eq.
Qed.

Lemma hook_walk_other q :
  (length q ≤ 4)%nat → ¬ (p ++ [i]) `prefix_of` q → walk T1 root q = walk T root q.
Proof.
  intros. unfold T1. rewrite (walk_set_other T0 root fs hook_tree0 p); [..|done].
  - apply hook_walk0.
  - lia.
  - by rewrite hook_walk0.
  - done.
Qed.

Lemma hook_walk_through q :
  walk T1 root (p ++ i :: q) = match q with [] => Some f | _ => None end.
Proof.
  rewrite walk_app, hook_walk_other; [|lia|].
  - rewrite Hw. simpl. rewrite hook_pent. by rewrite table_entry_addr, hook_walk_below.
  - intros Hpre%prefix_length. rewrite length_app in Hpre. simpl in Hpre. lia.
Qed.

Lemma hook_walk q t' :
  (length q ≤ 3)%nat →
  walk T1 root q = Some t' ↔ walk T root q = Some t' ∨ (q = p ++ [i] ∧ t' = f).
Proof.
  intros Hq. destruct (decide ((p ++ [i]) `prefix_of` q)) as [[q2 ->]|Hn].
  - rewrite <-app_assoc. simpl. rewrite hook_walk_through.
    assert (walk T root (p ++ i :: q2) = None) as ->
      by (rewrite walk_app, Hw; simpl; by rewrite Habs).
    destruct q2 as [|j q2]; [naive_solver|]. split; [done|].
    intros [?|[Heq _]]; [done|]. apply app_inv_head in Heq. done.
  - rewrite hook_walk_other by (done || lia). split; [auto|].
    intros [?|[-> _]]; [done|]. by destruct Hn.
Qed.

Lemma hook_ent q j : length q = 3%nat → ent T1 root q j = ent T root q j.
Proof.
  intros Hq. unfold ent.
  destruct (decide ((p ++ [i]) `prefix_of` q)) as [[q2 ->]|Hn].
  - rewrite <-app_assoc. simpl. rewrite hook_walk_through.
    assert (walk T root (p ++ i :: q2) = None) as ->
      by (rewrite walk_app, Hw; simpl; by rewrite Habs).
    destruct q2; simpl; [|done]. pose proof hook_ne.
    unfold T1. rewrite pent_set_ne by naive_solver. apply pent_zero. apply lookup_insert_eq.
  - rewrite hook_walk_other by (done || lia).
    destruct (walk T root q) as [t'|] eqn:Hw'; simpl; [|done].
    unfold T1. rewrite pent_set_ne; [by apply pent_fresh|].
    intros [= -> ->]. assert (q = p) by (by eapply (tree_inj _ _ _ HT); [lia|lia|..]).
    subst q. lia.
Qed.

Lemma hook_tree : f ∉ fs → tree T1 root (fs ++ [f]).
Proof.
  intros Hnf. destruct HT as [H1 H2 H3 H4 H5]. constructor.
  - intros q t' Hq Hw'%hook_walk; [|done]. destruct Hw' as [Hw'|[-> ->]].
    + destruct (tree_table _ _ _ hook_tree0 q t' Hq) as (tbl & ? & ?); [by rewrite hook_walk0|].
      by eapply set_entry_length.
    + apply (set_entry_length T0 _ _ _ zero_table); [apply lookup_insert_eq|done].
  - intros q q' t' Hq Hq' Hw1%hook_walk Hw2%hook_walk; [|done..].
    destruct Hw1 as [Hw1|[-> Heq1]], Hw2 as [Hw2|[-> Heq2]]; [by eapply H2|..|done].
    + rewrite Heq2 in Hw1. by apply H3 in Hw1.
    + rewrite Heq1 in Hw2. by apply H3 in Hw2.
  - intros q t' Hq Hw'%hook_walk; [|done]. apply elem_of_app.
    destruct Hw' as [Hw'|[_ ->]]; [left; by eapply H3|right; set_solver].
  - intros t' [Ht'|Ht']%elem_of_app.
    + destruct (H4 t' Ht') as (q & ? & ?). exists q. split; [done|]. apply hook_walk; auto.
    + apply list_elem_of_singleton in Ht' as ->. exists (p ++ [i]).
      assert (length (p ++ [i]) ≤ 3)%nat by (rewrite length_app; simpl; lia).
      split; [done|]. apply hook_walk; auto.
  - apply NoDup_app. split; [done|]. split; [set_solver|apply NoDup_singleton].
Qed.
End Hook.

(** ** Correctness of the operations *)
Section Ops.
Context {A F E : Type} `{!FrameAllocator A F E} `{!FrameAllocatorSpec A F E}.
Implicit Types (pt : EptPageTable F) (h : host A) (s : st A F).

Definition phys_of (fs : list F) : list Z := frame_phys_addr <$> fs.

(** No frame the allocator may still hand out is in use as a table. *)
Definition host_ok h : Prop := ∀ p, avail (alloc h) p → tables h !! p = None.
Definition ept_wf h pt : Prop := tree (tables h) (pml4_phys pt) (phys_of (ept_frames pt)).

Lemma host_ok_alloc h f a' :
  host_ok h → allocate_frame (alloc h) = (Ok f, a') →
  tables h !! frame_phys_addr f = None ∧ frame_aligned (frame_phys_addr f) ∧
  ∀ p, avail a' p → tables h !! p = None ∧ p ≠ frame_phys_addr f.
Proof.
  intros Hok Ha. destruct (allocate_frame_ok _ _ _ Ha) as [Hav Hrest].
  split; [by apply Hok|]. split; [by eapply avail_aligned|].
  intros p [? ?]%Hrest. split; [by apply Hok|done].
Qed.

Lemma host_ok_fail h e a' :
  host_ok h → allocate_frame (alloc h) = (Err e, a') → host_ok (mkHost a' (tables h)).
Proof. intros Hok Ha p Hp. simpl in *. apply Hok. by eapply allocate_frame_err. Qed.

Lemma tree_frames T root fs t : tree T root fs → t ∈ fs → is_Some (T !! t).
Proof.
  intros HT Ht. destruct (tree_reach _ _ _ HT t Ht) as (p & Hp & Hw).
  destruct (tree_table _ _ _ HT p t Hp Hw) as (tbl & ? & _). eauto.
Qed.

(** A new page table is the one-frame tree without translations. *)
Lemma tree_single T f : T !! f = None → tree (<[f := zero_table]> T) f [f].
Proof.
  intros Hf.
  assert (∀ q t, walk (<[f := zero_table]> T) f q = Some t → q = [] ∧ t = f) as H.
  { intros [|i q] t; simpl; [naive_solver|]. by rewrite pent_zero by apply lookup_insert_eq. }
  constructor.
  - intros p t _ [-> ->]%H. exists zero_table. by rewrite lookup_insert_eq.
  - intros p q t _ _ [-> _]%H [-> _]%H. done.
  - intros p t _ [_ ->]%H. set_solver.
  - intros t ->%list_elem_of_singleton. exists []. simpl. split; [lia|done].
  - apply NoDup_singleton.
Qed.

(** *** Reading *)

Lemma present_entry_spec {X} T root fs p t i :
  tree T root fs → (length p ≤ 3)%nat → walk T root p = Some t → (i < 512)%nat →
  @present_entry X T t i = Done (pent T t i).
Proof.
  intros HT Hp Hw Hi. unfold present_entry, pent.
  destruct (tree_entry_at _ _ _ HT p t i Hp Hw Hi) as [e ->]. by destruct (is_present e).
Qed.

(** The translation of an address: the leaf entry of its path. *)
Definition leaf T root gpa : option Z := ent T root (dir_path gpa) (pt_index gpa).
Definition translate (e : Z) : Z * Z := (entry_addr e, entry_permissions e).

Lemma lookup_leaf T root fs frames gpa :
  tree T root fs → lookup (F:=F) T (mkEpt root frames) gpa = Done (translate <$> leaf T root gpa).
Proof.
  intros HT. unfold lookup, leaf, ent, dir_path. simpl.
  rewrite (present_entry_spec _ _ _ [] _ _ HT) by (simpl; auto with bedrock lia).
  destruct (pent T root (pml4_index gpa)) as [e1|] eqn:H1; [|done].
  rewrite (present_entry_spec _ _ _ [pml4_index gpa] _ _ HT)
    by (simpl; rewrite ?H1; auto with bedrock lia).
  destruct (pent T (entry_addr e1) (pdpt_index gpa)) as [e2|] eqn:H2; [|done].
  rewrite (present_entry_spec _ _ _ [pml4_index gpa; pdpt_index gpa] _ _ HT)
    by (simpl; rewrite ?H1, ?H2; auto with bedrock lia).
  destruct (pent T (entry_addr e2) (pd_index gpa)) as [e3|] eqn:H3; [|done].
  rewrite (present_entry_spec _ _ _ (dir_path gpa) _ _ HT)
    by (simpl; rewrite ?H1, ?H2, ?H3; auto with bedrock lia).
  simpl. by destruct (pent T (entry_addr e3) (pt_index gpa)).
Qed.

Lemma remap_leaf T root fs frames gpa hpa perms m :
  tree T root fs →
  remap_4k (F:=F) T (mkEpt root frames) gpa hpa perms m =
    match leaf T root gpa, walk T root (dir_path gpa) with
    | Some _, Some t => Done (set_entry T (t, pt_index gpa) (page_entry_4k hpa perms m))
    | _, _ => Fail NotMapped
    end.
Proof.
  intros HT. unfold remap_4k, leaf, ent, dir_path. simpl.
  rewrite (present_entry_spec _ _ _ [] _ _ HT) by (simpl; auto with bedrock lia).
  destruct (pent T root (pml4_index gpa)) as [e1|] eqn:H1; [|done].
  rewrite (present_entry_spec _ _ _ [pml4_index gpa] _ _ HT)
    by (simpl; rewrite ?H1; auto with bedrock lia).
  destruct (pent T (entry_addr e1) (pdpt_index gpa)) as [e2|] eqn:H2; [|done].
  rewrite (present_entry_spec _ _ _ [pml4_index gpa; pdpt_index gpa] _ _ HT)
    by (simpl; rewrite ?H1, ?H2; auto with bedrock lia).
  destruct (pent T (entry_addr e2) (pd_index gpa)) as [e3|] eqn:H3; [|done].
  rewrite (present_entry_spec _ _ _ (dir_path gpa) _ _ HT)
    by (simpl; rewrite ?H1, ?H2, ?H3; auto with bedrock lia).
  simpl. by destruct (pent T (entry_addr e3) (pt_index gpa)).
Qed.

(** *** Building *)

(** [keeps T0 fs0 root s]: the table under construction is a tree of frames
    that are old ([fs0]) or were free, every translation is as in [T0], and
    memory that is not its own is untouched. *)
Record keeps (T0 : gmap Z (list Z)) (fs0 : list Z) (root : Z) s : Prop := {
  keeps_host : host_ok s.1;
  keeps_tree : tree (tables s.1) root (phys_of s.2);
  keeps_ent q j : length q = 3%nat → ent (tables s.1) root q j = ent T0 root q j;
  keeps_fresh t : t ∈ phys_of s.2 → t ∈ fs0 ∨ T0 !! t = None;
  keeps_frame t : t ∉ fs0 → is_Some (T0 !! t) → tables s.1 !! t = T0 !! t;
}.

Lemma keeps_refl h pt :
  host_ok h → ept_wf h pt →
  keeps (tables h) (phys_of (ept_frames pt)) (pml4_phys pt) (h, ept_frames pt).
Proof. intros. constructor; simpl; auto. Qed.

Lemma keeps_hook T0 fs0 root s p t i f a' perms :
  keeps T0 fs0 root s →
  (length p ≤ 2)%nat → (i < 512)%nat → some_perms perms →
  walk (tables s.1) root p = Some t → pent (tables s.1) t i = None →
  allocate_frame (alloc s.1) = (Ok f, a') →
  let f' := frame_phys_addr f in
  let T' := set_entry (<[f' := zero_table]> (tables s.1)) (t, i) (table_entry f' perms) in
  keeps T0 fs0 root (mkHost a' T', s.2 ++ [f]) ∧ walk T' root (p ++ [i]) = Some f'.
Proof.
  intros [Hh HT He Hfr Hfm] Hp Hi Hperms Hw Habs Ha. simpl.
  destruct (host_ok_alloc _ _ _ Hh Ha) as (Hf & Haf & Hav).
  assert (t ∈ phys_of s.2) as Htin by (by apply (tree_owned _ _ _ HT p); [lia|]).
  assert (frame_phys_addr f ∉ phys_of s.2) as Hnf.
  { intros Hin. destruct (tree_frames _ _ _ _ HT Hin) as [? ?]. congruence. }
  split; [|apply (hook_walk _ _ _ HT p); auto; rewrite length_app; simpl; lia].
  constructor; simpl.
  - intros x [Hx Hxf]%Hav. simpl. apply eq_None_not_Some.
    rewrite lookup_set_entry_is_Some, lookup_insert_ne by done. rewrite Hx. by intros [].
  - unfold phys_of. rewrite fmap_app. by apply (hook_tree _ _ _ HT p).
  - intros q j Hq. rewrite (hook_ent _ _ _ HT p) by done. by apply He.
  - intros x. unfold phys_of. rewrite fmap_app, elem_of_app. intros [Hx|Hx]; [by apply Hfr|].
    apply list_elem_of_singleton in Hx as ->.
    destruct (decide (frame_phys_addr f ∈ fs0)); [by left|right].
    apply eq_None_not_Some. intros Hs. rewrite Hfm in Hf by done. rewrite Hf in Hs. by destruct Hs.
  - intros x Hx Hs. assert (x ≠ t) by (intros ->; destruct (Hfr t Htin) as [?|Hn]; [done|rewrite Hn in Hs; by destruct Hs]).
    rewrite lookup_set_entry_ne by done. rewrite lookup_insert_ne; [by apply Hfm|].
    intros <-. rewrite Hfm in Hf by done. rewrite Hf in Hs. by destruct Hs.
Qed.

Lemma ensure_table_spec T0 fs0 root p t i perms :
  (length p ≤ 2)%nat → (i < 512)%nat → some_perms perms →
  triple (λ s, keeps T0 fs0 root s ∧ walk (tables s.1) root p = Some t)
    (ensure_table (t, i) perms)
    (λ t' s, keeps T0 fs0 root s ∧ walk (tables s.1) root (p ++ [i]) = Some t')
    (λ _ s, keeps T0 fs0 root s).
Proof.
  intros Hp Hi Hperms s [Hk Hw].
  pose proof (tree_entry_at _ _ _ (keeps_tree _ _ _ _ Hk) p t i ltac:(lia) Hw Hi) as [e He].
  unfold ensure_table, mbind, M_bind, read_entry, demand. rewrite He.
  destruct (is_present e) eqn:Hpe.
  { simpl. split; [done|]. rewrite walk_snoc. unfold ent. rewrite Hw. simpl.
    unfold pent. by rewrite He, Hpe. }
  unfold alloc_frame. destruct (allocate_frame (alloc s.1)) as [[f|err] a'] eqn:Ha.
  - destruct (keeps_hook T0 fs0 root s p t i f a' perms Hk) as [Hk' Hw']; try done.
    { unfold pent. by rewrite He, Hpe. }
    unfold zero_page, modify, write_entry. simpl.
    assert (t ≠ frame_phys_addr f) as Hne.
    { intros ->. destruct (host_ok_alloc _ _ _ (keeps_host _ _ _ _ Hk) Ha) as [Hn _].
      unfold entry_at in He. simpl in He. by rewrite Hn in He. }
    assert (entry_at (<[frame_phys_addr f := zero_table]> (tables s.1)) (t, i) = Some e) as ->.
    { unfold entry_at in *. simpl in *. by rewrite lookup_insert_ne. }
    simpl. auto.
  - simpl. destruct Hk as [Hh ? ? ? ?]. constructor; simpl; try done. by eapply host_ok_fail.
Qed.

(** Setting the leaf of [gpa] in a table built so far. *)
Definition leaf_set (gpa e : Z) (s : st A F) (s' : st A F) root : Prop :=
  ∃ t, walk (tables s.1) root (dir_path gpa) = Some t ∧
       s' = (mkHost (alloc s.1) (set_entry (tables s.1) (t, pt_index gpa) e), s.2).

Lemma map_body_spec T0 fs0 root gpa hpa perms m :
  some_perms perms →
  triple (keeps T0 fs0 root) (map_4k_body root gpa hpa perms m)
    (λ _ s', ∃ s, keeps T0 fs0 root s ∧ leaf_set gpa (page_entry_4k hpa perms m) s s' root)
    (λ _ s, keeps T0 fs0 root s).
Proof.
  intros Hperms. unfold map_4k_body, get_or_create_entry, get_entry_mut.
  eapply triple_bind; [by apply triple_ret with (Q := λ p s, p = (root, pml4_index gpa) ∧ keeps T0 fs0 root s)|].
  intros p1 s [-> Hk]. revert s Hk.
  eapply (triple_bind _ _ _ (λ t s, keeps T0 fs0 root s ∧ walk (tables s.1) root [pml4_index gpa] = Some t)).
  { eapply triple_conseq; [apply (ensure_table_spec T0 fs0 root [] root); simpl; auto with bedrock; lia|..]; simpl; auto. }
  intros t1. eapply (triple_bind _ _ _ (λ t s, keeps T0 fs0 root s ∧
    walk (tables s.1) root [pml4_index gpa; pdpt_index gpa] = Some t)).
  { apply (ensure_table_spec T0 fs0 root [pml4_index gpa] t1); simpl; auto with bedrock; lia. }
  intros t2. eapply (triple_bind _ _ _ (λ t s, keeps T0 fs0 root s ∧ walk (tables s.1) root (dir_path gpa) = Some t)).
  { apply (ensure_table_spec T0 fs0 root [pml4_index gpa; pdpt_index gpa] t2); simpl; auto with bedrock; lia. }
  intros t3 s [Hk Hw]. unfold write_entry.
  destruct (tree_entry_at _ _ _ (keeps_tree _ _ _ _ Hk) (dir_path gpa) t3 (pt_index gpa)) as [e He];
    [simpl; lia|done|auto with bedrock|].
  rewrite He. exists s. split; [done|]. by exists t3.
Qed.

Lemma page_path_ne a b : page_no a ≠ page_no b → (dir_path a, pt_index a) ≠ (dir_path b, pt_index b).
Proof. intros Hne [= ? ? ? ?]. apply Hne, page_path_inj. unfold page_path, dir_path. congruence. Qed.

Lemma leaf_set_spec T0 fs0 root gpa e s s' :
  keeps T0 fs0 root s → leaf_set gpa e s s' root → is_present e = true →
  host_ok s'.1 ∧ tree (tables s'.1) root (phys_of s'.2) ∧
  leaf (tables s'.1) root gpa = Some e ∧
  (∀ gpa', page_no gpa' ≠ page_no gpa → leaf (tables s'.1) root gpa' = leaf T0 root gpa') ∧
  (∀ t, t ∉ fs0 → is_Some (T0 !! t) → tables s'.1 !! t = T0 !! t) ∧
  (∀ t, t ∈ phys_of s'.2 → t ∈ fs0 ∨ T0 !! t = None).
Proof.
  intros [Hh HT He Hfr Hfm] (t & Hw & ->) Hpe. simpl.
  assert (t ∈ phys_of s.2) as Htin by (by apply (tree_owned _ _ _ HT (dir_path gpa)); [simpl; lia|]).
  split_and!.
  - intros x Hx. simpl in *. apply eq_None_not_Some. rewrite lookup_set_entry_is_Some, Hh by done.
    by intros [].
  - by apply (leaf_tree _ _ _ HT (dir_path gpa)).
  - by apply (leaf_ent_same _ _ _ HT); auto with bedrock.
  - intros gpa' Hne. unfold leaf.
    rewrite (leaf_ent_other _ _ _ HT (dir_path gpa)) by (simpl; auto using page_path_ne with lia).
    by apply He.
  - intros x Hx Hs. rewrite lookup_set_entry_ne; [by apply Hfm|].
    intros ->. destruct (Hfr t Htin) as [?|Hn]; [done|]. rewrite Hn in Hs. by destruct Hs.
  - done.
Qed.

(** Memory of the host that is not a table of [pt] is the same in [h']. *)
Definition untouched h pt h' : Prop :=
  ∀ t, t ∉ phys_of (ept_frames pt) → is_Some (tables h !! t) → tables h' !! t = tables h !! t.

End Ops.

(** ** Cloning

    [cloned k n T0 src dst T new]: in the memory [T], the first [n] entries of
    the table [dst] are copies of those of the table [src] of [T0] (with [k]
    directory levels below), made of the frames [new]; everything else of [T0]
    is as it was. *)
Definition clone_leaf (e : Z) : Z := page_entry_4k (entry_addr e) READ_EXECUTE WriteBack.

Record cloned (k n : nat) (T0 : gmap Z (list Z)) (src dst : Z) (T : gmap Z (list Z)) (new : list Z)
    : Prop := {
  c_frame t : is_Some (T0 !! t) → t ≠ dst → T !! t = T0 !! t;
  c_dst : ∃ tbl, T !! dst = Some tbl ∧ length tbl = 512%nat;
  c_new t : t ∈ new → T0 !! t = None ∧ ∃ tbl, T !! t = Some tbl ∧ length tbl = 512%nat;
  c_nodup : NoDup new;
  c_todo j : (n ≤ j)%nat → pent T dst j = None;
  c_walk j q : (j < n)%nat → (length q < k)%nat →
    is_Some (walk T dst (j :: q)) ↔ is_Some (walk T0 src (j :: q));
  c_owned j q t : (length q < k)%nat → walk T dst (j :: q) = Some t → t ∈ new;
  c_inj j q j' q' t : (length q < k)%nat → (length q' < k)%nat →
    walk T dst (j :: q) = Some t → walk T dst (j' :: q') = Some t → j :: q = j' :: q';
  c_reach t : t ∈ new → ∃ j q, (length q < k)%nat ∧ walk T dst (j :: q) = Some t;
  c_leaf q i : length q = k → (hd i q < n)%nat → ent T dst q i = clone_leaf <$> ent T0 src q i;
}.

Lemma cloned_init k T0 src dst : T0 !! dst = Some zero_table → cloned k 0 T0 src dst T0 [].
Proof.
  intros Hd. constructor; simpl.
  - done.
  - exists zero_table. done.
  - by intros t ?%elem_of_nil.
  - constructor.
  - intros j _. by apply pent_zero.
  - lia.
  - intros j q t _. by rewrite pent_zero.
  - intros j q j' q' t _ _. by rewrite pent_zero.
  - by intros t ?%elem_of_nil.
  - lia.
Qed.

Lemma cloned_skip k n T0 src dst T new :
  cloned k n T0 src dst T new → pent T0 src n = None → cloned k (S n) T0 src dst T new.
Proof.
  intros HC Hn. destruct HC as [H1 H2 H3 H4 H5 H6 H7 H8 H9 H10].
  assert (pent T dst n = None) as Hd by (by apply H5).
  constructor; try done.
  - intros j Hj. apply H5. lia.
  - intros j q Hj Hq. destruct (decide (j = n)) as [->|]; [|apply H6; lia].
    simpl. rewrite Hd, Hn. done.
  - intros q i Hq Hhd. destruct (decide (hd i q = n)) as [<-|]; [|apply H10; lia].
    unfold ent. destruct q as [|j q]; simpl in *; by rewrite Hd, Hn.
Qed.

Lemma cloned_copy_leaf n T0 src dst T e :
  cloned 0 n T0 src dst T [] → (n < 512)%nat → pent T0 src n = Some e →
  cloned 0 (S n) T0 src dst (set_entry T (dst, n) (clone_leaf e)) [].
Proof.
  intros HC Hn He. destruct HC as [H1 [tbl [Htbl Hl]] H3 H4 H5 H6 H7 H8 H9 H10].
  constructor; [| | | | |lia|lia|lia| |].
  - intros t Ht Hne. rewrite lookup_set_entry_ne by done. auto.
  - by eapply set_entry_length.
  - by intros t ?%elem_of_nil.
  - constructor.
  - intros j Hj. rewrite pent_set_ne by naive_solver lia. apply H5. lia.
  - by intros t ?%elem_of_nil.
  - intros q i Hq Hhd. destruct q; [|done]. simpl in Hhd. unfold ent. simpl.
    destruct (decide (i = n)) as [->|].
    + rewrite He, pent_set_eq; [done| |].
      * unfold entry_at. simpl. rewrite Htbl. simpl. apply lookup_lt_is_Some. lia.
      * by apply page_entry_present.
    + rewrite pent_set_ne by naive_solver. apply (H10 [] i); simpl; lia.
Qed.

(** Out of the 512 entries nothing is present. *)
Lemma pent_ge T t tbl i : T !! t = Some tbl → length tbl = 512%nat → (512 ≤ i)%nat → pent T t i = None.
Proof.
  intros Ht Hl Hi. unfold pent, entry_at. simpl. rewrite Ht. simpl.
  rewrite lookup_ge_None_2 by lia. done.
Qed.

Section CloneChild.
Context (k n : nat) (T0 T T2 : gmap Z (list Z)) (src dst f e : Z) (new new2 : list Z).
Context (Hdst : is_Some (T0 !! dst)).
Context (Hsrc : ∀ p t, (length p ≤ S k)%nat → walk T0 src p = Some t →
  t ≠ dst ∧ ∃ tbl, T0 !! t = Some tbl ∧ length tbl = 512%nat).
Context (HC : cloned (S k) n T0 src dst T new).
Context (Hn : (n < 512)%nat) (He : pent T0 src n = Some e).
Context (Hf : T !! f = None) (Haf : frame_aligned f).
Let te := table_entry f (entry_permissions e).
Let T1 := set_entry (<[f := zero_table]> T) (dst, n) te.
Context (HC2 : cloned k 512 T1 (entry_addr e) f T2 new2).

Lemma cc_dom t : is_Some (T0 !! t) → is_Some (T !! t).
Proof.
  intros Ht. destruct (decide (t = dst)) as [->|].
  - destruct (c_dst _ _ _ _ _ _ _ HC) as (tbl & ? & _). eauto.
  - by rewrite (c_frame _ _ _ _ _ _ _ HC).
Qed.

Lemma cc_f_ne : f ≠ dst.
Proof. intros Heq. destruct (cc_dom dst Hdst) as [? ?]. congruence. Qed.

Lemma cc_f0 : T0 !! f = None.
Proof. apply eq_None_not_Some. intros [? ?]%cc_dom. congruence. Qed.

Lemma cc_T1 t : t ≠ dst → t ≠ f → T1 !! t = T !! t.
Proof. intros. unfold T1. by rewrite lookup_set_entry_ne, lookup_insert_ne. Qed.

Lemma cc_T1_dom t : is_Some (T1 !! t) ↔ t = f ∨ is_Some (T !! t).
Proof.
  unfold T1. rewrite lookup_set_entry_is_Some. destruct (decide (t = f)) as [->|].
  - rewrite lookup_insert_eq. naive_solver.
  - rewrite lookup_insert_ne by done. naive_solver.
Qed.

Lemma cc_T2 t : is_Some (T !! t) → t ≠ dst → T2 !! t = T !! t.
Proof.
  intros Ht Hne. assert (t ≠ f) by (intros ->; rewrite Hf in Ht; by destruct Ht).
  rewrite (c_frame _ _ _ _ _ _ _ HC2); [by apply cc_T1| |done].
  apply cc_T1_dom. by right.
Qed.

Lemma cc_te : is_present te = true ∧ entry_addr te = f.
Proof.
  assert (some_perms (entry_permissions e)) by (by eapply is_present_perms, pent_present).
  split; [by apply table_entry_present|by apply table_entry_addr].
Qed.

Lemma cc_dst_T2 : T2 !! dst = T1 !! dst.
Proof.
  apply (c_frame _ _ _ _ _ _ _ HC2); [|by pose proof cc_f_ne].
  apply cc_T1_dom. right. by apply cc_dom.
Qed.

Lemma cc_dst_T1 : ∃ tbl, T1 !! dst = Some tbl ∧ length tbl = 512%nat.
Proof.
  destruct (c_dst _ _ _ _ _ _ _ HC) as (tbl & Ht & Hl).
  apply (set_entry_length _ _ _ _ tbl); [|done].
  rewrite lookup_insert_ne; [done|]. apply cc_f_ne.
Qed.

Lemma cc_pent_n : pent T2 dst n = Some te.
Proof.
  rewrite (pent_agree T1 T2) by apply cc_dst_T2. apply pent_set_eq; [|apply cc_te].
  destruct (c_dst _ _ _ _ _ _ _ HC) as (tbl & Ht & Hl).
  unfold entry_at. simpl. rewrite lookup_insert_ne by apply cc_f_ne. rewrite Ht. simpl.
  apply lookup_lt_is_Some. lia.
Qed.

Lemma cc_pent_other j : j ≠ n → pent T2 dst j = pent T dst j.
Proof.
  intros Hj. rewrite (pent_agree T1 T2) by apply cc_dst_T2.
  unfold T1. rewrite pent_set_ne by naive_solver. by apply pent_fresh.
Qed.

Lemma cc_new_T2 t : t ∈ new → T2 !! t = T !! t.
Proof.
  intros Ht. destruct (c_new _ _ _ _ _ _ _ HC t Ht) as (H0 & tbl & H1 & _).
  apply cc_T2; [eauto|]. intros ->. rewrite H0 in Hdst. by destruct Hdst.
Qed.

Lemma cc_walk_old j q : j ≠ n → (length q ≤ S k)%nat → walk T2 dst (j :: q) = walk T dst (j :: q).
Proof.
  intros Hj Hq. apply walk_agree. intros [|j' q1] i q2 t Heq Hw.
  - injection Heq as -> ->. injection Hw as <-. by apply cc_pent_other.
  - injection Heq as -> ->. apply pent_agree, cc_new_T2. rewrite length_app in Hq. simpl in Hq.
    eapply (c_owned _ _ _ _ _ _ _ HC j' q1); [lia|]. done.
Qed.

Lemma cc_ent_old j q i : j ≠ n → (length q ≤ k)%nat → ent T2 dst (j :: q) i = ent T dst (j :: q) i.
Proof.
  intros Hj Hq. unfold ent. rewrite cc_walk_old by (done || lia).
  destruct (walk T dst (j :: q)) as [t|] eqn:Hw; [|done]. simpl.
  apply pent_agree, cc_new_T2. eapply (c_owned _ _ _ _ _ _ _ HC j q); [lia|done].
Qed.

Lemma cc_walk_n q : walk T2 dst (n :: q) = walk T2 f q.
Proof. simpl. rewrite cc_pent_n. by rewrite (proj2 cc_te). Qed.

Lemma cc_src t q : (length q ≤ k)%nat → walk T0 (entry_addr e) q = Some t → T1 !! t = T0 !! t.
Proof.
  intros Hq Hw. destruct (Hsrc (n :: q) t) as (Hne & tbl & Ht & _); [simpl; lia|simpl; by rewrite He|].
  assert (t ≠ f) by (intros ->; by rewrite cc_f0 in Ht).
  rewrite cc_T1 by done. apply (c_frame _ _ _ _ _ _ _ HC); eauto.
Qed.

Lemma cc_src_walk q : (length q ≤ S k)%nat → walk T1 (entry_addr e) q = walk T0 (entry_addr e) q.
Proof.
  intros Hq. apply walk_agree. intros q1 i q2 t -> Hw. apply pent_agree.
  rewrite length_app in Hq. simpl in Hq. eapply (cc_src t q1); [lia|done].
Qed.

Lemma cc_src_ent q i : (length q ≤ k)%nat → ent T1 (entry_addr e) q i = ent T0 (entry_addr e) q i.
Proof.
  intros Hq. unfold ent. rewrite cc_src_walk by lia.
  destruct (walk T0 (entry_addr e) q) as [t|] eqn:Hw; [|done]. simpl. by eapply pent_agree, cc_src.
Qed.

(** A path into the copy goes through an old entry or through entry [n]. *)
Lemma cc_walk_cases j q t :
  (length q ≤ k)%nat → walk T2 dst (j :: q) = Some t →
  (j < n)%nat ∧ walk T dst (j :: q) = Some t ∧ t ∈ new ∨
  j = n ∧ walk T2 f q = Some t ∧ (q = [] ∧ t = f ∨ q ≠ [] ∧ t ∈ new2).
Proof.
  intros Hq Hw. destruct (decide (j = n)) as [->|Hj].
  - right. rewrite cc_walk_n in Hw. split_and!; [done..|].
    destruct q as [|i q]; [left; naive_solver|right].
    split; [done|]. eapply (c_owned _ _ _ _ _ _ _ HC2 i q); [simpl in Hq; lia|done].
  - left. rewrite cc_walk_old in Hw by (done || lia). split_and!; [|done|].
    + destruct (decide (j < n)%nat); [done|]. simpl in Hw.
      rewrite (c_todo _ _ _ _ _ _ _ HC) in Hw by lia. done.
    + eapply (c_owned _ _ _ _ _ _ _ HC j q); [lia|done].
Qed.

Lemma cc_disjoint : NoDup (new ++ f :: new2).
Proof.
  apply NoDup_app. split; [apply (c_nodup _ _ _ _ _ _ _ HC)|]. split.
  - intros t Ht [->|Ht2]%elem_of_cons.
    + destruct (c_new _ _ _ _ _ _ _ HC f Ht) as (_ & tbl & ? & _). congruence.
    + destruct (c_new _ _ _ _ _ _ _ HC t Ht) as (_ & tbl & Htbl & _).
      destruct (c_new _ _ _ _ _ _ _ HC2 t Ht2) as [Hn2 _].
      assert (is_Some (T1 !! t)) as [? ?] by (apply cc_T1_dom; eauto). congruence.
  - constructor; [|apply (c_nodup _ _ _ _ _ _ _ HC2)].
    intros Hf2. destruct (c_new _ _ _ _ _ _ _ HC2 f Hf2) as [Hn2 _].
    assert (is_Some (T1 !! f)) as [? ?] by (apply cc_T1_dom; auto). congruence.
Qed.

Lemma cc_new_apart t : t ∈ new → t = f ∨ t ∈ new2 → False.
Proof.
  intros Ht Ht2. pose proof cc_disjoint as (_ & Hd & _)%NoDup_app.
  apply (Hd t Ht). apply elem_of_cons. done.
Qed.

Lemma cc_f_new2 : f ∉ new2.
Proof. pose proof cc_disjoint as (_ & _ & Hd)%NoDup_app. by inversion Hd. Qed.

Lemma cc_src_table : ∃ tbl, T1 !! entry_addr e = Some tbl ∧ length tbl = 512%nat.
Proof.
  destruct (Hsrc [n] (entry_addr e)) as (Hne & tbl & Ht & Hl); [simpl; lia|simpl; by rewrite He|].
  exists tbl. split; [|done]. by rewrite (cc_src _ []) by (simpl; done || lia).
Qed.

Lemma cc_child_walk q : (length q ≤ k)%nat → is_Some (walk T2 f q) ↔ is_Some (walk T0 (entry_addr e) q).
Proof.
  intros Hq. destruct q as [|j q]; [simpl; split; eauto|].
  rewrite <-cc_src_walk by lia. destruct (decide (j < 512)%nat) as [Hj|Hj].
  - apply (c_walk _ _ _ _ _ _ _ HC2); [done|simpl in Hq; lia].
  - destruct cc_src_table as (tbl & Ht & Hl). simpl.
    rewrite (pent_ge T1 _ tbl) by (done || lia). by rewrite (c_todo _ _ _ _ _ _ _ HC2) by lia.
Qed.

Lemma cc_child_leaf q i : length q = k → ent T2 f q i = clone_leaf <$> ent T0 (entry_addr e) q i.
Proof.
  intros Hq. rewrite <-cc_src_ent by lia. destruct (decide (hd i q < 512)%nat) as [Hj|Hj].
  - by apply (c_leaf _ _ _ _ _ _ _ HC2).
  - destruct cc_src_table as (tbl & Ht & Hl). unfold ent.
    destruct q as [|j q]; simpl in *;
      rewrite (pent_ge T1 _ tbl) by (done || lia); by rewrite (c_todo _ _ _ _ _ _ _ HC2) by lia.
Qed.

Lemma cc_inj j q j' q' t :
  (length q ≤ k)%nat → (length q' ≤ k)%nat →
  walk T2 dst (j :: q) = Some t → walk T2 dst (j' :: q') = Some t → j :: q = j' :: q'.
Proof.
  intros Hq Hq' Hw Hw'.
  apply cc_walk_cases in Hw as [(Hj & Hw & Ht)|(-> & Hw & Ht)]; [..|done];
    apply cc_walk_cases in Hw' as [(Hj' & Hw' & Ht')|(-> & Hw' & Ht')]; try done.
  - eapply (c_inj _ _ _ _ _ _ _ HC); [..|exact Hw|exact Hw']; lia.
  - exfalso. apply (cc_new_apart t Ht). naive_solver.
  - exfalso. apply (cc_new_apart t Ht'). naive_solver.
  - f_equal. destruct Ht as [[-> ->]|[Hne Ht]], Ht' as [[-> Heq]|[Hne' Ht']]; [done|..].
    + by destruct cc_f_new2.
    + subst t. by destruct cc_f_new2.
    + destruct q as [|a q]; [done|]. destruct q' as [|b q']; [done|]. simpl in Hq, Hq'.
      eapply (c_inj _ _ _ _ _ _ _ HC2); [..|exact Hw|exact Hw']; lia.
Qed.

Lemma cc_new_tables t :
  t ∈ new ++ f :: new2 → T0 !! t = None ∧ ∃ tbl, T2 !! t = Some tbl ∧ length tbl = 512%nat.
Proof.
  intros [Ht|[->|Ht]%elem_of_cons]%elem_of_app.
  - destruct (c_new _ _ _ _ _ _ _ HC t Ht) as (H0 & tbl & ? & ?). split; [done|].
    exists tbl. by rewrite cc_new_T2.
  - split; [apply cc_f0|apply (c_dst _ _ _ _ _ _ _ HC2)].
  - destruct (c_new _ _ _ _ _ _ _ HC2 t Ht) as (H1 & Htbl). split; [|done].
    apply eq_None_not_Some. intros Hs%cc_dom.
    assert (is_Some (T1 !! t)) as [? ?] by (apply cc_T1_dom; auto). congruence.
Qed.

Lemma cc_reach t : t ∈ new ++ f :: new2 → ∃ j q, (length q < S k)%nat ∧ walk T2 dst (j :: q) = Some t.
Proof.
  intros [Ht|[->|Ht]%elem_of_cons]%elem_of_app.
  - destruct (c_reach _ _ _ _ _ _ _ HC t Ht) as (j & q & Hq & Hw). exists j, q. split; [done|].
    rewrite cc_walk_old; [done| |lia]. intros ->. simpl in Hw.
    by rewrite (c_todo _ _ _ _ _ _ _ HC) in Hw by lia.
  - exists n, []. rewrite cc_walk_n. simpl. split; [lia|done].
  - destruct (c_reach _ _ _ _ _ _ _ HC2 t Ht) as (j & q & Hq & Hw).
    exists n, (j :: q). rewrite cc_walk_n. simpl. split; [lia|done].
Qed.

Lemma cloned_child : cloned (S k) (S n) T0 src dst T2 (new ++ f :: new2).
Proof.
  constructor.
  - intros t Ht Hne. rewrite cc_T2 by (done || by apply cc_dom). by apply (c_frame _ _ _ _ _ _ _ HC).
  - rewrite cc_dst_T2. apply cc_dst_T1.
  - apply cc_new_tables.
  - apply cc_disjoint.
  - intros j Hj. rewrite cc_pent_other by lia. apply (c_todo _ _ _ _ _ _ _ HC). lia.
  - intros j q Hj Hq. destruct (decide (j = n)) as [->|Hne].
    + rewrite cc_walk_n, cc_child_walk by lia. simpl. by rewrite He.
    + rewrite cc_walk_old by (done || lia). apply (c_walk _ _ _ _ _ _ _ HC); lia.
  - intros j q t Hq Hw. apply elem_of_app. rewrite elem_of_cons.
    apply cc_walk_cases in Hw; [|lia]. naive_solver.
  - intros j q j' q' t Hq Hq'. apply cc_inj; lia.
  - apply cc_reach.
  - intros q i Hq Hhd. destruct q as [|j q]; [done|]. simpl in Hq, Hhd.
    destruct (decide (j = n)) as [->|Hne].
    + rewrite !ent_cons, cc_pent_n, He. simpl. rewrite (proj2 cc_te). apply cc_child_leaf. lia.
    + rewrite cc_ent_old by (done || lia). apply (c_leaf _ _ _ _ _ _ _ HC); simpl; lia.
Qed.
End CloneChild.

Section CloneSpec.
Context {A F E : Type} `{!FrameAllocator A F E} `{!FrameAllocatorSpec A F E}.
Implicit Types (pt : EptPageTable F) (h : host A) (s : st A F).

Section Level.
Context (k : nat) (T0 : gmap Z (list Z)) (src dst : Z) (fs0 : list F).

(** A source the loops can read: its tables are full pages, not the copy. *)
Definition src_ok : Prop := ∀ p t, (length p ≤ k)%nat → walk T0 src p = Some t →
  t ≠ dst ∧ ∃ tbl, T0 !! t = Some tbl ∧ length tbl = 512%nat.

Definition clone_pre s : Prop := host_ok s.1 ∧ tables s.1 = T0 ∧ s.2 = fs0.
Definition clone_inv (n : nat) s : Prop :=
  host_ok s.1 ∧ ∃ newF, s.2 = fs0 ++ newF ∧ cloned k n T0 src dst (tables s.1) (phys_of newF).
Definition clone_err (_ : E) s : Prop :=
  host_ok s.1 ∧ ∀ t, is_Some (T0 !! t) → t ≠ dst → tables s.1 !! t = T0 !! t.

Lemma clone_pre_inv s : T0 !! dst = Some zero_table → clone_pre s → clone_inv 0 s.
Proof.
  intros Hd (Hh & HT & Hfs). split; [done|]. exists []. rewrite app_nil_r, HT.
  split; [done|]. by apply cloned_init.
Qed.

(** The entry an iteration reads is that of the source in [T0]. *)
Lemma clone_read n s :
  src_ok → clone_inv n s → (n < 512)%nat →
  ∃ e, entry_at (tables s.1) (src, n) = Some e ∧
       pent T0 src n = if is_present e then Some e else None.
Proof.
  intros Hs (_ & newF & _ & HC) Hn.
  destruct (Hs [] src) as (Hne & tbl & Ht & Hl); [simpl; lia|done|].
  destruct (lookup_lt_is_Some_2 tbl n) as [e He]; [lia|]. exists e.
  unfold pent, entry_at. simpl. rewrite (c_frame _ _ _ _ _ _ _ HC), Ht by eauto.
  simpl. by rewrite He.
Qed.
End Level.

Lemma clone_pt_spec T0 src dst fs0 :
  T0 !! dst = Some zero_table → src_ok 0 T0 src dst →
  triple (clone_pre T0 fs0) (clone_pt src dst)
    (λ _, clone_inv 0 T0 src dst fs0 512) (clone_err T0 dst).
Proof.
  intros Hd Hs. unfold clone_pt.
  apply (triple_conseq _ (λ s, clone_inv 0 T0 src dst fs0 0 s ∧ s.2 = fs0) _ _
    (λ _ s, clone_inv 0 T0 src dst fs0 512 s ∧ s.2 = fs0) _ (clone_err T0 dst)).
  2: { intros s Hp. split; [by apply clone_pre_inv|apply Hp]. }
  2: naive_solver. 2: done.
  apply (triple_for_range 512 _ (λ n s, clone_inv 0 T0 src dst fs0 n s ∧ s.2 = fs0)).
  intros n Hn s [HI Hfs]. destruct (clone_read _ _ _ _ _ _ _ Hs HI Hn) as (e & He & Hpe).
  unfold mbind, M_bind, read_entry, demand. rewrite He.
  destruct HI as (Hh & newF & Hnew & HC).
  assert (newF = []) as -> 
    by (apply (app_inv_head fs0); by rewrite app_nil_r, <-Hnew).
  destruct (is_present e) eqn:Hp.
  - unfold write_entry. destruct (c_dst _ _ _ _ _ _ _ HC) as (tbl & Htbl & Hl).
    destruct (lookup_lt_is_Some_2 tbl n) as [x Hx]; [lia|].
    assert (entry_at (tables s.1) (dst, n) = Some x) as ->.
    { unfold entry_at. simpl. rewrite Htbl. done. }
    split; [|done]. split; simpl.
    + intros p Hav. simpl in *. apply eq_None_not_Some. rewrite lookup_set_entry_is_Some, Hh by done.
      by intros [].
    + exists []. split; [done|]. by apply cloned_copy_leaf.
  - split; [|done]. split; [done|]. exists []. split; [done|]. by apply cloned_skip.
Qed.

Section Dir.
Context (k : nat) (child : Z → Z → M (st A F) E ()).
Context (Hchild : ∀ T0 src dst fs0,
  T0 !! dst = Some zero_table → src_ok k T0 src dst →
  triple (clone_pre T0 fs0) (child src dst)
    (λ _, clone_inv k T0 src dst fs0 512) (clone_err T0 dst)).

(** The state in which the loop body calls the next level. *)
Lemma clone_descend T0 src dst fs0 n s e f a' :
  is_Some (T0 !! dst) → src_ok (S k) T0 src dst → clone_inv (S k) T0 src dst fs0 n s →
  (n < 512)%nat → pent T0 src n = Some e →
  allocate_frame (alloc s.1) = (Ok f, a') →
  let f' := frame_phys_addr f in
  let T1 := set_entry (<[f' := zero_table]> (tables s.1)) (dst, n) (table_entry f' (entry_permissions e)) in
  match child (entry_addr e) f' (mkHost a' T1, s.2 ++ [f]) with
  | (Done _, s') => clone_inv (S k) T0 src dst fs0 (S n) s'
  | (Fail err, s') => clone_err T0 dst err s'
  | (Stuck, _) => False
  end.
Proof using Hchild FrameAllocatorSpec0.
  intros Hd Hs (Hh & newF & Hfs & HC) Hn He Ha f' T1.
  destruct (host_ok_alloc _ _ _ Hh Ha) as (Hf & Haf & Hav).
  pose proof (cc_f_ne k n T0 (tables s.1) src dst f' (phys_of newF) Hd HC Hf) as Hfd.
  pose proof (cc_f0 k n T0 (tables s.1) src dst f' (phys_of newF) HC Hf) as Hf0.
  assert (src_ok k T1 (entry_addr e) f') as Hs1.
  { intros p t Hp. unfold T1.
    rewrite (cc_src_walk k n T0 (tables s.1) src dst f' e (phys_of newF)) by (done || lia).
    intros Hw. pose proof (cc_src k n T0 (tables s.1) src dst f' e (phys_of newF) Hs HC Hn He Hf t p Hp Hw) as Heq.
    destruct (Hs (n :: p) t) as (_ & tbl & Ht & Hl); [simpl; lia|simpl; by rewrite He|].
    split; [|exists tbl; by rewrite Heq]. intros ->.
    by rewrite Hf0 in Ht. }
  assert (T1 !! f' = Some zero_table) as Hz.
  { unfold T1. rewrite lookup_set_entry_ne by done. apply lookup_insert_eq. }
  assert (host_ok (mkHost a' T1)) as Hh1.
  { intros p Hp. simpl in *. apply Hav in Hp as [Hp Hpf]. apply eq_None_not_Some. unfold T1.
    rewrite lookup_set_entry_is_Some, lookup_insert_ne by done. rewrite Hp. by intros []. }
  specialize (Hchild T1 (entry_addr e) f' (s.2 ++ [f]) Hz Hs1 (mkHost a' T1, s.2 ++ [f])).
  destruct (child _ _ _) as [[?|err|] s']; [..|apply Hchild; done].
  - destruct Hchild as (Hh2 & newF2 & Hfs2 & HC2); [done|]. split; [done|].
    exists (newF ++ f :: newF2). split; [by rewrite Hfs2, Hfs, <-!app_assoc|].
    unfold phys_of. rewrite fmap_app. simpl. by apply (cloned_child k n T0 (tables s.1) (tables s'.1) src dst f' e).
  - destruct Hchild as [Hh2 Hfr2]; [done|]. split; [done|].
    intros t Ht Hne.
    assert (t ≠ f') by (intros ->; rewrite Hf0 in Ht; by destruct Ht).
    pose proof (cc_dom k n T0 (tables s.1) src dst (phys_of newF) HC t Ht) as HtT.
    rewrite Hfr2; [| |done].
    + unfold T1. rewrite lookup_set_entry_ne, lookup_insert_ne by done. by apply (c_frame _ _ _ _ _ _ _ HC).
    + unfold T1. by rewrite lookup_set_entry_is_Some, lookup_insert_ne.
Qed.

Lemma clone_dir_spec T0 src dst fs0 :
  T0 !! dst = Some zero_table → src_ok (S k) T0 src dst →
  triple (clone_pre T0 fs0) (clone_dir child src dst)
    (λ _, clone_inv (S k) T0 src dst fs0 512) (clone_err T0 dst).
Proof using Hchild FrameAllocatorSpec0.
  intros Hd Hs. unfold clone_dir.
  apply (triple_conseq _ (clone_inv (S k) T0 src dst fs0 0) _ _
    (λ _, clone_inv (S k) T0 src dst fs0 512) _ (clone_err T0 dst));
    [|intros s; by apply clone_pre_inv|done|done].
  apply (triple_for_range 512 _ (clone_inv (S k) T0 src dst fs0)). intros n Hn s HI.
  destruct (clone_read _ _ _ _ _ _ _ Hs HI Hn) as (e & He & Hpe).
  unfold mbind, M_bind, read_entry, demand. rewrite He.
  destruct (is_present e) eqn:Hp.
  - unfold alloc_frame. destruct (allocate_frame (alloc s.1)) as [[f|err] a'] eqn:Ha.
    + pose proof (clone_descend T0 src dst fs0 n s e f a') as Hdesc. simpl in Hdesc.
      unfold zero_page, push_frame, modify, write_entry. simpl.
      destruct HI as (Hh & newF & Hfs & HC).
      destruct (host_ok_alloc _ _ _ Hh Ha) as (Hf & _ & _).
      destruct (c_dst _ _ _ _ _ _ _ HC) as (tbl & Htbl & Hl).
      destruct (lookup_lt_is_Some_2 tbl n) as [x Hx]; [lia|].
      assert (entry_at (<[frame_phys_addr f := zero_table]> (tables s.1)) (dst, n) = Some x) as ->.
      { unfold entry_at. simpl. rewrite lookup_insert_ne by congruence. by rewrite Htbl. }
      simpl. apply Hdesc; try done. split; [done|]. eauto.
    + destruct HI as (Hh & newF & Hfs & HC). split; simpl; [by eapply host_ok_fail|].
      apply (c_frame _ _ _ _ _ _ _ HC).
  - destruct HI as (Hh & newF & Hfs & HC). split; [done|]. exists newF. split; [done|].
    by apply cloned_skip.
Qed.
End Dir.

Lemma clone_level_spec k T0 src dst fs0 :
  T0 !! dst = Some zero_table → src_ok k T0 src dst →
  triple (clone_pre T0 fs0) (clone_level k src dst)
    (λ _, clone_inv k T0 src dst fs0 512) (clone_err T0 dst).
Proof.
  revert T0 src dst fs0. induction k as [|k IH]; intros T0 src dst fs0.
  - apply clone_pt_spec.
  - simpl. by apply clone_dir_spec.
Qed.

(** A full copy is a tree of its own frames. *)
Lemma cloned_tree T0 src dst T new :
  is_Some (T0 !! dst) → cloned 3 512 T0 src dst T new → tree T dst (dst :: new).
Proof.
  intros Hd HC.
  assert (dst ∉ new) as Hdn.
  { intros Hin. destruct (c_new _ _ _ _ _ _ _ HC dst Hin) as [Hn _]. rewrite Hn in Hd. by destruct Hd. }
  constructor.
  - intros [|j p] t Hp Hw; simpl in Hp.
    + injection Hw as <-. apply (c_dst _ _ _ _ _ _ _ HC).
    + apply (c_new _ _ _ _ _ _ _ HC). eapply (c_owned _ _ _ _ _ _ _ HC j p); [lia|done].
  - intros [|j p] [|j' q] t Hp Hq Hw Hw'; simpl in Hp, Hq; [done|..].
    + injection Hw as <-. by apply (c_owned _ _ _ _ _ _ _ HC) in Hw'; [|lia].
    + injection Hw' as <-. by apply (c_owned _ _ _ _ _ _ _ HC) in Hw; [|lia].
    + eapply (c_inj _ _ _ _ _ _ _ HC); [..|exact Hw|exact Hw']; lia.
  - intros [|j p] t Hp Hw; simpl in Hp; apply elem_of_cons.
    + injection Hw as <-. by left.
    + right. eapply (c_owned _ _ _ _ _ _ _ HC j p); [lia|done].
  - intros t [->|Ht]%elem_of_cons; [exists []; simpl; split; [lia|done]|].
    destruct (c_reach _ _ _ _ _ _ _ HC t Ht) as (j & q & ? & ?). exists (j :: q). simpl. split; [lia|done].
  - constructor; [done|apply (c_nodup _ _ _ _ _ _ _ HC)].
Qed.

(** Trees with the same set of paths have the same number of frames. *)
Lemma tree_length_le T root fs T' root' fs' :
  tree T root fs → tree T' root' fs' →
  (∀ q, (length q ≤ 3)%nat → is_Some (walk T root q) → is_Some (walk T' root' q)) →
  (length fs ≤ length fs')%nat.
Proof.
  intros HT HT' Hq.
  assert (∃ us, Forall2 (λ t u, ∃ q, (length q ≤ 3)%nat ∧ walk T root q = Some t ∧
    walk T' root' q = Some u) fs us) as [us Hus].
  { assert (∀ l, l ⊆ fs → ∃ us, Forall2 (λ t u, ∃ q, (length q ≤ 3)%nat ∧ walk T root q = Some t ∧
      walk T' root' q = Some u) l us) as H; [|by apply H].
    induction l as [|t l IH]; intros Hl; [by exists []|].
    destruct IH as [us Hus]; [set_solver|].
    destruct (tree_reach _ _ _ HT t) as (q & Hlen & Hw); [set_solver|].
    destruct (Hq q Hlen) as [u Hu]; [eauto|]. exists (u :: us). constructor; eauto 6. }
  rewrite (Forall2_length _ _ _ Hus). apply submseteq_length, NoDup_submseteq.
  - pose proof (tree_nodup _ _ _ HT) as Hnd. clear Hq HT.
    induction Hus as [|t u l us (q & Hlen & Hw & Hu) Hus IH]; [constructor|].
    apply NoDup_cons in Hnd as [Hnt Hnd]. constructor; [|auto].
    intros (i & Hui)%list_elem_of_lookup. destruct (Forall2_lookup_r _ _ _ _ _ Hus Hui) as (t' & Ht' & q' & Hlen' & Hw' & Hu').
    apply Hnt. rewrite (tree_inj _ _ _ HT' q q' u) in Hw by done. rewrite Hw in Hw'. injection Hw' as ->.
    by eapply list_elem_of_lookup_2.
  - intros u (i & Hui)%list_elem_of_lookup.
    destruct (Forall2_lookup_r _ _ _ _ _ Hus Hui) as (t & _ & q & Hlen & _ & Hw).
    by apply (tree_owned _ _ _ HT' q).
Qed.
End CloneSpec.

(** ** Frames in use only grow, by frames that were free *)
Section Grows.
Context {A F E : Type} `{!FrameAllocator A F E} `{!FrameAllocatorSpec A F E}.
Implicit Types (h : host A) (s : st A F).

Record grows h h' : Prop := {
  grows_avail p : avail (alloc h') p → avail (alloc h) p;
  grows_dom t : is_Some (tables h' !! t) → is_Some (tables h !! t) ∨ avail (alloc h) t;
}.

#[export] Instance grows_preorder : PreOrder grows.
Proof.
  split.
  - intros h. constructor; auto.
  - intros h1 h2 h3 [A1 D1] [A2 D2]. constructor; [auto|].
    intros t Ht. destruct (D2 t Ht) as [Ht2|Ht2]; [auto|right; auto].
Qed.

Definition growing {R} (m : M (st A F) E R) : Prop := ∀ s, grows s.1 (m s).2.1.

Lemma growing_ret {R} (a : R) : growing (mret a).
Proof. intros s. simpl. reflexivity. Qed.

Lemma growing_bind {R R'} (m : M (st A F) E R) (k : R → M (st A F) E R') :
  growing m → (∀ a, growing (k a)) → growing (m ≫= k).
Proof.
  intros Hm Hk s. unfold mbind, M_bind. specialize (Hm s).
  destruct (m s) as [[a|e|] s']; simpl in *; [|done..]. by etransitivity; [|apply Hk].
Qed.

Lemma growing_read p : growing (read_entry p).
Proof. intros s. unfold read_entry, demand. destruct (entry_at (tables s.1) p); simpl; reflexivity. Qed.

Lemma growing_write p e : growing (write_entry p e).
Proof.
  intros s. unfold write_entry. destruct (entry_at (tables s.1) p); simpl; [|reflexivity].
  constructor; simpl; [done|]. intros t Ht. left. by apply lookup_set_entry_is_Some in Ht.
Qed.

Lemma growing_push f : growing (push_frame f).
Proof. intros s. simpl. reflexivity. Qed.

Lemma growing_alloc_zero {R} (k : F → M (st A F) E R) :
  (∀ f, growing (k f)) →
  growing (alloc_frame ≫= λ f, zero_page (frame_phys_addr f) ≫= λ _, k f).
Proof.
  intros Hk s. unfold mbind, M_bind, alloc_frame, zero_page, modify.
  destruct (allocate_frame (alloc s.1)) as [[f|e] a'] eqn:Ha; simpl.
  - etransitivity; [|apply Hk]. simpl. destruct (allocate_frame_ok _ _ _ Ha) as [Hav Hrest].
    constructor; simpl; [intros p [? _]%Hrest; done|].
    intros t Ht. destruct (decide (t = frame_phys_addr f)) as [->|]; [by right|].
    rewrite lookup_insert_ne in Ht by done. by left.
  - constructor; simpl; [by eapply allocate_frame_err|auto].
Qed.

Lemma growing_for_each {B} (l : list B) body :
  (∀ x, growing (body x)) → growing (for_each l body).
Proof.
  intros Hb. induction l as [|x l IH]; simpl; [apply growing_ret|]. by apply growing_bind.
Qed.

Lemma growing_ensure p perms : growing (ensure_table p perms).
Proof.
  unfold ensure_table. apply growing_bind; [apply growing_read|]. intros e.
  destruct (is_present e); [apply growing_ret|]. apply growing_alloc_zero. intros f.
  apply growing_bind; [apply growing_write|]. intros _.
  apply growing_bind; [apply growing_push|]. intros _. apply growing_ret.
Qed.

Lemma growing_clone k src dst : growing (clone_level k src dst).
Proof.
  revert src dst. induction k as [|k IH]; intros src dst; simpl; apply growing_for_each; intros idx;
    (apply growing_bind; [apply growing_read|]); intros e; (destruct (is_present e); [|apply growing_ret]).
  - apply growing_write.
  - apply growing_alloc_zero. intros f.
    apply growing_bind; [apply growing_push|]. intros _.
    apply growing_bind; [apply growing_write|]. intros _. apply IH.
Qed.

Lemma clone_grows h pt : grows h (clone_for_fork pt h).2.
Proof.
  assert (growing (clone_body (pml4_phys pt))) as Hg.
  { apply growing_alloc_zero. intros f. apply growing_bind; [apply growing_push|]. intros _.
    apply growing_bind; [apply growing_clone|]. intros _. apply growing_ret. }
  specialize (Hg (h, [])). unfold clone_for_fork.
  destruct (clone_body _ _) as [[?|?|] [h' fs]]; done.
Qed.

Lemma map_4k_grows h pt gpa hpa perms m : grows h (map_4k pt h gpa hpa perms m).2.2.
Proof.
  assert (growing (map_4k_body (pml4_phys pt) gpa hpa perms m)) as Hg.
  { unfold map_4k_body, get_or_create_entry.
    repeat (apply growing_bind; [first [apply growing_ret|apply growing_ensure]|intros ?]).
    apply growing_write. }
  specialize (Hg (h, ept_frames pt)). unfold map_4k.
  destruct (map_4k_body _ _ _ _ _ _) as [? [h' fs]]. done.
Qed.

Lemma new_grows h : grows h (new (F:=F) h).2.
Proof.
  unfold new. destruct (allocate_frame (alloc h)) as [[f|e] a'] eqn:Ha; simpl.
  - destruct (allocate_frame_ok _ _ _ Ha) as [Hav Hrest].
    constructor; simpl; [intros p [? _]%Hrest; done|].
    intros t Ht. destruct (decide (t = frame_phys_addr f)) as [->|]; [by right|].
    rewrite lookup_insert_ne in Ht by done. by left.
  - constructor; simpl; [by eapply allocate_frame_err|auto].
Qed.
End Grows.

(** ** What each operation does, for its clients *)
Section Specs.
Context {A F E : Type} `{!FrameAllocator A F E} `{!FrameAllocatorSpec A F E}.
Implicit Types (pt : EptPageTable F) (h : host A) (s : st A F).

(** A tree depends on its own frames only. *)
Lemma tree_walk_frame T T' root fs q :
  tree T root fs → (∀ t, t ∈ fs → T' !! t = T !! t) → (length q ≤ 4)%nat →
  walk T' root q = walk T root q.
Proof.
  intros HT Hag Hq. apply walk_agree. intros q1 i q2 t -> Hw. apply pent_agree, Hag.
  rewrite length_app in Hq. simpl in Hq. apply (tree_owned _ _ _ HT q1); [lia|done].
Qed.

Lemma tree_frame T T' root fs :
  tree T root fs → (∀ t, t ∈ fs → T' !! t = T !! t) →
  tree T' root fs ∧ ∀ gpa, leaf T' root gpa = leaf T root gpa.
Proof.
  intros HT Hag.
  assert (∀ q, (length q ≤ 4)%nat → walk T' root q = walk T root q) as Hwk
    by (intros; by eapply tree_walk_frame).
  split.
  - constructor.
    + intros p t Hp. rewrite Hwk by lia. intros Hw.
      rewrite Hag by (by apply (tree_owned _ _ _ HT p)). by apply (tree_table _ _ _ HT p).
    + intros p q t Hp Hq. rewrite !Hwk by lia. by apply (tree_inj _ _ _ HT).
    + intros p t Hp. rewrite Hwk by lia. by apply (tree_owned _ _ _ HT).
    + intros t Ht. destruct (tree_reach _ _ _ HT t Ht) as (p & Hp & Hw).
      exists p. rewrite Hwk by lia. done.
    + apply (tree_nodup _ _ _ HT).
  - intros gpa. unfold leaf, ent. rewrite Hwk by (simpl; lia).
    destruct (walk T root (dir_path gpa)) as [t|] eqn:Hw; [|done]. simpl.
    apply pent_agree, Hag. apply (tree_owned _ _ _ HT (dir_path gpa)); [simpl; lia|done].
Qed.

Lemma ept_wf_frame h h' pt :
  ept_wf h pt → (∀ t, is_Some (tables h !! t) → tables h' !! t = tables h !! t) →
  ept_wf h' pt ∧ ∀ gpa, leaf (tables h') (pml4_phys pt) gpa = leaf (tables h) (pml4_phys pt) gpa.
Proof.
  intros Hwf Hag. apply tree_frame; [done|]. intros t Ht. apply Hag. by eapply tree_frames.
Qed.

(** The frames of [pt'] are those of [pt] and frames that were not in use. *)
Definition new_frames h pt pt' : Prop :=
  ∀ t, t ∈ phys_of (ept_frames pt') → t ∈ phys_of (ept_frames pt) ∨ tables h !! t = None.

(** What a client sees of a table after an operation that keeps [host_ok]. *)
Definition map_4k_post h pt gpa hpa perms m (r : outcome E () * (EptPageTable F * host A)) : Prop :=
  match r with
  | (Done _, (pt', h')) =>
      host_ok h' ∧ ept_wf h' pt' ∧ untouched h pt h' ∧ new_frames h pt pt' ∧ pml4_phys pt' = pml4_phys pt ∧
      leaf (tables h') (pml4_phys pt) gpa = Some (page_entry_4k hpa perms m) ∧
      ∀ gpa', page_no gpa' ≠ page_no gpa →
        leaf (tables h') (pml4_phys pt) gpa' = leaf (tables h) (pml4_phys pt) gpa'
  | (Fail _, (pt', h')) =>
      host_ok h' ∧ ept_wf h' pt' ∧ untouched h pt h' ∧ new_frames h pt pt' ∧ pml4_phys pt' = pml4_phys pt ∧
      ∀ gpa', leaf (tables h') (pml4_phys pt) gpa' = leaf (tables h) (pml4_phys pt) gpa'
  | (Stuck, _) => False
  end.

Lemma map_4k_spec h pt gpa hpa perms m :
  host_ok h → ept_wf h pt → some_perms perms →
  map_4k_post h pt gpa hpa perms m (map_4k pt h gpa hpa perms m).
Proof.
  intros Hh Hwf Hp. unfold map_4k, map_4k_post.
  pose proof (map_body_spec _ _ _ gpa hpa perms m Hp _ (keeps_refl h pt Hh Hwf)) as Hb.
  destruct (map_4k_body _ _ _ _ _ _) as [[[]|e|] [h' fs']]; [..|done].
  - destruct Hb as (s & Hk & Hl). apply (leaf_set_spec _ _ _ _ _ _ _ Hk) in Hl; [|by apply page_entry_present].
    simpl in Hl. destruct Hl as (? & HT & Hsame & Hother & ? & ?). by split_and!.
  - split_and!; [apply Hb|apply Hb|exact (keeps_frame _ _ _ _ Hb)|exact (keeps_fresh _ _ _ _ Hb)|done|].
    intros gpa'. by apply (keeps_ent _ _ _ _ Hb).
Qed.

Lemma remap_4k_spec T root fs frames gpa hpa perms m :
  tree T root fs → some_perms perms →
  match remap_4k (F:=F) T (mkEpt root frames) gpa hpa perms m with
  | Done T' =>
      is_Some (leaf T root gpa) ∧ tree T' root fs ∧
      (∀ t, t ∉ fs → T' !! t = T !! t) ∧ (∀ t, is_Some (T' !! t) ↔ is_Some (T !! t)) ∧
      leaf T' root gpa = Some (page_entry_4k hpa perms m) ∧
      ∀ gpa', page_no gpa' ≠ page_no gpa → leaf T' root gpa' = leaf T root gpa'
  | Fail NotMapped => leaf T root gpa = None
  | Stuck => False
  end.
Proof.
  intros HT Hp. rewrite (remap_leaf _ _ _ _ _ _ _ _ HT).
  destruct (leaf T root gpa) as [e|] eqn:Hl; [|done].
  unfold leaf, ent in Hl. destruct (walk T root (dir_path gpa)) as [t|] eqn:Hw; [|done].
  split_and!.
  - done.
  - by apply (leaf_tree _ _ _ HT (dir_path gpa)).
  - intros x Hx. apply lookup_set_entry_ne. intros ->. apply Hx.
    apply (tree_owned _ _ _ HT (dir_path gpa)); [simpl; lia|done].
  - intros x. apply lookup_set_entry_is_Some.
  - by apply (leaf_ent_same _ _ _ HT); auto with bedrock.
  - intros gpa' Hne.
    apply (leaf_ent_other _ _ _ HT (dir_path gpa)); [done|done|simpl; lia|by apply page_path_ne].
Qed.

Definition clone_post h pt (r : outcome E (EptPageTable F) * host A) : Prop :=
  match r with
  | (Done pt', h') =>
      host_ok h' ∧ ept_wf h' pt' ∧
      (∀ t, is_Some (tables h !! t) → tables h' !! t = tables h !! t) ∧
      (∀ t, t ∈ phys_of (ept_frames pt') → tables h !! t = None) ∧
      (∀ gpa, leaf (tables h') (pml4_phys pt') gpa = clone_leaf <$> leaf (tables h) (pml4_phys pt) gpa) ∧
      frame_count pt' = frame_count pt
  | (Fail _, h') =>
      host_ok h' ∧ ∀ t, is_Some (tables h !! t) → tables h' !! t = tables h !! t
  | (Stuck, _) => False
  end.

(** The copy of a tree hooked at the fresh frame [f]. *)
Lemma clone_post_done h pt f a' s :
  host_ok h → ept_wf h pt → allocate_frame (alloc h) = (Ok f, a') →
  clone_inv 3 (<[frame_phys_addr f := zero_table]> (tables h)) (pml4_phys pt) (frame_phys_addr f) [f] 512 s →
  clone_post h pt (Done (mkEpt (frame_phys_addr f) s.2), s.1).
Proof.
  intros Hh Hwf Ha (Hh' & newF & Hfs & HC).
  destruct (host_ok_alloc _ _ _ Hh Ha) as (Hf & _ & _). set (f' := frame_phys_addr f) in *.
  assert (tree (<[f' := zero_table]> (tables h)) (pml4_phys pt) (phys_of (ept_frames pt)) ∧
    ∀ gpa, leaf (<[f' := zero_table]> (tables h)) (pml4_phys pt) gpa = leaf (tables h) (pml4_phys pt) gpa)
    as [HT0 Hleaf0].
  { apply tree_frame; [done|]. intros t Ht. rewrite lookup_insert_ne; [done|].
    intros <-. destruct (tree_frames _ _ _ _ Hwf Ht) as [? ?]. congruence. }
  assert (tree (tables s.1) f' (f' :: phys_of newF)) as HT'.
  { eapply cloned_tree; [|done]. rewrite lookup_insert_eq. eauto. }
  assert (∀ q, (length q ≤ 3)%nat → is_Some (walk (tables s.1) f' q) ↔
    is_Some (walk (<[f' := zero_table]> (tables h)) (pml4_phys pt) q)) as Hpaths.
  { intros [|j q] Hq; [simpl; split; eauto|]. simpl in Hq.
    destruct (decide (j < 512)%nat); [apply (c_walk _ _ _ _ _ _ _ HC); lia|].
    destruct (tree_table _ _ _ HT0 [] (pml4_phys pt)) as (tbl & Ht & Hl); [simpl; lia|done|].
    simpl. rewrite (pent_ge _ (pml4_phys pt) tbl) by (done || lia). by rewrite (c_todo _ _ _ _ _ _ _ HC) by lia. }
  simpl. rewrite Hfs. split_and!.
  - done.
  - done.
  - intros t Ht. rewrite (c_frame _ _ _ _ _ _ _ HC);
      [|rewrite lookup_insert_ne; [done|]|]; try (intros <-; rewrite Hf in Ht; by destruct Ht).
    rewrite lookup_insert_ne; [done|]. intros <-. rewrite Hf in Ht. by destruct Ht.
  - intros t [->|Ht]%elem_of_cons; [done|].
    destruct (c_new _ _ _ _ _ _ _ HC t Ht) as [Hn _].
    destruct (decide (t = f')) as [->|]; [done|]. by rewrite lookup_insert_ne in Hn by done.
  - intros gpa. rewrite <-Hleaf0. apply (c_leaf _ _ _ _ _ _ _ HC); [done|apply pml4_index_lt].
  - unfold frame_count. simpl. apply Nat.le_antisymm.
    + pose proof (tree_length_le _ _ _ _ _ _ HT' HT0 (λ q Hq, proj1 (Hpaths q Hq))) as Hle.
      unfold phys_of in Hle. simpl in Hle. by rewrite !length_fmap in Hle.
    + pose proof (tree_length_le _ _ _ _ _ _ HT0 HT' (λ q Hq, proj2 (Hpaths q Hq))) as Hle.
      unfold phys_of in Hle. simpl in Hle. by rewrite !length_fmap in Hle.
Qed.

Lemma clone_for_fork_spec h pt :
  host_ok h → ept_wf h pt → clone_post h pt (clone_for_fork pt h).
Proof.
  intros Hh Hwf. unfold clone_for_fork, clone_body, mbind, M_bind, alloc_frame. simpl.
  destruct (allocate_frame (alloc h)) as [[f|e] a'] eqn:Ha; simpl.
  2: { split; [by eapply host_ok_fail|done]. }
  destruct (host_ok_alloc _ _ _ Hh Ha) as (Hf & _ & Hav). set (f' := frame_phys_addr f) in *.
  set (T0 := <[f' := zero_table]> (tables h)).
  assert (triple (clone_pre T0 [f]) (clone_level 3 (pml4_phys pt) f')
    (λ _, clone_inv 3 T0 (pml4_phys pt) f' [f] 512) (clone_err T0 f')) as Hb.
  { apply clone_level_spec; [apply lookup_insert_eq|]. intros p t Hp Hw.
    rewrite (walk_ext (tables h)) in Hw by (intros; by apply pent_fresh).
    destruct (tree_table _ _ _ Hwf p t Hp Hw) as (tbl & Ht & Hl).
    assert (t ≠ f') by congruence. split; [done|]. exists tbl. unfold T0. by rewrite lookup_insert_ne. }
  specialize (Hb (mkHost a' T0, [f])). simpl in Hb.
  destruct (clone_dir _ _ _ _) as [[?|e|] [h' fs]]; simpl;
    assert (clone_pre T0 [f] (mkHost a' T0, [f])) as Hpre
      by (split_and!; [|done|done]; intros p [Hp Hpf]%Hav; simpl; unfold T0; by rewrite lookup_insert_ne);
    specialize (Hb Hpre).
  - by apply (clone_post_done h pt f a' (h', fs)).
  - destruct Hb as [Hh' Hfr]. split; [done|]. intros t Ht.
    assert (t ≠ f') by (intros ->; rewrite Hf in Ht; by destruct Ht).
    rewrite Hfr by (unfold T0; by rewrite ?lookup_insert_ne). unfold T0. by rewrite lookup_insert_ne.
  - done.
Qed.

Lemma new_spec h :
  host_ok h →
  match new (F:=F) h with
  | (Done pt, h') =>
      host_ok h' ∧ ept_wf h' pt ∧ frame_count pt = 1%nat ∧
      (∀ t, is_Some (tables h !! t) → tables h' !! t = tables h !! t) ∧
      ∀ gpa, leaf (tables h') (pml4_phys pt) gpa = None
  | (Fail _, h') => host_ok h' ∧ tables h' = tables h
  | (Stuck, _) => False
  end.
Proof.
  intros Hh. unfold new. destruct (allocate_frame (alloc h)) as [[f|e] a'] eqn:Ha.
  - destruct (host_ok_alloc _ _ _ Hh Ha) as (Hf & _ & Hav). split_and!; simpl.
    + intros p [Hp Hpf]%Hav. simpl. by rewrite lookup_insert_ne.
    + by apply tree_single.
    + done.
    + intros t Ht. apply lookup_insert_ne. intros <-. rewrite Hf in Ht. by destruct Ht.
    + intros gpa. unfold leaf, ent, dir_path. simpl. by rewrite pent_zero by apply lookup_insert_eq.
  - split; [by eapply host_ok_fail|done].
Qed.
End Specs.

(** A bump allocator over the frames [next, limit): the interface is inhabited,
    and the witnesses below run the operations on it. *)
Record bump := mkBump { next : Z; limit : Z }.

#[export] Instance bump_allocator : FrameAllocator bump Z () := {
  allocate_frame a :=
    if (0 <=? next a) && (next a <? Z.min (limit a) (2 ^ 40))
    then (Ok (next a * 4096), mkBump (next a + 1) (limit a))
    else (Err (), a);
  frame_phys_addr f := f;
}.

#[export] Program Instance bump_allocator_spec : FrameAllocatorSpec bump Z () := {
  avail a p := ∃ k, p = k * 4096 ∧ 0 ≤ next a ≤ k ∧ k < Z.min (limit a) (2 ^ 40);
}.
Next Obligation.
  intros a p (k & -> & ? & ?). split; [unfold in_width; lia|]. apply Z.mod_mul. lia.
Qed.
Next Obligation.
  intros a f a'. simpl. destruct (Z.leb_spec 0 (next a)); simpl; [|done].
  destruct (Z.ltb_spec (next a) (Z.min (limit a) (2 ^ 40))); [|done].
  intros [= <- <-]. split; [exists (next a); lia|].
  intros p (k & -> & ? & ?). simpl in *. split; [exists k; lia|lia].
Qed.
Next Obligation. intros a e a'. simpl. case_match; by intros [= <- <-]. Qed.

(** ** Theorems *)
Section Theorems.
Context {A F E : Type} `{!FrameAllocator A F E} `{!FrameAllocatorSpec A F E}.
Implicit Types (pt : EptPageTable F) (h : host A).

Lemma lookup_wf h pt gpa : ept_wf h pt →
  lookup (tables h) pt gpa = Done (translate <$> leaf (tables h) (pml4_phys pt) gpa).
Proof. destruct pt. apply lookup_leaf. Qed.

(** Mapping a page never follows a wild pointer and keeps the tree
    invariant; on success the page translates to its new frame and
    permissions and no other page changes, and when the allocator fails no
    translation changes at all.  Memory of other tables is never written. *)
Theorem map_4k_correct h pt gpa hpa perms m :
  host_ok h → ept_wf h pt → frame_aligned hpa → some_perms perms →
  match map_4k pt h gpa hpa perms m with
  | (Done _, (pt', h')) =>
      host_ok h' ∧ ept_wf h' pt' ∧ untouched h pt h' ∧
      lookup (tables h') pt' gpa = Done (Some (hpa, perms)) ∧
      ∀ gpa', page_no gpa' ≠ page_no gpa → lookup (tables h') pt' gpa' = lookup (tables h) pt gpa'
  | (Fail _, (pt', h')) =>
      host_ok h' ∧ ept_wf h' pt' ∧ untouched h pt h' ∧
      ∀ gpa', lookup (tables h') pt' gpa' = lookup (tables h) pt gpa'
  | (Stuck, _) => False
  end.
Proof.
  intros Hh Hwf Ha Hp. pose proof (map_4k_spec h pt gpa hpa perms m Hh Hwf Hp) as Hs.
  destruct (map_4k _ _ _ _ _ _) as [[[]|e|] [pt' h']]; simpl in Hs; [..|done].
  - destruct Hs as (? & Hwf' & ? & _ & Hroot & Hsame & Hother). split_and!; [done..| |].
    + rewrite lookup_wf by done. rewrite Hroot, Hsame. simpl. unfold translate.
      by rewrite page_entry_addr, page_entry_perms.
    + intros gpa' Hne. rewrite !lookup_wf by done. by rewrite Hroot, Hother.
  - destruct Hs as (? & Hwf' & ? & _ & Hroot & Hother). split_and!; [done..|].
    intros gpa'. rewrite !lookup_wf by done. by rewrite Hroot, Hother.
Qed.

(** Remapping fails exactly on an unmapped page; otherwise it changes
    the translation of that page only, inside the frames of the same tree. *)
Theorem remap_4k_correct h pt gpa hpa perms m :
  ept_wf h pt → frame_aligned hpa → some_perms perms →
  match remap_4k (tables h) pt gpa hpa perms m with
  | Done T' =>
      lookup (tables h) pt gpa ≠ Done None ∧
      ept_wf (mkHost (alloc h) T') pt ∧ untouched h pt (mkHost (alloc h) T') ∧
      lookup T' pt gpa = Done (Some (hpa, perms)) ∧
      ∀ gpa', page_no gpa' ≠ page_no gpa → lookup T' pt gpa' = lookup (tables h) pt gpa'
  | Fail NotMapped => lookup (tables h) pt gpa = Done None
  | Stuck => False
  end.
Proof.
  intros Hwf Ha Hp. destruct pt as [root frames].
  pose proof (remap_4k_spec _ _ _ frames gpa hpa perms m Hwf Hp) as Hs. simpl in *.
  destruct (remap_4k _ _ _ _ _ _) as [T'|[]|]; [..|done].
  - destruct Hs as ([e He] & HT & Hfr & _ & Hsame & Hother). split_and!.
    + rewrite (lookup_leaf _ _ _ _ _ Hwf). simpl. by rewrite He.
    + done.
    + intros t Ht _. by apply Hfr.
    + rewrite (lookup_leaf _ _ _ _ _ HT), Hsame. simpl. unfold translate.
      by rewrite page_entry_addr, page_entry_perms.
    + intros gpa' Hne. rewrite (lookup_leaf _ _ _ _ _ HT), (lookup_leaf _ _ _ _ _ Hwf). simpl. by rewrite Hother.
  - rewrite (lookup_leaf _ _ _ _ _ Hwf). simpl. by rewrite Hs.
Qed.

(** C15: the page table of a fork is a tree of new frames, as many as the
    parent's, in which every guest page translates to the parent's host page
    with write permission removed; the parent's tables are not written, also
    when the allocator fails half-way. *)
Theorem clone_for_fork_correct h pt :
  host_ok h → ept_wf h pt →
  match clone_for_fork pt h with
  | (Done pt', h') =>
      host_ok h' ∧ ept_wf h' pt' ∧ ept_wf h' pt ∧ frame_count pt' = frame_count pt ∧
      (∀ t, t ∈ phys_of (ept_frames pt') → t ∉ phys_of (ept_frames pt)) ∧
      (∀ gpa, lookup (tables h') pt gpa = lookup (tables h) pt gpa) ∧
      ∀ gpa, lookup (tables h') pt' gpa =
        match lookup (tables h) pt gpa with
        | Done o => Done ((λ '(hpa, _), (hpa, READ_EXECUTE)) <$> o)
        | r => r
        end
  | (Fail _, h') => host_ok h' ∧ ept_wf h' pt ∧
      ∀ gpa, lookup (tables h') pt gpa = lookup (tables h) pt gpa
  | (Stuck, _) => False
  end.
Proof.
  intros Hh Hwf. pose proof (clone_for_fork_spec h pt Hh Hwf) as Hs.
  destruct (clone_for_fork pt h) as [[pt'|e|] h']; simpl in Hs; [..|done].
  - destruct Hs as (? & Hwf' & Hfr & Hnew & Hleaf & Hcount).
    destruct (ept_wf_frame h h' pt Hwf Hfr) as [Hwf2 Hl2].
    split_and!; [done..| | |].
    + intros t Ht Ht'. destruct (tree_frames _ _ _ _ Hwf Ht') as [? Hs].
      rewrite Hnew in Hs; done.
    + intros gpa. rewrite !lookup_wf by done. by rewrite Hl2.
    + intros gpa. rewrite !lookup_wf by done. rewrite Hleaf.
      destruct (leaf (tables h) (pml4_phys pt) gpa) as [e|]; [|done]. simpl. unfold translate, clone_leaf.
      rewrite page_entry_addr, page_entry_perms; [done..| |apply entry_addr_aligned]; done.
  - destruct Hs as (? & Hfr). destruct (ept_wf_frame h h' pt Hwf Hfr) as [Hwf2 Hl2].
    split_and!; [done..|]. intros gpa. rewrite !lookup_wf by done. by rewrite Hl2.
Qed.
End Theorems.

(** *** Concrete runs *)
Definition demo_host : host bump := mkHost (mkBump 1 64) {[0 := zero_table]}.
Definition demo_ept : EptPageTable Z := mkEpt 0 [0].

Lemma demo_ok : host_ok demo_host ∧ ept_wf demo_host demo_ept.
Proof.
  split; [|by apply (tree_single ∅)].
  intros p (k & -> & ? & ?). simpl in *. apply lookup_singleton_ne. lia.
Qed.

Definition demo_mapped : EptPageTable Z * host bump :=
  (map_4k demo_ept demo_host 0x1000 0x5000 READ_WRITE_EXECUTE WriteBack).2.

Lemma demo_mapped_ok : host_ok demo_mapped.2 ∧ ept_wf demo_mapped.2 demo_mapped.1.
Proof.
  destruct demo_ok as [Hh Hwf].
  pose proof (map_4k_spec _ _ 0x1000 0x5000 READ_WRITE_EXECUTE WriteBack Hh Hwf
    ltac:(split; reflexivity || discriminate)) as Hs.
  unfold demo_mapped. destruct (map_4k _ _ _ _ _ _) as [[[]|e|] [pt' h']]; simpl in *; [naive_solver..|done].
Qed.

Lemma map_4k_witness : ∃ pt' h',
  map_4k demo_ept demo_host 0x1000 0x5000 READ_WRITE_EXECUTE WriteBack = (Done tt, (pt', h')) ∧
  frame_count pt' = 4%nat ∧ lookup (tables h') pt' 0x1000 = Done (Some (0x5000, 7)).
Proof.
  pose proof (map_4k_correct demo_host demo_ept 0x1000 0x5000 READ_WRITE_EXECUTE WriteBack
    (proj1 demo_ok) (proj2 demo_ok) ltac:(split; [split; lia|reflexivity]) ltac:(split; reflexivity || discriminate)) as H.
  destruct (map_4k demo_ept demo_host _ _ _ _) as [[[]|e|] [pt' h']] eqn:Hm.
  - exists pt', h'. split; [reflexivity|]. split; [|apply H].
    assert (frame_count (map_4k demo_ept demo_host 0x1000 0x5000 READ_WRITE_EXECUTE WriteBack).2.1 = 4%nat)
      as Hc by (vm_compute; reflexivity). by rewrite Hm in Hc.
  - assert ((map_4k demo_ept demo_host 0x1000 0x5000 READ_WRITE_EXECUTE WriteBack).1 = Done tt)
      as Hc by (vm_compute; reflexivity). by rewrite Hm in Hc.
  - destruct H.
Defined.

Lemma remap_4k_witness : ∃ T',
  remap_4k (tables demo_mapped.2) demo_mapped.1 0x1000 0x9000 READ_WRITE_EXECUTE WriteBack = Done T' ∧
  lookup T' demo_mapped.1 0x1000 = Done (Some (0x9000, 7)).
Proof.
  pose proof (remap_4k_correct demo_mapped.2 demo_mapped.1 0x1000 0x9000 READ_WRITE_EXECUTE WriteBack
    (proj2 demo_mapped_ok) ltac:(split; [split; lia|reflexivity]) ltac:(split; reflexivity || discriminate)) as H.
  destruct (remap_4k (tables demo_mapped.2) _ _ _ _ _) as [T'|[]|] eqn:Hm.
  - exists T'. split; [reflexivity|apply H].
  - exfalso. assert (lookup (tables demo_mapped.2) demo_mapped.1 0x1000 = Done (Some (0x5000, 7)))
      as Hc by (vm_compute; reflexivity). by rewrite Hc in H.
  - destruct H.
Defined.

Lemma clone_for_fork_witness : ∃ pt' h',
  clone_for_fork demo_mapped.1 demo_mapped.2 = (Done pt', h') ∧
  lookup (tables h') pt' 0x1000 = Done (Some (0x5000, READ_EXECUTE)).
Proof.
  pose proof (clone_for_fork_correct demo_mapped.2 demo_mapped.1
    (proj1 demo_mapped_ok) (proj2 demo_mapped_ok)) as H.
  assert (lookup (tables demo_mapped.2) demo_mapped.1 0x1000 = Done (Some (0x5000, 7)))
    as Hl by (vm_compute; reflexivity).
  assert (match (clone_for_fork demo_mapped.1 demo_mapped.2).1 with Done _ => true | _ => false end = true)
    as Hd by (vm_compute; reflexivity).
  destruct (clone_for_fork demo_mapped.1 demo_mapped.2) as [[pt'|e|] h'].
  - exists pt', h'. split; [reflexivity|]. destruct H as (_ & _ & _ & _ & _ & _ & Hall).
    rewrite (Hall 0x1000), Hl. reflexivity.
  - discriminate Hd.
  - destruct H.
Defined.
