(* ===== verification/VmMemory.v ===== *)
(** * Guest memory of root and forked VMs (crate [bedrock-vmx]: [cow.rs],
    [vm/root.rs], [vm/forked.rs], [vm/traits.rs])

    A page of host memory is named by its physical address; [phys] maps the
    pages that hold guest data to their 4096 bytes.  A VM is its chain of
    copy-on-write maps down to the root's memory ([ParentVm]), together with the
    page table the hardware walks.  The invariant [coherent] ties the two: the
    EPT translates a page to the very frame [read_page] finds, writable exactly
    when the frame is the VM's own.

    From it follow that a fork starts with its parent's memory, that a
    copy-on-write fault changes nothing the guest can see except that the page
    becomes writable, and that no write of a fork can reach an ancestor. *)
From S2P Require Import Prelude Addr Ept.

Definition PAGE_SIZE : Z := 4096.
Definition APIC_BASE : Z := 0xFEE00000.
Definition APIC_SIZE : Z := 0x1000.
Definition IOAPIC_BASE : Z := 0xFEC00000.
Definition IOAPIC_SIZE : Z := 0x1000.

(** [gpa & !0xFFF] and [gpa & 0xFFF]. *)
Definition page_align (a : Z) : Z := Z.ldiff a 0xFFF.
Definition page_offset (a : Z) : Z := Z.land a 0xFFF.

Inductive MemoryError := OutOfRange | MemNotMapped | PermissionDenied.

(** ** The copy-on-write page map ([cow.rs], the kernel build)

    Pages are identified by their physical address.  [insert] takes a node from
    the kernel's allocator, which may refuse it. *)
Record CowPageMap := mkCow { cow_pages : gmap Z Z; cow_count : Z }.

Definition cow_new : CowPageMap := mkCow ∅ 0.
Definition cow_get (m : CowPageMap) (gpa : Z) : option Z := cow_pages m !! page_align gpa.
Definition cow_insert (node_ok : bool) (m : CowPageMap) (gpa page : Z) : option CowPageMap :=
  if node_ok then Some (mkCow (<[page_align gpa := page]> (cow_pages m)) (cow_count m + 1)) else None.
Definition cow_contains (m : CowPageMap) (gpa : Z) : bool :=
  match cow_pages m !! page_align gpa with Some _ => true | None => false end.
Definition cow_len (m : CowPageMap) : Z := cow_count m.

(** ** The allocators and the root's memory, as their traits describe them *)

(** [CowAllocator: FrameAllocator], with the node allocation of the map. *)
Class CowAllocator (A F E : Type) `{!FrameAllocator A F E} := {
  allocate_cow_page : A → result Z E * A;
  alloc_node : A → bool * A;
}.

Class CowAllocatorSpec (A F E : Type) `{!FrameAllocator A F E} `{!FrameAllocatorSpec A F E}
    `{!CowAllocator A F E} := {
  allocate_cow_page_ok a p a' :
    allocate_cow_page a = (Ok p, a') →
    avail a p ∧ ∀ q, avail a' q → avail a q ∧ q ≠ p;
  allocate_cow_page_err a e a' :
    allocate_cow_page a = (Err e, a') → ∀ q, avail a' q → avail a q;
  alloc_node_avail a : ∀ q, avail (alloc_node a).2 q → avail a q;
}.

(** [GuestMemory]: the size, and the frame of each page. *)
Record GuestMemory := mkMem { mem_size : Z; page_phys_addr : Z → option Z }.

(** ** The fork hierarchy ([vm/traits.rs]) *)
Inductive vm :=
| RootVm (memory : GuestMemory)
| ForkedVm (cow : CowPageMap) (parent : vm).

(** The frame [as_ptr().add(offset)] points into: none past the end of the memory. *)
Definition frame_at (memory : GuestMemory) (offset : Z) : option Z :=
  if offset <? mem_size memory then page_phys_addr memory offset else None.
(** [ParentVm::read_page]: the frame that holds the page of [gpa].  The sum wraps, so the
    comparison lets the last page of the address space pass; its pointer is in no frame. *)
Fixpoint read_page (v : vm) (gpa : Z) : option Z :=
  match v with
  | RootVm memory =>
      let offset := page_align gpa in
      if offset +! PAGE_SIZE <=? mem_size memory then frame_at memory offset else None
  | ForkedVm cow parent =>
      let page_gpa := page_align gpa in
      match cow_get cow page_gpa with
      | Some page => Some page
      | None => read_page parent page_gpa
      end
  end.

(** [ParentVm::memory_size] *)
Fixpoint memory_size (v : vm) : Z :=
  match v with
  | RootVm memory => mem_size memory
  | ForkedVm _ parent => memory_size parent
  end.

(** ** Hypervisor accesses to guest memory *)
Section Access.
Implicit Types (phys : gmap Z (list Z)) (v : vm).

(** The byte a VM has at [gpa]. *)
Definition view phys v gpa : option Z :=
  match read_page v gpa with
  | Some frame => phys !! frame ≫= λ bytes, bytes !! Z.to_nat (page_offset gpa)
  | None => None
  end.

(** [ptr::copy_nonoverlapping] out of and into a page; [None] is an access
    outside the page. *)
Definition page_read phys (frame off : Z) (n : nat) : option (list Z) :=
  bytes ← phys !! frame;
  if off + Z.of_nat n <=? Z.of_nat (length bytes) then Some (take n (drop (Z.to_nat off) bytes)) else None.
Definition page_write phys (frame off : Z) (buf : list Z) : option (gmap Z (list Z)) :=
  bytes ← phys !! frame;
  if off + Z.of_nat (length buf) <=? Z.of_nat (length bytes)
  then Some (<[frame := list_inserts (Z.to_nat off) buf bytes]> phys) else None.

(** [ForkedVm::read_guest_memory]; each recursive call starts on a new page,
    [fuel] bounds their number and running out of it is [Stuck]. *)
Fixpoint forked_read (fuel : nat) phys (cow : CowPageMap) (parent : vm) (gpa : Z) (len : nat)
    : outcome MemoryError (list Z) :=
  match fuel with
  | O => Stuck
  | S fuel' =>
    let page_gpa := page_align gpa in
    let off := page_offset gpa in
    let source :=
      match cow_get cow page_gpa with
      | Some cow_page => Some cow_page
      | None => read_page parent page_gpa
      end in
    match source with
    | None => Fail OutOfRange
    | Some frame =>
        let available := Z.to_nat (PAGE_SIZE - off) in
        if decide (len ≤ available)%nat then
          match page_read phys frame off len with Some bs => Done bs | None => Stuck end
        else
          match page_read phys frame off available with
          | None => Stuck
          | Some bs =>
              match forked_read fuel' phys cow parent (page_gpa + PAGE_SIZE) (len - available) with
              | Done rest => Done (bs ++ rest)
              | Fail e => Fail e
              | Stuck => Stuck
              end
          end
    end
  end.

(** [ForkedVm::write_guest_memory]: the bytes written before an error stay. *)
Fixpoint forked_write (fuel : nat) phys (cow : CowPageMap) (gpa : Z) (buf : list Z)
    : outcome MemoryError () * gmap Z (list Z) :=
  match fuel with
  | O => (Stuck, phys)
  | S fuel' =>
    let page_gpa := page_align gpa in
    let off := page_offset gpa in
    match cow_get cow page_gpa with
    | None => (Fail PermissionDenied, phys)
    | Some frame =>
        let available := Z.to_nat (PAGE_SIZE - off) in
        if decide (length buf ≤ available)%nat then
          match page_write phys frame off buf with
          | Some phys' => (Done (), phys') | None => (Stuck, phys) end
        else
          match page_write phys frame off (take available buf) with
          | None => (Stuck, phys)
          | Some phys' => forked_write fuel' phys' cow (page_gpa + PAGE_SIZE) (drop available buf)
          end
    end
  end.

(** The byte at an offset of the root's memory, which is contiguous in virtual
    addresses: the byte of the frame of its page. *)
Definition mem_byte phys (memory : GuestMemory) (off : Z) : option Z :=
  frame ← page_phys_addr memory (page_align off);
  bytes ← phys !! frame;
  bytes !! Z.to_nat (page_offset off).
Definition mem_set_byte phys (memory : GuestMemory) (off b : Z) : option (gmap Z (list Z)) :=
  frame ← page_phys_addr memory (page_align off);
  bytes ← phys !! frame;
  Some (<[frame := <[Z.to_nat (page_offset off) := b]> bytes]> phys).
Fixpoint mem_set_bytes phys (memory : GuestMemory) (off : Z) (buf : list Z) : option (gmap Z (list Z)) :=
  match buf with
  | [] => Some phys
  | b :: buf' => phys' ← mem_set_byte phys memory off b; mem_set_bytes phys' memory (off + 1) buf'
  end.

(** [offset.checked_add(len)], then the bound check, of [RootVm]'s accessors. *)
Definition root_in_range (memory : GuestMemory) (gpa : Z) (len : nat) : bool :=
  (gpa + Z.of_nat len <=? u64_MAX) && (gpa + Z.of_nat len <=? mem_size memory).

Definition root_read phys (memory : GuestMemory) (gpa : Z) (len : nat) : outcome MemoryError (list Z) :=
  if root_in_range memory gpa len then
    match mapM (mem_byte phys memory) (seqZ gpa (Z.of_nat len)) with
    | Some bs => Done bs
    | None => Stuck
    end
  else Fail OutOfRange.

Definition root_write phys (memory : GuestMemory) (gpa : Z) (buf : list Z)
    : outcome MemoryError () * gmap Z (list Z) :=
  if root_in_range memory gpa (length buf) then
    match mem_set_bytes phys memory gpa buf with
    | Some phys' => (Done (), phys')
    | None => (Stuck, phys)
    end
  else (Fail OutOfRange, phys).

(** [VmContext::read_guest_memory] and [write_guest_memory] of either kind of VM.
    A recursive call handles at least one byte, so the length bounds the calls. *)
Definition read_guest_memory phys v (gpa : Z) (len : nat) : outcome MemoryError (list Z) :=
  match v with
  | RootVm memory => root_read phys memory gpa len
  | ForkedVm cow parent => forked_read (S len) phys cow parent gpa len
  end.
Definition write_guest_memory phys v (gpa : Z) (buf : list Z) : outcome MemoryError () * gmap Z (list Z) :=
  match v with
  | RootVm memory => root_write phys memory gpa buf
  | ForkedVm cow parent => forked_write (S (length buf)) phys cow gpa buf
  end.
End Access.

(** ** Copy-on-write and VM creation *)
Inductive RootVmError (E : Type) := EptCreation (e : E) | EptMapping (e : E) | NoPhysAddr (offset : Z) | RootVmState.
Arguments EptCreation {E} e.
Arguments EptMapping {E} e.
Arguments NoPhysAddr {E} offset.
Inductive ForkedVmError (E : Type) := EptClone (e : E) | VmcsAlloc | VmStateFailed.
Arguments EptClone {E} e.
Arguments VmcsAlloc {E}.
Arguments VmStateFailed {E}.

Section Ops.
Context {A F E : Type} `{!FrameAllocator A F E} `{!CowAllocator A F E}.

(** The memory side of a [ForkedVm], and the machine it runs on: the host's
    tables, the data pages, and the EPT pointers flushed with INVEPT so far. *)
Record forked := mkForked {
  fk_ept : EptPageTable F;
  fk_cow : CowPageMap;
  fk_parent : vm;
  fk_stale_tlb_faults : Z;
}.
Record world := mkWorld {
  w_host : host A;
  w_phys : gmap Z (list Z);
  w_invept : list Z;
}.
Definition as_vm (f : forked) : vm := ForkedVm (fk_cow f) (fk_parent f).

(** An early [return None] is [Fail ()]. *)
Definition CM (R : Type) : Type := M (forked * world) () R.

Definition cow_alloc : CM Z := λ '(f, w),
  match allocate_cow_page (alloc (w_host w)) with
  | (Ok page, a') => (Done page, (f, mkWorld (mkHost a' (tables (w_host w))) (w_phys w) (w_invept w)))
  | (Err _, a') => (Fail (), (f, mkWorld (mkHost a' (tables (w_host w))) (w_phys w) (w_invept w)))
  end.

Definition copy_page (src dst : Z) : CM () := λ '(f, w),
  match w_phys w !! src with
  | Some bytes => (Done (), (f, mkWorld (w_host w) (<[dst := bytes]> (w_phys w)) (w_invept w)))
  | None => (Stuck, (f, w))
  end.

Definition cow_insert_page (gpa page : Z) : CM () := λ '(f, w),
  let '(node_ok, a') := alloc_node (alloc (w_host w)) in
  let w' := mkWorld (mkHost a' (tables (w_host w))) (w_phys w) (w_invept w) in
  match cow_insert node_ok (fk_cow f) gpa page with
  | Some cow' => (Done (), (mkForked (fk_ept f) cow' (fk_parent f) (fk_stale_tlb_faults f), w'))
  | None => (Fail (), (f, w'))
  end.

Definition remap_rwx (gpa page : Z) : CM () := λ '(f, w),
  match remap_4k (tables (w_host w)) (fk_ept f) gpa page READ_WRITE_EXECUTE WriteBack with
  | Done T' => (Done (), (f, mkWorld (mkHost (alloc (w_host w)) T') (w_phys w) (w_invept w)))
  | Fail _ => (Fail (), (f, w))
  | Stuck => (Stuck, (f, w))
  end.

Definition invept_single_context : CM () := λ '(f, w),
  (Done (), (f, mkWorld (w_host w) (w_phys w) (w_invept w ++ [eptp (fk_ept f)]))).

(** The sequence [handle_cow_fault], [cow_feedback_buffer_for_mapping] and
    [pre_cow_io_channel_page] have in common: allocate, copy from the parent
    chain, record, remap writable, flush. *)
Definition cow_page (page_gpa : Z) : CM () :=
  new_page ← cow_alloc;
  parent ← gets (λ s, fk_parent s.1);
  match read_page parent page_gpa with
  | None => throw ()
  | Some parent_page =>
      _ ← copy_page parent_page new_page;
      _ ← cow_insert_page page_gpa new_page;
      _ ← remap_rwx page_gpa new_page;
      invept_single_context
  end.

Definition handle_cow_fault (gpa : Z) : CM () :=
  let page_gpa := page_align gpa in
  present ← gets (λ s, cow_contains (fk_cow s.1) page_gpa);
  if present : bool then
    modify (λ '(f, w), (mkForked (fk_ept f) (fk_cow f) (fk_parent f) (fk_stale_tlb_faults f + 1), w))
  else cow_page page_gpa.

(** A [continue] or [return] after a failed step. *)
Definition ignore_errors (m : CM ()) : CM () := λ s,
  match m s with (Fail _, s') => (Done (), s') | r => r end.

(** The argument is the [gpas] of the buffer at the index, if there is one. *)
Definition cow_feedback_buffer_for_mapping (gpas : option (list Z)) : CM () :=
  match gpas with
  | None => mret ()
  | Some gpas =>
      for_each gpas (λ page_gpa,
        present ← gets (λ s, cow_contains (fk_cow s.1) page_gpa);
        if present : bool then mret () else ignore_errors (cow_page page_gpa))
  end.

Definition pre_cow_io_channel_page (page_gpa_raw : Z) : CM () :=
  if page_gpa_raw =? 0 then mret ()
  else
    let page_gpa := page_align page_gpa_raw in
    present ← gets (λ s, cow_contains (fk_cow s.1) page_gpa);
    if present : bool then mret () else ignore_errors (cow_page page_gpa).

(** [RootVm::new]: the identity map of guest memory, without the two MMIO pages. *)
Definition is_mmio (gpa : Z) : bool :=
  ((APIC_BASE <=? gpa) && (gpa <? APIC_BASE + APIC_SIZE))
  || ((IOAPIC_BASE <=? gpa) && (gpa <? IOAPIC_BASE + IOAPIC_SIZE)).

Definition map_root_page (memory : GuestMemory) (page_idx : nat)
    : M (EptPageTable F * host A) (RootVmError E) () := λ '(ept, h),
  let page_offset := Z.of_nat page_idx * PAGE_SIZE in
  if is_mmio page_offset then (Done (), (ept, h))
  else
    match page_phys_addr memory page_offset with
    | None => (Fail (NoPhysAddr page_offset), (ept, h))
    | Some host_phys =>
        match map_4k ept h page_offset host_phys READ_WRITE_EXECUTE WriteBack with
        | (Done _, s') => (Done (), s')
        | (Fail e, s') => (Fail (EptMapping e), s')
        | (Stuck, s') => (Stuck, s')
        end
    end.

Definition root_ept_new (memory : GuestMemory) (h : host A)
    : outcome (RootVmError E) (EptPageTable F) * host A :=
  match Ept.new h with
  | (Fail e, h') => (Fail (EptCreation e), h')
  | (Stuck, h') => (Stuck, h')
  | (Done ept, h') =>
      let num_pages := Z.to_nat ((mem_size memory + PAGE_SIZE - 1) / PAGE_SIZE) in
      match for_range num_pages (map_root_page memory) (ept, h') with
      | (Done _, (ept', h'')) => (Done ept', h'')
      | (Fail e, (_, h'')) => (Fail e, h'')
      | (Stuck, (_, h'')) => (Stuck, h'')
      end
  end.

(** [ForkedVm::new_internal]; whether the VMCS allocation and
    [VmState::new_for_fork] succeed is given. *)
Definition fork_new (parent_ept : EptPageTable F) (parent : vm) (vmcs_ok state_ok : bool)
    (io_page_gpa : Z) (w : world) : outcome (ForkedVmError E) forked * world :=
  match clone_for_fork parent_ept (w_host w) with
  | (Fail e, h') => (Fail (EptClone e), mkWorld h' (w_phys w) (w_invept w))
  | (Stuck, h') => (Stuck, mkWorld h' (w_phys w) (w_invept w))
  | (Done ept, h') =>
      let w' := mkWorld h' (w_phys w) (w_invept w) in
      if negb vmcs_ok then (Fail VmcsAlloc, w')
      else if negb state_ok then (Fail VmStateFailed, w')
      else
        match pre_cow_io_channel_page io_page_gpa (mkForked ept cow_new parent 0, w') with
        | (Done _, (f, w'')) => (Done f, w'')
        | (_, (_, w'')) => (Stuck, w'')
        end
  end.
End Ops.
Arguments forked F : clear implicits.
Arguments world A : clear implicits.

(** ** Pages of addresses *)

Lemma page_align_eq a : 0 ≤ a → page_align a = 4096 * (a / 4096).
Proof.
  intros Ha. unfold page_align. change 0xFFF with (Z.ones 12).
  rewrite Z.ldiff_ones_r, Z.shiftl_mul_pow2, Z.shiftr_div_pow2 by lia.
  change (2 ^ 12) with 4096. lia.
Qed.

Lemma page_offset_eq a : page_offset a = a mod 4096.
Proof. unfold page_offset. change 0xFFF with (Z.ones 12). by rewrite Z.land_ones. Qed.

Lemma page_align_idem a : page_align (page_align a) = page_align a.
Proof.
  unfold page_align. apply Z.bits_inj'. intros i Hi. rewrite !Z.ldiff_spec. by destruct (Z.testbit a i), (Z.testbit 0xFFF i).
Qed.

Lemma page_align_bounds a : 0 ≤ a → 0 ≤ page_align a ≤ a ∧ a < page_align a + 4096.
Proof.
  intros. rewrite page_align_eq by lia.
  pose proof (Z_div_mod_eq_full a 4096). pose proof (Z.mod_pos_bound a 4096).
  pose proof (Z.div_pos a 4096). lia.
Qed.

Lemma page_align_range a : 0 ≤ a < 2 ^ 48 → 0 ≤ page_align a < 2 ^ 48.
Proof. intros. pose proof (page_align_bounds a). lia. Qed.

Lemma page_no_small a : 0 ≤ a < 2 ^ 48 → page_no a = a / 4096.
Proof.
  intros. unfold page_no. change (2 ^ 12) with 4096. apply Z.mod_small.
  split; [apply Z.div_pos; lia|]. apply Z.div_lt_upper_bound; lia.
Qed.

Lemma page_no_align a b :
  0 ≤ a < 2 ^ 48 → 0 ≤ b < 2 ^ 48 → page_no a = page_no b ↔ page_align a = page_align b.
Proof. intros. rewrite !page_no_small, !page_align_eq by lia. lia. Qed.

Lemma leaf_page T root a b : page_no a = page_no b → leaf T root a = leaf T root b.
Proof.
  intros Hp%page_path_inj. unfold leaf. unfold page_path, dir_path in *. simpl in *.
  injection Hp as -> -> -> ->. done.
Qed.

Lemma page_split a : 0 ≤ a → a = page_align a + page_offset a ∧ 0 ≤ page_offset a < 4096.
Proof. intros. rewrite page_align_eq, page_offset_eq by done. Z.div_mod_to_equations. lia. Qed.

(** ** The invariant *)

(** The translation the page table of [v] should give: the frame of
    [read_page], writable when it is the VM's own; nothing for MMIO. *)
Fixpoint expected (v : vm) (gpa : Z) : option (Z * Z) :=
  match v with
  | RootVm memory =>
      if is_mmio (page_align gpa) then None
      else (λ frame, (frame, READ_WRITE_EXECUTE)) <$> read_page v gpa
  | ForkedVm cow parent =>
      if is_mmio (page_align gpa) then None
      else
        match cow_get cow gpa with
        | Some frame => Some (frame, READ_WRITE_EXECUTE)
        | None => (λ '(frame, _), (frame, READ_EXECUTE)) <$> expected parent gpa
        end
  end.

(** [frame_of v fr]: the VM finds some page of its memory in the frame [fr]. *)
Definition frame_of (v : vm) (fr : Z) : Prop := ∃ gpa, 0 ≤ gpa < 2 ^ 48 ∧ read_page v gpa = Some fr.

Definition data_page (phys : gmap Z (list Z)) (fr : Z) : Prop :=
  frame_aligned fr ∧ ∃ bytes, phys !! fr = Some bytes ∧ Z.of_nat (length bytes) = PAGE_SIZE.

(** The root's memory is whole pages below 2^48, each with a frame of its own. *)
Record mem_ok (phys : gmap Z (list Z)) (memory : GuestMemory) : Prop := {
  mem_whole : mem_size memory mod PAGE_SIZE = 0;
  mem_bound : 0 ≤ mem_size memory ≤ 2 ^ 48;
  mem_page off : 0 ≤ off < mem_size memory → off mod PAGE_SIZE = 0 →
    ∃ fr, page_phys_addr memory off = Some fr ∧ data_page phys fr;
  mem_inj off off' fr : 0 ≤ off < mem_size memory → 0 ≤ off' < mem_size memory →
    off mod PAGE_SIZE = 0 → off' mod PAGE_SIZE = 0 →
    page_phys_addr memory off = Some fr → page_phys_addr memory off' = Some fr → off = off';
}.

(** A fork's map holds pages the parent has, in frames no ancestor uses. *)
Fixpoint vm_ok (phys : gmap Z (list Z)) (v : vm) : Prop :=
  match v with
  | RootVm memory => mem_ok phys memory
  | ForkedVm cow parent =>
      vm_ok phys parent ∧ cow_count cow = Z.of_nat (size (cow_pages cow)) ∧
      (∀ g fr, cow_pages cow !! g = Some fr →
        0 ≤ g < 2 ^ 48 ∧ page_align g = g ∧ is_Some (read_page parent g) ∧
        data_page phys fr ∧ ¬ frame_of parent fr) ∧
      (∀ g g' fr, cow_pages cow !! g = Some fr → cow_pages cow !! g' = Some fr → g = g')
  end.

Lemma root_reads phys memory gpa : mem_ok phys memory → 0 ≤ gpa →
  read_page (RootVm memory) gpa = if page_align gpa + PAGE_SIZE <=? mem_size memory then page_phys_addr memory (page_align gpa) else None.
Proof.
  intros [_ Hb _ _] Hg. pose proof (page_align_bounds gpa Hg). cbn [read_page]. unfold frame_at, wrapping_add, PAGE_SIZE.
  destruct (Z.lt_ge_cases (page_align gpa + 4096) (2 ^ 64)).
  - unfold u64. rewrite wrap_small by (unfold in_width; lia). destruct (Z.leb_spec (page_align gpa + 4096) (mem_size memory)); [|done].
    by rewrite (proj2 (Z.ltb_lt _ _)) by lia.
  - rewrite (proj2 (Z.leb_gt (page_align gpa + 4096) _)), (proj2 (Z.ltb_ge _ _)) by lia. by destruct (_ <=? _).
Qed.

Lemma read_page_align v gpa : read_page v (page_align gpa) = read_page v gpa.
Proof.
  revert gpa. induction v as [memory|cow parent IH]; intros gpa; simpl; unfold cow_get; by rewrite !page_align_idem.
Qed.

Lemma expected_align v gpa : expected v (page_align gpa) = expected v gpa.
Proof.
  revert gpa. induction v as [memory|cow parent IH]; intros gpa; simpl.
  - by rewrite page_align_idem.
  - unfold cow_get. rewrite !page_align_idem, IH. done.
Qed.

Lemma expected_mmio v gpa : is_mmio (page_align gpa) = true → expected v gpa = None.
Proof. intros Hm. destruct v; cbn [expected]; by rewrite Hm. Qed.
Lemma expected_no_mmio v g : is_Some (expected v g) → page_align g = g → is_mmio g = false.
Proof.
  intros [x Hx] Hg. destruct (is_mmio g) eqn:Hm; [|done]. rewrite expected_mmio in Hx; [done|by rewrite Hg].
Qed.

Lemma expected_read v gpa fr p : expected v gpa = Some (fr, p) → read_page v gpa = Some fr.
Proof.
  revert gpa fr p. induction v as [memory|cow parent IH]; intros gpa fr p; simpl.
  - destruct (is_mmio _); [done|]. case_match; [|done].
    destruct (frame_at memory (page_align gpa)); simpl; naive_solver.
  - destruct (is_mmio _); [done|]. unfold cow_get. rewrite page_align_idem.
    destruct (cow_pages cow !! page_align gpa); [naive_solver|].
    destruct (expected parent gpa) as [[fr' p']|] eqn:He; simpl; [|done].
    intros [= <- <-]. rewrite read_page_align. by eapply IH.
Qed.

Lemma read_page_data phys v gpa fr :
  vm_ok phys v → 0 ≤ gpa < 2 ^ 48 → read_page v gpa = Some fr → data_page phys fr.
Proof.
  revert gpa fr. induction v as [memory|cow parent IH]; intros gpa fr.
  - intros Hok Hg. rewrite (root_reads phys) by (done || lia). destruct Hok as [Hw Hb Hp _]. destruct (Z.leb_spec (page_align gpa + PAGE_SIZE) (mem_size memory)); [|done].
    intros Hf. rewrite page_align_eq in * by lia. destruct (Hp (4096 * (gpa / 4096))) as (fr' & Hfr & ?).
    + unfold PAGE_SIZE in *. Z.div_mod_to_equations. lia.
    + unfold PAGE_SIZE. rewrite Z.mul_comm. apply Z.mod_mul. lia.
    + congruence.
  - cbn [read_page vm_ok]. intros (Hok & _ & Hc & _) Hg. unfold cow_get. rewrite page_align_idem.
    destruct (cow_pages cow !! page_align gpa) as [fr'|] eqn:Hcg.
    + intros [= <-]. by apply Hc in Hcg as (_ & _ & _ & ? & _).
    + rewrite read_page_align. by apply IH.
Qed.

(** No page is beyond 2^48. *)
Lemma read_page_range phys v gpa fr : vm_ok phys v → 0 ≤ gpa → read_page v gpa = Some fr → gpa < 2 ^ 48.
Proof.
  revert gpa fr. induction v as [memory|cow parent IH]; intros gpa fr Hok Hg; pose proof (page_align_bounds gpa Hg).
  - rewrite (root_reads phys) by done. destruct (Z.leb_spec (page_align gpa + PAGE_SIZE) (mem_size memory)); [|done].
    pose proof (mem_bound _ _ Hok). unfold PAGE_SIZE in *. lia.
  - assert (page_align gpa < 2 ^ 48 → gpa < 2 ^ 48) as Hlt by (rewrite page_align_eq by lia; intros; Z.div_mod_to_equations; lia).
    destruct Hok as (Hok & _ & Hc & _). cbn [read_page]. unfold cow_get. rewrite page_align_idem.
    destruct (cow_pages cow !! page_align gpa) as [fr'|] eqn:Hcg; intros Hr; apply Hlt.
    + destruct (Hc _ _ Hcg). lia.
    + apply (IH _ fr); [done|lia|done].
Qed.
Lemma page_data phys v gpa fr : vm_ok phys v → 0 ≤ gpa → read_page v gpa = Some fr → data_page phys fr.
Proof. intros Hok Hg Hr. eapply read_page_data; [done| |done]. split; [done|]. by eapply read_page_range. Qed.

Lemma frame_of_data phys v fr : vm_ok phys v → frame_of v fr → data_page phys fr.
Proof. intros Hok (gpa & Hg & Hr). by eapply read_page_data. Qed.

Lemma data_page_mono phys phys' fr :
  (∀ f, is_Some (phys !! f) → phys' !! f = phys !! f) → data_page phys fr → data_page phys' fr.
Proof.
  intros Hm (Ha & bytes & Hb & Hl). split; [done|]. exists bytes. rewrite Hm by eauto. done.
Qed.

Lemma vm_ok_mono phys phys' v :
  (∀ f, is_Some (phys !! f) → phys' !! f = phys !! f) → vm_ok phys v → vm_ok phys' v.
Proof.
  intros Hm. induction v as [memory|cow parent IH]; simpl.
  - intros [Hw Hb Hp Hi]. constructor; [done..| |done]. intros off Ho Hoo.
    destruct (Hp off Ho Hoo) as (fr & ? & ?). exists fr. eauto using data_page_mono.
  - intros (Hok & Hc & Hpg & Hinj). split_and!; [auto|done| |done].
    intros g fr Hg. destruct (Hpg g fr Hg) as (? & ? & ? & ? & ?).
    repeat (split; [done|]). eauto using data_page_mono.
Qed.

Lemma view_mono phys phys' v gpa :
  (∀ f, is_Some (phys !! f) → phys' !! f = phys !! f) → vm_ok phys v → 0 ≤ gpa < 2 ^ 48 →
  view phys' v gpa = view phys v gpa.
Proof.
  intros Hm Hok Hg. unfold view. destruct (read_page v gpa) as [fr|] eqn:Hr; [|done].
  destruct (read_page_data _ _ _ _ Hok Hg Hr) as (_ & bytes & Hb & _). rewrite Hm by eauto. done.
Qed.

Lemma read_page_insert cow parent g fr gpa c :
  read_page (ForkedVm (mkCow (<[g := fr]> (cow_pages cow)) c) parent) gpa =
    if decide (page_align gpa = g) then Some fr else read_page (ForkedVm cow parent) gpa.
Proof.
  simpl. unfold cow_get. rewrite !page_align_idem. simpl. case_decide as Hd.
  - by rewrite Hd, lookup_insert_eq.
  - by rewrite lookup_insert_ne.
Qed.

(** Giving a fork its own copy of a page, in a fresh frame. *)
Section OwnCopy.
Context (phys : gmap Z (list Z)) (cow : CowPageMap) (parent : vm) (g fr src : Z) (bytes : list Z).
Context (Hok : vm_ok phys (ForkedVm cow parent)) (Hg : 0 ≤ g) (Hga : page_align g = g).
Context (Hnew : cow_pages cow !! g = None).
Context (Hsrc : read_page parent g = Some src) (Hbytes : phys !! src = Some bytes).
Context (Hal : frame_aligned fr) (Hfresh : phys !! fr = None).
Let cow' := mkCow (<[g := fr]> (cow_pages cow)) (cow_count cow + 1).

Lemma copy_grow fr' : is_Some (phys !! fr') → <[fr := bytes]> phys !! fr' = phys !! fr'.
Proof using Hfresh. intros Hs. apply lookup_insert_ne. intros <-. rewrite Hfresh in Hs. by destruct Hs. Qed.

Lemma copy_data : data_page (<[fr := bytes]> phys) fr.
Proof using Hok Hg Hsrc Hbytes Hal.
  split; [done|]. exists bytes. split; [apply lookup_insert_eq|].
  destruct (page_data phys parent g src) as (_ & b' & Hb' & Hl); [by destruct Hok|done|done|]. congruence.
Qed.

Lemma copy_vm_ok : vm_ok (<[fr := bytes]> phys) (ForkedVm cow' parent).
Proof.
  destruct Hok as (Hp & Hc & Hpg & Hinj). simpl.
  assert (∀ g' fr', cow_pages cow !! g' = Some fr' → fr' ≠ fr) as Hne.
  { intros g' fr' Hl ->. apply Hpg in Hl as (_ & _ & _ & (_ & b & Hb & _) & _). congruence. }
  split_and!.
  - by apply (vm_ok_mono phys); [apply copy_grow|].
  - rewrite map_size_insert_None by done. lia.
  - intros g' fr' [[<- <-]|[Hgne Hl]]%lookup_insert_Some.
    + split; [split; [done|by eapply read_page_range]|]. split; [done|]. split; [eauto|]. split; [apply copy_data|].
      intros Hfo. destruct (frame_of_data _ _ _ Hp Hfo) as (_ & b & Hb & _). congruence.
    + destruct (Hpg _ _ Hl) as (? & ? & ? & ? & ?). repeat (split; [done|]). split; [|done].
      by eapply data_page_mono; [apply copy_grow|].
  - intros g1 g2 fr' [[<- <-]|[? Hl1]]%lookup_insert_Some [[<- Heq]|[? Hl2]]%lookup_insert_Some; [done|..].
    + by apply Hne in Hl2.
    + subst fr'. by apply Hne in Hl1.
    + by eapply Hinj.
Qed.

Lemma copy_view a : 0 ≤ a → view (<[fr := bytes]> phys) (ForkedVm cow' parent) a = view phys (ForkedVm cow parent) a.
Proof using Hok Hfresh Hnew Hsrc Hbytes.
  intros Ha. unfold view, cow'. rewrite read_page_insert. case_decide as Hd.
  - rewrite lookup_insert_eq. simpl. unfold cow_get. rewrite page_align_idem, Hd, Hnew, Hsrc. by rewrite Hbytes.
  - destruct (read_page (ForkedVm cow parent) a) as [fr'|] eqn:Hr; [|done].
    rewrite copy_grow; [done|]. destruct (page_data _ _ _ _ Hok Ha Hr) as (_ & b & Hb & _). eauto.
Qed.
End OwnCopy.

Section Invariant.
Context {A F E : Type} `{!FrameAllocator A F E} `{!FrameAllocatorSpec A F E}
  `{!CowAllocator A F E} `{!CowAllocatorSpec A F E}.
Implicit Types (f : forked F) (w : world A) (ept : EptPageTable F) (v : vm).

(** Free frames are in no use, and no data page is a table. *)
Record world_ok w : Prop := {
  wo_tables p : avail (alloc (w_host w)) p → tables (w_host w) !! p = None;
  wo_phys p : avail (alloc (w_host w)) p → w_phys w !! p = None;
  wo_disj p : is_Some (w_phys w !! p) → tables (w_host w) !! p = None;
}.

Definition coherent (T : gmap Z (list Z)) ept v : Prop :=
  ∀ gpa, 0 ≤ gpa < 2 ^ 48 → translate <$> leaf T (pml4_phys ept) gpa = expected v gpa.

Record vm_inv w ept v : Prop := {
  vi_world : world_ok w;
  vi_ept : ept_wf (w_host w) ept;
  vi_vm : vm_ok (w_phys w) v;
  vi_coherent : coherent (tables (w_host w)) ept v;
}.

(** What an operation of a fork may do: no data page of anyone changes, no
    table of anyone else changes, and the guest's memory reads the same. *)
Record transparent f w f' w' : Prop := {
  tr_parent : fk_parent f' = fk_parent f;
  tr_ept : fk_ept f' = fk_ept f;
  tr_phys fr : is_Some (w_phys w !! fr) → w_phys w' !! fr = w_phys w !! fr;
  tr_tables t : t ∉ phys_of (ept_frames (fk_ept f)) → tables (w_host w') !! t = tables (w_host w) !! t;
  tr_view gpa : 0 ≤ gpa < 2 ^ 48 → view (w_phys w') (as_vm f') gpa = view (w_phys w) (as_vm f) gpa;
}.

Lemma transparent_refl f w : transparent f w f w.
Proof. by constructor. Qed.

Lemma transparent_trans f1 w1 f2 w2 f3 w3 :
  transparent f1 w1 f2 w2 → transparent f2 w2 f3 w3 → transparent f1 w1 f3 w3.
Proof.
  intros [P1 E1 H1 T1 V1] [P2 E2 H2 T2 V2]. constructor.
  - congruence.
  - congruence.
  - intros fr Hfr. rewrite H2; [by apply H1|]. by rewrite H1.
  - intros t Ht. rewrite T2 by (by rewrite E1). by apply T1.
  - intros gpa Hg. rewrite V2 by done. by apply V1.
Qed.

(** Changing the allocator alone, within its documented behaviour. *)
Lemma vm_inv_alloc w ept v a' :
  vm_inv w ept v → (∀ q, avail a' q → avail (alloc (w_host w)) q) →
  vm_inv (mkWorld (mkHost a' (tables (w_host w))) (w_phys w) (w_invept w)) ept v.
Proof.
  intros [[Hwt Hwp Hwd] ? ? ?] Ha. constructor; [|done..].
  constructor; simpl; [intros p Hp; apply Hwt; by apply Ha|intros p Hp; apply Hwp; by apply Ha|apply Hwd].
Qed.

Lemma expected_insert cow parent g fr gpa c :
  page_align g = g →
  expected (ForkedVm (mkCow (<[g := fr]> (cow_pages cow)) c) parent) gpa =
    if decide (page_align gpa = g) then (if is_mmio g then None else Some (fr, READ_WRITE_EXECUTE))
    else expected (ForkedVm cow parent) gpa.
Proof.
  intros Hg. simpl. unfold cow_get. simpl. case_decide as Hd.
  - by rewrite Hd, lookup_insert_eq.
  - by rewrite lookup_insert_ne.
Qed.

(** A page the VM has can be remapped; the effect is on that page only. *)
Definition remapped w ept (g fr : Z) (T' : gmap Z (list Z)) : Prop :=
  tree T' (pml4_phys ept) (phys_of (ept_frames ept)) ∧
  (∀ t, t ∉ phys_of (ept_frames ept) → T' !! t = tables (w_host w) !! t) ∧
  (∀ t, is_Some (T' !! t) ↔ is_Some (tables (w_host w) !! t)) ∧
  leaf T' (pml4_phys ept) g = Some (page_entry_4k fr READ_WRITE_EXECUTE WriteBack) ∧
  ∀ gpa', page_no gpa' ≠ page_no g →
    leaf T' (pml4_phys ept) gpa' = leaf (tables (w_host w)) (pml4_phys ept) gpa'.

Lemma remap_total w ept v g fr :
  vm_inv w ept v → 0 ≤ g < 2 ^ 48 → is_Some (expected v g) →
  ∃ T', remap_4k (tables (w_host w)) ept g fr READ_WRITE_EXECUTE WriteBack = Done T' ∧
    remapped w ept g fr T'.
Proof.
  intros Hinv Hg Hexp. pose proof (vi_ept _ _ _ Hinv) as Hwf. unfold ept_wf in Hwf.
  pose proof (remap_4k_spec _ _ _ (ept_frames ept) g fr READ_WRITE_EXECUTE WriteBack Hwf
    ltac:(split; reflexivity || discriminate)) as Hs.
  replace (mkEpt (pml4_phys ept) (ept_frames ept)) with ept in Hs by (by destruct ept).
  destruct (remap_4k _ _ _ _ _ _) as [T'|[]|]; [|exfalso|done].
  - exists T'. split; [done|]. by destruct Hs as [_ ?].
  - pose proof (vi_coherent _ _ _ Hinv g Hg) as Hc. rewrite Hs in Hc.
    rewrite <-Hc in Hexp. by destruct Hexp.
Qed.

Section Step.
Context (f : forked F) (w : world A) (g fr src : Z) (bytes : list Z) (a2 : A) (T' : gmap Z (list Z)).
Context (Hinv : vm_inv w (fk_ept f) (as_vm f)).
Context (Hg : 0 ≤ g < 2 ^ 48) (Hga : page_align g = g).
Context (Hnew : cow_pages (fk_cow f) !! g = None) (Hexp : is_Some (expected (as_vm f) g)).
Context (Hsrc : read_page (fk_parent f) g = Some src) (Hbytes : w_phys w !! src = Some bytes).
Context (Hav : avail (alloc (w_host w)) fr).
Context (Ha2 : ∀ q, avail a2 q → avail (alloc (w_host w)) q ∧ q ≠ fr).
Context (Hremap : remap_4k (tables (w_host w)) (fk_ept f) g fr READ_WRITE_EXECUTE WriteBack = Done T').

Let cow' := mkCow (<[g := fr]> (cow_pages (fk_cow f))) (cow_count (fk_cow f) + 1).
Let f' := mkForked (fk_ept f) cow' (fk_parent f) (fk_stale_tlb_faults f).
Let w' iv := mkWorld (mkHost a2 T') (<[fr := bytes]> (w_phys w)) iv.

Lemma step_fresh : w_phys w !! fr = None.
Proof. by apply (wo_phys _ (vi_world _ _ _ Hinv)). Qed.

Lemma step_remap : remapped w (fk_ept f) g fr T'.
Proof.
  destruct (remap_total w (fk_ept f) (as_vm f) g fr Hinv Hg Hexp) as (T2 & HT2 & Hr).
  rewrite Hremap in HT2. by injection HT2 as <-.
Qed.

Lemma step_world iv : world_ok (w' iv).
Proof.
  destruct (vi_world _ _ _ Hinv) as [Hwt Hwp Hwd]. destruct step_remap as (_ & _ & Hdom & _).
  constructor; simpl.
  - intros p [Hp _]%Ha2. apply eq_None_not_Some. rewrite Hdom. apply eq_None_not_Some. by apply Hwt.
  - intros p [Hp Hne]%Ha2. rewrite lookup_insert_ne by done. by apply Hwp.
  - intros p Hp. apply eq_None_not_Some. rewrite Hdom. apply eq_None_not_Some.
    destruct (decide (p = fr)) as [->|]; [by apply Hwt|].
    rewrite lookup_insert_ne in Hp by done. by apply Hwd.
Qed.

Lemma step_vm : vm_ok (<[fr := bytes]> (w_phys w)) (as_vm f').
Proof.
  apply (copy_vm_ok _ _ _ g fr src); try done; [apply Hinv|lia|by eapply avail_aligned|apply step_fresh].
Qed.

Lemma step_coherent : coherent T' (fk_ept f) (as_vm f').
Proof.
  destruct step_remap as (_ & _ & _ & Hsame & Hother). intros gpa Hgpa.
  unfold as_vm, f', cow'. simpl fk_cow. simpl fk_parent. rewrite expected_insert by done.
  assert (page_no gpa = page_no g ↔ page_align gpa = g) as Hpg by (rewrite page_no_align, Hga by done; done).
  case_decide as Hd.
  - rewrite (leaf_page _ _ gpa g) by (by apply Hpg). rewrite Hsame. simpl. unfold translate.
    rewrite (expected_no_mmio (as_vm f) g Hexp Hga).
    rewrite page_entry_addr, page_entry_perms; [done|done|done|by eapply avail_aligned].
  - rewrite Hother by (by rewrite Hpg). by apply (vi_coherent _ _ _ Hinv).
Qed.

Lemma step_inv iv : vm_inv (w' iv) (fk_ept f') (as_vm f').
Proof.
  constructor; simpl; [apply step_world|apply step_remap|apply step_vm|apply step_coherent].
Qed.

Lemma step_transparent iv : transparent f w f' (w' iv).
Proof.
  constructor; simpl; [done|done|by intros; apply copy_grow; [apply step_fresh|]|apply step_remap|].
  intros gpa Hgpa. apply (copy_view _ _ _ g fr src); try done; [apply Hinv|apply step_fresh|lia].
Qed.
End Step.

(** The whole sequence: it fails only when an allocation does, and then leaves
    the VM as it was. *)
Definition cow_post f w (g : Z) (r : outcome () () * (forked F * world A)) : Prop :=
  match r with
  | (Done _, (f', w')) =>
      vm_inv w' (fk_ept f') (as_vm f') ∧ transparent f w f' w' ∧
      (∃ fr, cow_pages (fk_cow f') = <[g := fr]> (cow_pages (fk_cow f)) ∧ w_phys w !! fr = None) ∧
      w_invept w' = w_invept w ++ [eptp (fk_ept f)]
  | (Fail _, (f', w')) =>
      f' = f ∧ vm_inv w' (fk_ept f) (as_vm f) ∧ transparent f w f w'
  | (Stuck, _) => False
  end.

Lemma expected_some_read v gpa : is_Some (expected v gpa) → is_Some (read_page v gpa).
Proof. intros [[fr p] H%expected_read]. eauto. Qed.

(** A failure after the page was allocated. *)
Lemma vm_inv_grow f w a2 fr bytes :
  vm_inv w (fk_ept f) (as_vm f) → avail (alloc (w_host w)) fr →
  (∀ q, avail a2 q → avail (alloc (w_host w)) q ∧ q ≠ fr) →
  let w' := mkWorld (mkHost a2 (tables (w_host w))) (<[fr := bytes]> (w_phys w)) (w_invept w) in
  vm_inv w' (fk_ept f) (as_vm f) ∧ transparent f w f w'.
Proof.
  intros [[Hwt Hwp Hwd] Hwf Hok Hcoh] Hav Ha2 w'.
  assert (∀ p, is_Some (w_phys w !! p) → <[fr := bytes]> (w_phys w) !! p = w_phys w !! p) as Hgrow.
  { intros p Hp. apply lookup_insert_ne. intros <-. rewrite Hwp in Hp by done. by destruct Hp. }
  split.
  - constructor; [|done| |done].
    + constructor; simpl.
      * intros p [Hp _]%Ha2. by apply Hwt.
      * intros p [Hp Hne]%Ha2. rewrite lookup_insert_ne by done. by apply Hwp.
      * intros p Hp. destruct (decide (p = fr)) as [->|]; [by apply Hwt|].
        rewrite lookup_insert_ne in Hp by done. by apply Hwd.
    + by apply (vm_ok_mono (w_phys w)).
  - constructor; simpl; [done..|]. intros gpa Hg. by apply view_mono.
Qed.

Lemma cow_page_spec f w g :
  vm_inv w (fk_ept f) (as_vm f) → 0 ≤ g < 2 ^ 48 → page_align g = g →
  cow_pages (fk_cow f) !! g = None → is_Some (expected (as_vm f) g) →
  cow_post f w g (cow_page g (f, w)).
Proof.
  intros Hinv Hg Hga Hnew Hexp.
  unfold cow_page, mbind, M_bind, cow_alloc, gets.
  destruct (allocate_cow_page (alloc (w_host w))) as [[fr|e] a1] eqn:Ha1; simpl.
  2: { split; [done|]. split; [apply vm_inv_alloc; [done|]; by eapply allocate_cow_page_err|by constructor]. }
  destruct (allocate_cow_page_ok _ _ _ Ha1) as [Hav Ha1'].
  assert (is_Some (read_page (fk_parent f) g)) as [src Hsrc].
  { apply expected_some_read in Hexp. cbn [as_vm read_page] in Hexp. unfold cow_get in Hexp.
    by rewrite !Hga, Hnew in Hexp. }
  assert (data_page (w_phys w) src) as (_ & bytes & Hbytes & _).
  { destruct (vi_vm _ _ _ Hinv) as [Hp _]. by eapply read_page_data. }
  rewrite Hsrc. unfold copy_page. simpl. rewrite Hbytes.
  unfold cow_insert_page. simpl. pose proof (alloc_node_avail a1) as Hnode.
  destruct (alloc_node a1) as [node_ok a2]. simpl in Hnode.
  assert (∀ q, avail a2 q → avail (alloc (w_host w)) q ∧ q ≠ fr) as Ha2 by auto.
  unfold cow_insert. destruct node_ok.
  2: { split; [done|]. by apply vm_inv_grow. }
  unfold remap_rwx. simpl. rewrite Hga.
  destruct (remap_total w (fk_ept f) (as_vm f) g fr Hinv Hg Hexp) as (T' & Hremap & _). rewrite Hremap. simpl.
  split_and!.
  - by apply (step_inv f w g fr src bytes a2 T').
  - by apply (step_transparent f w g fr src bytes a2 T').
  - exists fr. split; [done|]. by apply (wo_phys _ (vi_world _ _ _ Hinv)).
  - done.
Qed.

Lemma cow_contains_spec m gpa :
  cow_contains m gpa = true ↔ is_Some (cow_pages m !! page_align gpa).
Proof. unfold cow_contains. destruct (cow_pages m !! page_align gpa); split; intros H; (done || eauto || by destruct H). Qed.

Lemma handle_cow_fault_spec f w gpa :
  vm_inv w (fk_ept f) (as_vm f) → 0 ≤ gpa < 2 ^ 48 → is_Some (expected (as_vm f) gpa) →
  match handle_cow_fault gpa (f, w) with
  | (Done _, (f', w')) =>
      vm_inv w' (fk_ept f') (as_vm f') ∧ transparent f w f' w' ∧
      (∃ fr, cow_pages (fk_cow f') !! page_align gpa = Some fr ∧
        (cow_pages (fk_cow f) !! page_align gpa = Some fr ∧ w' = w ∧ fk_cow f' = fk_cow f ∨
         cow_pages (fk_cow f) !! page_align gpa = None ∧ w_phys w !! fr = None ∧
         cow_pages (fk_cow f') = <[page_align gpa := fr]> (cow_pages (fk_cow f)) ∧
         w_invept w' = w_invept w ++ [eptp (fk_ept f)]))
  | (Fail _, (f', w')) => f' = f ∧ vm_inv w' (fk_ept f) (as_vm f) ∧ transparent f w f w'
  | (Stuck, _) => False
  end.
Proof.
  intros Hinv Hg Hexp. unfold handle_cow_fault, mbind, M_bind, gets. simpl.
  destruct (cow_contains (fk_cow f) (page_align gpa)) eqn:Hc.
  - apply cow_contains_spec in Hc as [fr Hfr]. rewrite page_align_idem in Hfr. simpl.
    split; [by destruct Hinv|]. split; [by constructor|]. exists fr. split; [done|]. by left.
  - assert (cow_pages (fk_cow f) !! page_align gpa = None) as Hnone.
    { apply eq_None_not_Some. intros Hs. rewrite <-page_align_idem in Hs.
      apply cow_contains_spec in Hs. congruence. }
    pose proof (cow_page_spec f w (page_align gpa) Hinv (page_align_range _ Hg) (page_align_idem _) Hnone) as Hs.
    rewrite expected_align in Hs. specialize (Hs Hexp).
    destruct (cow_page (page_align gpa) (f, w)) as [[?|?|] [f' w']]; simpl in Hs; [|done..].
    destruct Hs as (? & ? & (fr & Hcow & Hfresh) & Hiv). split; [done|]. split; [done|].
    exists fr. rewrite Hcow, lookup_insert_eq. split; [done|]. right. by split_and!.
Qed.

(** A fork starts with nothing of its own, over the parent's memory. *)
Lemma expected_cow_new parent gpa :
  expected (ForkedVm cow_new parent) gpa = (λ '(frame, _), (frame, READ_EXECUTE)) <$> expected parent gpa.
Proof.
  cbn [expected]. destruct (is_mmio _) eqn:Hm; [by rewrite expected_mmio|]. unfold cow_get. cbn. by rewrite lookup_empty.
Qed.

Lemma view_cow_new phys parent gpa : view phys (ForkedVm cow_new parent) gpa = view phys parent gpa.
Proof. unfold view. simpl. unfold cow_get. simpl. by rewrite lookup_empty, read_page_align. Qed.

Lemma vm_ok_cow_new phys parent : vm_ok phys parent → vm_ok phys (ForkedVm cow_new parent).
Proof.
  intros Hok. simpl. split_and!; [done|done|..].
  - intros g fr. by rewrite lookup_empty.
  - intros g g' fr. by rewrite lookup_empty.
Qed.

(** The invariant of a VM survives operations that keep its tables and data. *)
Lemma vm_inv_frame w w' ept v :
  vm_inv w ept v → world_ok w' →
  (∀ t, t ∈ phys_of (ept_frames ept) → tables (w_host w') !! t = tables (w_host w) !! t) →
  (∀ fr, is_Some (w_phys w !! fr) → w_phys w' !! fr = w_phys w !! fr) →
  vm_inv w' ept v.
Proof.
  intros [_ Hwf Hok Hcoh] Hw' HT HP.
  destruct (tree_frame _ (tables (w_host w')) _ _ Hwf HT) as [Hwf' Hleaf].
  constructor; [done|done|by eapply vm_ok_mono|].
  intros gpa Hg. rewrite Hleaf. by apply Hcoh.
Qed.

(** The world after a clone of the tables. *)
Lemma world_ok_grows w h' :
  world_ok w → host_ok h' → grows (w_host w) h' → world_ok (mkWorld h' (w_phys w) (w_invept w)).
Proof.
  intros [Hwt Hwp Hwd] Hh' [Hav Hdom]. constructor; simpl; [done|auto|].
  intros p Hp. apply eq_None_not_Some. intros Hs. destruct (Hdom p Hs) as [Hs'|Hn].
  - rewrite Hwd in Hs' by done. by destruct Hs'.
  - rewrite Hwp in Hp by done. by destruct Hp.
Qed.

Lemma clone_world w pt' h' ept v :
  vm_inv w ept v → clone_post (w_host w) ept (Done (E:=E) pt', h') → grows (w_host w) h' →
  let w' := mkWorld h' (w_phys w) (w_invept w) in
  vm_inv w' pt' (ForkedVm cow_new v) ∧ vm_inv w' ept v.
Proof.
  intros Hinv (Hh' & Hwf' & Hkeep & Hfresh & Hleaf & _) Hgr w'.
  pose proof (world_ok_grows _ _ (vi_world _ _ _ Hinv) Hh' Hgr) as Hw'.
  split.
  - constructor; [done|done|apply vm_ok_cow_new, Hinv|].
    intros gpa Hg. rewrite expected_cow_new. simpl. rewrite Hleaf, <-(vi_coherent _ _ _ Hinv) by done.
    destruct (leaf (tables (w_host w)) (pml4_phys ept) gpa) as [e|]; [|done]. simpl. unfold translate, clone_leaf.
    by rewrite page_entry_addr, page_entry_perms; [..|apply entry_addr_aligned].
  - apply (vm_inv_frame w); [done|done| |done].
    intros t Ht. apply Hkeep. by eapply tree_frames; [apply Hinv|].
Qed.

(** What the creation of a fork leaves behind, whatever its outcome: the data
    and tables that were there. *)
Definition kept w w' : Prop :=
  (∀ fr, is_Some (w_phys w !! fr) → w_phys w' !! fr = w_phys w !! fr) ∧
  (∀ t, is_Some (tables (w_host w) !! t) → tables (w_host w') !! t = tables (w_host w) !! t).

Definition fork_post w parent_ept parent (r : outcome (ForkedVmError E) (forked F) * world A) : Prop :=
  match r with
  | (Done f, w') =>
      vm_inv w' (fk_ept f) (as_vm f) ∧ vm_inv w' parent_ept parent ∧ kept w w' ∧
      fk_parent f = parent ∧
      (∀ gpa, 0 ≤ gpa < 2 ^ 48 → view (w_phys w') (as_vm f) gpa = view (w_phys w) parent gpa) ∧
      (∀ t, t ∈ phys_of (ept_frames (fk_ept f)) → tables (w_host w) !! t = None) ∧
      (∀ g fr, cow_pages (fk_cow f) !! g = Some fr → w_phys w !! fr = None)
  | (Fail _, w') => vm_inv w' parent_ept parent ∧ kept w w'
  | (Stuck, _) => False
  end.

(** The two states the I/O page hypothesis allows. *)
Definition io_page_ok parent (io : Z) : Prop :=
  io = 0 ∨ 0 ≤ io < 2 ^ 48 ∧ is_Some (expected parent io).

Lemma pre_cow_spec f w io :
  vm_inv w (fk_ept f) (as_vm f) → io_page_ok (as_vm f) io →
  match pre_cow_io_channel_page io (f, w) with
  | (Done _, (f', w')) =>
      vm_inv w' (fk_ept f') (as_vm f') ∧ transparent f w f' w' ∧
      ∀ g fr, cow_pages (fk_cow f') !! g = Some fr →
        cow_pages (fk_cow f) !! g = Some fr ∨ w_phys w !! fr = None
  | _ => False
  end.
Proof.
  intros Hinv Hio. unfold pre_cow_io_channel_page.
  destruct (Z.eqb_spec io 0) as [->|Hne].
  { simpl. split; [done|]. split; [apply transparent_refl|auto]. }
  destruct Hio as [?|[Hr Hexp]]; [done|]. unfold mbind, M_bind, gets. simpl.
  destruct (cow_contains (fk_cow f) (page_align io)) eqn:Hc.
  { simpl. split; [done|]. split; [apply transparent_refl|auto]. }
  assert (cow_pages (fk_cow f) !! page_align io = None) as Hnone.
  { apply eq_None_not_Some. intros Hs. rewrite <-page_align_idem in Hs.
    apply cow_contains_spec in Hs. congruence. }
  pose proof (cow_page_spec f w (page_align io) Hinv (page_align_range _ Hr) (page_align_idem _) Hnone) as Hs.
  rewrite expected_align in Hs. specialize (Hs Hexp). unfold ignore_errors.
  destruct (cow_page (page_align io) (f, w)) as [[?|?|] [f' w']]; simpl in Hs |- *; [| |done].
  - destruct Hs as (? & ? & (fr & Hcow & Hfresh) & _). split; [done|]. split; [done|].
    intros g fr'. rewrite Hcow. intros [[<- <-]|[_ Hl]]%lookup_insert_Some; auto.
  - destruct Hs as (-> & ? & ?). auto.
Qed.

Lemma fork_new_spec w parent_ept parent vmcs_ok state_ok io :
  vm_inv w parent_ept parent → io_page_ok parent io →
  fork_post w parent_ept parent (fork_new parent_ept parent vmcs_ok state_ok io w).
Proof.
  intros Hinv Hio. unfold fork_new.
  assert (host_ok (w_host w)) as Hh by (intros p; apply Hinv).
  pose proof (clone_for_fork_spec (w_host w) parent_ept Hh (vi_ept _ _ _ Hinv)) as Hc.
  pose proof (clone_grows (w_host w) parent_ept) as Hgr.
  destruct (clone_for_fork parent_ept (w_host w)) as [[ept|e|] h']; simpl in Hgr; [..|done].
  2: { destruct Hc as [Hh' Hkeep]. simpl. split; [|split; [done|exact Hkeep]].
       apply (vm_inv_frame w); [done|by apply world_ok_grows; [apply Hinv|..]| |done].
       intros t Ht. apply Hkeep. by eapply tree_frames; [apply Hinv|]. }
  destruct (clone_world w ept h' parent_ept parent Hinv Hc Hgr) as [Hf Hp].
  destruct Hc as (Hh' & Hwf' & Hkeep & Hfresh & Hleaf & _).
  destruct vmcs_ok; simpl; [|by split]. destruct state_ok; simpl; [|by split].
  set (w1 := mkWorld h' (w_phys w) (w_invept w)) in *.
  assert (io_page_ok (ForkedVm cow_new parent) io) as Hio'.
  { destruct Hio as [->|[? Hs]]; [by left|right]. split; [done|]. by rewrite expected_cow_new, fmap_is_Some. }
  pose proof (pre_cow_spec (mkForked ept cow_new parent 0) w1 io Hf Hio') as Hpre.
  destruct (pre_cow_io_channel_page io _) as [[?|?|] [f w']]; [|done..].
  destruct Hpre as (Hf' & Htr & Hcow). simpl. split_and!.
  - done.
  - apply (vm_inv_frame w1); [done|apply Hf'| |apply Htr].
    intros t Ht. apply (tr_tables _ _ _ _ Htr). simpl. intros Ht'.
    destruct (tree_frames _ _ _ _ (vi_ept _ _ _ Hinv) Ht) as [? Hs]. by rewrite Hfresh in Hs.
  - split; [apply (tr_phys _ _ _ _ Htr)|]. intros t Ht. rewrite (tr_tables _ _ _ _ Htr); [by apply Hkeep|].
    intros Ht'%Hfresh. rewrite Ht' in Ht. by destruct Ht.
  - by rewrite (tr_parent _ _ _ _ Htr).
  - intros gpa Hg. rewrite (tr_view _ _ _ _ Htr) by done. apply view_cow_new.
  - rewrite (tr_ept _ _ _ _ Htr). apply Hfresh.
  - intros g fr Hgf. by destruct (Hcow g fr Hgf) as [Hl|Hl].
Qed.
End Invariant.

(** ** The root's page table *)
Section Root.
Context {A F E : Type} `{!FrameAllocator A F E} `{!FrameAllocatorSpec A F E}.
Context (phys : gmap Z (list Z)) (memory : GuestMemory) (Hmem : mem_ok phys memory).
Implicit Types (h : host A) (ept : EptPageTable F).

Definition num_pages : nat := Z.to_nat ((mem_size memory + PAGE_SIZE - 1) / PAGE_SIZE).

Lemma num_pages_eq : Z.of_nat num_pages * PAGE_SIZE = mem_size memory.
Proof.
  destruct Hmem as [Hw Hb _ _]. unfold num_pages, PAGE_SIZE in *. clear Hmem.
  rewrite Z2Nat.id; Z.div_mod_to_equations; lia.
Qed.

(** The pages below index [i] are mapped as they should be, the rest not at all. *)
Record mapped_upto (h0 : host A) (i : nat) (s : EptPageTable F * host A) : Prop := {
  mu_host : host_ok s.2;
  mu_wf : ept_wf s.2 s.1;
  mu_grows : grows h0 s.2;
  mu_keep t : is_Some (tables h0 !! t) → tables s.2 !! t = tables h0 !! t;
  mu_fresh t : t ∈ phys_of (ept_frames s.1) → tables h0 !! t = None;
  mu_leaf gpa : 0 ≤ gpa < 2 ^ 48 →
    translate <$> leaf (tables s.2) (pml4_phys s.1) gpa =
      if decide (gpa / PAGE_SIZE < Z.of_nat i) then expected (RootVm memory) gpa else None;
}.

Definition map_error (h0 : host A) (e : RootVmError E) (s : EptPageTable F * host A) : Prop :=
  host_ok s.2 ∧ grows h0 s.2 ∧ (∀ t, is_Some (tables h0 !! t) → tables s.2 !! t = tables h0 !! t) ∧
  ∃ e', e = EptMapping e'.

Lemma page_index i gpa :
  0 ≤ gpa → gpa / PAGE_SIZE = Z.of_nat i ↔ page_align gpa = Z.of_nat i * PAGE_SIZE.
Proof. intros. rewrite page_align_eq by done. unfold PAGE_SIZE. lia. Qed.

Lemma mapped_skip h0 i s :
  mapped_upto h0 i s → is_mmio (Z.of_nat i * PAGE_SIZE) = true → mapped_upto h0 (S i) s.
Proof.
  intros [H1 H2 H3 H4 H5 H6] Hm. constructor; try done. intros gpa Hg. rewrite H6 by done.
  destruct (decide (gpa / PAGE_SIZE = Z.of_nat i)) as [He|He].
  - rewrite decide_False, decide_True by lia. simpl.
    apply page_index in He; [|lia]. by rewrite He, Hm.
  - repeat case_decide; (done || lia).
Qed.

Lemma map_root_page_spec h0 i :
  (i < num_pages)%nat →
  triple (mapped_upto h0 i) (map_root_page memory i) (λ _, mapped_upto h0 (S i)) (map_error h0).
Proof.
  intros Hi [ept h] HM. unfold map_root_page.
  destruct (is_mmio (Z.of_nat i * PAGE_SIZE)) eqn:Hm; [by apply mapped_skip|].
  pose proof num_pages_eq as Hn. pose proof Hmem as [Hwhole Hb Hpage _].
  destruct (Hpage (Z.of_nat i * PAGE_SIZE)) as (fr & Hfr & Hal & _);
    [unfold PAGE_SIZE in *; lia|apply Z.mod_mul; done|].
  rewrite Hfr. destruct HM as [H1 H2 H3 H4 H5 H6].
  pose proof (map_4k_spec h ept (Z.of_nat i * PAGE_SIZE) fr READ_WRITE_EXECUTE WriteBack H1 H2
    ltac:(split; reflexivity || discriminate)) as Hs.
  pose proof (map_4k_grows h ept (Z.of_nat i * PAGE_SIZE) fr READ_WRITE_EXECUTE WriteBack) as Hg.
  destruct (map_4k ept h _ _ _ _) as [[?|e|] [ept' h']]; simpl in Hs, Hg; [..|done];
    destruct Hs as (Hh' & Hwf' & Hunt & Hnew & Hroot & Hleaf).
  - assert (∀ t, is_Some (tables h0 !! t) → tables h' !! t = tables h0 !! t) as Hkeep.
    { intros t Ht. simpl in *. rewrite Hunt; [by apply H4| |by rewrite H4].
      intros Hin%H5. rewrite Hin in Ht. by destruct Ht. }
    constructor; simpl; [done|done|by etransitivity|done| |].
    + intros t [Ht|Ht]%Hnew; [by apply H5|]. apply eq_None_not_Some. intros Hs.
      pose proof (H4 t Hs) as Heq. simpl in *. rewrite <-Heq, Ht in Hs. by destruct Hs.
    + destruct Hleaf as [Hsame Hother]. intros gpa Hgpa. rewrite Hroot.
      assert (0 ≤ Z.of_nat i * PAGE_SIZE < 2 ^ 48) as Hir by (unfold PAGE_SIZE in *; lia).
      destruct (decide (gpa / PAGE_SIZE = Z.of_nat i)) as [He|He].
      * rewrite decide_True by lia. apply page_index in He; [|lia].
        assert (page_align (Z.of_nat i * PAGE_SIZE) = Z.of_nat i * PAGE_SIZE) as Hai
          by (rewrite <-He; apply page_align_idem).
        rewrite (leaf_page _ _ gpa (Z.of_nat i * PAGE_SIZE)) by (apply page_no_align; [done..|congruence]).
        rewrite Hsame. pose proof (root_reads phys memory gpa Hmem ltac:(lia)) as Hrp. cbn [read_page] in Hrp. rewrite Hrp, He, Hm. unfold PAGE_SIZE in *.
        destruct (Z.leb_spec (Z.of_nat i * 4096 + 4096) (mem_size memory)); [|lia].
        rewrite Hfr. simpl. unfold translate. by rewrite page_entry_addr, page_entry_perms.
      * rewrite Hother, H6 by (done || rewrite page_no_align by done; rewrite page_index in He by lia;
          rewrite (page_align_eq (Z.of_nat i * PAGE_SIZE)) by lia; unfold PAGE_SIZE in *;
          rewrite Z.div_mul by lia; lia).
        repeat case_decide; (done || lia).
  - split; [done|]. split; [by etransitivity|]. split; [|eauto].
    intros t Ht. simpl in *. rewrite Hunt; [by apply H4| |by rewrite H4].
    intros Hin%H5. rewrite Hin in Ht. by destruct Ht.
Qed.

Lemma mapped_init h0 ept h' :
  new (F:=F) (E:=E) h0 = (Done ept, h') → host_ok h0 → mapped_upto h0 0 (ept, h').
Proof.
  intros Hn Hh. pose proof (new_spec (F:=F) (E:=E) h0 Hh) as Hs. pose proof (new_grows (F:=F) (E:=E) h0) as Hg.
  unfold new in Hn, Hs, Hg.
  destruct (allocate_frame (alloc h0)) as [[fr|e] a'] eqn:Ha; [|done]. injection Hn as <- <-.
  destruct Hs as (? & ? & _ & Hkeep & Hleaf). simpl in Hg. constructor; simpl; try done.
  - unfold phys_of. simpl. intros t ->%list_elem_of_singleton. by destruct (host_ok_alloc _ _ _ Hh Ha) as [? _].
  - intros gpa Hgpa. rewrite Hleaf. rewrite decide_False; [done|].
    intros Hlt. pose proof (Z.div_pos gpa PAGE_SIZE). unfold PAGE_SIZE in *. lia.
Qed.

Lemma mapped_all h0 s iv w :
  mapped_upto h0 num_pages s → world_ok w → w_host w = h0 → w_phys w = phys →
  vm_inv (mkWorld s.2 phys iv) s.1 (RootVm memory).
Proof.
  intros [H1 H2 H3 H4 H5 H6] Hw Hh Hp. subst h0. constructor; simpl; [|done|done|].
  - rewrite <-Hp. pose proof (world_ok_grows w s.2 Hw H1 H3) as [? ? ?]. by constructor.
  - intros gpa Hg. rewrite H6 by done. case_decide as Hd; [done|].
    simpl. destruct (is_mmio (page_align gpa)); [done|].
    pose proof num_pages_eq. pose proof (root_reads phys memory gpa Hmem ltac:(lia)) as Hrp. cbn [read_page] in Hrp. rewrite Hrp, page_align_eq by lia.
    destruct (Z.leb_spec (4096 * (gpa / 4096) + PAGE_SIZE) (mem_size memory)); [|done].
    unfold PAGE_SIZE in *. lia.
Qed.

Definition root_post (w : world A) (r : outcome (RootVmError E) (EptPageTable F) * host A) : Prop :=
  match r with
  | (Done ept, h') =>
      vm_inv (mkWorld h' phys (w_invept w)) ept (RootVm memory) ∧
      (∀ t, is_Some (tables (w_host w) !! t) → tables h' !! t = tables (w_host w) !! t) ∧
      (∀ t, t ∈ phys_of (ept_frames ept) → tables (w_host w) !! t = None)
  | (Fail e, h') =>
      world_ok (mkWorld h' phys (w_invept w)) ∧
      (∀ t, is_Some (tables (w_host w) !! t) → tables h' !! t = tables (w_host w) !! t) ∧
      ∃ e', e = EptCreation e' ∨ e = EptMapping e'
  | (Stuck, _) => False
  end.

Lemma root_ept_new_spec (w : world A) :
  world_ok w → w_phys w = phys → root_post w (root_ept_new memory (w_host w)).
Proof.
  intros Hw Hp. assert (host_ok (w_host w)) as Hh by (intros p; apply Hw).
  unfold root_ept_new. pose proof (new_spec (F:=F) (E:=E) (w_host w) Hh) as Hs.
  pose proof (new_grows (F:=F) (E:=E) (w_host w)) as Hg.
  destruct (Ept.new (w_host w)) as [[ept|e|] h'] eqn:Hn; simpl in Hg; [..|done].
  - pose proof (mapped_init (w_host w) ept h' Hn Hh) as Hinit.
    pose proof (triple_for_range num_pages _ _ _ (map_root_page_spec (w_host w)) (ept, h') Hinit) as Hr.
    unfold num_pages in Hr.
    destruct (for_range _ _ (ept, h')) as [[?|e|] [ept' h'']]; [..|done].
    + split; [by eapply (mapped_all (w_host w) (ept', h'') _ w)|].
      split; [apply (mu_keep _ _ _ Hr)|apply (mu_fresh _ _ _ Hr)].
    + destruct Hr as (Hh'' & Hgr & Hk & e' & ->). split; [|split; [done|eauto]].
      rewrite <-Hp. by apply world_ok_grows.
  - destruct Hs as [Hh' Hk]. split; [rewrite <-Hp; by apply world_ok_grows|].
    split; [by intros; rewrite Hk|eauto].
Qed.
End Root.

(** ** Hypervisor reads and writes *)
Section Bytes.
Implicit Types (phys : gmap Z (list Z)) (v : vm).

(** The [n] bytes a VM has from [gpa] on. *)
Definition bytes_at phys v gpa (n : nat) : option (list Z) := mapM (view phys v) (seqZ gpa (Z.of_nat n)).

Lemma page_bytes phys v gpa n fr bytes :
  0 ≤ gpa → page_offset gpa + Z.of_nat n ≤ PAGE_SIZE →
  read_page v gpa = Some fr → phys !! fr = Some bytes → Z.of_nat (length bytes) = PAGE_SIZE →
  bytes_at phys v gpa n = Some (take n (drop (Z.to_nat (page_offset gpa)) bytes)).
Proof.
  intros Hg Hn Hr Hb Hl. apply mapM_Some. destruct (page_split gpa Hg) as [Heq Hoff].
  unfold PAGE_SIZE in *. apply Forall2_same_length_lookup. split.
  { rewrite length_seqZ, length_take, length_drop. lia. }
  intros i a b Ha Hb'. apply lookup_seqZ in Ha as [-> Hi].
  apply lookup_take_Some in Hb' as [Hb' Hi']. rewrite lookup_drop in Hb'.
  assert (page_align (gpa + Z.of_nat i) = page_align gpa ∧
          page_offset (gpa + Z.of_nat i) = page_offset gpa + Z.of_nat i) as [Hpa Hpo].
  { rewrite !page_align_eq, !page_offset_eq in * by lia. Z.div_mod_to_equations. lia. }
  unfold view. rewrite <-read_page_align, Hpa, read_page_align, Hr, Hb. simpl. rewrite Hpo.
  rewrite <-Hb'. f_equal. lia.
Qed.

Lemma page_read_spec phys fr off n bytes :
  phys !! fr = Some bytes → off + Z.of_nat n ≤ Z.of_nat (length bytes) →
  page_read phys fr off n = Some (take n (drop (Z.to_nat off) bytes)).
Proof. intros Hb Hl. unfold page_read. rewrite Hb. simpl. by destruct (Z.leb_spec (off + Z.of_nat n) (Z.of_nat (length bytes))); [|lia]. Qed.

Lemma bytes_at_split phys v gpa n k :
  (k ≤ n)%nat → bytes_at phys v gpa n =
    (bs ← bytes_at phys v gpa k; rest ← bytes_at phys v (gpa + Z.of_nat k) (n - k); Some (bs ++ rest)).
Proof.
  intros Hk. unfold bytes_at.
  replace (Z.of_nat n) with (Z.of_nat k + Z.of_nat (n - k)) by lia.
  rewrite seqZ_app by lia. by rewrite mapM_app_option.
Qed.

Lemma forked_read_spec fuel phys cow parent gpa len :
  vm_ok phys (ForkedVm cow parent) → 0 ≤ gpa → (0 < len)%nat → (len < fuel)%nat →
  forked_read fuel phys cow parent gpa len =
    match bytes_at phys (ForkedVm cow parent) gpa len with Some bs => Done bs | None => Fail OutOfRange end.
Proof.
  intros Hok. revert gpa len. induction fuel as [|fuel IH]; intros gpa len Hg Hpos Hfuel; [lia|].
  cbn [forked_read]. destruct (page_split gpa Hg) as [Heq Hoff].
  assert (read_page (ForkedVm cow parent) gpa =
    match cow_get cow (page_align gpa) with Some p => Some p | None => read_page parent (page_align gpa) end) as Hrp by done.
  rewrite <-Hrp. clear Hrp. destruct (read_page (ForkedVm cow parent) gpa) as [fr|] eqn:Hr.
  2: { destruct (bytes_at phys (ForkedVm cow parent) gpa len) as [bs|] eqn:Hb; [|done]. exfalso.
       apply mapM_Some in Hb. rewrite seqZ_cons in Hb by lia. inversion Hb as [|x y l k Hv].
       unfold view in Hv. by rewrite Hr in Hv. }
  assert (data_page phys fr) as (_ & bytes & Hb & Hl) by (by apply (page_data phys (ForkedVm cow parent) gpa)).
  unfold PAGE_SIZE in *. case_decide as Hd.
  - rewrite (page_read_spec _ _ _ _ bytes) by (done || lia).
    by rewrite (page_bytes _ _ _ _ fr bytes) by (unfold PAGE_SIZE; done || lia).
  - rewrite (page_read_spec _ _ _ _ bytes) by (done || lia).
    rewrite (bytes_at_split _ _ _ _ (Z.to_nat (4096 - page_offset gpa))) by lia.
    rewrite (page_bytes phys (ForkedVm cow parent) gpa _ fr bytes) by (unfold PAGE_SIZE; done || lia). simpl.
    replace (gpa + Z.of_nat (Z.to_nat (4096 - page_offset gpa))) with (page_align gpa + 4096) by lia.
    rewrite IH by (pose proof (page_align_bounds gpa); lia).
    by destruct (bytes_at phys _ (page_align gpa + 4096) _).
Qed.

(** A write of the guest or the hypervisor into one owned page. *)
Section OwnWrite.
Context (phys : gmap Z (list Z)) (cow : CowPageMap) (parent : vm) (g fr : Z) (bytes bytes' : list Z).
Context (Hok : vm_ok phys (ForkedVm cow parent)) (Hg : cow_pages cow !! g = Some fr).
Context (Hb : phys !! fr = Some bytes) (Hlen : length bytes' = length bytes).

Lemma own_write_data fr' : data_page phys fr' → data_page (<[fr := bytes']> phys) fr'.
Proof.
  intros (Ha & b & Hb' & Hl). split; [done|]. destruct (decide (fr' = fr)) as [->|].
  - exists bytes'. rewrite lookup_insert_eq. split; [done|]. congruence.
  - exists b. by rewrite lookup_insert_ne.
Qed.

Lemma own_write_parent_frame a fr' :
  0 ≤ a < 2 ^ 48 → read_page parent a = Some fr' → fr' ≠ fr.
Proof. intros Ha Hr ->. destruct Hok as (_ & _ & Hpg & _). apply (Hpg g fr Hg). by exists a. Qed.

(** An ancestor does not see it. *)
Lemma own_write_parent a : 0 ≤ a < 2 ^ 48 → view (<[fr := bytes']> phys) parent a = view phys parent a.
Proof.
  intros Ha. unfold view. destruct (read_page parent a) as [fr'|] eqn:Hr; [|done].
  rewrite lookup_insert_ne; [done|]. apply not_eq_sym. by eapply own_write_parent_frame.
Qed.

Lemma own_write_self a : 0 ≤ a < 2 ^ 48 →
  view (<[fr := bytes']> phys) (ForkedVm cow parent) a =
    if decide (page_align a = g) then bytes' !! Z.to_nat (page_offset a)
    else view phys (ForkedVm cow parent) a.
Proof.
  intros Ha. unfold view. simpl. unfold cow_get. rewrite page_align_idem. case_decide as Hd.
  - rewrite Hd, Hg, lookup_insert_eq. done.
  - destruct (cow_pages cow !! page_align a) as [fr'|] eqn:Hc.
    + rewrite lookup_insert_ne; [done|]. intros <-. destruct Hok as (_ & _ & _ & Hinj).
      apply Hd. by eapply Hinj.
    + rewrite read_page_align. destruct (read_page parent a) as [fr'|] eqn:Hr; [|done].
      rewrite lookup_insert_ne; [done|]. apply not_eq_sym. by eapply own_write_parent_frame.
Qed.
End OwnWrite.

Lemma vm_ok_write phys fr bytes bytes' v :
  phys !! fr = Some bytes → length bytes' = length bytes →
  vm_ok phys v → vm_ok (<[fr := bytes']> phys) v.
Proof.
  intros Hb Hl. induction v as [memory|cow parent IH]; simpl.
  - intros [Hw Hbd Hp Hi]. constructor; [done..| |done]. intros off Ho Hoo.
    destruct (Hp off Ho Hoo) as (fr' & ? & ?). exists fr'. eauto using own_write_data.
  - intros (Hok & Hc & Hpg & Hinj). split_and!; [auto|done| |done].
    intros g fr' Hg. destruct (Hpg g fr' Hg) as (? & ? & ? & ? & ?).
    repeat (split; [done|]). eauto using own_write_data.
Qed.

Lemma page_write_spec phys fr off buf bytes :
  phys !! fr = Some bytes → 0 ≤ off → off + Z.of_nat (length buf) ≤ Z.of_nat (length bytes) →
  page_write phys fr off buf = Some (<[fr := list_inserts (Z.to_nat off) buf bytes]> phys).
Proof.
  intros Hb Ho Hl. unfold page_write. rewrite Hb. simpl.
  by destruct (Z.leb_spec (off + Z.of_nat (length buf)) (Z.of_nat (length bytes))); [|lia].
Qed.

(** The bytes after a write: [buf] at [gpa], the old ones elsewhere. *)
Definition overlay (old : Z → option Z) (gpa : Z) (buf : list Z) (a : Z) : option Z :=
  if decide (gpa ≤ a < gpa + Z.of_nat (length buf)) then buf !! Z.to_nat (a - gpa) else old a.

Lemma own_write_view phys cow parent gpa buf fr bytes :
  vm_ok phys (ForkedVm cow parent) → 0 ≤ gpa → page_offset gpa + Z.of_nat (length buf) ≤ PAGE_SIZE →
  cow_pages cow !! page_align gpa = Some fr → phys !! fr = Some bytes →
  ∀ a, 0 ≤ a < 2 ^ 48 →
    view (<[fr := list_inserts (Z.to_nat (page_offset gpa)) buf bytes]> phys) (ForkedVm cow parent) a =
    overlay (view phys (ForkedVm cow parent)) gpa buf a.
Proof.
  intros Hok Hg Hlen Hc Hb a Ha.
  assert (data_page phys fr) as (_ & b & Hb' & Hl).
  { destruct Hok as (_ & _ & Hpg & _). by destruct (Hpg _ _ Hc) as (_ & _ & _ & ? & _). }
  assert (b = bytes) as -> by congruence. unfold PAGE_SIZE in *.
  rewrite (own_write_self _ _ _ (page_align gpa)) by (done || rewrite length_inserts; done).
  destruct (page_split gpa Hg) as [Heq Hoff]. destruct (page_split a ltac:(lia)) as [Heqa Hoffa].
  unfold overlay. case_decide as Hd.
  - case_decide as Hr.
    + rewrite list_lookup_inserts by lia. f_equal. lia.
    + assert (view phys (ForkedVm cow parent) a = bytes !! Z.to_nat (page_offset a)) as ->.
      { unfold view. simpl. unfold cow_get. rewrite page_align_idem, Hd, Hc, Hb. done. }
      destruct (decide (page_offset a < page_offset gpa)).
      * apply list_lookup_inserts_lt. lia.
      * apply list_lookup_inserts_ge. lia.
  - rewrite decide_False; [done|]. intros Hr. apply Hd.
    rewrite !page_align_eq, !page_offset_eq in * by lia. Z.div_mod_to_equations. lia.
Qed.

Lemma overlay_ext old old' gpa buf a : old a = old' a → overlay old gpa buf a = overlay old' gpa buf a.
Proof. intros H. unfold overlay. by case_decide. Qed.

Lemma overlay_app old gpa b1 b2 a :
  overlay (overlay old gpa b1) (gpa + Z.of_nat (length b1)) b2 a = overlay old gpa (b1 ++ b2) a.
Proof.
  unfold overlay. rewrite length_app. repeat case_decide; try lia; [| |done].
  - rewrite lookup_app_r by lia. f_equal. lia.
  - rewrite lookup_app_l by lia. done.
Qed.

(** [forked_write] writes the bytes up to the first page the VM does not own:
    all of them, or it reports the missing page. *)
Definition forked_write_post phys cow parent gpa buf (r : outcome MemoryError () * gmap Z (list Z)) : Prop :=
  ∃ n, (n ≤ length buf)%nat ∧
    vm_ok r.2 (ForkedVm cow parent) ∧
    (∀ fr, (∀ g, cow_pages cow !! g ≠ Some fr) → r.2 !! fr = phys !! fr) ∧
    (∀ a, 0 ≤ a < 2 ^ 48 →
      view r.2 (ForkedVm cow parent) a = overlay (view phys (ForkedVm cow parent)) gpa (take n buf) a) ∧
    match r.1 with
    | Done _ => n = length buf ∧ (buf = [] ∨ gpa + Z.of_nat (length buf) ≤ 2 ^ 48)
    | Fail e => e = PermissionDenied ∧ cow_get cow (gpa + Z.of_nat n) = None
    | Stuck => False
    end.

Lemma forked_write_one phys cow parent gpa buf fr bytes :
  vm_ok phys (ForkedVm cow parent) → 0 ≤ gpa → page_offset gpa + Z.of_nat (length buf) ≤ PAGE_SIZE →
  cow_pages cow !! page_align gpa = Some fr → phys !! fr = Some bytes →
  let phys' := <[fr := list_inserts (Z.to_nat (page_offset gpa)) buf bytes]> phys in
  vm_ok phys' (ForkedVm cow parent) ∧
  (∀ fr', (∀ g, cow_pages cow !! g ≠ Some fr') → phys' !! fr' = phys !! fr') ∧
  ∀ a, 0 ≤ a < 2 ^ 48 →
    view phys' (ForkedVm cow parent) a = overlay (view phys (ForkedVm cow parent)) gpa buf a.
Proof.
  intros Hok Hg Hlen Hc Hb phys'. split_and!.
  - eapply vm_ok_write; [done| |done]. by rewrite length_inserts.
  - intros fr' Hn. apply lookup_insert_ne. intros <-. by apply (Hn (page_align gpa)).
  - by apply own_write_view.
Qed.

Lemma forked_write_spec fuel phys cow parent gpa buf :
  vm_ok phys (ForkedVm cow parent) → 0 ≤ gpa → (length buf < fuel)%nat →
  forked_write_post phys cow parent gpa buf (forked_write fuel phys cow gpa buf).
Proof.
  revert phys gpa buf. induction fuel as [|fuel IH]; intros phys gpa buf Hok Hg Hfuel; [lia|].
  cbn [forked_write]. destruct (page_split gpa Hg) as [Heq Hoff].
  destruct (cow_get cow (page_align gpa)) as [fr|] eqn:Hcg; unfold cow_get in Hcg; rewrite page_align_idem in Hcg.
  2: { exists 0%nat. cbn [fst snd]. rewrite take_0, Z.add_0_r. split; [lia|]. split; [done|]. split; [done|].
       split; [|done]. intros a Ha. unfold overlay. rewrite decide_False; [done|]. simpl. lia. }
  assert (data_page phys fr ∧ page_align gpa + 4096 ≤ 2 ^ 48) as [(_ & bytes & Hb & Hl) Hend].
  { destruct Hok as (_ & _ & Hpg & _). destruct (Hpg _ _ Hcg) as (? & _ & _ & ? & _). split; [done|].
    rewrite page_align_eq in * by lia. Z.div_mod_to_equations. lia. }
  unfold PAGE_SIZE in *. case_decide as Hd.
  - rewrite (page_write_spec _ _ _ _ bytes) by (done || lia).
    destruct (forked_write_one phys cow parent gpa buf fr bytes) as (? & ? & ?); try (done || unfold PAGE_SIZE; lia).
    exists (length buf). rewrite take_ge by done. split; [done|]. split; [done|]. split; [done|]. split; [done|].
    split; [done|]. right. lia.
  - set (k := Z.to_nat (4096 - page_offset gpa)) in *.
    assert (length (take k buf) = k) as Hk by (rewrite length_take; lia).
    rewrite (page_write_spec _ _ _ _ bytes) by (done || lia).
    destruct (forked_write_one phys cow parent gpa (take k buf) fr bytes) as (Hok1 & Hfr1 & Hv1); try (done || unfold PAGE_SIZE; lia).
    set (phys1 := <[fr := _]> phys) in *.
    destruct (IH phys1 (page_align gpa + 4096) (drop k buf)) as (n & Hn & Hok2 & Hfr2 & Hv2 & Hr); [done|..].
    { pose proof (page_align_bounds gpa). lia. }
    { rewrite length_drop. lia. }
    replace (page_align gpa + 4096) with (gpa + Z.of_nat k) in * by lia.
    rewrite length_drop in Hn. exists (k + n)%nat. split; [lia|]. split; [done|]. split_and!.
    + intros fr' Hn'. rewrite Hfr2 by done. by apply Hfr1.
    + intros a Ha. rewrite Hv2 by done.
      replace (take (k + n) buf) with (take k buf ++ take n (drop k buf)) by (by rewrite take_take_drop).
      rewrite <-overlay_app, Hk. apply overlay_ext. by apply Hv1.
    + destruct (forked_write fuel phys1 cow (gpa + Z.of_nat k) (drop k buf)).1; [|..|done].
      * rewrite length_drop in Hr. destruct Hr as [-> Hr]. split; [lia|]. right.
        destruct Hr as [Hr|Hr]; [apply (f_equal length) in Hr; rewrite length_drop in Hr; simpl in Hr|]; lia.
      * destruct Hr as [-> Hr]. split; [done|]. rewrite <-Hr. f_equal. lia.
Qed.

(** *** The root's accessors *)

Lemma root_page memory phys a :
  mem_ok phys memory → 0 ≤ a < mem_size memory →
  page_align a + PAGE_SIZE ≤ mem_size memory ∧ 0 ≤ page_align a < mem_size memory ∧ page_align a mod PAGE_SIZE = 0.
Proof.
  intros [Hw Hb _ _] Ha. rewrite page_align_eq by lia. unfold PAGE_SIZE in *.
  pose proof (Z_div_mod_eq_full a 4096). pose proof (Z.mod_pos_bound a 4096). split_and!.
  - Z.div_mod_to_equations. lia.
  - Z.div_mod_to_equations. lia.
  - Z.div_mod_to_equations. lia.
  - rewrite Z.mul_comm. by apply Z.mod_mul.
Qed.

Lemma mem_byte_view phys memory a :
  mem_ok phys memory → 0 ≤ a < mem_size memory →
  mem_byte phys memory a = view phys (RootVm memory) a ∧ is_Some (mem_byte phys memory a).
Proof.
  intros Hok Ha. destruct (root_page _ _ a Hok Ha) as (Hp & Hr & Hm).
  destruct (mem_page _ _ Hok _ Hr Hm) as (fr & Hfr & _ & bytes & Hb & Hl).
  unfold mem_byte, view. rewrite (root_reads phys), (proj2 (Z.leb_le _ _) Hp), Hfr by (done || lia). simpl. rewrite Hb. simpl.
  split; [done|]. apply lookup_lt_is_Some. destruct (page_split a ltac:(lia)). unfold PAGE_SIZE in *. lia.
Qed.

Lemma view_out_of_range phys memory a :
  mem_ok phys memory → mem_size memory ≤ a → view phys (RootVm memory) a = None.
Proof.
  intros Hok Ha. pose proof Hok as [Hw Hb _ _]. unfold view. rewrite (root_reads phys), page_align_eq by (done || lia). unfold PAGE_SIZE in *.
  destruct (Z.leb_spec (4096 * (a / 4096) + 4096) (mem_size memory)); [|done].
  Z.div_mod_to_equations. lia.
Qed.

Lemma root_read_spec phys memory gpa len :
  mem_ok phys memory → 0 ≤ gpa → (0 < len)%nat →
  root_read phys memory gpa len =
    match bytes_at phys (RootVm memory) gpa len with Some bs => Done bs | None => Fail OutOfRange end.
Proof.
  intros Hok Hg Hl. unfold root_read, root_in_range. pose proof (mem_bound _ _ Hok).
  destruct (Z.leb_spec (gpa + Z.of_nat len) (mem_size memory)) as [Hr|Hr].
  - assert (gpa + Z.of_nat len <= u64_MAX) as Hu by (unfold u64_MAX; lia).
    rewrite (proj2 (Z.leb_le _ _) Hu). simpl. unfold bytes_at.
    assert (mapM (mem_byte phys memory) (seqZ gpa (Z.of_nat len)) = mapM (view phys (RootVm memory)) (seqZ gpa (Z.of_nat len))) as ->.
    { apply Forall_mapM_ext. apply Forall_forall. intros a Ha%elem_of_seqZ.
      apply mem_byte_view; [done|lia]. }
    destruct (mapM (view phys (RootVm memory)) (seqZ gpa (Z.of_nat len))) eqn:Hm; [done|].
    apply mapM_None, Exists_exists in Hm as (a & Ha%elem_of_seqZ & Hn).
    destruct (mem_byte_view phys memory a Hok ltac:(lia)) as [He [x Hx]]. congruence.
  - rewrite andb_false_r. destruct (bytes_at phys (RootVm memory) gpa len) as [bs|] eqn:Hb; [|done].
    apply mapM_Some in Hb. exfalso.
    assert (seqZ gpa (Z.of_nat len) !! (len - 1)%nat = Some (gpa + Z.of_nat len - 1)) as Hlast
      by (apply lookup_seqZ; lia).
    destruct (Forall2_lookup_l _ _ _ _ _ Hb Hlast) as (y & _ & Hy).
    rewrite view_out_of_range in Hy; [done|done|lia].
Qed.

Lemma mem_set_byte_spec phys memory off b :
  mem_ok phys memory → 0 ≤ off < mem_size memory →
  ∃ phys', mem_set_byte phys memory off b = Some phys' ∧ mem_ok phys' memory ∧
    (∀ fr, ¬ frame_of (RootVm memory) fr → phys' !! fr = phys !! fr) ∧
    ∀ a, 0 ≤ a < 2 ^ 48 → view phys' (RootVm memory) a = overlay (view phys (RootVm memory)) off [b] a.
Proof.
  intros Hok Ho. destruct (root_page _ _ off Hok Ho) as (Hp & Hr & Hm).
  destruct (mem_page _ _ Hok _ Hr Hm) as (fr & Hfr & _ & bytes & Hb & Hl).
  unfold mem_set_byte. rewrite Hfr. simpl. rewrite Hb. simpl. eexists. split; [done|].
  destruct (page_split off ltac:(lia)) as [Heq Hoff]. unfold PAGE_SIZE in *.
  assert (read_page (RootVm memory) off = Some fr) as Hrp.
  { rewrite (root_reads phys) by (done || lia). unfold PAGE_SIZE. by rewrite (proj2 (Z.leb_le _ _) Hp). }
  pose proof (mem_bound _ _ Hok). split_and!.
  - apply (vm_ok_write phys fr bytes _ (RootVm memory)); [done|by rewrite length_insert|done].
  - intros fr' Hn. apply lookup_insert_ne. intros <-. apply Hn. exists off. split; [lia|done].
  - intros a Ha. unfold overlay. simpl length. case_decide as Hd.
    + assert (a = off) as -> by lia. replace (off - off) with 0 by lia. unfold view. rewrite Hrp, lookup_insert_eq. simpl.
      apply list_lookup_insert_eq. lia.
    + unfold view. destruct (read_page (RootVm memory) a) as [fr'|] eqn:Hra; [|done].
      destruct (decide (fr' = fr)) as [->|Hne]; [|by rewrite lookup_insert_ne].
      rewrite lookup_insert_eq, Hb. simpl.
      assert (page_align a = page_align off) as Hpa.
      { rewrite (root_reads phys) in Hra by (done || lia). unfold PAGE_SIZE in *. destruct (Z.leb_spec (page_align a + 4096) (mem_size memory)); [|done].
        pose proof (page_align_bounds a ltac:(lia)).
        apply (mem_inj _ _ Hok _ _ fr); [lia|lia| |done|done|done].
        rewrite page_align_eq by lia. rewrite Z.mul_comm. unfold PAGE_SIZE. by apply Z.mod_mul. }
      destruct (page_split a ltac:(lia)). rewrite list_lookup_insert_ne; [done|]. lia.
Qed.

Lemma mem_set_bytes_spec phys memory off buf :
  mem_ok phys memory → 0 ≤ off → off + Z.of_nat (length buf) ≤ mem_size memory →
  ∃ phys', mem_set_bytes phys memory off buf = Some phys' ∧ mem_ok phys' memory ∧
    (∀ fr, ¬ frame_of (RootVm memory) fr → phys' !! fr = phys !! fr) ∧
    ∀ a, 0 ≤ a < 2 ^ 48 → view phys' (RootVm memory) a = overlay (view phys (RootVm memory)) off buf a.
Proof.
  revert phys off. induction buf as [|b buf IH]; intros phys off Hok Ho Hle; simpl in *.
  { exists phys. split_and!; try done. intros a Ha. unfold overlay. rewrite decide_False; [done|simpl; lia]. }
  destruct (mem_set_byte_spec phys memory off b Hok ltac:(lia)) as (phys1 & -> & Hok1 & Hfr1 & Hv1).
  destruct (IH phys1 (off + 1) Hok1) as (phys2 & Hp2 & Hok2 & Hfr2 & Hv2); [lia|lia|].
  exists phys2. split; [done|]. split; [done|]. split.
  - intros fr Hn. rewrite Hfr2 by done. by apply Hfr1.
  - intros a Ha. rewrite Hv2 by done. rewrite (overlay_ext _ _ _ _ _ (Hv1 a Ha)).
    change (off + 1) with (off + Z.of_nat (length [b])). apply overlay_app.
Qed.
Lemma read_view phys v gpa len :
  vm_ok phys v → 0 ≤ gpa → (0 < len)%nat →
  read_guest_memory phys v gpa len = match bytes_at phys v gpa len with Some bs => Done bs | None => Fail OutOfRange end.
Proof.
  intros Hok Hg Hl. destruct v as [memory|cow parent]; cbn [read_guest_memory]; [by apply root_read_spec|].
  apply forked_read_spec; [done|done|done|lia].
Qed.

Definition write_post phys v gpa buf (res : outcome MemoryError () * gmap Z (list Z)) : Prop :=
  let '(r, phys') := res in
  vm_ok phys' v ∧
  (∀ fr, match v with
         | RootVm _ => ¬ frame_of v fr
         | ForkedVm cow _ => ∀ g, cow_pages cow !! g ≠ Some fr
         end → phys' !! fr = phys !! fr) ∧
  ∃ n, (n ≤ length buf)%nat ∧
    (∀ a, 0 ≤ a < 2 ^ 48 → view phys' v a = overlay (view phys v) gpa (take n buf) a) ∧
    match r, v with
    | Done _, _ => n = length buf ∧ (buf = [] ∨ gpa + Z.of_nat (length buf) ≤ 2 ^ 48)
    | Fail e, RootVm memory => e = OutOfRange ∧ n = 0%nat ∧ mem_size memory < gpa + Z.of_nat (length buf)
    | Fail e, ForkedVm cow _ => e = PermissionDenied ∧ cow_get cow (gpa + Z.of_nat n) = None
    | Stuck, _ => False
    end.

Lemma write_memory_view phys v gpa buf : vm_ok phys v → 0 ≤ gpa → write_post phys v gpa buf (write_guest_memory phys v gpa buf).
Proof.
  intros Hok Hg. unfold write_post. destruct v as [memory|cow parent]; cbn [write_guest_memory].
  - unfold root_write, root_in_range. pose proof (mem_bound _ _ Hok).
    destruct (Z.leb_spec (gpa + Z.of_nat (length buf)) (mem_size memory)).
    + assert (gpa + Z.of_nat (length buf) <= u64_MAX) as Hu by (unfold u64_MAX; lia).
      rewrite (proj2 (Z.leb_le _ _) Hu), andb_true_l.
      destruct (mem_set_bytes_spec phys memory gpa buf Hok Hg) as (phys' & -> & ? & ? & ?); [done|].
      split; [done|]. split; [done|]. exists (length buf). rewrite take_ge by done. split; [done|]. split; [done|]. split; [done|]. right. lia.
    + rewrite andb_false_r. split; [done|]. split; [done|]. exists 0%nat. rewrite take_0. split; [lia|]. split; [|done].
      intros a Ha. unfold overlay. rewrite decide_False; [done|]. simpl. lia.
  - destruct (forked_write_spec (S (length buf)) phys cow parent gpa buf Hok Hg) as (n & ? & ? & ? & ? & Hr); [lia|].
    destruct (forked_write (S (length buf)) phys cow gpa buf) as [r phys']. cbn [fst snd] in *.
    split; [done|]. split; [done|]. exists n. split; [done|]. split; [done|]. by destruct r.
Qed.
End Bytes.

(** ** What the guest sees

    A guest access goes through the page table in hardware: a load needs a
    present leaf, a store one with the write permission. *)
Section Hardware.
Context {F : Type}.
Implicit Types (T phys : gmap Z (list Z)) (ept : EptPageTable F).

Definition guest_load T ept phys gpa : option Z :=
  match leaf T (pml4_phys ept) gpa with
  | Some e => phys !! entry_addr e ≫= λ bytes, bytes !! Z.to_nat (page_offset gpa)
  | None => None
  end.

Definition guest_store T ept phys gpa (b : Z) : option (gmap Z (list Z)) :=
  match leaf T (pml4_phys ept) gpa with
  | Some e =>
      if Z.testbit (entry_permissions e) 1 then
        bytes ← phys !! entry_addr e;
        Some (<[entry_addr e := <[Z.to_nat (page_offset gpa) := b]> bytes]> phys)
      else None
  | None => None
  end.

Lemma expected_not_mmio v gpa :
  is_mmio (page_align gpa) = false → fst <$> expected v gpa = read_page v gpa.
Proof.
  intros Hm. revert gpa Hm. induction v as [memory|cow parent IH]; intros gpa Hm; simpl.
  - rewrite Hm. case_match; [|done]. by destruct (frame_at memory (page_align gpa)).
  - rewrite Hm. unfold cow_get. rewrite page_align_idem. destruct (cow_pages cow !! page_align gpa); [done|].
    rewrite read_page_align, <-IH by done. by destruct (expected parent gpa) as [[]|].
Qed.

Lemma guest_load_view {A E} `{!FrameAllocator A F E} `{!FrameAllocatorSpec A F E} (w : world A) ept v gpa :
  vm_inv w ept v → 0 ≤ gpa < 2 ^ 48 → is_mmio (page_align gpa) = false →
  guest_load (tables (w_host w)) ept (w_phys w) gpa = view (w_phys w) v gpa.
Proof.
  intros Hinv Hg Hm. unfold guest_load, view. rewrite <-expected_not_mmio, <-(vi_coherent _ _ _ Hinv) by done.
  by destruct (leaf (tables (w_host w)) (pml4_phys ept) gpa).
Qed.

(** A page is writable exactly when it is the fork's own. *)
Lemma guest_store_owned {A E} `{!FrameAllocator A F E} `{!FrameAllocatorSpec A F E}
    (w : world A) ept cow parent gpa b :
  vm_inv w ept (ForkedVm cow parent) → 0 ≤ gpa < 2 ^ 48 →
  guest_store (tables (w_host w)) ept (w_phys w) gpa b =
    match (if is_mmio (page_align gpa) then None else cow_pages cow !! page_align gpa) with
    | Some fr => bytes ← w_phys w !! fr; Some (<[fr := <[Z.to_nat (page_offset gpa) := b]> bytes]> (w_phys w))
    | None => None
    end.
Proof.
  intros Hinv Hg. unfold guest_store. pose proof (vi_coherent _ _ _ Hinv gpa Hg) as Hc.
  simpl in Hc. unfold cow_get in Hc. destruct (is_mmio (page_align gpa)).
  { by destruct (leaf (tables (w_host w)) (pml4_phys ept) gpa). }
  destruct (cow_pages cow !! page_align gpa) as [fr|] eqn:Hcg.
  - destruct (leaf (tables (w_host w)) (pml4_phys ept) gpa) as [e|]; [|done].
    simpl in Hc. unfold translate in Hc. injection Hc as -> ->. done.
  - destruct (leaf (tables (w_host w)) (pml4_phys ept) gpa) as [e|]; [|done].
    destruct (expected parent gpa) as [[fr p]|]; [|done].
    simpl in Hc. unfold translate in Hc. injection Hc as _ ->. done.
Qed.
End Hardware.

(** ** Theorems *)
Section Theorems.
Context {A F E : Type} `{!FrameAllocator A F E} `{!FrameAllocatorSpec A F E}
  `{!CowAllocator A F E} `{!CowAllocatorSpec A F E}.
Implicit Types (f : forked F) (w : world A) (ept : EptPageTable F) (v : vm).

(** Creating a root VM maps every whole page of its memory, except the two
    MMIO pages, to its own frame with all permissions and nothing else; it fails
    only when the allocator does, and never touches tables in use. *)
Theorem root_ept_new_correct w memory :
  world_ok w → mem_ok (w_phys w) memory →
  match root_ept_new (F:=F) memory (w_host w) with
  | (Done ept, h') =>
      vm_inv (mkWorld h' (w_phys w) (w_invept w)) ept (RootVm memory) ∧
      (∀ t, t ∈ phys_of (ept_frames ept) → tables (w_host w) !! t = None) ∧
      ∀ gpa, 0 ≤ gpa < 2 ^ 48 → lookup (tables h') ept gpa =
        Done (if is_mmio (page_align gpa) || negb (gpa <? mem_size memory) then None
              else (λ fr, (fr, READ_WRITE_EXECUTE)) <$> page_phys_addr memory (page_align gpa))
  | (Fail e, h') =>
      world_ok (mkWorld h' (w_phys w) (w_invept w)) ∧ ∃ e', e = EptCreation e' ∨ e = EptMapping e'
  | (Stuck, _) => False
  end.
Proof.
  intros Hw Hm. pose proof (root_ept_new_spec (F:=F) (w_phys w) memory Hm w Hw eq_refl) as Hs.
  destruct (root_ept_new memory (w_host w)) as [[ept|e|] h']; simpl in Hs; [..|done].
  - destruct Hs as (Hinv & _ & Hfresh). split; [done|]. split; [done|]. intros gpa Hg.
    pose proof (vi_ept _ _ _ Hinv) as Hwf. rewrite lookup_wf by exact Hwf.
    pose proof (vi_coherent _ _ _ Hinv gpa Hg) as Hc. simpl in Hc. rewrite Hc.
    pose proof (root_reads (w_phys w) memory gpa Hm ltac:(lia)) as Hrp. cbn [read_page] in Hrp. rewrite Hrp.
    destruct (is_mmio (page_align gpa)); [done|]. simpl. pose proof (mem_bound _ _ Hm).
    destruct (Z.ltb_spec gpa (mem_size memory)) as [Hlt|Hge]; simpl.
    + destruct (root_page _ _ gpa Hm ltac:(lia)) as (Hp & _).
      by rewrite (proj2 (Z.leb_le _ _) Hp).
    + destruct (Z.leb_spec (page_align gpa + PAGE_SIZE) (mem_size memory)) as [Hl|]; [|done].
      pose proof (page_align_bounds gpa). unfold PAGE_SIZE in *. lia.
  - destruct Hs as (? & _ & ?). done.
Qed.

(** A fork begins with exactly its parent's memory, through a page table of
    its own in which it can write no page (the I/O page excepted, which it then
    owns); the parent keeps its invariant, its tables and its data, also when
    the fork fails. *)
Theorem fork_new_correct w parent_ept parent vmcs_ok state_ok io :
  vm_inv w parent_ept parent → io_page_ok parent io →
  match fork_new parent_ept parent vmcs_ok state_ok io w with
  | (Done f, w') =>
      vm_inv w' (fk_ept f) (as_vm f) ∧ vm_inv w' parent_ept parent ∧ kept w w' ∧
      (∀ gpa, 0 ≤ gpa < 2 ^ 48 → view (w_phys w') (as_vm f) gpa = view (w_phys w) parent gpa) ∧
      (∀ gpa, 0 ≤ gpa < 2 ^ 48 → is_mmio (page_align gpa) = false →
        guest_load (tables (w_host w')) (fk_ept f) (w_phys w') gpa =
        guest_load (tables (w_host w)) parent_ept (w_phys w) gpa) ∧
      (∀ g fr, cow_pages (fk_cow f) !! g = Some fr → w_phys w !! fr = None)
  | (Fail _, w') => vm_inv w' parent_ept parent ∧ kept w w'
  | (Stuck, _) => False
  end.
Proof.
  intros Hinv Hio. pose proof (fork_new_spec w parent_ept parent vmcs_ok state_ok io Hinv Hio) as Hs.
  destruct (fork_new _ _ _ _ _ _) as [[f|e|] w']; simpl in Hs; [|done..].
  destruct Hs as (Hf & Hp & Hk & _ & Hv & _ & Hcow). split_and!; try done.
  intros gpa Hg Hm. rewrite (guest_load_view w' (fk_ept f) (as_vm f)), (guest_load_view w parent_ept parent) by done.
  by apply Hv.
Qed.


(** The hypervisor reads exactly the bytes the guest would load through its
    page table, and reports [OutOfRange] when one of them does not exist. *)
Theorem read_guest_memory_correct w ept v gpa len :
  vm_inv w ept v → 0 ≤ gpa → gpa + Z.of_nat len ≤ 2 ^ 48 → (0 < len)%nat →
  (∀ a, gpa ≤ a < gpa + Z.of_nat len → is_mmio (page_align a) = false) →
  read_guest_memory (w_phys w) v gpa len =
    match mapM (guest_load (tables (w_host w)) ept (w_phys w)) (seqZ gpa (Z.of_nat len)) with
    | Some bs => Done bs
    | None => Fail OutOfRange
    end.
Proof.
  intros Hinv Hg Hle Hpos Hm.
  assert (mapM (guest_load (tables (w_host w)) ept (w_phys w)) (seqZ gpa (Z.of_nat len)) =
    bytes_at (w_phys w) v gpa len) as ->.
  { apply Forall_mapM_ext, Forall_forall. intros a Ha%elem_of_seqZ.
    apply guest_load_view; [done|lia|]. apply Hm. lia. }
  apply read_view; [apply Hinv|done|done].
Qed.

(** C36: A hypervisor write puts the bytes at their place in the VM's memory and
    changes no other byte of it; it never writes a page that is not the VM's
    own.  A write that succeeds lies below 2^48.  A root refuses a write out of
    range as a whole; a fork writes the bytes before the first page it does not
    own and reports that page. *)
Theorem write_guest_memory_correct phys v gpa buf :
  vm_ok phys v → 0 ≤ gpa →
  let '(r, phys') := write_guest_memory phys v gpa buf in
  vm_ok phys' v ∧
  (∀ fr, match v with
         | RootVm _ => ¬ frame_of v fr
         | ForkedVm cow _ => ∀ g, cow_pages cow !! g ≠ Some fr
         end → phys' !! fr = phys !! fr) ∧
  ∃ n, (n ≤ length buf)%nat ∧
    (∀ a, 0 ≤ a < 2 ^ 48 → view phys' v a = overlay (view phys v) gpa (take n buf) a) ∧
    match r, v with
    | Done _, _ => n = length buf ∧ (buf = [] ∨ gpa + Z.of_nat (length buf) ≤ 2 ^ 48)
    | Fail e, RootVm memory => e = OutOfRange ∧ n = 0%nat ∧ mem_size memory < gpa + Z.of_nat (length buf)
    | Fail e, ForkedVm cow _ => e = PermissionDenied ∧ cow_get cow (gpa + Z.of_nat n) = None
    | Stuck, _ => False
    end.
Proof. intros Hok Hg. by apply (write_memory_view phys v gpa buf). Qed.
End Theorems.

(** *** Concrete runs: a root of two pages and a fork of it *)
#[export] Instance bump_cow_allocator : CowAllocator bump Z () := {
  allocate_cow_page a := allocate_frame a;
  alloc_node a := (true, a);
}.

#[export] Program Instance bump_cow_allocator_spec : CowAllocatorSpec bump Z ().
Next Obligation.
  intros a p a' H. destruct (allocate_frame_ok (F:=Z) (E:=()) a p a' H) as [H1 H2]. split; [exact H1|].
  intros q Hq. split; apply H2, Hq.
Qed.
Next Obligation. intros a e a' H q Hq. by eapply (allocate_frame_err (F:=Z)). Qed.
Next Obligation. done. Qed.

Definition demo_memory : GuestMemory :=
  mkMem 8192 (λ off, if off =? 0 then Some 0x1000 else if off =? 4096 then Some 0x2000 else None).
Definition demo_phys : gmap Z (list Z) :=
  <[0x1000 := replicate 4096 1]> {[0x2000 := replicate 4096 2]}.
Definition demo_world : world bump := mkWorld (mkHost (mkBump 3 64) ∅) demo_phys [].

Lemma demo_page off : 0 ≤ off < 8192 → off mod 4096 = 0 → off = 0 ∨ off = 4096.
Proof. intros. Z.to_euclidean_division_equations. lia. Qed.

Lemma demo_mem_ok : mem_ok demo_phys demo_memory.
Proof.
  constructor; simpl; [done|lia|..].
  - intros off H1 H2. destruct (demo_page off H1 H2) as [->| ->]; simpl; eexists; (split; [done|]);
      (split; [split; [split; lia|done]|]); unfold demo_phys.
    + exists (replicate 4096 1). by rewrite lookup_insert_eq, length_replicate.
    + exists (replicate 4096 2). by rewrite lookup_insert_ne, lookup_singleton_eq, length_replicate.
  - intros off off' fr H1 H2 H3 H4.
    destruct (demo_page off H1 H3) as [->| ->], (demo_page off' H2 H4) as [->| ->]; simpl; congruence.
Qed.

Lemma demo_world_ok : world_ok demo_world.
Proof.
  constructor; simpl; [done| |done]. intros p (k & -> & ? & ?). simpl in *. unfold demo_phys.
  rewrite lookup_insert_ne, lookup_singleton_ne by lia. done.
Qed.

Lemma root_ept_new_witness : ∃ ept h',
  root_ept_new demo_memory (w_host demo_world) = (Done ept, h') ∧
  lookup (tables h') ept 0x1234 = Done (Some (0x2000, 7)) ∧ lookup (tables h') ept 0x2000 = Done None.
Proof.
  pose proof (root_ept_new_correct (F:=Z) (E:=()) demo_world demo_memory demo_world_ok demo_mem_ok) as H.
  assert (match (root_ept_new (F:=Z) (E:=()) demo_memory (w_host demo_world)).1 with Done _ => true | _ => false end = true)
    as Hd by (vm_compute; reflexivity).
  destruct (root_ept_new demo_memory (w_host demo_world)) as [[ept|e|] h']; [|discriminate Hd|discriminate Hd].
  exists ept, h'. split; [reflexivity|]. destruct H as (_ & _ & Hl).
  split; [rewrite (Hl 0x1234)|rewrite (Hl 0x2000)]; reflexivity || lia.
Defined.

Definition demo_root : EptPageTable Z :=
  match root_ept_new demo_memory (w_host demo_world) with (Done ept, _) => ept | _ => mkEpt 0 [] end.
Definition demo_root_world : world bump :=
  mkWorld (root_ept_new (F:=Z) (E:=()) demo_memory (w_host demo_world)).2 demo_phys [].

Lemma demo_root_inv : vm_inv demo_root_world demo_root (RootVm demo_memory).
Proof.
  pose proof (root_ept_new_spec (F:=Z) (E:=()) demo_phys demo_memory demo_mem_ok demo_world demo_world_ok eq_refl) as H.
  assert (match (root_ept_new (F:=Z) (E:=()) demo_memory (w_host demo_world)).1 with Done _ => true | _ => false end = true)
    as Hd by (vm_compute; reflexivity).
  unfold demo_root_world, demo_root.
  destruct (root_ept_new demo_memory (w_host demo_world)) as [[ept|e|] h']; [|discriminate Hd|discriminate Hd].
  apply H.
Qed.

Lemma fork_new_witness : ∃ f w',
  fork_new demo_root (RootVm demo_memory) true true 0 demo_root_world = (Done f, w') ∧
  guest_load (tables (w_host w')) (fk_ept f) (w_phys w') 0x1234 = Some 2.
Proof.
  pose proof (fork_new_correct demo_root_world demo_root (RootVm demo_memory) true true 0
    demo_root_inv (or_introl eq_refl)) as H.
  assert (match (fork_new demo_root (RootVm demo_memory) true true 0 demo_root_world).1 with Done _ => true | _ => false end = true)
    as Hd by (vm_compute; reflexivity).
  assert (guest_load (tables (w_host demo_root_world)) demo_root demo_phys 0x1234 = Some 2)
    as Hl by (vm_compute; reflexivity).
  destruct (fork_new _ _ _ _ _ _) as [[f|e|] w']; [|discriminate Hd|discriminate Hd].
  exists f, w'. split; [reflexivity|]. destruct H as (_ & _ & _ & _ & Hg & _).
  rewrite (Hg 0x1234), <-Hl; [reflexivity|lia|reflexivity].
Defined.

Definition demo_fork : forked Z * world bump :=
  match fork_new demo_root (RootVm demo_memory) true true 0 demo_root_world with
  | (Done f, w') => (f, w')
  | (_, w') => (mkForked demo_root cow_new (RootVm demo_memory) 0, w')
  end.

Lemma demo_fork_inv : vm_inv demo_fork.2 (fk_ept demo_fork.1) (ForkedVm (fk_cow demo_fork.1) (RootVm demo_memory)).
Proof.
  pose proof (fork_new_spec demo_root_world demo_root (RootVm demo_memory) true true 0
    demo_root_inv (or_introl eq_refl)) as H.
  assert (match (fork_new demo_root (RootVm demo_memory) true true 0 demo_root_world).1 with Done _ => true | _ => false end = true)
    as Hd by (vm_compute; reflexivity).
  unfold demo_fork. destruct (fork_new _ _ _ _ _ _) as [[f|e|] w']; [|discriminate Hd|discriminate Hd].
  destruct H as (H & _ & _ & Hp & _). unfold as_vm in H. by rewrite Hp in H.
Qed.

Definition demo_forked : forked Z := mkForked (fk_ept demo_fork.1) (fk_cow demo_fork.1) (RootVm demo_memory) 0.


Lemma read_guest_memory_witness :
  read_guest_memory demo_phys (RootVm demo_memory) 4094 4 = Done [1; 1; 2; 2].
Proof.
  change demo_phys with (w_phys demo_root_world).
  rewrite (read_guest_memory_correct demo_root_world demo_root (RootVm demo_memory) 4094 4
    demo_root_inv ltac:(lia) ltac:(lia) ltac:(lia)); [vm_compute; reflexivity|].
  intros a Ha. assert (a = 4094 ∨ a = 4095 ∨ a = 4096 ∨ a = 4097) as [->|[->|[->| ->]]] by lia; reflexivity.
Defined.

Lemma write_guest_memory_witness : ∃ phys',
  write_guest_memory demo_phys (RootVm demo_memory) 4095 [7; 8] = (Done tt, phys') ∧
  view phys' (RootVm demo_memory) 4096 = Some 8 ∧ view phys' (RootVm demo_memory) 4097 = Some 2.
Proof.
  pose proof (write_guest_memory_correct demo_phys (RootVm demo_memory) 4095 [7; 8]
    demo_mem_ok ltac:(lia)) as H.
  assert ((write_guest_memory demo_phys (RootVm demo_memory) 4095 [7; 8]).1 = Done tt) as Hd by (vm_compute; reflexivity).
  destruct (write_guest_memory demo_phys (RootVm demo_memory) 4095 [7; 8]) as [r phys']. simpl in Hd. subst r.
  destruct H as (_ & _ & n & _ & Hv & -> & _). exists phys'. split; [reflexivity|].
  rewrite (Hv 4096), (Hv 4097) by lia. split; vm_compute; reflexivity.
Defined.
