(* ===== verification/ForkTree.v ===== *)
(** * The fork hierarchy at run time (crates [bedrock-vmx]: [vm/*.rs],
    and [bedrock]: [bedrock_main.rs], [vm_file/handlers.rs])

    The kernel module keeps any number of root and forked VMs over one host.  A
    fork points at its parent, so the parent must not change while it has
    children: the RUN ioctl refuses a VM whose [children_count] is not zero.
    Here the VMs are the nodes of a finite map, the operations are the steps of
    a transition system, and the theorem is isolation: nothing one VM does is
    visible in the memory of another, over any sequence of steps in which no VM
    is forked while it runs.  The last section shows that this proviso, which
    the fork path does not check, is needed. *)
From S2P Require Import Prelude Addr Ept VmMemory.

Inductive kind := KRoot (memory : GuestMemory) | KFork (cow : CowPageMap) (parent : nat).

Section Tree.
Context {A F E : Type} `{!FrameAllocator A F E} `{!FrameAllocatorSpec A F E}
  `{!CowAllocator A F E} `{!CowAllocatorSpec A F E}.

Record node := mkNode {
  n_kind : kind;
  n_ept : EptPageTable F;
  n_children : Z;
  n_running : bool;
}.
Record sys := mkSys { nodes : gmap nat node; wrld : world A }.
Implicit Types (ns : gmap nat node) (n : node) (s : sys) (w : world A) (v : vm).

(** [ForkableVm::can_run], [add_child], [remove_child]. *)
Definition can_run n : bool := n_children n =? 0.
Definition add_child n : node := mkNode (n_kind n) (n_ept n) (n_children n + 1) (n_running n).
Definition remove_child n : node := mkNode (n_kind n) (n_ept n) (n_children n - 1) (n_running n).
Definition set_running (b : bool) n : node := mkNode (n_kind n) (n_ept n) (n_children n) b.

Definition parent_id n : option nat := match n_kind n with KRoot _ => None | KFork _ p => Some p end.

(** The VM a node stands for: its map over the chain of its ancestors. *)
Inductive denotes ns : nat → vm → Prop :=
| den_root id n memory :
    ns !! id = Some n → n_kind n = KRoot memory → denotes ns id (RootVm memory)
| den_fork id n cow p v :
    ns !! id = Some n → n_kind n = KFork cow p → denotes ns p v → denotes ns id (ForkedVm cow v).

(** What one VM does to the system. *)
Inductive label :=
| NewRoot (id : nat)
| RunBegin (id : nat) | RunEnd (id : nat)
| CowFault (id : nat) (gpa : Z)
| GuestStore (id : nat) (gpa b : Z)
| Fork (parent id : nat) | ForkFailed (parent : nat)
| DropVm (id : nat).

Inductive step s : label → sys → Prop :=
(** [CREATE_ROOT_VM]: the memory is freshly allocated pages. *)
| step_new_root id memory phys1 ept h' :
    nodes s !! id = None →
    (∀ fr, is_Some (w_phys (wrld s) !! fr) → phys1 !! fr = w_phys (wrld s) !! fr) →
    (∀ fr, frame_of (RootVm memory) fr → w_phys (wrld s) !! fr = None) →
    mem_ok phys1 memory → world_ok (mkWorld (w_host (wrld s)) phys1 (w_invept (wrld s))) →
    root_ept_new memory (w_host (wrld s)) = (Done ept, h') →
    step s (NewRoot id)
      (mkSys (<[id := mkNode (KRoot memory) ept 0 false]> (nodes s))
             (mkWorld h' phys1 (w_invept (wrld s))))
(** [handle_run]: the flag is taken, then [can_run] is checked. *)
| step_run_begin id n :
    nodes s !! id = Some n → n_running n = false → can_run n = true →
    step s (RunBegin id) (mkSys (<[id := set_running true n]> (nodes s)) (wrld s))
| step_run_end id n :
    nodes s !! id = Some n → n_running n = true →
    step s (RunEnd id) (mkSys (<[id := set_running false n]> (nodes s)) (wrld s))
(** An EPT violation of a running fork on a page it has. *)
| step_cow id n cow p v gpa r f' w' :
    nodes s !! id = Some n → n_running n = true → n_kind n = KFork cow p → denotes (nodes s) p v →
    0 ≤ gpa < 2 ^ 48 → is_Some (expected (ForkedVm cow v) gpa) →
    handle_cow_fault gpa (mkForked (n_ept n) cow v 0, wrld s) = (r, (f', w')) →
    step s (CowFault id gpa)
      (mkSys (<[id := mkNode (KFork (fk_cow f') p) (fk_ept f') (n_children n) true]> (nodes s)) w')
(** A store of a running guest that the page table lets through. *)
| step_store id n gpa b phys' :
    nodes s !! id = Some n → n_running n = true → 0 ≤ gpa < 2 ^ 48 →
    guest_store (tables (w_host (wrld s))) (n_ept n) (w_phys (wrld s)) gpa b = Some phys' →
    step s (GuestStore id gpa b)
      (mkSys (nodes s) (mkWorld (w_host (wrld s)) phys' (w_invept (wrld s))))
(** [handle_create_forked_vm]: nothing asks whether the parent is running. *)
| step_fork p n v id io f w' :
    nodes s !! p = Some n → nodes s !! id = None → denotes (nodes s) p v → io_page_ok v io →
    fork_new (n_ept n) v true true io (wrld s) = (Done f, w') →
    step s (Fork p id)
      (mkSys (<[id := mkNode (KFork (fk_cow f) p) (fk_ept f) 0 false]> (<[p := add_child n]> (nodes s))) w')
| step_fork_failed p n v vmcs_ok state_ok io e w' :
    nodes s !! p = Some n → denotes (nodes s) p v → io_page_ok v io →
    fork_new (n_ept n) v vmcs_ok state_ok io (wrld s) = (Fail e, w') →
    step s (ForkFailed p) (mkSys (<[p := remove_child (add_child n)]> (nodes s)) w')
(** The last reference to a VM goes away: no child holds it. *)
| step_drop_root id n memory :
    nodes s !! id = Some n → n_running n = false → can_run n = true → n_kind n = KRoot memory →
    step s (DropVm id) (mkSys (delete id (nodes s)) (wrld s))
| step_drop_fork id n cow p np :
    nodes s !! id = Some n → n_running n = false → can_run n = true → n_kind n = KFork cow p →
    nodes s !! p = Some np → id ≠ p →
    step s (DropVm id) (mkSys (<[p := remove_child np]> (delete id (nodes s))) (wrld s)).

(** The proviso: a VM is not forked while it runs. *)
Definition disciplined s (l : label) : Prop :=
  match l with
  | Fork p _ => ∀ n, nodes s !! p = Some n → n_running n = false
  | _ => True
  end.

(** ** Invariant *)

(** The frames that belong to the node itself, not to an ancestor. *)
Definition owns n (fr : Z) : Prop :=
  match n_kind n with
  | KRoot memory => frame_of (RootVm memory) fr
  | KFork cow _ => ∃ g, cow_pages cow !! g = Some fr
  end.

Definition child_ids ns (p : nat) : gset nat := dom (filter (λ kv : nat * node, parent_id kv.2 = Some p) ns).
Definition children ns (p : nat) : Z := Z.of_nat (size (child_ids ns p)).

Record layout s : Prop := {
  so_world : world_ok (wrld s);
  so_vm id n : nodes s !! id = Some n → ∃ v, denotes (nodes s) id v ∧ vm_inv (wrld s) (n_ept n) v;
  so_owns id id' n n' fr : nodes s !! id = Some n → nodes s !! id' = Some n' →
    owns n fr → owns n' fr → id = id';
  so_tables id id' n n' t : nodes s !! id = Some n → nodes s !! id' = Some n' →
    t ∈ phys_of (ept_frames (n_ept n)) → t ∈ phys_of (ept_frames (n_ept n')) → id = id';
}.

Record counts ns : Prop := {
  so_children id n : ns !! id = Some n → n_children n = children ns id;
  so_running id n : ns !! id = Some n → n_running n = true → n_children n = 0;
}.

Record sys_ok s : Prop := { so_layout :> layout s; so_counts :> counts (nodes s) }.

(** ** Chains *)

Inductive on_chain ns : nat → nat → Prop :=
| oc_refl id : on_chain ns id id
| oc_step id n p id' : ns !! id = Some n → parent_id n = Some p → on_chain ns p id' → on_chain ns id id'.

Lemma denotes_fun ns id v v' : denotes ns id v → denotes ns id v' → v = v'.
Proof.
  intros H. revert v'. induction H as [id n memory Hn Hk|id n cow p v Hn Hk Hd IH]; intros v' H';
    inversion H' as [? n2 m2 Hn2 Hk2|? n2 cow2 p2 v2 Hn2 Hk2 Hd2]; subst; rewrite Hn in Hn2; injection Hn2 as <-;
    rewrite Hk in Hk2; try discriminate Hk2; injection Hk2 as ->; [done|]. subst. f_equal. by apply IH.
Qed.

Lemma elem_of_child_ids ns p id : id ∈ child_ids ns p ↔ ∃ n, ns !! id = Some n ∧ parent_id n = Some p.
Proof.
  unfold child_ids. rewrite elem_of_dom. split.
  - intros [n [Hn Hp]%map_lookup_filter_Some]. eauto.
  - intros (n & Hn & Hp). exists n. by apply map_lookup_filter_Some.
Qed.

(** A VM without children is on nobody else's chain. *)
Lemma on_chain_leaf ns i j : children ns i = 0 → on_chain ns j i → j = i.
Proof.
  intros Hc H. assert (child_ids ns i = ∅) as He.
  { apply leibniz_equiv, size_empty_inv. unfold children in Hc. lia. }
  induction H as [id|id n p id' Hn Hp H IH]; [done|].
  specialize (IH Hc He) as ->. assert (id ∈ child_ids ns id') as Hin by (apply elem_of_child_ids; eauto).
  rewrite He in Hin. set_solver.
Qed.

Lemma denotes_agree ns ns' id v :
  denotes ns id v →
  (∀ id' n, on_chain ns id id' → ns !! id' = Some n → ∃ n', ns' !! id' = Some n' ∧ n_kind n' = n_kind n) →
  denotes ns' id v.
Proof.
  induction 1 as [id n memory Hn Hk|id n cow p v Hn Hk Hd IH]; intros Hag.
  - destruct (Hag id n) as (n' & Hn' & Hk'); [constructor|done|]. eapply den_root; [done|congruence].
  - destruct (Hag id n) as (n' & Hn' & Hk'); [constructor|done|].
    eapply den_fork; [done|by rewrite Hk'|]. apply IH. intros id' n2 Hc. apply Hag.
    eapply oc_step; [done| |done]. unfold parent_id. by rewrite Hk.
Qed.

(** A frame a VM reads belongs to a node on its chain. *)
Lemma denotes_owner ns id v fr :
  denotes ns id v → frame_of v fr → ∃ id' n, on_chain ns id id' ∧ ns !! id' = Some n ∧ owns n fr.
Proof.
  induction 1 as [id n memory Hn Hk|id n cow p v Hn Hk Hd IH]; intros Hf.
  - exists id, n. split; [constructor|]. split; [done|]. unfold owns. by rewrite Hk.
  - destruct Hf as (gpa & Hg & Hr). simpl in Hr. unfold cow_get in Hr. rewrite page_align_idem in Hr.
    destruct (cow_pages cow !! page_align gpa) as [fr'|] eqn:Hc.
    + injection Hr as ->. exists id, n. split; [constructor|]. split; [done|]. unfold owns. rewrite Hk. eauto.
    + destruct IH as (id' & n' & Hch & Hn' & Ho).
      { exists (page_align gpa). split; [by apply page_align_range|done]. }
      exists id', n'. split; [|done]. eapply oc_step; [done| |done]. unfold parent_id. by rewrite Hk.
Qed.

(** *** Changes of the counters alone *)
Definition core n : kind * EptPageTable F := (n_kind n, n_ept n).
Definition same_core ns ns' : Prop := ∀ id, core <$> ns' !! id = core <$> ns !! id.

Lemma same_core_insert ns i n n' : ns !! i = Some n → core n' = core n → same_core ns (<[i := n']> ns).
Proof.
  intros Hi Hc id. destruct (decide (id = i)) as [->|]; [|by rewrite lookup_insert_ne].
  rewrite lookup_insert_eq, Hi. simpl. by rewrite Hc.
Qed.

Lemma same_core_lookup ns ns' id n' :
  same_core ns ns' → ns' !! id = Some n' → ∃ n, ns !! id = Some n ∧ n_kind n = n_kind n' ∧ n_ept n = n_ept n'.
Proof.
  intros Hs Hn. specialize (Hs id). rewrite Hn in Hs. destruct (ns !! id) as [n|]; [|done].
  injection Hs as ? ?. eauto.
Qed.

Lemma same_core_sym ns ns' : same_core ns ns' → same_core ns' ns.
Proof. intros H id. by rewrite H. Qed.

Lemma denotes_core ns ns' id v : same_core ns ns' → denotes ns id v → denotes ns' id v.
Proof.
  intros Hs Hd. apply (denotes_agree _ _ _ _ Hd). intros id' n _ Hn.
  destruct (same_core_lookup _ _ _ _ (same_core_sym _ _ Hs) Hn) as (n' & ? & ? & ?). eauto.
Qed.

Lemma child_ids_insert ns i n n' q :
  ns !! i = Some n → parent_id n' = parent_id n → child_ids (<[i := n']> ns) q = child_ids ns q.
Proof.
  intros Hi Hp. apply set_eq. intros id. rewrite !elem_of_child_ids.
  destruct (decide (id = i)) as [->|Hne]; [|by rewrite lookup_insert_ne by done].
  rewrite lookup_insert_eq. split; intros (m & Hm & Hq).
  - injection Hm as <-. exists n. split; [done|congruence].
  - exists n'. split; [done|congruence].
Qed.

Lemma owns_same n n' fr : n_kind n' = n_kind n → owns n' fr → owns n fr.
Proof. intros Hk. unfold owns. by rewrite Hk. Qed.

Lemma layout_core s ns' : layout s → same_core (nodes s) ns' → layout (mkSys ns' (wrld s)).
Proof.
  intros [Hw Hvm How Htb] Hs. constructor; simpl; [done|..].
  - intros id m Hm. destruct (same_core_lookup _ _ _ _ Hs Hm) as (m0 & Hm0 & _ & <-).
    destruct (Hvm id m0 Hm0) as (v & Hd & Hv). eauto using denotes_core.
  - intros id id' m m' fr Hm Hm' Ho Ho'.
    destruct (same_core_lookup _ _ _ _ Hs Hm) as (m0 & Hm0 & Hk & _).
    destruct (same_core_lookup _ _ _ _ Hs Hm') as (m0' & Hm0' & Hk' & _).
    eapply How; [exact Hm0|exact Hm0'|by eapply owns_same..].
  - intros id id' m m' t Hm Hm'.
    destruct (same_core_lookup _ _ _ _ Hs Hm) as (m0 & Hm0 & _ & <-).
    destruct (same_core_lookup _ _ _ _ Hs Hm') as (m0' & Hm0' & _ & <-). by apply Htb.
Qed.

(** *** Changes of the world that touch nobody *)
Lemma denotes_node ns id v : denotes ns id v → ∃ n, ns !! id = Some n.
Proof. by inversion 1; eauto. Qed.

Lemma layout_inv s id n v : layout s → nodes s !! id = Some n → denotes (nodes s) id v → vm_inv (wrld s) (n_ept n) v.
Proof.
  intros Hl Hn Hd. destruct (so_vm _ Hl id n Hn) as (v' & Hd' & Hv). by rewrite (denotes_fun _ _ _ _ Hd Hd').
Qed.

Lemma denotes_vm_ok s id v : layout s → denotes (nodes s) id v → vm_ok (w_phys (wrld s)) v.
Proof. intros Hl Hd. destruct (denotes_node _ _ _ Hd) as [n Hn]. apply (layout_inv s id n v Hl Hn Hd). Qed.

Lemma layout_kept s w' : layout s → world_ok w' → kept (wrld s) w' → layout (mkSys (nodes s) w').
Proof.
  intros Hl Hw' [HP HT]. destruct Hl as [Hw Hvm How Htb]. constructor; simpl; [done| |done|done].
  intros id m Hm. destruct (Hvm id m Hm) as (v & Hd & Hv). exists v. split; [done|].
  apply (vm_inv_frame (wrld s)); [done|done| |done]. intros t Ht. apply HT. by eapply tree_frames; [apply Hv|].
Qed.

Lemma owned_data s id n fr :
  layout s → nodes s !! id = Some n → owns n fr → is_Some (w_phys (wrld s) !! fr).
Proof.
  intros Hl Hn Ho. destruct (so_vm _ Hl id n Hn) as (v & Hd & Hv).
  pose proof (vi_vm _ _ _ Hv) as Hvm. unfold owns in Ho.
  inversion Hd as [? n2 m2 Hn2 Hk2|? n2 cow2 p2 v2 Hn2 Hk2 Hd2]; subst;
    rewrite Hn in Hn2; injection Hn2 as <-; rewrite Hk2 in Ho.
  - destruct (frame_of_data _ _ _ Hvm Ho) as (_ & bytes & ? & _). eauto.
  - destruct Ho as [g Hg]. destruct Hvm as (_ & _ & Hpg & _).
    destruct (Hpg g fr Hg) as (_ & _ & _ & (_ & bytes & ? & _) & _). eauto.
Qed.

Lemma owned_table s id n t :
  layout s → nodes s !! id = Some n → t ∈ phys_of (ept_frames (n_ept n)) → is_Some (tables (w_host (wrld s)) !! t).
Proof.
  intros Hl Hn Ht. destruct (so_vm _ Hl id n Hn) as (v & Hd & Hv). by eapply tree_frames; [apply Hv|].
Qed.

(** *** A new VM *)
Lemma denotes_add ns id n j v : ns !! id = None → denotes ns j v → denotes (<[id := n]> ns) j v.
Proof.
  intros Hid Hd. apply (denotes_agree _ _ _ _ Hd). intros id' m _ Hm. exists m.
  rewrite lookup_insert_ne; [done|congruence].
Qed.

Lemma layout_add s w' id n v :
  layout s → world_ok w' → kept (wrld s) w' → nodes s !! id = None →
  denotes (<[id := n]> (nodes s)) id v → vm_inv w' (n_ept n) v →
  (∀ fr, owns n fr → w_phys (wrld s) !! fr = None) →
  (∀ t, t ∈ phys_of (ept_frames (n_ept n)) → tables (w_host (wrld s)) !! t = None) →
  layout (mkSys (<[id := n]> (nodes s)) w').
Proof.
  intros Hl Hw' Hk Hid Hd Hv Hfr Ht. destruct (layout_kept s w' Hl Hw' Hk) as [_ Hvm How Htb]. constructor; simpl.
  - done.
  - intros j m [[<- <-]|[Hne Hm]]%lookup_insert_Some; [by eauto|].
    destruct (Hvm j m Hm) as (u & Hu & Hiu). exists u. split; [by apply denotes_add|done].
  - assert (∀ j m fr, nodes s !! j = Some m → owns m fr → ¬ owns n fr) as Hx.
    { intros j m fr Hm Ho Ho'%Hfr. destruct (owned_data s j m fr Hl Hm Ho) as [? ?]. congruence. }
    intros j j' m m' fr [[<- <-]|[Hne Hm]]%lookup_insert_Some [[<- <-]|[Hne' Hm']]%lookup_insert_Some Ho Ho'; [done|..].
    + by edestruct Hx.
    + by edestruct Hx.
    + by eapply How.
  - assert (∀ j m t, nodes s !! j = Some m → t ∈ phys_of (ept_frames (n_ept m)) →
      ¬ t ∈ phys_of (ept_frames (n_ept n))) as Hx.
    { intros j m t Hm Ho Ho'%Ht. destruct (owned_table s j m t Hl Hm Ho) as [? ?]. congruence. }
    intros j j' m m' t [[<- <-]|[Hne Hm]]%lookup_insert_Some [[<- <-]|[Hne' Hm']]%lookup_insert_Some Ho Ho'; [done|..].
    + by edestruct Hx.
    + by edestruct Hx.
    + by eapply Htb.
Qed.

(** *** Copy-on-write faults *)
Lemma running_leaf s i n j : sys_ok s → nodes s !! i = Some n → n_children n = 0 → on_chain (nodes s) j i → j = i.
Proof. intros Hok Hi Hc. apply on_chain_leaf. by rewrite <-(so_children _ Hok i n Hi). Qed.

Section Cow.
Context (s : sys) (i : nat) (n : node) (cow : CowPageMap) (p : nat) (v : vm) (gpa : Z).
Context (r : outcome () ()) (f' : forked F) (w' : world A).
Context (Hok : sys_ok s) (Hi : nodes s !! i = Some n) (Hrun : n_running n = true).
Context (Hk : n_kind n = KFork cow p) (Hd : denotes (nodes s) p v).
Context (Hg : 0 ≤ gpa < 2 ^ 48) (Hexp : is_Some (expected (ForkedVm cow v) gpa)).
Context (Hf : handle_cow_fault gpa (mkForked (n_ept n) cow v 0, wrld s) = (r, (f', w'))).
Let n' := mkNode (KFork (fk_cow f') p) (fk_ept f') (n_children n) true.
Let ns' := <[i := n']> (nodes s).

Lemma cow_facts :
  vm_inv w' (fk_ept f') (as_vm f') ∧ transparent (mkForked (n_ept n) cow v 0) (wrld s) f' w' ∧
  ∀ g fr, cow_pages (fk_cow f') !! g = Some fr → cow_pages cow !! g = Some fr ∨ w_phys (wrld s) !! fr = None.
Proof.
  pose proof (layout_inv s i n _ Hok Hi (den_fork _ _ _ _ _ _ Hi Hk Hd)) as Hinv.
  pose proof (handle_cow_fault_spec (mkForked (n_ept n) cow v 0) (wrld s) gpa Hinv Hg Hexp) as Hs.
  rewrite Hf in Hs. destruct r as [?|?|]; [| |done].
  - destruct Hs as (? & ? & fr & Hfr & Hcase). split; [done|]. split; [done|].
    intros g fr' Hg'. destruct Hcase as [(_ & _ & Heq)|(_ & Hfresh & Heq & _)].
    + left. by rewrite Heq in Hg'.
    + rewrite Heq in Hg'. apply lookup_insert_Some in Hg' as [[<- <-]|[_ ?]]; auto.
  - destruct Hs as (-> & ? & ?). auto.
Qed.

Lemma cow_leaf j : on_chain (nodes s) j i → j = i.
Proof. apply (running_leaf s i n); [done|done|]. by apply (so_running _ Hok i n). Qed.

Lemma cow_denotes j u : j ≠ i → denotes (nodes s) j u → denotes ns' j u.
Proof.
  intros Hj Hu. apply (denotes_agree _ _ _ _ Hu). intros id m Hch Hm. exists m. unfold ns'.
  rewrite lookup_insert_ne; [done|]. intros <-. by apply Hj, cow_leaf.
Qed.

Lemma cow_parent_ne : p ≠ i.
Proof.
  intros ->. pose proof (so_children _ Hok i n Hi) as Hc. rewrite (so_running _ Hok i n Hi Hrun) in Hc.
  assert (child_ids (nodes s) i = ∅) as He by (apply leibniz_equiv, size_empty_inv; unfold children in Hc; lia).
  assert (i ∈ child_ids (nodes s) i) as Hin by (apply elem_of_child_ids; exists n; unfold parent_id; by rewrite Hk).
  rewrite He in Hin. set_solver.
Qed.

Lemma cow_denotes_self : denotes ns' i (as_vm f').
Proof.
  destruct cow_facts as (_ & Htr & _). unfold as_vm. rewrite (tr_parent _ _ _ _ Htr).
  eapply (den_fork _ i n'); [apply lookup_insert_eq|done|]. apply cow_denotes; [apply cow_parent_ne|done].
Qed.

Lemma cow_layout : layout (mkSys ns' w').
Proof.
  destruct cow_facts as (Hinv' & Htr & Hcow). destruct (so_layout _ Hok) as [Hw Hvm How Htb].
  assert (fk_ept f' = n_ept n) as Hept by apply (tr_ept _ _ _ _ Htr).
  constructor; simpl; [apply Hinv'|..].
  - intros id m [[<- <-]|[Hne Hm]]%lookup_insert_Some; [exists (as_vm f'); split; [apply cow_denotes_self|done]|].
    destruct (Hvm id m Hm) as (u & Hu & Hiu). exists u. split; [by apply cow_denotes; [apply not_eq_sym|]|].
    apply (vm_inv_frame (wrld s)); [done|apply Hinv'| |apply Htr].
    intros t Ht. apply (tr_tables _ _ _ _ Htr). simpl. intros Ht'. by apply Hne, (Htb i id n m t).
  - assert (∀ id m fr, i ≠ id → nodes s !! id = Some m → owns m fr → ¬ owns n' fr) as Hx.
    { intros id m fr Hne Hm Ho [g Hg']. destruct (Hcow g fr Hg') as [Hold|Hfresh].
      - apply Hne, (How i id n m fr); [done|done| |done]. unfold owns. rewrite Hk. eauto.
      - destruct (owned_data s id m fr Hok Hm Ho) as [? ?]. congruence. }
    intros id id' m m' fr [[<- <-]|[Hne Hm]]%lookup_insert_Some [[<- <-]|[Hne' Hm']]%lookup_insert_Some Ho Ho'; [done|..].
    + by edestruct Hx.
    + by edestruct Hx.
    + by eapply How.
  - intros id id' m m' t [[<- <-]|[Hne Hm]]%lookup_insert_Some [[<- <-]|[Hne' Hm']]%lookup_insert_Some; simpl;
      rewrite ?Hept; intros Ht Ht'; [done|by eapply Htb..].
Qed.
End Cow.

(** *** Guest stores *)

(** A store goes to a frame of the storing VM's own. *)
Lemma guest_store_frame s i n gpa b phys' :
  layout s → nodes s !! i = Some n → 0 ≤ gpa < 2 ^ 48 →
  guest_store (tables (w_host (wrld s))) (n_ept n) (w_phys (wrld s)) gpa b = Some phys' →
  ∃ fr bytes, owns n fr ∧ w_phys (wrld s) !! fr = Some bytes ∧
    phys' = <[fr := <[Z.to_nat (page_offset gpa) := b]> bytes]> (w_phys (wrld s)).
Proof.
  intros Hl Hi Hg Hst. destruct (so_vm _ Hl i n Hi) as (v & Hd & Hv).
  inversion Hd as [? n2 m2 Hn2 Hk2|? n2 cow2 p2 v2 Hn2 Hk2 Hd2]; subst; rewrite Hi in Hn2; injection Hn2 as <-.
  - pose proof (vi_coherent _ _ _ Hv gpa Hg) as Hc. unfold guest_store in Hst.
    destruct (leaf (tables (w_host (wrld s))) (pml4_phys (n_ept n)) gpa) as [e|]; [|done].
    destruct (Z.testbit (entry_permissions e) 1); [|done].
    destruct (w_phys (wrld s) !! entry_addr e) as [bytes|] eqn:Hb; [|done]. injection Hst as <-.
    exists (entry_addr e), bytes. split; [|done]. unfold owns. rewrite Hk2. exists gpa. split; [done|].
    eapply expected_read. by rewrite <-Hc.
  - rewrite (guest_store_owned _ _ _ _ _ _ Hv Hg) in Hst. destruct (is_mmio _); [done|].
    destruct (cow_pages cow2 !! page_align gpa) as [fr|] eqn:Hc; [|done].
    destruct (w_phys (wrld s) !! fr) as [bytes|] eqn:Hb; [|done]. injection Hst as <-.
    exists fr, bytes. split; [|done]. unfold owns. rewrite Hk2. eauto.
Qed.

Lemma layout_write s fr bytes bytes' :
  layout s → w_phys (wrld s) !! fr = Some bytes → length bytes' = length bytes →
  layout (mkSys (nodes s) (mkWorld (w_host (wrld s)) (<[fr := bytes']> (w_phys (wrld s))) (w_invept (wrld s)))).
Proof.
  intros [[Hwt Hwp Hwd] Hvm How Htb] Hb Hlen.
  assert (world_ok (mkWorld (w_host (wrld s)) (<[fr := bytes']> (w_phys (wrld s))) (w_invept (wrld s)))) as Hw'.
  { constructor; simpl; [done|..].
    - intros q Hq. rewrite lookup_insert_ne; [auto|]. intros <-. rewrite (Hwp _ Hq) in Hb. done.
    - intros q Hq. apply Hwd. destruct (decide (q = fr)) as [->|]; [eauto|]. by rewrite lookup_insert_ne in Hq. }
  constructor; simpl; [done| |done|done].
  intros id m Hm. destruct (Hvm id m Hm) as (v & Hd & [_ He Hvo Hc]). exists v. split; [done|].
  constructor; simpl; [done|done|by eapply vm_ok_write|done].
Qed.

(** Nobody else sees it when the frame is a leaf's own. *)
Lemma write_view s i n j v fr bytes' a :
  sys_ok s → nodes s !! i = Some n → n_children n = 0 → owns n fr → j ≠ i → denotes (nodes s) j v →
  0 ≤ a < 2 ^ 48 → view (<[fr := bytes']> (w_phys (wrld s))) v a = view (w_phys (wrld s)) v a.
Proof.
  intros Hok Hi Hc Ho Hj Hd Ha. unfold view. destruct (read_page v a) as [fr'|] eqn:Hr; [|done].
  rewrite lookup_insert_ne; [done|]. intros <-.
  destruct (denotes_owner _ _ _ fr Hd) as (id' & m & Hch & Hm & Ho'); [by exists a|].
  pose proof (so_owns _ Hok _ _ _ _ _ Hi Hm Ho Ho') as <-. by apply Hj, (running_leaf s i n).
Qed.

(** *** A VM goes away *)
Lemma denotes_delete s i n j v :
  sys_ok s → nodes s !! i = Some n → n_children n = 0 → j ≠ i → denotes (nodes s) j v →
  denotes (delete i (nodes s)) j v.
Proof.
  intros Hok Hi Hc Hj Hd. apply (denotes_agree _ _ _ _ Hd). intros id m Hch Hm. exists m.
  rewrite lookup_delete_ne; [done|]. intros <-. by apply Hj, (running_leaf s i n).
Qed.

Lemma layout_delete s i n :
  sys_ok s → nodes s !! i = Some n → n_children n = 0 → layout (mkSys (delete i (nodes s)) (wrld s)).
Proof.
  intros Hok Hi Hc. destruct (so_layout _ Hok) as [Hw Hvm How Htb]. constructor; simpl; [done|..].
  - intros id m [Hne Hm]%lookup_delete_Some. destruct (Hvm id m Hm) as (v & Hd & Hv). exists v.
    split; [by eapply denotes_delete; [..|apply not_eq_sym|]|done].
  - intros id id' m m' fr [_ Hm]%lookup_delete_Some [_ Hm']%lookup_delete_Some. by eapply How.
  - intros id id' m m' t [_ Hm]%lookup_delete_Some [_ Hm']%lookup_delete_Some. by eapply Htb.
Qed.

(** *** The counters *)
Lemma counts_replace ns i n n' :
  counts ns → ns !! i = Some n → parent_id n' = parent_id n → n_children n' = n_children n →
  (n_running n' = true → n_children n' = 0) → counts (<[i := n']> ns).
Proof.
  intros [Hch Hrun] Hi Hp Hc Hr. constructor.
  - intros id m Hm. unfold children. rewrite (child_ids_insert _ _ n) by done.
    apply lookup_insert_Some in Hm as [[<- <-]|[Hne Hm]]; [rewrite Hc; exact (Hch i n Hi)|exact (Hch id m Hm)].
  - intros id m [[<- <-]|[Hne Hm]]%lookup_insert_Some; [done|by eapply Hrun].
Qed.

(** A VM that is not there has no children. *)
Lemma no_orphans s p : layout s → nodes s !! p = None → child_ids (nodes s) p = ∅.
Proof.
  intros Hl Hp. apply set_eq. intros id. split; [|set_solver]. intros (n & Hn & Hpar)%elem_of_child_ids.
  destruct (so_vm _ Hl id n Hn) as (v & Hd & _). unfold parent_id in Hpar.
  inversion Hd as [? n2 m2 Hn2 Hk2|? n2 cow2 p2 v2 Hn2 Hk2 Hd2]; subst; rewrite Hn in Hn2; injection Hn2 as <-;
    rewrite Hk2 in Hpar; [done|]. injection Hpar as <-. destruct (denotes_node _ _ _ Hd2). congruence.
Qed.

Lemma child_ids_add ns id n q :
  ns !! id = None →
  child_ids (<[id := n]> ns) q = (if decide (parent_id n = Some q) then {[id]} else ∅) ∪ child_ids ns q.
Proof.
  intros Hid. apply set_eq. intros x. rewrite elem_of_union, !elem_of_child_ids. split.
  - intros (m & [[<- <-]|[Hne Hm]]%lookup_insert_Some & Hq); [left; rewrite decide_True by done; set_solver|eauto].
  - intros [Hx|(m & Hm & Hq)].
    + case_decide; [|set_solver]. apply elem_of_singleton in Hx as ->. exists n. by rewrite lookup_insert_eq.
    + exists m. rewrite lookup_insert_ne; [done|congruence].
Qed.

Lemma children_add ns id n q :
  ns !! id = None →
  children (<[id := n]> ns) q = children ns q + if decide (parent_id n = Some q) then 1 else 0.
Proof.
  intros Hid. unfold children. rewrite child_ids_add by done. rewrite size_union.
  - case_decide; rewrite ?size_singleton, ?size_empty; lia.
  - case_decide; [|set_solver]. apply disjoint_singleton_l. rewrite elem_of_child_ids. intros (m & Hm & _). congruence.
Qed.

Lemma children_delete ns id n q :
  ns !! id = Some n →
  children (delete id ns) q = children ns q - if decide (parent_id n = Some q) then 1 else 0.
Proof.
  intros Hid. pose proof (children_add (delete id ns) id n q (lookup_delete_eq _ _)) as Hc.
  rewrite insert_delete_id in Hc by done. lia.
Qed.

Lemma counts_add_root s id n :
  sys_ok s → nodes s !! id = None → parent_id n = None → n_children n = 0 → n_running n = false →
  counts (<[id := n]> (nodes s)).
Proof.
  intros Hok Hid Hp Hc Hr. constructor.
  - intros j m Hm. rewrite children_add by done. rewrite decide_False by congruence.
    apply lookup_insert_Some in Hm as [[<- <-]|[Hne Hm]].
    + unfold children. rewrite (no_orphans s id) by (done || apply Hok). rewrite size_empty. lia.
    + rewrite (so_children _ Hok j m Hm). lia.
  - intros j m [[<- <-]|[Hne Hm]]%lookup_insert_Some; [congruence|by apply (so_running _ Hok j m)].
Qed.

Lemma counts_add_fork s id n p np :
  sys_ok s → nodes s !! id = None → nodes s !! p = Some np → n_running np = false →
  parent_id n = Some p → n_children n = 0 → n_running n = false →
  counts (<[id := n]> (<[p := add_child np]> (nodes s))).
Proof.
  intros Hok Hid Hnp Hrp Hp Hc Hr. assert (p ≠ id) as Hpi by congruence.
  assert (<[p := add_child np]> (nodes s) !! id = None) as Hid' by (by rewrite lookup_insert_ne). constructor.
  - intros j m Hm. rewrite children_add by done. unfold children. rewrite (child_ids_insert _ _ np) by done.
    rewrite Hp. apply lookup_insert_Some in Hm as [[<- <-]|[Hne [[<- <-]|[Hne' Hm]]%lookup_insert_Some]].
    + rewrite (no_orphans s id) by (done || apply Hok). rewrite size_empty, decide_False by congruence. lia.
    + rewrite decide_True by done. simpl. pose proof (so_children _ Hok p np Hnp). unfold children in *. lia.
    + rewrite decide_False by congruence. pose proof (so_children _ Hok j m Hm). unfold children in *. lia.
  - intros j m [[<- <-]|[Hne [[<- <-]|[Hne' Hm]]%lookup_insert_Some]]%lookup_insert_Some; simpl; [congruence..|].
    by apply (so_running _ Hok j m).
Qed.

Lemma counts_delete_root s id n :
  sys_ok s → nodes s !! id = Some n → parent_id n = None → counts (delete id (nodes s)).
Proof.
  intros Hok Hid Hp. constructor; intros j m [Hne Hm]%lookup_delete_Some; [|by apply (so_running _ Hok j m)].
  rewrite (children_delete _ _ n), decide_False by congruence. rewrite (so_children _ Hok j m Hm). lia.
Qed.

Lemma counts_delete_fork s id n p np :
  sys_ok s → nodes s !! id = Some n → parent_id n = Some p → nodes s !! p = Some np → id ≠ p →
  counts (<[p := remove_child np]> (delete id (nodes s))).
Proof.
  intros Hok Hid Hp Hnp Hne.
  assert (delete id (nodes s) !! p = Some np) as Hnp' by (by rewrite lookup_delete_ne). constructor.
  - intros j m Hm. unfold children. rewrite (child_ids_insert _ _ np) by done.
    change (n_children m = children (delete id (nodes s)) j).
    rewrite (children_delete _ _ n) by done. rewrite Hp.
    apply lookup_insert_Some in Hm as [[<- <-]|[Hne' [_ Hm]%lookup_delete_Some]].
    + rewrite decide_True by done. simpl. rewrite (so_children _ Hok p np Hnp). lia.
    + rewrite decide_False by congruence. rewrite (so_children _ Hok j m Hm). lia.
  - intros j m [[<- <-]|[Hne' [_ Hm]%lookup_delete_Some]]%lookup_insert_Some; simpl; [|by apply (so_running _ Hok j m)].
    intros Hr. pose proof (so_running _ Hok p np Hnp Hr) as H0.
    assert (id ∈ child_ids (nodes s) p) as Hin by (apply elem_of_child_ids; eauto).
    rewrite (so_children _ Hok p np Hnp) in H0. unfold children in H0.
    assert (child_ids (nodes s) p = ∅) as He by (apply leibniz_equiv, size_empty_inv; lia). set_solver.
Qed.

(** ** One step *)

(** The VM whose memory a step is meant to change or take away. *)
Definition actor (l : label) : option nat :=
  match l with GuestStore id _ _ | DropVm id | CowFault id _ => Some id | _ => None end.

Definition others_kept s (l : label) s' : Prop :=
  ∀ j v, actor l ≠ Some j → denotes (nodes s) j v →
    denotes (nodes s') j v ∧
    ∀ a, 0 ≤ a < 2 ^ 48 → view (w_phys (wrld s')) v a = view (w_phys (wrld s)) v a.

(** A step that only grows the world, and keeps every node's shape. *)
Lemma others_kept_grow s l s' :
  layout s → (∀ j v, actor l ≠ Some j → denotes (nodes s) j v → denotes (nodes s') j v) →
  (∀ fr, is_Some (w_phys (wrld s) !! fr) → w_phys (wrld s') !! fr = w_phys (wrld s) !! fr) →
  others_kept s l s'.
Proof.
  intros Hl Hd HP j v Ha Hj. split; [auto|]. intros a Hr. apply view_mono; [done|by eapply denotes_vm_ok|done].
Qed.

Lemma new_root_kept s id memory phys1 ept h' :
  sys_ok s → nodes s !! id = None →
  (∀ fr, is_Some (w_phys (wrld s) !! fr) → phys1 !! fr = w_phys (wrld s) !! fr) →
  (∀ fr, frame_of (RootVm memory) fr → w_phys (wrld s) !! fr = None) →
  mem_ok phys1 memory → world_ok (mkWorld (w_host (wrld s)) phys1 (w_invept (wrld s))) →
  root_ept_new memory (w_host (wrld s)) = (Done ept, h') →
  let s' := mkSys (<[id := mkNode (KRoot memory) ept 0 false]> (nodes s)) (mkWorld h' phys1 (w_invept (wrld s))) in
  sys_ok s' ∧ others_kept s (NewRoot id) s'.
Proof.
  intros Hok Hid Hgrow Hfresh Hm Hw Hnew s'.
  pose proof (root_ept_new_spec phys1 memory Hm _ Hw eq_refl) as Hs. simpl in Hs. rewrite Hnew in Hs.
  destruct Hs as (Hinv & HT & Hft). split; [split|].
  - eapply (layout_add s _ id _ (RootVm memory)); [apply Hok|apply Hinv|by split|done| |done|done|done].
    eapply den_root; [apply lookup_insert_eq|done].
  - by apply counts_add_root.
  - apply others_kept_grow; [apply Hok| |done]. intros j v _. by apply denotes_add.
Qed.

Lemma fork_kept s p n v id io f w' :
  sys_ok s → nodes s !! p = Some n → n_running n = false → nodes s !! id = None →
  denotes (nodes s) p v → io_page_ok v io →
  fork_new (n_ept n) v true true io (wrld s) = (Done f, w') →
  let s' := mkSys (<[id := mkNode (KFork (fk_cow f) p) (fk_ept f) 0 false]> (<[p := add_child n]> (nodes s))) w' in
  sys_ok s' ∧ others_kept s (Fork p id) s'.
Proof.
  intros Hok Hp Hr Hid Hd Hio Hf s'. pose proof (layout_inv _ _ _ _ Hok Hp Hd) as Hinv.
  pose proof (fork_new_spec _ _ _ true true io Hinv Hio) as Hs. rewrite Hf in Hs.
  destruct Hs as (Hi1 & _ & Hk & Hfp & _ & Hft & Hfc).
  assert (same_core (nodes s) (<[p := add_child n]> (nodes s))) as Hsc by (by eapply same_core_insert).
  assert (<[p := add_child n]> (nodes s) !! id = None) as Hid' by (rewrite lookup_insert_ne; [done|congruence]).
  assert (∀ j u, denotes (nodes s) j u → denotes (nodes s') j u) as Hden.
  { intros j u Hu. by apply denotes_add, (denotes_core (nodes s)). }
  split; [split|].
  - assert (layout (mkSys (<[p := add_child n]> (nodes s)) (wrld s))) as Hl by (apply layout_core; [apply Hok|done]).
    pose proof (layout_add _ w' id (mkNode (KFork (fk_cow f) p) (fk_ept f) 0 false) (as_vm f) Hl) as Hadd. simpl in Hadd.
    apply Hadd; [apply Hi1|done|done| |done| |done].
    + unfold as_vm. rewrite Hfp. eapply den_fork; [apply lookup_insert_eq|done|]. by apply Hden.
    + intros fr [g Hg]. by eapply Hfc.
  - by apply counts_add_fork.
  - apply others_kept_grow; [apply Hok|by auto|apply Hk].
Qed.

Lemma fork_failed_kept s p n v vmcs_ok state_ok io e w' :
  sys_ok s → nodes s !! p = Some n → denotes (nodes s) p v → io_page_ok v io →
  fork_new (n_ept n) v vmcs_ok state_ok io (wrld s) = (Fail e, w') →
  let s' := mkSys (<[p := remove_child (add_child n)]> (nodes s)) w' in
  sys_ok s' ∧ others_kept s (ForkFailed p) s'.
Proof.
  intros Hok Hp Hd Hio Hf s'. pose proof (layout_inv _ _ _ _ Hok Hp Hd) as Hinv.
  pose proof (fork_new_spec _ _ _ vmcs_ok state_ok io Hinv Hio) as Hs. rewrite Hf in Hs. destruct Hs as [Hi1 Hk].
  assert (same_core (nodes s) (nodes s')) as Hsc by (by eapply same_core_insert).
  split; [split|].
  - apply (layout_core (mkSys (nodes s) w')); [|done]. apply layout_kept; [apply Hok|apply Hi1|done].
  - eapply counts_replace; [apply Hok|done|done|simpl; lia|]. simpl. intros Hr. pose proof (so_running _ Hok p n Hp Hr). lia.
  - apply others_kept_grow; [apply Hok| |apply Hk]. intros j u _. by apply denotes_core.
Qed.

Lemma cow_kept s i n cow p v gpa r f' w' :
  sys_ok s → nodes s !! i = Some n → n_running n = true → n_kind n = KFork cow p → denotes (nodes s) p v →
  0 ≤ gpa < 2 ^ 48 → is_Some (expected (ForkedVm cow v) gpa) →
  handle_cow_fault gpa (mkForked (n_ept n) cow v 0, wrld s) = (r, (f', w')) →
  let s' := mkSys (<[i := mkNode (KFork (fk_cow f') p) (fk_ept f') (n_children n) true]> (nodes s)) w' in
  sys_ok s' ∧ others_kept s (CowFault i gpa) s'.
Proof.
  intros Hok Hi Hr Hk Hd Hg Hx Hf s'. split; [split|].
  - by eapply cow_layout.
  - eapply counts_replace; [apply Hok|done|unfold parent_id; by rewrite Hk|done|]. intros _. by apply (so_running _ Hok i n).
  - destruct (cow_facts s i n cow p v gpa r f' w' Hok Hi Hk Hd Hg Hx Hf) as (_ & Htr & _).
    apply others_kept_grow; [apply Hok| |apply (tr_phys _ _ _ _ Htr)].
    intros j u Hj. apply (cow_denotes s i n); [done|done|done|]. simpl in Hj. congruence.
Qed.

Lemma store_kept s i n gpa b phys' :
  sys_ok s → nodes s !! i = Some n → n_running n = true → 0 ≤ gpa < 2 ^ 48 →
  guest_store (tables (w_host (wrld s))) (n_ept n) (w_phys (wrld s)) gpa b = Some phys' →
  let s' := mkSys (nodes s) (mkWorld (w_host (wrld s)) phys' (w_invept (wrld s))) in
  sys_ok s' ∧ others_kept s (GuestStore i gpa b) s'.
Proof.
  intros Hok Hi Hr Hg Hst s'.
  destruct (guest_store_frame s i n gpa b phys' Hok Hi Hg Hst) as (fr & bytes & Ho & Hb & ->).
  split; [split; [|apply Hok]|].
  - eapply layout_write; [apply Hok|done|apply length_insert].
  - intros j v Hj Hd. split; [done|]. intros a Ha. simpl in Hj |- *.
    apply (write_view s i n j); [done|done|by apply (so_running _ Hok i n)|done|congruence|done|done].
Qed.

Lemma drop_root_kept s i n :
  sys_ok s → nodes s !! i = Some n → can_run n = true → parent_id n = None →
  let s' := mkSys (delete i (nodes s)) (wrld s) in
  sys_ok s' ∧ others_kept s (DropVm i) s'.
Proof.
  intros Hok Hi Hc%Z.eqb_eq Hp s'. split; [split|].
  - by eapply layout_delete.
  - by eapply counts_delete_root.
  - apply others_kept_grow; [apply Hok| |done]. simpl. intros j v Hj. apply (denotes_delete s i n); [done|done|done|congruence].
Qed.

Lemma drop_fork_kept s i n p np :
  sys_ok s → nodes s !! i = Some n → can_run n = true → parent_id n = Some p → nodes s !! p = Some np → i ≠ p →
  let s' := mkSys (<[p := remove_child np]> (delete i (nodes s))) (wrld s) in
  sys_ok s' ∧ others_kept s (DropVm i) s'.
Proof.
  intros Hok Hi Hc%Z.eqb_eq Hp Hnp Hne s'.
  assert (same_core (delete i (nodes s)) (nodes s')) as Hsc.
  { eapply same_core_insert; [by rewrite lookup_delete_ne|done]. }
  split; [split|].
  - apply (layout_core (mkSys (delete i (nodes s)) (wrld s))); [by eapply layout_delete|done].
  - by eapply counts_delete_fork.
  - apply others_kept_grow; [apply Hok| |done]. simpl. intros j v Hj Hd. apply (denotes_core _ _ _ _ Hsc).
    apply (denotes_delete s i n); [done|done|done|congruence|done].
Qed.

Lemma counters_kept s l i n n' :
  sys_ok s → nodes s !! i = Some n → core n' = core n → n_children n' = n_children n →
  (n_running n' = true → n_children n' = 0) →
  let s' := mkSys (<[i := n']> (nodes s)) (wrld s) in sys_ok s' ∧ others_kept s l s'.
Proof.
  intros Hok Hi Hcore Hc Hr s'. assert (same_core (nodes s) (nodes s')) as Hsc by (by eapply same_core_insert).
  split; [split|].
  - apply layout_core; [apply Hok|done].
  - eapply counts_replace; [apply Hok|done| |done|done]. injection Hcore as Hk _. unfold parent_id. by rewrite Hk.
  - apply others_kept_grow; [apply Hok| |done]. intros j u _. by apply denotes_core.
Qed.

Lemma step_kept s l s' : sys_ok s → disciplined s l → step s l s' → sys_ok s' ∧ others_kept s l s'.
Proof.
  intros Hok Hdis Hs. destruct Hs as
    [id memory phys1 ept h' ? ? ? ? ? ?|id n Hi ? Hc|id n Hi ?|id n cow p v gpa r f' w' ? ? ? ? ? ? ?
    |id n gpa b phys' ? ? ? ?|p n v id io f w' Hp ? ? ? ?|p n v vo so io e w' ? ? ? ?
    |id n memory Hi ? ? Hk|id n cow p np Hi ? ? Hk ? ?].
  - by apply new_root_kept.
  - apply (counters_kept s _ id n); [done..|]. intros _. by apply Z.eqb_eq.
  - by apply (counters_kept s _ id n).
  - by eapply cow_kept.
  - by eapply store_kept.
  - eapply fork_kept; [done|done|by apply Hdis|done..].
  - by eapply fork_failed_kept.
  - apply (drop_root_kept s id n); [done..|]. unfold parent_id. by rewrite Hk.
  - apply (drop_fork_kept s id n p np); [done..| |done|done]. unfold parent_id. by rewrite Hk.
Qed.

(** ** Runs *)
Inductive run (P : sys → label → Prop) s : list label → sys → Prop :=
| run_nil : run P s [] s
| run_snoc tr s1 l s2 : run P s tr s1 → P s1 l → step s1 l s2 → run P s (tr ++ [l]) s2.

(** C1: isolation.  Whatever the other VMs do, in any number and any order,
    creating, running, faulting, storing, forking and going away, the memory of
    a VM that does nothing itself stays byte for byte what it was, both as the
    hypervisor reads it and as the guest loads it through its page table;
    provided no VM is forked while it runs. *)
Theorem isolation s tr s' j n v :
  sys_ok s → run disciplined s tr s' → Forall (λ l, actor l ≠ Some j) tr →
  nodes s !! j = Some n → denotes (nodes s) j v →
  sys_ok s' ∧ ∃ n', nodes s' !! j = Some n' ∧ denotes (nodes s') j v ∧
  ∀ a, 0 ≤ a < 2 ^ 48 →
    view (w_phys (wrld s')) v a = view (w_phys (wrld s)) v a ∧
    (is_mmio (page_align a) = false →
      guest_load (tables (w_host (wrld s'))) (n_ept n') (w_phys (wrld s')) a =
      guest_load (tables (w_host (wrld s))) (n_ept n) (w_phys (wrld s)) a).
Proof.
  intros Hok Hrun Hact Hn Hd.
  assert (sys_ok s' ∧ denotes (nodes s') j v ∧
    ∀ a, 0 ≤ a < 2 ^ 48 → view (w_phys (wrld s')) v a = view (w_phys (wrld s)) v a) as (Hok' & Hd' & Hv).
  { induction Hrun as [|tr s1 l s2 Hrun IH Hdis Hst]; [done|].
    apply Forall_app in Hact as [Ha1 Ha2]. rewrite Forall_singleton in Ha2.
    destruct (IH Ha1) as (Hok1 & Hd1 & Hv1). destruct (step_kept _ _ _ Hok1 Hdis Hst) as [Hok2 Hk].
    destruct (Hk j v Ha2 Hd1) as [Hd2 Hv2]. split; [done|]. split; [done|]. intros a Ha. rewrite Hv2; auto. }
  split; [done|]. destruct (denotes_node _ _ _ Hd') as [n' Hn']. exists n'. split; [done|]. split; [done|].
  intros a Ha. split; [by apply Hv|]. intros Hm.
  rewrite (guest_load_view (wrld s') (n_ept n') v), (guest_load_view (wrld s) (n_ept n) v);
    [by apply Hv|by eapply layout_inv; [apply Hok|..]|done|done|by eapply layout_inv; [apply Hok'|..]|done|done].
Qed.
End Tree.
Arguments node F : clear implicits.
Arguments sys A F : clear implicits.

(** ** Concrete runs *)
Definition demo_s0 : sys bump Z := mkSys ∅ (mkWorld (w_host demo_world) ∅ []).
Definition demo_n0 : node Z := mkNode (KRoot demo_memory) demo_root 0 false.
Definition demo_s1 : sys bump Z := mkSys (<[0%nat := demo_n0]> ∅) demo_root_world.
Definition demo_n1 : node Z := mkNode (KFork (fk_cow demo_fork.1) 0) (fk_ept demo_fork.1) 0 false.

Lemma demo_s0_ok : sys_ok (E:=()) demo_s0.
Proof. by split; [split|split]. Qed.

Lemma demo_new_root : step demo_s0 (NewRoot 0) demo_s1.
Proof.
  assert (match (root_ept_new (F:=Z) (E:=()) demo_memory (w_host demo_world)).1 with Done _ => true | _ => false end = true)
    as Hd by (vm_compute; reflexivity).
  assert (root_ept_new demo_memory (w_host demo_world) = (Done demo_root, w_host demo_root_world)) as He.
  { unfold demo_root, demo_root_world. by destruct (root_ept_new demo_memory (w_host demo_world)) as [[|e|] h']. }
  apply (step_new_root demo_s0 0 demo_memory demo_phys demo_root (w_host demo_root_world)); [done|..|exact He].
  - intros fr [x H]. change ((∅ : gmap Z (list Z)) !! fr = Some x) in H. by rewrite lookup_empty in H.
  - done.
  - apply demo_mem_ok.
  - apply demo_world_ok.
Qed.

Lemma demo_fork_done : fork_new demo_root (RootVm demo_memory) true true 0 demo_root_world = (Done demo_fork.1, demo_fork.2).
Proof.
  assert (match (fork_new demo_root (RootVm demo_memory) true true 0 demo_root_world).1 with Done _ => true | _ => false end = true)
    as Hd by (vm_compute; reflexivity).
  unfold demo_fork. by destruct (fork_new _ _ _ _ _ _) as [[f|e|] w'].
Qed.

#[local] Opaque demo_fork demo_root demo_root_world.

(** A fork of the root in any of its states. *)
Lemma demo_forks n :
  n_kind n = KRoot demo_memory → n_ept n = demo_root →
  step (mkSys (<[0%nat := n]> ∅) demo_root_world) (Fork 0 1)
    (mkSys (<[1%nat := demo_n1]> (<[0%nat := add_child n]> (<[0%nat := n]> ∅))) demo_fork.2).
Proof.
  intros Hk He. set (S0 := mkSys (<[0%nat := n]> ∅) demo_root_world).
  change (step S0 (Fork 0 1) (mkSys (<[1%nat := mkNode (KFork (fk_cow demo_fork.1) 0) (fk_ept demo_fork.1) 0 false]>
    (<[0%nat := add_child n]> (nodes S0))) demo_fork.2)).
  apply (step_fork S0 0 n (RootVm demo_memory) 1 0 demo_fork.1).
  - apply lookup_insert_eq.
  - done.
  - eapply den_root; [apply lookup_insert_eq|done].
  - by left.
  - rewrite He. apply demo_fork_done.
Qed.

Definition demo_s2 : sys bump Z :=
  mkSys (<[1%nat := demo_n1]> (<[0%nat := add_child demo_n0]> (nodes demo_s1))) demo_fork.2.

Lemma demo_s2_ok : sys_ok (E:=()) demo_s2.
Proof.
  destruct (step_kept _ (NewRoot 0) _ demo_s0_ok I demo_new_root) as [H1 _].
  apply (step_kept demo_s1 (Fork 0 1)); [done| |by apply demo_forks].
  intros n Hn. change (<[0%nat := demo_n0]> (∅ : gmap nat (node Z)) !! 0%nat = Some n) in Hn. rewrite lookup_insert_eq in Hn. by injection Hn as <-.
Qed.

Definition demo_after : outcome () () * (forked Z * world bump) :=
  handle_cow_fault 0x1000 (mkForked (n_ept demo_n1) (fk_cow demo_fork.1) (RootVm demo_memory) 0, demo_fork.2).

Lemma demo_after_eq :
  handle_cow_fault 0x1000 (mkForked (n_ept demo_n1) (fk_cow demo_fork.1) (RootVm demo_memory) 0, demo_fork.2) =
    (demo_after.1, (demo_after.2.1, demo_after.2.2)).
Proof. unfold demo_after. by destruct (handle_cow_fault _ _) as [? []]. Qed.
#[local] Opaque demo_after.

Lemma isolation_witness : ∃ s',
  run disciplined demo_s2 [RunBegin 1; CowFault 1 0x1000] s' ∧
  view (w_phys (wrld s')) (RootVm demo_memory) 0x1000 = Some 2.
Proof.
  set (n1 := set_running true demo_n1).
  set (s1 := mkSys (<[1%nat := n1]> (nodes demo_s2)) (wrld demo_s2)).
  set (s2 := mkSys (<[1%nat := mkNode (KFork (fk_cow demo_after.2.1) 0) (fk_ept demo_after.2.1) 0 true]> (nodes s1)) demo_after.2.2).
  assert (run disciplined demo_s2 [RunBegin 1; CowFault 1 0x1000] s2) as Hrun.
  { apply (run_snoc _ _ [RunBegin 1] s1); [apply (run_snoc _ _ [] demo_s2); [constructor|done|]|done|].
    - by apply step_run_begin.
    - apply (step_cow s1 1 n1 (fk_cow demo_fork.1) 0 (RootVm demo_memory) 0x1000 demo_after.1); [done..| |lia| |].
      + eapply den_root; [done|done].
      + eexists. vm_compute. reflexivity.
      + apply demo_after_eq. }
  exists s2. split; [exact Hrun|].
  destruct (isolation demo_s2 _ s2 0 (add_child demo_n0) (RootVm demo_memory) demo_s2_ok Hrun) as (_ & n' & _ & _ & Hv).
  - repeat constructor; done.
  - done.
  - eapply den_root; done.
  - rewrite (proj1 (Hv 0x1000 ltac:(lia))). vm_compute. reflexivity.
Defined.

(** Without the proviso isolation fails, and the fork path does not
    establish it: a root that is forked while it runs goes on to store to its
    memory, and the fork's memory changes under it, although the fork has done
    nothing. *)
Theorem fork_while_running_unsound : ∃ s s' v,
  run (λ _ _, True) demo_s0 [NewRoot 0; RunBegin 0; Fork 0 1] s ∧
  step s (GuestStore 0 0x1000 9) s' ∧ denotes (nodes s) 1 v ∧ denotes (nodes s') 1 v ∧
  view (w_phys (wrld s)) v 0x1000 = Some 2 ∧ view (w_phys (wrld s')) v 0x1000 = Some 9.
Proof.
  set (n0 := set_running true demo_n0).
  set (s1 := mkSys (<[0%nat := n0]> (∅ : gmap nat (node Z))) demo_root_world).
  set (s2 := mkSys (<[1%nat := demo_n1]> (<[0%nat := add_child n0]> (<[0%nat := n0]> ∅))) demo_fork.2).
  assert (match guest_store (tables (w_host demo_fork.2)) demo_root (w_phys demo_fork.2) 0x1000 9 with
    | Some phys' => view phys' (ForkedVm (fk_cow demo_fork.1) (RootVm demo_memory)) 0x1000
    | None => None end = Some 9) as Hst by (vm_compute; reflexivity).
  destruct (guest_store _ _ _ _ _) as [phys'|] eqn:Hg; [|done].
  exists s2, (mkSys (nodes s2) (mkWorld (w_host demo_fork.2) phys' (w_invept demo_fork.2))),
    (ForkedVm (fk_cow demo_fork.1) (RootVm demo_memory)).
  assert (denotes (nodes s2) 1 (ForkedVm (fk_cow demo_fork.1) (RootVm demo_memory))) as Hd.
  { eapply (den_fork _ 1 demo_n1); [done|done|]. eapply (den_root _ 0 (add_child n0)); done. }
  split; [|split; [|split; [exact Hd|split; [exact Hd|split; [vm_compute; reflexivity|exact Hst]]]]].
  - apply (run_snoc _ _ [NewRoot 0; RunBegin 0] s1); [|done|by apply demo_forks].
    apply (run_snoc _ _ [NewRoot 0] demo_s1); [|done|].
    + apply (run_snoc _ _ [] demo_s0); [constructor|done|apply demo_new_root].
    + unfold s1. change (<[0%nat := n0]> (∅ : gmap nat (node Z))) with (<[0%nat := n0]> (nodes demo_s1)).
      by apply step_run_begin.
  - apply (step_store s2 0 (add_child n0)); [done|done|lia|exact Hg].
Qed.
