(* ===== verification/GuestMem.v ===== *)
(** * Guest memory as the exit handlers see it (crate [bedrock-vmx]:
    [traits/context.rs], [vm/root.rs], [vm/forked.rs])

    The memory methods of [VmContext] are a class: what the handlers call, and
    the laws their theorems rely on.  A root or forked VM with its page table is
    an instance, whose laws follow from the lemmas of the file [VmMemory].  The
    invariant is weaker than the one there: a page may have lost its write
    permission to precise exits, and the guest chooses the addresses. *)
From S2P Require Import Prelude Addr Ept VmMemory.

Class GuestMem (R : Type) := {
  gm_is_forked : R → bool;
  gm_read : Z → nat → R → outcome MemoryError (list Z);
  gm_write : Z → list Z → M R MemoryError ();
  (** [handle_cow_fault]: [Fail] is [None], otherwise [Some(Continue)]. *)
  gm_cow_fault : Z → M R () ();
  (** [pre_cow_io_channel_page] on the registered page. *)
  gm_pre_cow : Z → M R () ();
  (** [ept.lookup], and [ept.remap_4k] as [READ_EXECUTE], write-back. *)
  gm_lookup : Z → R → outcome Empty_set (option (Z * Z));
  gm_protect : Z → Z → M R EptRemapError ();
}.

(** A computation on memory that keeps its invariant and every byte. *)
Definition silent {R E A} (ok : R → Prop) (bytes : R → Z → option Z) (m : M R E A) : Prop := ∀ r, ok r →
  match m r with
  | (Stuck, _) => False
  | (_, r') => ok r' ∧ ∀ a, 0 ≤ a → bytes r' a = bytes r a
  end.

Class GuestMemSpec (R : Type) `{!GuestMem R} := {
  gm_ok : R → Prop;
  byte_at : R → Z → option Z;
  byte_at_byte r a b : gm_ok r → byte_at r a = Some b → is_byte b;
  gm_read_law r gpa n : gm_ok r → 0 ≤ gpa → (0 < n)%nat →
    gm_read gpa n r = match mapM (byte_at r) (seqZ gpa (Z.of_nat n)) with Some bs => Done bs | None => Fail OutOfRange end;
  gm_write_law r gpa buf : gm_ok r → 0 ≤ gpa → Forall is_byte buf →
    match gm_write gpa buf r with
    | (Stuck, _) => False
    | (Fail _, r') => gm_ok r'
    | (Done _, r') => gm_ok r' ∧ ∀ a, 0 ≤ a → byte_at r' a = overlay (byte_at r) gpa buf a
    end;
  gm_cow_fault_law gpa : 0 ≤ gpa → silent gm_ok byte_at (gm_cow_fault gpa);
  gm_pre_cow_law gpa : 0 ≤ gpa → silent gm_ok byte_at (gm_pre_cow gpa);
  gm_lookup_law r gpa : gm_ok r → ∃ x, gm_lookup gpa r = Done x;
  gm_protect_law gpa hpa : silent gm_ok byte_at (gm_protect gpa hpa);
}.

(** ** The memory of a VM *)
Section Machine.
Context {A F E : Type} `{!FrameAllocator A F E} `{!CowAllocator A F E}.

Record machine := mkMachine {
  mc_vm : vm;
  mc_ept : EptPageTable F;
  mc_stale_tlb_faults : Z;
  mc_world : world A;
}.
Implicit Types mc : machine.

Definition of_forked (f : forked F) (w : world A) : machine :=
  mkMachine (as_vm f) (fk_ept f) (fk_stale_tlb_faults f) w.
(** A method that [RootVm] leaves at its default. *)
Definition on_fork {R} (default : outcome () R) (m : CM R) : M machine () R := λ mc,
  match mc_vm mc with
  | RootVm _ => (default, mc)
  | ForkedVm cow parent =>
      let '(r, (f, w)) := m (mkForked (mc_ept mc) cow parent (mc_stale_tlb_faults mc), mc_world mc) in
      (r, of_forked f w)
  end.
Definition with_phys (phys : gmap Z (list Z)) mc : machine :=
  mkMachine (mc_vm mc) (mc_ept mc) (mc_stale_tlb_faults mc)
    (mkWorld (w_host (mc_world mc)) phys (w_invept (mc_world mc))).
Definition with_tables (T : gmap Z (list Z)) mc : machine :=
  mkMachine (mc_vm mc) (mc_ept mc) (mc_stale_tlb_faults mc)
    (mkWorld (mkHost (alloc (w_host (mc_world mc))) T) (w_phys (mc_world mc)) (w_invept (mc_world mc))).

#[export] Instance machine_mem : GuestMem machine := {
  gm_is_forked mc := match mc_vm mc with RootVm _ => false | ForkedVm _ _ => true end;
  gm_read gpa n mc := read_guest_memory (w_phys (mc_world mc)) (mc_vm mc) gpa n;
  gm_write gpa buf mc :=
    let '(r, phys) := write_guest_memory (w_phys (mc_world mc)) (mc_vm mc) gpa buf in (r, with_phys phys mc);
  gm_cow_fault gpa := on_fork (Fail ()) (handle_cow_fault gpa);
  gm_pre_cow gpa := on_fork (Done ()) (pre_cow_io_channel_page gpa);
  gm_lookup gpa mc := lookup (tables (w_host (mc_world mc))) (mc_ept mc) gpa;
  gm_protect gpa hpa mc :=
    match remap_4k (tables (w_host (mc_world mc))) (mc_ept mc) gpa hpa READ_EXECUTE WriteBack with
    | Done T => (Done (), with_tables T mc)
    | Fail e => (Fail e, mc)
    | Stuck => (Stuck, mc)
    end;
}.
End Machine.
Arguments machine A F : clear implicits.

Section MachineSpec.
Context {A F E : Type} `{!FrameAllocator A F E} `{!FrameAllocatorSpec A F E}
  `{!CowAllocator A F E} `{!CowAllocatorSpec A F E}.
Implicit Types (mc : machine A F) (f : forked F) (w : world A).

Definition bytes_ok (phys : gmap Z (list Z)) : Prop := map_Forall (λ _ bs, Forall is_byte bs) phys.
Record vm_safe w (ept : EptPageTable F) (v : vm) : Prop := {
  vs_world : world_ok w;
  vs_ept : ept_wf (w_host w) ept;
  vs_vm : vm_ok (w_phys w) v;
  vs_bytes : bytes_ok (w_phys w);
}.
Definition safe mc : Prop := vm_safe (mc_world mc) (mc_ept mc) (mc_vm mc).
Definition mc_byte mc (a : Z) : option Z := view (w_phys (mc_world mc)) (mc_vm mc) a.

Lemma vm_inv_safe w ept v : vm_inv w ept v → bytes_ok (w_phys w) → vm_safe w ept v.
Proof. intros [] ?. by constructor. Qed.

Lemma view_high phys v a : vm_ok phys v → 2 ^ 48 ≤ a → view phys v a = None.
Proof.
  intros Hok Ha. unfold view. destruct (read_page v a) as [fr|] eqn:Hr; [|done].
  apply (read_page_range phys) in Hr; [lia|done|lia].
Qed.
(** A fact about the views below 2^48 is one about all of them. *)
Lemma view_low phys phys' v v' a :
  vm_ok phys v → vm_ok phys' v' → 0 ≤ a →
  (a < 2 ^ 48 → view phys' v' a = view phys v a) → view phys' v' a = view phys v a.
Proof.
  intros H H' Ha Hlow. destruct (Z.ltb_spec a (2 ^ 48)); [by apply Hlow|]. by rewrite !view_high.
Qed.

Definition cow_silent (m : CM ()) : Prop := ∀ f w, vm_safe w (fk_ept f) (as_vm f) →
  match m (f, w) with
  | (Stuck, _) => False
  | (_, (f', w')) => vm_safe w' (fk_ept f') (as_vm f') ∧
      ∀ a, 0 ≤ a → view (w_phys w') (as_vm f') a = view (w_phys w) (as_vm f) a
  end.

Lemma safe_alloc w ept v a' iv :
  vm_safe w ept v → (∀ q, avail a' q → avail (alloc (w_host w)) q) →
  vm_safe (mkWorld (mkHost a' (tables (w_host w))) (w_phys w) iv) ept v.
Proof.
  intros [[Hwt Hwp Hwd] ? ? ?] Ha. constructor; [|done..].
  constructor; simpl; [intros p Hp; apply Hwt; by apply Ha|intros p Hp; apply Hwp; by apply Ha|apply Hwd].
Qed.

(** A fresh data page, whatever else is done with it. *)
Lemma safe_copy w ept v v' a' fr src bytes T' iv :
  vm_safe w ept v → avail (alloc (w_host w)) fr → (∀ q, avail a' q → avail (alloc (w_host w)) q ∧ q ≠ fr) →
  w_phys w !! src = Some bytes → (∀ t, is_Some (T' !! t) ↔ is_Some (tables (w_host w) !! t)) →
  tree T' (pml4_phys ept) (phys_of (ept_frames ept)) → vm_ok (<[fr := bytes]> (w_phys w)) v' →
  vm_safe (mkWorld (mkHost a' T') (<[fr := bytes]> (w_phys w)) iv) ept v'.
Proof.
  intros [[Hwt Hwp Hwd] Hwf Hok Hby] Hav Ha Hb Hdom HT Hv'.
  assert (∀ p, tables (w_host w) !! p = None → T' !! p = None) as Hd.
  { intros p Hp. apply eq_None_not_Some. rewrite Hdom. by apply eq_None_not_Some. }
  constructor; [constructor; simpl|done|done|].
  - intros p [Hp _]%Ha. apply Hd. by apply Hwt.
  - intros p [Hp Hne]%Ha. rewrite lookup_insert_ne by done. by apply Hwp.
  - intros p Hp. apply Hd. destruct (decide (p = fr)) as [->|]; [by apply Hwt|].
    rewrite lookup_insert_ne in Hp by done. by apply Hwd.
  - apply map_Forall_insert_2; [|done]. by apply (Hby src).
Qed.

Lemma safe_grow w ept v a' fr bytes src iv :
  vm_safe w ept v → avail (alloc (w_host w)) fr → (∀ q, avail a' q → avail (alloc (w_host w)) q ∧ q ≠ fr) →
  w_phys w !! src = Some bytes →
  vm_safe (mkWorld (mkHost a' (tables (w_host w))) (<[fr := bytes]> (w_phys w)) iv) ept v ∧
  ∀ a, 0 ≤ a → view (<[fr := bytes]> (w_phys w)) v a = view (w_phys w) v a.
Proof.
  intros Hs Hav Ha Hb. pose proof (wo_phys _ (vs_world _ _ _ Hs) _ Hav) as Hfresh.
  assert (vm_ok (<[fr := bytes]> (w_phys w)) v) as Hok
    by (apply (vm_ok_mono (w_phys w)); [intros; by apply copy_grow|apply Hs]).
  split; [by apply (safe_copy w ept v v a' fr src); [..|apply Hs|]|].
  intros a Hpos. apply view_low; [apply Hs|done|done|]. intros Hlt. apply view_mono; [intros; by apply copy_grow|apply Hs|done].
Qed.

Lemma cow_page_silent g f w :
  0 ≤ g → page_align g = g → cow_pages (fk_cow f) !! g = None → vm_safe w (fk_ept f) (as_vm f) →
  match cow_page g (f, w) with
  | (Stuck, _) => False
  | (_, (f', w')) => vm_safe w' (fk_ept f') (as_vm f') ∧
      ∀ a, 0 ≤ a → view (w_phys w') (as_vm f') a = view (w_phys w) (as_vm f) a
  end.
Proof.
  intros Hg Hga Hnew Hs. unfold cow_page, mbind, M_bind, cow_alloc, gets.
  destruct (allocate_cow_page (alloc (w_host w))) as [[fr|e] a1] eqn:Ha1; simpl.
  2: { split; [|done]. apply safe_alloc; [done|]. by eapply allocate_cow_page_err. }
  destruct (allocate_cow_page_ok _ _ _ Ha1) as [Hav Ha1']. pose proof (wo_phys _ (vs_world _ _ _ Hs) _ Hav) as Hfresh.
  destruct (read_page (fk_parent f) g) as [src|] eqn:Hsrc; simpl.
  2: { split; [|done]. apply safe_alloc; [done|]. intros q Hq. by apply Ha1'. }
  destruct (page_data (w_phys w) (fk_parent f) g src) as (_ & bytes & Hbytes & _); [apply (vs_vm _ _ _ Hs)|done|done|].
  unfold copy_page. simpl. rewrite Hbytes. unfold cow_insert_page. simpl.
  pose proof (alloc_node_avail a1) as Hnode. destruct (alloc_node a1) as [node_ok a2]. simpl in Hnode.
  assert (∀ q, avail a2 q → avail (alloc (w_host w)) q ∧ q ≠ fr) as Ha2 by auto.
  unfold cow_insert. destruct node_ok; [|by apply (safe_grow _ _ _ _ _ _ src)].
  unfold remap_rwx. simpl. rewrite Hga.
  assert (vm_ok (<[fr := bytes]> (w_phys w)) (ForkedVm (mkCow (<[g := fr]> (cow_pages (fk_cow f))) (cow_count (fk_cow f) + 1)) (fk_parent f))) as Hok'
    by (apply (copy_vm_ok _ _ _ g fr src); try done; [apply Hs|by eapply avail_aligned]).
  assert (∀ a, 0 ≤ a → view (<[fr := bytes]> (w_phys w)) (ForkedVm (mkCow (<[g := fr]> (cow_pages (fk_cow f))) (cow_count (fk_cow f) + 1)) (fk_parent f)) a = view (w_phys w) (as_vm f) a) as Hv
    by (intros a Ha; apply (copy_view _ _ _ g fr src); try done; apply Hs).
  pose proof (remap_4k_spec (F:=F) _ _ _ (ept_frames (fk_ept f)) g fr READ_WRITE_EXECUTE WriteBack (vs_ept _ _ _ Hs)
    ltac:(split; reflexivity || discriminate)) as Hr.
  replace (mkEpt (pml4_phys (fk_ept f)) (ept_frames (fk_ept f))) with (fk_ept f) in Hr by (by destruct (fk_ept f)).
  destruct (remap_4k _ _ _ _ _ _) as [T'|[]|]; simpl; [|..|done].
  - split; [|done]. destruct Hr as (_ & HT & _ & Hdom & _). by apply (safe_copy w (fk_ept f) (as_vm f) _ a2 fr src).
  - split; [|done]. apply (safe_copy w (fk_ept f) (as_vm f) _ a2 fr src); try done. apply Hs.
Qed.

Lemma not_contained cow g : cow_contains cow (page_align g) = false → cow_pages cow !! page_align g = None.
Proof.
  intros Hc. apply eq_None_not_Some. intros Hs. rewrite <-page_align_idem in Hs. apply cow_contains_spec in Hs. congruence.
Qed.
Lemma handle_cow_fault_silent gpa : 0 ≤ gpa → cow_silent (handle_cow_fault gpa).
Proof.
  intros Hg f w Hs. unfold handle_cow_fault, mbind, M_bind, gets. simpl.
  destruct (cow_contains (fk_cow f) (page_align gpa)) eqn:Hc; [by split; [destruct Hs|]|].
  apply cow_page_silent; [apply page_align_bounds; lia|apply page_align_idem|by apply not_contained|done].
Qed.
Lemma pre_cow_silent gpa : 0 ≤ gpa → cow_silent (pre_cow_io_channel_page gpa).
Proof.
  intros Hg f w Hs. unfold pre_cow_io_channel_page, mbind, M_bind, gets. destruct (gpa =? 0); [done|]. simpl.
  destruct (cow_contains (fk_cow f) (page_align gpa)) eqn:Hc; [done|]. unfold ignore_errors.
  pose proof (cow_page_silent (page_align gpa) f w) as H.
  destruct (cow_page (page_align gpa) (f, w)) as [[?|?|] [f' w']];
    (apply H; [apply page_align_bounds; lia|apply page_align_idem|by apply not_contained|done]).
Qed.
Lemma on_fork_silent d m : d ≠ Stuck → cow_silent m → silent safe mc_byte (on_fork d m).
Proof.
  intros Hd Hm mc Hs. unfold on_fork. destruct (mc_vm mc) as [memory|cow parent] eqn:Hv; [by destruct d|].
  specialize (Hm (mkForked (mc_ept mc) cow parent (mc_stale_tlb_faults mc)) (mc_world mc)).
  unfold as_vm in Hm at 1. simpl in Hm. rewrite <-Hv in Hm. specialize (Hm Hs). unfold mc_byte. rewrite Hv.
  destruct (m _) as [[?|?|] [f' w']]; done.
Qed.

Lemma write_bytes_ok phys v gpa buf :
  vm_ok phys v → bytes_ok phys → Forall is_byte buf → 0 ≤ gpa → bytes_ok (write_guest_memory phys v gpa buf).2.
Proof.
  intros _ Hby Hbuf _. assert (∀ off p (bs bs' : list Z) fr, bytes_ok p → p !! fr = Some bs → Forall is_byte bs' →
    bytes_ok (<[fr := list_inserts off bs' bs]> p)) as Hins.
  { intros off p bs bs' fr Hp Hb Hbs'. apply map_Forall_insert_2; [|done]. apply Forall_inserts; [|done]. by apply (Hp fr). }
  destruct v as [memory|cow parent]; cbn [write_guest_memory].
  - unfold root_write. destruct (root_in_range memory gpa (length buf)); [|done].
    enough (∀ phys' , mem_set_bytes phys memory gpa buf = Some phys' → bytes_ok phys') as H
      by (destruct (mem_set_bytes phys memory gpa buf); [by apply H|done]).
    revert phys gpa Hby. induction Hbuf as [|b buf Hb Hbuf IH]; intros phys gpa Hby phys'; simpl; [by intros [= <-]|].
    unfold mem_set_byte. destruct (page_phys_addr memory (page_align gpa)) as [fr|]; simpl; [|done].
    destruct (phys !! fr) as [bs|] eqn:Hfr; simpl; [|done]. apply IH. apply map_Forall_insert_2; [|done].
    apply Forall_insert; [by apply (Hby fr)|done].
  - generalize (S (length buf)) as fuel. intros fuel. revert phys gpa buf Hby Hbuf.
    induction fuel as [|fuel IH]; intros phys gpa buf Hby Hbuf; cbn [forked_write]; [done|].
    destruct (cow_get cow (page_align gpa)) as [fr|]; [|done]. unfold page_write.
    destruct (phys !! fr) as [bs|] eqn:Hfr; simpl; [|by case_decide]. case_decide.
    + destruct (_ <=? _); [|done]. by apply Hins.
    + destruct (_ <=? _); [|done]. apply IH; [apply Hins; [done..|by apply Forall_take]|by apply Forall_drop].
Qed.

Lemma write_absent phys v gpa buf fr :
  vm_ok phys v → 0 ≤ gpa → phys !! fr = None → (write_guest_memory phys v gpa buf).2 !! fr = None.
Proof.
  intros Hok Hg Hfr. pose proof (write_memory_view phys v gpa buf Hok Hg) as H. unfold write_post in H.
  destruct (write_guest_memory phys v gpa buf) as [r phys']. destruct H as (_ & Hk & _). simpl. rewrite Hk; [done|].
  destruct v as [memory|cow parent].
  - intros Hf. destruct (frame_of_data _ _ _ Hok Hf) as (_ & b & Hb & _). congruence.
  - intros g Hc. destruct Hok as (_ & _ & Hpg & _). destruct (Hpg _ _ Hc) as (_ & _ & _ & (_ & b & Hb & _) & _). congruence.
Qed.

Lemma write_safe mc gpa buf :
  safe mc → 0 ≤ gpa → Forall is_byte buf →
  match gm_write gpa buf mc with
  | (Stuck, _) => False
  | (Fail _, mc') => safe mc'
  | (Done _, mc') => safe mc' ∧ ∀ a, 0 ≤ a → mc_byte mc' a = overlay (mc_byte mc) gpa buf a
  end.
Proof.
  intros Hs Hg Hbuf. cbn [gm_write machine_mem]. pose proof Hs as [[Hwt Hwp Hwd] Hwf Hok Hby].
  pose proof (write_memory_view _ _ gpa buf Hok Hg) as H. pose proof (write_bytes_ok _ _ gpa buf Hok Hby Hbuf Hg) as Hby'.
  pose proof (λ fr, write_absent _ _ gpa buf fr Hok Hg) as Habs. unfold write_post in H.
  destruct (write_guest_memory (w_phys (mc_world mc)) (mc_vm mc) gpa buf) as [r phys']. simpl in Hby', Habs.
  destruct H as (Hok' & _ & n & Hn & Hv & Hr).
  assert (safe (with_phys phys' mc)) as Hs'.
  { constructor; [constructor; simpl|done|done|done].
    - apply Hwt.
    - intros p Hp. by apply Habs, Hwp.
    - intros p Hp. apply Hwd. destruct (w_phys (mc_world mc) !! p) eqn:Hq; [eauto|]. rewrite Habs in Hp by done. by destruct Hp. }
  destruct r as [[]|e|]; [|done|done]. split; [done|]. intros a Ha. unfold mc_byte. simpl.
  destruct Hr as [-> Hr]. rewrite take_ge in Hv by done.
  destruct (Z.ltb_spec a (2 ^ 48)); [by apply Hv|]. unfold overlay. rewrite !(view_high _ _ a) by done.
  rewrite decide_False; [done|]. destruct Hr as [->|]; simpl; lia.
Qed.

#[export] Instance machine_mem_spec : GuestMemSpec (machine A F).
Proof.
  refine {| gm_ok := safe; byte_at := mc_byte |}.
  - intros mc a b Hs Hb. unfold mc_byte, view in Hb. destruct (read_page (mc_vm mc) a) as [fr|]; [|done].
    destruct (w_phys (mc_world mc) !! fr) as [bs|] eqn:Hfr; [|done]. simpl in Hb.
    pose proof (vs_bytes _ _ _ Hs _ _ Hfr) as Hall. by apply (Forall_lookup_1 _ _ _ _ Hall Hb).
  - intros mc gpa n Hs Hg Hn. apply read_view; [apply Hs|done|done].
  - intros mc gpa buf Hs Hg Hbuf. by apply write_safe.
  - intros gpa Hg. apply on_fork_silent; [done|]. by apply handle_cow_fault_silent.
  - intros gpa Hg. apply on_fork_silent; [done|]. by apply pre_cow_silent.
  - intros mc gpa Hs. eexists. pose proof (vs_ept _ _ _ Hs) as Hwf. cbn [gm_lookup machine_mem].
    replace (mc_ept mc) with (mkEpt (pml4_phys (mc_ept mc)) (ept_frames (mc_ept mc))) at 1 by (by destruct (mc_ept mc)).
    apply (lookup_leaf _ _ _ _ _ Hwf).
  - intros gpa hpa mc Hs. cbn [gm_protect machine_mem].
    pose proof (remap_4k_spec (F:=F) _ _ _ (ept_frames (mc_ept mc)) gpa hpa READ_EXECUTE WriteBack (vs_ept _ _ _ Hs)
      ltac:(split; reflexivity || discriminate)) as Hr.
    replace (mkEpt (pml4_phys (mc_ept mc)) (ept_frames (mc_ept mc))) with (mc_ept mc) in Hr by (by destruct (mc_ept mc)).
    destruct (remap_4k _ _ _ _ _ _) as [T'|[]|]; [|done|done]. split; [|done].
    destruct Hr as (_ & HT & _ & Hdom & _). destruct Hs as [[Hwt Hwp Hwd] Hwf Hok Hby].
    assert (∀ p, tables (w_host (mc_world mc)) !! p = None → T' !! p = None) as Hd.
    { intros p Hp. apply eq_None_not_Some. rewrite Hdom. by apply eq_None_not_Some. }
    constructor; [constructor; simpl|done|done|done]; [intros p Hp; by apply Hd, Hwt|done|intros p Hp; by apply Hd, Hwd].
Defined.
End MachineSpec.

(** *** A concrete root VM *)
#[export] Instance bump_mem : GuestMem (machine bump Z) := machine_mem.
#[export] Instance bump_mem_spec : GuestMemSpec (machine bump Z) := machine_mem_spec.
Definition demo_machine : machine bump Z := mkMachine (RootVm demo_memory) demo_root 0 demo_root_world.
Definition poke (a : Z) (bs : list Z) (mc : machine bump Z) : machine bump Z := (gm_write a bs mc).2.

Lemma demo_machine_ok : gm_ok demo_machine.
Proof.
  apply vm_inv_safe; [apply demo_root_inv|]. intros fr bs. cbn. unfold demo_phys.
  intros [[<- <-]|[_ [<- <-]%lookup_singleton_Some]]%lookup_insert_Some; apply Forall_replicate; split; lia.
Qed.
Lemma bytes_check bs : forallb (λ b, (0 <=? b) && (b <? 256)) bs = true → Forall is_byte bs.
Proof.
  intros H. rewrite forallb_forall in H. apply Forall_forall. intros b Hb%list_elem_of_In. specialize (H b Hb).
  apply andb_true_iff in H as [? ?]. split; lia.
Qed.
Lemma poke_ok a bs mc : gm_ok mc → 0 ≤ a → Forall is_byte bs → gm_ok (poke a bs mc).
Proof.
  intros Hm Ha Hb. unfold poke. pose proof (gm_write_law mc a bs Hm Ha Hb) as H.
  destruct (gm_write a bs mc) as [[?|?|] mc']; [by destruct H|done|done].
Qed.
