(* ===== verification/Wire.v ===== *)
(** * The event stream's wire format and its reader (crates [bedrock-vmx]:
    [events/types.rs], [exit_record/record.rs]; [bedrock-vm]: [events.rs])

    The structs are [repr(C)]; on the wire each is the concatenation of its
    fields in little-endian order, padding fields included.  [ref_from_prefix]
    reads one back from the front of a slice and fails when the slice is too
    short. *)
From S2P Require Import Prelude.

(** ** Packed layouts *)
Section Layout.
Implicit Types (szs : list nat) (vals bs : list Z).

Fixpoint encode szs vals : list Z :=
  match szs, vals with
  | sz :: szs', z :: vals' => le_bytes sz z ++ encode szs' vals'
  | _, _ => []
  end.

Fixpoint decode szs bs : option (list Z * list Z) :=
  match szs with
  | [] => Some ([], bs)
  | sz :: szs' =>
      if (length bs <? sz)%nat then None
      else '(vals, rest) ← decode szs' (drop sz bs); Some (of_le (take sz bs) :: vals, rest)
  end.

Definition fits szs vals : Prop := Forall2 (λ sz z, in_width (8 * Z.of_nat sz) z) szs vals.

Lemma decode_encode szs vals rest : fits szs vals → decode szs (encode szs vals ++ rest) = Some (vals, rest).
Proof.
  induction 1 as [|sz z szs vals Hz _ IH]; simpl; [done|].
  rewrite <-app_assoc, length_app, length_le_bytes.
  destruct (Nat.ltb_spec (sz + length (encode szs vals ++ rest)) sz); [lia|].
  rewrite drop_app_length' by (by rewrite length_le_bytes). rewrite IH. simpl.
  rewrite take_app_length' by (by rewrite length_le_bytes). by rewrite of_le_le_bytes_small.
Qed.

Lemma length_encode szs vals : length szs = length vals → length (encode szs vals) = sum_list szs.
Proof.
  revert vals. induction szs as [|sz szs IH]; intros [|z vals]; simpl; try done.
  intros [= Hl]. by rewrite length_app, length_le_bytes, IH.
Qed.

Lemma decode_length szs bs vals rest :
  decode szs bs = Some (vals, rest) → bs = take (sum_list szs) bs ++ rest ∧ length vals = length szs.
Proof.
  revert bs vals rest. induction szs as [|sz szs IH]; intros bs vals rest; simpl.
  - by intros [= <- <-].
  - destruct (Nat.ltb_spec (length bs) sz) as [|Hge]; [done|].
    destruct (decode szs (drop sz bs)) as [[vs r]|] eqn:Hd; [|done]. intros [= <- <-].
    destruct (IH _ _ _ Hd) as [Hr Hl]. split; [|simpl; lia].
    rewrite <-take_take_drop, <-app_assoc, <-Hr. by rewrite take_drop.
Qed.

Lemma decode_None szs bs : decode szs bs = None ↔ (length bs < sum_list szs)%nat.
Proof.
  revert bs. induction szs as [|sz szs IH]; intros bs; simpl; [split; [done|lia]|].
  destruct (Nat.ltb_spec (length bs) sz); [split; [lia|done]|].
  specialize (IH (drop sz bs)). rewrite length_drop in IH.
  destruct (decode szs (drop sz bs)) as [[]|]; simpl; [|split; [|done]; intros _].
  - split; [done|]. intros. assert (Some (l, l0) = None) by (apply IH; lia). done.
  - assert (length bs - sz < sum_list szs)%nat by (by apply IH). lia.
Qed.

Lemma decode_fits szs bs vals rest : Forall is_byte bs → decode szs bs = Some (vals, rest) → fits szs vals.
Proof.
  revert bs vals rest. induction szs as [|sz szs IH]; intros bs vals rest Hb; simpl.
  - intros [= <- <-]. constructor.
  - destruct (Nat.ltb_spec (length bs) sz) as [|Hge]; [done|].
    destruct (decode szs (drop sz bs)) as [[vs r]|] eqn:Hd; [|done]. intros [= <- <-].
    constructor; [|by eapply IH; [apply Forall_drop|]].
    pose proof (of_le_width (take sz bs) (Forall_take _ _ _ Hb)) as Hw. rewrite length_take in Hw.
    by replace (sz `min` length bs)%nat with sz in Hw by lia.
Qed.

Lemma encode_is_byte szs vals : Forall is_byte (encode szs vals).
Proof.
  revert vals. induction szs as [|sz szs IH]; intros [|z vals]; simpl; try done.
  apply Forall_app. auto with bedrock.
Qed.
End Layout.
#[export] Hint Resolve encode_is_byte : bedrock.

(** ** [events/types.rs] *)
Definition EVENT_BUFFER_SIZE : Z := 1024 * 1024.
Definition EVENT_HEADER_SIZE : Z := 32.
Definition EVENT_FLAG_DETERMINISTIC : Z := Z.shiftl 1 0.

Definition align_up (n align : Z) : Z := Z.land (n + align - 1) (Z.lnot (align - 1)).

Record EventHeader := mkHeader {
  h_seq : Z; h_tsc : Z; h_real_tsc : Z; h_kind : Z; h_flags : Z; h_len : Z;
}.
Definition header_layout : list nat := [8; 8; 8; 2; 2; 4]%nat.
Definition header_bytes (h : EventHeader) : list Z :=
  encode header_layout [h_seq h; h_tsc h; h_real_tsc h; h_kind h; h_flags h; h_len h].
Definition header_from_prefix (bs : list Z) : option (EventHeader * list Z) :=
  match decode header_layout bs with
  | Some ([seq; tsc; real_tsc; kind; flags; len], rest) => Some (mkHeader seq tsc real_tsc kind flags len, rest)
  | _ => None
  end.

Inductive EventKind := Exit | Serial | Inject | Randomness | IoChannel | Diagnostic.
#[export] Instance EventKind_eq_dec : EqDecision EventKind.
Proof. solve_decision. Defined.

(** [EventCategories], a mask. *)
Definition CAT_EXIT : Z := Z.shiftl 1 0.
Definition CAT_SERIAL : Z := Z.shiftl 1 1.
Definition CAT_INJECT : Z := Z.shiftl 1 2.
Definition CAT_RANDOMNESS : Z := Z.shiftl 1 3.
Definition CAT_IO_CHANNEL : Z := Z.shiftl 1 4.
Definition CAT_DIAGNOSTIC : Z := Z.shiftl 1 5.
Definition contains (self other : Z) : bool := Z.land self other =? other.

Definition category (k : EventKind) : Z :=
  match k with
  | Exit => CAT_EXIT | Serial => CAT_SERIAL | Inject => CAT_INJECT
  | Randomness => CAT_RANDOMNESS | IoChannel => CAT_IO_CHANNEL | Diagnostic => CAT_DIAGNOSTIC
  end.
Definition default_flags (k : EventKind) : Z :=
  match k with Diagnostic => 0 | _ => EVENT_FLAG_DETERMINISTIC end.
Definition as_u16 (k : EventKind) : Z :=
  match k with Exit => 0 | Serial => 1 | Inject => 2 | Randomness => 3 | IoChannel => 4 | Diagnostic => 5 end.

Record InjectPayload := mkInject { ip_vector : Z; ip_source : Z; ip_target_tsc : Z }.
Definition inject_layout : list nat := [1; 1; 6; 8]%nat.
Definition inject_bytes (p : InjectPayload) : list Z :=
  encode inject_layout [ip_vector p; ip_source p; 0; ip_target_tsc p].

Inductive RandomSource := Rdrand | Rdseed | GetRandom.
Definition source_u8 (s : RandomSource) : Z := match s with Rdrand => 0 | Rdseed => 1 | GetRandom => 2 end.
Definition source_from_u8 (v : Z) : RandomSource :=
  if v =? source_u8 Rdseed then Rdseed else if v =? source_u8 GetRandom then GetRandom else Rdrand.

Record RandomPayload := mkRandom { rp_value : Z; rp_pid : Z; rp_source : Z; rp_width : Z }.
Definition random_layout : list nat := [8; 4; 1; 1; 2]%nat.
Definition random_bytes (p : RandomPayload) : list Z :=
  encode random_layout [rp_value p; rp_pid p; rp_source p; rp_width p; 0].

Inductive IoChannelPhase := Request | Response.
Definition phase_u8 (p : IoChannelPhase) : Z := match p with Request => 0 | Response => 1 end.
Record IoChannelPayload := mkIo { io_phase : Z; io_target_tsc : Z }.
Definition io_layout : list nat := [1; 7; 8]%nat.
Definition io_bytes (p : IoChannelPayload) : list Z := encode io_layout [io_phase p; 0; io_target_tsc p].

(** ** [exit_record/record.rs]

    [repr(C)] puts four bytes of padding after [pebs_iters_since_arm], which no
    field covers; their value is whatever the memory held. *)
Record ExitRecord := mkExit {
  er_tsc : Z; er_exit_reason : Z; er_flags : Z; er_exit_qualification : Z;
  er_gprs : list Z;          (** rax rcx rdx rbx rsp rbp rsi rdi r8 .. r15 rip rflags *)
  er_hashes : list Z;        (** apic serial ioapic rtc mtrr rdrand *)
  er_memory_hash : Z;
  er_bases : list Z;         (** fs gs kernel_gs cr3 cs ds es ss pending_dbg *)
  er_interruptibility_state : Z; er_cow_page_count : Z;
  er_pebs_skid : Z; er_pebs_inst_delta : Z; er_pebs_tsc_offset_delta : Z;
  er_pebs_iters_since_arm : Z; er_pebs_arm_delta : Z;
  er_debug : list Z;         (** last_instruction_count apic_timer_deadline
                                 io_channel_target_tsc pebs_armed_target_tsc vmx_state_flags *)
  er_padding : list Z;       (** [_padding: [u64; 16]] *)
}.

Definition EXIT_RECORD_SIZE : Z := 512.
Definition EXIT_RECORD_FLAG_DETERMINISTIC : Z := 1.

(** An [i64] as the bits of a [u64], and back. *)
Definition i64_bits (z : Z) : Z := u64 z.
Definition bits_i64 (z : Z) : Z := if z <? 2 ^ 63 then z else z - 2 ^ 64.
Definition in_i64 (z : Z) : Prop := - 2 ^ 63 ≤ z < 2 ^ 63.

Definition exit_layout : list nat :=
  [8; 4; 4; 8]%nat ++ replicate 18 8%nat ++ replicate 6 8%nat ++ [8]%nat ++ replicate 9 8%nat ++ [4; 4]%nat ++
  [8; 8; 8; 4; 4; 8]%nat ++ replicate 5 8%nat ++ replicate 16 8%nat.

Definition exit_values (junk : Z) (r : ExitRecord) : list Z :=
  [er_tsc r; er_exit_reason r; er_flags r; er_exit_qualification r] ++ er_gprs r ++ er_hashes r ++
  [er_memory_hash r] ++ er_bases r ++ [er_interruptibility_state r; er_cow_page_count r] ++
  [i64_bits (er_pebs_skid r); i64_bits (er_pebs_inst_delta r); i64_bits (er_pebs_tsc_offset_delta r);
   er_pebs_iters_since_arm r; junk; er_pebs_arm_delta r] ++ er_debug r ++ er_padding r.
Definition exit_bytes (junk : Z) (r : ExitRecord) : list Z := encode exit_layout (exit_values junk r).

Definition exit_of_values (v : list Z) : ExitRecord :=
  let at_ i := nth i v 0 in
  let sub i n := take n (drop i v) in
  mkExit (at_ 0%nat) (at_ 1%nat) (at_ 2%nat) (at_ 3%nat) (sub 4%nat 18%nat) (sub 22%nat 6%nat) (at_ 28%nat) (sub 29%nat 9%nat)
    (at_ 38%nat) (at_ 39%nat) (bits_i64 (at_ 40%nat)) (bits_i64 (at_ 41%nat)) (bits_i64 (at_ 42%nat)) (at_ 43%nat) (at_ 45%nat)
    (sub 46%nat 5%nat) (sub 51%nat 16%nat).

Definition exit_new : ExitRecord :=
  mkExit 0 0 0 0 (replicate 18 0) (replicate 6 0) 0 (replicate 9 0) 0 0 0 0 0 0 0 (replicate 5 0) (replicate 16 0).
Definition exit_is_deterministic (r : ExitRecord) : bool := has (er_flags r) EXIT_RECORD_FLAG_DETERMINISTIC.

(** Field widths, and the shape of the grouped fields. *)
Record exit_ok (r : ExitRecord) : Prop := {
  eo_gprs : length (er_gprs r) = 18%nat; eo_hashes : length (er_hashes r) = 6%nat;
  eo_bases : length (er_bases r) = 9%nat; eo_debug : length (er_debug r) = 5%nat;
  eo_padding : length (er_padding r) = 16%nat;
  eo_words : Forall (in_width 64) ([er_tsc r; er_exit_qualification r; er_memory_hash r; er_pebs_arm_delta r] ++
    er_gprs r ++ er_hashes r ++ er_bases r ++ er_debug r ++ er_padding r);
  eo_halves : Forall (in_width 32) [er_exit_reason r; er_flags r; er_interruptibility_state r;
    er_cow_page_count r; er_pebs_iters_since_arm r];
  eo_signed : Forall in_i64 [er_pebs_skid r; er_pebs_inst_delta r; er_pebs_tsc_offset_delta r];
}.

(** ** The reader ([bedrock-vm/src/events.rs]) *)
Record EventRecord := mkRecord { r_header : EventHeader; r_payload : list Z }.

Inductive Event :=
| EvExit (r : ExitRecord)
| EvSerial (bs : list Z)
| EvInject (p : InjectPayload)
| EvRandomness (p : RandomPayload) (bs : list Z)
| EvIoChannel (p : IoChannelPayload) (data : list Z)
| EvUnknown (kind : Z) (payload : list Z)
| EvMalformed.

Definition is_deterministic (r : EventRecord) : bool := has (h_flags (r_header r)) EVENT_FLAG_DETERMINISTIC.

Definition event (r : EventRecord) : Event :=
  let k := h_kind (r_header r) in
  let payload := r_payload r in
  if k =? as_u16 Exit then
    match decode exit_layout payload with Some (v, _) => EvExit (exit_of_values v) | None => EvMalformed end
  else if k =? as_u16 Serial then EvSerial payload
  else if k =? as_u16 Inject then
    match decode inject_layout payload with
    | Some ([vector; source; _; target], _) => EvInject (mkInject vector source target)
    | _ => EvMalformed
    end
  else if k =? as_u16 Randomness then
    match decode random_layout payload with
    | Some ([value; pid; source; width; _], bytes) => EvRandomness (mkRandom value pid source width) bytes
    | _ => EvMalformed
    end
  else if k =? as_u16 IoChannel then
    match decode io_layout payload with
    | Some ([phase; _; target], data) => EvIoChannel (mkIo phase target) data
    | _ => EvMalformed
    end
  else EvUnknown k payload.

(** [EventStream::next].  The drained buffer is page aligned, so a header is
    aligned when its offset is. *)
Definition stream_next (buf : list Z) (off : Z) : option (EventRecord * Z) :=
  if Z.of_nat (length buf) <? off then None
  else if negb (off mod 8 =? 0) then None
  else
    '(header, after) ← header_from_prefix (drop (Z.to_nat off) buf);
    if Z.of_nat (length after) <? h_len header then None
    else
      let off' := off + EVENT_HEADER_SIZE + h_len header in
      Some (mkRecord header (take (Z.to_nat (h_len header)) after), Z.land (off' + 7) (Z.lnot 7)).

Fixpoint collect (fuel : nat) (buf : list Z) (off : Z) : list EventRecord :=
  match fuel with
  | O => []
  | S fuel' =>
      match stream_next buf off with
      | None => []
      | Some (r, off') => r :: collect fuel' buf off'
      end
  end.

(** Every record takes at least a header, so the length of the buffer is enough. *)
Definition stream_fuel (buf : list Z) : nat := S (length buf / 32).
Definition EventStream (buf : list Z) : list EventRecord := collect (stream_fuel buf) buf 0.

Definition category_of (kind : Z) : Z :=
  if kind =? as_u16 Exit then CAT_EXIT else if kind =? as_u16 Serial then CAT_SERIAL
  else if kind =? as_u16 Inject then CAT_INJECT else if kind =? as_u16 Randomness then CAT_RANDOMNESS
  else if kind =? as_u16 IoChannel then CAT_IO_CHANNEL else if kind =? as_u16 Diagnostic then CAT_DIAGNOSTIC else 0.

(** ** Round trips *)
Lemma align_8 n : Z.land (n + 7) (Z.lnot 7) = 8 * ((n + 7) / 8).
Proof.
  rewrite <-Z.ldiff_land. change 7 with (Z.ones 3) at 2. rewrite Z.ldiff_ones_r by lia.
  rewrite Z.shiftl_mul_pow2, Z.shiftr_div_pow2 by lia. change (2 ^ 3) with 8. lia.
Qed.

Lemma align_up_8 n : align_up n 8 = 8 * ((n + 7) / 8).
Proof. unfold align_up. replace (n + 8 - 1) with (n + 7) by lia. apply align_8. Qed.

Lemma align_up_bounds n : 0 ≤ n → n ≤ align_up n 8 < n + 8 ∧ align_up n 8 mod 8 = 0.
Proof.
  intros. rewrite align_up_8. split; [Z.to_euclidean_division_equations; lia|].
  rewrite Z.mul_comm. by apply Z.mod_mul.
Qed.

Lemma bits_i64_bits z : in_i64 z → bits_i64 (i64_bits z) = z.
Proof.
  unfold in_i64, bits_i64, i64_bits, u64, wrap. intros.
  destruct (Z.ltb_spec (z mod 2 ^ 64) (2 ^ 63)); Z.to_euclidean_division_equations; lia.
Qed.

Lemma exit_of_values_values junk r : exit_ok r → exit_of_values (exit_values junk r) = r.
Proof.
  intros [H1 H2 H3 H4 H5 _ _ Hs]. repeat setoid_rewrite Forall_cons in Hs.
  destruct Hs as (Hs1 & Hs2 & Hs3 & _).
  destruct r as [a1 a2 a3 a4 g h mh b ist cp s1 s2 s3 it ad d p]. simpl in *.
  repeat (destruct g as [|? g]; simpl in H1; try done). repeat (destruct h as [|? h]; simpl in H2; try done).
  repeat (destruct b as [|? b]; simpl in H3; try done). repeat (destruct d as [|? d]; simpl in H4; try done).
  repeat (destruct p as [|? p]; simpl in H5; try done).
  unfold exit_of_values, exit_values. simpl. by rewrite !bits_i64_bits.
Qed.

Lemma Forall2_replicate_Forall {A B} (P : A → B → Prop) n x l :
  length l = n → Forall (P x) l → Forall2 P (replicate n x) l.
Proof. intros <-. induction 1; simpl; auto. Qed.

Lemma in_width_0 w : 0 ≤ w → in_width w 0.
Proof. intros. split; [lia|]. apply Z.pow_pos_nonneg; lia. Qed.
#[export] Hint Resolve in_width_0 : bedrock.

(** Proves that the values of a struct fit its fields. *)
Ltac layout_fits :=
  repeat match goal with
  | |- Forall2 _ (replicate _ _) _ => by apply Forall2_replicate_Forall
  | |- Forall2 _ (_ ++ _) _ => apply Forall2_app
  | |- Forall2 _ (_ :: _) _ => apply List.Forall2_cons
  | |- Forall2 _ [] _ => apply List.Forall2_nil
  end; first [done | apply in_width_u64 | apply in_width_0; lia].

Lemma exit_fits junk r : exit_ok r → in_width 32 junk → fits exit_layout (exit_values junk r).
Proof.
  intros [H1 H2 H3 H4 H5 Hw Hh Hs] Hj. rewrite !Forall_app in Hw. repeat setoid_rewrite Forall_cons in Hw.
  repeat setoid_rewrite Forall_cons in Hh. repeat setoid_rewrite Forall_cons in Hs. deex.
  unfold fits, exit_layout, exit_values, i64_bits.
  layout_fits.
Qed.

Lemma length_exit_bytes junk r : exit_ok r → length (exit_bytes junk r) = 512%nat.
Proof.
  intros [H1 H2 H3 H4 H5 _ _ _]. unfold exit_bytes. rewrite length_encode; [done|].
  unfold exit_values. rewrite !length_app, H1, H2, H3, H4, H5. done.
Qed.

(** What the producer puts behind a header, for each kind of event. *)
Definition event_kind (e : Event) : Z :=
  match e with
  | EvExit _ => as_u16 Exit | EvSerial _ => as_u16 Serial | EvInject _ => as_u16 Inject
  | EvRandomness _ _ => as_u16 Randomness | EvIoChannel _ _ => as_u16 IoChannel
  | EvUnknown k _ => k | EvMalformed => as_u16 Exit
  end.
Definition event_payload (junk : Z) (e : Event) : list Z :=
  match e with
  | EvExit r => exit_bytes junk r
  | EvSerial bs => bs
  | EvInject p => inject_bytes p
  | EvRandomness p bs => random_bytes p ++ bs
  | EvIoChannel p data => io_bytes p ++ data
  | EvUnknown _ bs => bs
  | EvMalformed => []
  end.
Definition event_ok (e : Event) : Prop :=
  match e with
  | EvExit r => exit_ok r
  | EvInject p => in_width 8 (ip_vector p) ∧ in_width 8 (ip_source p) ∧ in_width 64 (ip_target_tsc p)
  | EvRandomness p _ => in_width 64 (rp_value p) ∧ in_width 32 (rp_pid p) ∧ in_width 8 (rp_source p) ∧ in_width 8 (rp_width p)
  | EvIoChannel p _ => in_width 8 (io_phase p) ∧ in_width 64 (io_target_tsc p)
  | EvUnknown k _ => 5 ≤ k
  | _ => True
  end.

Lemma event_decode_encode_spec e h junk :
  event_ok e → in_width 32 junk → h_kind h = event_kind e →
  event (mkRecord h (event_payload junk e)) = e.
Proof.
  intros He Hj Hk. unfold event. cbn [r_header r_payload]. rewrite Hk. destruct e as [r|bs|p|p bs|p d|k bs|];
    cbn [event_ok] in He; cbn [event_kind event_payload as_u16 Z.eqb Pos.eqb].
  - unfold exit_bytes. rewrite <-(app_nil_r (encode _ _)), decode_encode by (by apply exit_fits).
    by rewrite exit_of_values_values.
  - done.
  - unfold inject_bytes. rewrite <-(app_nil_r (encode _ _)), decode_encode; [by destruct p|].
    destruct He as (? & ? & ?). unfold fits, inject_layout. layout_fits.
  - unfold random_bytes. rewrite decode_encode; [by destruct p|].
    destruct He as (? & ? & ? & ?). unfold fits, random_layout. layout_fits.
  - unfold io_bytes. rewrite decode_encode; [by destruct p|].
    destruct He as (? & ?). unfold fits, io_layout. layout_fits.
  - unfold as_u16. repeat match goal with |- context [k =? ?n] => destruct (Z.eqb_spec k n); [lia|] end. done.
  - done.
Qed.

(** C25: what the producer writes for an event, the reader decodes to the same
    event, for every kind; the four padding bytes of an exit record do not
    matter, and an empty exit payload is reported as malformed. *)
Theorem event_decode_encode e h junk :
  event_ok e → in_width 32 junk → h_kind h = event_kind e →
  event (mkRecord h (event_payload junk e)) = e.
Proof. apply event_decode_encode_spec. Qed.

(** ** The stream *)

(** A record on the wire: header, payload, zeros up to a multiple of 8. *)
Definition record_size (len : Z) : Z := EVENT_HEADER_SIZE + align_up len 8.
Definition record_bytes (r : EventRecord) : list Z :=
  let len := Z.of_nat (length (r_payload r)) in
  header_bytes (r_header r) ++ r_payload r ++ replicate (Z.to_nat (align_up len 8 - len)) 0.
Definition stream_bytes (rs : list EventRecord) : list Z := concat (record_bytes <$> rs).

Record record_ok (r : EventRecord) : Prop := {
  ro_seq : in_width 64 (h_seq (r_header r)); ro_tsc : in_width 64 (h_tsc (r_header r));
  ro_real : in_width 64 (h_real_tsc (r_header r)); ro_kind : in_width 16 (h_kind (r_header r));
  ro_flags : in_width 16 (h_flags (r_header r)); ro_width : in_width 32 (h_len (r_header r));
  ro_len : h_len (r_header r) = Z.of_nat (length (r_payload r));
}.

Lemma length_header_bytes h : length (header_bytes h) = 32%nat.
Proof. unfold header_bytes. by rewrite length_encode. Qed.

Lemma length_record_bytes r : Z.of_nat (length (record_bytes r)) = record_size (Z.of_nat (length (r_payload r))).
Proof.
  unfold record_bytes, record_size, EVENT_HEADER_SIZE.
  rewrite !length_app, length_header_bytes, length_replicate.
  pose proof (align_up_bounds (Z.of_nat (length (r_payload r)))). lia.
Qed.

Lemma record_size_bounds len : 0 ≤ len → 32 + len ≤ record_size len ∧ record_size len mod 8 = 0.
Proof.
  intros. unfold record_size, EVENT_HEADER_SIZE. destruct (align_up_bounds len) as [? Hm]; [done|].
  split; [lia|]. Z.to_euclidean_division_equations. lia.
Qed.

Lemma header_roundtrip r rest : record_ok r → header_from_prefix (header_bytes (r_header r) ++ rest) = Some (r_header r, rest).
Proof.
  intros [H1 H2 H3 H4 H5 H6 _]. unfold header_from_prefix, header_bytes. rewrite decode_encode.
  - by destruct (r_header r).
  - unfold fits, header_layout. layout_fits.
Qed.

Lemma stream_next_record pre r post :
  Z.of_nat (length pre) mod 8 = 0 → record_ok r →
  stream_next (pre ++ record_bytes r ++ post) (Z.of_nat (length pre)) =
    Some (r, Z.of_nat (length (pre ++ record_bytes r))).
Proof.
  intros Hpre Hr. unfold stream_next. rewrite length_app.
  destruct (Z.ltb_spec (Z.of_nat (length pre + length (record_bytes r ++ post))) (Z.of_nat (length pre))); [lia|].
  rewrite Hpre. cbn [Z.eqb negb]. rewrite Nat2Z.id, drop_app_length. unfold record_bytes at 1.
  rewrite <-!app_assoc, header_roundtrip by done. cbn [mbind option_bind].
  rewrite (ro_len _ Hr), length_app.
  destruct (Z.ltb_spec (Z.of_nat (length (r_payload r) + length (replicate (Z.to_nat (align_up (Z.of_nat (length (r_payload r))) 8 - Z.of_nat (length (r_payload r)))) 0 ++ post)))
    (Z.of_nat (length (r_payload r)))); [lia|].
  rewrite Nat2Z.id, take_app_length. f_equal. f_equal; [by destruct r|].
  rewrite length_app, Nat2Z.inj_add, length_record_bytes, align_8. unfold record_size, EVENT_HEADER_SIZE.
  rewrite align_up_8. Z.to_euclidean_division_equations. lia.
Qed.

Lemma stream_next_end buf : stream_next buf (Z.of_nat (length buf)) = None.
Proof.
  unfold stream_next. rewrite Z.ltb_irrefl, Nat2Z.id, drop_ge by done.
  destruct (negb _); [done|]. done.
Qed.

Lemma collect_records rs pre fuel :
  Z.of_nat (length pre) mod 8 = 0 → Forall record_ok rs → (length rs < fuel)%nat →
  collect fuel (pre ++ stream_bytes rs) (Z.of_nat (length pre)) = rs.
Proof.
  revert pre fuel. induction rs as [|r rs IH]; intros pre fuel Hpre Hrs Hf; (destruct fuel as [|fuel]; [simpl in Hf; lia|]).
  - unfold stream_bytes. simpl. rewrite app_nil_r, stream_next_end. done.
  - apply Forall_cons in Hrs as [Hr Hrs]. unfold stream_bytes. cbn [collect fmap list_fmap concat].
    rewrite stream_next_record by done. f_equal. rewrite app_assoc. apply IH; [|done|simpl in Hf; lia].
    rewrite length_app, Nat2Z.inj_add, length_record_bytes.
    destruct (record_size_bounds (Z.of_nat (length (r_payload r)))) as [_ Hm]; [lia|].
    Z.to_euclidean_division_equations. lia.
Qed.

Lemma length_stream_bytes rs : (32 * length rs ≤ length (stream_bytes rs))%nat.
Proof.
  unfold stream_bytes. induction rs as [|r rs IH]; [simpl; lia|]. cbn [fmap list_fmap concat length].
  rewrite length_app. pose proof (length_record_bytes r).
  destruct (record_size_bounds (Z.of_nat (length (r_payload r)))); lia.
Qed.

Lemma stream_roundtrip rs : Forall record_ok rs → EventStream (stream_bytes rs) = rs.
Proof.
  intros Hrs. unfold EventStream. apply (collect_records rs []); [done|done|].
  unfold stream_fuel. pose proof (length_stream_bytes rs).
  assert (length rs ≤ length (stream_bytes rs) / 32)%nat by (apply Nat.div_le_lower_bound; lia). lia.
Qed.

(** *** On arbitrary bytes *)
Lemma stream_next_bounds buf off r off' :
  Forall is_byte buf → 0 ≤ off → stream_next buf off = Some (r, off') →
  off + 32 + h_len (r_header r) ≤ Z.of_nat (length buf) ∧ off + 32 + h_len (r_header r) ≤ off' ∧
  h_len (r_header r) = Z.of_nat (length (r_payload r)).
Proof.
  intros Hb Ho. unfold stream_next. destruct (Z.ltb_spec (Z.of_nat (length buf)) off) as [|Hle]; [done|].
  destruct (negb _); [done|]. unfold header_from_prefix.
  destruct (decode header_layout (drop (Z.to_nat off) buf)) as [[vals rest]|] eqn:Hd; [|done].
  assert (length vals = 6%nat) as Hl by (by destruct (decode_length _ _ _ _ Hd)).
  destruct vals as [|v1 [|v2 [|v3 [|v4 [|v5 [|v6 [|]]]]]]]; try done. cbn [mbind option_bind h_len].
  destruct (Z.ltb_spec (Z.of_nat (length rest)) v6) as [|Hv]; [done|]. intros [= <- <-]. cbn [r_header r_payload h_len].
  destruct (decode_length _ _ _ _ Hd) as [Hr _]. apply (f_equal length) in Hr.
  rewrite length_app, length_take, length_drop in Hr. change (sum_list header_layout) with 32%nat in Hr.
  assert (¬ (length (drop (Z.to_nat off) buf) < 32)%nat) as H32.
  { intros Hlt. assert (decode header_layout (drop (Z.to_nat off) buf) = None) by (by apply decode_None). congruence. }
  rewrite length_drop in H32. assert (0 ≤ v6) as Hpos.
  { apply decode_fits in Hd; [|by apply Forall_drop].
    do 5 apply Forall2_cons_1 in Hd as [_ Hd]. apply Forall2_cons_1 in Hd as [Hd _]. apply Hd. }
  rewrite length_take, align_8. unfold EVENT_HEADER_SIZE. Z.to_euclidean_division_equations. lia.
Qed.

Lemma collect_fuel buf fuel fuel' off :
  Forall is_byte buf → 0 ≤ off → (Z.to_nat (Z.of_nat (length buf) - off) / 32 < fuel)%nat → (fuel ≤ fuel')%nat →
  collect fuel' buf off = collect fuel buf off.
Proof.
  intros Hb. revert fuel' off. induction fuel as [|fuel IH]; intros fuel' off Ho Hf Hle; [lia|].
  destruct fuel' as [|fuel']; [lia|]. simpl. destruct (stream_next buf off) as [[r off']|] eqn:Hn; [|done].
  destruct (stream_next_bounds _ _ _ _ Hb Ho Hn) as (H1 & H2 & H3). f_equal. apply IH; [lia| |lia].
  assert (Z.to_nat (Z.of_nat (length buf) - off') / 32 + 1 ≤ Z.to_nat (Z.of_nat (length buf) - off) / 32)%nat; [|lia].
  assert (1 * 32 ≤ Z.to_nat (Z.of_nat (length buf) - off))%nat by lia.
  transitivity ((Z.to_nat (Z.of_nat (length buf) - off) - 32) / 32 + 1)%nat.
  - apply Nat.add_le_mono_r, Nat.Div0.div_le_mono. lia.
  - rewrite <-Nat.div_add by lia. apply Nat.Div0.div_le_mono. lia.
Qed.

Definition consumed (rs : list EventRecord) : Z := foldr (λ r n, EVENT_HEADER_SIZE + h_len (r_header r) + n) 0 rs.

Lemma collect_bounds fuel buf off :
  Forall is_byte buf → 0 ≤ off ≤ Z.of_nat (length buf) →
  off + consumed (collect fuel buf off) ≤ Z.of_nat (length buf) ∧
  Forall (λ r, h_len (r_header r) = Z.of_nat (length (r_payload r))) (collect fuel buf off).
Proof.
  intros Hb. revert off. induction fuel as [|fuel IH]; intros off Ho; simpl; [split; [lia|done]|].
  destruct (stream_next buf off) as [[r off']|] eqn:Hn; simpl; [|split; [lia|done]].
  destruct (stream_next_bounds _ _ _ _ Hb (proj1 Ho) Hn) as (H1 & H2 & H3). unfold EVENT_HEADER_SIZE in *.
  destruct (Z.le_gt_cases off' (Z.of_nat (length buf))) as [Hle|Hgt].
  - destruct (IH off') as [Hc Hf]; [lia|]. split; [lia|by constructor].
  - assert (collect fuel buf off' = []) as ->.
    { destruct fuel; [done|]. simpl. unfold stream_next. by rewrite (proj2 (Z.ltb_lt _ _) Hgt). }
    simpl. split; [lia|by constructor].
Qed.

(** On arbitrary bytes, even a truncated or corrupted drain, the reader
    stops after finitely many records (one per 32 bytes at most), never yields
    a payload of another length than its header says, and the records it
    yields lie inside the buffer without overlap. *)
Theorem event_stream_total buf :
  Forall is_byte buf →
  (∀ fuel, (stream_fuel buf ≤ fuel)%nat → collect fuel buf 0 = EventStream buf) ∧
  (32 * length (EventStream buf) ≤ length buf)%nat ∧
  consumed (EventStream buf) ≤ Z.of_nat (length buf) ∧
  Forall (λ r, h_len (r_header r) = Z.of_nat (length (r_payload r))) (EventStream buf).
Proof.
  intros Hb. destruct (collect_bounds (stream_fuel buf) buf 0 Hb) as [Hc Hf]; [lia|]. fold (EventStream buf) in *.
  split; [|split; [|split; [lia|done]]].
  - intros fuel Hle. apply collect_fuel; [done|lia| |done]. unfold stream_fuel. rewrite Z.sub_0_r, Nat2Z.id. lia.
  - assert (32 * Z.of_nat (length (EventStream buf)) ≤ consumed (EventStream buf)); [|lia].
    clear Hc. revert Hf. generalize (EventStream buf). intros rs. induction 1 as [|r rs Hr _ IH]; simpl; [lia|].
    unfold EVENT_HEADER_SIZE. lia.
Qed.

Lemma event_stream_total_witness : EventStream [1; 2; 3] = [] ∧ consumed (EventStream [1; 2; 3]) ≤ 3.
Proof.
  split; [reflexivity|]. apply (event_stream_total [1; 2; 3]). repeat constructor; discriminate.
Defined.

Lemma event_decode_encode_witness :
  event (mkRecord (mkHeader 0 0 0 2 1 16) (event_payload 0 (EvInject (mkInject 0x20 0 77)))) = EvInject (mkInject 0x20 0 77).
Proof.
  apply (event_decode_encode (EvInject (mkInject 0x20 0 77)) (mkHeader 0 0 0 2 1 16) 0);
    [vm_compute; intuition discriminate|split; lia|reflexivity].
Defined.
