(* ===== verification/EventLog.v ===== *)
(** * The event producer (crate [bedrock-vmx]: [vm_state.rs], event section;
    crate [bedrock]: [handle_set_event_config])

    The hypervisor writes records into a 1 MiB buffer it shares with userspace.
    When the buffer is full it stages one record, the dispatcher leaves to
    userspace for a drain, and [event_clear] puts the staged record at the front
    of the empty buffer.  [EventState] is the part of [VmState] this concerns;
    the memory behind a pointer is a function from offsets to bytes, and the
    values of [rdtsc] are arguments.  The second half gives the abstract log
    this implements and proves the refinement. *)
From S2P Require Import Prelude Wire.

(** ** Raw memory *)
Section Memory.
Implicit Types (m : Z → Z) (bs : list Z).
Definition load m (off : Z) (n : nat) : list Z := (λ i, m (off + Z.of_nat i)) <$> seq 0 n.
Definition store m (off : Z) bs : Z → Z := λ a,
  if a <? off then m a else default (m a) (bs !! Z.to_nat (a - off)).
End Memory.

(** ** State *)
Definition IO_CHANNEL_BUF_SIZE : Z := 4096.
Definition STAGE_CAP : nat := Z.to_nat IO_CHANNEL_BUF_SIZE.
Definition SERIAL_CONSOLE_PAGE_SIZE : Z := 4096.
Definition SERIAL_LINE_ACC_SIZE : Z := 256.

Inductive ExitLoc := LocBuffer (off : Z) | LocPending.

Record EventState := mkES {
  event_buffer : option (Z → Z);
  event_len : Z;
  event_seq : Z;
  event_categories : Z;
  event_pending : option EventKind;
  event_pending_buf : Z → Z;
  event_pending_len : Z;
  event_pending_flags : Z;
  event_pending_tsc : Z;
  event_pending_real_tsc : Z;
  pending_exit_loc : option ExitLoc;
  serial_line_buf : Z → Z;
  serial_line_len : Z;
  serial_line_tsc : Z;
  serial_line_real_tsc : Z;
}.
Implicit Types es : EventState.

(** Updates of one group of fields. *)
Definition set_log (b : option (Z → Z)) (len seq : Z) es : EventState :=
  mkES b len seq (event_categories es) (event_pending es) (event_pending_buf es) (event_pending_len es)
    (event_pending_flags es) (event_pending_tsc es) (event_pending_real_tsc es) (pending_exit_loc es)
    (serial_line_buf es) (serial_line_len es) (serial_line_tsc es) (serial_line_real_tsc es).
Definition set_pending (k : option EventKind) (buf : Z → Z) (len flags tsc real_tsc : Z) es : EventState :=
  mkES (event_buffer es) (event_len es) (event_seq es) (event_categories es) k buf len flags tsc real_tsc
    (pending_exit_loc es) (serial_line_buf es) (serial_line_len es) (serial_line_tsc es) (serial_line_real_tsc es).
Definition set_exit_loc (l : option ExitLoc) es : EventState :=
  mkES (event_buffer es) (event_len es) (event_seq es) (event_categories es) (event_pending es)
    (event_pending_buf es) (event_pending_len es) (event_pending_flags es) (event_pending_tsc es)
    (event_pending_real_tsc es) l
    (serial_line_buf es) (serial_line_len es) (serial_line_tsc es) (serial_line_real_tsc es).
Definition set_serial_line (buf : Z → Z) (len tsc real_tsc : Z) es : EventState :=
  mkES (event_buffer es) (event_len es) (event_seq es) (event_categories es) (event_pending es)
    (event_pending_buf es) (event_pending_len es) (event_pending_flags es) (event_pending_tsc es)
    (event_pending_real_tsc es) (pending_exit_loc es) buf len tsc real_tsc.
Definition set_event_categories (c : Z) es : EventState :=
  mkES (event_buffer es) (event_len es) (event_seq es) c (event_pending es)
    (event_pending_buf es) (event_pending_len es) (event_pending_flags es) (event_pending_tsc es)
    (event_pending_real_tsc es) (pending_exit_loc es)
    (serial_line_buf es) (serial_line_len es) (serial_line_tsc es) (serial_line_real_tsc es).

(** ** Operations *)
Definition set_event_buffer (m : Z → Z) es : EventState := set_log (Some m) (event_len es) (event_seq es) es.
Definition clear_event_buffer_ptr es : EventState :=
  set_pending None (event_pending_buf es) 0 (event_pending_flags es) (event_pending_tsc es) (event_pending_real_tsc es)
    (set_log None 0 (event_seq es) es).
Definition event_buffer_full es : bool := match event_pending es with Some _ => true | None => false end.

(** [event_write]: the record, its payload in two parts. *)
Definition event_write (kind : EventKind) (flags tsc real_tsc : Z) (head tail : list Z) es : bool * EventState :=
  if negb (contains (event_categories es) (category kind)) then (true, es)
  else
    match event_buffer es with
    | None => (true, es)
    | Some base =>
        let head_len := Z.of_nat (length head) in
        let tail_len := Z.of_nat (length tail) in
        let len := head_len + tail_len in
        let need := EVENT_HEADER_SIZE + align_up len 8 in
        if EVENT_BUFFER_SIZE <? event_len es + need then
          match event_pending es with
          | Some _ => (false, es)
          | None =>
              let cap := IO_CHANNEL_BUF_SIZE in
              let head_copy := Z.min head_len cap in
              let tail_copy := Z.min tail_len (cap - head_copy) in
              let dst := store (event_pending_buf es) 0 (take (Z.to_nat head_copy) head) in
              let dst := if 0 <? tail_copy then store dst head_copy (take (Z.to_nat tail_copy) tail) else dst in
              (false, set_pending (Some kind) dst (head_copy + tail_copy) flags tsc real_tsc es)
          end
        else
          let header := mkHeader (event_seq es) tsc real_tsc (as_u16 kind) flags (u32 len) in
          let padded := align_up len 8 in
          let rec := event_len es in
          let m := store base rec (header_bytes header) in
          let m := store m (rec + EVENT_HEADER_SIZE) head in
          let m := if 0 <? tail_len then store m (rec + EVENT_HEADER_SIZE + head_len) tail else m in
          let m := store m (rec + EVENT_HEADER_SIZE + len) (replicate (Z.to_nat (padded - len)) 0) in
          (true, set_log (Some m) (event_len es + need) (event_seq es +! 1) es)
    end.

Definition event_append (kind : EventKind) (payload : list Z) (emulated_tsc rdtsc : Z) es : bool * EventState :=
  if negb (contains (event_categories es) (category kind)) then (true, es)
  else event_write kind (default_flags kind) emulated_tsc rdtsc payload [] es.

Definition event_append_at (kind : EventKind) (payload : list Z) (tsc real_tsc : Z) es : bool * EventState :=
  event_write kind (default_flags kind) tsc real_tsc payload [] es.

Definition event_flush_serial_line es : bool * EventState :=
  if serial_line_len es =? 0 then (true, es)
  else
    let payload := load (serial_line_buf es) 0 (Z.to_nat (serial_line_len es)) in
    let tsc := serial_line_tsc es in
    let real_tsc := serial_line_real_tsc es in
    event_append_at Serial payload tsc real_tsc (set_serial_line (serial_line_buf es) 0 tsc real_tsc es).

Definition event_serial_byte (byte : Z) (emulated_tsc rdtsc : Z) es : bool * EventState :=
  if negb (contains (event_categories es) CAT_SERIAL) then (true, es)
  else
    let es1 := if serial_line_len es =? 0
               then set_serial_line (serial_line_buf es) (serial_line_len es) emulated_tsc rdtsc es else es in
    let es2 := if serial_line_len es1 <? SERIAL_LINE_ACC_SIZE
               then set_serial_line (store (serial_line_buf es1) (serial_line_len es1) [byte]) (serial_line_len es1 + 1)
                      (serial_line_tsc es1) (serial_line_real_tsc es1) es1 else es1 in
    if (byte =? 10) || (serial_line_len es2 =? SERIAL_LINE_ACC_SIZE) then event_flush_serial_line es2 else (true, es2).

(** The argument is [serial_console.pending_buf]. *)
Definition event_emit_console (pending_buf : Z → Z) (len : Z) (emulated_tsc rdtsc : Z) es : bool * EventState :=
  if negb (contains (event_categories es) CAT_SERIAL) then (true, es)
  else
    let len := Z.min len SERIAL_CONSOLE_PAGE_SIZE in
    event_write Serial (default_flags Serial) emulated_tsc rdtsc (load pending_buf 0 (Z.to_nat len)) [] es.

(** The arguments are the request and response buffers of the I/O channel. *)
Definition event_emit_io_channel (payload : IoChannelPayload) (request_buf response_buf : Z → Z)
    (request_len response_len : Z) (emulated_tsc rdtsc : Z) es : bool * EventState :=
  if negb (contains (event_categories es) CAT_IO_CHANNEL) then (true, es)
  else
    let is_response := io_phase payload =? phase_u8 Response in
    let data := if is_response then response_buf else request_buf in
    let data_len := if is_response then response_len else request_len in
    let flags := if is_response then 0 else EVENT_FLAG_DETERMINISTIC in
    let data_len := Z.min data_len IO_CHANNEL_BUF_SIZE in
    event_write IoChannel flags emulated_tsc rdtsc (io_bytes payload) (load data 0 (Z.to_nat data_len)) es.

(** The argument is the 512 bytes of the stack-built [ExitRecord]. *)
Definition emit_exit_event (entry : list Z) (deterministic : bool) (emulated_tsc rdtsc : Z) es : EventState :=
  let es := set_exit_loc None es in
  match event_buffer es with
  | None => es
  | Some _ =>
      if negb (contains (event_categories es) CAT_EXIT) then es
      else
        let flags := if deterministic then EVENT_FLAG_DETERMINISTIC else 0 in
        let payload_off := event_len es + EVENT_HEADER_SIZE in
        let '(fit, es') := event_write Exit flags emulated_tsc rdtsc entry [] es in
        set_exit_loc (Some (if fit : bool then LocBuffer payload_off else LocPending)) es'
  end.

(** [offset_of!(ExitRecord, _)]. *)
Definition memory_hash_off : nat := 216.
Definition cow_page_count_off : nat := 300.

Definition finalize_exit_memory_hash (memory_hash cow_page_count : Z) es : EventState :=
  match pending_exit_loc es with
  | None => es
  | Some loc =>
      let es := set_exit_loc None es in
      let patch m base :=
        store (store m (base + Z.of_nat memory_hash_off) (le_bytes 8 memory_hash))
          (base + Z.of_nat cow_page_count_off) (le_bytes 4 cow_page_count) in
      match loc with
      | LocBuffer payload_off =>
          match event_buffer es with
          | Some base => set_log (Some (patch base payload_off)) (event_len es) (event_seq es) es
          | None => es
          end
      | LocPending =>
          set_pending (event_pending es) (patch (event_pending_buf es) 0) (event_pending_len es)
            (event_pending_flags es) (event_pending_tsc es) (event_pending_real_tsc es) es
      end
  end.

Definition event_len_at_last_record es : Z :=
  let total := EVENT_HEADER_SIZE + align_up (event_pending_len es) 8 in
  event_len es -! total +! EVENT_HEADER_SIZE.

Definition event_clear es : EventState :=
  let es := set_log (event_buffer es) 0 (event_seq es) es in
  match event_pending es with
  | None => es
  | Some kind =>
      let payload := load (event_pending_buf es) 0 (Z.to_nat (event_pending_len es)) in
      let es := set_pending None (event_pending_buf es) (event_pending_len es) (event_pending_flags es)
                  (event_pending_tsc es) (event_pending_real_tsc es) es in
      let '(_, es) := event_write kind (event_pending_flags es) (event_pending_tsc es) (event_pending_real_tsc es) payload [] es in
      let es := if bool_decide (kind = Exit) && match pending_exit_loc es with Some LocPending => true | _ => false end
                then set_exit_loc (Some (LocBuffer (event_len_at_last_record es))) es else es in
      set_pending (event_pending es) (event_pending_buf es) 0 (event_pending_flags es) (event_pending_tsc es) (event_pending_real_tsc es) es
  end.

(** [handle_set_event_config], the stream's part; [fresh] is the content of the
    buffer [EventBuffer::new] returns. *)
Definition handle_set_event_config (enabled : bool) (categories : Z) (fresh : Z → Z) es : EventState :=
  let was_enabled := match event_buffer es with Some _ => true | None => false end in
  let es :=
    if enabled && negb was_enabled then set_event_buffer fresh es
    else if negb enabled && was_enabled then clear_event_buffer_ptr es
    else es in
  set_event_categories categories es.

(** What userspace drains: [buf[0..event_len]]. *)
Definition drain es : list Z :=
  match event_buffer es with Some m => load m 0 (Z.to_nat (event_len es)) | None => [] end.

(** [VmState::new]: no buffer, no categories. *)
Definition event_state_new (pbuf sbuf : Z → Z) : EventState :=
  mkES None 0 0 0 None pbuf 0 0 0 0 None sbuf 0 0 0.

(** ** The abstract log

    A list of records since the last drain, at most one staged record, and the
    number of the next record. *)
Record staged := mkStaged { st_kind : EventKind; st_flags : Z; st_tsc : Z; st_real_tsc : Z; st_payload : list Z }.
Inductive aloc := InLog (i : nat) | InStaged.

Record alog := mkA {
  a_attached : bool;
  a_cats : Z;
  a_log : list EventRecord;
  a_staged : option staged;
  a_seq : Z;
  a_exit : option aloc;
  a_line : list Z; a_line_tsc : Z; a_line_real_tsc : Z;
}.
Implicit Types a : alog.

Definition a_with_log (l : list EventRecord) (seq : Z) a : alog :=
  mkA (a_attached a) (a_cats a) l (a_staged a) seq (a_exit a) (a_line a) (a_line_tsc a) (a_line_real_tsc a).
Definition a_with_staged (s : option staged) a : alog :=
  mkA (a_attached a) (a_cats a) (a_log a) s (a_seq a) (a_exit a) (a_line a) (a_line_tsc a) (a_line_real_tsc a).
Definition a_with_exit (l : option aloc) a : alog :=
  mkA (a_attached a) (a_cats a) (a_log a) (a_staged a) (a_seq a) l (a_line a) (a_line_tsc a) (a_line_real_tsc a).
Definition a_with_line (l : list Z) (tsc real_tsc : Z) a : alog :=
  mkA (a_attached a) (a_cats a) (a_log a) (a_staged a) (a_seq a) (a_exit a) l tsc real_tsc.

Definition mk_record (seq : Z) (s : staged) : EventRecord :=
  mkRecord (mkHeader seq (st_tsc s) (st_real_tsc s) (as_u16 (st_kind s)) (st_flags s) (Z.of_nat (length (st_payload s)))) (st_payload s).

Definition log_size (l : list EventRecord) : Z := Z.of_nat (length (stream_bytes l)).

Definition a_emit (s : staged) a : bool * alog :=
  if negb (contains (a_cats a) (category (st_kind s))) || negb (a_attached a) then (true, a)
  else if EVENT_BUFFER_SIZE <? log_size (a_log a) + record_size (Z.of_nat (length (st_payload s))) then
    match a_staged a with
    | Some _ => (false, a)
    | None => (false, a_with_staged (Some (mkStaged (st_kind s) (st_flags s) (st_tsc s) (st_real_tsc s) (take STAGE_CAP (st_payload s)))) a)
    end
  else (true, a_with_log (a_log a ++ [mk_record (a_seq a) s]) (a_seq a +! 1) a).

(** The two late fields of an exit record. *)
Definition patch_payload (memory_hash cow_page_count : Z) (p : list Z) : list Z :=
  list_inserts cow_page_count_off (le_bytes 4 cow_page_count) (list_inserts memory_hash_off (le_bytes 8 memory_hash) p).

(** ** Operations as values *)
Inductive op :=
| OAppend (k : EventKind) (payload : list Z) (tsc real_tsc : Z)
| OSerialByte (b tsc real_tsc : Z)
| OFlush
| OConsole (buf : Z → Z) (len tsc real_tsc : Z)
| OIo (p : IoChannelPayload) (req resp : Z → Z) (req_len resp_len tsc real_tsc : Z)
| OExit (entry : list Z) (det : bool) (tsc real_tsc : Z)
| OFinalize (memory_hash cow_page_count : Z)
| OClear
| OConfig (enabled : bool) (categories : Z) (fresh : Z → Z).

Definition apply_op es (o : op) : EventState :=
  match o with
  | OAppend k p t r => (event_append k p t r es).2
  | OSerialByte b t r => (event_serial_byte b t r es).2
  | OFlush => (event_flush_serial_line es).2
  | OConsole buf len t r => (event_emit_console buf len t r es).2
  | OIo p req resp rl pl t r => (event_emit_io_channel p req resp rl pl t r es).2
  | OExit entry det t r => emit_exit_event entry det t r es
  | OFinalize mh cc => finalize_exit_memory_hash mh cc es
  | OClear => event_clear es
  | OConfig en c m => handle_set_event_config en c m es
  end.

Definition run_ops es (l : list op) : EventState := foldl apply_op es l.

(** The same operations on the abstract log. *)
Definition a_flush a : alog :=
  match a_line a with
  | [] => a
  | l => (a_emit (mkStaged Serial EVENT_FLAG_DETERMINISTIC (a_line_tsc a) (a_line_real_tsc a) l)
            (a_with_line [] (a_line_tsc a) (a_line_real_tsc a) a)).2
  end.
Definition a_serial_byte (b tsc real_tsc : Z) a : alog :=
  if negb (contains (a_cats a) CAT_SERIAL) then a
  else
    let a1 := match a_line a with [] => a_with_line [b] tsc real_tsc a
              | l => a_with_line (l ++ [b]) (a_line_tsc a) (a_line_real_tsc a) a end in
    if (b =? 10) || (Z.of_nat (length (a_line a1)) =? SERIAL_LINE_ACC_SIZE) then a_flush a1 else a1.
Definition a_io (p : IoChannelPayload) (data : list Z) (response : bool) (tsc real_tsc : Z) a : alog :=
  (a_emit (mkStaged IoChannel (if response then 0 else EVENT_FLAG_DETERMINISTIC) tsc real_tsc (io_bytes p ++ data)) a).2.
Definition a_emit_exit (entry : list Z) (det : bool) (tsc real_tsc : Z) a : alog :=
  let a0 := a_with_exit None a in
  if negb (a_attached a) || negb (contains (a_cats a) CAT_EXIT) then a0
  else
    let '(fit, a1) := a_emit (mkStaged Exit (if det then EVENT_FLAG_DETERMINISTIC else 0) tsc real_tsc entry) a0 in
    a_with_exit (Some (if fit : bool then InLog (length (a_log a)) else InStaged)) a1.
Definition patch_record (mh cc : Z) (r : EventRecord) : EventRecord :=
  mkRecord (r_header r) (patch_payload mh cc (r_payload r)).
Definition patch_staged (mh cc : Z) (s : staged) : staged :=
  mkStaged (st_kind s) (st_flags s) (st_tsc s) (st_real_tsc s) (patch_payload mh cc (st_payload s)).
Definition a_finalize (mh cc : Z) a : alog :=
  let a0 := a_with_exit None a in
  match a_exit a with
  | None => a
  | Some (InLog i) => a_with_log (alter (patch_record mh cc) i (a_log a)) (a_seq a) a0
  | Some InStaged => a_with_staged (patch_staged mh cc <$> a_staged a) a0
  end.
Definition a_clear a : alog :=
  let a0 := a_with_staged None (a_with_log [] (a_seq a) a) in
  match a_staged a with
  | None => a0
  | Some s =>
      let a1 := (a_emit s a0).2 in
      if bool_decide (st_kind s = Exit) && match a_exit a with Some InStaged => true | _ => false end then a_with_exit (Some (InLog 0)) a1 else a1
  end.
Definition a_config (enabled : bool) (categories : Z) a : alog :=
  if enabled then mkA true categories (a_log a) (a_staged a) (a_seq a) (a_exit a) (a_line a) (a_line_tsc a) (a_line_real_tsc a)
  else if a_attached a then mkA false categories [] None (a_seq a) (a_exit a) (a_line a) (a_line_tsc a) (a_line_real_tsc a)
  else mkA false categories (a_log a) (a_staged a) (a_seq a) (a_exit a) (a_line a) (a_line_tsc a) (a_line_real_tsc a).

Definition a_apply a (o : op) : alog :=
  match o with
  | OAppend k p t r => (a_emit (mkStaged k (default_flags k) t r p) a).2
  | OSerialByte b t r => a_serial_byte b t r a
  | OFlush => a_flush a
  | OConsole buf len t r =>
      (a_emit (mkStaged Serial EVENT_FLAG_DETERMINISTIC t r (load buf 0 (Z.to_nat (Z.min len 4096)))) a).2
  | OIo p req resp rl pl t r =>
      let response := io_phase p =? phase_u8 Response in
      let data := if response then load resp 0 (Z.to_nat (Z.min pl 4096)) else load req 0 (Z.to_nat (Z.min rl 4096)) in
      a_io p data response t r a
  | OExit entry det t r => a_emit_exit entry det t r a
  | OFinalize mh cc => a_finalize mh cc a
  | OClear => a_clear a
  | OConfig en c m => a_config en c a
  end.
Definition a_run a (l : list op) : alog := foldl a_apply a l.

Definition a_new : alog := mkA false 0 [] None 0 None [] 0 0.

(** The code's arguments are machine integers; the payloads are far below
    [u32::MAX], an exit record is 512 bytes, and the run loop finalizes the exit
    record before it leaves to userspace, so that no clear or reconfiguration
    happens while a record in the buffer waits for its hash, and none that is
    staged and waits for its hash is cleared with exit records switched off. *)
Definition op_ok a (o : op) : Prop :=
  match o with
  | OAppend k p t r => in_width 64 t ∧ in_width 64 r ∧ Z.of_nat (length p) < 2 ^ 20 ∧ k ≠ Exit
  | OSerialByte _ t r | OConsole _ _ t r | OIo _ _ _ _ _ t r => in_width 64 t ∧ in_width 64 r
  | OExit entry _ t r => in_width 64 t ∧ in_width 64 r ∧ length entry = 512%nat
  | OClear => (∀ i, a_exit a ≠ Some (InLog i)) ∧ (a_exit a = Some InStaged → contains (a_cats a) CAT_EXIT && a_attached a = true)
  | OConfig _ _ _ => ∀ i, a_exit a ≠ Some (InLog i)
  | OFlush | OFinalize _ _ => True
  end.

(** ** Memory lemmas *)
Section MemoryLemmas.
Implicit Types (m : Z → Z) (bs : list Z).

Lemma length_load m off n : length (load m off n) = n.
Proof. unfold load. by rewrite length_fmap, length_seq. Qed.

Lemma lookup_load m off n i : (i < n)%nat → load m off n !! i = Some (m (off + Z.of_nat i)).
Proof. intros. unfold load. rewrite list_lookup_fmap, lookup_seq_lt by done. done. Qed.

Lemma load_add m off n1 n2 : load m off (n1 + n2) = load m off n1 ++ load m (off + Z.of_nat n1) n2.
Proof.
  apply list_eq_same_length with (n1 + n2)%nat; rewrite ?length_app, ?length_load; [done|done|].
  intros i x y Hi. rewrite lookup_load by done.
  destruct (decide (i < n1)%nat) as [Hlt|Hge].
  - rewrite lookup_app_l by (rewrite length_load; lia). rewrite lookup_load by done. congruence.
  - rewrite lookup_app_r by (rewrite length_load; lia). rewrite length_load, lookup_load by lia.
    replace (off + Z.of_nat n1 + Z.of_nat (i - n1)) with (off + Z.of_nat i) by lia. congruence.
Qed.

Lemma store_ne m off bs x : x < off ∨ off + Z.of_nat (length bs) ≤ x → store m off bs x = m x.
Proof.
  unfold store. intros Hx. destruct (Z.ltb_spec x off); [done|].
  rewrite lookup_ge_None_2 by lia. done.
Qed.

Lemma store_eq m off bs i x : bs !! i = Some x → store m off bs (off + Z.of_nat i) = x.
Proof.
  unfold store. intros Hx. destruct (Z.ltb_spec (off + Z.of_nat i) off); [lia|].
  replace (Z.to_nat (off + Z.of_nat i - off)) with i by lia. by rewrite Hx.
Qed.

Lemma load_store_disjoint m off bs off' n :
  off' + Z.of_nat n ≤ off ∨ off + Z.of_nat (length bs) ≤ off' → load (store m off bs) off' n = load m off' n.
Proof.
  intros H. apply list_eq_same_length with n; rewrite ?length_load; [done|done|].
  intros i x y Hi. rewrite !lookup_load by done. rewrite store_ne by lia. congruence.
Qed.

Lemma load_store m off bs : load (store m off bs) off (length bs) = bs.
Proof.
  apply list_eq_same_length with (length bs); rewrite ?length_load; [done|done|].
  intros i x y Hi. rewrite lookup_load by done. intros Hx Hy. rewrite (store_eq _ _ _ _ _ Hy) in Hx. congruence.
Qed.

(** A write inside (or past the end of) what is read. *)
Lemma load_store_inserts m off n x bs :
  off ≤ x → load (store m x bs) off n = list_inserts (Z.to_nat (x - off)) bs (load m off n).
Proof.
  intros Hx. apply list_eq_same_length with n; rewrite ?length_inserts, ?length_load; [done|done|].
  intros i y z Hi. rewrite lookup_load by done. intros Hy Hz.
  destruct (decide (off + Z.of_nat i < x)) as [Hlt|Hge].
  - rewrite store_ne in Hy by lia. rewrite list_lookup_inserts_lt, lookup_load in Hz by lia. congruence.
  - destruct (decide (off + Z.of_nat i < x + Z.of_nat (length bs))) as [Hin|Hout].
    + rewrite list_lookup_inserts in Hz by (rewrite ?length_load; lia).
      replace (off + Z.of_nat i) with (x + Z.of_nat (i - Z.to_nat (x - off))) in Hy by lia.
      rewrite (store_eq _ _ _ _ _ Hz) in Hy. congruence.
    + rewrite store_ne in Hy by lia. rewrite list_lookup_inserts_ge, lookup_load in Hz by lia. congruence.
Qed.

(** Writing consecutive pieces is writing their concatenation. *)
Lemma load_store_app m off b1 b2 m' :
  load m off (length b1) = b1 → m' = store m (off + Z.of_nat (length b1)) b2 →
  load m' off (length (b1 ++ b2)) = b1 ++ b2.
Proof.
  intros H1 ->. rewrite length_app, load_add, load_store. f_equal.
  rewrite load_store_disjoint by lia. done.
Qed.
End MemoryLemmas.

(** ** Refinement *)
Record refines es a : Prop := {
  rf_buffer : match event_buffer es with
              | Some m => a_attached a = true ∧ load m 0 (Z.to_nat (event_len es)) = stream_bytes (a_log a)
              | None => a_attached a = false ∧ a_log a = []
              end;
  rf_len : event_len es = log_size (a_log a);
  rf_cap : event_len es ≤ EVENT_BUFFER_SIZE;
  rf_records : Forall record_ok (a_log a);
  rf_seq : event_seq es = a_seq a;
  rf_seq_width : in_width 64 (a_seq a);
  rf_cats : event_categories es = a_cats a;
  rf_staged : match event_pending es, a_staged a with
              | None, None => True
              | Some k, Some s =>
                  k = st_kind s ∧ load (event_pending_buf es) 0 (Z.to_nat (event_pending_len es)) = st_payload s ∧
                  event_pending_len es = Z.of_nat (length (st_payload s)) ∧ event_pending_len es ≤ 4096 ∧
                  event_pending_flags es = st_flags s ∧ event_pending_tsc es = st_tsc s ∧
                  event_pending_real_tsc es = st_real_tsc s ∧
                  in_width 16 (st_flags s) ∧ in_width 64 (st_tsc s) ∧ in_width 64 (st_real_tsc s) ∧
                  (st_kind s = Exit → length (st_payload s) = 512%nat)
              | _, _ => False
              end;
  rf_exit : match pending_exit_loc es, a_exit a with
            | None, None => True
            | Some LocPending, Some InStaged => True
            | Some (LocBuffer off), Some (InLog i) =>
                ∃ r, a_log a !! i = Some r ∧ length (r_payload r) = 512%nat ∧ off = log_size (take i (a_log a)) + 32
            | _, _ => False
            end;
  rf_line : load (serial_line_buf es) 0 (Z.to_nat (serial_line_len es)) = a_line a;
  rf_line_len : serial_line_len es = Z.of_nat (length (a_line a));
  rf_line_cap : serial_line_len es < SERIAL_LINE_ACC_SIZE;
  rf_line_tsc : serial_line_tsc es = a_line_tsc a ∧ in_width 64 (a_line_tsc a);
  rf_line_real : serial_line_real_tsc es = a_line_real_tsc a ∧ in_width 64 (a_line_real_tsc a);
}.

Definition staged_ok (s : staged) : Prop :=
  in_width 16 (st_flags s) ∧ in_width 64 (st_tsc s) ∧ in_width 64 (st_real_tsc s) ∧
  Z.of_nat (length (st_payload s)) < 2 ^ 32 ∧ (st_kind s = Exit → length (st_payload s) = 512%nat).

Lemma stream_bytes_app l1 l2 : stream_bytes (l1 ++ l2) = stream_bytes l1 ++ stream_bytes l2.
Proof. unfold stream_bytes. by rewrite fmap_app, concat_app. Qed.

Lemma log_size_snoc l r : log_size (l ++ [r]) = log_size l + record_size (Z.of_nat (length (r_payload r))).
Proof.
  unfold log_size. rewrite stream_bytes_app, length_app. unfold stream_bytes at 2. cbn [fmap list_fmap concat]. rewrite app_nil_r.
  rewrite Nat2Z.inj_add, length_record_bytes. done.
Qed.

Lemma mk_record_ok seq s : in_width 64 seq → staged_ok s → record_ok (mk_record seq s).
Proof.
  intros Hs (? & ? & ? & ? & _). constructor; cbn [mk_record r_header r_payload h_seq h_tsc h_real_tsc h_kind h_flags h_len]; try done.
  - destruct (st_kind s); simpl; split; lia.
  - split; lia.
Qed.

(** The four writes of [event_write] put the record's bytes in place. *)
Lemma write_record m off seq s head tail :
  st_payload s = head ++ tail → Z.of_nat (length (st_payload s)) < 2 ^ 32 → 0 ≤ off →
  let len := Z.of_nat (length head) + Z.of_nat (length tail) in
  let m1 := store m off (header_bytes (mkHeader seq (st_tsc s) (st_real_tsc s) (as_u16 (st_kind s)) (st_flags s) (u32 len))) in
  let m2 := store m1 (off + EVENT_HEADER_SIZE) head in
  let m3 := if 0 <? Z.of_nat (length tail) then store m2 (off + EVENT_HEADER_SIZE + Z.of_nat (length head)) tail else m2 in
  let m4 := store m3 (off + EVENT_HEADER_SIZE + len) (replicate (Z.to_nat (align_up len 8 - len)) 0) in
  load m4 0 (Z.to_nat off) = load m 0 (Z.to_nat off) ∧
  load m4 off (Z.to_nat (EVENT_HEADER_SIZE + align_up len 8)) = record_bytes (mk_record seq s).
Proof.
  intros Hp Hl Ho len m1 m2 m3 m4. assert (len = Z.of_nat (length (st_payload s))) as Hlen.
  { unfold len. rewrite Hp, length_app. lia. }
  unfold EVENT_HEADER_SIZE in *. split.
  - unfold m4. rewrite load_store_disjoint by lia. unfold m3.
    destruct (0 <? Z.of_nat (length tail)); [rewrite load_store_disjoint by lia|];
      unfold m2, m1; rewrite !load_store_disjoint by lia; done.
  - unfold record_bytes. cbn [mk_record r_payload r_header]. rewrite <-Hlen.
    set (hdr := mkHeader seq (st_tsc s) (st_real_tsc s) (as_u16 (st_kind s)) (st_flags s) (u32 len)) in *.
    assert (mkHeader seq (st_tsc s) (st_real_tsc s) (as_u16 (st_kind s)) (st_flags s) len = hdr) as ->.
    { unfold hdr, u32. rewrite wrap_small; [done|]. split; lia. }
    pose proof (length_header_bytes hdr) as Hh. set (pad := replicate (Z.to_nat (align_up len 8 - len)) 0) in *.
    assert (load m2 off (length (header_bytes hdr ++ head)) = header_bytes hdr ++ head) as H2.
    { eapply load_store_app; [apply load_store|]. unfold m2. by rewrite Hh. }
    assert (load m3 off (length ((header_bytes hdr ++ head) ++ tail)) = (header_bytes hdr ++ head) ++ tail) as H3.
    { unfold m3. destruct (Z.ltb_spec 0 (Z.of_nat (length tail))) as [|Ht].
      - eapply load_store_app; [exact H2|]. f_equal. rewrite length_app, Hh. lia.
      - destruct tail; [|simpl in Ht; lia]. by rewrite app_nil_r. }
    assert (load m4 off (length (((header_bytes hdr ++ head) ++ tail) ++ pad)) = ((header_bytes hdr ++ head) ++ tail) ++ pad) as H4.
    { eapply load_store_app; [exact H3|]. unfold m4. f_equal. rewrite !length_app, Hh. lia. }
    rewrite Hp, <-!app_assoc in *. rewrite <-H4. f_equal.
    rewrite !length_app, Hh. unfold pad. rewrite length_replicate.
    pose proof (align_up_bounds len). lia.
Qed.

(** Computes the fields of an updated state. *)
Ltac es_simpl :=
  cbn [fst snd set_log set_pending set_exit_loc set_serial_line set_event_categories
    a_with_log a_with_staged a_with_exit a_with_line
    event_buffer event_len event_seq event_categories event_pending event_pending_buf event_pending_len
    event_pending_flags event_pending_tsc event_pending_real_tsc pending_exit_loc
    serial_line_buf serial_line_len serial_line_tsc serial_line_real_tsc
    a_attached a_cats a_log a_staged a_seq a_exit a_line a_line_tsc a_line_real_tsc
    st_kind st_flags st_tsc st_real_tsc st_payload].

(** Staging keeps the first page of the payload. *)
Lemma stage_payload m head tail :
  let head_copy := Z.min (Z.of_nat (length head)) 4096 in
  let tail_copy := Z.min (Z.of_nat (length tail)) (4096 - head_copy) in
  let dst := store m 0 (take (Z.to_nat head_copy) head) in
  let dst := if 0 <? tail_copy then store dst head_copy (take (Z.to_nat tail_copy) tail) else dst in
  load dst 0 (Z.to_nat (head_copy + tail_copy)) = take STAGE_CAP (head ++ tail) ∧
  head_copy + tail_copy = Z.of_nat (length (take STAGE_CAP (head ++ tail))).
Proof.
  assert (Z.of_nat STAGE_CAP = 4096) as Hcap by done. intros hc tc dst dst'. set (h := take (Z.to_nat hc) head). set (t := take (Z.to_nat tc) tail).
  assert (take STAGE_CAP (head ++ tail) = h ++ t) as ->.
  { unfold h, t. rewrite take_app. f_equal.
    - destruct (decide (length head ≤ STAGE_CAP)%nat); [rewrite !take_ge by lia; done|]. f_equal. lia.
    - destruct (decide (length tail ≤ STAGE_CAP - length head)%nat); [rewrite !take_ge by lia; done|]. f_equal. lia. }
  assert (Z.of_nat (length h) = hc ∧ Z.of_nat (length t) = tc) as [Hh Ht] by (unfold h, t; rewrite !length_take; lia).
  split; [|rewrite length_app; lia].
  replace (Z.to_nat (hc + tc)) with (length (h ++ t)) by (rewrite length_app; lia).
  unfold dst'. destruct (Z.ltb_spec 0 tc).
  - eapply load_store_app; [apply load_store|]. unfold dst. f_equal. lia.
  - destruct t; [|simpl in Ht; lia]. rewrite app_nil_r. apply load_store.
Qed.

Lemma event_write_refines es a s head tail :
  refines es a → staged_ok s → st_payload s = head ++ tail →
  let r := event_write (st_kind s) (st_flags s) (st_tsc s) (st_real_tsc s) head tail es in
  r.1 = (a_emit s a).1 ∧ refines r.2 (a_emit s a).2.
Proof.
  intros HR Hs Hp. pose proof HR as HR0. destruct HR as [Hb Hlen Hcap Hrec Hseq Hseqw Hcats Hst Hex Hl Hll Hlc Hlt Hlr].
  unfold event_write, a_emit. rewrite Hcats.
  destruct (contains (a_cats a) (category (st_kind s))); cbn [negb orb]; [|by split].
  destruct (event_buffer es) as [m|] eqn:Hbuf; destruct Hb as [Hatt Hload]; rewrite Hatt; cbn [negb]; [|by split].
  assert (Z.of_nat (length head) + Z.of_nat (length tail) = Z.of_nat (length (st_payload s))) as HL
    by (rewrite Hp, length_app; lia).
  unfold record_size. rewrite HL, <-Hlen.
  destruct (Z.ltb_spec EVENT_BUFFER_SIZE (event_len es + (EVENT_HEADER_SIZE + align_up (Z.of_nat (length (st_payload s))) 8))) as [Hfull|Hfit].
  - destruct (event_pending es) as [k|] eqn:Hk, (a_staged a) as [s'|] eqn:Hs'; try done.
    split; [done|]. destruct (stage_payload (event_pending_buf es) head tail) as [Hd1 Hd2].
    destruct Hs as (? & ? & ? & _ & H512). constructor; es_simpl; rewrite ?Hbuf; try done.
    rewrite Hp. unfold IO_CHANNEL_BUF_SIZE. split; [done|]. split; [exact Hd1|]. split; [exact Hd2|].
    split; [rewrite Hd2, length_take; change (Z.of_nat (STAGE_CAP `min` length (head ++ tail)) ≤ 4096); assert (Z.of_nat STAGE_CAP = 4096) by done; lia|]. do 6 (split; [done|]). intros Hk'. rewrite <-Hp, take_ge; auto. rewrite H512 by done. by apply Nat.leb_le.
  - split; [done|]. pose proof Hs as (Hf & Ht & Hr & Hw & _).
    destruct (write_record m (event_len es) (event_seq es) s head tail Hp Hw ltac:(unfold log_size in Hlen; lia)) as [W1 W2].
    rewrite HL in W1, W2.
    constructor; es_simpl; try done.
    + split; [done|]. rewrite stream_bytes_app.
      rewrite Z2Nat.inj_add by (unfold log_size, EVENT_HEADER_SIZE in *; pose proof (align_up_bounds (Z.of_nat (length (st_payload s)))); lia).
      rewrite load_add, W1, Hload. f_equal.
      rewrite Z2Nat.id by (unfold log_size in *; lia). rewrite Z.add_0_l, W2, Hseq.
      unfold stream_bytes. cbn [fmap list_fmap concat]. by rewrite app_nil_r.
    + rewrite log_size_snoc, <-Hlen. done.
    + apply Forall_app. split; [done|]. apply Forall_singleton, mk_record_ok; [by rewrite ?Hseq|done].
    + by rewrite Hseq.
    + apply in_width_u64.
    + destruct (pending_exit_loc es) as [[off|]|], (a_exit a) as [[i|]|]; try done.
      destruct Hex as (r & Hi & Hr512 & Hoff). exists r. apply lookup_lt_Some in Hi as Hlti.
      split; [by apply lookup_app_l_Some|]. split; [done|]. rewrite take_app_le by lia. done.
Qed.

(** A producer that tests the category first does nothing else than [event_write]. *)
Lemma filtered_write es a s head tail :
  refines es a → staged_ok s → st_payload s = head ++ tail →
  refines (if negb (contains (event_categories es) (category (st_kind s))) then (true, es)
           else event_write (st_kind s) (st_flags s) (st_tsc s) (st_real_tsc s) head tail es).2 (a_emit s a).2.
Proof.
  intros HR Hs Hp. pose proof (event_write_refines es a s head tail HR Hs Hp) as [_ H].
  destruct (contains (event_categories es) (category (st_kind s))) eqn:Hc; cbn [negb]; [done|].
  unfold a_emit. by rewrite <-(rf_cats _ _ HR), Hc.
Qed.

Lemma with_line_refines es a buf l tsc real_tsc :
  refines es a → load buf 0 (length l) = l → Z.of_nat (length l) < SERIAL_LINE_ACC_SIZE →
  in_width 64 tsc → in_width 64 real_tsc →
  refines (set_serial_line buf (Z.of_nat (length l)) tsc real_tsc es) (a_with_line l tsc real_tsc a).
Proof. intros [] Hl Hc Ht Hr. constructor; es_simpl; rewrite ?Nat2Z.id; done. Qed.

Lemma flag_width (b : bool) : in_width 16 (if b then EVENT_FLAG_DETERMINISTIC else 0).
Proof. destruct b; split; done. Qed.
Lemma default_flag_width k : in_width 16 (default_flags k).
Proof. destruct k; split; done. Qed.


Lemma flush_refines es a l tsc real_tsc :
  refines es (a_with_line [] (a_line_tsc a) (a_line_real_tsc a) a) → in_width 64 tsc → in_width 64 real_tsc →
  (length l ≤ 256)%nat → a_line a = l → a_line_tsc a = tsc → a_line_real_tsc a = real_tsc → l ≠ [] →
  refines (event_append_at Serial l tsc real_tsc es).2 (a_flush a).
Proof.
  intros HR Ht Hr Hlen Hl <- <- Hne. unfold a_flush. rewrite Hl. destruct l as [|b l]; [done|].
  apply (event_write_refines _ _ (mkStaged Serial EVENT_FLAG_DETERMINISTIC (a_line_tsc a) (a_line_real_tsc a) (b :: l)) (b :: l) []);
    [done| |by rewrite app_nil_r].
  split; [apply default_flag_width with (k := Serial)|]. split; [done|]. split; [done|]. cbn [st_payload st_kind]. split; [lia|done].
Qed.

Lemma serial_flush_refines es a : refines es a → refines (event_flush_serial_line es).2 (a_flush a).
Proof.
  intros HR. pose proof HR as [_ _ _ _ _ _ _ _ _ Hl Hll Hlc [Ht Htw] [Hr Hrw]].
  unfold event_flush_serial_line. destruct (Z.eqb_spec (serial_line_len es) 0) as [H0|H0].
  - unfold a_flush. destruct (a_line a); [done|]. simpl in Hll. lia.
  - rewrite Hl. apply flush_refines.
    + rewrite Ht, Hr. apply (with_line_refines es a _ []); done.
    + by rewrite Ht.
    + by rewrite Hr.
    + unfold SERIAL_LINE_ACC_SIZE in Hlc. lia.
    + done.
    + done.
    + done.
    + intros Hn. rewrite Hn in Hll. simpl in Hll. lia.
Qed.

(** One byte more on the line. *)
Lemma load_snoc m n b : load (store m (Z.of_nat n) [b]) 0 (S n) = load m 0 n ++ [b].
Proof.
  replace (S n) with (n + 1)%nat by lia. rewrite load_add. f_equal.
  - apply load_store_disjoint. lia.
  - apply (load_store m (Z.of_nat n) [b]).
Qed.

Lemma serial_byte_refines es a b tsc real_tsc :
  refines es a → in_width 64 tsc → in_width 64 real_tsc →
  refines (event_serial_byte b tsc real_tsc es).2 (a_serial_byte b tsc real_tsc a).
Proof.
  intros HR Htw Hrw. pose proof HR as [_ _ _ _ _ _ Hcats _ _ Hl Hll Hlc [Ht Htw'] [Hr Hrw']].
  unfold event_serial_byte, a_serial_byte. rewrite Hcats.
  destruct (contains (a_cats a) CAT_SERIAL) eqn:Hc; cbn [negb]; [|done].
  set (t' := if serial_line_len es =? 0 then tsc else serial_line_tsc es).
  set (r' := if serial_line_len es =? 0 then real_tsc else serial_line_real_tsc es).
  set (es1 := if serial_line_len es =? 0 then _ else es).
  assert (serial_line_buf es1 = serial_line_buf es ∧ serial_line_len es1 = serial_line_len es ∧
    serial_line_tsc es1 = t' ∧ serial_line_real_tsc es1 = r') as (E1 & E2 & E3 & E4).
  { unfold es1, t', r'. by destruct (serial_line_len es =? 0). }
  rewrite E1, E2, E3, E4. unfold SERIAL_LINE_ACC_SIZE in Hlc.
  rewrite (proj2 (Z.ltb_lt (serial_line_len es) SERIAL_LINE_ACC_SIZE)) by (unfold SERIAL_LINE_ACC_SIZE; lia).
  set (a1 := match a_line a with [] => _ | _ => _ end).
  assert (a1 = a_with_line (a_line a ++ [b]) t' r' a ∧ in_width 64 t' ∧ in_width 64 r') as (Ha1 & Ht1 & Hr1).
  { unfold a1, t', r'. rewrite Hll, Ht, Hr. destruct (a_line a) as [|x l] eqn:Hx; cbn [length]; [done|].
    destruct (Z.eqb_spec (Z.of_nat (S (length l))) 0); [lia|]. done. }
  set (buf' := store (serial_line_buf es) (serial_line_len es) [b]).
  assert (load buf' 0 (length (a_line a ++ [b])) = a_line a ++ [b]) as Hbuf.
  { unfold buf'. rewrite Hll, length_app, Nat.add_1_r, load_snoc. f_equal. rewrite <-Hl at 2. by rewrite Hll, Nat2Z.id. }
  assert (serial_line_len es + 1 = Z.of_nat (length (a_line a ++ [b]))) as Hlen by (rewrite length_app; simpl; lia).
  assert (∀ l, load buf' 0 (length l) = l → Z.of_nat (length l) < 256 →
    refines (set_serial_line buf' (Z.of_nat (length l)) t' r' es1) (a_with_line l t' r' a)) as Hset.
  { intros l H1 H2. pose proof (with_line_refines es a buf' l t' r' HR H1 H2 Ht1 Hr1) as H.
    unfold es1. by destruct (serial_line_len es =? 0). }
  es_simpl. rewrite Ha1. es_simpl. rewrite Hlen.
  destruct ((b =? 10) || (Z.of_nat (length (a_line a ++ [b])) =? SERIAL_LINE_ACC_SIZE)) eqn:Hflush.
  - unfold event_flush_serial_line. es_simpl.
    destruct (Z.eqb_spec (Z.of_nat (length (a_line a ++ [b]))) 0) as [Hz|_]; [rewrite length_app in Hz; simpl in Hz; lia|].
    rewrite Nat2Z.id, Hbuf. apply flush_refines; [|done|done|rewrite length_app; simpl; lia|done|done|done|by destruct (a_line a)].
    apply (Hset []); done.
  - apply Hset; [done|]. apply orb_false_iff in Hflush as [_ Hf]. apply Z.eqb_neq in Hf.
    unfold SERIAL_LINE_ACC_SIZE in Hf. rewrite length_app in *. simpl in *. lia.
Qed.

(** *** Exit records *)
Lemma with_exit_None_refines es a : refines es a → refines (set_exit_loc None es) (a_with_exit None a).
Proof. intros []. by constructor. Qed.

Lemma emit_exit_refines es a entry det tsc real_tsc :
  refines es a → in_width 64 tsc → in_width 64 real_tsc → length entry = 512%nat →
  refines (emit_exit_event entry det tsc real_tsc es) (a_emit_exit entry det tsc real_tsc a).
Proof.
  intros HR Ht Hr H512. pose proof (with_exit_None_refines _ _ HR) as HR0.
  pose proof HR as [Hb Hlen _ _ _ _ Hcats _ _ _ _ _ _ _]. unfold emit_exit_event, a_emit_exit. es_simpl.
  destruct (event_buffer es) as [m|]; destruct Hb as [Hatt Hload]; rewrite Hatt; cbn [negb orb]; [|done].
  rewrite Hcats. destruct (contains (a_cats a) CAT_EXIT) eqn:Hc; cbn [negb]; [|done].
  set (s := mkStaged Exit (if det then EVENT_FLAG_DETERMINISTIC else 0) tsc real_tsc entry).
  assert (staged_ok s) as Hs.
  { split; [apply flag_width|]. split; [done|]. split; [done|]. cbn [st_payload s]. rewrite H512. by split. }
  destruct (event_write_refines _ _ s entry [] HR0 Hs ltac:(by rewrite app_nil_r)) as [H1 H2].
  cbn [s st_kind st_flags st_tsc st_real_tsc] in H1, H2.
  destruct (event_write _ _ _ _ _ _ _) as [fit es'] eqn:Hw. fold s.
  destruct (a_emit s (a_with_exit None a)) as [fit' a'] eqn:Ha. cbn [fst snd] in H1, H2. subst fit'.
  assert (fit = true → a_log a' = a_log a ++ [mk_record (a_seq a) s]) as Hlog.
  { revert Ha. unfold a_emit. es_simpl. change (category (st_kind s)) with CAT_EXIT. rewrite Hatt, Hc. cbn [negb orb].
    destruct (_ <? _); [by destruct (a_staged a); intros [= <- _]|]. by intros [= _ <-]. }
  destruct H2 as [? ? ? ? ? ? ? ? ? ? ? ? ? ?]. constructor; es_simpl; try done. destruct fit; [|done].
  rewrite (Hlog eq_refl). exists (mk_record (a_seq a) s). split; [|split; [done|]].
  - rewrite lookup_app_r by lia. by rewrite Nat.sub_diag.
  - by rewrite take_app_length, Hlen.
Qed.

Lemma list_inserts_app_prefix {A} i (k l1 l2 : list A) :
  (i + length k ≤ length l1)%nat → list_inserts i k (l1 ++ l2) = list_inserts i k l1 ++ l2.
Proof.
  revert i. induction k as [|x k IH]; intros i Hi; simpl in *; [done|].
  rewrite IH by lia. by rewrite insert_app_l by (rewrite length_inserts; lia).
Qed.

Lemma list_inserts_mid {A} k (bs l1 l2 l3 : list A) :
  (k + length bs ≤ length l2)%nat →
  list_inserts (length l1 + k) bs (l1 ++ l2 ++ l3) = l1 ++ list_inserts k bs l2 ++ l3.
Proof. intros Hk. rewrite list_inserts_app_r, list_inserts_app_prefix by done. done. Qed.

Lemma length_patch mh cc p : length (patch_payload mh cc p) = length p.
Proof. unfold patch_payload. by rewrite !length_inserts. Qed.

(** Patching a record where its payload starts. *)
Lemma patch_stream mh cc l i r m n :
  load m 0 n = stream_bytes l → l !! i = Some r → length (r_payload r) = 512%nat →
  let off := log_size (take i l) + 32 in
  load (store (store m (off + Z.of_nat memory_hash_off) (le_bytes 8 mh)) (off + Z.of_nat cow_page_count_off) (le_bytes 4 cc)) 0 n
    = stream_bytes (alter (patch_record mh cc) i l).
Proof.
  intros Hload Hi H512 off. rewrite !load_store_inserts by (unfold off, log_size; lia). rewrite Hload.
  pose proof (take_drop_middle l i r Hi) as Hl.
  assert (alter (patch_record mh cc) i l = take i l ++ patch_record mh cc r :: drop (S i) l) as ->.
  { rewrite <-Hl at 1. apply lookup_lt_Some in Hi as Hlt.
    replace i with (length (take i l) + 0)%nat at 1 by (rewrite length_take; lia). by rewrite alter_app_r. }
  rewrite <-Hl at 1. unfold log_size, memory_hash_off, cow_page_count_off, off, log_size.
  assert (∀ x : EventRecord, stream_bytes (take i l ++ x :: drop (S i) l) =
    (stream_bytes (take i l) ++ header_bytes (r_header x)) ++ r_payload x ++
    (replicate (Z.to_nat (align_up (Z.of_nat (length (r_payload x))) 8 - Z.of_nat (length (r_payload x)))) 0 ++ stream_bytes (drop (S i) l))) as Hsb.
  { intros x. rewrite stream_bytes_app, <-app_assoc. f_equal. unfold stream_bytes at 1. cbn [fmap list_fmap concat].
    unfold record_bytes. by rewrite <-!app_assoc. }
  rewrite !Hsb. cbn [patch_record r_payload r_header]. rewrite length_patch.
  set (pre := stream_bytes (take i l) ++ header_bytes (r_header r)).
  assert (length pre = length (stream_bytes (take i l)) + 32)%nat as Hpre by (unfold pre; by rewrite length_app, length_header_bytes).
  replace (Z.to_nat (Z.of_nat (length (stream_bytes (take i l))) + 32 + Z.of_nat 216 - 0)) with (length pre + 216)%nat by lia.
  replace (Z.to_nat (Z.of_nat (length (stream_bytes (take i l))) + 32 + Z.of_nat 300 - 0)) with (length pre + 300)%nat by lia.
  rewrite list_inserts_mid by (rewrite length_le_bytes; lia).
  rewrite list_inserts_mid by (rewrite length_inserts, length_le_bytes; lia). done.
Qed.

Lemma log_size_patch mh cc i l : log_size (alter (patch_record mh cc) i l) = log_size l.
Proof.
  unfold log_size. revert i. induction l as [|r l IH]; intros i; [done|].
  assert (∀ x y l1 l2, length (record_bytes x) = length (record_bytes y) → Z.of_nat (length (stream_bytes l1)) = Z.of_nat (length (stream_bytes l2)) →
    Z.of_nat (length (stream_bytes (x :: l1))) = Z.of_nat (length (stream_bytes (y :: l2)))) as Hc.
  { intros x y l1 l2 H1 H2. unfold stream_bytes in *. cbn [fmap list_fmap concat]. rewrite !length_app. lia. }
  destruct i as [|i]; cbn [alter list_alter]; apply Hc; [|done|done|apply IH].
  apply Nat2Z.inj. rewrite !length_record_bytes. cbn [patch_record r_payload]. by rewrite length_patch.
Qed.

Lemma finalize_refines es a mh cc :
  refines es a → refines (finalize_exit_memory_hash mh cc es) (a_finalize mh cc a).
Proof.
  intros HR. pose proof (with_exit_None_refines _ _ HR) as HR0.
  pose proof HR as [Hb Hlen Hcap Hrec _ _ _ Hst Hex _ _ _ _ _].
  unfold finalize_exit_memory_hash, a_finalize.
  destruct (pending_exit_loc es) as [[off|]|], (a_exit a) as [[i|]|]; try done.
  - destruct Hex as (r & Hi & H512 & ->). es_simpl.
    destruct (event_buffer es) as [m|]; destruct Hb as [Hatt Hload]; [|by rewrite Hload in Hi].
    destruct HR0 as [? ? ? ? ? ? ? ? ? ? ? ? ? ?]. constructor; es_simpl; try done.
    + split; [done|]. by eapply patch_stream.
    + by rewrite log_size_patch.
    + apply Forall_lookup_2. intros j x Hj.
      destruct (decide (j = i)) as [->|Hne].
      * rewrite list_lookup_alter_eq, Hi in Hj. injection Hj as <-. rewrite Forall_lookup in Hrec.
        destruct (Hrec i r Hi). constructor; cbn [patch_record r_header r_payload]; rewrite ?length_patch; done.
      * rewrite list_lookup_alter_ne in Hj by done. rewrite Forall_lookup in Hrec. by apply (Hrec j).
  - es_simpl. destruct HR0 as [? ? ? ? ? ? ? ? ? ? ? ? ? ?]. constructor; es_simpl; try done.
    destruct (event_pending es) as [k|], (a_staged a) as [s|]; try done. cbn [fmap option_fmap option_map].
    destruct Hst as (? & Hl & Hpl & Hr). unfold patch_staged. es_simpl. rewrite length_patch.
    split; [done|]. split; [|done]. rewrite !load_store_inserts by lia. rewrite Hl. done.
Qed.

(** *** Clearing *)
Lemma cleared_refines es a buf len flags tsc real_tsc :
  refines es a → (∀ i, a_exit a ≠ Some (InLog i)) →
  refines (set_pending None buf len flags tsc real_tsc (set_log (event_buffer es) 0 (event_seq es) es))
    (a_with_staged None (a_with_log [] (a_seq a) a)).
Proof.
  intros HR Hx. destruct HR as [Hb Hlen Hcap Hrec Hseq Hseqw Hcats Hst Hex Hl Hll Hlc Hlt Hlr].
  constructor; es_simpl; try done.
  - destruct (event_buffer es); destruct Hb; done.
  - destruct (pending_exit_loc es) as [[]|], (a_exit a) as [[]|]; try done. by edestruct Hx.
Qed.

Lemma emit_exit_field s a : a_exit (a_emit s a).2 = a_exit a.
Proof. unfold a_emit. by repeat (case_match; simpl). Qed.

(** The staged record always fits an empty buffer. *)
Lemma emit_empty s a :
  Z.of_nat (length (st_payload s)) ≤ 4096 → a_log a = [] →
  a_log (a_emit s a).2 = if contains (a_cats a) (category (st_kind s)) && a_attached a then [mk_record (a_seq a) s] else [].
Proof.
  intros Hlen Hl. unfold a_emit. destruct (contains _ _), (a_attached a); cbn [negb orb andb]; try done.
  rewrite Hl. destruct (Z.ltb_spec EVENT_BUFFER_SIZE (log_size [] + record_size (Z.of_nat (length (st_payload s))))) as [Hlt|_]; [|by cbn].
  unfold log_size, record_size, EVENT_BUFFER_SIZE, EVENT_HEADER_SIZE in Hlt. cbn in Hlt.
  pose proof (align_up_bounds (Z.of_nat (length (st_payload s)))). lia.
Qed.

Lemma pending_len_write kind flags tsc real_tsc head es :
  Z.of_nat (length head) ≤ 4096 → event_len es = 0 →
  let es' := (event_write kind flags tsc real_tsc head [] es).2 in
  event_pending_len es' = event_pending_len es ∧ event_pending es' = event_pending es.
Proof.
  intros Hh H0. unfold event_write. destruct (negb _); [done|]. destruct (event_buffer es); [|done].
  destruct (Z.ltb_spec EVENT_BUFFER_SIZE (event_len es + (EVENT_HEADER_SIZE + align_up (Z.of_nat (length head) + Z.of_nat (length (A:=Z) [])) 8)))
    as [Hlt|_]; [|done].
  exfalso. rewrite H0 in Hlt. unfold EVENT_BUFFER_SIZE, EVENT_HEADER_SIZE in Hlt. cbn [length] in Hlt.
  pose proof (align_up_bounds (Z.of_nat (length head) + Z.of_nat 0)). lia.
Qed.

Lemma with_pending_len_refines es a buf len flags tsc real_tsc :
  refines es a → event_pending es = None → refines (set_pending (event_pending es) buf len flags tsc real_tsc es) a.
Proof.
  intros [Hb Hlen Hcap Hrec Hseq Hseqw Hcats Hst Hex Hl Hll Hlc Hlt Hlr] Hn. constructor; es_simpl; try done.
  rewrite Hn in *. by destruct (a_staged a).
Qed.

Lemma event_clear_refines es a :
  refines es a → op_ok a OClear → refines (event_clear es) (a_clear a).
Proof.
  intros HR [Hx Hon]. pose proof HR as [_ _ _ _ _ _ _ Hst _ _ _ _ _ _]. unfold event_clear, a_clear. es_simpl.
  destruct (event_pending es) as [k|] eqn:Hk, (a_staged a) as [s|] eqn:Hs; try done.
  2: { pose proof (cleared_refines es a (event_pending_buf es) (event_pending_len es) (event_pending_flags es)
         (event_pending_tsc es) (event_pending_real_tsc es) HR Hx) as H. unfold set_pending in H. es_simpl. rewrite <-Hk in H. exact H. }
  destruct Hst as (-> & Hload & Hpl & Hcap & Hf & Ht & Hr & Hfw & Htw & Hrw & H512). rewrite Hload, Hf, Ht, Hr.
  assert (Z.of_nat (length (st_payload s)) ≤ 4096) as Hle by lia.
  assert (staged_ok s) as Hso by (repeat (split; [done|]); split; [lia|done]).
  set (es1 := set_pending None _ _ _ _ _ _). set (a0 := a_with_staged None (a_with_log [] (a_seq a) a)).
  assert (refines es1 a0) as HR1 by (by apply cleared_refines).
  destruct (event_write_refines es1 a0 s (st_payload s) [] HR1 Hso ltac:(by rewrite app_nil_r)) as [_ H2].
  pose proof (pending_len_write (st_kind s) (st_flags s) (st_tsc s) (st_real_tsc s) (st_payload s) es1 Hle eq_refl) as [Hpl2 Hpn].
  pose proof (emit_empty s a0 Hle eq_refl) as Hlog. pose proof (emit_exit_field s a0) as Hexf.
  destruct (event_write _ _ _ _ _ _ es1) as [b es2]. cbn [snd] in *. set (a1 := (a_emit s a0).2) in *.
  change (event_pending_len es1) with (event_pending_len es) in Hpl2. change (a_exit a0) with (a_exit a) in Hexf.
  pose proof (rf_exit _ _ H2) as Hex2. rewrite Hexf in Hex2.
  assert (match pending_exit_loc es2 with Some LocPending => true | _ => false end =
    match a_exit a with Some InStaged => true | _ => false end) as ->.
  { destruct (pending_exit_loc es2) as [[]|], (a_exit a) as [[]|]; done. }
  destruct (bool_decide (st_kind s = Exit) && _) eqn:Hb; [|by apply with_pending_len_refines].
  apply andb_true_iff in Hb as [HkE%bool_decide_eq_true_1 Hst]. unfold event_len_at_last_record.
  assert (contains (a_cats a0) (category (st_kind s)) && a_attached a0 = true) as Hc by (rewrite HkE; apply Hon; by destruct (a_exit a) as [[]|]).
  rewrite Hc in Hlog. rewrite Hpl2, (rf_len _ _ H2), Hlog, Hpl.
  change [mk_record (a_seq a0) s] with ([] ++ [mk_record (a_seq a0) s]). rewrite log_size_snoc. cbn [mk_record r_payload]. change (log_size []) with 0.
  unfold record_size, wrapping_sub. rewrite Z.add_0_l, Z.sub_diag.
  apply with_pending_len_refines; [|done]. destruct H2 as [? ? ? ? ? ? ? ? ? ? ? ? ? ?]. constructor; es_simpl; try done.
  rewrite Hlog. exists (mk_record (a_seq a0) s). split; [done|]. split; [by apply H512|]. done.
Qed.

(** *** The whole machine *)
Lemma config_refines es a enabled categories fresh :
  refines es a → (∀ i, a_exit a ≠ Some (InLog i)) →
  refines (handle_set_event_config enabled categories fresh es) (a_config enabled categories a).
Proof.
  intros HR Hx. destruct HR as [Hb Hlen Hcap Hrec Hseq Hseqw Hcats Hst Hex Hl Hll Hlc Hlt Hlr].
  unfold handle_set_event_config, a_config, set_event_buffer, clear_event_buffer_ptr.
  destruct enabled, (event_buffer es) as [m|] eqn:Hbuf; destruct Hb as [Hatt Hload]; rewrite ?Hatt; cbn [negb andb];
    constructor; es_simpl; rewrite ?Hbuf; try done.
  - split; [done|]. rewrite Hlen, Hload. done.
  - destruct (pending_exit_loc es) as [[]|], (a_exit a) as [[]|]; try done. by edestruct Hx.
Qed.

Lemma event_state_new_refines pbuf sbuf : refines (event_state_new pbuf sbuf) a_new.
Proof. constructor; by simpl. Qed.

Lemma load_page_width buf n t r k fl :
  in_width 64 t → in_width 64 r → in_width 16 fl → k ≠ Exit → (n ≤ Z.to_nat 4096)%nat →
  staged_ok (mkStaged k fl t r (load buf 0 n)).
Proof.
  intros. split; [done|]. split; [done|]. split; [done|]. cbn [st_payload st_kind]. rewrite length_load. split; [|done].
  assert (Z.of_nat n ≤ 4096) by lia. lia.
Qed.

Lemma io_refines es a p req resp rl pl t r :
  refines es a → in_width 64 t → in_width 64 r →
  refines (event_emit_io_channel p req resp rl pl t r es).2
    (a_io p (if io_phase p =? phase_u8 Response then load resp 0 (Z.to_nat (Z.min pl 4096)) else load req 0 (Z.to_nat (Z.min rl 4096)))
       (io_phase p =? phase_u8 Response) t r a).
Proof.
  intros HR Ht Hr. unfold event_emit_io_channel, a_io, IO_CHANNEL_BUF_SIZE.
  set (b := io_phase p =? phase_u8 Response).
  replace (if b then load resp 0 (Z.to_nat (pl `min` 4096)) else load req 0 (Z.to_nat (rl `min` 4096)))
    with (load (if b then resp else req) 0 (Z.to_nat ((if b then pl else rl) `min` 4096))) by (by destruct b).
  set (d := load _ _ _). assert (Z.of_nat (length d) ≤ 4096) as Hd by (unfold d; rewrite length_load; destruct b; lia).
  apply (filtered_write es a (mkStaged IoChannel (if b then 0 else EVENT_FLAG_DETERMINISTIC) t r (io_bytes p ++ d))
    (io_bytes p) d); [done| |done].
  split; [destruct b; split; done|]. split; [done|]. split; [done|]. cbn [st_payload st_kind]. split; [|done].
  rewrite length_app. unfold io_bytes. rewrite length_encode by done. cbn. lia.
Qed.

Lemma op_refines es a o :
  refines es a → op_ok a o → refines (apply_op es o) (a_apply a o).
Proof.
  intros HR Hok. destruct o as [k p t r|b t r| |buf len t r|p req resp rl pl t r|entry det t r|mh cc| |en c m];
    cbn [apply_op a_apply op_ok] in *.
  - destruct Hok as (Ht & Hr & Hp & Hk). unfold event_append.
    apply (filtered_write es a (mkStaged k (default_flags k) t r p) p []); [done| |by rewrite app_nil_r].
    split; [apply default_flag_width|]. split; [done|]. split; [done|]. cbn. split; [lia|done].
  - destruct Hok. by apply serial_byte_refines.
  - by apply serial_flush_refines.
  - destruct Hok as [Ht Hr]. unfold event_emit_console, SERIAL_CONSOLE_PAGE_SIZE.
    apply (filtered_write es a (mkStaged Serial EVENT_FLAG_DETERMINISTIC t r (load buf 0 (Z.to_nat (len `min` 4096)))) _ []);
      [done| |by rewrite app_nil_r].
    apply load_page_width; [done|done|split; done|done|lia].
  - destruct Hok. by apply io_refines.
  - destruct Hok as (? & ? & ?). by apply emit_exit_refines.
  - by apply finalize_refines.
  - by apply event_clear_refines.
  - by apply config_refines.
Qed.

Fixpoint ops_ok a (l : list op) : Prop :=
  match l with
  | [] => True
  | o :: l' => op_ok a o ∧ ops_ok (a_apply a o) l'
  end.

Lemma run_refines es a l :
  refines es a → ops_ok a l → refines (run_ops es l) (a_run a l).
Proof.
  unfold run_ops, a_run. revert es a. induction l as [|o l IH]; intros es a HR Hok; [done|].
  destruct Hok as [Ho Hl]. by apply IH; [apply op_refines|].
Qed.

Lemma drain_refines es a : refines es a → drain es = stream_bytes (a_log a) ∧ EventStream (drain es) = a_log a.
Proof.
  intros HR. assert (drain es = stream_bytes (a_log a)) as Hd.
  { unfold drain. pose proof (rf_buffer _ _ HR) as Hb. destruct (event_buffer es); destruct Hb as [_ H]; [done|by rewrite H]. }
  split; [done|]. rewrite Hd. apply stream_roundtrip, HR.
Qed.

(** ** Sequence numbers *)
Definition seqs_ok a : Prop :=
  in_width 64 (a_seq a) ∧
  ∀ i r, a_log a !! i = Some r → h_seq (r_header r) = u64 (a_seq a - Z.of_nat (length (a_log a)) + Z.of_nat i).

Lemma u64_add_l x y : u64 (u64 x + y) = u64 (x + y).
Proof. unfold u64, wrap. apply Z.add_mod_idemp_l. lia. Qed.

Lemma emit_seqs s a : seqs_ok a → seqs_ok (a_emit s a).2.
Proof.
  intros [Hw Hs]. unfold a_emit. destruct (_ || _); [done|]. destruct (_ <? _); [by destruct (a_staged a)|].
  split; es_simpl; [apply in_width_u64|]. intros i r Hi. rewrite length_app. cbn [length].
  replace (wrapping_add (a_seq a) 1 - Z.of_nat (length (a_log a) + 1) + Z.of_nat i)
    with (u64 (a_seq a + 1) + (Z.of_nat i - Z.of_nat (length (a_log a)) - 1)) by (unfold wrapping_add; lia).
  rewrite u64_add_l. apply lookup_app_Some in Hi as [Hi|[Hge Hi]].
  - rewrite (Hs i r Hi). f_equal. lia.
  - apply list_lookup_singleton_Some in Hi as [Hi <-]. cbn [mk_record r_header h_seq].
    replace (a_seq a + 1 + (Z.of_nat i - Z.of_nat (length (a_log a)) - 1)) with (a_seq a) by lia.
    symmetry. by apply wrap_small.
Qed.

Lemma flush_seqs a : seqs_ok a → seqs_ok (a_flush a).
Proof. intros Hs. unfold a_flush. destruct (a_line a); [done|]. by apply emit_seqs. Qed.

Lemma apply_seqs a o : seqs_ok a → seqs_ok (a_apply a o).
Proof.
  intros Hs. destruct o as [k p t r|b t r| |buf len t r|p req resp rl pl t r|entry det t r|mh cc| |en c m]; cbn [a_apply].
  - by apply emit_seqs.
  - unfold a_serial_byte. destruct (negb _); [done|].
    assert (seqs_ok match a_line a with [] => a_with_line [b] t r a
      | l => a_with_line (l ++ [b]) (a_line_tsc a) (a_line_real_tsc a) a end) as H1 by (by destruct (a_line a)).
    destruct (_ || _); [by apply flush_seqs|done].
  - by apply flush_seqs.
  - by apply emit_seqs.
  - by apply emit_seqs.
  - unfold a_emit_exit. destruct (_ || _); [done|].
    pose proof (emit_seqs (mkStaged Exit (if det then EVENT_FLAG_DETERMINISTIC else 0) t r entry) (a_with_exit None a) Hs) as H.
    by destruct (a_emit _ _).
  - unfold a_finalize. destruct (a_exit a) as [[i|]|]; [|done|done].
    destruct Hs as [Hw Hs]. split; es_simpl; [done|]. intros j x. rewrite length_alter.
    destruct (decide (j = i)) as [->|Hne]; [|rewrite list_lookup_alter_ne by done; by apply Hs].
    rewrite list_lookup_alter_eq. destruct (a_log a !! i) as [y|] eqn:Hy; [|done]. intros [= <-]. cbn. by apply Hs.
  - unfold a_clear. assert (seqs_ok (a_with_staged None (a_with_log [] (a_seq a) a))) as H0 by (split; [apply Hs|done]).
    destruct (a_staged a) as [s|]; [|done]. pose proof (emit_seqs s _ H0). by destruct (_ && _).
  - unfold a_config. destruct en; [done|]. destruct (a_attached a); [|done]. split; [apply Hs|done].
Qed.

Lemma run_seqs a l : seqs_ok a → seqs_ok (a_run a l).
Proof. unfold a_run. revert a. induction l as [|o l IH]; intros a Hs; [done|]. by apply IH, apply_seqs. Qed.

(** ** Host time does not matter *)
Definition erase_record (r : EventRecord) : EventRecord :=
  let h := r_header r in mkRecord (mkHeader (h_seq h) (h_tsc h) 0 (h_kind h) (h_flags h) (h_len h)) (r_payload r).
Definition erase_staged (s : staged) : staged := mkStaged (st_kind s) (st_flags s) (st_tsc s) 0 (st_payload s).
Definition erase_alog a : alog :=
  mkA (a_attached a) (a_cats a) (erase_record <$> a_log a) (erase_staged <$> a_staged a) (a_seq a) (a_exit a)
    (a_line a) (a_line_tsc a) 0.
(** The same operation with its value of [rdtsc] taken out. *)
Definition erase_op (o : op) : op :=
  match o with
  | OAppend k p t _ => OAppend k p t 0
  | OSerialByte b t _ => OSerialByte b t 0
  | OConsole buf len t _ => OConsole buf len t 0
  | OIo p req resp rl pl t _ => OIo p req resp rl pl t 0
  | OExit entry det t _ => OExit entry det t 0
  | o => o
  end.

Lemma erase_log_size l : log_size (erase_record <$> l) = log_size l.
Proof.
  unfold log_size. induction l as [|r l IH]; [done|]. unfold stream_bytes in *. cbn [fmap list_fmap concat].
  rewrite !length_app, !Nat2Z.inj_add, !length_record_bytes. cbn [erase_record r_payload]. cbn [fmap] in IH. lia.
Qed.

Lemma erase_emit s a :
  (a_emit (erase_staged s) (erase_alog a)).1 = (a_emit s a).1 ∧
  (a_emit (erase_staged s) (erase_alog a)).2 = erase_alog (a_emit s a).2.
Proof.
  unfold a_emit. cbn [erase_staged erase_alog st_kind st_payload a_cats a_attached a_log a_staged]. rewrite erase_log_size.
  destruct (_ || _); [done|]. destruct (_ <? _); [by destruct (a_staged a)|].
  split; [done|]. unfold a_with_log, erase_alog. es_simpl. by rewrite fmap_app.
Qed.

Lemma erase_flush a : a_flush (erase_alog a) = erase_alog (a_flush a).
Proof.
  unfold a_flush. cbn [a_line erase_alog]. destruct (a_line a); [done|].
  apply (erase_emit (mkStaged _ _ _ _ _) (a_with_line [] (a_line_tsc a) (a_line_real_tsc a) a)).
Qed.

Lemma alter_fmap_comm {A} (f g : A → A) (i : nat) (l : list A) : (∀ x, f (g x) = g (f x)) → alter f i (g <$> l) = g <$> alter f i l.
Proof.
  intros Hc. revert i. induction l as [|x l IH]; intros i; [done|]. destruct i as [|i]; cbn [fmap list_fmap alter list_alter].
  - by rewrite Hc.
  - f_equal. apply IH.
Qed.

Lemma erase_finalize mh cc a : a_finalize mh cc (erase_alog a) = erase_alog (a_finalize mh cc a).
Proof.
  unfold a_finalize. cbn [a_exit erase_alog]. destruct (a_exit a) as [[i|]|]; [..|done].
  - unfold a_with_log, a_with_exit, erase_alog. es_simpl. f_equal. by apply alter_fmap_comm.
  - unfold a_with_staged, a_with_exit, erase_alog. es_simpl. f_equal. by destruct (a_staged a).
Qed.

Lemma erase_clear a : a_clear (erase_alog a) = erase_alog (a_clear a).
Proof.
  unfold a_clear. cbn [a_staged erase_alog]. destruct (a_staged a) as [s|]; [|done]. cbn [fmap option_fmap option_map].
  change (a_with_staged None (a_with_log [] (a_seq (erase_alog a)) (erase_alog a)))
    with (erase_alog (a_with_staged None (a_with_log [] (a_seq a) a))).
  destruct (erase_emit s (a_with_staged None (a_with_log [] (a_seq a) a))) as [_ ->].
  cbn [a_exit st_kind erase_staged erase_alog a_log].
  by destruct (_ && _).
Qed.

Lemma erase_apply a o : a_apply (erase_alog a) (erase_op o) = erase_alog (a_apply a o).
Proof.
  destruct o as [k p t r|b t r| |buf len t r|p req resp rl pl t r|entry det t r|mh cc| |en c m];
    cbn [a_apply erase_op]; try (apply (erase_emit (mkStaged _ _ _ _ _) a)).
  - unfold a_serial_byte. cbn [a_cats erase_alog a_line]. destruct (negb _); [done|].
    destruct (a_line a) as [|x l] eqn:Hl; es_simpl;
      (destruct (_ || _); [|done]).
    + apply (erase_flush (a_with_line [b] t r a)).
    + apply (erase_flush (a_with_line ((x :: l) ++ [b]) (a_line_tsc a) (a_line_real_tsc a) a)).
  - apply erase_flush.
  - unfold a_emit_exit. cbn [a_attached a_cats erase_alog a_log]. destruct (_ || _); [done|].
    set (s := mkStaged Exit (if det then EVENT_FLAG_DETERMINISTIC else 0) t r entry).
    destruct (erase_emit s (a_with_exit None a)) as [H1 H2]. cbn [erase_staged s st_kind st_flags st_tsc st_payload] in H1, H2.
    change (a_with_exit None (erase_alog a)) with (erase_alog (a_with_exit None a)).
    destruct (a_emit _ (erase_alog _)) as [f1 a1], (a_emit s _) as [f2 a2]. cbn [fst snd] in *. subst.
    unfold a_with_exit, erase_alog. es_simpl. by rewrite length_fmap.
  - apply erase_finalize.
  - apply erase_clear.
  - unfold a_config, erase_alog. es_simpl. destruct en; [done|]. by destruct (a_attached a).
Qed.

Lemma erase_run a l : a_run (erase_alog a) (erase_op <$> l) = erase_alog (a_run a l).
Proof.
  unfold a_run. revert a. induction l as [|o l IH]; intros a; [done|]. cbn [fmap list_fmap foldl]. rewrite erase_apply. apply IH.
Qed.

(** ** Nothing is lost when every full buffer is drained *)
Definition emission (o : op) : option staged :=
  match o with
  | OAppend k p t r => Some (mkStaged k (default_flags k) t r p)
  | OConsole buf len t r => Some (mkStaged Serial EVENT_FLAG_DETERMINISTIC t r (load buf 0 (Z.to_nat (Z.min len 4096))))
  | OIo p req resp rl pl t r =>
      let response := io_phase p =? phase_u8 Response in
      let data := if response then load resp 0 (Z.to_nat (Z.min pl 4096)) else load req 0 (Z.to_nat (Z.min rl 4096)) in
      Some (mkStaged IoChannel (if response then 0 else EVENT_FLAG_DETERMINISTIC) t r (io_bytes p ++ data))
  | _ => None
  end.

(** What userspace has read: the stream it drains before each clear. *)
Fixpoint session es (l : list op) : list EventRecord * EventState :=
  match l with
  | [] => ([], es)
  | o :: l' =>
      let '(rs, es') := session (apply_op es o) l' in
      (match o with OClear => EventStream (drain es) ++ rs | _ => rs end, es')
  end.

(** The dispatcher's protocol: no emission while a record is staged; records
    of at most a page. *)
Fixpoint obeys es (l : list op) : Prop :=
  match l with
  | [] => True
  | o :: l' =>
      match emission o with
      | Some s => event_buffer_full es = false ∧ op_ok a_new o ∧ Z.of_nat (length (st_payload s)) ≤ 4096
      | None => o = OClear
      end ∧ obeys (apply_op es o) l'
  end.

Definition enabled (cats : Z) (o : op) : option staged :=
  s ← emission o; if contains cats (category (st_kind s)) then Some s else None.

Definition strip (r : EventRecord) : Z * Z * Z * Z * list Z :=
  (h_kind (r_header r), h_flags (r_header r), h_tsc (r_header r), h_real_tsc (r_header r), r_payload r).
Definition strip_staged (s : staged) : Z * Z * Z * Z * list Z :=
  (as_u16 (st_kind s), st_flags s, st_tsc s, st_real_tsc s, st_payload s).

(** What is on its way: in the buffer or staged. *)
Definition in_flight a := (strip <$> a_log a) ++ (strip_staged <$> option_list (a_staged a)).

Record serving cats a : Prop := {
  sv_cats : a_cats a = cats;
  sv_attached : a_attached a = true;
  sv_exit : a_exit a = None;
  sv_staged : match a_staged a with Some s => contains cats (category (st_kind s)) = true ∧
                                              Z.of_nat (length (st_payload s)) ≤ 4096 | None => True end;
}.

Lemma emission_apply a o s : emission o = Some s → a_apply a o = (a_emit s a).2.
Proof. destruct o; simpl; try done; by intros [= <-]. Qed.

Lemma op_ok_emission a o s : emission o = Some s → op_ok a_new o → op_ok a o.
Proof. by destruct o. Qed.

Lemma emit_serving cats a s :
  serving cats a → a_staged a = None → Z.of_nat (length (st_payload s)) ≤ 4096 →
  serving cats (a_emit s a).2 ∧
  in_flight (a_emit s a).2 = in_flight a ++ (if contains cats (category (st_kind s)) then [strip_staged s] else []).
Proof.
  intros [Hc Ha He Hst] Hn Hlen. unfold a_emit, in_flight. rewrite Hc, Ha, Hn.
  destruct (contains cats (category (st_kind s))) eqn:Hcat; cbn [negb orb].
  - destruct (_ <? _); es_simpl.
    + split; [constructor; es_simpl; try done; cbn; rewrite length_take; split; [done|lia]|].
      rewrite take_ge; [by rewrite app_nil_r|]. assert (Z.of_nat STAGE_CAP = 4096) by done. lia.
    + split; [constructor; es_simpl; try done; by rewrite Hn|]. rewrite Hn. cbn. by rewrite fmap_app, !app_nil_r.
  - es_simpl. rewrite !app_nil_r. rewrite Hn. by split; [constructor; rewrite ?Hn|rewrite app_nil_r].
Qed.

Lemma clear_serving cats a :
  serving cats a → serving cats (a_clear a) ∧
  in_flight a = (strip <$> a_log a) ++ in_flight (a_clear a) ∧ a_staged (a_clear a) = None.
Proof.
  intros [Hc Ha He Hst]. unfold a_clear. destruct (a_staged a) as [s|] eqn:Hs.
  - rewrite He, andb_false_r. destruct Hst as [Hcat Hlen].
    set (a0 := a_with_staged None (a_with_log [] (a_seq a) a)).
    destruct (emit_serving cats a0 s) as [H1 H2]; [by constructor|done|done|].
    rewrite Hcat in H2. split; [done|]. rewrite H2. unfold in_flight. rewrite Hs. cbn.
    split; [done|]. pose proof (emit_empty s a0 Hlen eq_refl) as Hlog. change (a_cats a0) with (a_cats a) in Hlog.
    change (a_attached a0) with (a_attached a) in Hlog. rewrite Hc, Hcat, Ha in Hlog.
    unfold in_flight in H2. rewrite Hlog in H2. apply (f_equal length) in H2. rewrite length_app in H2. cbn in H2.
    rewrite length_fmap in H2. destruct (a_staged (a_emit s a0).2); [simpl in H2; lia|done].
  - split; [by constructor|]. unfold in_flight. rewrite Hs. cbn. by rewrite app_nil_r.
Qed.

Lemma session_complete cats es a l :
  refines es a → serving cats a → obeys es l →
  ∃ rs es' a', session es l = (rs, es') ∧ refines es' a' ∧
    (strip <$> rs) ++ in_flight a' = in_flight a ++ (strip_staged <$> omap (enabled cats) l).
Proof.
  revert es a. induction l as [|o l IH]; intros es a HR Hsv Hob.
  { exists [], es, a. split; [done|]. split; [done|]. cbn. by rewrite app_nil_r. }
  destruct Hob as [Ho Hl]. cbn [session].
  assert (enabled cats o = s ← emission o; if contains cats (category (st_kind s)) then Some s else None) as Hen by done.
  destruct (emission o) as [s|] eqn:Hem.
  - destruct Ho as (Hfull & Hok & Hlen). pose proof (op_refines es a o HR (op_ok_emission a o s Hem Hok)) as H.
    rewrite (emission_apply a o s Hem) in H.
    assert (a_staged a = None) as Hn.
    { pose proof (rf_staged _ _ HR) as Hst. unfold event_buffer_full in Hfull. destruct (event_pending es); [done|].
      by destruct (a_staged a). }
    destruct (emit_serving cats a s Hsv Hn Hlen) as [Hsv' Hfl].
    destruct (IH _ _ H Hsv' Hl) as (rs & es2 & a2 & Hse & HR2 & Heq).
    exists rs, es2, a2. rewrite Hse.
    split; [by destruct o|]. split; [done|]. rewrite Heq, Hfl, <-app_assoc. f_equal. cbn [omap list_omap].
    rewrite Hen. cbn [mbind option_bind]. by destruct (contains cats (category (st_kind s))).
  - subst o. destruct (clear_serving cats a Hsv) as (Hsv1 & Hfl & _).
    pose proof (op_refines es a OClear HR) as H. cbn [op_ok a_apply] in H. rewrite (sv_exit _ _ Hsv) in H. specialize (H ltac:(done)).
    destruct (IH _ _ H Hsv1 Hl) as (rs & es2 & a2 & Hse & HR2 & Heq).
    eexists _, es2, a2. rewrite Hse. split; [done|]. split; [done|].
    rewrite (proj2 (drain_refines es a HR)), fmap_app, <-app_assoc, Heq, Hfl, <-app_assoc. done.
Qed.

(** ** Theorems *)

(** C23: the event buffer refines an abstract log.  Take any sequence of emissions, patches of
    exit records, drains and reconfigurations in which the buffer is neither drained nor
    reconfigured while an exit record in it waits for its hash, and no staged one that waits for
    it is drained with exit records switched off.  The bytes userspace drains decode to exactly
    the records of the log, with consecutive sequence numbers, and the buffer is never overrun.
    The log has the code's rules for a full buffer: one record is staged, cut to a page, the
    others are dropped, and a late hash goes to the staged record even if the exit record was dropped. *)
Theorem event_stream_refines_log pbuf sbuf l :
  ops_ok a_new l →
  let es := run_ops (event_state_new pbuf sbuf) l in let a := a_run a_new l in
  EventStream (drain es) = a_log a ∧ drain es = stream_bytes (a_log a) ∧
  0 ≤ event_len es ≤ EVENT_BUFFER_SIZE ∧
  event_buffer_full es = bool_decide (is_Some (a_staged a)) ∧
  ∀ i r, a_log a !! i = Some r → h_seq (r_header r) = u64 (a_seq a - Z.of_nat (length (a_log a)) + Z.of_nat i).
Proof.
  intros Hok es a. pose proof (run_refines _ _ l (event_state_new_refines pbuf sbuf) Hok) as H. fold es a in H.
  destruct (drain_refines es a H) as [Hd He]. split; [done|]. split; [done|].
  split; [|split; [|apply (run_seqs a_new l); split; [split|]; done]].
  - pose proof (rf_len _ _ H). pose proof (rf_cap _ _ H). unfold log_size in *. lia.
  - pose proof (rf_staged _ _ H). unfold event_buffer_full. by destruct (event_pending es), (a_staged a).
Qed.

(** Host time does not leak into the deterministic part of the stream.  Two
    runs whose operations differ only in the values [rdtsc] returned produce
    streams that are equal record by record once the [real_tsc] header field is
    ignored. *)
Theorem event_stream_host_time_independent pbuf sbuf pbuf' sbuf' l l' :
  ops_ok a_new l → ops_ok a_new l' → erase_op <$> l = erase_op <$> l' →
  erase_record <$> EventStream (drain (run_ops (event_state_new pbuf sbuf) l)) =
  erase_record <$> EventStream (drain (run_ops (event_state_new pbuf' sbuf') l')).
Proof.
  intros Hok Hok' Heq.
  pose proof (run_refines _ _ l (event_state_new_refines pbuf sbuf) Hok) as H.
  pose proof (run_refines _ _ l' (event_state_new_refines pbuf' sbuf') Hok') as H'.
  rewrite (proj2 (drain_refines _ _ H)), (proj2 (drain_refines _ _ H')).
  pose proof (erase_run a_new l) as E. rewrite Heq, erase_run in E. symmetry. by apply (f_equal a_log) in E.
Qed.

(** C24: no event is lost, duplicated, reordered or altered, in a session in which every full
    buffer is drained before the next emission and in which only events are appended, console
    pages and I/O channel records, of at most 4096 bytes each, with the categories fixed at the
    start: what userspace has drained, what is in the buffer and what is staged together are
    exactly the enabled events that were emitted, in order.  (A longer record may be cut when it
    is staged; exit records and serial bytes are not part of such a session.) *)
Theorem no_event_lost pbuf sbuf cats m l :
  let es0 := handle_set_event_config true cats m (event_state_new pbuf sbuf) in
  obeys es0 l →
  ∃ rs es a, session es0 l = (rs, es) ∧ EventStream (drain es) = a_log a ∧
    (strip <$> rs) ++ (strip <$> EventStream (drain es)) ++ (strip_staged <$> option_list (a_staged a)) =
    strip_staged <$> omap (enabled cats) l ∧
    event_buffer_full es = bool_decide (is_Some (a_staged a)).
Proof.
  intros es0 Hob.
  assert (refines es0 (a_config true cats a_new)) as HR by (apply config_refines; [apply event_state_new_refines|done]).
  destruct (session_complete cats es0 _ l HR) as (rs & es & a & Hs & HR' & Heq); [by constructor|done|].
  exists rs, es, a. split; [done|]. destruct (drain_refines es a HR') as [_ Hd]. split; [done|]. rewrite Hd.
  split; [by apply Heq|]. pose proof (rf_staged _ _ HR'). unfold event_buffer_full. by destruct (event_pending es), (a_staged a).
Qed.

(** *** Exit records get their hash *)
Lemma encode_insert szs vals i sz z :
  length szs = length vals → szs !! i = Some sz →
  list_inserts (sum_list (take i szs)) (le_bytes sz z) (encode szs vals) = encode szs (<[i := z]> vals).
Proof.
  revert szs vals. induction i as [|i IH]; intros [|s szs] [|x vals] Hl Hi; try done.
  - cbn in Hi. injection Hi as ->. cbn [encode insert list_insert take sum_list].
    rewrite list_inserts_app_prefix by (by rewrite !length_le_bytes).
    f_equal. apply list_eq_same_length with sz; rewrite ?length_inserts, ?length_le_bytes; [done|done|].
    intros j y1 y2 Hj. rewrite list_lookup_inserts, Nat.sub_0_r by (rewrite ?length_le_bytes; lia). congruence.
  - cbn [encode insert list_insert take]. cbn in Hi. injection Hl as Hl.
    change (sum_list (s :: take i szs)) with (s + sum_list (take i szs))%nat.
    rewrite <-(length_le_bytes s x) at 1. rewrite list_inserts_app_r. f_equal. by apply IH.
Qed.

(** The record with its two late fields. *)
Definition with_late (r : ExitRecord) (mh cc : Z) : ExitRecord :=
  mkExit (er_tsc r) (er_exit_reason r) (er_flags r) (er_exit_qualification r) (er_gprs r) (er_hashes r) mh (er_bases r)
    (er_interruptibility_state r) cc (er_pebs_skid r) (er_pebs_inst_delta r) (er_pebs_tsc_offset_delta r)
    (er_pebs_iters_since_arm r) (er_pebs_arm_delta r) (er_debug r) (er_padding r).

Lemma exit_values_late junk r mh cc :
  exit_ok r → <[39%nat := cc]> (<[28%nat := mh]> (exit_values junk r)) = exit_values junk (with_late r mh cc).
Proof.
  intros [H1 H2 H3 _ _ _ _ _]. destruct r as [a1 a2 a3 a4 g h mh0 b ist cp s1 s2 s3 it ad d p].
  cbn [er_gprs er_hashes er_bases] in *.
  repeat (destruct g as [|? g]; simpl in H1; try done). repeat (destruct h as [|? h]; simpl in H2; try done).
  repeat (destruct b as [|? b]; simpl in H3; try done).
Qed.

Lemma patch_exit_bytes junk r mh cc :
  exit_ok r → patch_payload mh cc (exit_bytes junk r) = exit_bytes junk (with_late r mh cc).
Proof.
  intros Hr. assert (length exit_layout = length (exit_values junk r)) as Hl.
  { destruct Hr as [H1 H2 H3 H4 H5 _ _ _]. unfold exit_values. rewrite !length_app, H1, H2, H3, H4, H5. done. }
  unfold patch_payload, exit_bytes.
  change memory_hash_off with (sum_list (take 28 exit_layout)). change cow_page_count_off with (sum_list (take 39 exit_layout)).
  rewrite encode_insert by done. rewrite encode_insert by (done || by rewrite length_insert).
  by rewrite exit_values_late.
Qed.

Lemma with_late_ok r mh cc : exit_ok r → in_width 64 mh → in_width 32 cc → exit_ok (with_late r mh cc).
Proof.
  intros [H1 H2 H3 H4 H5 Hw Hh Hs] Hm Hc. constructor; try done; cbn [with_late er_tsc er_exit_qualification er_memory_hash
    er_pebs_arm_delta er_gprs er_hashes er_bases er_debug er_padding er_exit_reason er_flags er_interruptibility_state
    er_cow_page_count er_pebs_iters_since_arm].
  - rewrite !Forall_app, !Forall_cons in *. naive_solver.
  - rewrite !Forall_cons in *. naive_solver.
Qed.

(** An exit record is appended with its hash fields empty and patched once
    guest memory is stable: afterwards the stream is what it was plus one
    record, which decodes to the exit as captured with the memory hash and the
    copy-on-write count filled in. *)
Theorem exit_record_finalized pbuf sbuf l junk r det tsc real_tsc mh cc :
  let es1 := run_ops (event_state_new pbuf sbuf) l in
  ops_ok a_new l →
  is_Some (event_buffer es1) → contains (event_categories es1) CAT_EXIT = true →
  event_len es1 + record_size 512 ≤ EVENT_BUFFER_SIZE →
  exit_ok r → in_width 32 junk → in_width 64 tsc → in_width 64 real_tsc → in_width 64 mh → in_width 32 cc →
  let es2 := finalize_exit_memory_hash mh cc (emit_exit_event (exit_bytes junk r) det tsc real_tsc es1) in
  ∃ rec, EventStream (drain es2) = EventStream (drain es1) ++ [rec] ∧ h_seq (r_header rec) = event_seq es1 ∧
    h_tsc (r_header rec) = tsc ∧ is_deterministic rec = det ∧ event rec = EvExit (with_late r mh cc).
Proof.
  intros es1 Hok [m Hm] Hcat Hfit Hr Hj Ht Hrt Hmh Hcc es2.
  pose proof (run_refines _ _ l (event_state_new_refines pbuf sbuf) Hok) as H. fold es1 in H. set (a := a_run a_new l) in *.
  pose proof (length_exit_bytes junk r Hr) as H512.
  pose proof (finalize_refines _ _ mh cc (emit_exit_refines es1 a (exit_bytes junk r) det tsc real_tsc H Ht Hrt H512)) as H2.
  rewrite (proj2 (drain_refines _ _ H)). unfold es2. rewrite (proj2 (drain_refines _ _ H2)).
  pose proof H as [Hb Hlen _ _ Hseq _ Hcats _ _ _ _ _ _ _]. rewrite Hm in Hb. destruct Hb as [Hatt _].
  unfold a_emit_exit. rewrite Hatt, <-Hcats, Hcat. cbn [negb orb].
  set (s := mkStaged Exit (if det then EVENT_FLAG_DETERMINISTIC else 0) tsc real_tsc (exit_bytes junk r)).
  assert (a_emit s (a_with_exit None a) = (true, a_with_log (a_log a ++ [mk_record (a_seq a) s]) (a_seq a +! 1) (a_with_exit None a))) as ->.
  { unfold a_emit. es_simpl. cbn [st_kind s category st_payload]. rewrite <-Hcats, Hcat, Hatt, <-Hlen, H512. cbn [negb orb].
    change (Z.of_nat 512) with 512. destruct (Z.ltb_spec EVENT_BUFFER_SIZE (event_len es1 + record_size 512)); [lia|done]. }
  unfold a_finalize. es_simpl. exists (patch_record mh cc (mk_record (a_seq a) s)). split_and!.
  - replace (length (a_log a)) with (length (a_log a) + 0)%nat by lia. by rewrite alter_app_r.
  - by rewrite Hseq.
  - done.
  - by destruct det.
  - unfold patch_record. cbn [mk_record r_header r_payload s st_payload]. rewrite patch_exit_bytes by done.
    apply (event_decode_encode_spec (EvExit (with_late r mh cc))); [by apply with_late_ok|done|done].
Qed.

(** ** Concrete runs *)
Definition zeros : Z → Z := λ _, 0.
Definition demo_ops (real_tsc : Z) : list op :=
  [OConfig true 3 zeros; OAppend Serial [72; 105] 5 real_tsc; OSerialByte 10 7 real_tsc].

Lemma demo_ops_ok real_tsc : in_width 64 real_tsc → ops_ok a_new (demo_ops real_tsc).
Proof. intros Hr. cbn [demo_ops ops_ok op_ok]. split; [done|]. cbn -[in_width Z.lt Z.pow]. repeat split; try done; try apply Hr; lia. Qed.

Lemma event_stream_refines_log_witness :
  EventStream (drain (run_ops (event_state_new zeros zeros) (demo_ops 6))) =
    [mkRecord (mkHeader 0 5 6 1 1 2) [72; 105]; mkRecord (mkHeader 1 7 6 1 1 1) [10]].
Proof.
  destruct (event_stream_refines_log zeros zeros (demo_ops 6) (demo_ops_ok 6 ltac:(split; lia))) as [H _]. rewrite H. vm_compute. reflexivity.
Defined.

Lemma event_stream_host_time_independent_witness :
  let stream x := EventStream (drain (run_ops (event_state_new zeros zeros) (demo_ops x))) in
  stream 6 ≠ stream 99 ∧ erase_record <$> stream 6 = erase_record <$> stream 99.
Proof.
  split.
  - rewrite (proj2 (drain_refines _ _ (run_refines _ _ _ (event_state_new_refines zeros zeros) (demo_ops_ok 6 ltac:(split; lia))))).
    rewrite (proj2 (drain_refines _ _ (run_refines _ _ _ (event_state_new_refines zeros zeros) (demo_ops_ok 99 ltac:(split; lia))))).
    vm_compute. discriminate.
  - apply (event_stream_host_time_independent zeros zeros zeros zeros (demo_ops 6) (demo_ops 99)
      (demo_ops_ok 6 ltac:(split; lia)) (demo_ops_ok 99 ltac:(split; lia))). reflexivity.
Defined.

Lemma no_event_lost_witness : ∃ rs es,
  session (handle_set_event_config true 2 zeros (event_state_new zeros zeros)) [OAppend Serial [72] 1 2; OClear; OAppend Inject [1] 3 4] = (rs, es) ∧
  (strip <$> rs) ++ (strip <$> EventStream (drain es)) = [(1, 1, 1, 2, [72])].
Proof.
  pose proof (no_event_lost zeros zeros 2 zeros [OAppend Serial [72] 1 2; OClear; OAppend Inject [1] 3 4]) as H.
  destruct H as (rs & es & a & Hs & Hd & Heq & Hfull).
  - cbn -[in_width Z.lt Z.le]. repeat split; try done; lia.
  - exists rs, es. split; [exact Hs|].
    assert (event_buffer_full (session (handle_set_event_config true 2 zeros (event_state_new zeros zeros))
      [OAppend Serial [72] 1 2; OClear; OAppend Inject [1] 3 4]).2 = false) as Hf by (vm_compute; reflexivity).
    rewrite Hs in Hf. cbn [snd] in Hf. rewrite Hfull in Hf. destruct (a_staged a); [discriminate Hf|].
    cbn [option_list fmap list_fmap] in Heq. rewrite app_nil_r in Heq. rewrite Heq. reflexivity.
Defined.

Lemma exit_new_ok : exit_ok exit_new.
Proof. constructor; try done; repeat constructor; done. Qed.

Lemma exit_record_finalized_witness : ∃ es rec,
  EventStream (drain es) = [rec] ∧ event rec = EvExit (with_late exit_new 0xABCD 3).
Proof.
  assert (ops_ok a_new [OConfig true 1 zeros]) as Hok by (cbn; done).
  destruct (exit_record_finalized zeros zeros [OConfig true 1 zeros] 0 exit_new true 5 6 0xABCD 3 Hok) as (rec & Hd & _ & _ & _ & Hev);
    [by eexists|reflexivity|vm_compute; discriminate|apply exit_new_ok|split; lia..|].
  eexists _, rec. split; [|exact Hev]. rewrite Hd. reflexivity.
Defined.

(** ** A dropped exit record

    [event_write] also returns [false] when it drops a record because another
    one is staged; [emit_exit_event] takes that for "staged" and the later patch
    goes into the record that is. *)
Definition demo_line : list Z := replicate 512 65.
Definition overfull (big : list Z) : list op :=
  [OConfig true 3 zeros; OAppend Serial big 1 1; OAppend Serial demo_line 2 2;
   OExit (exit_bytes 0 exit_new) true 3 3; OFinalize 0 0; OClear].

Lemma emit_full s a :
  contains (a_cats a) (category (st_kind s)) = true → a_attached a = true →
  EVENT_BUFFER_SIZE < log_size (a_log a) + record_size (Z.of_nat (length (st_payload s))) →
  a_emit s a = (false, match a_staged a with
    | Some _ => a
    | None => a_with_staged (Some (mkStaged (st_kind s) (st_flags s) (st_tsc s) (st_real_tsc s) (take STAGE_CAP (st_payload s)))) a end).
Proof.
  intros Hc Ha Hf. unfold a_emit. rewrite Hc, Ha. cbn [negb orb]. rewrite (proj2 (Z.ltb_lt _ _) Hf). by destruct (a_staged a).
Qed.

Lemma emit_fits s a :
  contains (a_cats a) (category (st_kind s)) = true → a_attached a = true →
  log_size (a_log a) + record_size (Z.of_nat (length (st_payload s))) ≤ EVENT_BUFFER_SIZE →
  a_emit s a = (true, a_with_log (a_log a ++ [mk_record (a_seq a) s]) (a_seq a +! 1) a).
Proof.
  intros Hc Ha Hf. unfold a_emit. rewrite Hc, Ha. cbn [negb orb].
  destruct (Z.ltb_spec EVENT_BUFFER_SIZE (log_size (a_log a) + record_size (Z.of_nat (length (st_payload s))))); [lia|done].
Qed.

Lemma overfull_run big :
  Z.of_nat (length big) = 1048008 →
  ops_ok a_new (overfull big) ∧
  a_log (a_run a_new (overfull big)) = [mk_record 1 (mkStaged Serial 1 2 2 (patch_payload 0 0 (take STAGE_CAP demo_line)))].
Proof.
  intros Hbig. set (a1 := a_config true 3 a_new).
  set (s1 := mkStaged Serial 1 1 1 big). set (a2 := a_with_log [mk_record 0 s1] 1 a1).
  set (s2 := mkStaged Serial 1 2 2 demo_line). set (a3 := a_with_staged (Some (mkStaged Serial 1 2 2 (take STAGE_CAP demo_line))) a2).
  set (a4 := a_with_exit (Some InStaged) (a_with_exit None a3)).
  set (a5 := a_with_staged (Some (patch_staged 0 0 (mkStaged Serial 1 2 2 (take STAGE_CAP demo_line)))) (a_with_exit None a4)).
  assert (log_size (a_log a2) = 1048040) as Hsz.
  { change (a_log a2) with ([] ++ [mk_record 0 s1]). rewrite log_size_snoc. cbn [mk_record r_payload s1 st_payload].
    rewrite Hbig. reflexivity. }
  assert (a_apply a1 (OAppend Serial big 1 1) = a2) as E2.
  { cbn [a_apply]. change (default_flags Serial) with 1. fold s1. rewrite emit_fits; [done|done|done|].
    cbn [s1 st_payload]. rewrite Hbig. vm_compute. discriminate. }
  assert (a_apply a2 (OAppend Serial demo_line 2 2) = a3) as E3.
  { cbn [a_apply]. change (default_flags Serial) with 1. fold s2. rewrite emit_full; [done|done|done|]. rewrite Hsz. reflexivity. }
  assert (a_apply a3 (OExit (exit_bytes 0 exit_new) true 3 3) = a4) as E4.
  { cbn [a_apply]. unfold a_emit_exit. change (negb (a_attached a3) || negb (contains (a_cats a3) CAT_EXIT)) with false.
    cbn iota. rewrite emit_full; [done|done|done|]. cbn [st_payload]. rewrite (length_exit_bytes 0 exit_new exit_new_ok).
    change (a_log (a_with_exit None a3)) with (a_log a2). rewrite Hsz. reflexivity. }
  assert (a_apply a4 (OFinalize 0 0) = a5) as E5 by done.
  split.
  - cbn [overfull ops_ok op_ok]. change (a_apply a_new (OConfig true 3 zeros)) with a1.
    rewrite E2, E3, E4, E5. repeat split; try done; lia.
  - unfold a_run, overfull. cbn [foldl]. change (a_apply a_new (OConfig true 3 zeros)) with a1.
    rewrite E2, E3, E4, E5. cbn [a_apply]. unfold a_clear.
    change (a_staged a5) with (Some (patch_staged 0 0 (mkStaged Serial 1 2 2 (take STAGE_CAP demo_line)))). cbn iota.
    set (s5 := patch_staged 0 0 (mkStaged Serial 1 2 2 (take STAGE_CAP demo_line))).
    change (a_exit a5) with (@None aloc). rewrite andb_false_r.
    rewrite emit_fits; [reflexivity|reflexivity|reflexivity|]. cbn [st_payload s5 patch_staged]. rewrite length_patch, length_take.
    vm_compute. discriminate.
Qed.

(** An exit record that is dropped because a serial line is already staged
    still has its memory hash patched in, over the bytes of the serial line:
    the line that reaches userspace is not the line the guest wrote. *)
Theorem dropped_exit_corrupts_staged_record : ∃ big rec,
  EventStream (drain (run_ops (event_state_new zeros zeros) (overfull big))) = [rec] ∧ h_kind (r_header rec) = as_u16 Serial ∧ h_tsc (r_header rec) = 2 ∧
  length (r_payload rec) = length demo_line ∧ r_payload rec ≠ demo_line.
Proof.
  assert (∃ big : list Z, Z.of_nat (length big) = 1048008) as [big Hbig].
  { exists (replicate (Z.to_nat 1048008) 0). rewrite length_replicate. apply Z2Nat.id. lia. }
  destruct (overfull_run big Hbig) as [Hok Hlog].
  pose proof (run_refines _ _ _ (event_state_new_refines zeros zeros) Hok) as H. exists big. eexists.
  rewrite (proj2 (drain_refines _ _ H)), Hlog. split; [reflexivity|]. split; [reflexivity|]. split; [reflexivity|].
  cbn [mk_record r_payload st_payload]. rewrite length_patch. split; [vm_compute; reflexivity|].
  intros Heq. apply (f_equal (λ l : list Z, l !! 216%nat)) in Heq. vm_compute in Heq. discriminate.
Qed.
