(* ===== verification/Random.v ===== *)
(** * The controlled-randomness device (crate [bedrock-vmx]: [devices/random.rs])

    One device serves RDRAND, RDSEED and the GET_RANDOM hypercall, either from a
    xorshift64 generator or with values userspace stages.  The theorems: the
    generator is a permutation of the 64-bit words that fixes only zero, and no
    operation ever makes its state zero. *)
From S2P Require Import Prelude.

Inductive RdrandMode := SeededRng | ExitToUserspaceMode.
#[export] Instance RdrandMode_eq_dec : EqDecision RdrandMode.
Proof. solve_decision. Defined.

Definition RANDOM_REPLY_MAX : nat := 256.

Record RandomState := mkRandomState {
  rs_mode : RdrandMode;
  rs_seed : Z;
  rs_pending_value : option Z;
  rs_awaiting : bool;
  rs_buf_gva : Z;
  rs_req_len : Z;
  rs_pid : Z;
  rs_reply : list Z;
  rs_reply_len : Z;
  rs_reply_valid : bool;
}.
Implicit Types s : RandomState.

Definition random_default : RandomState :=
  mkRandomState SeededRng 0x9e3779b97f4a7c15 None false 0 0 0 (replicate RANDOM_REPLY_MAX 0) 0 false.

Definition nonzero_seed (seed : Z) : Z := if seed =? 0 then 1 else seed.

Definition set_seed (seed : Z) s : RandomState :=
  mkRandomState (rs_mode s) seed (rs_pending_value s) (rs_awaiting s) (rs_buf_gva s) (rs_req_len s) (rs_pid s)
    (rs_reply s) (rs_reply_len s) (rs_reply_valid s).
Definition set_mode (m : RdrandMode) s : RandomState :=
  mkRandomState m (rs_seed s) (rs_pending_value s) (rs_awaiting s) (rs_buf_gva s) (rs_req_len s) (rs_pid s)
    (rs_reply s) (rs_reply_len s) (rs_reply_valid s).
Definition set_pending (v : option Z) s : RandomState :=
  mkRandomState (rs_mode s) (rs_seed s) v (rs_awaiting s) (rs_buf_gva s) (rs_req_len s) (rs_pid s)
    (rs_reply s) (rs_reply_len s) (rs_reply_valid s).

Definition seeded_rng (seed : Z) : RandomState := set_seed (nonzero_seed seed) random_default.
Definition exit_to_userspace : RandomState := set_mode ExitToUserspaceMode random_default.

Definition clear_request s : RandomState :=
  mkRandomState (rs_mode s) (rs_seed s) (rs_pending_value s) false 0 0 0 (rs_reply s) 0 false.

Definition configure (mode : RdrandMode) (seed : Z) s : RandomState :=
  clear_request (set_pending None (set_seed (nonzero_seed seed) (set_mode mode s))).

Definition xorshift64 (x : Z) : Z :=
  let x := Z.lxor x (u64 (Z.shiftl x 13)) in
  let x := Z.lxor x (Z.shiftr x 7) in
  Z.lxor x (u64 (Z.shiftl x 17)).

Definition next_seeded_u64 s : Z * RandomState :=
  let x := xorshift64 (rs_seed s) in (x, set_seed x s).

Definition generate s : option Z * RandomState :=
  match rs_mode s with
  | SeededRng => let '(x, s') := next_seeded_u64 s in (Some x, s')
  | ExitToUserspaceMode => (rs_pending_value s, set_pending None s)
  end.

Definition set_pending_value (value : Z) s : RandomState := set_pending (Some value) s.
Definition needs_rdrand_exit s : bool :=
  bool_decide (rs_mode s = ExitToUserspaceMode) && match rs_pending_value s with None => true | _ => false end.

Definition begin_request (buf_gva req_len pid : Z) s : RandomState :=
  mkRandomState (rs_mode s) (rs_seed s) (rs_pending_value s) true buf_gva req_len pid (rs_reply s) 0 false.

Definition stage_reply (bytes : list Z) s : RandomState :=
  let n := Nat.min (length bytes) RANDOM_REPLY_MAX in
  mkRandomState (rs_mode s) (rs_seed s) (rs_pending_value s) (rs_awaiting s) (rs_buf_gva s) (rs_req_len s) (rs_pid s)
    (take n bytes ++ drop n (rs_reply s)) (Z.of_nat n) true.

Definition needs_get_random_exit s : bool :=
  bool_decide (rs_mode s = ExitToUserspaceMode) && negb (rs_reply_valid s).

(** ** The generator *)
Lemma lxor_shl_bits n x i :
  0 < n → 0 ≤ i < 64 → Z.testbit (Z.lxor x (u64 (Z.shiftl x n))) i =
  xorb (Z.testbit x i) (if n <=? i then Z.testbit x (i - n) else false).
Proof.
  intros Hn Hi. unfold u64, wrap. rewrite Z.lxor_spec, Z.mod_pow2_bits_low by lia. f_equal.
  destruct (Z.leb_spec n i); [by rewrite Z.shiftl_spec by lia|]. apply Z.shiftl_spec_low. lia.
Qed.

(** A word all of whose bits agree with those of another. *)
Lemma eq_by_bits x y : in_width 64 x → in_width 64 y → (∀ i, 0 ≤ i < 64 → Z.testbit x i = Z.testbit y i) → x = y.
Proof.
  intros Hx Hy H. apply Z.bits_inj'. intros i Hi. destruct (Z.lt_ge_cases i 64); [auto|].
  rewrite (testbit_above 64 x), (testbit_above 64 y); done || lia.
Qed.

Lemma xor_shl_inj n x y :
  0 < n → in_width 64 x → in_width 64 y →
  Z.lxor x (u64 (Z.shiftl x n)) = Z.lxor y (u64 (Z.shiftl y n)) → x = y.
Proof.
  intros Hn Hx Hy Heq. apply eq_by_bits; [done..|]. intros i. induction (Z.lt_wf 0 i) as [i _ IH]; intros Hi.
  apply (f_equal (λ z, Z.testbit z i)) in Heq. rewrite !lxor_shl_bits in Heq by done.
  destruct (Z.leb_spec n i); [rewrite (IH (i - n)) in Heq by lia|]; by destruct (Z.testbit x i), (Z.testbit y i), (Z.testbit y (i - n)).
Qed.

Lemma xor_shr_inj n x y :
  0 < n → in_width 64 x → in_width 64 y → Z.lxor x (Z.shiftr x n) = Z.lxor y (Z.shiftr y n) → x = y.
Proof.
  intros Hn Hx Hy Heq. apply eq_by_bits; [done..|].
  assert (∀ k i, 0 ≤ i → 64 - i ≤ Z.of_nat k → Z.testbit x i = Z.testbit y i) as H; [|intros i Hi; apply (H 64%nat); lia].
  induction k as [|k IH]; intros i Hi Hk.
  - rewrite (testbit_above 64 x), (testbit_above 64 y); done || lia.
  - apply (f_equal (λ z, Z.testbit z i)) in Heq. rewrite !Z.lxor_spec, !Z.shiftr_spec in Heq by lia.
    rewrite (IH (i + n)) in Heq by lia. by destruct (Z.testbit x i), (Z.testbit y i), (Z.testbit y (i + n)).
Qed.

Lemma xorshift_width x : in_width 64 x → in_width 64 (xorshift64 x).
Proof. intros. unfold xorshift64. auto 10 with bedrock lia. Qed.

Lemma xorshift_inj x y : in_width 64 x → in_width 64 y → xorshift64 x = xorshift64 y → x = y.
Proof.
  intros Hx Hy H. unfold xorshift64 in H.
  assert (∀ z, in_width 64 z → in_width 64 (Z.lxor z (u64 (Z.shiftl z 13)))) as H1 by auto with bedrock lia.
  assert (∀ z, in_width 64 z → in_width 64 (Z.lxor z (Z.shiftr z 7))) as H2 by auto with bedrock lia.
  apply xor_shl_inj in H; [|lia|auto..]. apply xor_shr_inj in H; [|lia|auto..]. by apply xor_shl_inj in H; [|lia|..].
Qed.

(** The generator is a permutation of the 64-bit words and maps only zero to
    zero: two different states never produce the same value, so the guest's
    stream never collapses. *)
Theorem xorshift64_permutation x :
  in_width 64 x →
  in_width 64 (xorshift64 x) ∧ (xorshift64 x = 0 ↔ x = 0) ∧
  ∀ y, in_width 64 y → xorshift64 y = xorshift64 x → y = x.
Proof.
  intros Hx. split; [by apply xorshift_width|]. split; [|by intros; apply xorshift_inj].
  split; [|by intros ->]. intros H. apply (xorshift_inj x 0); [done|split; lia|done].
Qed.

Lemma xorshift64_permutation_witness : in_width 64 (xorshift64 1) ∧ xorshift64 1 ≠ 0.
Proof.
  destruct (xorshift64_permutation 1) as (H1 & H2 & _); [split; lia|]. split; [exact H1|]. rewrite H2. discriminate.
Defined.

(** ** The state *)
Inductive random_op :=
| RConfigure (mode : RdrandMode) (seed : Z)
| RGenerate | RSetPending (value : Z)
| RBegin (buf_gva req_len pid : Z) | RStage (bytes : list Z) | RClear.
Definition random_step s (o : random_op) : RandomState :=
  match o with
  | RConfigure m seed => configure m seed s
  | RGenerate => (generate s).2
  | RSetPending v => set_pending_value v s
  | RBegin g l p => begin_request g l p s
  | RStage bs => stage_reply bs s
  | RClear => clear_request s
  end.

Record random_ok s : Prop := {
  ro_seed : in_width 64 (rs_seed s) ∧ rs_seed s ≠ 0;
  ro_reply : length (rs_reply s) = RANDOM_REPLY_MAX;
  ro_reply_len : 0 ≤ rs_reply_len s ≤ 256;
  ro_reply_valid : rs_reply_valid s = false → rs_reply_len s = 0;
}.

Definition random_op_ok (o : random_op) : Prop :=
  match o with RConfigure _ seed => in_width 64 seed | _ => True end.

Lemma nonzero_seed_ok seed : in_width 64 seed → in_width 64 (nonzero_seed seed) ∧ nonzero_seed seed ≠ 0.
Proof. intros H. unfold nonzero_seed. destruct (Z.eqb_spec seed 0); [split; [split; lia|done]|done]. Qed.

Lemma random_step_ok s o : random_ok s → random_op_ok o → random_ok (random_step s o).
Proof.
  intros [[Hw Hz] Hr Hl Hv] Ho. destruct o as [m seed| |v|g l p|bs|]; cbn [random_step].
  - by constructor; [apply nonzero_seed_ok|..].
  - unfold generate, next_seeded_u64. destruct (rs_mode s); [|by constructor].
    constructor; cbn; try done. split; [by apply xorshift_width|].
    intros H0. apply Hz, (xorshift_inj _ 0); [done|split; lia|done].
  - by constructor.
  - by constructor; cbn.
  - constructor; cbn; [done| |unfold RANDOM_REPLY_MAX; lia|done].
    rewrite length_app, length_take, length_drop, Hr. unfold RANDOM_REPLY_MAX. lia.
  - by constructor; cbn.
Qed.

(** From every initial device and through any sequence of configurations,
    draws, staged values and GET_RANDOM requests the generator's state is a
    non-zero 64-bit word, the reply buffer keeps its size and its valid prefix
    is inside it; and in seeded mode a draw always gives a non-zero value. *)
Theorem random_state_invariant s0 l :
  s0 = random_default ∨ s0 = exit_to_userspace ∨ (∃ seed, in_width 64 seed ∧ s0 = seeded_rng seed) →
  Forall random_op_ok l →
  let s := foldl random_step s0 l in
  random_ok s ∧
  (rs_mode s = SeededRng → ∃ x, (generate s).1 = Some x ∧ x ≠ 0 ∧ in_width 64 x) ∧
  (rs_mode s = ExitToUserspaceMode → (generate s).1 = rs_pending_value s ∧ rs_pending_value (generate s).2 = None ∧
    (needs_rdrand_exit s = true ↔ (generate s).1 = None)).
Proof.
  intros H0 Hl s. assert (random_ok s0) as Hok.
  { destruct H0 as [->|[->|(seed & Hs & ->)]]; constructor; cbn; try done; [split; lia..|].
    by apply nonzero_seed_ok. }
  assert (random_ok s) as Hs.
  { unfold s. clear H0 s. revert s0 Hok. induction Hl as [|o l Ho _ IH]; intros s0 Hok; [done|]. by apply IH, random_step_ok. }
  split; [done|]. pose proof (random_step_ok s RGenerate Hs I) as [[Hw Hz] _ _ _]. cbn [random_step] in Hw, Hz.
  unfold generate, next_seeded_u64, needs_rdrand_exit in *. split; intros Hm; rewrite Hm in *.
  - eauto.
  - split; [done|]. split; [done|]. cbn. by destruct (rs_pending_value s).
Qed.

Lemma random_state_invariant_witness :
  random_ok (foldl random_step (seeded_rng 0) [RGenerate; RConfigure ExitToUserspaceMode 0; RBegin 4096 16 7; RStage [1; 2; 3]]).
Proof.
  apply (random_state_invariant (seeded_rng 0)); [right; right; exists 0; split; [split; lia|reflexivity]|].
  repeat constructor; lia.
Defined.

(** The GET_RANDOM hand-over.  After a request the device asks for an exit;
    after userspace has staged its bytes it does not, and it holds exactly the
    first 256 of them; clearing makes the next request ask again. *)
Theorem get_random_protocol s gva len pid bytes :
  random_ok s → rs_mode s = ExitToUserspaceMode →
  let s1 := begin_request gva len pid s in
  let s2 := stage_reply bytes s1 in
  needs_get_random_exit s1 = true ∧ needs_get_random_exit s2 = false ∧
  take (Z.to_nat (rs_reply_len s2)) (rs_reply s2) = take RANDOM_REPLY_MAX bytes ∧
  (rs_buf_gva s2, rs_req_len s2, rs_pid s2) = (gva, len, pid) ∧
  needs_get_random_exit (clear_request s2) = true.
Proof.
  intros Hok Hm s1 s2. unfold needs_get_random_exit. cbn [rs_mode rs_reply_valid s1 s2 begin_request stage_reply clear_request].
  rewrite Hm. cbn. repeat (split; [done|]). split; [|done].
  rewrite Nat2Z.id, take_app_le by (rewrite length_take; lia).
  rewrite take_take. unfold RANDOM_REPLY_MAX.
  destruct (decide (length bytes ≤ 256)%nat); [by rewrite !take_ge by lia|]. f_equal. lia.
Qed.

Lemma get_random_protocol_witness :
  needs_get_random_exit (stage_reply [5; 6] (begin_request 4096 2 7 exit_to_userspace)) = false.
Proof.
  apply (get_random_protocol exit_to_userspace 4096 2 7 [5; 6]); [|reflexivity].
  constructor; cbn; try reflexivity; [split; [split; lia|lia]|lia].
Defined.
