(* ===== verification/Rtc.v ===== *)
(** * The CMOS clock (crate [bedrock-vmx]: [devices/rtc.rs])

    The clock's registers are computed from the emulated time stamp counter.
    The theorem: a guest that reads them and converts back gets the configured
    base time plus the elapsed seconds, for every time before the year 10000. *)
From S2P Require Import Prelude.

Record RtcState := mkRtc { rtc_index : Z; rtc_base_time : Z }.
Implicit Types s : RtcState.

Definition rtc_default : RtcState := mkRtc 0 1704067200.
Definition set_time (timestamp : Z) s : RtcState := mkRtc (rtc_index s) timestamp.

Definition to_bcd (value : Z) : Z := Z.lor (u8 (Z.shiftl (value / 10) 4)) (value mod 10).

Definition is_leap_year (year : Z) : bool :=
  ((year mod 4 =? 0) && negb (year mod 100 =? 0)) || (year mod 400 =? 0).

(** The [loop]; [None] when the fuel runs out. *)
Fixpoint year_loop (fuel : nat) (year remaining_days : Z) : option (Z * Z) :=
  match fuel with
  | O => None
  | S fuel' =>
      let days_in_year := if is_leap_year year then 366 else 365 in
      if remaining_days <? days_in_year then Some (year, remaining_days)
      else year_loop fuel' (year + 1) (remaining_days - days_in_year)
  end.

Definition days_in_months (leap : bool) : list Z :=
  if leap then [31; 29; 31; 30; 31; 30; 31; 31; 30; 31; 30; 31]
  else [31; 28; 31; 30; 31; 30; 31; 31; 30; 31; 30; 31].

Fixpoint month_loop (months : list Z) (month remaining_days : Z) : Z * Z :=
  match months with
  | [] => (month, remaining_days)
  | days_in_month :: months' =>
      if remaining_days <? days_in_month then (month, remaining_days)
      else month_loop months' (month + 1) (remaining_days - days_in_month)
  end.

(** A year has at least 365 days. *)
Definition year_fuel (days : Z) : nat := S (Z.to_nat (days / 365)).

Definition days_to_date (days : Z) : option (Z * Z * Z * Z) :=
  let day_of_week := u8 ((days + 4) mod 7 + 1) in
  '(year, remaining_days) ← year_loop (year_fuel days) 1970 days;
  let '(month, remaining_days) := month_loop (days_in_months (is_leap_year year)) 1 remaining_days in
  Some (year, month, u8 (remaining_days + 1), day_of_week).

Definition checked_div (a b : Z) : option Z := if b =? 0 then None else Some (a / b).

Definition read_register_with_tsc s (emulated_tsc tsc_frequency : Z) : option Z :=
  let elapsed_secs := default 0 (checked_div emulated_tsc tsc_frequency) in
  let secs := rtc_base_time s + elapsed_secs in
  let days := secs / 86400 in
  let time_of_day := secs mod 86400 in
  let hours := u8 (time_of_day / 3600) in
  let minutes := u8 ((time_of_day mod 3600) / 60) in
  let seconds := u8 (time_of_day mod 60) in
  '(year, month, day, day_of_week) ← days_to_date days;
  Some (let i := rtc_index s in
    if i =? 0x00 then to_bcd seconds else if i =? 0x02 then to_bcd minutes
    else if i =? 0x04 then to_bcd hours else if i =? 0x06 then to_bcd day_of_week
    else if i =? 0x07 then to_bcd day else if i =? 0x08 then to_bcd month
    else if i =? 0x09 then to_bcd (u8 (year mod 100))
    else if i =? 0x0A then 0x00 else if i =? 0x0B then 0x02 else if i =? 0x0C then 0x00 else if i =? 0x0D then 0x80
    else if i =? 0x32 then to_bcd (u8 (year / 100)) else 0x00).

(** ** The calendar *)
Definition leaps (y : Z) : Z := y / 4 - y / 100 + y / 400.
Definition days_before_year (y : Z) : Z := 365 * (y - 1970) + leaps (y - 1) - leaps 1969.
Definition year_days (y : Z) : Z := if is_leap_year y then 366 else 365.
Definition days_before_month (y m : Z) : Z := foldr Z.add 0 (take (Z.to_nat (m - 1)) (days_in_months (is_leap_year y))).
Definition days_of_month (y m : Z) : Z := nth (Z.to_nat (m - 1)) (days_in_months (is_leap_year y)) 0.
(** The number of a date, counted from 1970-01-01. *)
Definition unix_days (y m d : Z) : Z := days_before_year y + days_before_month y m + (d - 1).

Lemma leaps_step y : leaps y = leaps (y - 1) + (if is_leap_year y then 1 else 0).
Proof.
  unfold leaps, is_leap_year. destruct (Z.eqb_spec (y mod 4) 0), (Z.eqb_spec (y mod 100) 0), (Z.eqb_spec (y mod 400) 0); simpl;
    Z.to_euclidean_division_equations; lia.
Qed.

Lemma days_before_next y : days_before_year (y + 1) = days_before_year y + year_days y.
Proof.
  unfold days_before_year, year_days. replace (y + 1 - 1) with y by lia. rewrite (leaps_step y).
  destruct (is_leap_year y); lia.
Qed.

Lemma year_days_cases y : year_days y = 365 ∨ year_days y = 366.
Proof. unfold year_days. destruct (is_leap_year y); auto. Qed.

Lemma year_loop_spec fuel y r :
  0 ≤ r → r < 365 * Z.of_nat fuel →
  ∃ y' r', year_loop fuel y r = Some (y', r') ∧ y ≤ y' ∧ 0 ≤ r' < year_days y' ∧
    days_before_year y + r = days_before_year y' + r'.
Proof.
  revert y r. induction fuel as [|fuel IH]; intros y r Hr Hf; [lia|]. simpl. fold (year_days y).
  destruct (Z.ltb_spec r (year_days y)); [by exists y, r|].
  pose proof (year_days_cases y). destruct (IH (y + 1) (r - year_days y)) as (y' & r' & He & Hy & Hr' & Hd); [lia|lia|].
  exists y', r'. rewrite days_before_next in Hd. split; [done|]. split; [lia|]. split; [done|lia].
Qed.

Lemma month_loop_spec ms m r :
  0 ≤ r < foldr Z.add 0 ms →
  let '(m', r') := month_loop ms m r in
  ∃ k, m' = m + Z.of_nat k ∧ (k < length ms)%nat ∧ 0 ≤ r' < nth k ms 0 ∧ r = foldr Z.add 0 (take k ms) + r'.
Proof.
  revert m r. induction ms as [|d ms IH]; intros m r; simpl; [lia|]. intros Hr.
  destruct (Z.ltb_spec r d).
  - exists 0%nat. simpl. split; [lia|]. split; [lia|]. split; lia.
  - specialize (IH (m + 1) (r - d) ltac:(lia)). destruct (month_loop ms (m + 1) (r - d)) as [m' r'].
    destruct IH as (k & -> & Hk & Hr' & He). exists (S k). simpl. split; [lia|]. split; [lia|]. split; [lia|lia].
Qed.

Lemma months_total y : foldr Z.add 0 (days_in_months (is_leap_year y)) = year_days y.
Proof. unfold year_days. by destruct (is_leap_year y). Qed.

Lemma month_bound y k : (k < 12)%nat → 0 < nth k (days_in_months (is_leap_year y)) 0 ≤ 31.
Proof. intros Hk. do 12 (destruct k as [|k]; [by destruct (is_leap_year y)|]). lia. Qed.

Lemma days_to_date_spec days :
  0 ≤ days →
  ∃ y m d, days_to_date days = Some (y, m, d, (days + 4) mod 7 + 1) ∧ 1970 ≤ y ∧ 1 ≤ m ≤ 12 ∧
    1 ≤ d ≤ days_of_month y m ∧ d ≤ 31 ∧ unix_days y m d = days.
Proof.
  intros Hd. unfold days_to_date.
  destruct (year_loop_spec (year_fuel days) 1970 days Hd) as (y & r & -> & Hy & Hr & Hdy).
  { unfold year_fuel. Z.to_euclidean_division_equations. lia. }
  cbn [mbind option_bind]. pose proof (month_loop_spec (days_in_months (is_leap_year y)) 1 r) as Hm.
  rewrite months_total in Hm. specialize (Hm Hr). destruct (month_loop _ 1 r) as [m r'].
  destruct Hm as (k & -> & Hk & Hr' & Hrr). assert (length (days_in_months (is_leap_year y)) = 12%nat) as Hl by (by destruct (is_leap_year y)).
  pose proof (month_bound y k ltac:(lia)) as Hb. exists y, (1 + Z.of_nat k), (r' + 1). unfold u8.
  rewrite !wrap_small by (split; [Z.to_euclidean_division_equations; lia|change (2 ^ 8) with 256; Z.to_euclidean_division_equations; lia]).
  unfold days_of_month, unix_days, days_before_month. replace (Z.to_nat (1 + Z.of_nat k - 1)) with k by lia.
  repeat split; try lia. change (days_before_year 1970) with 0 in Hdy. lia.
Qed.

Definition from_bcd (b : Z) : Z := Z.shiftr b 4 * 10 + Z.land b 0xF.

Lemma from_to_bcd v : 0 ≤ v < 100 → from_bcd (to_bcd v) = v.
Proof.
  intros Hv. assert (∀ n, (n < 100)%nat → from_bcd (to_bcd (Z.of_nat n)) = Z.of_nat n) as H.
  { intros n Hn. do 100 (destruct n as [|n]; [reflexivity|]). lia. }
  specialize (H (Z.to_nat v)). rewrite Z2Nat.id in H by lia. apply H. lia.
Qed.

(** One register, as the guest reads it. *)
Definition rtc_read s (index emulated_tsc tsc_frequency : Z) : option Z :=
  read_register_with_tsc (mkRtc index (rtc_base_time s)) emulated_tsc tsc_frequency.

(** The seconds since the epoch at the start of the year 10000. *)
Definition year_10000 : Z := 253402300800.

Lemma year_bound y : days_before_year y ≤ 2932896 → y ≤ 9999.
Proof.
  intros H. destruct (Z.le_gt_cases y 9999); [done|]. exfalso. unfold days_before_year, leaps in H.
  Z.to_euclidean_division_equations. lia.
Qed.

(** The clock tells the right time.  For any base time, emulated counter and
    frequency that stay before the year 10000, reading the date and time
    registers (each a BCD number) and converting the date back gives exactly
    the base time plus the elapsed seconds; the fields are a valid date, the
    week day is that of the date, and the register computation terminates. *)
Theorem rtc_registers_tell_time s tsc freq :
  0 ≤ rtc_base_time s → 0 ≤ tsc → 0 ≤ freq →
  let secs := rtc_base_time s + (if freq =? 0 then 0 else tsc / freq) in
  secs < year_10000 →
  ∃ sec min hour wday day month year century,
    from_bcd <$> rtc_read s 0x00 tsc freq = Some sec ∧ from_bcd <$> rtc_read s 0x02 tsc freq = Some min ∧
    from_bcd <$> rtc_read s 0x04 tsc freq = Some hour ∧ from_bcd <$> rtc_read s 0x06 tsc freq = Some wday ∧
    from_bcd <$> rtc_read s 0x07 tsc freq = Some day ∧ from_bcd <$> rtc_read s 0x08 tsc freq = Some month ∧
    from_bcd <$> rtc_read s 0x09 tsc freq = Some year ∧ from_bcd <$> rtc_read s 0x32 tsc freq = Some century ∧
    0 ≤ sec < 60 ∧ 0 ≤ min < 60 ∧ 0 ≤ hour < 24 ∧ 0 ≤ year < 100 ∧ 1 ≤ month ≤ 12 ∧
    1 ≤ day ≤ days_of_month (100 * century + year) month ∧ wday = (secs / 86400 + 4) mod 7 + 1 ∧
    86400 * unix_days (100 * century + year) month day + 3600 * hour + 60 * min + sec = secs.
Proof.
  intros Hb Ht Hf secs Hs.
  assert (default 0 (checked_div tsc freq) = if freq =? 0 then 0 else tsc / freq) as Hel.
  { unfold checked_div. by destruct (freq =? 0). }
  assert (0 ≤ secs) as Hs0.
  { unfold secs. destruct (Z.eqb_spec freq 0); [lia|]. assert (0 ≤ tsc / freq) by (apply Z.div_pos; lia). lia. }
  destruct (days_to_date_spec (secs / 86400)) as (y & m & d & Hd & Hy & Hm & Hdm & Hd31 & Hu); [Z.to_euclidean_division_equations; lia|].
  assert (y ≤ 9999) as Hy'.
  { apply year_bound. assert (0 ≤ days_before_month y m) as H0.
    { unfold days_before_month. generalize (Z.to_nat (m - 1)). intros k. do 13 (destruct k as [|k]; [by destruct (is_leap_year y)|]).
      by destruct (is_leap_year y). }
    unfold unix_days in Hu. unfold year_10000 in Hs. Z.to_euclidean_division_equations. lia. }
  assert (∀ i, rtc_read s i tsc freq = read_register_with_tsc (mkRtc i (rtc_base_time s)) tsc freq) as Hr by done.
  unfold read_register_with_tsc in Hr. cbn [rtc_base_time rtc_index] in Hr. rewrite Hel in Hr. fold secs in Hr. rewrite Hd in Hr.
  cbn [mbind option_bind] in Hr. rewrite !Hr. clear Hr Hel. cbn [Z.eqb Pos.eqb fmap option_fmap option_map].
  assert (∀ x, 0 ≤ x < 100 → from_bcd (to_bcd (u8 x)) = x) as Hbcd.
  { intros x Hx. unfold u8. rewrite wrap_small by (split; [lia|change (2 ^ 8) with 256; lia]). by apply from_to_bcd. }
  unfold year_10000 in Hs.
  rewrite (from_to_bcd ((secs / 86400 + 4) mod 7 + 1)), (from_to_bcd d), (from_to_bcd m), !Hbcd
    by (Z.to_euclidean_division_equations; lia).
  do 8 eexists. do 8 (split; [reflexivity|]). replace (100 * (y / 100) + y mod 100) with y by (Z.to_euclidean_division_equations; lia).
  rewrite Hu. split_and!; try done; Z.to_euclidean_division_equations; lia.
Qed.

Lemma rtc_registers_tell_time_witness :
  from_bcd <$> rtc_read rtc_default 0x08 (90000 * 1000) 1000 = Some 1 ∧ from_bcd <$> rtc_read rtc_default 0x07 (90000 * 1000) 1000 = Some 2.
Proof.
  destruct (rtc_registers_tell_time rtc_default (90000 * 1000) 1000) as
    (sec & min & hour & wday & day & month & year & century & _ & _ & _ & _ & Hday & Hmonth & _); [done..|].
  rewrite Hday, Hmonth. split; [rewrite <-Hmonth|rewrite <-Hday]; vm_compute; reflexivity.
Defined.
