(* ===== verification/Apic.v ===== *)
(** * The local APIC and the I/O APIC (crate [bedrock-vmx]: [devices/apic.rs],
    [devices/ioapic.rs], and the register emulation of [exits/apic.rs] and
    [exits/interrupts.rs])

    A struct of scalar registers is a function of the field's name.  The request
    and in-service registers are 256-bit sets kept in eight words; the theorems
    describe every operation as an operation on those sets: delivery picks the
    greatest pending vector and moves it to the in-service set, an end of
    interrupt removes the greatest vector in service, a timer or a pin adds one
    vector. *)
From S2P Require Import Prelude.

(** ** State *)
Inductive areg :=
| ABase | AId | AVersion | ATpr | ALdr | ADfr | ASvr | AEsr | AIcrLo | AIcrHi
| ALvtTimer | ALvtThermal | ALvtPerf | ALvtLint0 | ALvtLint1 | ALvtError
| ATimerInitial | ATimerDivide | ATimerDeadline.
#[export] Instance areg_eq_dec : EqDecision areg.
Proof. solve_decision. Defined.

Record ApicState := mkApic {
  areg_of : areg → Z;
  isr : list Z;
  tmr : list Z;
  irr : list Z;
}.
Implicit Types apic : ApicState.

Definition aset (r : areg) (v : Z) apic : ApicState :=
  mkApic (λ r', if decide (r' = r) then v else areg_of apic r') (isr apic) (tmr apic) (irr apic).
Definition set_isr (l : list Z) apic : ApicState := mkApic (areg_of apic) l (tmr apic) (irr apic).
Definition set_irr (l : list Z) apic : ApicState := mkApic (areg_of apic) (isr apic) (tmr apic) l.

Definition APIC_BASE_DEFAULT : Z := 0xFEE00900.

Definition apic_default : ApicState :=
  mkApic (λ r, match r with
    | ABase => APIC_BASE_DEFAULT | AVersion => 0x00050014 | ADfr => 0xFFFFFFFF | ASvr => 0xFF
    | ALvtTimer | ALvtThermal | ALvtPerf | ALvtLint0 | ALvtLint1 | ALvtError => 0x00010000
    | _ => 0
    end) (replicate 8 0) (replicate 8 0) (replicate 8 0).

Definition IOAPIC_NUM_PINS : nat := 24.
Record IoApicState := mkIoApic { ioregsel : Z; ioapic_id : Z; redtbl : list Z }.
Definition ioapic_default : IoApicState := mkIoApic 0 0 (replicate IOAPIC_NUM_PINS (Z.shiftl 1 16)).

(** ** Registers ([exits/apic.rs]) *)
Definition apic_timer_divisor (dcr : Z) : Z :=
  let encoded := Z.lor (Z.land (Z.shiftr dcr 1) 4) (Z.land dcr 3) in
  if encoded =? 0 then 2 else if encoded =? 1 then 4 else if encoded =? 2 then 8 else if encoded =? 3 then 16
  else if encoded =? 4 then 32 else if encoded =? 5 then 64 else if encoded =? 6 then 128 else 1.

(** [None] is an index out of bounds, which panics. *)
Definition read_apic_register apic (offset : Z) : option Z :=
  if offset =? 0x020 then Some (u32 (Z.shiftl (areg_of apic AId) 24))
  else if offset =? 0x030 then Some (areg_of apic AVersion)
  else if offset =? 0x080 then Some (areg_of apic ATpr)
  else if offset =? 0x090 then Some 0
  else if offset =? 0x0A0 then Some (Z.land (areg_of apic ATpr) 0xF0)
  else if offset =? 0x0B0 then Some 0
  else if offset =? 0x0C0 then Some 0
  else if offset =? 0x0D0 then Some (areg_of apic ALdr)
  else if offset =? 0x0E0 then Some (areg_of apic ADfr)
  else if offset =? 0x0F0 then Some (areg_of apic ASvr)
  else if (0x100 <=? offset) && (offset <=? 0x170) then isr apic !! Z.to_nat (Z.shiftr (offset - 0x100) 4)
  else if (0x180 <=? offset) && (offset <=? 0x1F0) then tmr apic !! Z.to_nat (Z.shiftr (offset - 0x180) 4)
  else if (0x200 <=? offset) && (offset <=? 0x270) then irr apic !! Z.to_nat (Z.shiftr (offset - 0x200) 4)
  else if offset =? 0x280 then Some (areg_of apic AEsr)
  else if offset =? 0x300 then Some (areg_of apic AIcrLo)
  else if offset =? 0x310 then Some (areg_of apic AIcrHi)
  else if offset =? 0x320 then Some (areg_of apic ALvtTimer)
  else if offset =? 0x330 then Some (areg_of apic ALvtThermal)
  else if offset =? 0x340 then Some (areg_of apic ALvtPerf)
  else if offset =? 0x350 then Some (areg_of apic ALvtLint0)
  else if offset =? 0x360 then Some (areg_of apic ALvtLint1)
  else if offset =? 0x370 then Some (areg_of apic ALvtError)
  else if offset =? 0x380 then Some (areg_of apic ATimerInitial)
  else if offset =? 0x390 then Some 0
  else if offset =? 0x3E0 then Some (areg_of apic ATimerDivide)
  else Some 0.

(** [u32::leading_zeros] *)
Definition leading_zeros32 (x : Z) : Z := if x =? 0 then 32 else 31 - Z.log2 x.

(** [for i in (0..8).rev()]: the first word that is not zero. *)
Fixpoint last_word (n : nat) (words : list Z) : option (nat * Z) :=
  match n with
  | O => None
  | S i => match words !! i with
           | Some w => if w =? 0 then last_word i words else Some (i, w)
           | None => None
           end
  end.

(** [words[i] &= !(1 << bit)] and [words[i] |= 1 << bit], on [u32]. *)
Definition clear_bit (i : nat) (bit : Z) (words : list Z) : list Z := alter (λ w, Z.ldiff w (Z.shiftl 1 bit)) i words.
Definition set_bit (i : nat) (bit : Z) (words : list Z) : list Z := alter (λ w, Z.lor w (Z.shiftl 1 bit)) i words.

Definition apic_eoi apic : ApicState :=
  match last_word 8 (isr apic) with
  | Some (i, w) => let bit := 31 - leading_zeros32 w in set_isr (clear_bit i bit (isr apic)) apic
  | None => apic
  end.

(** [current_tsc + ticks] is a plain [u64] addition, which wraps when overflow
    checks are off. *)
Definition write_apic_register apic (offset value current_tsc : Z) : ApicState :=
  if offset =? 0x020 then aset AId (Z.land (Z.shiftr value 24) 0xFF) apic
  else if offset =? 0x080 then aset ATpr (Z.land value 0xFF) apic
  else if offset =? 0x0B0 then apic_eoi apic
  else if offset =? 0x0D0 then aset ALdr value apic
  else if offset =? 0x0E0 then aset ADfr (Z.lor value 0x0FFFFFFF) apic
  else if offset =? 0x0F0 then aset ASvr value apic
  else if offset =? 0x280 then aset AEsr 0 apic
  else if offset =? 0x300 then aset AIcrLo value apic
  else if offset =? 0x310 then aset AIcrHi value apic
  else if offset =? 0x320 then aset ALvtTimer value apic
  else if offset =? 0x330 then aset ALvtThermal value apic
  else if offset =? 0x340 then aset ALvtPerf value apic
  else if offset =? 0x350 then aset ALvtLint0 value apic
  else if offset =? 0x360 then aset ALvtLint1 value apic
  else if offset =? 0x370 then aset ALvtError value apic
  else if offset =? 0x380 then
    let apic := aset ATimerInitial value apic in
    if negb (value =? 0) then
      let divisor := apic_timer_divisor (areg_of apic ATimerDivide) in
      let ticks := value * divisor in
      aset ATimerDeadline (u64 (current_tsc + ticks)) apic
    else aset ATimerDeadline 0 apic
  else if offset =? 0x3E0 then aset ATimerDivide value apic
  else apic.

(** ** Interrupts ([exits/interrupts.rs]) *)
Definition apic_enabled apic : bool := has (areg_of apic ASvr) (Z.shiftl 1 8).

Definition raise (vector : Z) apic : ApicState :=
  set_irr (set_bit (Z.to_nat (vector / 32)) (vector mod 32) (irr apic)) apic.

(** [check_apic_timer], its part on the APIC: the vector it raised, if any. *)
Definition apic_timer_check (current_tsc : Z) apic : option Z * ApicState :=
  let timer_deadline := areg_of apic ATimerDeadline in
  if timer_deadline =? 0 then (None, apic)
  else if current_tsc <? timer_deadline then (None, apic)
  else if negb (apic_enabled apic) then (None, apic)
  else if has (areg_of apic ALvtTimer) (Z.shiftl 1 16) then (None, apic)
  else
    let vector := Z.land (areg_of apic ALvtTimer) 0xFF in
    let apic := raise vector apic in
    let apic :=
      if has (areg_of apic ALvtTimer) (Z.shiftl 1 17) then
        let divisor := apic_timer_divisor (areg_of apic ATimerDivide) in
        let ticks := areg_of apic ATimerInitial * divisor in
        aset ATimerDeadline (current_tsc +! ticks) apic
      else aset ATimerDeadline 0 apic in
    (Some vector, apic).

Definition apic_pending_vector apic : option Z :=
  if negb (apic_enabled apic) then None
  else match last_word 8 (irr apic) with
       | Some (i, w) => let bit := 31 - leading_zeros32 w in Some (u8 (Z.of_nat i * 32 + bit))
       | None => None
       end.

(** The last step of [inject_pending_interrupt]. *)
Definition apic_accept (vector : Z) apic : ApicState :=
  let irr_index := Z.to_nat (vector / 32) in
  let bit := vector mod 32 in
  set_isr (set_bit irr_index bit (isr apic)) (set_irr (clear_bit irr_index bit (irr apic)) apic).

(** [ioapic_deliver_irq] *)
Definition ioapic_deliver_irq (irq : Z) (ioapic : IoApicState) apic : option ApicState :=
  if Z.of_nat IOAPIC_NUM_PINS <=? irq then Some apic
  else
    entry ← redtbl ioapic !! Z.to_nat irq;
    Some (if negb (Z.land (Z.shiftr entry 16) 1 =? 0) then apic
          else
            let vector := Z.land entry 0xFF in
            if vector <? 16 then apic
            else if vector / 32 <? 8 then raise vector apic else apic).

(** ** The I/O APIC's window *)
Definition read_ioapic_register (s : IoApicState) : option Z :=
  let reg := ioregsel s in
  if reg =? 0x00 then Some (ioapic_id s)
  else if reg =? 0x01 then Some 0x00170020
  else if reg =? 0x02 then Some (ioapic_id s)
  else if (0x10 <=? reg) && (reg <? 0x10 + 48) then
    let entry_idx := Z.to_nat ((reg - 0x10) / 2) in
    let is_high := (reg - 0x10) mod 2 =? 1 in
    if (entry_idx <? IOAPIC_NUM_PINS)%nat then
      entry ← redtbl s !! entry_idx;
      Some (if is_high then u32 (Z.shiftr entry 32) else u32 entry)
    else Some 0
  else Some 0.

Definition write_ioapic_register (value : Z) (s : IoApicState) : IoApicState :=
  let reg := ioregsel s in
  if reg =? 0x00 then mkIoApic (ioregsel s) (Z.land value 0x0F000000) (redtbl s)
  else if (reg =? 0x01) || (reg =? 0x02) then s
  else if (0x10 <=? reg) && (reg <? 0x10 + 48) then
    let entry_idx := Z.to_nat ((reg - 0x10) / 2) in
    let is_high := (reg - 0x10) mod 2 =? 1 in
    if (entry_idx <? IOAPIC_NUM_PINS)%nat then
      mkIoApic (ioregsel s) (ioapic_id s)
        (alter (λ entry, if is_high
                         then Z.lor (Z.land entry 0x00000000FFFFFFFF) (u64 (Z.shiftl value 32))
                         else Z.lor (Z.land entry 0xFFFFFFFF00000000) value) entry_idx (redtbl s))
    else s
  else s.

Definition ioapic_select (value : Z) (s : IoApicState) : IoApicState := mkIoApic value (ioapic_id s) (redtbl s).

(** ** Sets of vectors *)
Definition vec (words : list Z) (v : Z) : bool :=
  match words !! Z.to_nat (v / 32) with Some w => Z.testbit w (v mod 32) | None => false end.
Definition vector (v : Z) : Prop := 0 ≤ v < 256.

Record words_ok (words : list Z) : Prop := {
  wk_length : length words = 8%nat;
  wk_width : Forall (in_width 32) words;
}.

Lemma words_zero : words_ok (replicate 8 0).
Proof. constructor; [done|]. repeat constructor; done. Qed.

Lemma word_split v : vector v → (Z.to_nat (v / 32) < 8)%nat ∧ 0 ≤ v mod 32 < 32 ∧ v = 32 * (v / 32) + v mod 32.
Proof. unfold vector. intros. Z.to_euclidean_division_equations. lia. Qed.

Lemma word_lookup words v : words_ok words → vector v → ∃ w, words !! Z.to_nat (v / 32) = Some w ∧ in_width 32 w.
Proof.
  intros [Hl Hw] Hv. destruct (word_split v Hv) as (H & _). rewrite <-Hl in H.
  apply lookup_lt_is_Some_2 in H as [w Hw']. exists w. split; [done|]. by eapply Forall_lookup_1.
Qed.

Lemma vector_eq u v : vector u → vector v → Z.to_nat (u / 32) = Z.to_nat (v / 32) → u mod 32 = v mod 32 → u = v.
Proof. unfold vector. intros. Z.to_euclidean_division_equations. lia. Qed.

Lemma testbit_one i j : 0 ≤ i → 0 ≤ j → Z.testbit (Z.shiftl 1 i) j = (j =? i).
Proof.
  intros. rewrite Z.shiftl_1_l, Z.pow2_bits_eqb by done. apply Z.eqb_sym.
Qed.

(** Changing one word by a bitwise operation with one bit. *)
Lemma vec_alter (f : Z → Z) g words v u :
  words_ok words → vector v → vector u →
  (∀ w j, in_width 32 w → 0 ≤ j < 32 → Z.testbit (f w) j = g (Z.testbit w j) (j =? v mod 32)) →
  (∀ b, g b false = b) →
  vec (alter f (Z.to_nat (v / 32)) words) u = if u =? v then g (vec words u) true else vec words u.
Proof.
  intros Hok Hv Hu Hf Hg. unfold vec. destruct (word_lookup words u Hok Hu) as (w & Hw & Hww).
  destruct (word_split u Hu) as (_ & Hj & _).
  destruct (decide (Z.to_nat (u / 32) = Z.to_nat (v / 32))) as [He|Hne].
  - rewrite <-He, list_lookup_alter_eq, Hw. cbn. rewrite Hf by done.
    destruct (Z.eqb_spec u v) as [->|Hn]; [by rewrite Z.eqb_refl|].
    destruct (Z.eqb_spec (u mod 32) (v mod 32)) as [Hm|]; [|apply Hg]. exfalso. by apply Hn, vector_eq.
  - rewrite list_lookup_alter_ne by done. rewrite Hw. destruct (Z.eqb_spec u v) as [->|]; done.
Qed.

Lemma vec_set words v u :
  words_ok words → vector v → vector u →
  vec (set_bit (Z.to_nat (v / 32)) (v mod 32) words) u = (u =? v) || vec words u.
Proof.
  intros Hok Hv Hu. unfold set_bit. destruct (word_split v Hv) as (_ & Hj & _). rewrite (vec_alter _ orb); [|done..| |].
  - destruct (u =? v); [apply orb_true_r|done].
  - intros w j _ Hjj. rewrite Z.lor_spec, testbit_one by lia. done.
  - apply orb_false_r.
Qed.

Lemma vec_clear words v u :
  words_ok words → vector v → vector u →
  vec (clear_bit (Z.to_nat (v / 32)) (v mod 32) words) u = negb (u =? v) && vec words u.
Proof.
  intros Hok Hv Hu. unfold clear_bit. destruct (word_split v Hv) as (_ & Hj & _). rewrite (vec_alter _ (λ a b, a && negb b)); [|done..| |].
  - destruct (u =? v); [apply andb_false_r|done].
  - intros w j _ Hjj. rewrite Z.ldiff_spec, testbit_one by lia. done.
  - intros b. apply andb_true_r.
Qed.

Lemma in_width_one i : 0 ≤ i < 32 → in_width 32 (Z.shiftl 1 i).
Proof.
  intros Hi. rewrite Z.shiftl_1_l. split; [apply Z.pow_nonneg; lia|]. apply Z.pow_lt_mono_r; lia.
Qed.

Lemma in_width_ldiff w a b : 0 ≤ w → in_width w a → in_width w (Z.ldiff a b).
Proof.
  intros Hw Ha. apply in_width_bits; [done|apply Z.ldiff_nonneg; left; apply Ha|].
  intros i Hi. rewrite Z.ldiff_spec, (testbit_above w a) by (done || lia). done.
Qed.

Lemma words_alter f i words :
  words_ok words → (∀ w, in_width 32 w → in_width 32 (f w)) → words_ok (alter f i words).
Proof.
  intros [Hl Hw] Hf. constructor; [by rewrite length_alter|]. apply Forall_lookup_2. intros j w.
  destruct (decide (j = i)) as [->|]; [|rewrite list_lookup_alter_ne by done; by eapply Forall_lookup_1].
  rewrite list_lookup_alter_eq. destruct (words !! i) eqn:He; [|done]. intros [= <-]. apply Hf. by eapply Forall_lookup_1.
Qed.

Lemma words_set words i bit : words_ok words → 0 ≤ bit < 32 → words_ok (set_bit i bit words).
Proof. intros Hok Hb. apply words_alter; [done|]. intros w Hw. apply in_width_lor; [lia|done|by apply in_width_one]. Qed.

Lemma words_clear words i bit : words_ok words → words_ok (clear_bit i bit words).
Proof. intros Hok. apply words_alter; [done|]. intros w Hw. apply in_width_ldiff; [lia|done]. Qed.

(** The scan finds the greatest element. *)
Lemma last_word_spec n words :
  match last_word n words with
  | Some (i, w) => (i < n)%nat ∧ words !! i = Some w ∧ w ≠ 0 ∧ ∀ j x, (i < j < n)%nat → words !! j = Some x → x = 0
  | None => (∀ i, (i < n)%nat → is_Some (words !! i)) → ∀ j x, (j < n)%nat → words !! j = Some x → x = 0
  end.
Proof.
  induction n as [|n IH]; simpl; [lia|]. destruct (words !! n) as [w|] eqn:Hw.
  - destruct (Z.eqb_spec w 0) as [->|Hne].
    + destruct (last_word n words) as [[i x]|].
      * destruct IH as (Hi & Hx & Hnz & Hj). split; [lia|]. split; [done|]. split; [done|]. intros j y Hjn Hy.
        destruct (decide (j = n)) as [->|]; [congruence|]. apply (Hj j); [lia|done].
      * intros Hs j x Hj Hx. destruct (decide (j = n)) as [->|]; [congruence|]. apply (IH ltac:(intros; apply Hs; lia) j); [lia|done].
    + split; [lia|]. split; [done|]. split; [done|]. intros j x Hj. lia.
  - intros Hs. destruct (Hs n ltac:(lia)) as [? ?]. congruence.
Qed.

(** The greatest vector of a set, as both scans compute it. *)
Definition greatest (words : list Z) : option Z :=
  match last_word 8 words with Some (i, w) => Some (Z.of_nat i * 32 + (31 - leading_zeros32 w)) | None => None end.

Lemma greatest_spec words :
  words_ok words →
  match greatest words with
  | Some v => vector v ∧ vec words v = true ∧ ∀ u, vector u → vec words u = true → u ≤ v
  | None => ∀ u, vector u → vec words u = false
  end.
Proof.
  intros Hok. unfold greatest. pose proof (last_word_spec 8 words) as Hs. pose proof Hok as [Hl Hw].
  destruct (last_word 8 words) as [[i w]|].
  - destruct Hs as (Hi & Hwi & Hnz & Hgt). pose proof (Forall_lookup_1 _ _ _ _ Hw Hwi) as Hww.
    unfold leading_zeros32. destruct (Z.eqb_spec w 0) as [|_]; [done|].
    assert (0 < w) as Hpos by (destruct Hww; lia).
    assert (0 ≤ Z.log2 w < 32) as Hlog by (split; [apply Z.log2_nonneg|apply Z.log2_lt_pow2; [done|apply Hww]]).
    replace (Z.of_nat i * 32 + (31 - (31 - Z.log2 w))) with (Z.of_nat i * 32 + Z.log2 w) by lia.
    set (v := Z.of_nat i * 32 + Z.log2 w).
    assert (Z.to_nat (v / 32) = i ∧ v mod 32 = Z.log2 w) as [Hd Hm] by (unfold v; Z.to_euclidean_division_equations; lia).
    split; [unfold vector, v; lia|]. split.
    + unfold vec. rewrite Hd, Hm, Hwi. by apply Z.bit_log2.
    + intros u Hu Hvu. destruct (word_split u Hu) as (H8 & Hj & Hue). unfold vec in Hvu.
      destruct (words !! Z.to_nat (u / 32)) as [x|] eqn:Hx; [|done].
      destruct (decide (i < Z.to_nat (u / 32))%nat) as [Hlt|Hge].
      { rewrite (Hgt (Z.to_nat (u / 32)) x (conj Hlt H8) Hx), Z.testbit_0_l in Hvu. done. }
      destruct (decide (Z.to_nat (u / 32) = i)) as [He|Hne]; [|unfold v; lia].
      assert (x = w) as -> by congruence. unfold v.
      destruct (Z.le_gt_cases (u mod 32) (Z.log2 w)); [lia|]. by rewrite Z.bits_above_log2 in Hvu by lia.
  - intros u Hu. destruct (word_split u Hu) as (H8 & _). unfold vec. destruct (words !! Z.to_nat (u / 32)) as [x|] eqn:Hx; [|done].
    rewrite (Hs ltac:(intros j Hj; apply lookup_lt_is_Some_2; by rewrite Hl) _ x H8 Hx). apply Z.testbit_0_l.
Qed.

(** ** Invariant *)
Definition reg_width (r : areg) : Z :=
  match r with ABase | ATimerDeadline => 64 | AId => 8 | _ => 32 end.

Record apic_ok apic : Prop := {
  ak_isr : words_ok (isr apic);
  ak_tmr : words_ok (tmr apic);
  ak_irr : words_ok (irr apic);
  ak_regs r : in_width (reg_width r) (areg_of apic r);
}.

Lemma apic_default_ok : apic_ok apic_default.
Proof. constructor; [apply words_zero..|]. intros []; split; vm_compute; congruence. Qed.

Lemma aset_ok r v apic : apic_ok apic → in_width (reg_width r) v → apic_ok (aset r v apic).
Proof. intros [? ? ? Hr] Hv. constructor; [done..|]. intros r'. cbn. case_decide; [by subst|apply Hr]. Qed.

Lemma raise_ok v apic : apic_ok apic → vector v → apic_ok (raise v apic).
Proof. intros [? ? ? ?] Hv. destruct (word_split v Hv) as (_ & ? & _). constructor; cbn; [done|done|by apply words_set|done]. Qed.

Lemma accept_ok v apic : apic_ok apic → vector v → apic_ok (apic_accept v apic).
Proof.
  intros [? ? ? ?] Hv. destruct (word_split v Hv) as (_ & ? & _).
  constructor; cbn; [by apply words_set|done|by apply words_clear|done].
Qed.

(** ** Delivery *)
Lemma greatest_u8 words v : words_ok words → greatest words = Some v → u8 v = v.
Proof.
  intros Hok Hg. pose proof (greatest_spec words Hok) as Hs. rewrite Hg in Hs. destruct Hs as (Hv & _).
  apply wrap_small. exact Hv.
Qed.

Lemma apic_pending_vector_greatest apic :
  apic_ok apic → apic_pending_vector apic = if apic_enabled apic then greatest (irr apic) else None.
Proof.
  intros Hok. unfold apic_pending_vector. destruct (apic_enabled apic); [|done]. cbn [negb].
  destruct (greatest (irr apic)) as [v|] eqn:Hg.
  - rewrite <-(greatest_u8 (irr apic) v); [|apply Hok|done]. unfold greatest in Hg.
    destruct (last_word 8 (irr apic)) as [[i w]|]; [|done]. by injection Hg as <-.
  - unfold greatest in Hg. by destruct (last_word 8 (irr apic)) as [[i w]|].
Qed.

(** The vector the APIC offers for injection is the greatest requested one,
    and there is one exactly when the APIC is enabled and some vector is requested.
    Accepting it moves exactly that vector from the request set to the in-service
    set: no other vector of either set changes, and no other register. *)
Theorem apic_delivery_correct apic (Hok : apic_ok apic) :
  match apic_pending_vector apic with
  | Some v =>
      vector v ∧ apic_enabled apic = true ∧ vec (irr apic) v = true ∧
      (∀ u, vector u → vec (irr apic) u = true → u ≤ v) ∧
      apic_ok (apic_accept v apic) ∧
      areg_of (apic_accept v apic) = areg_of apic ∧
      (∀ u, vector u →
        vec (irr (apic_accept v apic)) u = negb (u =? v) && vec (irr apic) u ∧
        vec (isr (apic_accept v apic)) u = (u =? v) || vec (isr apic) u)
  | None => apic_enabled apic = false ∨ ∀ u, vector u → vec (irr apic) u = false
  end.
Proof.
  rewrite apic_pending_vector_greatest by done. destruct (apic_enabled apic); [|by left].
  pose proof (greatest_spec (irr apic) (ak_irr _ Hok)) as Hs. destruct (greatest (irr apic)) as [v|]; [|by right].
  destruct Hs as (Hv & Hin & Hmax). split; [done|]. split; [done|]. split; [done|]. split; [done|].
  split; [by apply accept_ok|]. split; [done|]. intros u Hu. cbn.
  split; [apply vec_clear|apply vec_set]; (apply Hok || done).
Qed.

(** ** End of interrupt *)
Lemma apic_eoi_greatest apic :
  apic_ok apic →
  apic_eoi apic = match greatest (isr apic) with
                  | Some v => set_isr (clear_bit (Z.to_nat (v / 32)) (v mod 32) (isr apic)) apic
                  | None => apic
                  end.
Proof.
  intros Hok. unfold apic_eoi, greatest. pose proof (last_word_spec 8 (isr apic)) as Hs.
  destruct (last_word 8 (isr apic)) as [[i w]|]; [|done]. destruct Hs as (Hi & Hw & Hnz & _).
  pose proof (Forall_lookup_1 _ _ _ _ (wk_width _ (ak_isr _ Hok)) Hw) as Hww.
  unfold leading_zeros32. destruct (Z.eqb_spec w 0); [done|].
  assert (0 ≤ Z.log2 w < 32) by (split; [apply Z.log2_nonneg|apply Z.log2_lt_pow2; [destruct Hww; lia|apply Hww]]).
  set (b := 31 - (31 - Z.log2 w)). assert (0 ≤ b < 32) by (unfold b; lia).
  replace (Z.to_nat ((Z.of_nat i * 32 + b) / 32)) with i by (Z.to_euclidean_division_equations; lia).
  replace ((Z.of_nat i * 32 + b) mod 32) with b by (Z.to_euclidean_division_equations; lia). done.
Qed.

Lemma eoi_ok apic : apic_ok apic → apic_ok (apic_eoi apic).
Proof.
  intros Hok. rewrite apic_eoi_greatest by done. destruct (greatest (isr apic)); [|done].
  destruct Hok as [? ? ? ?]. constructor; cbn; [by apply words_clear|done..].
Qed.

(** A write to the end-of-interrupt register retires the greatest vector in
    service and nothing else.  So when a vector above everything in service is
    accepted and then retired, the in-service set is what it was. *)
Theorem apic_eoi_correct apic value tsc (Hok : apic_ok apic) :
  let eoi a := write_apic_register a 0x0B0 value tsc in
  apic_ok (eoi apic) ∧ areg_of (eoi apic) = areg_of apic ∧ irr (eoi apic) = irr apic ∧ tmr (eoi apic) = tmr apic ∧
  ((eoi apic = apic ∧ ∀ u, vector u → vec (isr apic) u = false) ∨
   (∃ v, vector v ∧ vec (isr apic) v = true ∧ (∀ u, vector u → vec (isr apic) u = true → u ≤ v) ∧
      ∀ u, vector u → vec (isr (eoi apic)) u = negb (u =? v) && vec (isr apic) u)) ∧
  (∀ v, vector v → (∀ u, vector u → vec (isr apic) u = true → u < v) →
    ∀ u, vector u → vec (isr (eoi (apic_accept v apic))) u = vec (isr apic) u).
Proof.
  assert (∀ a, apic_ok a →
    (apic_eoi a = a ∧ ∀ u, vector u → vec (isr a) u = false) ∨
    (∃ v, vector v ∧ vec (isr a) v = true ∧ (∀ u, vector u → vec (isr a) u = true → u ≤ v) ∧
      ∀ u, vector u → vec (isr (apic_eoi a)) u = negb (u =? v) && vec (isr a) u)) as Heoi.
  { intros a Ha. rewrite apic_eoi_greatest by done. pose proof (greatest_spec _ (ak_isr _ Ha)) as Hs.
    destruct (greatest (isr a)) as [v|]; [right|by left]. destruct Hs as (Hv & ? & ?). exists v. split; [done|].
    split; [done|]. split; [done|]. intros u Hu. cbn. apply vec_clear; [apply Ha|done..]. }
  change (write_apic_register ?a 0x0B0 ?x ?t) with (apic_eoi a). cbv zeta. split; [by apply eoi_ok|].
  assert (areg_of (apic_eoi apic) = areg_of apic ∧ irr (apic_eoi apic) = irr apic ∧ tmr (apic_eoi apic) = tmr apic)
    as (-> & -> & ->).
  { unfold apic_eoi. destruct (last_word 8 (isr apic)) as [[i w]|]; done. }
  split; [done|]. split; [done|]. split; [done|]. split; [by apply Heoi|].
  intros v Hv Hlt u Hu.
  assert (∀ x, vector x → vec (isr (apic_accept v apic)) x = (x =? v) || vec (isr apic) x) as Hacc
    by (intros; apply vec_set; [apply Hok|done..]).
  destruct (Heoi _ (accept_ok _ _ Hok Hv)) as [[_ Hnone]|(m & Hm & Hin & Hmax & Hret)].
  { specialize (Hnone v Hv). by rewrite Hacc, Z.eqb_refl in Hnone. }
  assert (m = v) as ->.
  { pose proof (Hmax v Hv ltac:(by rewrite Hacc, Z.eqb_refl)) as Hle. rewrite Hacc in Hin by done.
    apply orb_true_iff in Hin as [->%Z.eqb_eq|Hin]; [done|]. specialize (Hlt m Hm Hin). lia. }
  rewrite Hret, Hacc by done. destruct (Z.eqb_spec u v) as [->|]; [|done]. simpl.
  destruct (vec (isr apic) v) eqn:Hb; [|done]. specialize (Hlt v Hv Hb). lia.
Qed.

(** ** The timer *)
Lemma apic_timer_divisor_pow2 dcr : ∃ k, 0 ≤ k ≤ 7 ∧ apic_timer_divisor dcr = 2 ^ k.
Proof.
  unfold apic_timer_divisor. set (e := Z.lor _ _).
  repeat match goal with |- context [if ?b then _ else _] => destruct b end;
    [exists 1|exists 2|exists 3|exists 4|exists 5|exists 6|exists 7|exists 0]; (split; [lia|done]).
Qed.

Lemma apic_timer_divisor_range dcr : 1 ≤ apic_timer_divisor dcr ≤ 128.
Proof.
  destruct (apic_timer_divisor_pow2 dcr) as (k & Hk & ->). change 1 with (2 ^ 0). change 128 with (2 ^ 7).
  split; apply Z.pow_le_mono_r; lia.
Qed.

Lemma low_byte_vector x : vector (Z.land x 0xFF).
Proof. pose proof (in_width_land_r 8 x 0xFF ltac:(lia) ltac:(split; vm_compute; congruence)) as H. exact H. Qed.

(** The timer interrupts now: it runs, its deadline has come, the APIC is enabled
    and the vector is not masked. *)
Definition timer_due (tsc : Z) apic : bool :=
  negb (areg_of apic ATimerDeadline =? 0) && (areg_of apic ATimerDeadline <=? tsc) && apic_enabled apic
  && negb (has (areg_of apic ALvtTimer) (Z.shiftl 1 16)).

Definition timer_period apic : Z := areg_of apic ATimerInitial * apic_timer_divisor (areg_of apic ATimerDivide).
Definition timer_periodic apic : bool := has (areg_of apic ALvtTimer) (Z.shiftl 1 17).

Lemma apic_timer_check_due tsc apic :
  apic_timer_check tsc apic =
    if timer_due tsc apic
    then let v := Z.land (areg_of apic ALvtTimer) 0xFF in
         (Some v, aset ATimerDeadline (if timer_periodic apic then u64 (tsc + timer_period apic) else 0) (raise v apic))
    else (None, apic).
Proof.
  unfold apic_timer_check, timer_due. destruct (areg_of apic ATimerDeadline =? 0); [done|].
  rewrite Z.ltb_antisym. destruct (areg_of apic ATimerDeadline <=? tsc); [|done].
  destruct (apic_enabled apic); [|done]. destruct (has (areg_of apic ALvtTimer) (Z.shiftl 1 16)); [done|].
  cbn [negb andb]. f_equal. cbn. fold (timer_periodic apic). by destruct (timer_periodic apic).
Qed.

(** The timer check raises the vector of the timer's entry exactly when the
    timer runs, its deadline has come, the APIC is enabled and the entry is not
    masked; then it stops a one-shot timer and moves a periodic one's deadline one
    period after now.  It touches nothing else, and checking again at the same
    time raises nothing more as long as the period is not zero and the clock is
    not within a period of overflow. *)
Theorem apic_timer_check_correct tsc apic (Hok : apic_ok apic) (Htsc : in_width 64 tsc) :
  let v := Z.land (areg_of apic ALvtTimer) 0xFF in
  let fired := (apic_timer_check tsc apic).1 in
  let apic' := (apic_timer_check tsc apic).2 in
  fired = (if timer_due tsc apic then Some v else None) ∧
  apic_ok apic' ∧ isr apic' = isr apic ∧ tmr apic' = tmr apic ∧
  (∀ u, vector u → vec (irr apic') u = (timer_due tsc apic && (u =? v)) || vec (irr apic) u) ∧
  (∀ r, r ≠ ATimerDeadline → areg_of apic' r = areg_of apic r) ∧
  areg_of apic' ATimerDeadline =
    (if timer_due tsc apic then if timer_periodic apic then u64 (tsc + timer_period apic) else 0
     else areg_of apic ATimerDeadline) ∧
  (timer_due tsc apic = true → areg_of apic ATimerInitial ≠ 0 → tsc + timer_period apic < 2 ^ 64 →
   apic_timer_check tsc apic' = (None, apic')).
Proof.
  cbv zeta. pose proof (low_byte_vector (areg_of apic ALvtTimer)) as Hv. rewrite apic_timer_check_due.
  destruct (timer_due tsc apic) eqn:Hdue; cbn [fst snd].
  - set (v := Z.land _ _) in *. set (d := if timer_periodic apic then _ else _).
    assert (in_width 64 d) by (unfold d; destruct (timer_periodic apic); [apply in_width_u64|split; lia]).
    split; [done|]. split; [by apply aset_ok; [apply raise_ok|]|]. split; [done|]. split; [done|].
    split; [intros; by apply vec_set; [apply Hok|..]|]. split; [intros r Hr; cbn; by case_decide|]. split; [done|].
    intros _ Hini Hov. rewrite apic_timer_check_due.
    enough (timer_due tsc (aset ATimerDeadline d (raise v apic)) = false) as -> by done. unfold timer_due.
    change (areg_of (aset ATimerDeadline d _) ATimerDeadline) with d.
    destruct (Z.eqb_spec d 0) as [|Hd]; [done|]. destruct (Z.leb_spec d tsc) as [Hle|]; [exfalso|done].
    unfold d in *. destruct (timer_periodic apic); [|done].
    pose proof (ak_regs _ Hok ATimerInitial) as [? _]. pose proof (apic_timer_divisor_range (areg_of apic ATimerDivide)).
    assert (0 < timer_period apic) by (unfold timer_period; nia).
    unfold u64 in Hle. rewrite wrap_small in Hle by (destruct Htsc; split; lia). lia.
  - do 7 (split; [done|]). done.
Qed.

(** ** The register file *)
Definition shown_at (offset : Z) : option areg :=
  if offset =? 0x020 then Some AId else if offset =? 0x030 then Some AVersion
  else if (offset =? 0x080) || (offset =? 0x0A0) then Some ATpr else if offset =? 0x0D0 then Some ALdr
  else if offset =? 0x0E0 then Some ADfr else if offset =? 0x0F0 then Some ASvr else if offset =? 0x280 then Some AEsr
  else if offset =? 0x300 then Some AIcrLo else if offset =? 0x310 then Some AIcrHi
  else if offset =? 0x320 then Some ALvtTimer else if offset =? 0x330 then Some ALvtThermal
  else if offset =? 0x340 then Some ALvtPerf else if offset =? 0x350 then Some ALvtLint0
  else if offset =? 0x360 then Some ALvtLint1 else if offset =? 0x370 then Some ALvtError
  else if offset =? 0x380 then Some ATimerInitial else if offset =? 0x3E0 then Some ATimerDivide else None.

(** What a register shows after [value] was written to it. *)
Definition readback (offset value old : Z) : Z :=
  if offset =? 0x020 then Z.land value 0xFF000000
  else if offset =? 0x080 then Z.land value 0xFF
  else if offset =? 0x0E0 then Z.lor value 0x0FFFFFFF
  else if offset =? 0x280 then 0
  else if existsb (Z.eqb offset)
            [0x0D0; 0x0F0; 0x300; 0x310; 0x320; 0x330; 0x340; 0x350; 0x360; 0x370; 0x380; 0x3E0]
  then value else old.

(** Walks down a chain of tests on an offset, closing the taken branch with [tac]. *)
Ltac offset_cases tac :=
  repeat match goal with
  | |- (if ?b then _ else _) = _ => let E := fresh "E" in destruct b eqn:E; [solve [tac E]|]
  end.

Lemma read_aset_ne r v apic o :
  shown_at o ≠ Some r → read_apic_register (aset r v apic) o = read_apic_register apic o.
Proof.
  intros Hr. unfold read_apic_register, aset. cbn [areg_of isr tmr irr].
  offset_cases ltac:(fun E => first
    [ reflexivity
    | apply Z.eqb_eq in E; subst o; case_decide as Hd; [subst r; exfalso; apply Hr; reflexivity|reflexivity] ]).
  reflexivity.
Qed.

Lemma read_set_isr l apic o :
  (o < 0x100 ∨ 0x170 < o) → read_apic_register (set_isr l apic) o = read_apic_register apic o.
Proof.
  intros Ho. unfold read_apic_register, set_isr. cbn [areg_of isr tmr irr].
  offset_cases ltac:(fun E => first [reflexivity | lia]). reflexivity.
Qed.

(** The offsets of the three arrays never run past their ends. *)
Lemma array_read words lo hi o :
  words_ok words → hi = lo + 0x70 → (lo <=? o) && (o <=? hi) = true →
  ∃ r, words !! Z.to_nat (Z.shiftr (o - lo) 4) = Some r ∧ in_width 32 r.
Proof.
  intros [Hl Hw] -> [Ho1%Z.leb_le Ho2%Z.leb_le]%andb_true_iff. rewrite Z.shiftr_div_pow2 by lia. change (2 ^ 4) with 16.
  destruct (lookup_lt_is_Some_2 words (Z.to_nat ((o - lo) / 16))) as [r Hr].
  { rewrite Hl. Z.to_euclidean_division_equations. lia. }
  exists r. split; [done|]. by eapply Forall_lookup_1.
Qed.

Lemma read_apic_register_total apic o :
  apic_ok apic → ∃ r, read_apic_register apic o = Some r ∧ in_width 32 r.
Proof.
  intros Hok. enough (match read_apic_register apic o with Some r => in_width 32 r | None => False end) as H.
  { destruct (read_apic_register apic o) as [r|]; [by exists r|done]. }
  pose proof (λ r, ak_regs _ Hok r) as Hr.
  assert (in_width 32 0) by (split; vm_compute; congruence).
  unfold read_apic_register.
  repeat match goal with
  | |- match (if ?b then _ else _) with _ => _ end => destruct b eqn:?
  end; try done; try (match goal with |- in_width 32 (areg_of apic ?r) => exact (Hr r) end).
  - apply in_width_u32.
  - apply in_width_land_l; [lia|exact (Hr ATpr)|lia].
  - edestruct (array_read (isr apic)) as (x & -> & ?); [apply Hok|..|done]; done.
  - edestruct (array_read (tmr apic)) as (x & -> & ?); [apply Hok|..|done]; done.
  - edestruct (array_read (irr apic)) as (x & -> & ?); [apply Hok|..|done]; done.
Qed.

Definition offset_of (r : areg) : Z :=
  match r with
  | AId => 0x020 | AVersion => 0x030 | ATpr => 0x080 | ALdr => 0x0D0 | ADfr => 0x0E0 | ASvr => 0x0F0 | AEsr => 0x280
  | AIcrLo => 0x300 | AIcrHi => 0x310 | ALvtTimer => 0x320 | ALvtThermal => 0x330 | ALvtPerf => 0x340
  | ALvtLint0 => 0x350 | ALvtLint1 => 0x360 | ALvtError => 0x370 | ATimerInitial => 0x380 | ATimerDivide => 0x3E0
  | ABase | ATimerDeadline => 0
  end.

Lemma shown_at_offset o r : shown_at o = Some r → (o = offset_of r ∨ (o = 0x0A0 ∧ r = ATpr)) ∧ r ≠ ATimerDeadline.
Proof.
  unfold shown_at. intros H.
  repeat match type of H with
  | (if ?b then _ else _) = _ =>
      let E := fresh "E" in destruct b eqn:E;
        [injection H as <-; rewrite ?orb_true_iff, !Z.eqb_eq in E; split; [cbn; tauto|done]|]
  end. done.
Qed.

Lemma read_aset_other r v apic o :
  o ≠ offset_of r → (r = ATpr → o ≠ 0x0A0) → read_apic_register (aset r v apic) o = read_apic_register apic o.
Proof.
  intros H1 H2. apply read_aset_ne. intros [[?|[? ?]] _]%shown_at_offset; [done|]. by apply H2.
Qed.

Lemma read_deadline v apic o : read_apic_register (aset ATimerDeadline v apic) o = read_apic_register apic o.
Proof. apply read_aset_ne. by intros [_ ?]%shown_at_offset. Qed.

Lemma id_readback value :
  in_width 32 value → u32 (Z.shiftl (Z.land (Z.shiftr value 24) 0xFF) 24) = Z.land value 0xFF000000.
Proof.
  intros Hv. change 0xFF with (Z.ones 8). rewrite Z.land_ones by lia. change 0xFF000000 with (Z.shiftl (Z.ones 8) 24).
  unfold u32, wrap. rewrite <-Z.land_ones by lia. apply Z.bits_inj'. intros i Hi.
  rewrite !Z.land_spec, Z.shiftl_spec by lia. rewrite (Z.shiftl_spec _ 24 i) by lia.
  destruct (Z.lt_ge_cases i 24); [by rewrite !(Z.testbit_neg_r _ (i - 24)) by lia; rewrite andb_false_r|].
  rewrite !Z.testbit_ones by lia. rewrite <-Z.land_ones, Z.land_spec, Z.testbit_ones, Z.shiftr_spec by lia.
  replace (i - 24 + 24) with i by lia. destruct (Z.lt_ge_cases i 32).
  - rewrite !(proj2 (Z.ltb_lt _ _)), !(proj2 (Z.leb_le _ _)) by lia. by destruct (Z.testbit value i).
  - rewrite (testbit_above 32 value i) by (done || lia). done.
Qed.

Section register_file.
Context (apic : ApicState) (Hok : apic_ok apic).

Lemma timer_write_ok value tsc :
  in_width 32 value → apic_ok (write_apic_register apic 0x380 value tsc).
Proof using Hok.
  intros Hv. unfold write_apic_register. cbn [Z.eqb Pos.eqb].
  assert (apic_ok (aset ATimerInitial value apic)) by by apply aset_ok.
  destruct (negb (value =? 0)); (apply aset_ok; [done|]); [apply in_width_u64|split; vm_compute; congruence].
Qed.

Lemma write_apic_register_ok o value tsc : in_width 32 value → apic_ok (write_apic_register apic o value tsc).
Proof using Hok.
  intros Hv. destruct (Z.eqb_spec o 0x380) as [->|Ho]; [by apply timer_write_ok|]. unfold write_apic_register.
  repeat match goal with
  | |- apic_ok (if ?b then _ else _) => let E := fresh "E" in destruct b eqn:E;
      [first [ by apply aset_ok | by apply eoi_ok | by apply Z.eqb_eq in E | idtac ] |]
  end; try done; (apply aset_ok; [done|]); cbn [reg_width].
  - apply in_width_land_r; [lia|split; vm_compute; congruence].
  - apply in_width_land_l; [lia|done|lia].
  - apply in_width_lor; [lia|done|split; vm_compute; congruence].
Qed.

Lemma read_write_same o value tsc old :
  in_width 32 value → read_apic_register apic o = Some old →
  read_apic_register (write_apic_register apic o value tsc) o = Some (readback o value old).
Proof using Hok.
  intros Hv Hold. unfold write_apic_register.
  destruct (o =? 0x020) eqn:E.
  { apply Z.eqb_eq in E. subst o. unfold read_apic_register, readback, aset. cbn [Z.eqb Pos.eqb areg_of].
    case_decide; [|done]. f_equal. by apply id_readback. }
  repeat match goal with
  | |- read_apic_register (if ?b then _ else _) _ = _ => let E := fresh "E" in destruct b eqn:E;
      [apply Z.eqb_eq in E; subst o;
       try match goal with |- read_apic_register (aset _ _ _) _ = _ => reflexivity end|]
  end.
  - unfold apic_eoi. destruct (last_word 8 (isr apic)) as [[i w]|]; done.
  - destruct (negb (value =? 0)); rewrite read_deadline; reflexivity.
  - rewrite Hold. unfold readback. cbn [existsb].
    repeat match goal with H : (o =? ?c) = false |- _ => rewrite H; clear H end. done.
Qed.

Lemma read_write_other o o' value tsc :
  o' ≠ o → (o = 0x080 → o' ≠ 0x0A0) → (o = 0x0B0 → o' < 0x100 ∨ 0x170 < o') →
  read_apic_register (write_apic_register apic o value tsc) o' = read_apic_register apic o'.
Proof using Hok.
  intros Hne Htpr Hisr. unfold write_apic_register.
  repeat match goal with
  | |- read_apic_register (if ?b then _ else _) _ = _ => let E := fresh "E" in destruct b eqn:E;
      [apply Z.eqb_eq in E; subst o;
       try match goal with |- read_apic_register (aset _ _ _) _ = _ => apply read_aset_other; [exact Hne|discriminate] end|]
  end; [| | |reflexivity].
  - apply read_aset_other; [done|]. intros _. by apply Htpr.
  - unfold apic_eoi. destruct (last_word 8 (isr apic)) as [[i w]|]; [|done]. apply read_set_isr. by apply Hisr.
  - destruct (negb (value =? 0)); rewrite read_deadline; by apply read_aset_other.
Qed.

End register_file.

(** The memory-mapped register file is total and behaves as registers.  Every
    offset reads a 32-bit value without running past an array; a write keeps the
    invariant; the offset written then reads as the value with the register's
    fixed bits, or as before where the register is read only; and every other
    offset reads as before, but for the processor priority behind the task
    priority and the in-service set behind the end of interrupt. *)
Theorem apic_register_file apic o value tsc (Hok : apic_ok apic) (Hv : in_width 32 value) :
  let apic' := write_apic_register apic o value tsc in
  apic_ok apic' ∧
  (∃ old, read_apic_register apic o = Some old ∧ in_width 32 old ∧
     read_apic_register apic' o = Some (readback o value old)) ∧
  (∀ o', o' ≠ o → (o = 0x080 → o' ≠ 0x0A0) → (o = 0x0B0 → o' < 0x100 ∨ 0x170 < o') →
     read_apic_register apic' o' = read_apic_register apic o').
Proof.
  cbv zeta. split; [by apply write_apic_register_ok|]. split.
  - destruct (read_apic_register_total apic o Hok) as (old & Hold & Hw). exists old. split; [done|]. split; [done|].
    by apply read_write_same.
  - intros. by apply read_write_other.
Qed.

(** ** The I/O APIC *)
Record ioapic_ok (s : IoApicState) : Prop := {
  ik_length : length (redtbl s) = IOAPIC_NUM_PINS;
  ik_width : Forall (in_width 64) (redtbl s);
}.

Lemma ioapic_default_ok : ioapic_ok ioapic_default.
Proof. constructor; [done|]. apply Forall_replicate. split; vm_compute; congruence. Qed.

(** A driver programs a pin: the low half of its entry, then the high half. *)
Definition low_reg (pin : Z) : Z := 0x10 + 2 * pin.
Definition high_reg (pin : Z) : Z := 0x11 + 2 * pin.
Definition program_pin (pin v : Z) (s : IoApicState) : IoApicState :=
  write_ioapic_register (v / 2 ^ 32) (ioapic_select (high_reg pin)
    (write_ioapic_register (u32 v) (ioapic_select (low_reg pin) s))).

Section pin.
Context (pin : Z) (Hpin : 0 ≤ pin < 24).

Lemma low_reg_index : Z.to_nat ((low_reg pin - 0x10) / 2) = Z.to_nat pin ∧ (low_reg pin - 0x10) mod 2 = 0.
Proof using Hpin. unfold low_reg. Z.to_euclidean_division_equations. lia. Qed.
Lemma high_reg_index : Z.to_nat ((high_reg pin - 0x10) / 2) = Z.to_nat pin ∧ (high_reg pin - 0x10) mod 2 = 1.
Proof using Hpin. unfold high_reg. Z.to_euclidean_division_equations. lia. Qed.

Lemma pin_index : (Z.to_nat pin <? IOAPIC_NUM_PINS)%nat = true.
Proof using Hpin. apply Nat.ltb_lt. unfold IOAPIC_NUM_PINS. lia. Qed.

Ltac pin_reg :=
  unfold read_ioapic_register, write_ioapic_register, ioapic_select, low_reg, high_reg in *; cbn [ioregsel redtbl ioapic_id];
  repeat (rewrite (proj2 (Z.eqb_neq _ _)) by lia);
  rewrite (proj2 (Z.leb_le _ _)), (proj2 (Z.ltb_lt _ _)) by lia; cbn [andb orb].

Lemma read_low s : read_ioapic_register (ioapic_select (low_reg pin) s) = u32 <$> redtbl s !! Z.to_nat pin.
Proof using Hpin.
  pose proof low_reg_index as [Hi Hm]. pose proof pin_index. pin_reg. rewrite Hi, ?Hm. case_match; [|done].
  by destruct (redtbl s !! Z.to_nat pin).
Qed.

Lemma read_high s :
  read_ioapic_register (ioapic_select (high_reg pin) s) = (λ e, u32 (Z.shiftr e 32)) <$> redtbl s !! Z.to_nat pin.
Proof using Hpin.
  pose proof high_reg_index as [Hi Hm]. pose proof pin_index. pin_reg. rewrite Hi, ?Hm. case_match; [|done].
  by destruct (redtbl s !! Z.to_nat pin).
Qed.

Lemma write_low value s :
  redtbl (write_ioapic_register value (ioapic_select (low_reg pin) s)) =
    alter (λ e, Z.lor (Z.land e 0xFFFFFFFF00000000) value) (Z.to_nat pin) (redtbl s).
Proof using Hpin. pose proof low_reg_index as [Hi Hm]. pose proof pin_index as H. pin_reg. by rewrite Hi, ?Hm, H. Qed.

Lemma write_high value s :
  redtbl (write_ioapic_register value (ioapic_select (high_reg pin) s)) =
    alter (λ e, Z.lor (Z.land e 0x00000000FFFFFFFF) (u64 (Z.shiftl value 32))) (Z.to_nat pin) (redtbl s).
Proof using Hpin. pose proof high_reg_index as [Hi Hm]. pose proof pin_index as H. pin_reg. by rewrite Hi, ?Hm, H. Qed.

End pin.

(** The two halves, written over any old entry, make the new one. *)
Lemma halves_make_entry e v :
  in_width 64 v →
  Z.lor (Z.land (Z.lor (Z.land e 0xFFFFFFFF00000000) (u32 v)) 0x00000000FFFFFFFF) (u64 (Z.shiftl (v / 2 ^ 32) 32)) = v.
Proof.
  intros Hv. rewrite <-Z.shiftr_div_pow2 by lia. unfold u64, u32, wrap. rewrite <-!Z.land_ones by lia.
  change 0xFFFFFFFF00000000 with (Z.shiftl (Z.ones 32) 32). change 0x00000000FFFFFFFF with (Z.ones 32).
  apply Z.bits_inj'. intros i Hi.
  rewrite !Z.lor_spec, !Z.land_spec, !Z.lor_spec, !Z.land_spec, !Z.shiftl_spec, !Z.testbit_ones by lia.
  destruct (Z.lt_ge_cases i 32).
  - rewrite !(Z.testbit_neg_r _ (i - 32)) by lia. rewrite !(proj2 (Z.ltb_lt i 32)) by lia.
    rewrite (proj2 (Z.leb_le 0 i)), ?(proj2 (Z.leb_gt 0 (i - 32))) by lia. by destruct (Z.testbit e i), (Z.testbit v i), (i <? 64).
  - rewrite (proj2 (Z.ltb_ge i 32)) by lia. rewrite Z.shiftr_spec by lia. replace (i - 32 + 32) with i by lia.
    destruct (Z.lt_ge_cases i 64).
    + rewrite (proj2 (Z.ltb_lt i 64)), (proj2 (Z.leb_le 0 i)) by lia. rewrite !andb_false_r. cbn. by destruct (Z.testbit v i).
    + rewrite (testbit_above 64 v i) by (done || lia). rewrite !andb_false_r. done.
Qed.

Lemma program_pin_table pin v s :
  ioapic_ok s → 0 ≤ pin < 24 → in_width 64 v → redtbl (program_pin pin v s) = <[Z.to_nat pin := v]> (redtbl s).
Proof.
  intros [Hl _] Hpin Hv. unfold program_pin. rewrite write_high, write_low by done. apply list_eq. intros j.
  destruct (decide (j = Z.to_nat pin)) as [->|Hne].
  - destruct (lookup_lt_is_Some_2 (redtbl s) (Z.to_nat pin)) as [e He]; [rewrite Hl; unfold IOAPIC_NUM_PINS; lia|].
    rewrite !list_lookup_alter_eq, He, list_lookup_insert_eq by (by eapply lookup_lt_Some). cbn.
    by rewrite halves_make_entry.
  - by rewrite !list_lookup_alter_ne, list_lookup_insert_ne by done.
Qed.

(** The vector an entry routes its pin to. *)
Definition routed (entry : Z) : option Z :=
  if Z.testbit entry 16 then None else if entry mod 256 <? 16 then None else Some (entry mod 256).

Lemma deliver_routed pin e s apic :
  apic_ok apic → 0 ≤ pin < 24 → redtbl s !! Z.to_nat pin = Some e →
  ioapic_deliver_irq pin s apic = Some (match routed e with Some v => raise v apic | None => apic end).
Proof.
  intros Hok Hpin He. unfold ioapic_deliver_irq. rewrite (proj2 (Z.leb_gt _ _)) by (unfold IOAPIC_NUM_PINS; lia).
  rewrite He. cbn [mbind option_bind]. f_equal. cbv zeta. unfold routed.
  assert (Z.land (Z.shiftr e 16) 1 = if Z.testbit e 16 then 1 else 0) as ->.
  { change 1 with (Z.ones 1). rewrite Z.land_ones by lia. change (2 ^ 1) with 2. rewrite Zmod_odd, <-Z.bit0_odd, Z.shiftr_spec by lia. done. }
  destruct (Z.testbit e 16); simpl; [done|]. change 255 with (Z.ones 8). rewrite Z.land_ones by lia. change (2 ^ 8) with 256.
  destruct (e mod 256 <? 16); [done|]. destruct (Z.ltb_spec (e mod 256 / 32) 8) as [|Hge]; [done|].
  exfalso. Z.to_euclidean_division_equations. lia.
Qed.

(** Programming a pin through the index and data windows, one half at a time,
    sets that pin's redirection entry to the given 64-bit value and no other
    pin's, and reads back in halves.  An interrupt on the pin then raises the
    entry's vector in the local APIC, and only it, unless the entry is masked or
    the vector is a reserved one. *)
Theorem ioapic_routes_pin pin v s apic
  (Hs : ioapic_ok s) (Hok : apic_ok apic) (Hpin : 0 ≤ pin < 24) (Hv : in_width 64 v) :
  let s' := program_pin pin v s in
  ioapic_ok s' ∧ redtbl s' = <[Z.to_nat pin := v]> (redtbl s) ∧
  read_ioapic_register (ioapic_select (low_reg pin) s') = Some (v mod 2 ^ 32) ∧
  read_ioapic_register (ioapic_select (high_reg pin) s') = Some (v / 2 ^ 32) ∧
  ∃ apic', ioapic_deliver_irq pin s' apic = Some apic' ∧ apic_ok apic' ∧
    isr apic' = isr apic ∧ areg_of apic' = areg_of apic ∧
    ∀ u, vector u → vec (irr apic') u = bool_decide (routed v = Some u) || vec (irr apic) u.
Proof.
  cbv zeta. pose proof (program_pin_table pin v s Hs Hpin Hv) as Ht.
  assert (redtbl (program_pin pin v s) !! Z.to_nat pin = Some v) as Hl.
  { rewrite Ht. apply list_lookup_insert_eq. rewrite (ik_length _ Hs). unfold IOAPIC_NUM_PINS. lia. }
  split; [constructor; rewrite Ht; [rewrite length_insert|apply Forall_insert; [|done]]; apply Hs|]. split; [done|].
  split; [by rewrite read_low, Hl|]. split.
  { rewrite read_high, Hl by done. cbn. f_equal. rewrite Z.shiftr_div_pow2 by lia. unfold u32. apply wrap_small.
    destruct Hv. split; [apply Z.div_pos; lia|apply Z.div_lt_upper_bound; lia]. }
  rewrite (deliver_routed pin v) by done. eexists. split; [done|].
  destruct (routed v) as [x|] eqn:Hr.
  - assert (vector x) as Hx.
    { unfold routed in Hr. repeat case_match; simplify_eq. unfold vector. apply Z.mod_pos_bound. lia. }
    split; [by apply raise_ok|]. split; [done|]. split; [done|]. intros u Hu. cbn. rewrite vec_set by (apply Hok || done).
    f_equal. destruct (Z.eqb_spec u x) as [->|]; [by rewrite bool_decide_true|rewrite bool_decide_false; [done|congruence]].
  - split; [done|]. split; [done|]. split; [done|]. intros u Hu. by rewrite bool_decide_false.
Qed.

(** ** Examples *)
Definition demo_apic : ApicState :=
  raise 0x80 (raise 0x31 (apic_accept 0x30 (write_apic_register (write_apic_register (write_apic_register
    (write_apic_register apic_default 0x0F0 0x1FF 0) 0x320 0x200EC 0) 0x3E0 0x3 0) 0x380 1000 5000))).

Lemma demo_apic_ok : apic_ok demo_apic.
Proof.
  unfold demo_apic. apply raise_ok; [|split; lia]. apply raise_ok; [|split; lia]. apply accept_ok; [|split; lia].
  do 4 (apply write_apic_register_ok; [|split; vm_compute; congruence]). apply apic_default_ok.
Qed.

(** Two vectors are requested: the greater is offered, and accepted. *)
Lemma apic_delivery_witness :
  apic_pending_vector demo_apic = Some 0x80 ∧
  vec (irr (apic_accept 0x80 demo_apic)) 0x31 = true ∧ vec (isr (apic_accept 0x80 demo_apic)) 0x80 = true.
Proof.
  pose proof (apic_delivery_correct demo_apic demo_apic_ok) as H.
  assert (apic_pending_vector demo_apic = Some 0x80) as E by (vm_compute; reflexivity). rewrite E in H. split; [exact E|].
  destruct H as (_ & _ & _ & _ & _ & _ & H). split.
  - rewrite (proj1 (H 0x31 ltac:(split; lia))). vm_compute. reflexivity.
  - rewrite (proj2 (H 0x80 ltac:(split; lia))). vm_compute. reflexivity.
Defined.

(** Nested interrupts: 0x80 interrupts the service of 0x30 and is retired. *)
Lemma apic_eoi_witness :
  vec (isr (write_apic_register (apic_accept 0x80 demo_apic) 0x0B0 0 0)) 0x30 = true ∧
  vec (isr (write_apic_register (apic_accept 0x80 demo_apic) 0x0B0 0 0)) 0x80 = false.
Proof.
  destruct (apic_eoi_correct demo_apic 0 0 demo_apic_ok) as (_ & _ & _ & _ & _ & H).
  assert (∀ u, vector u → vec (isr demo_apic) u = true → u < 0x80) as Hlt.
  { intros u Hu Hin. destruct (Z.lt_ge_cases u 0x80); [done|exfalso].
    assert (isr demo_apic = [0; 0x10000; 0; 0; 0; 0; 0; 0]) as E by (vm_compute; reflexivity). unfold vec in Hin. rewrite E in Hin.
    assert (4 ≤ u / 32 < 8) as Hd by (unfold vector in Hu; Z.to_euclidean_division_equations; lia).
    assert (u / 32 = 4 ∨ u / 32 = 5 ∨ u / 32 = 6 ∨ u / 32 = 7) as [D|[D|[D|D]]] by lia; rewrite D in Hin; simpl in Hin;
      by rewrite Z.testbit_0_l in Hin. }
  split.
  - rewrite (H 0x80 ltac:(split; lia) Hlt 0x30 ltac:(split; lia)). vm_compute. reflexivity.
  - rewrite (H 0x80 ltac:(split; lia) Hlt 0x80 ltac:(split; lia)). vm_compute. reflexivity.
Defined.

(** A periodic timer with period 16000, armed at 5000, is checked at 21000. *)
Lemma apic_timer_check_witness :
  (apic_timer_check 21000 demo_apic).1 = Some 0xEC ∧
  apic_timer_check 21000 (apic_timer_check 21000 demo_apic).2 = (None, (apic_timer_check 21000 demo_apic).2).
Proof.
  destruct (apic_timer_check_correct 21000 demo_apic demo_apic_ok ltac:(split; lia)) as (H1 & _ & _ & _ & _ & _ & _ & H).
  split; [rewrite H1; vm_compute; reflexivity|]. apply H; vm_compute; congruence.
Defined.

Lemma apic_register_file_witness :
  read_apic_register (write_apic_register demo_apic 0x020 0x12345678 0) 0x020 = Some 0x12000000 ∧
  read_apic_register (write_apic_register demo_apic 0x020 0x12345678 0) 0x320 = Some 0x200EC.
Proof.
  destruct (apic_register_file demo_apic 0x020 0x12345678 0 demo_apic_ok ltac:(split; lia)) as (_ & (old & _ & _ & H) & Hf).
  split; [rewrite H; reflexivity|]. rewrite Hf by lia. vm_compute. reflexivity.
Defined.

(** The serial port's pin, routed to vector 0x24 of APIC 1. *)
Lemma ioapic_routes_pin_witness :
  ∃ apic', ioapic_deliver_irq 4 (program_pin 4 0x0100000000000024 ioapic_default) demo_apic = Some apic' ∧
    vec (irr apic') 0x24 = true.
Proof.
  destruct (ioapic_routes_pin 4 0x0100000000000024 ioapic_default demo_apic ioapic_default_ok demo_apic_ok
    ltac:(lia) ltac:(split; lia)) as (_ & _ & _ & _ & apic' & H & _ & _ & _ & Hu).
  exists apic'. split; [exact H|]. rewrite (Hu 0x24 ltac:(split; lia)). vm_compute. reflexivity.
Defined.
