(* ===== verification/Vcpu.v ===== *)
(** * The state of a virtual processor, as the exit handlers see it (crate
    [bedrock-vmx]: [vm_state.rs], [registers/gpr.rs], [exits/helpers.rs],
    [exits/reasons.rs], [exits/qualifications.rs])

    [Vcpu] is the part of [VmState] the exit handlers of this development read
    and write.  Structs of scalars are functions of the field's name.  The VMCS
    is the processor's: a finite map from the encodings it supports to their
    values, so a read or a write of another encoding fails.  [rdtsc] is an
    oracle, a stream of values with the number of reads so far. *)
From stdpp Require Import strings.
From S2P Require Import Prelude Wire EventLog Random Rtc Apic.

(** ** General-purpose registers *)
Inductive Reg :=
| RAX | RCX | RDX | RBX | RSP | RBP | RSI | RDI | R8 | R9 | R10 | R11 | R12 | R13 | R14 | R15.
#[export] Instance Reg_eq_dec : EqDecision Reg.
Proof. solve_decision. Defined.

Definition all_regs : list Reg :=
  [RAX; RCX; RDX; RBX; RSP; RBP; RSI; RDI; R8; R9; R10; R11; R12; R13; R14; R15].
Definition reg_of_index (index : Z) : option Reg := if index <? 0 then None else all_regs !! Z.to_nat index.

(** ** Exit reasons *)
Inductive ExitReason :=
| ExceptionNmi | ExternalInterrupt | TripleFault | Init | Sipi | IoSmi | OtherSmi | InterruptWindow | NmiWindow
| TaskSwitch | Cpuid | Getsec | Hlt | Invd | Invlpg | Rdpmc | Rdtsc | Rsm | Vmcall | Vmclear | Vmlaunch | Vmptrld
| Vmptrst | Vmread | Vmresume | Vmwrite | Vmxoff | Vmxon | CrAccess | DrAccess | IoInstruction | MsrRead | MsrWrite
| InvalidGuestState | MsrLoadFail | Reserved35 | Mwait | MonitorTrapFlag | Reserved38 | Monitor | Pause
| MceDuringVmentry | Reserved42 | TprBelowThreshold | ApicAccess | VirtualizedEoi | GdtrIdtrAccess | LdtrTrAccess
| EptViolation | EptMisconfiguration | Invept | Rdtscp | VmxPreemptionTimer | Invvpid | Wbinvd | Xsetbv | ApicWrite
| Rdrand | Invpcid | Vmfunc | Encls | Rdseed | PmlFull | Xsaves | Xrstors | Pconfig | SppRelated | Umwait | Tpause
| Loadiwkey | Reserved70 | Reserved71 | EnqcmdPasid | EnqcmdsPasid | BusLock | InstructionTimeout | Seamcall | Tdcall
| Rdmsrlist | Wrmsrlist
| NeedResched | VmcallShutdown | StopTscReached | VmcallSnapshot | VmcallFeedbackBuffer | PoolExhausted
| VmcallPebsPage | VmcallIoRegisterPage | VmcallIoResponse | VmcallReady | EventBufferFull | VmcallFileFetch
| VmcallGetRandom | VmcallFileStore.
#[export] Instance ExitReason_eq_dec : EqDecision ExitReason.
Proof. solve_decision. Defined.

(** The reasons 0 to 79 of the processor, in order. *)
Definition hardware_reasons : list ExitReason :=
  [ExceptionNmi; ExternalInterrupt; TripleFault; Init; Sipi; IoSmi; OtherSmi; InterruptWindow; NmiWindow;
   TaskSwitch; Cpuid; Getsec; Hlt; Invd; Invlpg; Rdpmc; Rdtsc; Rsm; Vmcall; Vmclear; Vmlaunch; Vmptrld;
   Vmptrst; Vmread; Vmresume; Vmwrite; Vmxoff; Vmxon; CrAccess; DrAccess; IoInstruction; MsrRead; MsrWrite;
   InvalidGuestState; MsrLoadFail; Reserved35; Mwait; MonitorTrapFlag; Reserved38; Monitor; Pause;
   MceDuringVmentry; Reserved42; TprBelowThreshold; ApicAccess; VirtualizedEoi; GdtrIdtrAccess; LdtrTrAccess;
   EptViolation; EptMisconfiguration; Invept; Rdtscp; VmxPreemptionTimer; Invvpid; Wbinvd; Xsetbv; ApicWrite;
   Rdrand; Invpcid; Vmfunc; Encls; Rdseed; PmlFull; Xsaves; Xrstors; Pconfig; SppRelated; Umwait; Tpause;
   Loadiwkey; Reserved70; Reserved71; EnqcmdPasid; EnqcmdsPasid; BusLock; InstructionTimeout; Seamcall; Tdcall;
   Rdmsrlist; Wrmsrlist].

(** [ExitReason::try_from]; the error carries the basic reason. *)
Definition exit_reason_of (value : Z) : Z + ExitReason :=
  let basic := Z.land value 0xFFFF in
  match hardware_reasons !! Z.to_nat basic with Some r => inr r | None => inl basic end.

(** ** Errors and results ([exits/helpers.rs]) *)
Inductive VmcsReadError := ReadNotLoaded | ReadInvalidField.
Inductive VmcsWriteError := WriteNotLoaded | WriteInvalidField | WriteReadOnlyField.

Inductive ExitError :=
| EVmcsReadError (e : VmcsReadError)
| EVmcsWriteError (e : VmcsWriteError)
| EUnknownExitReason (r : Z)
| ETripleFault
| EInvalidGuestState
| EFatal (msg : string).

Inductive ExitHandlerResult := Continue | ExitToUserspace (r : ExitReason) | Error (e : ExitError).

(** ** VMCS fields ([fields.rs]) *)
Definition GuestPhysicalAddr : Z := 0x2400.
Definition PrimaryProcBasedVmExecControls : Z := 0x4002.
Definition VmEntryInterruptionInfo : Z := 0x4016.
Definition VmEntryExceptionErrorCode : Z := 0x4018.
Definition VmExitReason : Z := 0x4402.
Definition VmExitInterruptionInfo : Z := 0x4404.
Definition VmExitInterruptionErrorCode : Z := 0x4406.
Definition IdtVectoringInfo : Z := 0x4408.
Definition IdtVectoringErrorCode : Z := 0x440A.
Definition VmExitInstructionLen : Z := 0x440C.
Definition VmExitInstructionInfo : Z := 0x440E.
Definition GuestInterruptibilityState : Z := 0x4824.
Definition VmxPreemptionTimerValue : Z := 0x482E.
Definition Cr0ReadShadow : Z := 0x6004.
Definition Cr4ReadShadow : Z := 0x6006.
Definition ExitQualification : Z := 0x6400.
Definition GuestCr0 : Z := 0x6800.
Definition GuestCr3 : Z := 0x6802.
Definition GuestCr4 : Z := 0x6804.
Definition GuestRip : Z := 0x681E.
Definition GuestRflags : Z := 0x6820.

(** Bits of the primary processor-based controls ([traits/controls.rs]). *)
Definition INTR_WINDOW_EXITING : Z := Z.shiftl 1 2.
Definition MONITOR_TRAP_FLAG : Z := Z.shiftl 1 27.

(** ** Precise exits ([exits/pebs.rs], state) *)
Inductive preg :=
| DsManagementGpa | PebsBufferGpa | DsAreaVa | ArmedTargetTsc | ArmedInstCount | ArmedTscOffset | ItersSinceArm
| CounterReload | FixedCtrCtrl | PebsEnable | PebsDataCfg.
#[export] Instance preg_eq_dec : EqDecision preg.
Proof. solve_decision. Defined.

(** [PebsAction::InjectInterrupt], the only action, is its vector. *)
Record PebsState := mkPebs { preg_of : preg → Z; armed_action : option Z; logged_first_arm : bool }.
Definition pset (r : preg) (v : Z) (p : PebsState) : PebsState :=
  mkPebs (λ r', if decide (r' = r) then v else preg_of p r') (armed_action p) (logged_first_arm p).
Definition set_armed (a : option Z) (p : PebsState) : PebsState := mkPebs (preg_of p) a (logged_first_arm p).

(** ** The I/O channel ([vm_state.rs]) *)
Record PendingIoAction := mkIoAction { pia_target_tsc : Z; pia_data : list Z }.
Record IoChannelState := mkIoChannel {
  page_gpa : Z;
  request_len : Z;
  request_delivered : bool;
  request_target_tsc : Z;
  response_len : Z;
  request_buf : Z → Z;
  response_buf : Z → Z;
  pending_actions : list PendingIoAction;
}.
Definition set_request_delivered (c : IoChannelState) : IoChannelState :=
  mkIoChannel (page_gpa c) (request_len c) true (request_target_tsc c) (response_len c) (request_buf c)
    (response_buf c) (pending_actions c).

(** ** Serial port ([devices/serial.rs]) *)
Inductive sreg := Ier | Lcr | Mcr | Scr | Dll | Dlh.
#[export] Instance sreg_eq_dec : EqDecision sreg.
Proof. solve_decision. Defined.
Definition SerialState : Type := sreg → Z.

(** ** Memory type range registers ([devices/mtrr.rs]) *)
Definition MTRR_VAR_MAX : Z := 10.
Record MtrrState := mkMtrr {
  def_type : Z;
  fixed_4k : list Z;
  fixed_16k : list Z;
  fixed_64k : Z;
  var : list (Z * Z);
}.
Definition mtrr_default : MtrrState :=
  mkMtrr 0x6 (replicate 8 0) (replicate 2 0) 0 (replicate (Z.to_nat MTRR_VAR_MAX) (0, 0)).

(** ** The paravirtual console and the feedback buffers ([vm_state.rs]) *)
Record SerialConsoleState := mkConsole { console_page_gpa : Z; console_pending_buf : Z → Z }.

Definition FEEDBACK_BUFFER_MAX_PAGES : Z := 256.
Definition FEEDBACK_BUFFER_ID_MAX_LEN : Z := 128.
Record FeedbackBufferInfo := mkFeedback {
  fb_gva : Z;
  fb_size : Z;
  fb_num_pages : Z;
  fb_gpas : list Z;
  fb_id : list Z;
  fb_id_len : Z;
}.

Inductive ExitTrigger := Disabled | AllExits | AtTsc | AtShutdown | Checkpoints | TscRange.
#[export] Instance ExitTrigger_eq_dec : EqDecision ExitTrigger.
Proof. solve_decision. Defined.

(** ** Statistics ([AllExitStats]) *)
Inductive stat_class :=
| SCpuid | SMsrRead | SMsrWrite | SCrAccess | SIoInstruction | SEptViolation | SExternalInterrupt | SRdtsc | SRdtscp
| SRdpmc | SMwait | SVmcall | SApicAccess | SMtf | SXsetbv | SRdrand | SRdseed | SExceptionNmi | SOther.
#[export] Instance stat_class_eq_dec : EqDecision stat_class.
Proof. solve_decision. Defined.

Inductive stat :=
| Count (c : stat_class) | Cycles (c : stat_class)
| PebsMarginSteps | PebsArmBelowMinDelta | PebsArmAlreadyPast | PebsArmedIterNoFire | ApicTimerLateInject
| MaxPebsSkid
| TotalRunCycles | GuestCycles | VmentryOverheadCycles | VmexitOverheadCycles | IrqWindowCycles.
#[export] Instance stat_eq_dec : EqDecision stat.
Proof. solve_decision. Defined.

Definition class_of (r : ExitReason) : stat_class :=
  match r with
  | Cpuid => SCpuid | MsrRead => SMsrRead | MsrWrite => SMsrWrite | CrAccess => SCrAccess
  | IoInstruction => SIoInstruction | EptViolation => SEptViolation | ExternalInterrupt => SExternalInterrupt
  | Rdtsc => SRdtsc | Rdtscp => SRdtscp | Rdpmc => SRdpmc | Mwait => SMwait | Vmcall | VmcallShutdown => SVmcall
  | ApicAccess | ApicWrite => SApicAccess | MonitorTrapFlag => SMtf | Xsetbv => SXsetbv | Rdrand => SRdrand
  | Rdseed => SRdseed | ExceptionNmi => SExceptionNmi | _ => SOther
  end.

(** ** The processor *)
Inductive vfield := EmulatedTsc | TscOffset | LastInstructionCount | TscFrequency | TscAux | Xcr0Mask
| Pat | KernelGsBase | GuestCr2 | HostMiscEnable | HostPlatformInfo
| ExitTargetTsc | ExitStartTsc | LastCheckpointIdx | LastPebsSkid | LastPebsInstDelta | LastPebsTscOffsetDelta | LastPebsItersSinceArm | LastPebsArmDelta.
#[export] Instance vfield_eq_dec : EqDecision vfield.
Proof. solve_decision. Defined.

(** The host's time stamp counter: its future values, and how many were read. *)
Record host_clock := mkClock { clock_values : nat → Z; clock_reads : nat }.

Record Vcpu := mkVcpu {
  vmcs : gmap Z Z;
  gprs : Reg → Z;
  vfields : vfield → Z;
  apic : ApicState;
  ioapic : IoApicState;
  serial : SerialState;
  rtc : RtcState;
  mtrr : MtrrState;
  random : RandomState;
  events : EventState;
  io_channel : IoChannelState;
  serial_console : SerialConsoleState;
  feedback_buffers : list FeedbackBufferInfo;
  pebs_state : option PebsState;
  pebs_supported : bool;
  stop_at_tsc : option Z;
  single_step_tsc_range : option (Z * Z);
  mtf_enabled : bool;
  last_exit_deterministic : bool;
  intercept_pf : bool;
  exit_trigger : ExitTrigger;
  exit_captured : bool;
  stats : stat → Z;
  clock : host_clock;
}.
Implicit Types s : Vcpu.

(** Updates of one field. *)
Definition with_vmcs (x : gmap Z Z) s : Vcpu :=
  mkVcpu
    x (gprs s) (vfields s) (apic s) (ioapic s) (serial s) (rtc s) (mtrr s) (random s) (events s) (io_channel s)
    (serial_console s) (feedback_buffers s) (pebs_state s) (pebs_supported s) (stop_at_tsc s)
    (single_step_tsc_range s) (mtf_enabled s) (last_exit_deterministic s) (intercept_pf s) (exit_trigger s)
    (exit_captured s) (stats s) (clock s).
Definition with_gprs (x : Reg → Z) s : Vcpu :=
  mkVcpu
    (vmcs s) x (vfields s) (apic s) (ioapic s) (serial s) (rtc s) (mtrr s) (random s) (events s) (io_channel s)
    (serial_console s) (feedback_buffers s) (pebs_state s) (pebs_supported s) (stop_at_tsc s)
    (single_step_tsc_range s) (mtf_enabled s) (last_exit_deterministic s) (intercept_pf s) (exit_trigger s)
    (exit_captured s) (stats s) (clock s).
Definition with_vfields (x : vfield → Z) s : Vcpu :=
  mkVcpu
    (vmcs s) (gprs s) x (apic s) (ioapic s) (serial s) (rtc s) (mtrr s) (random s) (events s) (io_channel s)
    (serial_console s) (feedback_buffers s) (pebs_state s) (pebs_supported s) (stop_at_tsc s)
    (single_step_tsc_range s) (mtf_enabled s) (last_exit_deterministic s) (intercept_pf s) (exit_trigger s)
    (exit_captured s) (stats s) (clock s).
Definition with_apic (x : ApicState) s : Vcpu :=
  mkVcpu
    (vmcs s) (gprs s) (vfields s) x (ioapic s) (serial s) (rtc s) (mtrr s) (random s) (events s) (io_channel s)
    (serial_console s) (feedback_buffers s) (pebs_state s) (pebs_supported s) (stop_at_tsc s)
    (single_step_tsc_range s) (mtf_enabled s) (last_exit_deterministic s) (intercept_pf s) (exit_trigger s)
    (exit_captured s) (stats s) (clock s).
Definition with_ioapic (x : IoApicState) s : Vcpu :=
  mkVcpu
    (vmcs s) (gprs s) (vfields s) (apic s) x (serial s) (rtc s) (mtrr s) (random s) (events s) (io_channel s)
    (serial_console s) (feedback_buffers s) (pebs_state s) (pebs_supported s) (stop_at_tsc s)
    (single_step_tsc_range s) (mtf_enabled s) (last_exit_deterministic s) (intercept_pf s) (exit_trigger s)
    (exit_captured s) (stats s) (clock s).
Definition with_serial (x : SerialState) s : Vcpu :=
  mkVcpu
    (vmcs s) (gprs s) (vfields s) (apic s) (ioapic s) x (rtc s) (mtrr s) (random s) (events s) (io_channel s)
    (serial_console s) (feedback_buffers s) (pebs_state s) (pebs_supported s) (stop_at_tsc s)
    (single_step_tsc_range s) (mtf_enabled s) (last_exit_deterministic s) (intercept_pf s) (exit_trigger s)
    (exit_captured s) (stats s) (clock s).
Definition with_rtc (x : RtcState) s : Vcpu :=
  mkVcpu
    (vmcs s) (gprs s) (vfields s) (apic s) (ioapic s) (serial s) x (mtrr s) (random s) (events s) (io_channel s)
    (serial_console s) (feedback_buffers s) (pebs_state s) (pebs_supported s) (stop_at_tsc s)
    (single_step_tsc_range s) (mtf_enabled s) (last_exit_deterministic s) (intercept_pf s) (exit_trigger s)
    (exit_captured s) (stats s) (clock s).
Definition with_mtrr (x : MtrrState) s : Vcpu :=
  mkVcpu
    (vmcs s) (gprs s) (vfields s) (apic s) (ioapic s) (serial s) (rtc s) x (random s) (events s) (io_channel s)
    (serial_console s) (feedback_buffers s) (pebs_state s) (pebs_supported s) (stop_at_tsc s)
    (single_step_tsc_range s) (mtf_enabled s) (last_exit_deterministic s) (intercept_pf s) (exit_trigger s)
    (exit_captured s) (stats s) (clock s).
Definition with_random (x : RandomState) s : Vcpu :=
  mkVcpu
    (vmcs s) (gprs s) (vfields s) (apic s) (ioapic s) (serial s) (rtc s) (mtrr s) x (events s) (io_channel s)
    (serial_console s) (feedback_buffers s) (pebs_state s) (pebs_supported s) (stop_at_tsc s)
    (single_step_tsc_range s) (mtf_enabled s) (last_exit_deterministic s) (intercept_pf s) (exit_trigger s)
    (exit_captured s) (stats s) (clock s).
Definition with_events (x : EventState) s : Vcpu :=
  mkVcpu
    (vmcs s) (gprs s) (vfields s) (apic s) (ioapic s) (serial s) (rtc s) (mtrr s) (random s) x (io_channel s)
    (serial_console s) (feedback_buffers s) (pebs_state s) (pebs_supported s) (stop_at_tsc s)
    (single_step_tsc_range s) (mtf_enabled s) (last_exit_deterministic s) (intercept_pf s) (exit_trigger s)
    (exit_captured s) (stats s) (clock s).
Definition with_io_channel (x : IoChannelState) s : Vcpu :=
  mkVcpu
    (vmcs s) (gprs s) (vfields s) (apic s) (ioapic s) (serial s) (rtc s) (mtrr s) (random s) (events s) x
    (serial_console s) (feedback_buffers s) (pebs_state s) (pebs_supported s) (stop_at_tsc s)
    (single_step_tsc_range s) (mtf_enabled s) (last_exit_deterministic s) (intercept_pf s) (exit_trigger s)
    (exit_captured s) (stats s) (clock s).
Definition with_serial_console (x : SerialConsoleState) s : Vcpu :=
  mkVcpu
    (vmcs s) (gprs s) (vfields s) (apic s) (ioapic s) (serial s) (rtc s) (mtrr s) (random s) (events s) (io_channel s)
    x (feedback_buffers s) (pebs_state s) (pebs_supported s) (stop_at_tsc s) (single_step_tsc_range s) (mtf_enabled s)
    (last_exit_deterministic s) (intercept_pf s) (exit_trigger s) (exit_captured s) (stats s) (clock s).
Definition with_feedback_buffers (x : list FeedbackBufferInfo) s : Vcpu :=
  mkVcpu
    (vmcs s) (gprs s) (vfields s) (apic s) (ioapic s) (serial s) (rtc s) (mtrr s) (random s) (events s) (io_channel s)
    (serial_console s) x (pebs_state s) (pebs_supported s) (stop_at_tsc s) (single_step_tsc_range s) (mtf_enabled s)
    (last_exit_deterministic s) (intercept_pf s) (exit_trigger s) (exit_captured s) (stats s) (clock s).
Definition with_pebs_state (x : option PebsState) s : Vcpu :=
  mkVcpu
    (vmcs s) (gprs s) (vfields s) (apic s) (ioapic s) (serial s) (rtc s) (mtrr s) (random s) (events s) (io_channel s)
    (serial_console s) (feedback_buffers s) x (pebs_supported s) (stop_at_tsc s) (single_step_tsc_range s)
    (mtf_enabled s) (last_exit_deterministic s) (intercept_pf s) (exit_trigger s) (exit_captured s) (stats s)
    (clock s).
Definition with_stop_at_tsc (x : option Z) s : Vcpu :=
  mkVcpu
    (vmcs s) (gprs s) (vfields s) (apic s) (ioapic s) (serial s) (rtc s) (mtrr s) (random s) (events s) (io_channel s)
    (serial_console s) (feedback_buffers s) (pebs_state s) (pebs_supported s) x (single_step_tsc_range s)
    (mtf_enabled s) (last_exit_deterministic s) (intercept_pf s) (exit_trigger s) (exit_captured s) (stats s)
    (clock s).
Definition with_single_step_tsc_range (x : option (Z * Z)) s : Vcpu :=
  mkVcpu
    (vmcs s) (gprs s) (vfields s) (apic s) (ioapic s) (serial s) (rtc s) (mtrr s) (random s) (events s) (io_channel s)
    (serial_console s) (feedback_buffers s) (pebs_state s) (pebs_supported s) (stop_at_tsc s) x
    (mtf_enabled s) (last_exit_deterministic s) (intercept_pf s) (exit_trigger s) (exit_captured s) (stats s)
    (clock s).
Definition with_mtf_enabled (x : bool) s : Vcpu :=
  mkVcpu
    (vmcs s) (gprs s) (vfields s) (apic s) (ioapic s) (serial s) (rtc s) (mtrr s) (random s) (events s) (io_channel s)
    (serial_console s) (feedback_buffers s) (pebs_state s) (pebs_supported s) (stop_at_tsc s)
    (single_step_tsc_range s) x (last_exit_deterministic s) (intercept_pf s) (exit_trigger s) (exit_captured s)
    (stats s) (clock s).
Definition with_last_exit_deterministic (x : bool) s : Vcpu :=
  mkVcpu
    (vmcs s) (gprs s) (vfields s) (apic s) (ioapic s) (serial s) (rtc s) (mtrr s) (random s) (events s) (io_channel s)
    (serial_console s) (feedback_buffers s) (pebs_state s) (pebs_supported s) (stop_at_tsc s)
    (single_step_tsc_range s) (mtf_enabled s) x (intercept_pf s) (exit_trigger s) (exit_captured s) (stats s)
    (clock s).
Definition with_intercept_pf (x : bool) s : Vcpu :=
  mkVcpu
    (vmcs s) (gprs s) (vfields s) (apic s) (ioapic s) (serial s) (rtc s) (mtrr s) (random s) (events s) (io_channel s)
    (serial_console s) (feedback_buffers s) (pebs_state s) (pebs_supported s) (stop_at_tsc s)
    (single_step_tsc_range s) (mtf_enabled s) (last_exit_deterministic s) x (exit_trigger s) (exit_captured s)
    (stats s) (clock s).
Definition with_exit_trigger (x : ExitTrigger) s : Vcpu :=
  mkVcpu
    (vmcs s) (gprs s) (vfields s) (apic s) (ioapic s) (serial s) (rtc s) (mtrr s) (random s) (events s) (io_channel s)
    (serial_console s) (feedback_buffers s) (pebs_state s) (pebs_supported s) (stop_at_tsc s)
    (single_step_tsc_range s) (mtf_enabled s) (last_exit_deterministic s) (intercept_pf s) x (exit_captured s)
    (stats s) (clock s).
Definition with_exit_captured (x : bool) s : Vcpu :=
  mkVcpu
    (vmcs s) (gprs s) (vfields s) (apic s) (ioapic s) (serial s) (rtc s) (mtrr s) (random s) (events s) (io_channel s)
    (serial_console s) (feedback_buffers s) (pebs_state s) (pebs_supported s) (stop_at_tsc s)
    (single_step_tsc_range s) (mtf_enabled s) (last_exit_deterministic s) (intercept_pf s) (exit_trigger s) x
    (stats s) (clock s).
Definition with_stats (x : stat → Z) s : Vcpu :=
  mkVcpu
    (vmcs s) (gprs s) (vfields s) (apic s) (ioapic s) (serial s) (rtc s) (mtrr s) (random s) (events s) (io_channel s)
    (serial_console s) (feedback_buffers s) (pebs_state s) (pebs_supported s) (stop_at_tsc s)
    (single_step_tsc_range s) (mtf_enabled s) (last_exit_deterministic s) (intercept_pf s) (exit_trigger s)
    (exit_captured s) x (clock s).
Definition with_clock (x : host_clock) s : Vcpu :=
  mkVcpu
    (vmcs s) (gprs s) (vfields s) (apic s) (ioapic s) (serial s) (rtc s) (mtrr s) (random s) (events s) (io_channel s)
    (serial_console s) (feedback_buffers s) (pebs_state s) (pebs_supported s) (stop_at_tsc s)
    (single_step_tsc_range s) (mtf_enabled s) (last_exit_deterministic s) (intercept_pf s) (exit_trigger s)
    (exit_captured s) (stats s) x.

Definition set_gpr (r : Reg) (v : Z) s : Vcpu := with_gprs (λ r', if decide (r' = r) then v else gprs s r') s.
Definition set_field (f : vfield) (v : Z) s : Vcpu := with_vfields (λ f', if decide (f' = f) then v else vfields s f') s.
Definition set_serial (r : sreg) (v : Z) s : Vcpu := with_serial (λ r', if decide (r' = r) then v else serial s r') s.
Definition bump (t : stat) (n : Z) s : Vcpu := with_stats (λ t', if decide (t' = t) then stats s t +! n else stats s t') s.

(** ** Handlers are computations on the processor *)
Definition VM : Type → Type := M Vcpu ExitError.

Definition vmread (f : Z) : VM Z := λ s,
  match vmcs s !! f with Some v => (Done v, s) | None => (Fail (EVmcsReadError ReadInvalidField), s) end.
Definition vmwrite (f v : Z) : VM () := λ s,
  match vmcs s !! f with
  | Some _ => (Done (), with_vmcs (<[f := v]> (vmcs s)) s)
  | None => (Fail (EVmcsWriteError WriteInvalidField), s)
  end.
Definition map_err {A} (e : ExitError) (m : VM A) : VM A := λ s,
  match m s with (Fail _, s') => (Fail e, s') | r => r end.
Definition unwrap_or {A} (d : A) (m : VM A) : VM A := λ s,
  match m s with (Fail _, s') => (Done d, s') | r => r end.
(** [if let Err(e) = .. { return ExitHandlerResult::Error(e) }] *)
Definition handler (m : VM ExitHandlerResult) : VM ExitHandlerResult := λ s,
  match m s with (Fail e, s') => (Done (Error e), s') | r => r end.

Definition get_field (f : vfield) : VM Z := gets (λ s, vfields s f).
Definition get_gpr (r : Reg) : VM Z := gets (λ s, gprs s r).
Definition rdtsc : VM Z := λ s,
  (Done (clock_values (clock s) (clock_reads (clock s))),
   with_clock (mkClock (clock_values (clock s)) (S (clock_reads (clock s)))) s).

(** One operation of the event log, which is given one reading of the host's
    counter; that the record was staged or dropped is handled by the dispatcher. *)
Definition emit (f : Z → EventState → bool * EventState) : VM () :=
  t ← rdtsc; modify (λ s, with_events (f t (events s)).2 s).

(** ** Helpers ([exits/helpers.rs]) *)
Definition read_exit_reason : VM ExitReason :=
  raw ← vmread VmExitReason;
  match exit_reason_of raw with inr r => mret r | inl b => throw (EUnknownExitReason b) end.
Definition read_exit_qualification : VM Z := vmread ExitQualification.
Definition read_guest_rip : VM Z := vmread GuestRip.
Definition read_instruction_len : VM Z := vmread VmExitInstructionLen.

(** [rip + u64::from(len)] is a plain addition, which wraps when overflow checks
    are off. *)
Definition advance_rip : VM () :=
  rip ← read_guest_rip;
  len ← read_instruction_len;
  map_err (EFatal "Failed to write guest RIP") (vmwrite GuestRip (u64 (rip + len))).

Definition emit_randomness_event (payload : RandomPayload) (bytes : list Z) : VM () :=
  tsc ← get_field EmulatedTsc;
  emit (λ t es, event_append Randomness (random_bytes payload ++ take RANDOM_REPLY_MAX bytes) tsc t es).

(** ** Interruption information ([exits/qualifications.rs]) *)
Inductive InterruptionType :=
| IExternalInterrupt | IReserved | INmi | IHardwareException | ISoftwareInterrupt | IPrivilegedSoftwareException
| ISoftwareException | IOtherEvent.
Definition interruption_type_bits (t : InterruptionType) : Z :=
  match t with
  | IExternalInterrupt => 0 | IReserved => 1 | INmi => 2 | IHardwareException => 3 | ISoftwareInterrupt => 4
  | IPrivilegedSoftwareException => 5 | ISoftwareException => 6 | IOtherEvent => 7
  end.

Record InterruptionInfo := mkInfo {
  ii_vector : Z;
  ii_type : InterruptionType;
  ii_error_code_valid : bool;
  ii_nmi_unblocking : bool;
  ii_valid : bool;
}.
Definition external_interrupt (vector : Z) : InterruptionInfo := mkInfo vector IExternalInterrupt false false true.

Definition info_encode (i : InterruptionInfo) : Z :=
  let value := ii_vector i in
  let value := Z.lor value (Z.shiftl (interruption_type_bits (ii_type i)) 8) in
  let value := if ii_error_code_valid i then Z.lor value (Z.shiftl 1 11) else value in
  let value := if ii_nmi_unblocking i then Z.lor value (Z.shiftl 1 12) else value in
  if ii_valid i then Z.lor value (Z.shiftl 1 31) else value.

Definition info_decode (value : Z) : InterruptionInfo :=
  mkInfo (Z.land value 0xFF)
    (let t := Z.land (Z.shiftr value 8) 7 in
     if t =? 0 then IExternalInterrupt else if t =? 1 then IReserved else if t =? 2 then INmi
     else if t =? 3 then IHardwareException else if t =? 4 then ISoftwareInterrupt
     else if t =? 5 then IPrivilegedSoftwareException else if t =? 6 then ISoftwareException else IOtherEvent)
    (negb (Z.land (Z.shiftr value 11) 1 =? 0))
    (negb (Z.land (Z.shiftr value 12) 1 =? 0))
    (negb (Z.land (Z.shiftr value 31) 1 =? 0)).

Definition inject_exception (info : InterruptionInfo) (error_code : option Z) : VM () :=
  map_err (EFatal "Failed to write interruption info") (vmwrite VmEntryInterruptionInfo (info_encode info));;
  match error_code with
  | Some ec => map_err (EFatal "Failed to write error code") (vmwrite VmEntryExceptionErrorCode ec)
  | None => mret ()
  end.

(** ** What a computation leaves alone *)
Definition keeps {A B} (f : Vcpu → A) (m : VM B) : Prop := ∀ s, f (m s).2 = f s.

Lemma keeps_bind {A B C} (f : Vcpu → A) (m : VM B) (k : B → VM C) :
  keeps f m → (∀ b, keeps f (k b)) → keeps f (m ≫= k).
Proof.
  intros Hm Hk s. unfold mbind, M_bind. specialize (Hm s). destruct (m s) as [[b|e|] s']; cbn in *; [|done..].
  by rewrite Hk.
Qed.
Lemma keeps_ret {A B} (f : Vcpu → A) (b : B) : keeps f (mret b : VM B).
Proof. done. Qed.
Lemma keeps_throw {A B} (f : Vcpu → A) e : keeps f (throw e : VM B).
Proof. done. Qed.
Lemma keeps_gets {A B} (f : Vcpu → A) (g : Vcpu → B) : keeps f (gets g : VM B).
Proof. done. Qed.
Lemma keeps_demand {A B} (f : Vcpu → A) (g : Vcpu → option B) : keeps f (demand g : VM B).
Proof. intros s. unfold demand. by destruct (g s). Qed.
Lemma keeps_modify {A} (f : Vcpu → A) (g : Vcpu → Vcpu) : (∀ s, f (g s) = f s) → keeps f (modify g : VM ()).
Proof. intros H s. apply H. Qed.
Lemma keeps_map_err {A B} (f : Vcpu → A) e (m : VM B) : keeps f m → keeps f (map_err e m).
Proof. intros H s. specialize (H s). unfold map_err. by destruct (m s) as [[]]. Qed.
Lemma keeps_unwrap_or {A B} (f : Vcpu → A) d (m : VM B) : keeps f m → keeps f (unwrap_or d m).
Proof. intros H s. specialize (H s). unfold unwrap_or. by destruct (m s) as [[]]. Qed.
Lemma keeps_vmread {A} (f : Vcpu → A) x : keeps f (vmread x).
Proof. intros s. unfold vmread. by destruct (vmcs s !! x). Qed.
Lemma keeps_vmwrite {A} (f : Vcpu → A) x v : (∀ s y, f (with_vmcs y s) = f s) → keeps f (vmwrite x v).
Proof. intros H s. unfold vmwrite. destruct (vmcs s !! x); cbn; [apply H|done]. Qed.
Lemma keeps_rdtsc {A} (f : Vcpu → A) : (∀ s y, f (with_clock y s) = f s) → keeps f rdtsc.
Proof. intros H s. apply H. Qed.
Lemma keeps_emit {A} (f : Vcpu → A) g :
  (∀ s y, f (with_clock y s) = f s) → (∀ s y, f (with_events y s) = f s) → keeps f (emit g).
Proof. intros H1 H2. apply keeps_bind; [by apply keeps_rdtsc|]. intros t. apply keeps_modify. done. Qed.

Ltac keeps_step :=
  repeat first
    [ apply keeps_bind; [|intros ?] | apply keeps_ret | apply keeps_gets | apply keeps_demand | apply keeps_map_err
    | apply keeps_unwrap_or | apply keeps_vmread | (apply keeps_vmwrite; intros; reflexivity)
    | (apply keeps_emit; intros; reflexivity) | (apply keeps_modify; intros; reflexivity)
    | (apply keeps_rdtsc; intros; reflexivity)
    | match goal with |- keeps _ (if ?b then _ else _) => destruct b end
    | match goal with |- keeps _ (match ?o with Some _ => _ | None => _ end) => destruct o end ].
