(* ===== verification/Relational.v ===== *)
(** * Well-formed processors, and processors that differ only in host time

    Two things are proved of every handler at once: it keeps the processor
    well-formed and never panics, and its effect on the guest does not depend on
    the host's time stamp counter.  Both are one relational judgement: [rtyped R
    P m1 m2] says that from states related by [R] the two computations return
    the same value, which satisfies [P], or the same error, in related states;
    neither is stuck.  [sim] relates well-formed processors that are equal but
    for the statistics, the host's counter and the host times recorded in the
    event log. *)
From stdpp Require Import strings.
From S2P Require Import Prelude Wire EventLog Random Rtc Apic Vcpu.

(** ** The judgement *)
Section Judgement.
Context {S E : Type} (R : S → S → Prop).

Definition rtyped {A} (P : A → Prop) (m1 m2 : M S E A) : Prop := ∀ s1 s2, R s1 s2 →
  match m1 s1, m2 s2 with
  | (Done a, s1'), (Done a', s2') => a = a' ∧ P a ∧ R s1' s2'
  | (Fail e, s1'), (Fail e', s2') => e = e' ∧ R s1' s2'
  | _, _ => False
  end.

Lemma rt_ret {A} (P : A → Prop) (a : A) : P a → rtyped P (mret a) (mret a).
Proof. intros Ha s1 s2 Hs. done. Qed.
Lemma rt_throw {A} (P : A → Prop) (e : E) : rtyped P (throw e) (throw e).
Proof. intros s1 s2 Hs. done. Qed.
Lemma rt_bind {A B} (P : A → Prop) (Q : B → Prop) (m1 m2 : M S E A) (k1 k2 : A → M S E B) :
  rtyped P m1 m2 → (∀ a, P a → rtyped Q (k1 a) (k2 a)) → rtyped Q (m1 ≫= k1) (m2 ≫= k2).
Proof.
  intros Hm Hk s1 s2 Hs. specialize (Hm s1 s2 Hs). unfold mbind, M_bind.
  destruct (m1 s1) as [[a|e|] s1'], (m2 s2) as [[a'|e'|] s2']; try done.
  destruct Hm as (<- & Ha & Hs'). by apply Hk.
Qed.
(** A read of the state, the continuation seeing two related ones. *)
Lemma rt_get {A B} (f : S → A) (Q : B → Prop) (k1 k2 : A → M S E B) :
  (∀ s1 s2, R s1 s2 → rtyped Q (k1 (f s1)) (k2 (f s2))) → rtyped Q (gets f ≫= k1) (gets f ≫= k2).
Proof. intros Hk s1 s2 Hs. by apply (Hk s1 s2). Qed.
Lemma rt_gets {A} (P : A → Prop) (f : S → A) :
  (∀ s1 s2, R s1 s2 → f s1 = f s2 ∧ P (f s1)) → rtyped P (gets f) (gets f).
Proof. intros Hf s1 s2 Hs. by destruct (Hf s1 s2 Hs). Qed.
Lemma rt_demand {A} (P : A → Prop) (f : S → option A) :
  (∀ s1 s2, R s1 s2 → f s1 = f s2 ∧ ∃ a, f s1 = Some a ∧ P a) → rtyped P (demand f) (demand f).
Proof. intros Hf s1 s2 Hs. unfold demand. destruct (Hf s1 s2 Hs) as (<- & a & -> & Ha). done. Qed.
Lemma rt_modify (f : S → S) : (∀ s1 s2, R s1 s2 → R (f s1) (f s2)) → rtyped (λ _, True) (modify f) (modify f).
Proof. intros Hf s1 s2 Hs. split; [done|]. split; [done|]. by apply Hf. Qed.
Lemma rt_conseq {A} (P Q : A → Prop) (m1 m2 : M S E A) : rtyped P m1 m2 → (∀ a, P a → Q a) → rtyped Q m1 m2.
Proof.
  intros Hm HQ s1 s2 Hs. specialize (Hm s1 s2 Hs). destruct (m1 s1) as [[a|e|] s1'], (m2 s2) as [[a'|e'|] s2']; try done.
  destruct Hm as (? & Ha & ?). auto.
Qed.
Lemma rt_for_each {B} (l : list B) (b1 b2 : B → M S E ()) :
  (∀ x, x ∈ l → rtyped (λ _, True) (b1 x) (b2 x)) → rtyped (λ _, True) (for_each l b1) (for_each l b2).
Proof.
  induction l as [|x l IH]; intros Hb; [by apply rt_ret|]. cbn. apply (rt_bind (λ _, True)); [apply Hb; left|].
  intros _ _. apply IH. intros y Hy. apply Hb. by right.
Qed.
End Judgement.

(** A computation related to itself from equal states is a type-safe one. *)
Lemma rtyped_triple {S E A} (R : S → S → Prop) (P : A → Prop) (m : M S E A) :
  rtyped R P m m → triple (λ s, R s s) m (λ a s, P a ∧ R s s) (λ _ s, R s s).
Proof.
  intros Hm s Hs. specialize (Hm s s Hs). destruct (m s) as [[a|e|] s']; [|by destruct Hm|done].
  destruct Hm as (_ & ? & ?). done.
Qed.

(** ** Well-formed processors *)

(** The width of a VMCS field is in bits 14:13 of its encoding. *)
Definition field_width (f : Z) : Z :=
  let k := Z.land (Z.shiftr f 13) 3 in if k =? 0 then 16 else if k =? 2 then 32 else 64.
Definition vfield_ok (f : vfield) (v : Z) : Prop :=
  match f with
  | LastPebsSkid | LastPebsInstDelta | LastPebsTscOffsetDelta => in_i64 v
  | LastPebsItersSinceArm => in_width 32 v
  | _ => in_width 64 v
  end.
Definition preg_width (r : preg) : Z := match r with ItersSinceArm => 32 | _ => 64 end.
Record pebs_ok (p : PebsState) : Prop := {
  pk_regs r : in_width (preg_width r) (preg_of p r);
  pk_action v : armed_action p = Some v → in_width 8 v;
}.
Record mtrr_ok (m : MtrrState) : Prop := {
  mk_def : in_width 64 (def_type m);
  mk_64k : in_width 64 (fixed_64k m);
  mk_4k : length (fixed_4k m) = 8%nat ∧ Forall (in_width 64) (fixed_4k m);
  mk_16k : length (fixed_16k m) = 2%nat ∧ Forall (in_width 64) (fixed_16k m);
  mk_var : length (var m) = 10%nat ∧ Forall (λ p, in_width 64 p.1 ∧ in_width 64 p.2) (var m);
}.
Record rtc_ok (r : RtcState) : Prop := {
  tk_index : in_width 7 (rtc_index r);
  tk_time : in_width 64 (rtc_base_time r);
}.
Record rng_ok (r : RandomState) : Prop := {
  gk_state : random_ok r;
  gk_pending v : rs_pending_value r = Some v → in_width 64 v;
  gk_gva : in_width 64 (rs_buf_gva r);
  gk_len : 0 ≤ rs_req_len r ≤ 256;
  gk_pid : in_width 32 (rs_pid r);
  gk_reply : Forall is_byte (rs_reply r);
}.
Definition action_ok (a : PendingIoAction) : Prop :=
  in_width 64 (pia_target_tsc a) ∧ (length (pia_data a) ≤ 4096)%nat ∧ Forall is_byte (pia_data a).
Record channel_ok (c : IoChannelState) : Prop := {
  ck_page : in_width 52 (page_gpa c);
  ck_request : 0 ≤ request_len c ≤ IO_CHANNEL_BUF_SIZE;
  ck_response : 0 ≤ response_len c ≤ IO_CHANNEL_BUF_SIZE;
  ck_target : in_width 64 (request_target_tsc c);
  ck_request_buf i : is_byte (request_buf c i);
  ck_response_buf i : is_byte (response_buf c i);
  ck_pending : Forall action_ok (pending_actions c);
}.
Record feedback_ok (f : FeedbackBufferInfo) : Prop := {
  fk_gva : in_width 64 (fb_gva f);
  fk_size : 0 < fb_size f ≤ FEEDBACK_BUFFER_MAX_PAGES * 4096;
  fk_pages : 0 < fb_num_pages f ≤ FEEDBACK_BUFFER_MAX_PAGES;
  fk_gpas : Z.of_nat (length (fb_gpas f)) = FEEDBACK_BUFFER_MAX_PAGES;
  fk_gpa : Forall (λ g, in_width 64 g ∧ g mod 4096 = 0) (fb_gpas f);
  fk_id : Z.of_nat (length (fb_id f)) = FEEDBACK_BUFFER_ID_MAX_LEN;
  fk_id_len : 0 < fb_id_len f ≤ FEEDBACK_BUFFER_ID_MAX_LEN;
}.
Definition clock_ok (c : host_clock) : Prop := ∀ n, in_width 64 (clock_values c n).

Record core_ok s : Prop := {
  vk_vmcs : map_Forall (λ f v, in_width (field_width f) v) (vmcs s);
  vk_gprs r : in_width 64 (gprs s r);
  vk_fields f : vfield_ok f (vfields s f);
  vk_apic : apic_ok (apic s);
  vk_ioapic : ioapic_ok (ioapic s);
  vk_ioapic_regs : in_width 32 (ioregsel (ioapic s)) ∧ in_width 32 (ioapic_id (ioapic s));
  vk_serial r : in_width 8 (serial s r);
  vk_rtc : rtc_ok (rtc s);
  vk_mtrr : mtrr_ok (mtrr s);
  vk_random : rng_ok (random s);
  vk_channel : channel_ok (io_channel s);
  vk_console : in_width 52 (console_page_gpa (serial_console s)) ∧ ∀ i, is_byte (console_pending_buf (serial_console s) i);
  vk_feedback : Forall feedback_ok (feedback_buffers s);
  vk_pebs p : pebs_state s = Some p → pebs_ok p;
  vk_stop t : stop_at_tsc s = Some t → in_width 64 t;
  vk_range a b : single_step_tsc_range s = Some (a, b) → in_width 64 a ∧ in_width 64 b;
}.
Record vcpu_ok s : Prop := {
  ok_core : core_ok s;
  ok_events : ∃ a, refines (events s) a;
  ok_clock : clock_ok (clock s);
}.

(** ** Processors that differ in host time only *)

(** Event logs that agree but for the recorded values of the host's counter. *)
Definition ev_rel (es es' : EventState) : Prop :=
  ∃ a a', refines es a ∧ refines es' a' ∧ erase_alog a = erase_alog a'.

Definition upd (e : EventState) (c : host_clock) (st : stat → Z) s : Vcpu := with_stats st (with_clock c (with_events e s)).

Record sim s1 s2 : Prop := {
  sm_same : ∃ e c st, s2 = upd e c st s1;
  sm_events : ev_rel (events s1) (events s2);
  sm_core : core_ok s1;
  sm_clock1 : clock_ok (clock s1);
  sm_clock2 : clock_ok (clock s2);
}.

Lemma sim_refl s : vcpu_ok s → sim s s.
Proof.
  intros [Hc [a Ha] Hk]. split; [|by exists a, a|done..]. exists (events s), (clock s), (stats s). by destruct s.
Qed.
Lemma core_upd e c st s : core_ok s → core_ok (upd e c st s).
Proof. intros []. by constructor. Qed.
Lemma sim_ok s1 s2 : sim s1 s2 → vcpu_ok s1 ∧ vcpu_ok s2.
Proof.
  intros [(e & c & st & ->) (a & a' & H1 & H2 & _) Hc K1 K2]. split; constructor; eauto. by apply core_upd.
Qed.

Lemma set_field_eq f v s : vfields (set_field f v s) f = v.
Proof. cbn. by rewrite decide_True. Qed.
Lemma set_field_ne f f' v s : f' ≠ f → vfields (set_field f v s) f' = vfields s f'.
Proof. intros. cbn. by rewrite decide_False. Qed.
Lemma set_gpr_eq r v s : gprs (set_gpr r v s) r = v.
Proof. cbn. by rewrite decide_True. Qed.
Lemma set_gpr_ne r r' v s : r' ≠ r → gprs (set_gpr r v s) r' = gprs s r'.
Proof. intros. cbn. by rewrite decide_False. Qed.

(** ** The processor's primitives *)
Abbreviation vt := (@rtyped Vcpu ExitError sim _).

Lemma sim_modify (g : Vcpu → Vcpu) :
  (∀ e c st s, g (upd e c st s) = upd e c st (g s)) →
  (∀ s, events (g s) = events s) → (∀ s, clock (g s) = clock s) → (∀ s, core_ok s → core_ok (g s)) →
  vt (λ _, True) (modify g : VM ()) (modify g).
Proof.
  intros Hc He Hk Ho. apply rt_modify. intros s1 s2 [(e & c & st & ->) Hev Hco K1 K2]. rewrite Hc. split.
  - by exists e, c, st.
  - rewrite He. exact Hev.
  - by apply Ho.
  - by rewrite Hk.
  - exact K2.
Qed.

(** An update that is only well-formed on some states. *)
Lemma sim_modify_at (g : Vcpu → Vcpu) s1 s2 :
  sim s1 s2 → (∀ e c st, g (upd e c st s1) = upd e c st (g s1)) →
  events (g s1) = events s1 → clock (g s1) = clock s1 → core_ok (g s1) → sim (g s1) (g s2).
Proof.
  intros [(e & c & st & ->) Hev Hco K1 K2] Hc He Hk Ho. rewrite Hc. split.
  - by exists e, c, st.
  - rewrite He. exact Hev.
  - done.
  - by rewrite Hk.
  - exact K2.
Qed.

Lemma vt_stats (g1 g2 : Vcpu → Vcpu) :
  (∀ s, ∃ st, g1 s = with_stats st s) → (∀ s, ∃ st, g2 s = with_stats st s) →
  vt (λ _, True) (modify g1 : VM ()) (modify g2).
Proof.
  intros H1 H2 s1 s2 [(e & c & st & ->) Hev Hco K1 K2]. split; [done|]. split; [done|].
  destruct (H1 s1) as [st1 ->], (H2 (upd e c st s1)) as [st2 ->]. split; [|done| |done..].
  - by exists e, c, st2.
  - destruct Hco. by constructor.
Qed.

Lemma core_gprs x s : (∀ r, in_width 64 (x r)) → core_ok s → core_ok (with_gprs x s).
Proof. intros Hx []. by constructor. Qed.
Lemma core_set_gpr r v s : in_width 64 v → core_ok s → core_ok (set_gpr r v s).
Proof. intros Hv H. apply core_gprs; [|done]. intros r'. destruct (decide (r' = r)); [done|by apply vk_gprs]. Qed.
Lemma core_set_field f v s : vfield_ok f v → core_ok s → core_ok (set_field f v s).
Proof.
  intros Hv []. constructor; try done. intros f'. cbn. destruct (decide (f' = f)) as [->|]; done.
Qed.
Lemma core_set_serial r v s : in_width 8 v → core_ok s → core_ok (set_serial r v s).
Proof.
  intros Hv []. constructor; try done. intros r'. cbn. destruct (decide (r' = r)) as [->|]; done.
Qed.
Lemma core_vmcs f v s : in_width (field_width f) v → core_ok s → core_ok (with_vmcs (<[f := v]> (vmcs s)) s).
Proof. intros Hv []. constructor; try done. cbn. by apply map_Forall_insert_2. Qed.
Lemma core_apic x s : apic_ok x → core_ok s → core_ok (with_apic x s).
Proof. intros Hv []. by constructor. Qed.
Lemma core_ioapic x s :
  ioapic_ok x → in_width 32 (ioregsel x) ∧ in_width 32 (ioapic_id x) → core_ok s → core_ok (with_ioapic x s).
Proof. intros Hv Hw []. by constructor. Qed.
Lemma core_rtc x s : rtc_ok x → core_ok s → core_ok (with_rtc x s).
Proof. intros Hv []. by constructor. Qed.
Lemma core_mtrr x s : mtrr_ok x → core_ok s → core_ok (with_mtrr x s).
Proof. intros Hv []. by constructor. Qed.
Lemma core_random x s : rng_ok x → core_ok s → core_ok (with_random x s).
Proof. intros Hv []. by constructor. Qed.
Lemma core_channel x s : channel_ok x → core_ok s → core_ok (with_io_channel x s).
Proof. intros Hv []. by constructor. Qed.
Lemma core_console x s :
  in_width 52 (console_page_gpa x) → (∀ i, is_byte (console_pending_buf x i)) → core_ok s → core_ok (with_serial_console x s).
Proof. intros Hg Hb []. by constructor. Qed.
Lemma core_feedback x s : Forall feedback_ok x → core_ok s → core_ok (with_feedback_buffers x s).
Proof. intros Hv []. by constructor. Qed.
Lemma core_pebs x s : (∀ p, x = Some p → pebs_ok p) → core_ok s → core_ok (with_pebs_state x s).
Proof. intros Hv []. by constructor. Qed.
Lemma core_mtf x s : core_ok s → core_ok (with_mtf_enabled x s).
Proof. intros []. by constructor. Qed.
Lemma core_det x s : core_ok s → core_ok (with_last_exit_deterministic x s).
Proof. intros []. by constructor. Qed.
Lemma core_captured x s : core_ok s → core_ok (with_exit_captured x s).
Proof. intros []. by constructor. Qed.
Create HintDb core.
#[export] Hint Resolve core_set_gpr core_set_field core_set_serial core_apic core_ioapic core_rtc core_mtrr core_random
  core_channel core_console core_feedback core_pebs core_mtf core_det core_captured : core.

Lemma vt_vmread f : vt (in_width (field_width f)) (vmread f) (vmread f).
Proof.
  intros s1 s2 Hs. pose proof Hs as [(e & c & st & ->) _ Hc _ _]. unfold vmread. cbn.
  destruct (vmcs s1 !! f) as [v|] eqn:Hv; [|done]. split; [done|]. split; [|done]. by apply (vk_vmcs _ Hc f v).
Qed.
Lemma vt_vmwrite f v : in_width (field_width f) v → vt (λ _, True) (vmwrite f v) (vmwrite f v).
Proof.
  intros Hv s1 s2 Hs. pose proof Hs as [(e & c & st & ->) Hev Hc K1 K2]. unfold vmwrite. cbn.
  destruct (vmcs s1 !! f) as [w|]; [|done]. split; [done|]. split; [done|]. split.
  - by exists e, c, st.
  - done.
  - by apply core_vmcs.
  - done.
  - done.
Qed.
Lemma vt_map_err {A} (P : A → Prop) e (m1 m2 : VM A) : vt P m1 m2 → vt P (map_err e m1) (map_err e m2).
Proof.
  intros Hm s1 s2 Hs. specialize (Hm s1 s2 Hs). unfold map_err.
  destruct (m1 s1) as [[a|e1|] s1'], (m2 s2) as [[a'|e2|] s2']; try done. by destruct Hm.
Qed.
Lemma vt_unwrap_or {A} (P : A → Prop) d (m1 m2 : VM A) : P d → vt P m1 m2 → vt P (unwrap_or d m1) (unwrap_or d m2).
Proof.
  intros Hd Hm s1 s2 Hs. specialize (Hm s1 s2 Hs). unfold unwrap_or.
  destruct (m1 s1) as [[a|e1|] s1'], (m2 s2) as [[a'|e2|] s2']; try done. by destruct Hm.
Qed.
Lemma vt_handler (P : ExitHandlerResult → Prop) (m1 m2 : VM ExitHandlerResult) :
  vt P m1 m2 → vt (λ _, True) (handler m1) (handler m2).
Proof.
  intros Hm s1 s2 Hs. specialize (Hm s1 s2 Hs). unfold handler.
  destruct (m1 s1) as [[a|e1|] s1'], (m2 s2) as [[a'|e2|] s2']; try done; [by destruct Hm as (-> & _ & ?)|by destruct Hm as [-> ?]].
Qed.
Lemma vt_get_field f : vt (vfield_ok f) (get_field f) (get_field f).
Proof. apply rt_gets. intros s1 s2 [(e & c & st & ->) _ Hc _ _]. split; [done|]. by apply vk_fields. Qed.
Lemma vt_get_gpr r : vt (in_width 64) (get_gpr r) (get_gpr r).
Proof. apply rt_gets. intros s1 s2 [(e & c & st & ->) _ Hc _ _]. split; [done|]. by apply vk_gprs. Qed.

(** The host's counter gives each processor its own value. *)
Lemma vt_rdtsc {B} (Q : B → Prop) (k1 k2 : Z → VM B) :
  (∀ t1 t2, in_width 64 t1 → in_width 64 t2 → vt Q (k1 t1) (k2 t2)) → vt Q (rdtsc ≫= k1) (rdtsc ≫= k2).
Proof.
  intros Hk s1 s2 [(e & c & st & ->) Hev Hc K1 K2]. unfold mbind, M_bind, rdtsc.
  apply Hk; [apply K1|apply K2|]. split; [by eexists _, _, _|done| |done..]. destruct Hc. by constructor.
Qed.

Lemma ev_rel_op (o1 o2 : op) es es' e e' :
  erase_op o1 = erase_op o2 → apply_op es o1 = e → apply_op es' o2 = e' →
  (∀ a, op_ok a o1) → (∀ a, op_ok a o2) → ev_rel es es' → ev_rel e e'.
Proof.
  intros Ho <- <- Hk1 Hk2 (a & a' & Ha & Ha' & Hr). exists (a_apply a o1), (a_apply a' o2).
  split; [by apply op_refines|]. split; [by apply op_refines|]. by rewrite <-!erase_apply, Hr, Ho.
Qed.

(** Emitting an event, whose only host-dependent part is its host time. *)
Lemma vt_emit (f : Z → EventState → bool * EventState) (o : Z → op) :
  (∀ t es, apply_op es (o t) = (f t es).2) → (∀ t, erase_op (o t) = erase_op (o 0)) →
  (∀ t a, in_width 64 t → op_ok a (o t)) → vt (λ _, True) (emit f) (emit f).
Proof.
  intros Ha Ho Hk. unfold emit. apply vt_rdtsc. intros t1 t2 H1 H2 s1 s2 [(e & c & st & ->) Hev Hc K1 K2].
  split; [done|]. split; [done|]. split; [by eexists _, _, _| |by destruct Hc; constructor|done|done].
  cbn. apply (ev_rel_op (o t1) (o t2) (events s1) e); auto. by rewrite (Ho t1), (Ho t2).
Qed.

(** An operation of the log that reads no counter. *)
Lemma vt_log_op (f : EventState → EventState) (o : op) :
  (∀ es, apply_op es o = f es) → (∀ a, op_ok a o) →
  vt (λ _, True) (modify (λ s, with_events (f (events s)) s) : VM ()) (modify (λ s, with_events (f (events s)) s)).
Proof.
  intros Ha Hk s1 s2 [(e & c & st & ->) Hev Hc K1 K2]. split; [done|]. split; [done|].
  split; [by eexists _, _, _| |by destruct Hc; constructor|done|done].
  cbn. by apply (ev_rel_op o o (events s1) e).
Qed.

Lemma vt_gets {A} (P : A → Prop) (f : Vcpu → A) :
  (∀ e c st s, f (upd e c st s) = f s) → (∀ s, core_ok s → P (f s)) → vt P (gets f) (gets f).
Proof. intros He HP. apply rt_gets. intros s1 s2 [(e & c & st & ->) _ Hc _ _]. rewrite He. auto. Qed.
Lemma vt_demand {A} (P : A → Prop) (f : Vcpu → option A) :
  (∀ e c st s, f (upd e c st s) = f s) → (∀ s, core_ok s → ∃ a, f s = Some a ∧ P a) → vt P (demand f) (demand f).
Proof. intros He HP. apply rt_demand. intros s1 s2 [(e & c & st & ->) _ Hc _ _]. rewrite He. auto. Qed.
(** A read of the whole processor, of which only what [sim] equates is used. *)
Lemma vt_get {B} (Q : B → Prop) (k : Vcpu → VM B) :
  (∀ e c st s, k (upd e c st s) = k s) → (∀ s, core_ok s → vt Q (k s) (k s)) → vt Q (gets id ≫= k) (gets id ≫= k).
Proof. intros He Hk. apply rt_get. intros s1 s2 [(e & c & st & ->) _ Hc _ _]. cbn [id]. rewrite He. by apply Hk. Qed.

(** ** Automation *)
Create HintDb vt.

(** Evaluates the widths of the VMCS fields. *)
Ltac widths :=
  repeat match goal with
  | |- context [field_width ?f] => let w := eval vm_compute in (field_width f) in change (field_width f) with w
  | H : context [field_width ?f] |- _ => let w := eval vm_compute in (field_width f) in change (field_width f) with w in H
  end; cbn [vfield_ok preg_width reg_width] in *.

Lemma width_const w v : (0 <=? v) && (v <? 2 ^ w) = true → in_width w v.
Proof. intros [? ?]%andb_true_iff. split; lia. Qed.
Lemma in_width_land w a b : 0 ≤ w → in_width w a ∨ in_width w b → in_width w (Z.land a b).
Proof. intros Hw [?|?]; [rewrite Z.land_comm|]; by apply in_width_land_r. Qed.
Lemma in_width_shr32 v : in_width 64 v → in_width 32 (Z.shiftr v 32).
Proof. unfold in_width. intros Hv. rewrite Z.shiftr_div_pow2 by lia. split; [apply Z.div_pos; lia|]. apply Z.div_lt_upper_bound; lia. Qed.

Ltac const_width :=
  match goal with |- in_width _ ?v =>
    tryif (match v with context [?x] => is_var x end) then fail else (apply width_const; vm_compute; reflexivity) end.

(** Proves that a value fits its width. *)
Ltac width :=
  widths;
  try match goal with
  | |- in_width _ (u64 _) => apply in_width_u64
  | |- in_width _ (u32 _) => eapply in_width_mono; [apply in_width_u32|lia]
  | |- in_width _ (u8 _) => eapply in_width_mono; [apply in_width_u8|lia]
  end;
  solve
    [ assumption | const_width
    | eapply in_width_mono; [eassumption|lia]
    | repeat first
        [ assumption
        | match goal with |- in_width _ (if ?b then _ else _) => destruct b end
        | match goal with |- in_width ?w (Z.lor _ _) => apply in_width_lor; [lia| |] end
        | match goal with |- in_width ?w (Z.ldiff _ _) => apply in_width_ldiff; [lia|] end
        | const_width
        | match goal with |- in_width ?w (Z.land ?a ?b) =>
            first [ apply in_width_land_r; [lia|const_width]
                  | apply in_width_land; [lia|left] | apply in_width_land; [lia|right] ] end
        | eapply in_width_mono; [eassumption|lia]
        | eapply in_width_mono; [apply in_width_shr32; eassumption|lia] ] ].

(** Proves that an update keeps the processor well-formed. *)
Ltac core_go :=
  repeat first
    [ assumption
    | solve [eauto 2 with core]
    | apply core_set_gpr; [try width|] | apply core_set_field; [try width|] | apply core_set_serial; [try width|] ].

(** Walks through a computation.  What it cannot prove it leaves. *)
Ltac vt_one :=
  match goal with
  | |- rtyped _ _ (mret _) _ => apply rt_ret; try done
  | |- rtyped _ _ (throw _) _ => apply rt_throw
  | |- rtyped _ _ (@mbind _ _ () _ _ _) _ => apply (rt_bind sim (λ _, True)); [|intros _ _]
  | |- rtyped _ _ (gets id ≫= _) _ => apply vt_get; [reflexivity|intros ? ?]
  | |- rtyped _ _ (rdtsc ≫= _) _ => apply vt_rdtsc; intros ? ? ? ?
  | |- rtyped _ _ (vmread _ ≫= _) _ => eapply rt_bind; [apply vt_vmread|intros ? ?]
  | |- rtyped _ _ (map_err _ (vmread _) ≫= _) _ => eapply rt_bind; [apply vt_map_err, vt_vmread|intros ? ?]
  | |- rtyped _ _ (unwrap_or _ (vmread _) ≫= _) _ =>
      eapply rt_bind; [apply vt_unwrap_or; [|apply vt_vmread]; [width]|intros ? ?]
  | |- rtyped _ _ (get_field _ ≫= _) _ => eapply rt_bind; [apply vt_get_field|intros ? ?]
  | |- rtyped _ _ (get_gpr _ ≫= _) _ => eapply rt_bind; [apply vt_get_gpr|intros ? ?]
  | |- rtyped _ _ (gets _ ≫= _) _ =>
      apply (rt_bind sim (λ _, True)); [apply vt_gets; [reflexivity|done]|intros ? _]
  | |- rtyped _ _ (map_err _ _) _ => apply vt_map_err
  | |- rtyped _ _ (handler _) _ => apply (vt_handler (λ _, True))
  | |- rtyped _ _ (vmread _) _ => eapply rt_conseq; [apply vt_vmread|done]
  | |- rtyped _ _ (vmwrite _ _) _ => apply vt_vmwrite; try width
  | |- rtyped _ _ (if ?b then _ else _) (if ?b then _ else _) => destruct b eqn:?
  | |- rtyped _ _ (match ?o with Some _ => _ | None => _ end) (match ?o with Some _ => _ | None => _ end) => destruct o eqn:?
  | |- rtyped _ _ (match ?o with inl _ => _ | inr _ => _ end) (match ?o with inl _ => _ | inr _ => _ end) => destruct o eqn:?
  | |- rtyped _ _ _ _ => solve [eauto with vt]
  | |- rtyped _ _ (modify (bump _ _)) _ => apply vt_stats; intros; eexists; reflexivity
  | |- rtyped _ _ (modify (λ s, with_stats _ s)) _ => apply vt_stats; intros; eexists; reflexivity
  | |- rtyped _ _ (modify _) _ =>
      apply sim_modify; [reflexivity|reflexivity|reflexivity|intros; core_go]
  end.
Ltac vt_go := repeat (cbv beta zeta; vt_one).

Lemma vt_advance_rip : vt (λ _, True) advance_rip advance_rip.
Proof. unfold advance_rip, read_guest_rip, read_instruction_len. vt_go. Qed.
#[export] Hint Resolve vt_advance_rip : vt.

Lemma info_encode_width i : in_width 8 (ii_vector i) → in_width 32 (info_encode i).
Proof.
  intros Hv. unfold info_encode. cbv zeta. assert (in_width 32 (ii_vector i)) as Hv' by (eapply in_width_mono; [exact Hv|lia]).
  assert (in_width 32 (Z.shiftl (interruption_type_bits (ii_type i)) 8)) by (destruct (ii_type i); apply width_const; reflexivity).
  destruct (ii_error_code_valid i), (ii_nmi_unblocking i), (ii_valid i);
    repeat (apply in_width_lor; [lia| |]); try done; apply width_const; reflexivity.
Qed.
Lemma vt_inject_exception i ec :
  in_width 8 (ii_vector i) → (∀ c, ec = Some c → in_width 32 c) → vt (λ _, True) (inject_exception i ec) (inject_exception i ec).
Proof.
  intros Hv Hc. unfold inject_exception. vt_go.
  - widths. by apply info_encode_width.
  - widths. by apply Hc.
Qed.
Lemma vt_emit_randomness p bs : vt (λ _, True) (emit_randomness_event p bs) (emit_randomness_event p bs).
Proof.
  unfold emit_randomness_event. vt_one.
  apply (vt_emit _ (λ t, OAppend Randomness (random_bytes p ++ take RANDOM_REPLY_MAX bs) a t)); [done|done|].
  intros t b Ht. split; [done|]. split; [done|]. split; [|done].
  rewrite length_app, length_take. unfold random_bytes. rewrite length_encode by done. change (sum_list random_layout) with 16%nat. unfold RANDOM_REPLY_MAX. lia.
Qed.
#[export] Hint Resolve vt_inject_exception vt_emit_randomness : vt.
