(* ===== verification/Precise.v ===== *)
(** * Precise exits and interrupt injection (crate [bedrock-vmx]:
    [exits/pebs.rs], [exits/interrupts.rs], the time-keeping half of
    [exits/mod.rs])

    Virtual time is the number of retired guest instructions plus an offset.  To
    deliver an interrupt at an exact virtual time the hypervisor arms a counter
    that stops the guest a few instructions early and single-steps the rest.
    This file models the arming, the single-step window, the injection of
    interrupts before an entry, and the classification of exits; its theorems
    show that, between two exits and with a skid below the margin, the guest cannot run
    past the time of the next event, and so that a timer that is the next event is raised
    exactly at its deadline; examples show where this is lost. *)
From stdpp Require Import strings.
From S2P Require Import Prelude Wire EventLog Random Rtc Apic Vcpu.

(** ** Margins ([exits/pebs.rs]) *)
Definition PEBS_MIN_DELTA : Z := 257.
Definition PMC_COUNTER_MASK : Z := Z.shiftl 1 48 - 1.

(** [host_family_model], of the EAX that CPUID leaf 1 returns. *)
Definition host_family_model (eax : Z) : Z * Z :=
  let base_model := Z.land (Z.shiftr eax 4) 0xF in
  let base_family := Z.land (Z.shiftr eax 8) 0xF in
  let ext_model := Z.land (Z.shiftr eax 16) 0xF in
  let ext_family := Z.land (Z.shiftr eax 20) 0xFF in
  let model := if (base_family =? 0x6) || (base_family =? 0xF) then Z.lor (Z.shiftl ext_model 4) base_model
               else base_model in
  let family := if base_family =? 0xF then base_family + ext_family else base_family in
  (family, model).

Definition margin_for_host_cpu (eax : Z) : Z :=
  let '(family, model) := host_family_model eax in
  if (family =? 0x6) && (model =? 0x8F) then 3 else if (family =? 0x6) && (model =? 0x6A) then 8 else 8.

(** [PEBS_MARGIN_CACHE]: the cached margin and the value returned. *)
Definition get_pebs_margin_cached (eax cached : Z) : Z * Z :=
  if negb (cached =? u64_MAX) then (cached, cached)
  else let margin := margin_for_host_cpu eax in (margin, margin).

Inductive ArmResult := Armed | AlreadyPast | BelowMinDelta | NotRegistered.
#[export] Instance ArmResult_eq_dec : EqDecision ArmResult.
Proof. solve_decision. Defined.

Definition disarm_precise_exit (pebs : PebsState) : PebsState := set_armed None pebs.

(** The I/O channel's pin of the I/O APIC, which has 24 entries. *)
Definition IO_CHANNEL_IRQ : Z := 9.
Definition io_channel_entry s : Z := nth (Z.to_nat IO_CHANNEL_IRQ) (redtbl (ioapic s)) 0.
Definition io_entry_unready (entry : Z) : bool :=
  negb (Z.land (Z.shiftr entry 16) 1 =? 0) || (Z.land entry 0xFF <? 16).

Section Host.
(** The EAX of the host's CPUID leaf 1. *)
Context (cpuid1_eax : Z).

Definition get_pebs_margin : Z := margin_for_host_cpu cpuid1_eax.

Definition arm_precise_exit (pebs : PebsState) (current_tsc target_tsc action inst_count_now tsc_offset_now : Z)
    : ArmResult * PebsState :=
  if target_tsc <? current_tsc then (AlreadyPast, pebs)
  else
    let pebs_margin := get_pebs_margin in
    let delta := target_tsc - current_tsc in
    if delta <? PEBS_MIN_DELTA + pebs_margin then (BelowMinDelta, pebs)
    else
      let encoded_delta := delta - pebs_margin in
      let pebs := pset CounterReload (Z.land (u64 (- encoded_delta)) PMC_COUNTER_MASK) pebs in
      let pebs := pset ArmedTargetTsc (target_tsc - pebs_margin) pebs in
      let pebs := pset ArmedInstCount inst_count_now pebs in
      let pebs := pset ArmedTscOffset tsc_offset_now pebs in
      let pebs := pset ItersSinceArm 0 pebs in
      let pebs := set_armed (Some action) pebs in
      (Armed, mkPebs (preg_of pebs) (armed_action pebs) true).

(** ** Targets ([exits/mod.rs]) *)
Definition next_timer_exit_count s : option Z :=
  let a := apic s in
  if areg_of a ATimerDeadline =? 0 then None
  else if Z.land (areg_of a ASvr) (Z.shiftl 1 8) =? 0 then None
  else if negb (Z.land (areg_of a ALvtTimer) (Z.shiftl 1 16) =? 0) then None
  else Some (areg_of a ATimerDeadline -| vfields s TscOffset).

Definition next_io_channel_target_tsc s : option Z :=
  let chan := io_channel s in
  if page_gpa chan =? 0 then None
  else if (request_len chan =? 0) || request_delivered chan then None
  else if request_target_tsc chan =? 0 then None
  else if io_entry_unready (io_channel_entry s) then None
  else Some (request_target_tsc chan).

Definition next_io_channel_exit_count s : option Z :=
  (λ t, t -| vfields s TscOffset) <$> next_io_channel_target_tsc s.

(** [last_instruction_count + tsc_offset], plain [u64] additions. *)
Definition current_tsc s : Z := u64 (vfields s LastInstructionCount + vfields s TscOffset).

Definition next_single_step_start_tsc s : option Z :=
  match single_step_tsc_range s with
  | None => None
  | Some (start, _) => if current_tsc s <? start then Some start else None
  end.
Definition next_single_step_start_count s : option Z :=
  (λ t, t -| vfields s TscOffset) <$> next_single_step_start_tsc s.
Definition stop_at_count s : option Z := (λ t, t -| vfields s TscOffset) <$> stop_at_tsc s.

Definition in_single_step_range s : bool :=
  match single_step_tsc_range s with
  | Some (start, end_) => (start <=? current_tsc s) && (current_tsc s <? end_)
  | None => false
  end.

Definition get_mtf_margin : Z := PEBS_MIN_DELTA + get_pebs_margin.

Definition in_margin (count : Z) (target : option Z) : bool :=
  match target with Some t => (t -| get_mtf_margin <=? count) && (count <? t) | None => false end.

Definition update_mtf_state : VM () :=
  s ← gets id;
  let count := vfields s LastInstructionCount in
  let in_pebs_margin :=
    match pebs_state s with Some _ => true | None => false end &&
    (in_margin count (next_timer_exit_count s) || in_margin count (next_io_channel_exit_count s)
     || in_margin count (stop_at_count s) || in_margin count (next_single_step_start_count s)) in
  let should_enable := in_single_step_range s || in_pebs_margin in
  if negb (eqb should_enable (mtf_enabled s)) then
    controls ← map_err (EFatal "Failed to read primary controls for MTF") (vmread PrimaryProcBasedVmExecControls);
    let controls := if should_enable then Z.lor controls MONITOR_TRAP_FLAG else Z.ldiff controls MONITOR_TRAP_FLAG in
    map_err (EFatal "Failed to write primary controls for MTF") (vmwrite PrimaryProcBasedVmExecControls controls);;
    modify (with_mtf_enabled should_enable)
  else mret ().

(** ** Arming before an entry ([exits/pebs.rs]) *)
Definition option_min (l : list (option Z)) : option Z :=
  foldr (λ o acc, match o, acc with
                  | Some t, Some m => Some (Z.min t m) | Some t, None => Some t | None, m => m end) None l.

Definition arm_targets s : list (option Z) :=
  [ (if areg_of (apic s) ATimerDeadline =? 0 then None else Some (areg_of (apic s) ATimerDeadline));
    next_io_channel_target_tsc s; stop_at_tsc s; next_single_step_start_tsc s ].

Definition arm_for_next_iteration s : Vcpu :=
  let inst_count := vfields s LastInstructionCount in
  let tsc_offset := vfields s TscOffset in
  let current := u64 (inst_count + tsc_offset) in
  let apic_vector := Z.land (areg_of (apic s) ALvtTimer) 0xFF in
  let chosen_target := default 0 (option_min (arm_targets s)) in
  match pebs_state s with
  | None => s
  | Some pebs =>
      let prev_armed := match armed_action pebs with Some _ => true | None => false end in
      let pebs := if prev_armed then pset ItersSinceArm (Z.min (2 ^ 32 - 1) (preg_of pebs ItersSinceArm + 1)) pebs else pebs in
      let '(result, pebs) :=
        if negb (chosen_target =? 0) then
          let '(r, pebs) := arm_precise_exit pebs current chosen_target apic_vector inst_count tsc_offset in
          (Some r, if decide (r = Armed) then pebs else disarm_precise_exit pebs)
        else (None, disarm_precise_exit pebs) in
      let s := with_pebs_state (Some pebs) s in
      let s := if prev_armed then bump PebsArmedIterNoFire 1 s else s in
      match result with
      | Some AlreadyPast => bump PebsArmAlreadyPast 1 s
      | Some BelowMinDelta => bump PebsArmBelowMinDelta 1 s
      | _ => s
      end
  end.

(** ** Interrupts ([exits/interrupts.rs]) *)
(** [InjectSource::Timer as u8] *)
Definition INJECT_SOURCE_TIMER : Z := 0.

Definition check_apic_timer : VM () :=
  s ← gets id;
  let current_tsc := vfields s EmulatedTsc in
  let timer_deadline := areg_of (apic s) ATimerDeadline in
  match apic_timer_check current_tsc (apic s) with
  | (None, _) => mret ()
  | (Some vector, apic') =>
      (if timer_deadline <? current_tsc then modify (bump ApicTimerLateInject 1) else mret ());;
      modify (with_apic apic');;
      emit (λ t es, event_append Inject (inject_bytes (mkInject vector (INJECT_SOURCE_TIMER) timer_deadline)) current_tsc t es)
  end.

Definition check_io_channel : VM () :=
  s ← gets id;
  let chan := io_channel s in
  if page_gpa chan =? 0 then mret ()
  else if request_len chan =? 0 then mret ()
  else if request_delivered chan then mret ()
  else if negb (request_target_tsc chan =? 0) && (vfields s EmulatedTsc <? request_target_tsc chan) then mret ()
  else if io_entry_unready (io_channel_entry s) then mret ()
  else
    apic' ← demand (λ s, ioapic_deliver_irq IO_CHANNEL_IRQ (ioapic s) (apic s));
    modify (with_apic apic');;
    modify (λ s, with_io_channel (set_request_delivered (io_channel s)) s);;
    s ← gets id;
    let chan := io_channel s in
    emit (λ t es, event_emit_io_channel (mkIo (phase_u8 Request) (request_target_tsc chan)) (request_buf chan)
                    (response_buf chan) (request_len chan) (response_len chan) (vfields s EmulatedTsc) t es).

Definition enable_interrupt_window_exiting : VM () :=
  controls ← vmread PrimaryProcBasedVmExecControls;
  if Z.land controls INTR_WINDOW_EXITING =? 0
  then vmwrite PrimaryProcBasedVmExecControls (Z.lor controls INTR_WINDOW_EXITING) else mret ().

Definition disable_interrupt_window_exiting : VM () :=
  controls ← vmread PrimaryProcBasedVmExecControls;
  if negb (Z.land controls INTR_WINDOW_EXITING =? 0)
  then vmwrite PrimaryProcBasedVmExecControls (Z.ldiff controls INTR_WINDOW_EXITING) else mret ().

Definition reinject_vectored_event : VM bool :=
  idt_info ← vmread IdtVectoringInfo;
  if Z.land idt_info (Z.shiftl 1 31) =? 0 then mret false
  else
    vmwrite VmEntryInterruptionInfo idt_info;;
    (if negb (Z.land idt_info (Z.shiftl 1 11) =? 0) then
       error_code ← vmread IdtVectoringErrorCode;
       vmwrite VmEntryExceptionErrorCode error_code
     else mret ());;
    mret true.

(** The eligibility of a new injection, with the two checks that raise
    interrupts; [&&] evaluates from left to right. *)
Definition inject_eligible : VM bool :=
  reinjected ← reinject_vectored_event;
  if reinjected : bool then mret false
  else
    s ← gets id;
    if negb (last_exit_deterministic s) then mret false
    else
      pending ← unwrap_or 0 (vmread VmEntryInterruptionInfo);
      if negb (Z.land pending (Z.shiftl 1 31) =? 0) then mret false
      else check_apic_timer;; check_io_channel;; mret true.

Definition deliver_pending : VM () :=
  s ← gets id;
  match apic_pending_vector (apic s) with
  | None => mret ()
  | Some vector =>
      rflags ← vmread GuestRflags;
      if Z.land rflags (Z.shiftl 1 9) =? 0 then enable_interrupt_window_exiting
      else
        interruptibility ← vmread GuestInterruptibilityState;
        if negb (Z.land interruptibility 0x3 =? 0) then enable_interrupt_window_exiting
        else
          inject_exception (external_interrupt vector) None;;
          modify (λ s, with_apic (apic_accept vector (apic s)) s);;
          disable_interrupt_window_exiting
  end.

Definition inject_pending_interrupt : VM () :=
  eligible ← inject_eligible;
  modify arm_for_next_iteration;;
  if eligible : bool then deliver_pending else mret ().

(** ** The exit of a precise arming ([handle_pebs_precise_exit]) *)
Definition i64 (z : Z) : Z := if u64 z <? 2 ^ 63 then u64 z else u64 z - 2 ^ 64.

Definition handle_pebs_precise_exit : VM ExitHandlerResult :=
  s ← gets id;
  let inst_count_now := vfields s LastInstructionCount in
  let tsc_offset_now := vfields s TscOffset in
  let current_tsc := inst_count_now +| tsc_offset_now in
  let r := match pebs_state s with Some p => preg_of p | None => λ _, 0 end in
  (if negb (r ArmedTargetTsc =? 0) then
     let arm_current := r ArmedInstCount +| r ArmedTscOffset in
     let arm_delta := r ArmedTargetTsc -| arm_current in
     let skid := i64 (i64 current_tsc - i64 (r ArmedTargetTsc)) in
     modify (set_field LastPebsSkid skid);;
     modify (λ s, with_stats (λ t, if decide (t = MaxPebsSkid) then Z.max (stats s MaxPebsSkid) skid else stats s t) s);;
     modify (set_field LastPebsInstDelta (i64 (i64 inst_count_now - i64 (r ArmedInstCount))));;
     modify (set_field LastPebsTscOffsetDelta (i64 (i64 tsc_offset_now - i64 (r ArmedTscOffset))));;
     modify (set_field LastPebsItersSinceArm (r ItersSinceArm));;
     modify (set_field LastPebsArmDelta arm_delta)
   else mret ());;
  modify (λ s, with_pebs_state (set_armed None <$> pebs_state s) s);;
  mret Continue.

(** ** Which exits are deterministic ([handle_exit]) *)
Definition APIC_BASE : Z := 0xFEE00000.
Definition APIC_SIZE : Z := 0x1000.
Definition IOAPIC_BASE : Z := 0xFEC00000.
Definition IOAPIC_SIZE : Z := 0x1000.
Definition ept_write (qual : Z) : bool := has qual (Z.shiftl 1 1).
Definition ept_asynchronous (qual : Z) : bool := has qual (Z.shiftl 1 16).
Definition is_pebs_induced (qual : Z) : bool := ept_asynchronous qual && ept_write qual.

Definition on_target (count : Z) (t : option Z) : bool := match t with Some target => count =? target | None => false end.

Definition non_deterministic_exit (reason : ExitReason) (qual : Z) s : bool :=
  match reason with
  | ExternalInterrupt | VmxPreemptionTimer | ExceptionNmi => true
  | EptViolation =>
      if is_pebs_induced qual then true
      else
        let gpa := default 0 (vmcs s !! GuestPhysicalAddr) in
        negb (((APIC_BASE <=? gpa) && (gpa <? APIC_BASE + APIC_SIZE))
              || ((IOAPIC_BASE <=? gpa) && (gpa <? IOAPIC_BASE + IOAPIC_SIZE)))
  | MonitorTrapFlag =>
      let count := vfields s LastInstructionCount in
      let on_boundary := on_target count (next_timer_exit_count s) || on_target count (next_io_channel_exit_count s)
                         || on_target count (stop_at_count s) in
      negb (on_boundary || in_single_step_range s)
  | _ => false
  end.

(** The head of [handle_exit]: virtual time moves on deterministic exits only. *)
Definition note_exit (reason : ExitReason) (qual : Z) s : Vcpu :=
  let nondet := non_deterministic_exit reason qual s in
  let s := with_last_exit_deterministic (negb nondet) s in
  if negb nondet then set_field EmulatedTsc (current_tsc s) s else s.

(** The part of the state no injection touches. *)
Definition fixed s := (vfields s, stop_at_tsc s, single_step_tsc_range s, mtf_enabled s, ioapic s, last_exit_deterministic s).

Lemma reinject_keeps {A} (f : Vcpu → A) : (∀ s y, f (with_vmcs y s) = f s) → keeps f reinject_vectored_event.
Proof. intros H. unfold reinject_vectored_event. keeps_step; by apply keeps_vmwrite. Qed.

(** What the schedule of events is made of, besides [fixed]. *)
Definition sched s := (fixed s, areg_of (apic s), io_channel s, pebs_state s).

Lemma deliver_keeps : keeps sched deliver_pending.
Proof.
  unfold deliver_pending, enable_interrupt_window_exiting, disable_interrupt_window_exiting, inject_exception.
  keeps_step.
Qed.

(** ** The injection leaves the schedule, but for what it fires *)
Lemma check_apic_timer_effect s :
  let s' := (check_apic_timer s).2 in
  (check_apic_timer s).1 = Done () ∧ fixed s' = fixed s ∧ io_channel s' = io_channel s ∧ pebs_state s' = pebs_state s ∧
  apic s' = (apic_timer_check (vfields s EmulatedTsc) (apic s)).2.
Proof.
  unfold check_apic_timer, mbind, M_bind, gets. cbn. rewrite apic_timer_check_due.
  destruct (timer_due (vfields s EmulatedTsc) (apic s)); [|done]. cbv zeta.
  by destruct (areg_of (apic s) ATimerDeadline <? vfields s EmulatedTsc).
Qed.

Lemma ioapic_deliver_irq_regs irq i a a' : ioapic_deliver_irq irq i a = Some a' → areg_of a' = areg_of a.
Proof.
  unfold ioapic_deliver_irq. case_match; [by intros [= ->]|]. destruct (redtbl i !! Z.to_nat irq) as [e|]; [|done].
  cbn [mbind option_bind]. intros Ha%(inj Some). subst a'. repeat case_match; done.
Qed.

Lemma check_io_channel_effect s :
  let s' := (check_io_channel s).2 in
  fixed s' = fixed s ∧ areg_of (apic s') = areg_of (apic s) ∧ pebs_state s' = pebs_state s ∧
  (io_channel s' = io_channel s ∨ io_channel s' = set_request_delivered (io_channel s)).
Proof.
  unfold check_io_channel, mbind, M_bind, gets, demand. cbn. cbv zeta.
  destruct (_ =? 0); [by auto|]. destruct (_ =? 0); [by auto|]. destruct (request_delivered _); [by auto|].
  destruct (_ && _); [by auto|]. destruct (io_entry_unready _); [by auto|].
  destruct (ioapic_deliver_irq _ _ _) as [a'|] eqn:Hd; cbn; [|by auto].
  apply ioapic_deliver_irq_regs in Hd. by auto.
Qed.

(** The timer's deadline after an injection: fired, or as it was. *)
Definition fires s : bool := last_exit_deterministic s && timer_due (vfields s EmulatedTsc) (apic s).
Definition next_deadline s : Z :=
  if timer_periodic (apic s) then u64 (vfields s EmulatedTsc + timer_period (apic s)) else 0.

Record injected s s' : Prop := {
  in_fixed : fixed s' = fixed s;
  in_pebs : pebs_state s' = pebs_state s;
  in_io : io_channel s' = io_channel s ∨ io_channel s' = set_request_delivered (io_channel s);
  in_regs r : r ≠ ATimerDeadline → areg_of (apic s') r = areg_of (apic s) r;
  in_deadline : areg_of (apic s') ATimerDeadline = areg_of (apic s) ATimerDeadline ∨
    (fires s = true ∧ areg_of (apic s') ATimerDeadline = next_deadline s);
}.

Lemma sched_fixed s s' : sched s' = sched s → fixed s' = fixed s.
Proof. intros H. exact (f_equal (λ t, t.1.1.1) H). Qed.
Lemma sched_regs s s' : sched s' = sched s → areg_of (apic s') = areg_of (apic s).
Proof. intros H. exact (f_equal (λ t, t.1.1.2) H). Qed.
Lemma sched_io s s' : sched s' = sched s → io_channel s' = io_channel s.
Proof. intros H. exact (f_equal (λ t, t.1.2) H). Qed.
Lemma sched_pebs s s' : sched s' = sched s → pebs_state s' = pebs_state s.
Proof. intros H. exact (f_equal (λ t, t.2) H). Qed.
Lemma fixed_vfields s s' : fixed s' = fixed s → vfields s' = vfields s.
Proof. intros H. exact (f_equal (λ t, t.1.1.1.1.1) H). Qed.
Lemma fixed_stop s s' : fixed s' = fixed s → stop_at_tsc s' = stop_at_tsc s.
Proof. intros H. exact (f_equal (λ t, t.1.1.1.1.2) H). Qed.
Lemma fixed_range s s' : fixed s' = fixed s → single_step_tsc_range s' = single_step_tsc_range s.
Proof. intros H. exact (f_equal (λ t, t.1.1.1.2) H). Qed.
Lemma fixed_mtf s s' : fixed s' = fixed s → mtf_enabled s' = mtf_enabled s.
Proof. intros H. exact (f_equal (λ t, t.1.1.2) H). Qed.
Lemma fixed_ioapic s s' : fixed s' = fixed s → ioapic s' = ioapic s.
Proof. intros H. exact (f_equal (λ t, t.1.2) H). Qed.
Lemma fixed_det s s' : fixed s' = fixed s → last_exit_deterministic s' = last_exit_deterministic s.
Proof. intros H. exact (f_equal (λ t, t.2) H). Qed.

Lemma injected_refl s s' : sched s' = sched s → injected s s'.
Proof.
  intros H. constructor; [by apply sched_fixed|by apply sched_pebs|left; by apply sched_io|intros r _|left];
    by rewrite (sched_regs _ _ H).
Qed.

(** The two checks, in order. *)
Lemma checks_injected s s' :
  last_exit_deterministic s = true → s' = (check_io_channel (check_apic_timer s).2).2 → injected s s'.
Proof.
  intros Hdet ->. destruct (check_apic_timer_effect s) as (_ & Hf1 & Hi1 & Hp1 & Ha1).
  destruct (check_io_channel_effect (check_apic_timer s).2) as (Hf2 & Ha2 & Hp2 & Hi2).
  set (s1 := (check_apic_timer s).2) in *. rewrite Ha1, apic_timer_check_due in Ha2. rewrite Hi1 in Hi2.
  constructor; [by rewrite Hf2|by rewrite Hp2|done|..].
  - intros r Hr. rewrite Ha2. destruct (timer_due _ _); [|done]. cbn. by case_decide.
  - unfold fires, next_deadline. rewrite Ha2, Hdet. destruct (timer_due _ _); [right|by left]. split; [done|].
    cbn. by case_decide.
Qed.

Lemma inject_eligible_injected s : injected s (inject_eligible s).2.
Proof.
  unfold inject_eligible, mbind at 1, M_bind at 1.
  assert (sched (reinject_vectored_event s).2 = sched s) as H0 by (apply reinject_keeps; done).
  destruct (reinject_vectored_event s) as [[b|e|] s0]; cbn [snd fst] in *; [|by apply injected_refl..].
  destruct b; [by apply injected_refl|]. unfold mbind at 1, M_bind at 1, gets at 1. cbn [id].
  destruct (last_exit_deterministic s0) eqn:Hdet; cbn [negb]; [|by apply injected_refl].
  assert (sched (unwrap_or 0 (vmread VmEntryInterruptionInfo) s0).2 = sched s0) as H1
    by (apply keeps_unwrap_or, keeps_vmread).
  unfold mbind at 1, M_bind at 1.
  destruct (unwrap_or 0 (vmread VmEntryInterruptionInfo) s0) as [[p|e|] s1]; cbn [snd fst] in *;
    rewrite H0 in H1; [|by apply injected_refl..].
  destruct (negb _); [by apply injected_refl|].
  assert (injected s1 ((check_apic_timer;; check_io_channel;; mret true) s1).2) as Hin.
  { apply checks_injected.
    { rewrite (fixed_det _ _ (sched_fixed _ _ H1)). rewrite <-(fixed_det _ _ (sched_fixed _ _ H0)). done. }
    unfold mbind at 1, M_bind at 1. destruct (check_apic_timer_effect s1) as [Hd _].
    destruct (check_apic_timer s1) as [[[]|e|] s2]; cbn [fst snd] in *; [|done..].
    unfold mbind, M_bind. destruct (check_io_channel s2) as [[[]|e|] s3]; done. }
  destruct Hin as [Hf Hp Hi Hr Hd]. unfold fires, next_deadline in Hd.
  rewrite (fixed_det _ _ (sched_fixed _ _ H1)), (fixed_vfields _ _ (sched_fixed _ _ H1)) in Hd.
  pose proof (sched_regs _ _ H1) as Ha. unfold timer_due, timer_periodic, timer_period, apic_enabled in Hd. rewrite Ha in Hd.
  constructor; [by rewrite Hf; apply sched_fixed|by rewrite Hp; apply sched_pebs|..].
  - by rewrite (sched_io _ _ H1) in Hi.
  - intros r Hne. by rewrite Hr, Ha.
  - unfold fires, next_deadline, timer_due, timer_periodic, timer_period, apic_enabled. done.
Qed.

(** Arming changes nothing but the arming and its statistics. *)
Lemma arm_keeps s :
  let s' := arm_for_next_iteration s in
  fixed s' = fixed s ∧ areg_of (apic s') = areg_of (apic s) ∧ io_channel s' = io_channel s ∧ vmcs s' = vmcs s.
Proof.
  unfold arm_for_next_iteration. cbv zeta. destruct (pebs_state s) as [p|]; [|done].
  destruct (if negb _ then _ else _) as [r p']. destruct r as [[]|]; destruct (match armed_action p with Some _ => _ | None => _ end); done.
Qed.

Lemma inject_pending_interrupt_split s s' :
  inject_pending_interrupt s = (Done (), s') →
  ∃ sp, injected s sp ∧ sched s' = sched (arm_for_next_iteration sp).
Proof.
  unfold inject_pending_interrupt, mbind at 1, M_bind at 1. pose proof (inject_eligible_injected s) as Hin.
  destruct (inject_eligible s) as [[b|e|] sp]; cbn [snd] in Hin; [|done..].
  unfold mbind, M_bind, modify. intros H. exists sp. split; [done|]. destruct b.
  - pose proof (deliver_keeps (arm_for_next_iteration sp)) as Hk. by rewrite H in Hk.
  - by injection H as <-.
Qed.

(** ** Where the armed counter stops the guest *)
Lemma margin_range : 3 ≤ get_pebs_margin ≤ 8.
Proof. unfold get_pebs_margin, margin_for_host_cpu. destruct (host_family_model cpuid1_eax). repeat case_match; lia. Qed.

(** The counter overflows after this many instructions. *)
Definition overflow_distance (p : PebsState) : Z := 2 ^ 48 - preg_of p CounterReload.

Lemma reload_distance enc :
  0 < enc → 0 < 2 ^ 48 - Z.land (u64 (- enc)) PMC_COUNTER_MASK ≤ enc.
Proof.
  intros He. change PMC_COUNTER_MASK with (Z.ones 48). rewrite Z.land_ones by lia. unfold u64, wrap.
  rewrite Z.mod_mod_divide by (by exists (2 ^ 16)).
  pose proof (Z.mod_pos_bound (- enc) (2 ^ 48) ltac:(lia)).
  split; [lia|]. Z.to_euclidean_division_equations. lia.
Qed.

Lemma option_min_spec l :
  match option_min l with
  | Some m => Some m ∈ l ∧ ∀ t, Some t ∈ l → m ≤ t
  | None => ∀ t, Some t ∉ l
  end.
Proof.
  induction l as [|o l IH]; cbn; [intros t; apply not_elem_of_nil|]. fold (option_min l) in *.
  destruct o as [x|], (option_min l) as [m|].
  - destruct IH as [Hin Hle]. split.
    + destruct (Z.min_spec x m) as [[_ ->]|[_ ->]]; [left|by right].
    + intros t [[= ->]|Ht]%elem_of_cons; [lia|]. specialize (Hle t Ht). lia.
  - split; [left|]. intros t [[= ->]|Ht]%elem_of_cons; [lia|]. by apply IH in Ht.
  - destruct IH as [Hin Hle]. split; [by right|]. intros t [[=]|Ht]%elem_of_cons. by apply Hle.
  - intros t [[=]|Ht]%elem_of_cons. by apply (IH t).
Qed.

Lemma arm_precise_exit_armed p cur t a ic off :
  0 ≤ cur → get_mtf_margin ≤ t - cur →
  let r := arm_precise_exit p cur t a ic off in
  r.1 = Armed ∧ armed_action r.2 = Some a ∧ 0 < overflow_distance r.2 ≤ t - cur - get_pebs_margin ∧
  preg_of r.2 ArmedTargetTsc = t - get_pebs_margin.
Proof.
  intros Hc Ht. pose proof margin_range. unfold get_mtf_margin, PEBS_MIN_DELTA in *. unfold arm_precise_exit.
  destruct (Z.ltb_spec t cur); [lia|]. destruct (Z.ltb_spec (t - cur) (PEBS_MIN_DELTA + get_pebs_margin)) as [Hlt|];
    [unfold PEBS_MIN_DELTA in Hlt; lia|].
  cbv zeta. split; [done|]. split; [done|]. split; [|done]. apply reload_distance. lia.
Qed.

(** A pending event cannot be overrun: the guest steps, or the armed counter stops
    it at least a margin before. *)
Definition covered s (tsc : Z) : Prop :=
  mtf_enabled s = true ∨
  ∃ p, pebs_state s = Some p ∧ is_Some (armed_action p) ∧ 0 < overflow_distance p ∧
       current_tsc s + overflow_distance p + get_pebs_margin ≤ tsc.

Lemma arm_covers s :
  pebs_state s ≠ None → (∀ t, Some t ∈ arm_targets s → get_mtf_margin ≤ t - current_tsc s) →
  ∀ t, Some t ∈ arm_targets s → covered (arm_for_next_iteration s) t.
Proof.
  intros Hp Hfar t Ht. right. pose proof (option_min_spec (arm_targets s)) as Hmin.
  destruct (option_min (arm_targets s)) as [m|] eqn:Hm; [|by apply Hmin in Ht]. destruct Hmin as [Hin Hle].
  assert (0 ≤ current_tsc s) by (apply in_width_u64).
  pose proof margin_range. assert (0 < m) by (specialize (Hfar m Hin); unfold get_mtf_margin, PEBS_MIN_DELTA in Hfar; lia).
  assert (current_tsc (arm_for_next_iteration s) = current_tsc s) as ->.
  { unfold current_tsc. by rewrite (fixed_vfields _ _ (proj1 (arm_keeps s))). }
  unfold arm_for_next_iteration. destruct (pebs_state s) as [p|]; [|done]. rewrite Hm. cbn [from_option id].
  rewrite (proj2 (Z.eqb_neq m 0)) by lia. cbn [negb]. fold (current_tsc s).
  set (p1 := if match armed_action p with Some _ => true | None => false end then _ else p).
  destruct (arm_precise_exit_armed p1 (current_tsc s) m (Z.land (areg_of (apic s) ALvtTimer) 0xFF)
    (vfields s LastInstructionCount) (vfields s TscOffset) ltac:(done) (Hfar m Hin)) as (Hr & Ha & Hd & _).
  destruct (arm_precise_exit p1 _ m _ _ _) as [r p2]. cbn [fst snd] in *. subst r. exists p2.
  destruct (decide (Armed = Armed)) as [_|]; [|done].
  split; [by destruct (match armed_action p with Some _ => _ | None => _ end)|]. split; [by eexists|].
  split; [lia|]. specialize (Hle t Ht). lia.
Qed.

(** ** The single-step window *)
Definition step_wanted s : bool :=
  in_single_step_range s ||
  match pebs_state s with Some _ => true | None => false end &&
  (in_margin (vfields s LastInstructionCount) (next_timer_exit_count s)
   || in_margin (vfields s LastInstructionCount) (next_io_channel_exit_count s)
   || in_margin (vfields s LastInstructionCount) (stop_at_count s)
   || in_margin (vfields s LastInstructionCount) (next_single_step_start_count s)).

Lemma update_mtf_state_done s s' :
  update_mtf_state s = (Done (), s') → ∃ v, s' = with_mtf_enabled (step_wanted s) (with_vmcs v s).
Proof.
  unfold update_mtf_state, mbind at 1, M_bind at 1, gets. cbn [id]. fold (step_wanted s). cbv zeta.
  destruct (negb (eqb (step_wanted s) (mtf_enabled s))) eqn:E.
  - unfold mbind, M_bind, map_err, vmread. destruct (vmcs s !! PrimaryProcBasedVmExecControls) as [c|] eqn:Hc; [|done].
    unfold vmwrite. rewrite Hc. intros [= <-]. by eexists.
  - intros [= <-]. exists (vmcs s). apply negb_false_iff, eqb_prop in E. rewrite E. by destruct s.
Qed.

Record timeline_ok s : Prop := {
  tl_count : 0 ≤ vfields s LastInstructionCount;
  tl_offset : 0 ≤ vfields s TscOffset;
  tl_bound : vfields s LastInstructionCount + vfields s TscOffset < 2 ^ 64;
}.

Lemma current_tsc_eq s : timeline_ok s → current_tsc s = vfields s LastInstructionCount + vfields s TscOffset.
Proof. intros [? ? ?]. unfold current_tsc, u64. apply wrap_small. split; lia. Qed.

Lemma outside_margin s t :
  timeline_ok s → in_margin (vfields s LastInstructionCount) (Some (t -| vfields s TscOffset)) = false →
  current_tsc s < t → get_mtf_margin ≤ t - current_tsc s.
Proof.
  intros Hok Hm Ht. rewrite current_tsc_eq in * by done. destruct Hok as [Hc Ho _]. pose proof margin_range.
  unfold in_margin, saturating_sub, get_mtf_margin, PEBS_MIN_DELTA in *.
  apply andb_false_iff in Hm as [Hm%Z.leb_gt|Hm%Z.ltb_ge]; lia.
Qed.

Lemma next_timer_exit_count_live s :
  areg_of (apic s) ATimerDeadline ≠ 0 → apic_enabled (apic s) = true →
  has (areg_of (apic s) ALvtTimer) (Z.shiftl 1 16) = false →
  next_timer_exit_count s = Some (areg_of (apic s) ATimerDeadline -| vfields s TscOffset).
Proof.
  intros Hd%Z.eqb_neq He Hm. unfold next_timer_exit_count. rewrite Hd. unfold apic_enabled, has in *.
  apply negb_true_iff in He. rewrite He. by rewrite Hm.
Qed.

Lemma step_wanted_false s :
  step_wanted s = false → pebs_state s ≠ None →
  in_margin (vfields s LastInstructionCount) (next_timer_exit_count s) = false ∧
  in_margin (vfields s LastInstructionCount) (next_io_channel_exit_count s) = false ∧
  in_margin (vfields s LastInstructionCount) (stop_at_count s) = false ∧
  in_margin (vfields s LastInstructionCount) (next_single_step_start_count s) = false.
Proof.
  unfold step_wanted. intros [_ H]%orb_false_iff Hp. destruct (pebs_state s); [|done]. cbn [andb] in H.
  rewrite !orb_false_iff in H. tauto.
Qed.

Definition timer_live s : Prop :=
  areg_of (apic s) ATimerDeadline ≠ 0 →
  apic_enabled (apic s) = true ∧ has (areg_of (apic s) ALvtTimer) (Z.shiftl 1 16) = false.

(** The targets of the state that enters the guest. *)
Section entry.
Context s s2 (Hm : mtf_enabled s = step_wanted s) (Hi : inject_pending_interrupt s = (Done (), s2)).

Lemma entry_split :
  ∃ sp, injected s sp ∧ sched s2 = sched (arm_for_next_iteration sp) ∧
    arm_targets s2 = arm_targets sp ∧ fixed sp = fixed s ∧ current_tsc s2 = current_tsc s.
Proof using Hi.
  destruct (inject_pending_interrupt_split _ _ Hi) as (sp & Hin & Hs). exists sp. split; [done|]. split; [done|].
  destruct (arm_keeps sp) as (Hf & Ha & Hio & _).
  pose proof (sched_fixed _ _ Hs) as Hf2. rewrite Hf in Hf2. split; [|split; [apply Hin|]].
  - unfold arm_targets, next_io_channel_target_tsc, next_single_step_start_tsc, io_channel_entry, current_tsc.
    by rewrite (sched_regs _ _ Hs), Ha, (sched_io _ _ Hs), Hio, (fixed_vfields _ _ Hf2), (fixed_stop _ _ Hf2),
      (fixed_range _ _ Hf2), (fixed_ioapic _ _ Hf2).
  - unfold current_tsc. by rewrite (fixed_vfields _ _ Hf2), (fixed_vfields _ _ (in_fixed _ _ Hin)).
Qed.

Lemma target_distance sp t :
  injected s sp → pebs_state s ≠ None → timeline_ok s → step_wanted s = false →
  (last_exit_deterministic s = true → vfields s EmulatedTsc = current_tsc s) →
  (fires s = true → timer_periodic (apic s) = true →
     get_mtf_margin ≤ timer_period (apic s) ∧ current_tsc s + timer_period (apic s) < 2 ^ 64) →
  timer_live sp → current_tsc s < t → Some t ∈ arm_targets sp → get_mtf_margin ≤ t - current_tsc s.
Proof using Type.
  clear Hm Hi s2.
  intros [Hf Hp Hio Hr Hd] Hpebs Htl Hsw Hclk Hper Hlive Ht.
  destruct (step_wanted_false _ Hsw Hpebs) as (M1 & M2 & M3 & M4). pose proof (fixed_vfields _ _ Hf) as Hv.
  intros [Hin|[Hin|[Hin|[Hin|[]%not_elem_of_nil]%elem_of_cons]%elem_of_cons]%elem_of_cons]%elem_of_cons.
  - destruct (Z.eqb_spec (areg_of (apic sp) ATimerDeadline) 0) as [|Hnz]; [done|]. injection Hin as ->.
    destruct (Hlive Hnz) as [He Hk]. unfold apic_enabled in He. rewrite Hr in He, Hk by done. cbn in Hd, He, Hk.
    destruct Hd as [Hd|[Hfire Hd]]; rewrite Hd in *.
    + rewrite next_timer_exit_count_live in M1 by done. by apply outside_margin.
    + unfold next_deadline in *. cbn in *. destruct (timer_periodic (apic s)) eqn:Hpp; [|done].
      destruct (Hper Hfire eq_refl) as [Hge Hlt]. apply andb_true_iff in Hfire as [Hdet _]. cbn in Hdet.
      rewrite (Hclk Hdet). destruct Htl as [? ? ?]. pose proof (current_tsc_eq s ltac:(by constructor)) as Hc.
      pose proof margin_range. unfold get_mtf_margin, PEBS_MIN_DELTA in *.
      unfold u64. rewrite wrap_small by (split; lia). lia.
  - unfold next_io_channel_target_tsc in Hin.
    assert (next_io_channel_target_tsc s = Some t) as E.
    { destruct Hio as [Hio|Hio]; rewrite Hio in Hin.
      - unfold next_io_channel_target_tsc, io_channel_entry in *. rewrite (fixed_ioapic _ _ Hf) in Hin. done.
      - cbn in Hin. rewrite orb_true_r in Hin. by destruct (page_gpa _ =? 0). }
    unfold next_io_channel_exit_count in M2. rewrite E in M2. by apply outside_margin.
  - rewrite (fixed_stop _ _ Hf) in Hin. cbn in Hin. unfold stop_at_count in M3. rewrite <-Hin in M3. by apply outside_margin.
  - unfold next_single_step_start_tsc, current_tsc in Hin. rewrite Hv, (fixed_range _ _ Hf) in Hin. cbn in Hin.
    assert (next_single_step_start_tsc s = Some t) as E by done.
    unfold next_single_step_start_count in M4. rewrite E in M4. by apply outside_margin.
Qed.

Lemma entry_covers :
  pebs_state s ≠ None → timeline_ok s →
  (last_exit_deterministic s = true → vfields s EmulatedTsc = current_tsc s) →
  (fires s = true → timer_periodic (apic s) = true →
     get_mtf_margin ≤ timer_period (apic s) ∧ current_tsc s + timer_period (apic s) < 2 ^ 64) →
  timer_live s2 → (∀ t, Some t ∈ arm_targets s2 → current_tsc s2 < t) →
  ∀ t, Some t ∈ arm_targets s2 → covered s2 t.
Proof using Hm Hi.
  intros Hpebs Htl Hclk Hper Hlive Hfut t Ht. destruct entry_split as (sp & Hin & Hs & Hat & Hf & Hcur).
  destruct (arm_keeps sp) as (Hfa & Haa & _). pose proof (sched_fixed _ _ Hs) as Hf2. rewrite Hfa in Hf2.
  assert (step_wanted s = true ∨ step_wanted s = false) as [Hsw|Hsw] by (destruct (step_wanted s); auto).
  { left. by rewrite (fixed_mtf _ _ Hf2), (fixed_mtf _ _ Hf), Hm. }
  assert (timer_live sp) as Hl.
  { unfold timer_live, apic_enabled in *. by rewrite (sched_regs _ _ Hs), Haa in Hlive. }
  assert (current_tsc sp = current_tsc s) as Hcs.
  { unfold current_tsc. by rewrite (fixed_vfields _ _ Hf). }
  destruct (arm_covers sp) with t as [Hc|(p & Hp & Ha & Hd & Hc)].
  - by rewrite (in_pebs _ _ Hin).
  - intros t' Ht'. rewrite Hcs. apply (target_distance sp); try done. rewrite <-Hcur. apply Hfut. by rewrite Hat.
  - by rewrite <-Hat.
  - left. by rewrite (fixed_mtf _ _ (sched_fixed _ _ Hs)).
  - right. exists p. rewrite (sched_pebs _ _ Hs). do 3 (split; [done|]).
    unfold current_tsc in *. by rewrite (fixed_vfields _ _ (sched_fixed _ _ Hs)).
Qed.

End entry.

(** Before every entry to the guest each pending event is covered.  After the
    single-step flag is brought up to date and interrupts are injected, either the
    guest is stepped one instruction at a time, or the counter is armed to stop it
    at least a margin before the earliest of the timer's deadline, the I/O
    request's time, the requested stop and the start of the single-step range.
    This supposes that the events still pending are in the future, that an armed
    timer is not masked, and that a periodic timer's period is not shorter than
    the single-step window. *)
Theorem entry_covers_targets s s1 s2
  (Hm : update_mtf_state s = (Done (), s1)) (Hi : inject_pending_interrupt s1 = (Done (), s2))
  (Hpebs : pebs_state s ≠ None) (Htl : timeline_ok s)
  (Hclk : last_exit_deterministic s = true → vfields s EmulatedTsc = current_tsc s)
  (Hper : fires s = true → timer_periodic (apic s) = true →
     get_mtf_margin ≤ timer_period (apic s) ∧ current_tsc s + timer_period (apic s) < 2 ^ 64)
  (Hlive : timer_live s2) (Hfuture : ∀ t, Some t ∈ arm_targets s2 → current_tsc s2 < t) :
  ∀ t, Some t ∈ arm_targets s2 → covered s2 t.
Proof.
  destruct (update_mtf_state_done _ _ Hm) as [v ->]. apply (entry_covers (with_mtf_enabled (step_wanted s) (with_vmcs v s)) s2 eq_refl Hi Hpebs); try done.
  destruct Htl. by constructor.
Qed.

(** ** Running up to a deadline *)

(** What the processor promises of one stay in the guest: with the monitor trap
    flag it retires one instruction and traps, or exits before it retires; else
    it does not trap, and an armed counter stops it less than a margin after it
    overflows. *)
Definition hardware_exit s (reason : ExitReason) (count' : Z) : Prop :=
  let count := vfields s LastInstructionCount in
  if mtf_enabled s then
    (reason = MonitorTrapFlag ∧ count' = count + 1) ∨ (reason ≠ MonitorTrapFlag ∧ count' = count)
  else
    reason ≠ MonitorTrapFlag ∧ count ≤ count' ∧
    ∀ p, pebs_state s = Some p → is_Some (armed_action p) → count' < count + overflow_distance p + get_pebs_margin.

(** A handler that leaves the schedule and virtual time alone: most do. *)
Record quiet s s' : Prop := {
  q_count : vfields s' LastInstructionCount = vfields s LastInstructionCount;
  q_offset : vfields s' TscOffset = vfields s TscOffset;
  q_emulated : vfields s' EmulatedTsc = vfields s EmulatedTsc;
  q_stop : stop_at_tsc s' = stop_at_tsc s;
  q_range : single_step_tsc_range s' = single_step_tsc_range s;
  q_ioapic : ioapic s' = ioapic s;
  q_det : last_exit_deterministic s' = last_exit_deterministic s;
  q_regs r : areg_of (apic s') r = areg_of (apic s) r;
  q_io : io_channel s' = io_channel s;
  q_pebs : pebs_state s ≠ None → pebs_state s' ≠ None;
}.

(** One iteration of the run loop: inject, stay in the guest, note the exit,
    handle it, bring the single-step flag up to date. *)
Inductive iteration s : Vcpu → Prop :=
| iteration_intro s2 reason qual count' vmcs' s4 s5 :
    inject_pending_interrupt s = (Done (), s2) →
    hardware_exit s2 reason count' →
    quiet (note_exit reason qual (set_field LastInstructionCount count' (with_vmcs vmcs' s2))) s4 →
    update_mtf_state s4 = (Done (), s5) →
    iteration s s5.

(** Iterations as long as the deadline has not come. *)
Inductive approaches (D : Z) : Vcpu → Vcpu → Prop :=
| approaches_here s : approaches D s s
| approaches_step s s' s'' : approaches D s s' → current_tsc s' < D → iteration s' s'' → approaches D s s''.

(** The timer's deadline [D] is the next event. *)
Definition later (D : Z) (t : option Z) : Prop := match t with Some t => D < t | None => True end.
Record timer_next (D : Z) s : Prop := {
  tn_deadline : areg_of (apic s) ATimerDeadline = D;
  tn_bound : 0 < D < 2 ^ 64;
  tn_enabled : apic_enabled (apic s) = true;
  tn_unmasked : has (areg_of (apic s) ALvtTimer) (Z.shiftl 1 16) = false;
  tn_io : later D (next_io_channel_target_tsc s);
  tn_stop : later D (stop_at_tsc s);
  tn_range : later D (fst <$> single_step_tsc_range s);
  tn_pebs : pebs_state s ≠ None;
  tn_timeline : timeline_ok s;
  tn_clock : last_exit_deterministic s = true → vfields s EmulatedTsc = current_tsc s;
  tn_mtf : mtf_enabled s = step_wanted s;
}.
Record on_time (D : Z) s : Prop := {
  ot_next : timer_next D s;
  ot_before : current_tsc s ≤ D;
  ot_exact : current_tsc s = D → last_exit_deterministic s = true;
}.

Lemma arm_pebs s : pebs_state s ≠ None → pebs_state (arm_for_next_iteration s) ≠ None.
Proof.
  unfold arm_for_next_iteration. cbv zeta. destruct (pebs_state s) as [p|]; [|done]. intros _.
  destruct (if negb _ then _ else _) as [r p'].
  destruct r as [[]|]; destruct (match armed_action p with Some _ => _ | None => _ end); done.
Qed.

(** An injection before the deadline does not touch the timer. *)
Section before_deadline.
Context (D : Z) s s2 (Hn : timer_next D s) (Hbefore : current_tsc s < D)
  (Hi : inject_pending_interrupt s = (Done (), s2)).

Lemma not_due : fires s = false.
Proof using Hn Hbefore.
  unfold fires, timer_due. destruct (last_exit_deterministic s) eqn:Hdet; [|done]. rewrite (tn_clock _ _ Hn Hdet), (tn_deadline _ _ Hn).
  rewrite (proj2 (Z.leb_gt D (current_tsc s))) by done. by rewrite andb_false_r.
Qed.

Lemma before_deadline_keeps :
  fixed s2 = fixed s ∧ (∀ r, areg_of (apic s2) r = areg_of (apic s) r) ∧ pebs_state s2 ≠ None ∧
  (io_channel s2 = io_channel s ∨ io_channel s2 = set_request_delivered (io_channel s)).
Proof using Hn Hbefore Hi.
  destruct (entry_split s s2 Hi) as (sp & Hin & Hs & _ & Hf & Hc). destruct (arm_keeps sp) as (Hfa & Haa & Hia & _).
  pose proof (sched_fixed _ _ Hs) as Hf2. rewrite Hfa, Hf in Hf2. split; [done|].
  rewrite (sched_regs _ _ Hs), Haa, (sched_io _ _ Hs), Hia, (sched_pebs _ _ Hs). split; [|split; [|apply Hin]].
  - intros r. destruct (decide (r = ATimerDeadline)) as [->|Hr]; [|by apply Hin].
    destruct (in_deadline _ _ Hin) as [?|[Hfire _]]; [done|]. by rewrite not_due in Hfire.
  - apply arm_pebs. rewrite (in_pebs _ _ Hin). apply Hn.
Qed.

Lemma io_target_later s' :
  ioapic s' = ioapic s → (io_channel s' = io_channel s ∨ io_channel s' = set_request_delivered (io_channel s)) →
  later D (next_io_channel_target_tsc s').
Proof using Hn.
  intros Hio [Hc|Hc]; unfold next_io_channel_target_tsc, io_channel_entry; rewrite Hio, Hc.
  - apply (tn_io _ _ Hn).
  - cbn. rewrite orb_true_r. by destruct (page_gpa _ =? 0).
Qed.

Lemma deadline_covered : covered s2 D.
Proof using Hn Hbefore Hi.
  destruct before_deadline_keeps as (Hf & Hr & Hp & Hio).
  assert (current_tsc s2 = current_tsc s) as Hc by (unfold current_tsc; by rewrite (fixed_vfields _ _ Hf)).
  apply (entry_covers s s2 (tn_mtf _ _ Hn) Hi); try apply Hn.
  - by rewrite not_due.
  - intros _. unfold apic_enabled. rewrite !Hr. split; apply Hn.
  - intros t. rewrite Hc.
    intros [Hin|[Hin|[Hin|[Hin|[]%not_elem_of_nil]%elem_of_cons]%elem_of_cons]%elem_of_cons]%elem_of_cons.
    + rewrite Hr, (tn_deadline _ _ Hn) in Hin. case_match; [done|]. by injection Hin as ->.
    + pose proof (io_target_later s2 (fixed_ioapic _ _ Hf) Hio) as Hl. rewrite <-Hin in Hl. cbn in Hl. lia.
    + pose proof (tn_stop _ _ Hn) as Hl. rewrite <-(fixed_stop _ _ Hf), <-Hin in Hl. cbn in Hl. lia.
    + pose proof (tn_range _ _ Hn) as Hl. unfold next_single_step_start_tsc in Hin. rewrite (fixed_range _ _ Hf) in Hin.
      destruct (single_step_tsc_range s) as [[a b]|]; [|done]. cbn in Hl. case_match; [|done]. injection Hin as ->. lia.
  - unfold arm_targets. rewrite Hr, (tn_deadline _ _ Hn). pose proof (tn_bound _ _ Hn).
    rewrite (proj2 (Z.eqb_neq D 0)) by lia. left.
Qed.

Lemma no_overrun reason count' :
  hardware_exit s2 reason count' →
  vfields s LastInstructionCount ≤ count' ∧ count' + vfields s TscOffset ≤ D ∧
  (count' + vfields s TscOffset = D → reason = MonitorTrapFlag).
Proof using Hn Hbefore Hi.
  destruct before_deadline_keeps as (Hf & _). pose proof deadline_covered as Hcov. unfold hardware_exit, covered, current_tsc in *.
  rewrite (fixed_vfields _ _ Hf) in *. fold (current_tsc s) in *. pose proof (current_tsc_eq s (tn_timeline _ _ Hn)) as Hc.
  rewrite Hc in *. destruct (mtf_enabled s2).
  - intros [[-> ->]|[_ ->]]; repeat split; lia.
  - destruct Hcov as [?|(p & Hp & Ha & _ & Hle)]; [done|]. intros (_ & Hge & Hlt). specialize (Hlt p Hp Ha).
    repeat split; lia.
Qed.

End before_deadline.

(** Noting an exit moves virtual time, and nothing of the schedule. *)
Lemma note_exit_time reason qual s :
  let s' := note_exit reason qual s in
  last_exit_deterministic s' = negb (non_deterministic_exit reason qual s) ∧
  (∀ f, f ≠ EmulatedTsc → vfields s' f = vfields s f) ∧
  (last_exit_deterministic s' = true → vfields s' EmulatedTsc = current_tsc s).
Proof.
  unfold note_exit. cbv zeta. destruct (non_deterministic_exit reason qual s); cbn; [done|].
  split; [done|]. split; [|done]. intros f Hf. by case_decide.
Qed.

Lemma note_exit_sched reason qual s :
  let s' := note_exit reason qual s in
  stop_at_tsc s' = stop_at_tsc s ∧ single_step_tsc_range s' = single_step_tsc_range s ∧ ioapic s' = ioapic s ∧
  apic s' = apic s ∧ io_channel s' = io_channel s ∧ pebs_state s' = pebs_state s.
Proof. unfold note_exit. cbv zeta. by destruct (non_deterministic_exit reason qual s). Qed.

(** A trap at the deadline's instruction is a deterministic exit. *)
Lemma boundary_trap_deterministic qual s D :
  areg_of (apic s) ATimerDeadline = D → 0 < D → apic_enabled (apic s) = true →
  has (areg_of (apic s) ALvtTimer) (Z.shiftl 1 16) = false → 0 ≤ vfields s LastInstructionCount →
  vfields s LastInstructionCount + vfields s TscOffset = D → 0 ≤ vfields s TscOffset →
  non_deterministic_exit MonitorTrapFlag qual s = false.
Proof.
  intros HD H0 He Hk Hc Heq Ho. unfold non_deterministic_exit. rewrite next_timer_exit_count_live by (done || lia).
  rewrite HD. unfold on_target at 1, saturating_sub. rewrite (proj2 (Z.eqb_eq _ _)) by lia. done.
Qed.

Lemma iteration_on_time D s s' : timer_next D s → current_tsc s < D → iteration s s' → on_time D s'.
Proof.
  intros Hn Hlt [s2 reason qual count' vmcs' s4 s5 Hi Hhw Hq Hm].
  destruct (before_deadline_keeps D s s2 Hn Hlt Hi) as (Hf & Hr & Hp & Hio).
  destruct (no_overrun D s s2 Hn Hlt Hi reason count' Hhw) as (Hge & Hle & Htrap).
  set (s3 := set_field LastInstructionCount count' (with_vmcs vmcs' s2)) in *.
  destruct (note_exit_time reason qual s3) as (Hdet & Hvf & Hclk).
  destruct (note_exit_sched reason qual s3) as (N1 & N2 & N3 & N4 & N5 & N6).
  destruct Hq as [Q1 Q2 Q3 Q4 Q5 Q6 Q7 Q8 Q9 Q10]. destruct (update_mtf_state_done _ _ Hm) as [v ->].
  rewrite Hvf in Q1, Q2 by done. pose proof (fixed_vfields _ _ Hf) as Hv2.
  change (vfields s3 LastInstructionCount) with count' in Q1. change (vfields s3 TscOffset) with (vfields s2 TscOffset) in Q2.
  rewrite Hv2 in Q2.
  destruct (tn_timeline _ _ Hn) as [T1 T2 T3]. pose proof (tn_bound _ _ Hn) as HD.
  assert (timeline_ok (with_mtf_enabled (step_wanted s4) (with_vmcs v s4))) as Htl by (constructor; cbn; lia).
  pose proof (current_tsc_eq _ Htl) as Hcur. cbn [vfields with_mtf_enabled with_vmcs] in Hcur. rewrite Q1, Q2 in Hcur.
  assert (∀ r, areg_of (apic s4) r = areg_of (apic s) r) as Hregs by (intros r; by rewrite Q8, N4, <-Hr).
  assert (current_tsc s3 = current_tsc (with_mtf_enabled (step_wanted s4) (with_vmcs v s4))) as Hc3.
  { rewrite Hcur. unfold current_tsc, u64. cbn. rewrite Hv2. apply wrap_small. split; lia. }
  assert (last_exit_deterministic s4 = true → vfields s4 EmulatedTsc = current_tsc s3) as Hclk4
    by (rewrite Q7, Q3; done).
  constructor; [|lia|].
  - constructor; try done.
    + cbn. rewrite Hregs. apply Hn.
    + cbn. unfold apic_enabled. rewrite Hregs. apply Hn.
    + cbn. rewrite Hregs. apply Hn.
    + apply (io_target_later D s Hn); cbn; [by rewrite Q6, N3, <-(fixed_ioapic _ _ Hf)|].
      rewrite Q9, N5. exact Hio.
    + cbn. rewrite Q4, N1. change (later D (stop_at_tsc s2)). rewrite (fixed_stop _ _ Hf). apply Hn.
    + cbn. rewrite Q5, N2. change (later D (fst <$> single_step_tsc_range s2)). rewrite (fixed_range _ _ Hf). apply Hn.
    + apply Q10. by rewrite N6.
    + intros Hd. cbn. rewrite <-Hc3. by apply Hclk4.
  - intros Hex. cbn. rewrite Q7, Hdet. rewrite Hcur in Hex. rewrite (Htrap Hex).
    rewrite (boundary_trap_deterministic qual s3 D); [done|..];
      change (apic s3) with (apic s2); change (vfields s3 LastInstructionCount) with count';
      change (vfields s3 TscOffset) with (vfields s2 TscOffset); rewrite ?Hv2; unfold apic_enabled; rewrite ?Hr;
      (apply Hn || lia).
Qed.

Lemma approaches_on_time D s s' : on_time D s → approaches D s s' → on_time D s'.
Proof.
  intros Hs Ha. induction Ha as [|s s' s'' Ha IH Hlt Hit]; [done|].
  apply (iteration_on_time D s'); [by apply ot_next, IH|done|done].
Qed.

(** C22: The timer interrupt is precise, on the following runs: the timer's deadline [D] is the
    next event, the instruction counter is registered, the exits' handlers leave the schedule
    alone, the processor single-steps as documented, and the counter stops the guest less than
    a margin after it overflows.  Then no iteration overruns the deadline: every exit happens
    at virtual time at most [D], and the exit at [D] is a deterministic one that sets the
    guest's clock to [D], so the timer check before the next entry raises the timer's vector,
    and not late.  (With a skid of just the margin, or an event pending that will not be
    handled, the deadline is missed: [skid_equal_to_margin_misses], [stale_event_disarms].) *)
Theorem timer_interrupt_precise D s s' (Hs : on_time D s) (Ha : approaches D s s') :
  current_tsc s' ≤ D ∧
  (current_tsc s' = D →
     last_exit_deterministic s' = true ∧ vfields s' EmulatedTsc = D ∧
     (apic_timer_check (vfields s' EmulatedTsc) (apic s')).1 = Some (Z.land (areg_of (apic s') ALvtTimer) 0xFF) ∧
     stats (check_apic_timer s').2 ApicTimerLateInject = stats s' ApicTimerLateInject).
Proof.
  destruct (approaches_on_time D s s' Hs Ha) as [Hn Hle Hex]. split; [done|]. intros Heq. specialize (Hex Heq).
  pose proof (tn_clock _ _ Hn Hex) as Hclk. rewrite Heq in Hclk. split; [done|]. split; [done|].
  pose proof (tn_bound _ _ Hn) as HD.
  assert (timer_due (vfields s' EmulatedTsc) (apic s') = true) as Hdue.
  { unfold timer_due. rewrite Hclk, (tn_deadline _ _ Hn), (tn_enabled _ _ Hn), (tn_unmasked _ _ Hn).
    rewrite (proj2 (Z.eqb_neq D 0)), (proj2 (Z.leb_le D D)) by lia. done. }
  rewrite apic_timer_check_due, Hdue. split; [done|].
  unfold check_apic_timer, mbind, M_bind, gets. cbn [id]. rewrite apic_timer_check_due, Hdue. cbv zeta.
  rewrite Hclk, (tn_deadline _ _ Hn), Z.ltb_irrefl. done.
Qed.

End Host.

(** ** Examples *)
Definition demo_cpuid : Z := 0x000806F8.

Definition demo_pebs : PebsState :=
  mkPebs (λ r, match r with FixedCtrCtrl => 3 | PebsEnable => 2 ^ 32 | _ => 0 end) None false.

Definition demo_vmcs : gmap Z Z :=
  list_to_map [(PrimaryProcBasedVmExecControls, 0); (VmEntryInterruptionInfo, 0); (IdtVectoringInfo, 0);
    (GuestRflags, 0x202); (GuestInterruptibilityState, 0); (VmEntryExceptionErrorCode, 0); (GuestRip, 0x1000);
    (VmExitInstructionLen, 2); (GuestPhysicalAddr, 0); (ExitQualification, 0)].

(** An APIC with a one-shot timer on vector 0xEC, or a periodic one. *)
Definition demo_timer (lvt initial deadline : Z) : ApicState :=
  aset ATimerDeadline deadline (aset ATimerInitial initial (aset ATimerDivide 0xB (aset ALvtTimer lvt (aset ASvr 0x1FF apic_default)))).

Definition demo_io (target : Z) : IoChannelState :=
  mkIoChannel 0x5000 (if target =? 0 then 0 else 16) false target 0 (λ _, 0) (λ _, 0) [].

Definition demo_vcpu (a : ApicState) (io count : Z) (det : bool) (pebs : option PebsState) : Vcpu :=
  mkVcpu demo_vmcs (λ _, 0) (λ f, match f with LastInstructionCount | EmulatedTsc => count | _ => 0 end) a
    (program_pin 9 0x29 ioapic_default) (λ _, 0) rtc_default mtrr_default random_default
    (event_state_new (λ _, 0) (λ _, 0)) (demo_io io) (mkConsole 0 (λ _, 0)) [] pebs true None None false det false
    Disabled false (λ _, 0) (mkClock (λ n, u64 (Z.of_nat n)) 0).

(** What enters the guest: is it stepped, and is the counter armed? *)
Definition entered s : outcome ExitError () * bool * option (option Z) :=
  let s1 := (update_mtf_state demo_cpuid s).2 in
  let r := inject_pending_interrupt demo_cpuid s1 in
  (r.1, mtf_enabled r.2, armed_action <$> pebs_state r.2).
Definition next_io_after s : option Z := next_io_channel_target_tsc (inject_pending_interrupt demo_cpuid (update_mtf_state demo_cpuid s).2).2.
Definition deadline_after s : Z := areg_of (apic (inject_pending_interrupt demo_cpuid (update_mtf_state demo_cpuid s).2).2) ATimerDeadline.

(** Precision is lost where an event is pending that will not be handled.  A
    masked timer whose deadline has passed disarms the counter for an I/O request
    in the future; so does an I/O request whose time has passed at an exit that is
    not deterministic, for the timer; and a periodic timer whose period is shorter
    than the single-step window is re-armed after the single-step flag was
    decided, so its next deadline is not covered either. *)
Theorem stale_event_disarms :
  (let s := demo_vcpu (demo_timer 0x100EC 1000 500) 100000 1000 false (Some demo_pebs) in
   entered s = (Done (), false, Some None) ∧ next_io_after s = Some 100000) ∧
  (let s := demo_vcpu (demo_timer 0x000EC 1000 100000) 500 1000 false (Some demo_pebs) in
   entered s = (Done (), false, Some None) ∧ deadline_after s = 100000) ∧
  (let s := demo_vcpu (demo_timer 0x200EC 100 1000) 0 1000 true (Some demo_pebs) in
   entered s = (Done (), false, Some None) ∧ deadline_after s = 1100).
Proof. vm_compute. done. Qed.

(** The exit of the armed counter at instruction [count]. *)
Definition pebs_exit (count : Z) s : Vcpu :=
  (handle_pebs_precise_exit (note_exit EptViolation 0x10002 (set_field LastInstructionCount count s))).2.

(** A skid equal to the margin is already too much.  The counter is armed to
    stop three instructions before the deadline 2000; when it stops the guest
    exactly at the deadline the exit is not deterministic, so the interrupt is not
    raised, the single-step window is closed and the counter is not re-armed: the
    guest runs on past its deadline. *)
Theorem skid_equal_to_margin_misses :
  let s0 := demo_vcpu (demo_timer 0x000EC 1000 2000) 0 1000 false (Some demo_pebs) in
  let s := (inject_pending_interrupt demo_cpuid s0).2 in
  get_pebs_margin demo_cpuid = 3 ∧ option_map overflow_distance (pebs_state s) = Some 997 ∧
  entered (pebs_exit (1000 + 997 + 3) s) = (Done (), false, Some None) ∧
  deadline_after (pebs_exit (1000 + 997 + 3) s) = 2000 ∧
  entered (pebs_exit (1000 + 997 + 2) s) = (Done (), true, Some None).
Proof. vm_compute. done. Qed.

(** The counter is armed for a timer 100000 instructions away. *)
Definition demo_far : Vcpu := demo_vcpu (demo_timer 0x000EC 1000 101000) 0 1000 false (Some demo_pebs).
Definition demo_far1 : Vcpu := (update_mtf_state demo_cpuid demo_far).2.
Definition demo_far2 : Vcpu := (inject_pending_interrupt demo_cpuid demo_far1).2.

Lemma entry_covers_targets_witness : covered demo_cpuid demo_far2 101000.
Proof.
  apply (entry_covers_targets demo_cpuid demo_far demo_far1 demo_far2).
  - apply injective_projections; [vm_compute; reflexivity|reflexivity].
  - apply injective_projections; [vm_compute; reflexivity|reflexivity].
  - discriminate.
  - constructor; vm_compute; congruence.
  - discriminate.
  - intros H. vm_compute in H. discriminate.
  - intros _. split; vm_compute; reflexivity.
  - intros t Ht. assert (arm_targets demo_far2 = [Some 101000; None; None; None]) as E by (vm_compute; reflexivity).
    assert (current_tsc demo_far2 = 1000) as -> by (vm_compute; reflexivity). rewrite E in Ht.
    rewrite !elem_of_cons in Ht. destruct Ht as [Ht|[Ht|[Ht|[Ht|Ht%elem_of_nil]]]]; [|discriminate..|destruct Ht].
    apply (inj Some) in Ht. subst t. reflexivity.
  - assert (arm_targets demo_far2 = [Some 101000; None; None; None]) as -> by (vm_compute; reflexivity). left.
Defined.

(** Two traps before the deadline 1000. *)
Definition demo_near : Vcpu :=
  (update_mtf_state demo_cpuid (demo_vcpu (demo_timer 0x000EC 1000 1000) 0 998 false (Some demo_pebs))).2.
Definition demo_injected s : Vcpu := (inject_pending_interrupt demo_cpuid s).2.
Definition demo_trapped s : Vcpu :=
  note_exit MonitorTrapFlag 0 (set_field LastInstructionCount (vfields (demo_injected s) LastInstructionCount + 1)
    (with_vmcs (vmcs (demo_injected s)) (demo_injected s))).
Definition demo_trap s : Vcpu := (update_mtf_state demo_cpuid (demo_trapped s)).2.

Lemma demo_trap_iteration s :
  (inject_pending_interrupt demo_cpuid s).1 = Done () → mtf_enabled (demo_injected s) = true →
  (update_mtf_state demo_cpuid (demo_trapped s)).1 = Done () → iteration demo_cpuid s (demo_trap s).
Proof.
  intros H1 H2 H3.
  apply (iteration_intro demo_cpuid s (demo_injected s) MonitorTrapFlag 0
    (vfields (demo_injected s) LastInstructionCount + 1) (vmcs (demo_injected s)) (demo_trapped s)).
  - apply injective_projections; [exact H1|reflexivity].
  - unfold hardware_exit. rewrite H2. left. split; reflexivity.
  - constructor; reflexivity || done.
  - unfold demo_trap. destruct (update_mtf_state demo_cpuid (demo_trapped s)) as [r s']. cbn [fst] in H3. by rewrite H3.
Qed.

Lemma timer_interrupt_precise_witness :
  current_tsc (demo_trap (demo_trap demo_near)) = 1000 ∧
  vfields (demo_trap (demo_trap demo_near)) EmulatedTsc = 1000.
Proof.
  assert (current_tsc (demo_trap (demo_trap demo_near)) = 1000) as E by (vm_compute; reflexivity). split; [exact E|].
  refine (proj1 (proj2 (proj2 (timer_interrupt_precise demo_cpuid 1000 demo_near _ _ _) E))).
  - constructor; [constructor|vm_compute; congruence|vm_compute; congruence].
    + vm_compute. reflexivity.
    + split; reflexivity.
    + vm_compute. reflexivity.
    + vm_compute. reflexivity.
    + exact I.
    + exact I.
    + exact I.
    + discriminate.
    + constructor; vm_compute; congruence.
    + discriminate.
    + vm_compute. reflexivity.
  - apply (approaches_step demo_cpuid 1000 demo_near (demo_trap demo_near) (demo_trap (demo_trap demo_near))).
    + apply (approaches_step demo_cpuid 1000 demo_near demo_near (demo_trap demo_near)); [apply approaches_here|vm_compute; reflexivity|].
      apply (demo_trap_iteration demo_near); vm_compute; reflexivity.
    + vm_compute. reflexivity.
    + apply (demo_trap_iteration (demo_trap demo_near)); vm_compute; reflexivity.
Defined.
