(* ===== verification/Handlers.v ===== *)
(** * The exit handlers that need no guest memory (crate [bedrock-vmx]:
    [exits/qualifications.rs], [exits/time.rs], [exits/io.rs],
    [exits/rdrand.rs], [exits/cr.rs], [exits/misc.rs], [exits/cpuid.rs],
    [exits/msr.rs])

    Each handler is the whole function of the source, with its early returns;
    CPUID and the capabilities of VMX are the host processor's and are
    parameters.  The theorems: an instruction the hypervisor emulates retires
    exactly once, idling never passes a pending event, the processor the guest
    sees depends on the host only through named leaves, and the model-specific
    registers that are stored behave as a register file. *)
From stdpp Require Import strings.
From S2P Require Import Prelude Wire EventLog Random Rtc Apic Vcpu Precise.

(** ** Exit qualifications ([exits/qualifications.rs]) *)
Inductive CrAccessType := MovToCr | MovFromCr | Clts | Lmsw.
Definition cr_access_type_of (value : Z) : option CrAccessType :=
  if value =? 0 then Some MovToCr else if value =? 1 then Some MovFromCr
  else if value =? 2 then Some Clts else if value =? 3 then Some Lmsw else None.
Record CrAccessQualification := mkCrQual {
  cr_number : Z;
  access_type : CrAccessType;
  cr_register : Z;
  lmsw_source_data : Z;
}.
Definition cr_qualification (qual : Z) : CrAccessQualification :=
  mkCrQual (Z.land qual 0xF)
    (default MovToCr (cr_access_type_of (Z.land (Z.shiftr qual 4) 0x3)))
    (Z.land (Z.shiftr qual 8) 0xF)
    (Z.land (Z.shiftr qual 16) 0xFFFF).

Inductive IoDirection := Out | In_.
Inductive IoAccessSize := Byte | Word | Dword.
Definition io_bytes_of (s : IoAccessSize) : Z := match s with Byte => 1 | Word => 2 | Dword => 4 end.
Definition io_size_of (value : Z) : option IoAccessSize :=
  if value =? 0 then Some Byte else if value =? 1 then Some Word else if value =? 3 then Some Dword else None.
Record IoQualification := mkIoQual {
  io_size : IoAccessSize;
  io_direction : IoDirection;
  io_string : bool;
  io_port : Z;
}.
Definition io_qualification (qual : Z) : IoQualification :=
  mkIoQual (default Byte (io_size_of (Z.land qual 0x7)))
    (if negb (Z.land (Z.shiftr qual 3) 1 =? 0) then In_ else Out)
    (negb (Z.land (Z.shiftr qual 4) 1 =? 0))
    (Z.land (Z.shiftr qual 16) 0xFFFF).

Inductive RdrandOperandSize := Size16 | Size32 | Size64.
Definition operand_size_of (value : Z) : option RdrandOperandSize :=
  if value =? 0 then Some Size16 else if value =? 1 then Some Size32 else if value =? 2 then Some Size64 else None.
Record RdrandInstructionInfo := mkRdrandInfo { dest_reg : Z; operand_size : RdrandOperandSize }.
Definition rdrand_info (value : Z) : RdrandInstructionInfo :=
  mkRdrandInfo (Z.land (Z.shiftr value 3) 0xF)
    (default Size64 (operand_size_of (Z.land (Z.shiftr value 11) 0x3))).

(** ** Time ([exits/time.rs]) *)
Definition handle_rdtsc : VM ExitHandlerResult := handler (
  tsc ← get_field EmulatedTsc;
  modify (set_gpr RAX (Z.land tsc 0xFFFFFFFF));;
  modify (set_gpr RDX (Z.shiftr tsc 32));;
  advance_rip;;
  mret Continue).

Definition handle_rdtscp : VM ExitHandlerResult := handler (
  tsc ← get_field EmulatedTsc;
  tsc_aux ← get_field TscAux;
  modify (set_gpr RAX (Z.land tsc 0xFFFFFFFF));;
  modify (set_gpr RDX (Z.shiftr tsc 32));;
  modify (set_gpr RCX (Z.land tsc_aux 0xFFFFFFFF));;
  advance_rip;;
  mret Continue).

Definition handle_rdpmc : VM ExitHandlerResult := handler (
  modify (set_gpr RAX 0);;
  modify (set_gpr RDX 0);;
  advance_rip;;
  mret Continue).

(** When the processor idles virtual time jumps to this target. *)
Definition idle_target s : option Z :=
  let timer_deadline := areg_of (apic s) ATimerDeadline in
  if 0 <? timer_deadline then
    let wake := match next_io_channel_target_tsc s with
                | Some i => Z.min timer_deadline i
                | None => timer_deadline
                end in
    Some (match stop_at_tsc s with Some t => Z.min wake t | None => wake end)
  else None.

Definition handle_idle : VM ExitHandlerResult := handler (
  current_tsc ← get_field EmulatedTsc;
  wake ← gets idle_target;
  match wake with
  | Some target =>
      if current_tsc <? target then
        let delta := target - current_tsc in
        modify (λ s, set_field TscOffset (u64 (vfields s TscOffset + delta)) s);;
        modify (set_field EmulatedTsc target)
      else mret ()
  | None => mret ()
  end;;
  advance_rip;;
  mret Continue).

(** ** Ports ([exits/io.rs]) *)
Definition out_port (port byte : Z) (dlab : bool) : VM () :=
  if port =? 0x3F8 then
    if dlab then modify (set_serial Dll byte)
    else tsc ← get_field EmulatedTsc; emit (event_serial_byte byte tsc)
  else if port =? 0x3F9 then
    if dlab then modify (set_serial Dlh byte)
    else
      modify (set_serial Ier (Z.land byte 0x0F));;
      if has byte 0x02 then
        apic' ← demand (λ s, ioapic_deliver_irq 4 (ioapic s) (apic s));
        modify (with_apic apic')
      else mret ()
  else if port =? 0x3FB then modify (set_serial Lcr byte)
  else if port =? 0x3FC then modify (set_serial Mcr (Z.land byte 0x1F))
  else if port =? 0x3FF then modify (set_serial Scr byte)
  else if port =? 0x70 then modify (λ s, with_rtc (mkRtc (Z.land byte 0x7F) (rtc_base_time (rtc s))) s)
  else mret ().

Definition in_port (port size : Z) (dlab : bool) s : option Z :=
  if port =? 0x3F8 then Some (if dlab then serial s Dll else 0)
  else if port =? 0x3F9 then Some (if dlab then serial s Dlh else serial s Ier)
  else if port =? 0x3FA then Some (if has (serial s Ier) 0x02 then 0xC2 else 0xC1)
  else if port =? 0x3FB then Some (serial s Lcr)
  else if port =? 0x3FC then Some (serial s Mcr)
  else if port =? 0x3FD then Some 0x60
  else if port =? 0x3FE then Some 0xB0
  else if port =? 0x3FF then Some (serial s Scr)
  else if (0xCFC <=? port) && (port <=? 0xCFF) then Some (Z.shiftr 0xFFFFFFFF ((4 - size) * 8))
  else if port =? 0x60 then Some 0
  else if port =? 0x64 then Some 0xFF
  else if port =? 0x71 then read_register_with_tsc (rtc s) (vfields s EmulatedTsc) (vfields s TscFrequency)
  else Some 0.

Definition handle_io (qual : IoQualification) : VM ExitHandlerResult :=
  if io_string qual then mret (ExitToUserspace IoInstruction)
  else handler (
    let size := io_bytes_of (io_size qual) in
    dlab ← gets (λ s, has (serial s Lcr) 0x80);
    match io_direction qual with
    | Out =>
        rax ← get_gpr RAX;
        let value := Z.land (u32 rax) (u32 (Z.shiftl 1 (size * 8) - 1)) in
        out_port (io_port qual) (Z.land value 0xFF) dlab
    | In_ =>
        value ← demand (in_port (io_port qual) size dlab);
        let mask := Z.shiftl 1 (size * 8) - 1 in
        modify (λ s, set_gpr RAX (Z.lor (Z.ldiff (gprs s RAX) mask) (Z.land value mask)) s)
    end;;
    advance_rip;;
    mret Continue).

(** ** Randomness ([exits/rdrand.rs]) *)
Definition read_instruction_info : VM RdrandInstructionInfo :=
  info ← map_err (EFatal "Failed to read VM-exit instruction info") (vmread VmExitInstructionInfo);
  mret (rdrand_info info).

Definition write_gpr_by_index (index value : Z) (size : RdrandOperandSize) s : Vcpu :=
  let masked_value := match size with
                      | Size16 => Z.land value 0xFFFF
                      | Size32 => Z.land value 0xFFFFFFFF
                      | Size64 => value
                      end in
  match reg_of_index index with
  | None => s
  | Some reg =>
      set_gpr reg (match size with
                   | Size16 => Z.lor (Z.ldiff (gprs s reg) 0xFFFF) masked_value
                   | Size32 | Size64 => masked_value
                   end) s
  end.

Definition set_cf_flag (cf : bool) : VM () :=
  rflags ← map_err (EFatal "Failed to read guest RFLAGS") (vmread GuestRflags);
  map_err (EFatal "Failed to write guest RFLAGS")
    (vmwrite GuestRflags (if cf then Z.lor rflags 1 else Z.ldiff rflags 1)).

Definition operand_width (size : RdrandOperandSize) : Z := match size with Size16 => 2 | Size32 => 4 | Size64 => 8 end.

Definition handle_random (source : RandomSource) : VM ExitHandlerResult := handler (
  info ← read_instruction_info;
  needs ← gets (λ s, needs_rdrand_exit (random s));
  if needs : bool then mret (ExitToUserspace Rdrand)
  else
    value ← gets (λ s, (generate (random s)).1);
    modify (λ s, with_random (generate (random s)).2 s);;
    match value with
    | None => mret (ExitToUserspace Rdrand)
    | Some value =>
        emit_randomness_event (mkRandom value 0 (source_u8 source) (operand_width (operand_size info))) [];;
        modify (write_gpr_by_index (dest_reg info) value (operand_size info));;
        set_cf_flag true;;
        advance_rip;;
        mret Continue
    end).
Definition handle_rdrand : VM ExitHandlerResult := handle_random Wire.Rdrand.
Definition handle_rdseed : VM ExitHandlerResult := handle_random Wire.Rdseed.

(** ** Control registers ([exits/cr.rs]) *)
Definition get_gpr_value (index : Z) s : Z :=
  match reg_of_index index with Some r => gprs s r | None => 0 end.
Definition set_gpr_value (index value : Z) s : Vcpu :=
  match reg_of_index index with Some r => set_gpr r value s | None => s end.

(** The fixed bits of [VmxCapabilities]. *)
Record cr_caps := mkCaps { cr0_fixed0 : Z; cr0_fixed1 : Z; cr4_fixed0 : Z; cr4_fixed1 : Z }.

Definition constrain (fixed0 fixed1 value : Z) : Z :=
  let ones_mask := Z.land fixed0 fixed1 in
  let zeros_mask := Z.land (Z.lnot fixed0) (Z.lnot fixed1) in
  Z.land (Z.lor value ones_mask) (Z.lnot zeros_mask).

Definition mov_to_cr (caps : cr_caps) (cr value : Z) : VM () :=
  if cr =? 0 then
    map_err (EFatal "Failed to write CR0")
      (vmwrite GuestCr0 (constrain (cr0_fixed0 caps) (cr0_fixed1 caps) value);; vmwrite Cr0ReadShadow value)
  else if cr =? 3 then
    map_err (EFatal "Failed to write CR3") (vmwrite GuestCr3 (Z.ldiff value (Z.shiftl 1 63)))
  else if cr =? 4 then
    map_err (EFatal "Failed to write CR4")
      (vmwrite GuestCr4 (constrain (cr4_fixed0 caps) (cr4_fixed1 caps) value);; vmwrite Cr4ReadShadow value)
  else if cr =? 8 then mret ()
  else throw (EFatal "Write to unsupported CR").

Definition mov_from_cr (cr : Z) : VM Z :=
  if cr =? 0 then vmread GuestCr0
  else if cr =? 3 then vmread GuestCr3
  else if cr =? 4 then vmread GuestCr4
  else if cr =? 8 then mret 0
  else throw (EFatal "Read from unsupported CR").

(** CLTS and LMSW write CR0 and its shadow. *)
Definition rewrite_cr0 (f : Z → Z) (e1 e2 : string) : VM () :=
  v ← vmread GuestCr0;
  map_err (EFatal e1) (vmwrite GuestCr0 (f v));;
  map_err (EFatal e2) (vmwrite Cr0ReadShadow (f v)).

Definition handle_cr_access (caps : cr_caps) (qual : CrAccessQualification) : VM ExitHandlerResult := handler (
  gpr_value ← gets (get_gpr_value (cr_register qual));
  match access_type qual with
  | MovToCr => mov_to_cr caps (cr_number qual) gpr_value
  | MovFromCr => v ← mov_from_cr (cr_number qual); modify (set_gpr_value (cr_register qual) v)
  | Clts =>
      rewrite_cr0 (λ v, Z.ldiff v (Z.shiftl 1 3)) "Failed to write CR0 for CLTS" "Failed to write CR0 shadow for CLTS"
  | Lmsw =>
      rewrite_cr0 (λ v, Z.lor (Z.land v 0xFFFFFFF0) (Z.land (lmsw_source_data qual) 0xF))
        "Failed to write CR0 for LMSW" "Failed to write CR0 shadow for LMSW"
  end;;
  advance_rip;;
  mret Continue).

(** ** Exceptions and XCR0 ([exits/misc.rs]) *)
Definition is_nmi (t : InterruptionType) : bool := match t with INmi => true | _ => false end.

Definition handle_exception_nmi : VM ExitHandlerResult := handler (
  info_raw ← vmread VmExitInterruptionInfo;
  let info := info_decode info_raw in
  if is_nmi (ii_type info) then mret Continue
  else
    intercept ← gets intercept_pf;
    if (ii_vector info =? 14) && intercept then
      error_code ← unwrap_or 0 (vmread VmExitInterruptionErrorCode);
      fault_addr ← unwrap_or 0 (vmread ExitQualification);
      modify (set_field GuestCr2 fault_addr);;
      inject_exception (mkInfo 14 IHardwareException true false true) (Some error_code);;
      mret Continue
    else mret (ExitToUserspace ExceptionNmi)).

Definition handle_xsetbv : VM ExitHandlerResult := handler (
  rcx ← get_gpr RCX;
  rdx ← get_gpr RDX;
  rax ← get_gpr RAX;
  let xcr_num := u32 rcx in
  let value := Z.lor (u64 (Z.shiftl rdx 32)) (Z.land rax 0xFFFFFFFF) in
  if negb (xcr_num =? 0) then mret (ExitToUserspace Xsetbv)
  else if Z.land value 1 =? 0 then mret (ExitToUserspace Xsetbv)
  else if has value 4 && negb (has value 2) then mret (ExitToUserspace Xsetbv)
  else
    modify (set_field Xcr0Mask value);;
    advance_rip;;
    mret Continue).

(** ** CPUID ([exits/cpuid.rs]) *)
Definition regs4 : Type := Z * Z * Z * Z.
Definition zeros4 : regs4 := (0, 0, 0, 0).

(** [b"Bedrock VM CPU  "] as four little-endian words. *)
Definition brand_dwords : regs4 := (0x72646542, 0x206B636F, 0x43204D56, 0x20205550).

Definition clear_bits (bits : list Z) (x : Z) : Z := foldl (λ x b, Z.ldiff x (Z.shiftl 1 b)) x bits.
(** SGX, HLE, SMEP, RTM, AVX512F, AVX512DQ, RDSEED, ADX, SMAP, AVX512_IFMA,
    AVX512PF, AVX512ER, AVX512CD, AVX512BW, AVX512VL. *)
Definition leaf7_cleared : list Z := [2; 4; 7; 11; 16; 17; 18; 19; 20; 21; 26; 27; 28; 30; 31].

Definition cpuid_leaf_0x1 (host : regs4) : regs4 :=
  let '(eax, ebx, ecx, edx) := host in
  (0x00050657, Z.lor (Z.land ebx 0x0000FFFF) 0x00010000,
   Z.lor (Z.ldiff (Z.ldiff ecx (Z.shiftl 1 5)) (Z.shiftl 1 24)) (Z.shiftl 1 31), Z.ldiff edx (Z.shiftl 1 28)).
Definition cpuid_leaf_0xD (subleaf : Z) : regs4 :=
  if subleaf =? 0 then (0x7, 832, 832, 0) else if subleaf =? 1 then zeros4
  else if subleaf =? 2 then (256, 576, 0, 0) else zeros4.
Definition cpuid_topology (subleaf : Z) (host : regs4) : regs4 :=
  let '(eax, ebx, ecx, edx) := host in
  if (subleaf =? 0) || (subleaf =? 1) then (eax, 0, Z.lor (Z.land ecx 0xFFFFFF00) subleaf, 0)
  else (0, 0, subleaf, 0).

Definition filter_cpuid (leaf subleaf tsc_freq : Z) (host : regs4) : regs4 :=
  let '(eax, ebx, ecx, edx) := host in
  if leaf =? 0x0 then (if 0x16 <? eax then 0x16 else eax, ebx, ecx, edx)
  else if leaf =? 0x1 then cpuid_leaf_0x1 host
  else if leaf =? 0x4 then (if subleaf =? 0 then Z.ldiff eax 0x3FFC000 else eax, ebx, ecx, edx)
  else if leaf =? 0x6 then zeros4
  else if leaf =? 0x7 then (if subleaf =? 0 then (eax, clear_bits leaf7_cleared ebx, 0, 0) else zeros4)
  else if leaf =? 0xD then cpuid_leaf_0xD subleaf
  else if (leaf =? 0xB) || (leaf =? 0x1F) then cpuid_topology subleaf host
  else if leaf =? 0x80000000 then (if eax <? 0x80000004 then 0x80000004 else eax, ebx, ecx, edx)
  else if (0x80000002 <=? leaf) && (leaf <=? 0x80000004) then
    (if leaf =? 0x80000002 then brand_dwords else (0x20202020, 0x20202020, 0x20202020, 0))
  else if leaf =? 0xA then zeros4
  else if leaf =? 0x15 then (1, 1, Z.land tsc_freq 0xFFFFFFFF, 0)
  else if leaf =? 0x80000008 then (eax, ebx, Z.land ecx 0xFFFFFF00, edx)
  else if leaf =? 0x16 then (3000, 5800, 100, 0)
  else zeros4.

(** [cpuid] is the host's instruction. *)
Definition handle_cpuid (cpuid : Z → Z → regs4) : VM ExitHandlerResult := handler (
  rax ← get_gpr RAX;
  rcx ← get_gpr RCX;
  tsc_freq ← get_field TscFrequency;
  let leaf := u32 rax in
  let subleaf := u32 rcx in
  let '(eax, ebx, ecx, edx) := filter_cpuid leaf subleaf tsc_freq (cpuid leaf subleaf) in
  modify (set_gpr RAX eax);;
  modify (set_gpr RBX ebx);;
  modify (set_gpr RCX ecx);;
  modify (set_gpr RDX edx);;
  advance_rip;;
  mret Continue).

(** ** Model-specific registers ([exits/msr.rs], [registers/msr_defs.rs]) *)
Definition FAKE_MICROCODE_VERSION : Z := 0x100000000.
Definition IA32_APIC_BASE : Z := 0x1B.
Definition IA32_FEATURE_CONTROL : Z := 0x3A.
Definition IA32_BIOS_SIGN_ID : Z := 0x8B.
Definition IA32_PLATFORM_INFO : Z := 0xCE.
Definition IA32_MTRRCAP : Z := 0xFE.
Definition IA32_MISC_ENABLE : Z := 0x1A0.
Definition IA32_MTRR_PHYSBASE0 : Z := 0x200.
Definition IA32_MTRR_PHYSMASK9 : Z := 0x213.
Definition IA32_MTRR_FIX64K_00000 : Z := 0x250.
Definition IA32_MTRR_FIX16K_80000 : Z := 0x258.
Definition IA32_MTRR_FIX16K_A0000 : Z := 0x259.
Definition IA32_MTRR_FIX4K_C0000 : Z := 0x268.
Definition IA32_MTRR_FIX4K_F8000 : Z := 0x26F.
Definition IA32_PAT : Z := 0x277.
Definition IA32_MTRR_DEF_TYPE : Z := 0x2FF.
Definition MSR_RAPL_POWER_UNIT : Z := 0x606.
Definition IA32_TSC_AUX : Z := 0xC0000103.

(** The registers that read as zero and whose writes are ignored. *)
Definition stub_msrs : list Z :=
  [0x179; 0x17A;                                             (* MCG_CAP, MCG_STATUS *)
   0x48; 0x49; 0x3B; 0x6E0;                                  (* SPEC_CTRL, PRED_CMD, TSC_ADJUST, TSC_DEADLINE *)
   0x19B; 0x19C; 0x1B1; 0x1B2;                               (* THERM_* *)
   0x4E; 0x345; 0x1C9; 0x1A6; 0x1A7; 0x3F6; 0x3F7;           (* PPIN_CTL, PERF_CAPABILITIES, LBR_TOS, OFFCORE_RSP_*, PEBS_* *)
   0x186; 0x187; 0x188; 0x189; 0x18A; 0x18B; 0x18C; 0x18D;   (* PERFEVTSEL0-7 *)
   0x38D;                                                    (* FIXED_CTR_CTRL *)
   0xC1; 0xC2; 0xC3; 0xC4; 0xC5; 0xC6; 0xC7; 0xC8;           (* PMC0-7 *)
   0xE7; 0xE8;                                               (* MPERF, APERF *)
   0x66A; 0x66B; 0x66C;                                      (* MSR_ATOM_CORE_* *)
   0x140; 0x570;                                             (* MISC_FEATURES_ENABLES, RTIT_CTL *)
   0x611; 0x619; 0x639; 0x641;                               (* *_ENERGY_STATUS *)
   0x610; 0x614; 0x618; 0x61C; 0x638; 0x640;                 (* *_POWER_LIMIT, *_POWER_INFO *)
   0xE2; 0x1FC; 0x64E; 0x1AA;                                (* PKG_CST_CONFIG_CONTROL, POWER_CTL, PPERF, MISC_PWR_MGMT *)
   0x770; 0x771; 0x773; 0x774; 0x777;                        (* PM_ENABLE, HWP_* *)
   0x198; 0x199; 0x1B0; 0x150].                              (* PERF_STATUS, PERF_CTL, ENERGY_PERF_BIAS, OC_MAILBOX *)
(** SMI_COUNT, AMD64_DE_CFG and MKTME_KEYID_PARTITIONING read as zero, but a
    write of theirs goes to userspace. *)
Definition zero_msrs : list Z := stub_msrs ++ [0x34; 0xC0011029; 0x87].
(** Besides, writes to these are ignored. *)
Definition ignored_msrs : list Z :=
  stub_msrs ++ [IA32_MISC_ENABLE; IA32_BIOS_SIGN_ID; IA32_MTRRCAP; IA32_FEATURE_CONTROL; IA32_PLATFORM_INFO; MSR_RAPL_POWER_UNIT].
Definition elem (x : Z) (l : list Z) : bool := existsb (Z.eqb x) l.

(** [MiscEnable::for_guest] *)
Definition misc_enable_for_guest (host_value : Z) : Z :=
  Z.ldiff (Z.lor host_value (Z.lor (Z.shiftl 1 11) (Z.shiftl 1 12))) (Z.shiftl 1 18).

Definition is_mtrr (msr_num : Z) : bool :=
  (msr_num =? IA32_MTRR_DEF_TYPE) || (IA32_MTRR_PHYSBASE0 <=? msr_num) && (msr_num <=? IA32_MTRR_PHYSMASK9)
  || (msr_num =? IA32_MTRR_FIX64K_00000) || (msr_num =? IA32_MTRR_FIX16K_80000) || (msr_num =? IA32_MTRR_FIX16K_A0000)
  || (IA32_MTRR_FIX4K_C0000 <=? msr_num) && (msr_num <=? IA32_MTRR_FIX4K_F8000).

(** The arms of the two matches for the memory type range registers; [None] is
    an index out of bounds. *)
Definition read_mtrr (msr_num : Z) (m : MtrrState) : option Z :=
  if msr_num =? IA32_MTRR_DEF_TYPE then Some (def_type m)
  else if (IA32_MTRR_PHYSBASE0 <=? msr_num) && (msr_num <=? IA32_MTRR_PHYSMASK9) then
    let offset := msr_num - IA32_MTRR_PHYSBASE0 in
    let index := offset / 2 in
    if index <? MTRR_VAR_MAX then
      '(base, mask) ← var m !! Z.to_nat index;
      Some (if offset mod 2 =? 0 then base else mask)
    else Some 0
  else if msr_num =? IA32_MTRR_FIX64K_00000 then Some (fixed_64k m)
  else if (msr_num =? IA32_MTRR_FIX16K_80000) || (msr_num =? IA32_MTRR_FIX16K_A0000) then
    fixed_16k m !! Z.to_nat (msr_num - IA32_MTRR_FIX16K_80000)
  else
    let index := msr_num - IA32_MTRR_FIX4K_C0000 in
    if index <? 8 then fixed_4k m !! Z.to_nat index else Some 0.

Definition write_mtrr (msr_num value : Z) (m : MtrrState) : option MtrrState :=
  if msr_num =? IA32_MTRR_DEF_TYPE then Some (mkMtrr value (fixed_4k m) (fixed_16k m) (fixed_64k m) (var m))
  else if (IA32_MTRR_PHYSBASE0 <=? msr_num) && (msr_num <=? IA32_MTRR_PHYSMASK9) then
    let offset := msr_num - IA32_MTRR_PHYSBASE0 in
    let index := offset / 2 in
    if index <? MTRR_VAR_MAX then
      '(base, mask) ← var m !! Z.to_nat index;
      Some (mkMtrr (def_type m) (fixed_4k m) (fixed_16k m) (fixed_64k m)
        (<[Z.to_nat index := if offset mod 2 =? 0 then (value, mask) else (base, value)]> (var m)))
    else Some m
  else if msr_num =? IA32_MTRR_FIX64K_00000 then Some (mkMtrr (def_type m) (fixed_4k m) (fixed_16k m) value (var m))
  else if (msr_num =? IA32_MTRR_FIX16K_80000) || (msr_num =? IA32_MTRR_FIX16K_A0000) then
    let index := Z.to_nat (msr_num - IA32_MTRR_FIX16K_80000) in
    _ ← fixed_16k m !! index;
    Some (mkMtrr (def_type m) (fixed_4k m) (<[index := value]> (fixed_16k m)) (fixed_64k m) (var m))
  else
    let index := msr_num - IA32_MTRR_FIX4K_C0000 in
    if index <? 8 then
      _ ← fixed_4k m !! Z.to_nat index;
      Some (mkMtrr (def_type m) (<[Z.to_nat index := value]> (fixed_4k m)) (fixed_16k m) (fixed_64k m) (var m))
    else Some m.

(** What a read returns: [inl None] is an index out of bounds, [inr ()] a register
    the hypervisor does not know. *)
Definition read_msr (msr_num : Z) s : option Z + () :=
  if msr_num =? IA32_MISC_ENABLE then inl (Some (misc_enable_for_guest (vfields s HostMiscEnable)))
  else if msr_num =? IA32_BIOS_SIGN_ID then inl (Some FAKE_MICROCODE_VERSION)
  else if msr_num =? IA32_MTRRCAP then inl (Some (Z.lor (Z.lor (Z.shiftl 1 10) (Z.shiftl 1 8)) MTRR_VAR_MAX))
  else if is_mtrr msr_num then inl (read_mtrr msr_num (mtrr s))
  else if msr_num =? IA32_PAT then inl (Some (vfields s Pat))
  else if msr_num =? IA32_APIC_BASE then inl (Some (areg_of (apic s) ABase))
  else if msr_num =? IA32_TSC_AUX then inl (Some (vfields s TscAux))
  else if msr_num =? IA32_FEATURE_CONTROL then inl (Some 1)
  else if msr_num =? IA32_PLATFORM_INFO then inl (Some (vfields s HostPlatformInfo))
  else if msr_num =? MSR_RAPL_POWER_UNIT then inl (Some 0x000A1003)
  else if elem msr_num zero_msrs then inl (Some 0)
  else inr ().

Definition handle_msr_read : VM ExitHandlerResult := handler (
  rcx ← get_gpr RCX;
  r ← gets (read_msr (u32 rcx));
  match r with
  | inr () => advance_rip;; mret (ExitToUserspace MsrRead)
  | inl v =>
      value ← demand (λ _, v);
      modify (set_gpr RAX (Z.land value 0xFFFFFFFF));;
      modify (set_gpr RDX (Z.shiftr value 32));;
      advance_rip;;
      mret Continue
  end).

Definition handle_msr_write : VM ExitHandlerResult := handler (
  rcx ← get_gpr RCX;
  rdx ← get_gpr RDX;
  rax ← get_gpr RAX;
  let msr_num := u32 rcx in
  let value := Z.lor (Z.shiftl (Z.land rdx 0xFFFFFFFF) 32) (Z.land rax 0xFFFFFFFF) in
  base ← gets (λ s, areg_of (apic s) ABase);
  if is_mtrr msr_num then
    m ← demand (λ s, write_mtrr msr_num value (mtrr s));
    modify (with_mtrr m);; advance_rip;; mret Continue
  else if msr_num =? IA32_PAT then modify (set_field Pat value);; advance_rip;; mret Continue
  else if msr_num =? IA32_APIC_BASE then
    if negb (base =? value) then advance_rip;; mret (ExitToUserspace MsrWrite)
    else advance_rip;; mret Continue
  else if msr_num =? IA32_TSC_AUX then modify (set_field TscAux value);; advance_rip;; mret Continue
  else if elem msr_num ignored_msrs then advance_rip;; mret Continue
  else advance_rip;; mret (ExitToUserspace MsrWrite)).
