(* ===== verification/Safety.v ===== *)
(** * The handlers of [Precise] and [Handlers] are type-safe and blind to host time

    One lemma per operation, in the judgement of [Relational]: from well-formed
    processors that differ in host time only, the operation does not panic,
    returns the same result, and leaves processors that are well-formed and
    differ in host time only. *)
From stdpp Require Import strings.
From S2P Require Import Prelude Wire EventLog Random Rtc Apic Vcpu Relational Precise Handlers.

(** ** Interrupts and precise exits *)
Lemma vt_update_mtf eax : vt (λ _, True) (update_mtf_state eax) (update_mtf_state eax).
Proof. unfold update_mtf_state. vt_go. Qed.

Lemma timer_check_ok tsc a : apic_ok a → in_width 64 tsc → apic_ok (apic_timer_check tsc a).2.
Proof.
  intros Ha Ht. rewrite apic_timer_check_due. destruct (timer_due tsc a); [|done]. cbn [snd].
  apply aset_ok; [by apply raise_ok, low_byte_vector|]. destruct (timer_periodic a); [apply in_width_u64|by apply width_const].
Qed.

Lemma vt_check_apic_timer : vt (λ _, True) check_apic_timer check_apic_timer.
Proof.
  unfold check_apic_timer. apply vt_get; [reflexivity|]. intros s Hs.
  pose proof (timer_check_ok (vfields s EmulatedTsc) (apic s) (vk_apic _ Hs) (vk_fields _ Hs EmulatedTsc)) as Hok.
  cbv zeta. destruct (apic_timer_check _ _) as [[v|] a']; [|vt_go]. vt_go.
  apply (vt_emit _ (λ t, OAppend Inject (inject_bytes (mkInject v INJECT_SOURCE_TIMER (areg_of (apic s) ATimerDeadline)))
    (vfields s EmulatedTsc) t)); [done|done|].
  intros t b Ht. split; [apply (vk_fields _ Hs EmulatedTsc)|]. split; [done|]. split; [|done].
  unfold inject_bytes. rewrite length_encode by done. done.
Qed.

Lemma ioapic_deliver_ok irq i a :
  ioapic_ok i → apic_ok a → 0 ≤ irq → ∃ a', ioapic_deliver_irq irq i a = Some a' ∧ apic_ok a'.
Proof.
  intros Hi Ha Hirq. unfold ioapic_deliver_irq. destruct (Z.leb_spec (Z.of_nat IOAPIC_NUM_PINS) irq); [by exists a|].
  destruct (lookup_lt_is_Some_2 (redtbl i) (Z.to_nat irq)) as [e He]; [rewrite (ik_length _ Hi); lia|].
  rewrite He. cbn [mbind option_bind]. eexists. split; [done|]. pose proof (low_byte_vector e) as Hv.
  destruct (negb _); [done|]. destruct (_ <? 16); [done|]. destruct (_ <? 8); [by apply raise_ok|done].
Qed.

Lemma vt_check_io_channel : vt (λ _, True) check_io_channel check_io_channel.
Proof.
  unfold check_io_channel. apply vt_get; [reflexivity|]. intros s Hs. cbv beta zeta. do 5 (vt_one; [vt_go|]).
  apply (rt_bind sim apic_ok).
  { apply vt_demand; [reflexivity|]. intros s' Hs'. by apply ioapic_deliver_ok; [apply Hs'..|]. }
  intros a Ha. vt_one; [vt_go|]. vt_one.
  { apply sim_modify; [done..|]. intros s' Hs'. apply core_channel; [|done]. by destruct (vk_channel _ Hs'). }
  apply vt_get; [reflexivity|]. intros s' Hs'.
  apply (vt_emit _ (λ t, OIo (mkIo (phase_u8 Request) (request_target_tsc (io_channel s'))) (request_buf (io_channel s'))
    (response_buf (io_channel s')) (request_len (io_channel s')) (response_len (io_channel s')) (vfields s' EmulatedTsc) t));
    [done|done|]. intros t b Ht. split; [apply (vk_fields _ Hs' EmulatedTsc)|done].
Qed.
#[export] Hint Resolve vt_update_mtf vt_check_apic_timer vt_check_io_channel : vt.

Lemma vt_window_on : vt (λ _, True) enable_interrupt_window_exiting enable_interrupt_window_exiting.
Proof. unfold enable_interrupt_window_exiting. vt_go. Qed.
Lemma vt_window_off : vt (λ _, True) disable_interrupt_window_exiting disable_interrupt_window_exiting.
Proof. unfold disable_interrupt_window_exiting. vt_go. Qed.
Lemma vt_reinject : vt (λ _, True) reinject_vectored_event reinject_vectored_event.
Proof. unfold reinject_vectored_event. vt_go. Qed.
#[export] Hint Resolve vt_window_on vt_window_off vt_reinject : vt.

Lemma vt_inject_eligible : vt (λ _, True) inject_eligible inject_eligible.
Proof.
  unfold inject_eligible. apply (rt_bind sim (λ _, True)); [apply vt_reinject|]. intros b _. vt_go.
Qed.

Lemma pending_vector_width a v : apic_pending_vector a = Some v → in_width 8 v.
Proof.
  unfold apic_pending_vector. destruct (negb _); [done|]. destruct (last_word 8 (irr a)) as [[i w]|]; [|done].
  intros H%(inj Some). subst v. apply in_width_u8.
Qed.

Lemma vt_deliver_pending : vt (λ _, True) deliver_pending deliver_pending.
Proof.
  unfold deliver_pending. apply vt_get; [reflexivity|]. intros s Hs. cbv beta.
  destruct (apic_pending_vector (apic s)) as [v|] eqn:Hv; [|vt_go]. apply pending_vector_width in Hv. vt_go.
  - apply vt_inject_exception; [done|done].
  - apply core_apic; [|done]. apply accept_ok; [apply H1|exact Hv].
Qed.
#[export] Hint Resolve vt_inject_eligible vt_deliver_pending : vt.

(** Arming changes the arming and the statistics only. *)
Lemma arm_shape eax s :
  let s' := arm_for_next_iteration eax s in s' = with_stats (stats s') (with_pebs_state (pebs_state s') s).
Proof.
  unfold arm_for_next_iteration. cbv zeta. destruct (pebs_state s) as [p|] eqn:Hp; [|by rewrite Hp; destruct s; cbn in *; subst].
  destruct (if negb _ then _ else _) as [r p'].
  destruct r as [[]|]; by destruct (match armed_action p with Some _ => _ | None => _ end).
Qed.
Lemma arm_upd eax e c st s :
  pebs_state (arm_for_next_iteration eax (upd e c st s)) = pebs_state (arm_for_next_iteration eax s).
Proof.
  unfold arm_for_next_iteration. cbv zeta.
  change (pebs_state (upd e c st s)) with (pebs_state s). destruct (pebs_state s) as [p|]; [|done].
  change (arm_targets (upd e c st s)) with (arm_targets s). cbn [vfields apic upd with_stats with_clock with_events].
  destruct (if negb _ then _ else _) as [r p'].
  destruct r as [[]|]; by destruct (match armed_action p with Some _ => _ | None => _ end).
Qed.

Lemma pset_ok r v p : pebs_ok p → in_width (preg_width r) v → pebs_ok (pset r v p).
Proof.
  intros [Hr Ha] Hv. constructor; [|done]. intros r'. cbn. destruct (decide (r' = r)) as [->|]; [done|apply Hr].
Qed.
Lemma set_armed_ok a p : pebs_ok p → (∀ v, a = Some v → in_width 8 v) → pebs_ok (set_armed a p).
Proof. intros [Hr Ha] Hv. by constructor. Qed.
Lemma arm_precise_ok eax p cur t a ic off :
  pebs_ok p → in_width 64 t → 0 ≤ cur → in_width 8 a → in_width 64 ic → in_width 64 off →
  pebs_ok (arm_precise_exit eax p cur t a ic off).2.
Proof.
  intros Hp Ht Hcur Ha Hic Hoff. unfold arm_precise_exit. cbv zeta. pose proof (margin_range eax).
  destruct (Z.ltb_spec t cur); [done|]. destruct (Z.ltb_spec (t - cur) (PEBS_MIN_DELTA + get_pebs_margin eax)) as [|Hd]; [done|].
  unfold PEBS_MIN_DELTA in Hd. cbn [snd].
  assert (∀ q, pebs_ok q → pebs_ok (mkPebs (preg_of q) (armed_action q) true)) as Hl by (intros q [? ?]; by constructor).
  apply Hl. apply set_armed_ok; [|by intros v [= <-]].
  repeat (apply pset_ok; cbn [preg_width]); try done.
  - apply in_width_land_r; [lia|by apply width_const].
  - destruct Ht. split; lia.
Qed.

Lemma option_min_width l m : Forall (λ o, ∀ t, o = Some t → in_width 64 t) l → option_min l = Some m → in_width 64 m.
Proof. intros Hl Hm. pose proof (option_min_spec l) as H. rewrite Hm in H. destruct H as [Hin _]. rewrite Forall_forall in Hl. by apply (Hl _ Hin). Qed.

Lemma arm_targets_width s : core_ok s → Forall (λ o, ∀ t, o = Some t → in_width 64 t) (arm_targets s).
Proof.
  intros Hs. repeat apply Forall_cons_2; try done.
  - intros t. destruct (_ =? 0); [done|]. intros [= <-]. apply (ak_regs _ (vk_apic _ Hs) ATimerDeadline).
  - intros t. unfold next_io_channel_target_tsc. cbv zeta. repeat (case_match; [done|]). intros [= <-]. apply (ck_target _ (vk_channel _ Hs)).
  - apply (vk_stop _ Hs).
  - intros t. unfold next_single_step_start_tsc. destruct (single_step_tsc_range s) as [[a b]|] eqn:Hr; [|done].
    case_match; [|done]. intros [= <-]. apply (vk_range _ Hs _ _ Hr).
Qed.

Lemma vt_arm eax : vt (λ _, True) (modify (arm_for_next_iteration eax)) (modify (arm_for_next_iteration eax)).
Proof.
  apply rt_modify. intros s1 s2 [(e & c & st & ->) Hev Hco K1 K2]. rewrite (arm_shape eax s1), (arm_shape eax (upd e c st s1)), arm_upd.
  split; [by eexists _, _, _|done| |done..]. cbn [pebs_state with_stats with_pebs_state].
  assert (core_ok (with_pebs_state (pebs_state (arm_for_next_iteration eax s1)) s1)) as Hc; [|by destruct Hc; constructor].
  apply core_pebs; [|done]. intros p'. unfold arm_for_next_iteration. cbv zeta.
  destruct (pebs_state s1) as [p|] eqn:Hp; [|by rewrite Hp]. pose proof (vk_pebs _ Hco p Hp) as Hk.
  set (q := if match armed_action p with Some _ => true | None => false end then _ else p).
  assert (pebs_ok q) as Hq.
  { unfold q. destruct (armed_action p); [|done]. apply pset_ok; [done|]. cbn. pose proof (pk_regs _ Hk ItersSinceArm). unfold in_width in *; cbn in *. lia. }
  assert (pebs_ok (if negb (default 0 (option_min (arm_targets s1)) =? 0) then
     let '(r, p0) := arm_precise_exit eax q (u64 (vfields s1 LastInstructionCount + vfields s1 TscOffset))
        (default 0 (option_min (arm_targets s1))) (Z.land (areg_of (apic s1) ALvtTimer) 0xFF) (vfields s1 LastInstructionCount) (vfields s1 TscOffset) in
     (Some r, if decide (r = Armed) then p0 else disarm_precise_exit p0) else (None, disarm_precise_exit q)).2) as Hr.
  { destruct (negb _); [|by apply set_armed_ok].
    pose proof (arm_precise_ok eax q (u64 (vfields s1 LastInstructionCount + vfields s1 TscOffset))
      (default 0 (option_min (arm_targets s1))) (Z.land (areg_of (apic s1) ALvtTimer) 0xFF) (vfields s1 LastInstructionCount)
      (vfields s1 TscOffset) Hq) as Hx.
    destruct (arm_precise_exit _ _ _ _ _ _ _) as [r p0]. cbn [snd] in *.
    assert (pebs_ok p0) as Hp0.
    { apply Hx; [|apply in_width_u64|width|apply (vk_fields _ Hco LastInstructionCount)|apply (vk_fields _ Hco TscOffset)].
      destruct (option_min _) as [m|] eqn:Hm; [|by apply width_const]. by apply (option_min_width _ m (arm_targets_width _ Hco)). }
    destruct (decide (r = Armed)); [done|by apply set_armed_ok]. }
  destruct (if negb _ then _ else _) as [r p2]. cbn [snd] in Hr.
  destruct r as [[]|]; destruct (match armed_action p with Some _ => _ | None => _ end); cbn; by intros [= <-].
Qed.
#[export] Hint Resolve vt_arm : vt.

Lemma vt_inject_pending eax : vt (λ _, True) (inject_pending_interrupt eax) (inject_pending_interrupt eax).
Proof.
  unfold inject_pending_interrupt. apply (rt_bind sim (λ _, True)); [apply vt_inject_eligible|]. intros b _. vt_go.
Qed.
#[export] Hint Resolve vt_inject_pending : vt.

Lemma i64_range z : in_i64 (i64 z).
Proof.
  unfold i64, in_i64. pose proof (in_width_u64 z) as [? ?]. destruct (Z.ltb_spec (u64 z) (2 ^ 63)); lia.
Qed.
Lemma sat_sub_width a b : in_width 64 a → 0 ≤ b → in_width 64 (a -| b).
Proof. unfold in_width, saturating_sub. lia. Qed.

Lemma vt_pebs_precise_exit : vt (λ _, True) handle_pebs_precise_exit handle_pebs_precise_exit.
Proof.
  unfold handle_pebs_precise_exit. apply vt_get; [reflexivity|]. intros s Hs. cbv beta zeta. vt_one; [|vt_one; [|vt_go]].
  - set (r := match pebs_state s with Some p => preg_of p | None => λ _, 0 end).
    assert (∀ x, in_width (preg_width x) (r x)) as Hr.
    { intros x. unfold r. destruct (pebs_state s) as [p|] eqn:Hp; [apply (pk_regs _ (vk_pebs _ Hs p Hp))|]. by destruct x; apply width_const. }
    vt_one; [|vt_go]. vt_go.
    all: cbn [vfield_ok]; try apply i64_range.
    + apply (Hr ItersSinceArm).
    + apply sat_sub_width; [apply (Hr ArmedTargetTsc)|]. pose proof (Hr ArmedInstCount) as [? _]. pose proof (Hr ArmedTscOffset) as [? _].
      unfold saturating_add, u64_MAX. lia.
  - apply sim_modify; [reflexivity..|]. intros s' Hs'. apply core_pebs; [|done]. intros p.
    destruct (pebs_state s') as [q|] eqn:Hq; [|done]. cbn. intros [= <-]. apply set_armed_ok; [|done]. by apply (vk_pebs _ Hs').
Qed.
#[export] Hint Resolve vt_pebs_precise_exit : vt.

Lemma vt_note_exit reason qual :
  vt (λ _, True) (modify (note_exit reason qual)) (modify (note_exit reason qual)).
Proof.
  apply sim_modify; try reflexivity.
  - intros e c st s. unfold note_exit. cbv zeta.
    change (non_deterministic_exit reason qual (upd e c st s)) with (non_deterministic_exit reason qual s).
    by destruct (negb (non_deterministic_exit reason qual s)).
  - intros s. unfold note_exit. cbv zeta. by destruct (negb _).
  - intros s. unfold note_exit. cbv zeta. by destruct (negb _).
  - intros s Hs. unfold note_exit. cbv zeta. destruct (negb _); [|by apply core_det].
    apply core_set_field; [apply in_width_u64|by apply core_det].
Qed.
#[export] Hint Resolve vt_note_exit : vt.

(** ** Time *)
Lemma vt_rdtsc_exit : vt (λ _, True) handle_rdtsc handle_rdtsc.
Proof. unfold handle_rdtsc. vt_go. Qed.
Lemma vt_rdtscp_exit : vt (λ _, True) handle_rdtscp handle_rdtscp.
Proof. unfold handle_rdtscp. vt_go. Qed.
Lemma vt_rdpmc_exit : vt (λ _, True) handle_rdpmc handle_rdpmc.
Proof. unfold handle_rdpmc. vt_go. Qed.

Lemma idle_target_width s t : core_ok s → idle_target s = Some t → in_width 64 t.
Proof.
  intros Hs. unfold idle_target. cbv zeta. destruct (0 <? _); [|done]. intros [= <-].
  pose proof (arm_targets_width s Hs) as Hw. rewrite Forall_forall in Hw.
  pose proof (ak_regs _ (vk_apic _ Hs) ATimerDeadline) as Hd. cbn in Hd.
  pose proof (Hw (next_io_channel_target_tsc s) ltac:(right; left)) as Hi. pose proof (vk_stop _ Hs) as Ht.
  destruct (next_io_channel_target_tsc s) as [i|], (stop_at_tsc s) as [t'|];
    try specialize (Hi _ eq_refl); try specialize (Ht _ eq_refl); unfold in_width in *; lia.
Qed.
Lemma vt_idle : vt (λ _, True) handle_idle handle_idle.
Proof.
  unfold handle_idle. vt_one. vt_one. apply (rt_bind sim (λ o, ∀ t, o = Some t → in_width 64 t)).
  { apply vt_gets; [reflexivity|]. intros s Hs t. by apply idle_target_width. }
  intros o Ho. vt_go. cbn. by apply Ho.
Qed.

(** ** Ports *)
Lemma to_bcd_width v : in_width 8 v → in_width 8 (to_bcd v).
Proof.
  intros Hv. unfold to_bcd. apply in_width_lor; [lia|apply in_width_u8|]. unfold in_width in *.
  pose proof (Z.mod_pos_bound v 10). lia.
Qed.
Lemma rtc_read_width r tsc freq :
  rtc_ok r → in_width 64 tsc → in_width 64 freq → ∃ v, read_register_with_tsc r tsc freq = Some v ∧ in_width 8 v.
Proof.
  intros [Hi Ht] Htsc Hf. unfold read_register_with_tsc. cbv zeta. set (secs := _ + _).
  assert (0 ≤ secs).
  { unfold secs. unfold checked_div. unfold in_width in *. destruct (Z.eqb_spec freq 0); cbn; [lia|].
    assert (0 ≤ tsc / freq) by (apply Z.div_pos; lia). lia. }
  destruct (year_loop_spec (year_fuel (secs / 86400)) 1970 (secs / 86400)) as (y & rd & Hy & _).
  { apply Z.div_pos; lia. }
  { unfold year_fuel. assert (0 ≤ secs / 86400) by (apply Z.div_pos; lia).
    rewrite Nat2Z.inj_succ, Z2Nat.id by (apply Z.div_pos; lia). pose proof (Z.mul_succ_div_gt (secs / 86400) 365). lia. }
  unfold days_to_date. rewrite Hy. cbn [mbind option_bind].
  destruct (month_loop _ _ _) as [m rd'] eqn:Hm. eexists. split; [done|]. cbv zeta.
  assert (in_width 8 m) as Hmw.
  { assert (∀ ms k r0, month_loop ms k r0 = (m, rd') → k ≤ m ≤ k + Z.of_nat (length ms)) as Hb.
    { induction ms as [|d ms IH]; intros k r0; cbn; [intros [= <- <-]; lia|]. destruct (_ <? _); [intros [= <- <-]; lia|]. intros E%IH. lia. }
    apply Hb in Hm. destruct (is_leap_year y); cbn in Hm; split; lia. }
  repeat case_match; try apply to_bcd_width; try apply in_width_u8; try done; by apply width_const.
Qed.

Lemma vt_out_port port byte dlab :
  in_width 8 byte → vt (λ _, True) (out_port port byte dlab) (out_port port byte dlab).
Proof.
  intros Hb. unfold out_port. vt_go.
  - apply (vt_emit _ (λ t, OSerialByte byte a t)); [done|done|]. intros t b Ht. done.
  - apply (rt_bind sim apic_ok).
    { apply vt_demand; [reflexivity|]. intros s Hs. by apply ioapic_deliver_ok; [apply Hs..|]. }
    intros x Hx. vt_go.
  - apply core_rtc; [|done]. constructor; cbn; [width|]. apply (tk_time _ (vk_rtc _ H)).
Qed.

Lemma io_mask_width size : in_width 32 (Z.shiftl 1 (io_bytes_of size * 8) - 1).
Proof. by destruct size; apply width_const. Qed.

Lemma vt_in_port port size dlab :
  vt (in_width 32) (demand (in_port port (io_bytes_of size) dlab)) (demand (in_port port (io_bytes_of size) dlab)).
Proof.
  apply vt_demand; [reflexivity|]. intros s Hs. unfold in_port.
  assert (∀ r, in_width 32 (serial s r)) as Hser by (intros r; eapply in_width_mono; [apply (vk_serial _ Hs)|lia]).
  repeat match goal with |- context [if ?b then _ else _] => destruct b end; try (eexists; split; [reflexivity|]);
    try apply Hser; try by apply width_const.
  - by destruct size; apply width_const.
  - destruct (rtc_read_width (rtc s) (vfields s EmulatedTsc) (vfields s TscFrequency) (vk_rtc _ Hs)
      (vk_fields _ Hs EmulatedTsc) (vk_fields _ Hs TscFrequency)) as (v & -> & Hv).
    exists v. split; [done|]. eapply in_width_mono; [exact Hv|lia].
Qed.

Lemma vt_io qual : vt (λ _, True) (handle_io qual) (handle_io qual).
Proof.
  unfold handle_io. vt_one; [vt_go|]. vt_one. vt_one. vt_one; [|vt_go].
  pose proof (io_mask_width (io_size qual)) as Hm. destruct (io_direction qual).
  - vt_one. apply vt_out_port. width.
  - apply (rt_bind sim (in_width 32)); [apply vt_in_port|]. intros v Hv. vt_go.
    pose proof (vk_gprs _ H RAX). width.
Qed.

(** ** Randomness *)
Lemma generate_ok r : rng_ok r → rng_ok (generate r).2 ∧ ∀ v, (generate r).1 = Some v → in_width 64 v.
Proof.
  intros Hr. pose proof (gk_state _ Hr) as [[Hs Hn] Hl Hb Hv]. unfold generate, next_seeded_u64. destruct (rs_mode r); cbn.
  - split; [|by intros v [= <-]; apply xorshift_width]. destruct Hr. constructor; try done. constructor; cbn; try done.
    split; [by apply xorshift_width|]. intros E. apply Hn. apply (xorshift_inj (rs_seed r) 0); [done|by apply width_const|exact E].
  - split; [|apply (gk_pending _ Hr)]. destruct Hr. by constructor.
Qed.

Lemma write_gpr_ok i v size s : in_width 64 v → core_ok s → core_ok (write_gpr_by_index i v size s).
Proof.
  intros Hv Hs. unfold write_gpr_by_index. cbv zeta. destruct (reg_of_index i) as [r|]; [|done]. apply core_set_gpr; [|done].
  pose proof (vk_gprs _ Hs r). destruct size; width.
Qed.
Lemma vt_write_gpr i v size :
  in_width 64 v → vt (λ _, True) (modify (write_gpr_by_index i v size)) (modify (write_gpr_by_index i v size)).
Proof.
  intros Hv. apply sim_modify; intros; try (unfold write_gpr_by_index; by destruct (reg_of_index i)).
  by apply write_gpr_ok.
Qed.

Lemma vt_random source : vt (λ _, True) (handle_random source) (handle_random source).
Proof.
  unfold handle_random, read_instruction_info, set_cf_flag. vt_one.
  apply (rt_bind sim (λ _, True)); [vt_go|]. intros info _. vt_one. vt_one; [vt_go|].
  apply (rt_bind sim (λ o, ∀ v, o = Some v → in_width 64 v)).
  { apply vt_gets; [reflexivity|]. intros s Hs v. apply (proj2 (generate_ok _ (vk_random _ Hs))). }
  intros o Ho. vt_one.
  { apply sim_modify; [reflexivity..|]. intros s Hs. apply core_random; [|done]. by apply generate_ok, vk_random. }
  destruct o as [v|]; [|vt_go]. specialize (Ho v eq_refl). vt_one; [apply vt_emit_randomness|]. vt_one; [by apply vt_write_gpr|]. vt_go.
Qed.

(** ** Control registers *)
Record caps_ok (c : cr_caps) : Prop := {
  cc_cr0 : in_width 64 (cr0_fixed0 c) ∧ in_width 64 (cr0_fixed1 c);
  cc_cr4 : in_width 64 (cr4_fixed0 c) ∧ in_width 64 (cr4_fixed1 c);
}.
Lemma constrain_eq f0 f1 v : constrain f0 f1 v = Z.land (Z.lor v (Z.land f0 f1)) (Z.lor f0 f1).
Proof. unfold constrain. zbits. Qed.
Lemma constrain_width f0 f1 v : in_width 64 f0 → in_width 64 f1 → in_width 64 v → in_width 64 (constrain f0 f1 v).
Proof. intros. rewrite constrain_eq. apply in_width_land_r; [lia|]. by apply in_width_lor. Qed.

Lemma gpr_value_width i s : core_ok s → in_width 64 (get_gpr_value i s).
Proof. intros Hs. unfold get_gpr_value. destruct (reg_of_index i); [apply (vk_gprs _ Hs)|by apply width_const]. Qed.
Lemma vt_get_gpr_value i : vt (in_width 64) (gets (get_gpr_value i)) (gets (get_gpr_value i)).
Proof. apply vt_gets; [reflexivity|]. intros s. apply gpr_value_width. Qed.
Lemma vt_set_gpr_value i v :
  in_width 64 v → vt (λ _, True) (modify (set_gpr_value i v)) (modify (set_gpr_value i v)).
Proof.
  intros Hv. apply sim_modify; intros; unfold set_gpr_value; destruct (reg_of_index i); try done. by apply core_set_gpr.
Qed.
#[export] Hint Resolve vt_set_gpr_value : vt.

Lemma vt_mov_to_cr caps cr v : caps_ok caps → in_width 64 v → vt (λ _, True) (mov_to_cr caps cr v) (mov_to_cr caps cr v).
Proof. intros [[? ?] [? ?]] Hv. unfold mov_to_cr. vt_go; widths; by apply constrain_width. Qed.
Lemma vt_mov_from_cr cr : vt (in_width 64) (mov_from_cr cr) (mov_from_cr cr).
Proof.
  unfold mov_from_cr. repeat (vt_one; [first [apply (vt_vmread GuestCr0)|apply (vt_vmread GuestCr3)|apply (vt_vmread GuestCr4)|apply rt_ret; by apply width_const]|]).
  vt_go.
Qed.
Lemma vt_rewrite_cr0 f e1 e2 :
  (∀ v, in_width 64 v → in_width 64 (f v)) → vt (λ _, True) (rewrite_cr0 f e1 e2) (rewrite_cr0 f e1 e2).
Proof. intros Hf. unfold rewrite_cr0. vt_go; widths; by apply Hf. Qed.

Lemma vt_cr_access caps qual :
  caps_ok caps → vt (λ _, True) (handle_cr_access caps qual) (handle_cr_access caps qual).
Proof.
  intros Hc. unfold handle_cr_access. vt_one. apply (rt_bind sim (in_width 64)); [apply vt_get_gpr_value|]. intros v Hv.
  vt_one; [|vt_go]. destruct (access_type qual).
  - by apply vt_mov_to_cr.
  - apply (rt_bind sim (in_width 64)); [apply vt_mov_from_cr|]. intros w Hw. vt_go.
  - apply vt_rewrite_cr0. intros w Hw. width.
  - apply vt_rewrite_cr0. intros w Hw. width.
Qed.

(** ** Exceptions and XCR0 *)
Lemma vt_exception_nmi : vt (λ _, True) handle_exception_nmi handle_exception_nmi.
Proof.
  unfold handle_exception_nmi. vt_go. apply vt_inject_exception; [by apply width_const|]. intros c [= <-]. by widths.
Qed.
Lemma vt_xsetbv : vt (λ _, True) handle_xsetbv handle_xsetbv.
Proof. unfold handle_xsetbv. vt_go. cbn [vfield_ok]. apply in_width_lor; [lia|apply in_width_u64|width]. Qed.

(** ** CPUID *)
Definition regs4_ok (r : regs4) : Prop :=
  let '(a, b, c, d) := r in in_width 32 a ∧ in_width 32 b ∧ in_width 32 c ∧ in_width 32 d.
Lemma clear_bits_width bits x : in_width 32 x → in_width 32 (clear_bits bits x).
Proof. unfold clear_bits. revert x. induction bits as [|b bits IH]; intros x Hx; cbn; [done|]. apply IH. by apply in_width_ldiff. Qed.
Lemma filter_cpuid_ok leaf sub freq host : in_width 32 sub → regs4_ok host → regs4_ok (filter_cpuid leaf sub freq host).
Proof.
  destruct host as [[[a b] c] d]. intros Hs (Ha & Hb & Hc & Hd). unfold filter_cpuid, cpuid_leaf_0x1, cpuid_leaf_0xD, cpuid_topology.
  repeat match goal with |- context [if ?b then _ else _] => destruct b end; cbn [regs4_ok zeros4 brand_dwords];
    repeat split_and; first [ by apply clear_bits_width | width ].
Qed.
Lemma vt_cpuid cpuid : (∀ l n, regs4_ok (cpuid l n)) → vt (λ _, True) (handle_cpuid cpuid) (handle_cpuid cpuid).
Proof.
  intros Hh. unfold handle_cpuid. do 4 vt_one. cbv zeta.
  pose proof (filter_cpuid_ok (u32 a) (u32 a0) a1 _ (in_width_u32 a0) (Hh (u32 a) (u32 a0))) as Hf.
  destruct (filter_cpuid _ _ _ _) as [[[x b] c] d]. destruct Hf as (? & ? & ? & ?). vt_go.
Qed.

(** ** Model-specific registers *)
Ltac mtrr_unfold :=
  unfold is_mtrr, IA32_MTRR_DEF_TYPE, IA32_MTRR_PHYSBASE0, IA32_MTRR_PHYSMASK9, IA32_MTRR_FIX64K_00000,
    IA32_MTRR_FIX16K_80000, IA32_MTRR_FIX16K_A0000, IA32_MTRR_FIX4K_C0000, IA32_MTRR_FIX4K_F8000, MTRR_VAR_MAX in *;
  rewrite ?orb_true_iff, ?andb_true_iff, ?orb_false_iff, ?andb_false_iff, ?Z.eqb_eq, ?Z.eqb_neq, ?Z.leb_le, ?Z.leb_gt, ?Z.ltb_lt, ?Z.ltb_ge in *.

(** The register behind each number. *)
Inductive mtrr_loc := LDef | LBase (i : nat) | LMask (i : nat) | L64k | L16k (i : nat) | L4k (i : nat).
Definition mtrr_number (l : mtrr_loc) : Z :=
  match l with
  | LDef => 0x2FF | LBase i => 0x200 + 2 * Z.of_nat i | LMask i => 0x201 + 2 * Z.of_nat i
  | L64k => 0x250 | L16k i => 0x258 + Z.of_nat i | L4k i => 0x268 + Z.of_nat i
  end.
Definition mtrr_loc_ok (l : mtrr_loc) : Prop :=
  match l with LBase i | LMask i => (i < 10)%nat | L16k i => (i < 2)%nat | L4k i => (i < 8)%nat | _ => True end.
Definition mtrr_get (l : mtrr_loc) (m : MtrrState) : option Z :=
  match l with
  | LDef => Some (def_type m) | LBase i => fst <$> var m !! i | LMask i => snd <$> var m !! i
  | L64k => Some (fixed_64k m) | L16k i => fixed_16k m !! i | L4k i => fixed_4k m !! i
  end.
Definition mtrr_set (l : mtrr_loc) (v : Z) (m : MtrrState) : MtrrState :=
  match l with
  | LDef => mkMtrr v (fixed_4k m) (fixed_16k m) (fixed_64k m) (var m)
  | LBase i => mkMtrr (def_type m) (fixed_4k m) (fixed_16k m) (fixed_64k m) (alter (λ p, (v, p.2)) i (var m))
  | LMask i => mkMtrr (def_type m) (fixed_4k m) (fixed_16k m) (fixed_64k m) (alter (λ p, (p.1, v)) i (var m))
  | L64k => mkMtrr (def_type m) (fixed_4k m) (fixed_16k m) v (var m)
  | L16k i => mkMtrr (def_type m) (fixed_4k m) (<[i := v]> (fixed_16k m)) (fixed_64k m) (var m)
  | L4k i => mkMtrr (def_type m) (<[i := v]> (fixed_4k m)) (fixed_16k m) (fixed_64k m) (var m)
  end.

Lemma is_mtrr_loc n : is_mtrr n = true → ∃ l, n = mtrr_number l ∧ mtrr_loc_ok l.
Proof.
  intros Hn. mtrr_unfold. destruct Hn as [[[[[->|[H1 H2]]| ->]| ->]| ->]|[H1 H2]].
  - by exists LDef.
  - pose proof (Z.div_mod (n - 0x200) 2 ltac:(lia)) as E. pose proof (Z.mod_pos_bound (n - 0x200) 2 ltac:(lia)).
    destruct (Z.eqb_spec ((n - 0x200) mod 2) 0).
    + exists (LBase (Z.to_nat ((n - 0x200) / 2))). cbn. lia.
    + exists (LMask (Z.to_nat ((n - 0x200) / 2))). cbn. lia.
  - by exists L64k.
  - exists (L16k 0). cbn. lia.
  - exists (L16k 1). cbn. lia.
  - exists (L4k (Z.to_nat (n - 0x268))). cbn. lia.
Qed.
Lemma mtrr_number_inj l l' : mtrr_loc_ok l → mtrr_loc_ok l' → mtrr_number l = mtrr_number l' → l = l'.
Proof. destruct l, l'; cbn; intros; try lia; f_equal; lia. Qed.

Ltac mtrr_ifs Hl :=
  repeat match goal with |- context [if ?b then _ else _] =>
    let E := fresh in destruct b eqn:E; try (exfalso; clear -E Hl; mtrr_unfold; lia); try clear E end.

Lemma half_even i : (2 * Z.of_nat i) / 2 = Z.of_nat i ∧ (2 * Z.of_nat i) mod 2 = 0.
Proof. split; [rewrite Z.mul_comm; by apply Z.div_mul|rewrite Z.mul_comm; by apply Z.mod_mul]. Qed.
Lemma half_odd i : (1 + 2 * Z.of_nat i) / 2 = Z.of_nat i ∧ (1 + 2 * Z.of_nat i) mod 2 = 1.
Proof. split; Z.to_euclidean_division_equations; lia. Qed.

Lemma read_mtrr_loc l m : mtrr_loc_ok l → read_mtrr (mtrr_number l) m = mtrr_get l m.
Proof.
  destruct l as [|i|i| |i|i]; cbn [mtrr_number mtrr_get mtrr_loc_ok]; intros Hl; unfold read_mtrr; cbv zeta; [done|..].
  - replace (0x200 + 2 * Z.of_nat i - IA32_MTRR_PHYSBASE0) with (2 * Z.of_nat i) by (unfold IA32_MTRR_PHYSBASE0; lia).
    destruct (half_even i) as [-> ->]. rewrite Nat2Z.id. mtrr_ifs Hl. by destruct (var m !! i) as [[]|].
  - replace (0x201 + 2 * Z.of_nat i - IA32_MTRR_PHYSBASE0) with (1 + 2 * Z.of_nat i) by (unfold IA32_MTRR_PHYSBASE0; lia).
    destruct (half_odd i) as [-> ->]. rewrite Nat2Z.id. mtrr_ifs Hl. by destruct (var m !! i) as [[]|].
  - done.
  - replace (0x258 + Z.of_nat i - IA32_MTRR_FIX16K_80000) with (Z.of_nat i) by (unfold IA32_MTRR_FIX16K_80000; lia).
    rewrite Nat2Z.id. by mtrr_ifs Hl.
  - replace (0x268 + Z.of_nat i - IA32_MTRR_FIX4K_C0000) with (Z.of_nat i) by (unfold IA32_MTRR_FIX4K_C0000; lia).
    rewrite Nat2Z.id. by mtrr_ifs Hl.
Qed.

Lemma alter_eq_insert {A} (f : A → A) i (l : list A) x : l !! i = Some x → alter f i l = <[i := f x]> l.
Proof.
  revert i. induction l as [|y l IH]; intros [|i]; try done; cbn; [by intros [= ->]|]. intros H. f_equal. by apply IH.
Qed.

Lemma write_mtrr_loc l v m : mtrr_loc_ok l → mtrr_ok m → write_mtrr (mtrr_number l) v m = Some (mtrr_set l v m).
Proof.
  intros Hl [_ _ [L4 _] [L16 _] [Lv _]].
  destruct l as [|i|i| |i|i]; cbn [mtrr_number mtrr_set mtrr_loc_ok] in *; unfold write_mtrr; cbv zeta; [done|..].
  - replace (0x200 + 2 * Z.of_nat i - IA32_MTRR_PHYSBASE0) with (2 * Z.of_nat i) by (unfold IA32_MTRR_PHYSBASE0; lia).
    destruct (half_even i) as [-> ->]. rewrite Nat2Z.id. mtrr_ifs Hl.
    destruct (lookup_lt_is_Some_2 (var m) i) as [[x y] Hp]; [lia|]. rewrite Hp. cbn. by rewrite (alter_eq_insert _ _ _ _ Hp).
  - replace (0x201 + 2 * Z.of_nat i - IA32_MTRR_PHYSBASE0) with (1 + 2 * Z.of_nat i) by (unfold IA32_MTRR_PHYSBASE0; lia).
    destruct (half_odd i) as [-> ->]. rewrite Nat2Z.id. mtrr_ifs Hl.
    destruct (lookup_lt_is_Some_2 (var m) i) as [[x y] Hp]; [lia|]. rewrite Hp. cbn. by rewrite (alter_eq_insert _ _ _ _ Hp).
  - done.
  - replace (0x258 + Z.of_nat i - IA32_MTRR_FIX16K_80000) with (Z.of_nat i) by (unfold IA32_MTRR_FIX16K_80000; lia).
    rewrite Nat2Z.id. mtrr_ifs Hl. destruct (lookup_lt_is_Some_2 (fixed_16k m) i) as [x Hp]; [lia|]. by rewrite Hp.
  - replace (0x268 + Z.of_nat i - IA32_MTRR_FIX4K_C0000) with (Z.of_nat i) by (unfold IA32_MTRR_FIX4K_C0000; lia).
    rewrite Nat2Z.id. mtrr_ifs Hl. destruct (lookup_lt_is_Some_2 (fixed_4k m) i) as [x Hp]; [lia|]. by rewrite Hp.
Qed.

Lemma mtrr_get_ok l m : mtrr_loc_ok l → mtrr_ok m → ∃ x, mtrr_get l m = Some x ∧ in_width 64 x.
Proof.
  intros Hl [Hd H64 [L4 W4] [L16 W16] [Lv Wv]]. destruct l as [|i|i| |i|i]; cbn in *; try by eexists.
  - destruct (lookup_lt_is_Some_2 (var m) i) as [p Hp]; [lia|]. rewrite Hp. eexists. split; [done|]. by eapply Forall_lookup_1 in Wv as [? _].
  - destruct (lookup_lt_is_Some_2 (var m) i) as [p Hp]; [lia|]. rewrite Hp. eexists. split; [done|]. by eapply Forall_lookup_1 in Wv as [_ ?].
  - destruct (lookup_lt_is_Some_2 (fixed_16k m) i) as [p Hp]; [lia|]. exists p. split; [done|]. by eapply Forall_lookup_1 in W16.
  - destruct (lookup_lt_is_Some_2 (fixed_4k m) i) as [p Hp]; [lia|]. exists p. split; [done|]. by eapply Forall_lookup_1 in W4.
Qed.
Lemma mtrr_set_ok l v m : mtrr_ok m → in_width 64 v → mtrr_ok (mtrr_set l v m).
Proof.
  intros [Hd H64 [L4 W4] [L16 W16] [Lv Wv]] Hv. destruct l as [|i|i| |i|i]; constructor; cbn; try done; rewrite ?length_alter, ?length_insert;
    (split; [done|]); first [ assumption | by apply Forall_insert | apply Forall_alter; [done|]; by intros x _ [? ?] ].
Qed.
#[export] Instance mtrr_loc_eq_dec : EqDecision mtrr_loc.
Proof. solve_decision. Defined.
Lemma mtrr_get_set l l' v m :
  mtrr_loc_ok l → mtrr_ok m → mtrr_get l' (mtrr_set l v m) = if decide (l' = l) then Some v else mtrr_get l' m.
Proof.
  intros Hl [_ _ [L4 _] [L16 _] [Lv _]]. destruct (decide (l' = l)) as [->|Hne].
  - destruct l as [|i|i| |i|i]; cbn in *; try done.
    + destruct (lookup_lt_is_Some_2 (var m) i) as [p Hp]; [lia|]. by rewrite list_lookup_alter_eq, Hp.
    + destruct (lookup_lt_is_Some_2 (var m) i) as [p Hp]; [lia|]. by rewrite list_lookup_alter_eq, Hp.
    + apply list_lookup_insert_eq. lia.
    + apply list_lookup_insert_eq. lia.
  - destruct l as [|i|i| |i|i], l' as [|j|j| |j|j]; cbn; try done.
    all: try (rewrite list_lookup_insert_ne; [done|congruence]); try (rewrite list_lookup_alter_ne; [done|congruence]).
    all: destruct (decide (i = j)) as [->|]; [rewrite list_lookup_alter_eq; by destruct (var m !! j)|by rewrite list_lookup_alter_ne].
Qed.

Lemma read_msr_ok n s v : core_ok s → read_msr n s = inl v → ∃ x, v = Some x ∧ in_width 64 x.
Proof.
  intros Hs. unfold read_msr.
  pose proof (vk_fields _ Hs HostMiscEnable). pose proof (vk_fields _ Hs HostPlatformInfo).
  pose proof (vk_fields _ Hs Pat). pose proof (vk_fields _ Hs TscAux). pose proof (ak_regs _ (vk_apic _ Hs) ABase).
  cbn [vfield_ok reg_width] in *.
  let rec go := first
    [ done
    | match goal with |- (if ?b then _ else _) = _ → _ => destruct b eqn:? end;
      [try (intros [= <-]; eexists; split; [reflexivity|]; unfold misc_enable_for_guest; width)|go] ] in go.
  destruct (is_mtrr_loc n) as (l & -> & Hl); [done|]. rewrite read_mtrr_loc by done. intros [= <-]. apply mtrr_get_ok; [done|apply Hs].
Qed.
Lemma vt_msr_read : vt (λ _, True) handle_msr_read handle_msr_read.
Proof.
  unfold handle_msr_read. vt_one. vt_one. apply (rt_bind sim (λ r, ∀ v, r = inl v → ∃ x, v = Some x ∧ in_width 64 x)).
  { apply vt_gets; [reflexivity|]. intros s Hs v. by apply read_msr_ok. }
  intros [v|[]] Hr; [|vt_go]. destruct (Hr v eq_refl) as (x & -> & Hx). apply (rt_bind sim (in_width 64)); [|intros y Hy; vt_go].
  apply vt_demand; [reflexivity|]. intros s _. by exists x.
Qed.

Lemma write_mtrr_ok n v m : is_mtrr n = true → mtrr_ok m → in_width 64 v → ∃ m', write_mtrr n v m = Some m' ∧ mtrr_ok m'.
Proof.
  intros Hn Hm Hv. destruct (is_mtrr_loc n Hn) as (l & -> & Hl). eexists. split; [by apply write_mtrr_loc|]. by apply mtrr_set_ok.
Qed.
Lemma is_mtrr_range n : is_mtrr n = true → 0x200 ≤ n ≤ 0x2FF.
Proof. intros (l & -> & Hl)%is_mtrr_loc. destruct l; cbn in *; lia. Qed.
Lemma msr_value_width rdx rax : in_width 64 (Z.lor (Z.shiftl (Z.land rdx 0xFFFFFFFF) 32) (Z.land rax 0xFFFFFFFF)).
Proof.
  apply in_width_lor; [lia| |width]. change 0xFFFFFFFF with (Z.ones 32). rewrite Z.land_ones, Z.shiftl_mul_pow2 by lia.
  pose proof (Z.mod_pos_bound rdx (2 ^ 32) ltac:(lia)). split; lia.
Qed.

Lemma vt_msr_write : vt (λ _, True) handle_msr_write handle_msr_write.
Proof.
  unfold handle_msr_write. do 5 vt_one. cbv beta zeta. pose proof (msr_value_width a0 a1) as Hv. set (v := Z.lor _ _) in *.
  destruct (is_mtrr (u32 a)) eqn:Hm; [|vt_go]. apply (rt_bind sim mtrr_ok); [|intros m Hk; vt_go].
  apply vt_demand; [reflexivity|]. intros s Hs. by apply write_mtrr_ok, Hv; [|apply Hs].
Qed.
#[export] Hint Resolve vt_rdtsc_exit vt_rdtscp_exit vt_rdpmc_exit vt_idle vt_io vt_random vt_cr_access vt_exception_nmi
  vt_xsetbv vt_cpuid vt_msr_read vt_msr_write : vt.

(** ** A well-formed processor *)
#[export] Instance in_width_dec w z : Decision (in_width w z).
Proof. unfold in_width. apply _. Defined.

Lemma rng_default_ok : rng_ok random_default.
Proof.
  constructor; [constructor| | | | |]; cbn [random_default rs_seed rs_reply rs_reply_len rs_reply_valid rs_pending_value
    rs_buf_gva rs_req_len rs_pid]; try done.
  apply Forall_replicate. split; lia.
Qed.
Lemma mtrr_default_ok : mtrr_ok mtrr_default.
Proof.
  constructor; cbn; try by apply width_const.
  - split; [done|]. by apply (bool_decide_unpack _); vm_compute.
  - split; [done|]. by apply (bool_decide_unpack _); vm_compute.
  - split; [done|]. by apply (bool_decide_unpack _); vm_compute.
Qed.
Lemma demo_timer_ok lvt initial deadline :
  in_width 32 lvt → in_width 32 initial → in_width 64 deadline → apic_ok (demo_timer lvt initial deadline).
Proof. intros. unfold demo_timer. repeat (apply aset_ok; [|try done; try by apply width_const]). apply apic_default_ok. Qed.
Lemma demo_vcpu_ok a io count det :
  apic_ok a → in_width 64 io → in_width 64 count → vcpu_ok (demo_vcpu a io count det (Some demo_pebs)).
Proof.
  intros Ha Hio Hc. constructor.
  - constructor; try exact Ha; try apply mtrr_default_ok; try apply rng_default_ok; try by intros [].
    + by apply (bool_decide_unpack _); vm_compute.
    + constructor; [done|]. cbn. rewrite program_pin_table by (done || apply ioapic_default_ok).
      apply Forall_insert; [apply ioapic_default_ok|by apply width_const].
    + split; by apply width_const.
    + constructor; by apply width_const.
    + constructor; cbn; try done. by destruct (io =? 0).
    + split; [by apply width_const|done].
    + constructor.
    + intros p [= <-]. constructor; [|done]. by intros []; apply width_const.
  - eexists. apply event_state_new_refines.
  - intros n. apply in_width_u64.
Qed.
