(* ===== verification/Emulation.v ===== *)
(** * What the guest sees of the instructions the hypervisor emulates

    The theorems on the handlers of [Handlers]: an emulated instruction retires
    exactly once and touches no VMCS field but the guest's own registers;
    idling never passes a pending event and always wakes the guest; the
    processor CPUID shows depends on the host in named leaves only; the stored
    model-specific registers are a register file. *)
From stdpp Require Import strings.
From S2P Require Import Prelude Wire EventLog Random Rtc Apic Vcpu Relational Precise Handlers Safety.

(** ** Retirement *)

(** The VMCS fields an emulated instruction may write. *)
Definition guest_fields : list Z :=
  [GuestRip; GuestRflags; GuestCr0; Cr0ReadShadow; GuestCr3; GuestCr4; Cr4ReadShadow].
Definition same_controls s s' : Prop := ∀ f, f ∉ guest_fields → vmcs s' !! f = vmcs s !! f.

Lemma len_not_guest : VmExitInstructionLen ∉ guest_fields.
Proof. unfold guest_fields. rewrite !not_elem_of_cons. repeat split; try done. apply not_elem_of_nil. Qed.

Section Retire.
Context (rip len : Z).

(** [clean] says that the general-purpose registers are still the guest's. *)
Definition emulates (clean : bool) (m : VM ExitHandlerResult) : Prop := ∀ s,
  vmcs s !! GuestRip = Some rip → vmcs s !! VmExitInstructionLen = Some len →
  same_controls s (m s).2 ∧
  match (m s).1 with
  | Done Continue => vmcs (m s).2 !! GuestRip = Some (u64 (rip + len))
  | Done (ExitToUserspace _) =>
      clean = true ∧ gprs (m s).2 = gprs s ∧
      (vmcs (m s).2 !! GuestRip = Some rip ∨ vmcs (m s).2 !! GuestRip = Some (u64 (rip + len)))
  | Done (Error _) => False
  | Fail _ => vmcs (m s).2 !! GuestRip = Some rip
  | Stuck => True
  end.

(** A step that leaves RIP and the controls, and the registers too when [clean]. *)
Definition gentle {A} (clean : bool) (m : VM A) : Prop := ∀ s,
  same_controls s (m s).2 ∧ vmcs (m s).2 !! GuestRip = vmcs s !! GuestRip ∧ (clean = true → gprs (m s).2 = gprs s).

Lemma emulates_bind {A} clean (m : VM A) k :
  gentle clean m → (∀ a, emulates clean (k a)) → emulates clean (m ≫= k).
Proof.
  intros Hm Hk s Hr Hl. unfold mbind, M_bind. destruct (Hm s) as (Hc & Hr' & Hg). destruct (m s) as [[a|e|] s'] eqn:E; cbn [fst snd] in *.
  - destruct (Hk a s') as [Hc' Hp]; [by rewrite Hr'|by rewrite (Hc _ len_not_guest)|]. split.
    + intros f Hf. by rewrite (Hc' f Hf), (Hc f Hf).
    + destruct ((k a s').1) as [[]| |]; try done. destruct Hp as (-> & Hg' & Hrr). split; [done|]. split; [|done].
      by rewrite Hg', Hg.
  - split; [done|]. by rewrite Hr'.
  - done.
Qed.
(** The first write to a register: from here on no exit to userspace. *)
Lemma emulates_dirty {A} (m : VM A) k clean :
  gentle false m → (∀ a, emulates false (k a)) → emulates clean (m ≫= k).
Proof.
  intros Hm Hk s Hr Hl. destruct (emulates_bind false m k Hm Hk s Hr Hl) as [Hc Hp]. split; [done|].
  by destruct (((m ≫= k) s).1) as [[]| |]; try done; destruct Hp.
Qed.
Lemma emulates_exit r : emulates true (mret (ExitToUserspace r)).
Proof. intros s Hr Hl. split; [done|]. split; [done|]. split; [done|]. by left. Qed.
Lemma advance_rip_run s :
  vmcs s !! GuestRip = Some rip → vmcs s !! VmExitInstructionLen = Some len →
  advance_rip s = (Done (), with_vmcs (<[GuestRip := u64 (rip + len)]> (vmcs s)) s).
Proof.
  intros Hr Hl. unfold advance_rip, read_guest_rip, read_instruction_len, mbind, M_bind, vmread. rewrite Hr, Hl.
  unfold map_err, vmwrite. by rewrite Hr.
Qed.
Lemma emulates_retire clean r :
  r = Continue ∨ (clean = true ∧ ∃ x, r = ExitToUserspace x) → emulates clean (advance_rip;; mret r).
Proof.
  intros Hr' s Hr Hl. unfold mbind, M_bind. rewrite advance_rip_run by done. cbn [fst snd mret M_ret vmcs with_vmcs]. split.
  - intros f Hf. cbn. apply lookup_insert_ne. intros <-. by apply Hf; left.
  - destruct Hr' as [->|(-> & x & ->)]; [by rewrite lookup_insert_eq|]. split; [done|]. split; [done|]. right. by rewrite lookup_insert_eq.
Qed.

Lemma gentle_bind {A B} clean (m : VM A) (k : A → VM B) : gentle clean m → (∀ a, gentle clean (k a)) → gentle clean (m ≫= k).
Proof.
  intros Hm Hk s. unfold mbind, M_bind. destruct (Hm s) as (Hc & Hr & Hg). destruct (m s) as [[a|e|] s']; cbn [snd] in *; [|done..].
  destruct (Hk a s') as (Hc' & Hr' & Hg'). split; [intros f Hf; by rewrite (Hc' f Hf), (Hc f Hf)|]. split; [by rewrite Hr'|].
  intros Hcl. by rewrite Hg', Hg.
Qed.
Lemma gentle_id {A} clean (m : VM A) : (∀ s, (m s).2 = s) → gentle clean m.
Proof. intros Hm s. rewrite Hm. done. Qed.
Lemma gentle_modify clean (g : Vcpu → Vcpu) :
  (∀ s, vmcs (g s) = vmcs s) → (clean = true → ∀ s, gprs (g s) = gprs s) → gentle clean (modify g).
Proof. intros Hv Hg s. cbn. unfold same_controls. rewrite Hv. split; [done|]. split; [done|]. intros Hc. by apply Hg. Qed.
Lemma gentle_vmwrite clean f v : f ∈ guest_fields → f ≠ GuestRip → gentle clean (vmwrite f v).
Proof.
  intros Hf Hn s. unfold vmwrite. destruct (vmcs s !! f); [|done]. cbn. split; [|split; [|done]].
  - intros f' Hf'. cbn. apply lookup_insert_ne. by intros <-.
  - by apply lookup_insert_ne.
Qed.
Lemma gentle_map_err {A} clean e (m : VM A) : gentle clean m → gentle clean (map_err e m).
Proof. intros Hm s. specialize (Hm s). unfold map_err. by destruct (m s) as [[]]. Qed.
End Retire.

Ltac gentle_go :=
  repeat first
    [ apply gentle_bind; [|intros ?] | apply gentle_map_err
    | (apply gentle_vmwrite; [solve [repeat first [left|right]]|done])
    | (apply gentle_modify; [reflexivity|done])
    | (apply gentle_id; intros; reflexivity)
    | (apply gentle_id; intros ?; unfold vmread, demand; by case_match)
    | match goal with |- gentle _ (if ?b then _ else _) => destruct b end
    | match goal with |- gentle _ (match ?o with Some _ => _ | None => _ end) => destruct o end ].
Ltac emulates_go :=
  repeat (cbv beta zeta; first
    [ apply emulates_exit | (apply emulates_retire; first [by left|by right; eauto])
    | (apply emulates_bind; [solve [gentle_go]|intros ?]) | (apply emulates_dirty; [solve [gentle_go]|intros ?])
    | match goal with |- emulates _ _ _ (if ?b then _ else _) => destruct b end
    | match goal with |- emulates _ _ _ (match ?o with Some _ => _ | None => _ end) => destruct o end ]).

(** The handlers that emulate an instruction. *)
Inductive instruction (cpuid : Z → Z → regs4) (caps : cr_caps) : VM ExitHandlerResult → Prop :=
| instr_rdtsc : instruction cpuid caps handle_rdtsc
| instr_rdtscp : instruction cpuid caps handle_rdtscp
| instr_rdpmc : instruction cpuid caps handle_rdpmc
| instr_idle : instruction cpuid caps handle_idle
| instr_io q : instruction cpuid caps (handle_io q)
| instr_random src : instruction cpuid caps (handle_random src)
| instr_cr q : instruction cpuid caps (handle_cr_access caps q)
| instr_xsetbv : instruction cpuid caps handle_xsetbv
| instr_cpuid : instruction cpuid caps (handle_cpuid cpuid)
| instr_rdmsr : instruction cpuid caps handle_msr_read
| instr_wrmsr : instruction cpuid caps handle_msr_write.

Lemma gentle_out_port clean port byte dlab : gentle clean (out_port port byte dlab).
Proof. unfold out_port. gentle_go. Qed.
Lemma gentle_set_gpr_value i v : gentle false (modify (set_gpr_value i v)).
Proof. apply gentle_modify; [|done]. intros s. unfold set_gpr_value. by destruct (reg_of_index i). Qed.
Lemma gentle_write_gpr i v z : gentle false (modify (write_gpr_by_index i v z)).
Proof. apply gentle_modify; [|done]. intros s. unfold write_gpr_by_index. by destruct (reg_of_index i). Qed.

(** Every handler is a body whose errors [handler] turns into results. *)
Lemma instruction_emulates cpuid caps m rip len :
  instruction cpuid caps m → ∃ body, m = handler body ∧ emulates rip len true body.
Proof.
  intros []; try (eexists; split; [reflexivity|]; emulates_go).
  - unfold handle_io. destruct (io_string q); [exists (mret (ExitToUserspace IoInstruction)); split; [done|apply emulates_exit]|].
    eexists. split; [reflexivity|]. emulates_go. destruct (io_direction q); [|emulates_go].
    apply emulates_bind; [|intros ?; emulates_go]. apply gentle_bind; [gentle_go|intros ?; apply gentle_out_port].
  - apply emulates_dirty; [apply gentle_write_gpr|]. intros []. emulates_go.
  - apply emulates_dirty; [|intros []; emulates_go]. destruct (access_type q); [unfold mov_to_cr; gentle_go| |unfold rewrite_cr0; gentle_go..].
    apply gentle_bind; [unfold mov_from_cr; gentle_go|intros v; apply gentle_set_gpr_value].
  - destruct (filter_cpuid _ _ _ _) as [[[x b] c] d]. emulates_go.
  - destruct a0 as [v|[]]; emulates_go.
Qed.

(** An instruction the hypervisor emulates retires exactly once.  For every
    handler of a trapped instruction and every well-formed processor whose VMCS
    holds RIP and the instruction's length: the handler does not panic; when the
    guest is resumed RIP has moved past the instruction; when userspace is asked
    first the general-purpose registers are untouched, so that the instruction
    can run again or has been skipped; on an error RIP has not moved.  In all
    cases the only VMCS fields that change are the guest's own RIP, RFLAGS and
    control registers, and the processor stays well-formed. *)
Theorem emulated_instruction_retires cpuid caps m s rip len
  (Hm : instruction cpuid caps m) (Hs : vcpu_ok s) (Hcpuid : ∀ l n, regs4_ok (cpuid l n)) (Hcaps : caps_ok caps)
  (Hrip : vmcs s !! GuestRip = Some rip) (Hlen : vmcs s !! VmExitInstructionLen = Some len) :
  ∃ r s', m s = (Done r, s') ∧ vcpu_ok s' ∧ same_controls s s' ∧
    match r with
    | Continue => vmcs s' !! GuestRip = Some (u64 (rip + len))
    | ExitToUserspace _ =>
        gprs s' = gprs s ∧ (vmcs s' !! GuestRip = Some rip ∨ vmcs s' !! GuestRip = Some (u64 (rip + len)))
    | Error _ => vmcs s' !! GuestRip = Some rip
    end.
Proof.
  assert (vt (λ _, True) m m) as Hvt by (destruct Hm; auto with vt).
  specialize (Hvt s s (sim_refl s Hs)). destruct (instruction_emulates cpuid caps m rip len Hm) as (body & -> & Hb).
  destruct (Hb s Hrip Hlen) as [Hc Hp]. unfold handler in *. destruct (body s) as [[r|e|] s'] eqn:E; cbn [fst snd] in *.
  - destruct Hvt as (_ & _ & Hsim). exists r, s'. split; [done|]. split; [by apply (sim_ok _ _ Hsim)|]. split; [done|].
    destruct r; [done|by destruct Hp as (_ & ? & ?)|done].
  - destruct Hvt as (_ & _ & Hsim). exists (Error e), s'. split; [done|]. split; [by apply (sim_ok _ _ Hsim)|]. done.
  - done.
Qed.

(** A processor at virtual time 1000 with a one-shot timer at 101000. *)
Definition demo_host (leaf subleaf : Z) : regs4 := (0x000806F8, 0x01100800, 0x7FFAFBFF, 0xBFEBFBFF).
Definition demo_caps : cr_caps := mkCaps 0x80000021 0xFFFFFFFF 0x2000 0x3FF7FF.
Definition demo_idle : Vcpu := demo_vcpu (demo_timer 0x000EC 1000 101000) 0 1000 true (Some demo_pebs).
Lemma demo_idle_ok : vcpu_ok demo_idle.
Proof. apply demo_vcpu_ok; [apply demo_timer_ok|..]; by apply width_const. Qed.
Lemma demo_host_ok l n : regs4_ok (demo_host l n).
Proof. repeat split; vm_compute; congruence. Qed.
Lemma demo_caps_ok : caps_ok demo_caps.
Proof. repeat split; vm_compute; congruence. Qed.

Lemma emulated_instruction_retires_witness : ∃ r s',
  handle_cpuid demo_host demo_idle = (Done r, s') ∧ vmcs s' !! GuestRip = Some 0x1002 ∧ gprs s' RAX = 0x16.
Proof.
  destruct (emulated_instruction_retires demo_host demo_caps (handle_cpuid demo_host) demo_idle 0x1000 2
    (instr_cpuid _ _) demo_idle_ok demo_host_ok demo_caps_ok eq_refl eq_refl) as (r & s' & E & _).
  exists r, s'. split; [done|]. replace s' with (handle_cpuid demo_host demo_idle).2 by (by rewrite E).
  split; vm_compute; reflexivity.
Defined.

(** ** Idling *)

(** The events virtual time must not jump over. *)
Definition wake_events s : list (option Z) :=
  [ (if areg_of (apic s) ATimerDeadline =? 0 then None else Some (areg_of (apic s) ATimerDeadline));
    next_io_channel_target_tsc s; stop_at_tsc s ].

Lemma idle_run s rip len :
  vmcs s !! GuestRip = Some rip → vmcs s !! VmExitInstructionLen = Some len →
  ∃ s1, handle_idle s = (Done Continue, with_vmcs (<[GuestRip := u64 (rip + len)]> (vmcs s)) s1) ∧
    s1 = match idle_target s with
         | Some t => if vfields s EmulatedTsc <? t
                     then set_field EmulatedTsc t (set_field TscOffset (u64 (vfields s TscOffset + (t - vfields s EmulatedTsc))) s)
                     else s
         | None => s
         end.
Proof.
  intros Hr Hl. eexists. split; [|reflexivity]. unfold handle_idle, handler, get_field, gets, mbind, M_bind, modify, mret, M_ret.
  destruct (idle_target s) as [t|]; [destruct (_ <? t)|]; by erewrite advance_rip_run by done.
Qed.

Lemma idle_target_spec s t :
  core_ok s → idle_target s = Some t →
  areg_of (apic s) ATimerDeadline ≠ 0 ∧ Some t ∈ wake_events s ∧ ∀ t', Some t' ∈ wake_events s → t ≤ t'.
Proof.
  intros Hs. unfold idle_target. cbv zeta. destruct (Z.ltb_spec 0 (areg_of (apic s) ATimerDeadline)) as [Hd|]; [|done].
  intros E%(inj Some). split; [lia|]. unfold wake_events. rewrite (proj2 (Z.eqb_neq _ 0)) by lia.
  pose proof (option_min_spec [Some (areg_of (apic s) ATimerDeadline); next_io_channel_target_tsc s; stop_at_tsc s]) as Hm.
  cbn in Hm. destruct (next_io_channel_target_tsc s) as [i|], (stop_at_tsc s) as [p|]; cbn in Hm;
    destruct Hm as [Hin Hle]; rewrite ?Z.min_assoc in *; subst t; by split.
Qed.

Lemma idle_clock s t :
  vfields s EmulatedTsc = current_tsc s → in_width 64 t →
  u64 (vfields s LastInstructionCount + u64 (vfields s TscOffset + (t - vfields s EmulatedTsc))) = t.
Proof.
  intros -> Ht. unfold current_tsc, u64, wrap. rewrite Zplus_mod_idemp_r.
  replace (vfields s LastInstructionCount + (vfields s TscOffset + (t - (vfields s LastInstructionCount + vfields s TscOffset) mod 2 ^ 64)))
    with ((vfields s LastInstructionCount + vfields s TscOffset) - (vfields s LastInstructionCount + vfields s TscOffset) mod 2 ^ 64 + t) by lia.
  rewrite <-Zplus_mod_idemp_l, Zminus_mod_idemp_r, Z.sub_diag. apply Z.mod_small, Ht.
Qed.

(** An idle guest is woken, and on time.  HLT and MWAIT advance virtual time
    and nothing else: never backwards, never past the timer's deadline, the
    I/O request's time or the requested stop, and the clock stays the
    instruction count plus the offset.  With no timer running time stands
    still; with one, some event has become due, so the guest makes progress; and
    when the timer is the next event its check fires on the next entry. *)
Theorem idle_wakes_on_time s rip len (Hs : vcpu_ok s) (Hclk : vfields s EmulatedTsc = current_tsc s)
  (Hrip : vmcs s !! GuestRip = Some rip) (Hlen : vmcs s !! VmExitInstructionLen = Some len) :
  ∃ s', handle_idle s = (Done Continue, s') ∧
    vfields s EmulatedTsc ≤ vfields s' EmulatedTsc ∧ vfields s' EmulatedTsc = current_tsc s' ∧
    (∀ f, f ≠ EmulatedTsc → f ≠ TscOffset → vfields s' f = vfields s f) ∧ apic s' = apic s ∧ io_channel s' = io_channel s ∧
    (∀ t, Some t ∈ wake_events s → vfields s EmulatedTsc ≤ t → vfields s' EmulatedTsc ≤ t) ∧
    (areg_of (apic s) ATimerDeadline = 0 → vfields s' = vfields s) ∧
    (areg_of (apic s) ATimerDeadline ≠ 0 → ∃ t, Some t ∈ wake_events s ∧ t ≤ vfields s' EmulatedTsc) ∧
    ((∀ t, Some t ∈ wake_events s → areg_of (apic s) ATimerDeadline ≤ t) → timer_live s →
       areg_of (apic s) ATimerDeadline ≠ 0 → timer_due (vfields s' EmulatedTsc) (apic s') = true).
Proof.
  pose proof (ok_core _ Hs) as Hc. destruct (idle_run s rip len Hrip Hlen) as (s1 & -> & ->). eexists. split; [reflexivity|].
  assert (0 ≤ areg_of (apic s) ATimerDeadline) as Hd0 by apply (ak_regs _ (vk_apic _ Hc) ATimerDeadline).
  destruct (idle_target s) as [t|] eqn:Ht.
  - destruct (idle_target_spec s t Hc Ht) as (Hnz & Hin & Hle). pose proof (idle_target_width s t Hc Ht) as Hw.
    assert (∀ d, timer_live s → areg_of (apic s) ATimerDeadline ≤ d → timer_due d (apic s) = true) as Hdue.
    { intros d Hlive Hge. destruct (Hlive Hnz) as [He Hk]. unfold timer_due. rewrite He, Hk.
      rewrite (proj2 (Z.eqb_neq _ 0)), (proj2 (Z.leb_le _ _)) by done. done. }
    destruct (Z.ltb_spec (vfields s EmulatedTsc) t) as [Hlt|Hge].
    + unfold current_tsc. cbn [vfields apic io_channel with_vmcs]. rewrite set_field_eq, !(set_field_ne EmulatedTsc) by done.
      rewrite set_field_eq, set_field_ne by done. split; [lia|]. split; [symmetry; by apply (idle_clock s t)|].
      split; [intros f H1 H2; by rewrite !set_field_ne|].
      do 2 (split; [done|]). split; [intros t' Ht' _; by apply Hle|]. split; [done|]. split; [intros _; by exists t|].
      intros Hfirst Hlive _. apply Hdue; [done|]. by apply Hfirst.
    + split; [done|]. split; [done|]. do 3 (split; [done|]). split; [done|]. split; [done|]. split; [intros _; by exists t|].
      intros Hfirst Hlive _. apply Hdue; [done|]. specialize (Hfirst t Hin). cbn [vfields with_vmcs]. lia.
  - assert (areg_of (apic s) ATimerDeadline = 0) as E.
    { unfold idle_target in Ht. cbv zeta in Ht. destruct (Z.ltb_spec 0 (areg_of (apic s) ATimerDeadline)); [done|lia]. }
    rewrite E. cbn. split; [done|]. split; [done|]. do 3 (split; [done|]). split; [done|]. split; [done|]. split; done.
Qed.

Lemma idle_wakes_on_time_witness : ∃ s', handle_idle demo_idle = (Done Continue, s') ∧ vfields s' EmulatedTsc = 101000.
Proof.
  destruct (idle_wakes_on_time demo_idle 0x1000 2 demo_idle_ok eq_refl eq_refl eq_refl) as (s' & E & _).
  exists s'. split; [done|]. replace s' with (handle_idle demo_idle).2 by (by rewrite E). vm_compute. reflexivity.
Defined.

(** ** CPUID *)

(** The leaves in which something of the host shows through. *)
Definition host_leaves : list Z := [0x0; 0x1; 0x4; 0x7; 0xB; 0x1F; 0x80000000; 0x80000008].

Lemma filter_cpuid_host leaf sub freq h1 h2 :
  leaf ∉ host_leaves → filter_cpuid leaf sub freq h1 = filter_cpuid leaf sub freq h2.
Proof.
  unfold host_leaves. rewrite !not_elem_of_cons. intros (N0 & N1 & N4 & N7 & NB & N1F & N8 & N88 & _).
  destruct h1 as [[[a1 b1] c1] d1], h2 as [[[a2 b2] c2] d2]. unfold filter_cpuid.
  rewrite (proj2 (Z.eqb_neq _ _) N0), (proj2 (Z.eqb_neq _ _) N1), (proj2 (Z.eqb_neq _ _) N4), (proj2 (Z.eqb_neq _ _) N7),
    (proj2 (Z.eqb_neq _ _) NB), (proj2 (Z.eqb_neq _ _) N1F), (proj2 (Z.eqb_neq _ _) N8), (proj2 (Z.eqb_neq _ _) N88).
  done.
Qed.

Lemma clear_bits_spec bits x b : Forall (λ b, 0 ≤ b) bits → 0 ≤ b →
  Z.testbit (clear_bits bits x) b = Z.testbit x b && negb (existsb (Z.eqb b) bits).
Proof.
  unfold clear_bits. intros Hb H0. revert x. induction Hb as [|c bits Hc _ IH]; intros x; cbn; [by rewrite andb_true_r|].
  rewrite IH, Z.ldiff_spec, Z.shiftl_1_l, Z.pow2_bits_eqb by lia. rewrite (Z.eqb_sym c b).
  by destruct (Z.testbit x b), (b =? c), (existsb (Z.eqb b) bits).
Qed.

Lemma handle_cpuid_run cpuid s rip len :
  vmcs s !! GuestRip = Some rip → vmcs s !! VmExitInstructionLen = Some len →
  let '(a, b, c, d) := filter_cpuid (u32 (gprs s RAX)) (u32 (gprs s RCX)) (vfields s TscFrequency)
                         (cpuid (u32 (gprs s RAX)) (u32 (gprs s RCX))) in
  handle_cpuid cpuid s =
    (Done Continue, with_vmcs (<[GuestRip := u64 (rip + len)]> (vmcs s)) (set_gpr RDX d (set_gpr RCX c (set_gpr RBX b (set_gpr RAX a s))))).
Proof.
  intros Hr Hl. unfold handle_cpuid, handler, get_gpr, get_field, gets, mbind, M_bind, modify, mret, M_ret.
  destruct (filter_cpuid _ _ _ _) as [[[a b] c] d]. by erewrite advance_rip_run by done.
Qed.

Lemma set_gprs4 a b c d s r :
  gprs (set_gpr RDX d (set_gpr RCX c (set_gpr RBX b (set_gpr RAX a s)))) r =
    match r with RAX => a | RBX => b | RCX => c | RDX => d | _ => gprs s r end.
Proof. by destruct r. Qed.

(** The processor CPUID shows does not depend on the host but in eight leaves,
    and hides there what is not virtualized.  The instruction writes EAX, EBX, ECX
    and EDX only, zero-extended.  In every other leaf two hosts answer alike.
    Leaf 1 shows one fixed model with one logical processor, a hypervisor, no VMX,
    no TSC-deadline timer and no hyper-threading; leaf 7 hides SGX, TSX, AVX-512,
    SMEP, SMAP, RDSEED and ADX; leaf 0 stops at the last leaf that is handled;
    leaf 4 shows one core. *)
Theorem cpuid_shows_fixed_processor host s rip len (Hs : vcpu_ok s) (Hhost : ∀ l n, regs4_ok (host l n))
  (Hrip : vmcs s !! GuestRip = Some rip) (Hlen : vmcs s !! VmExitInstructionLen = Some len) :
  let leaf := u32 (gprs s RAX) in
  ∃ s', handle_cpuid host s = (Done Continue, s') ∧
    (∀ r, gprs s' r = gprs s r ∨ (r ∈ [RAX; RBX; RCX; RDX] ∧ in_width 32 (gprs s' r))) ∧
    (leaf ∉ host_leaves → ∀ host', handle_cpuid host' s = handle_cpuid host s) ∧
    (leaf = 0 → gprs s' RAX ≤ 0x16) ∧
    (leaf = 1 → gprs s' RAX = 0x50657 ∧ Z.shiftr (gprs s' RBX) 16 = 1 ∧ Z.testbit (gprs s' RCX) 5 = false ∧
       Z.testbit (gprs s' RCX) 24 = false ∧ Z.testbit (gprs s' RCX) 31 = true ∧ Z.testbit (gprs s' RDX) 28 = false) ∧
    (leaf = 4 → u32 (gprs s RCX) = 0 → ∀ b, 14 ≤ b < 26 → Z.testbit (gprs s' RAX) b = false) ∧
    (leaf = 7 → gprs s' RCX = 0 ∧ gprs s' RDX = 0 ∧ ∀ b, b ∈ leaf7_cleared → Z.testbit (gprs s' RBX) b = false).
Proof.
  cbv zeta. set (leaf := u32 (gprs s RAX)). set (sub := u32 (gprs s RCX)).
  pose proof (handle_cpuid_run host s rip len Hrip Hlen) as Hrun. fold leaf sub in Hrun.
  pose proof (filter_cpuid_ok leaf sub (vfields s TscFrequency) (host leaf sub) (in_width_u32 _) (Hhost _ _)) as Hok.
  pose proof (Hhost leaf sub) as Hh. destruct (host leaf sub) as [[[ha hb] hc] hd] eqn:Eh.
  destruct (filter_cpuid leaf sub _ (ha, hb, hc, hd)) as [[[a b] c] d] eqn:Ef. destruct Hok as (Wa & Wb & Wc & Wd).
  eexists. split; [exact Hrun|]. cbn [gprs with_vmcs]. setoid_rewrite set_gprs4. split; [|split].
  { intros []; auto; right; (split; [|done]); repeat first [left|right]. }
  { intros Hleaf host'. rewrite Hrun. pose proof (handle_cpuid_run host' s rip len Hrip Hlen) as Hrun'. fold leaf sub in Hrun'.
    rewrite (filter_cpuid_host leaf sub _ _ (ha, hb, hc, hd) Hleaf), Ef in Hrun'. done. }
  split; [|split; [|split]]; intros ->.
  - cbn in Ef. injection Ef as <- <- <- <-. destruct (Z.ltb_spec 0x16 ha); lia.
  - cbn in Ef. injection Ef as <- <- <- <-. split; [done|].
    split; [rewrite Z.shiftr_lor, Z.shiftr_land; cbn; by rewrite Z.land_0_r|].
    rewrite !Z.lor_spec, !Z.ldiff_spec. rewrite ?andb_false_r, ?orb_true_r. cbn. by rewrite ?andb_false_r.
  - intros E i Hi. cbn in Ef. rewrite E in Ef. injection Ef as <- <- <- <-. change 0x3FFC000 with (Z.shiftl (Z.ones 12) 14).
    rewrite Z.ldiff_spec, testbit_field, (proj2 (Z.leb_le 14 i)), (proj2 (Z.ltb_lt i (14 + 12))) by lia. apply andb_false_r.
  - change ((if sub =? 0 then (ha, clear_bits leaf7_cleared hb, 0, 0) else zeros4) = (a, b, c, d)) in Ef.
    assert (c = 0 ∧ d = 0 ∧ (b = 0 ∨ b = clear_bits leaf7_cleared hb)) as (-> & -> & Hb).
    { pose proof (f_equal (λ t : regs4, t.1.1.2) Ef) as Eb. pose proof (f_equal (λ t : regs4, t.1.2) Ef) as Ec.
      pose proof (f_equal (λ t : regs4, t.2) Ef) as Ed. cbn [fst snd] in Eb, Ec, Ed. rewrite <-Eb, <-Ec, <-Ed.
      destruct (sub =? 0); cbn [fst snd zeros4]; (split; [reflexivity|]); (split; [reflexivity|]); [right|left]; reflexivity. }
    split; [done|]. split; [done|]. intros i Hi. destruct Hb as [->| ->]; [apply Z.testbit_0_l|].
    assert (Forall (λ b, 0 ≤ b) leaf7_cleared) as Hall by (by apply (bool_decide_unpack _); vm_compute).
    rewrite Forall_forall in Hall. rewrite clear_bits_spec; [|by apply Forall_forall|by apply Hall].
    rewrite (proj2 (existsb_exists _ _)); [apply andb_false_r|]. exists i. split; [by apply list_elem_of_In|apply Z.eqb_refl].
Qed.

Lemma cpuid_shows_fixed_processor_witness : ∃ s',
  handle_cpuid demo_host (set_gpr RAX 1 demo_idle) = (Done Continue, s') ∧ gprs s' RAX = 0x50657.
Proof.
  assert (vcpu_ok (set_gpr RAX 1 demo_idle)) as Hk.
  { destruct demo_idle_ok. constructor; [apply core_set_gpr; [by apply width_const|done]|done|done]. }
  destruct (cpuid_shows_fixed_processor demo_host (set_gpr RAX 1 demo_idle) 0x1000 2 Hk demo_host_ok eq_refl eq_refl)
    as (s' & E & _ & _ & _ & H1 & _).
  exists s'. split; [done|]. by apply H1.
Defined.

(** ** Model-specific registers *)

(** The registers that keep what is written to them. *)
Definition stored (n : Z) : bool := is_mtrr n || (n =? IA32_PAT) || (n =? IA32_TSC_AUX).
(** WRMSR's operand. *)
Definition wrmsr_value s : Z := Z.lor (Z.shiftl (Z.land (gprs s RDX) 0xFFFFFFFF) 32) (Z.land (gprs s RAX) 0xFFFFFFFF).

Lemma read_msr_with_mtrr n v m k s :
  core_ok s → is_mtrr n = true → write_mtrr n v (mtrr s) = Some m →
  read_msr k (with_mtrr m s) = if k =? n then inl (Some v) else read_msr k s.
Proof.
  intros Hs Hn Hw. destruct (is_mtrr_loc n Hn) as (l & -> & Hl). rewrite write_mtrr_loc in Hw by (done || apply Hs).
  injection Hw as <-. pose proof (is_mtrr_range _ Hn) as Hr. unfold read_msr. cbn [vfields apic mtrr with_mtrr].
  destruct (is_mtrr k) eqn:Hk.
  - destruct (is_mtrr_loc k Hk) as (l' & -> & Hl'). pose proof (is_mtrr_range _ Hk) as Hr'.
    rewrite !(proj2 (Z.eqb_neq (mtrr_number l') IA32_MISC_ENABLE)), !(proj2 (Z.eqb_neq (mtrr_number l') IA32_BIOS_SIGN_ID)),
      !(proj2 (Z.eqb_neq (mtrr_number l') IA32_MTRRCAP)) by (unfold IA32_MISC_ENABLE, IA32_BIOS_SIGN_ID, IA32_MTRRCAP; lia).
    rewrite !read_mtrr_loc, mtrr_get_set by (done || apply Hs).
    destruct (Z.eqb_spec (mtrr_number l') (mtrr_number l)) as [E|E].
    + apply mtrr_number_inj in E; [|done..]. by rewrite decide_True.
    + rewrite decide_False; [done|]. by intros ->.
  - destruct (Z.eqb_spec k (mtrr_number l)) as [->|]; [congruence|done].
Qed.
Lemma read_msr_with_pat v k s : read_msr k (set_field Pat v s) = if k =? IA32_PAT then inl (Some v) else read_msr k s.
Proof.
  destruct (Z.eqb_spec k IA32_PAT) as [->|Hk]; [done|]. unfold read_msr. by rewrite (proj2 (Z.eqb_neq _ _) Hk).
Qed.
Lemma read_msr_with_aux v k s : read_msr k (set_field TscAux v s) = if k =? IA32_TSC_AUX then inl (Some v) else read_msr k s.
Proof.
  destruct (Z.eqb_spec k IA32_TSC_AUX) as [->|Hk]; [done|]. unfold read_msr. by rewrite (proj2 (Z.eqb_neq _ _) Hk).
Qed.

Lemma low_of_join d a : in_width 32 a → Z.land (Z.lor (Z.shiftl d 32) a) 0xFFFFFFFF = a.
Proof.
  intros Ha. change 0xFFFFFFFF with (Z.ones 32). rewrite Z.land_lor_distr_l, !Z.land_ones, Z.shiftl_mul_pow2, Z.mod_mul by lia.
  by rewrite Z.mod_small.
Qed.
Lemma high_of_join d a : in_width 32 a → Z.shiftr (Z.lor (Z.shiftl d 32) a) 32 = d.
Proof.
  intros Ha. rewrite Z.shiftr_lor, Z.shiftr_shiftl_l by lia. rewrite (Z.shiftr_div_pow2 a), Z.div_small by (lia || exact Ha).
  by rewrite Z.lor_0_r.
Qed.
Lemma land_u32 x : Z.land x 0xFFFFFFFF = u32 x.
Proof. change 0xFFFFFFFF with (Z.ones 32). by apply Z.land_ones. Qed.

Lemma wrmsr_run s rip len :
  core_ok s → vmcs s !! GuestRip = Some rip → vmcs s !! VmExitInstructionLen = Some len →
  ∃ r s1, handle_msr_write s = (Done r, with_vmcs (<[GuestRip := u64 (rip + len)]> (vmcs s)) s1) ∧
    (r = Continue ∨ r = ExitToUserspace MsrWrite) ∧ (stored (u32 (gprs s RCX)) = true → r = Continue) ∧
    gprs s1 = gprs s ∧ vmcs s1 = vmcs s ∧
    ∀ k, read_msr k s1 = if stored (u32 (gprs s RCX)) && (k =? u32 (gprs s RCX)) then inl (Some (wrmsr_value s)) else read_msr k s.
Proof.
  intros Hs Hr Hl. unfold handle_msr_write, handler, get_gpr, gets, mbind, M_bind, modify, mret, M_ret. cbv beta zeta. fold (wrmsr_value s).
  set (n := u32 (gprs s RCX)). set (v := wrmsr_value s). unfold stored. destruct (is_mtrr n) eqn:Hm.
  { destruct (write_mtrr_ok n v (mtrr s) Hm (vk_mtrr _ Hs) (msr_value_width _ _)) as (m & Hw & _).
    unfold demand. rewrite Hw. erewrite advance_rip_run by done. eexists _, _. split; [reflexivity|]. split; [by left|].
    do 3 (split; [done|]). intros k. by apply read_msr_with_mtrr. }
  cbn [orb]. destruct (n =? IA32_PAT) eqn:Hp.
  { erewrite advance_rip_run by done. eexists _, _. split; [reflexivity|]. split; [by left|]. do 3 (split; [done|]).
    intros k. apply Z.eqb_eq in Hp. rewrite Hp. apply read_msr_with_pat. }
  destruct (n =? IA32_TSC_AUX) eqn:Ha; cbn [orb andb].
  { assert ((n =? IA32_APIC_BASE) = false) as -> by (apply Z.eqb_eq in Ha; by rewrite Ha).
    erewrite advance_rip_run by done. eexists _, _. split; [reflexivity|]. split; [by left|]. do 3 (split; [done|]).
    intros k. apply Z.eqb_eq in Ha. rewrite Ha. apply read_msr_with_aux. }
  destruct (n =? IA32_APIC_BASE); [destruct (negb _)|destruct (elem n ignored_msrs)];
    erewrite advance_rip_run by done; eexists _, _; (split; [reflexivity|]); (split; [by auto|]); done.
Qed.

Lemma rdmsr_run s rip len :
  core_ok s → vmcs s !! GuestRip = Some rip → vmcs s !! VmExitInstructionLen = Some len →
  match read_msr (u32 (gprs s RCX)) s with
  | inl (Some v) => handle_msr_read s =
      (Done Continue, with_vmcs (<[GuestRip := u64 (rip + len)]> (vmcs s)) (set_gpr RDX (Z.shiftr v 32) (set_gpr RAX (Z.land v 0xFFFFFFFF) s)))
  | inl None => False
  | inr _ => handle_msr_read s = (Done (ExitToUserspace MsrRead), with_vmcs (<[GuestRip := u64 (rip + len)]> (vmcs s)) s)
  end.
Proof.
  intros Hs Hr Hl. unfold handle_msr_read, handler, get_gpr, gets, mbind, M_bind, modify, mret, M_ret.
  pose proof (read_msr_ok (u32 (gprs s RCX)) s) as Hok. destruct (read_msr _ s) as [v|[]].
  - destruct (Hok v Hs eq_refl) as (x & -> & _). unfold demand. by erewrite advance_rip_run by done.
  - by erewrite advance_rip_run by done.
Qed.

(** The stored model-specific registers are a register file.  WRMSR of a
    stored register, then RDMSR of it, gives the value back in EDX and EAX; every
    other register reads as it did before, and a WRMSR of any other number changes
    nothing that RDMSR shows.  Both instructions retire whether the register is
    known or not, and WRMSR changes no general-purpose register. *)
Theorem msr_register_file s rip len (Hs : vcpu_ok s)
  (Hrip : vmcs s !! GuestRip = Some rip) (Hlen : vmcs s !! VmExitInstructionLen = Some len) :
  let n := u32 (gprs s RCX) in
  ∃ r s', handle_msr_write s = (Done r, s') ∧ (r = Continue ∨ r = ExitToUserspace MsrWrite) ∧ gprs s' = gprs s ∧
    vmcs s' !! GuestRip = Some (u64 (rip + len)) ∧
    (∀ k, read_msr k s' = if stored n && (k =? n) then inl (Some (wrmsr_value s)) else read_msr k s) ∧
    (stored n = true → r = Continue ∧ ∃ s'', handle_msr_read s' = (Done Continue, s'') ∧
       gprs s'' RAX = u32 (gprs s RAX) ∧ gprs s'' RDX = u32 (gprs s RDX)).
Proof.
  cbv zeta. pose proof (ok_core _ Hs) as Hc. destruct (wrmsr_run s rip len Hc Hrip Hlen) as (r & s1 & E & Hr & Hst & Hg & Hv & Hread).
  set (s' := with_vmcs (<[GuestRip := u64 (rip + len)]> (vmcs s)) s1) in *. exists r, s'. split; [done|]. split; [done|]. split; [done|].
  assert (vmcs s' !! GuestRip = Some (u64 (rip + len))) as Hrip' by (cbn; by rewrite lookup_insert_eq).
  split; [done|]. split; [intros k; apply (Hread k)|]. intros Hstored. split; [by apply Hst|].
  assert (core_ok s') as Hc'.
  { pose proof (vt_msr_write s s (sim_refl s Hs)) as Hvt. rewrite E in Hvt. destruct Hvt as (_ & _ & Hsim). by apply sm_core in Hsim. }
  pose proof (rdmsr_run s' _ len Hc' Hrip') as Hrd. change (gprs s' RCX) with (gprs s1 RCX) in Hrd. rewrite Hg in Hrd.
  change (read_msr (u32 (gprs s RCX)) s') with (read_msr (u32 (gprs s RCX)) s1) in Hrd.
  rewrite Hread, Hstored, Z.eqb_refl in Hrd. cbn [andb] in Hrd. eexists. split.
  { apply Hrd. cbn. by rewrite lookup_insert_ne. }
  cbn [gprs with_vmcs]. rewrite set_gpr_ne, !set_gpr_eq by done. unfold wrmsr_value.
  split; [by rewrite (land_u32 (gprs s RAX)), low_of_join by apply in_width_u32|].
  by rewrite !(land_u32 (gprs s _)), high_of_join by apply in_width_u32.
Qed.

Lemma msr_register_file_witness : ∃ r s',
  handle_msr_write (set_gpr RCX IA32_PAT (set_gpr RAX 7 demo_idle)) = (Done r, s') ∧ read_msr IA32_PAT s' = inl (Some 7).
Proof.
  assert (vcpu_ok (set_gpr RCX IA32_PAT (set_gpr RAX 7 demo_idle))) as Hk.
  { destruct demo_idle_ok. constructor; [repeat (apply core_set_gpr; [by apply width_const|]); done|done|done]. }
  destruct (msr_register_file (set_gpr RCX IA32_PAT (set_gpr RAX 7 demo_idle)) 0x1000 2 Hk eq_refl eq_refl)
    as (r & s' & E & _ & _ & _ & Hread & _).
  exists r, s'. split; [done|]. rewrite Hread. reflexivity.
Defined.
