(* ===== verification/Decoder.v ===== *)
(** * The instruction decoder (crate [bedrock-vmx]: [decoder.rs])

    To emulate an access to a device register the hypervisor decodes the MOV
    that made it.  [pos] and the bytes from [pos] on are passed together, so an
    index behind a check of the length is the head of the remaining bytes.  The
    theorem gives the language the decoder accepts: it is the encodings of an
    abstract syntax of memory MOVs, and the description it returns is the
    instruction's. *)
From S2P Require Import Prelude.

Inductive MemoryOperation := Load | Store.
Record DecodedInstruction := mkDecoded {
  length_ : Z;
  operation : MemoryOperation;
  register : Z;
  operand_size : Z;
}.
Inductive DecodeError := BufferTooShort | UnsupportedOpcode | UnsupportedAddressing.

Record RexPrefix := mkRex { rex_w : bool; rex_r : bool; rex_x : bool; rex_b : bool }.
Definition rex_from_byte (byte : Z) : option RexPrefix :=
  if Z.land byte 0xF0 =? 0x40 then Some (mkRex (has byte 0x08) (has byte 0x04) (has byte 0x02) (has byte 0x01)) else None.

Definition is_legacy (b : Z) : bool :=
  (b =? 0x66) || (b =? 0x67) || (b =? 0x26) || (b =? 0x2E) || (b =? 0x36) || (b =? 0x3E) || (b =? 0x64) || (b =? 0x65)
  || (b =? 0xF0) || (b =? 0xF2) || (b =? 0xF3).

(** The [while] over legacy prefixes: was there an operand-size override, the
    position, and the bytes from there. *)
Fixpoint skip_prefixes (has_operand_size_prefix : bool) (pos : Z) (bytes : list Z) : bool * Z * list Z :=
  match bytes with
  | b :: rest =>
      if is_legacy b then skip_prefixes ((b =? 0x66) || has_operand_size_prefix) (pos + 1) rest
      else (has_operand_size_prefix, pos, bytes)
  | [] => (has_operand_size_prefix, pos, [])
  end.

Definition modrm_displacement_length (mod_bits rm : Z) (remaining : list Z) : result Z DecodeError :=
  let n := Z.of_nat (length remaining) in
  let has_sib := (rm =? 4) && negb (mod_bits =? 3) in
  match (if has_sib then
           match remaining with
           | [] => Err BufferTooShort
           | sib :: _ =>
               let len := 1 in
               let base := Z.land sib 0x07 in
               if (mod_bits =? 0) && (base =? 5) then
                 if n <? len + 4 then Err BufferTooShort else Ok (len + 4)
               else Ok len
           end
         else Ok 0) with
  | Err e => Err e
  | Ok len =>
      if (mod_bits =? 0) && ((rm =? 5) && negb has_sib) then
        if n <? len + 4 then Err BufferTooShort else Ok (len + 4)
      else if mod_bits =? 1 then
        if n <? len + 1 then Err BufferTooShort else Ok (len + 1)
      else if mod_bits =? 2 then
        if n <? len + 4 then Err BufferTooShort else Ok (len + 4)
      else Ok len
  end.

(** The ModR/M arm, common to the five opcodes. *)
Definition decode_modrm (rex : RexPrefix) (op : MemoryOperation) (size pos : Z) (bytes : list Z)
    : result DecodedInstruction DecodeError :=
  match bytes with
  | [] => Err BufferTooShort
  | modrm :: rest =>
      let reg := Z.lor (Z.land (Z.shiftr modrm 3) 0x07) (if rex_r rex then 0x08 else 0) in
      let mod_bits := Z.shiftr modrm 6 in
      let rm := Z.lor (Z.land modrm 0x07) (if rex_b rex then 0x08 else 0) in
      match modrm_displacement_length mod_bits (Z.land rm 0x07) rest with
      | Err e => Err e
      | Ok modrm_len =>
          if mod_bits =? 3 then Err UnsupportedAddressing
          else Ok (mkDecoded (u8 (pos + 1 + modrm_len)) op reg size)
      end
  end.

Definition decode_instruction (bytes : list Z) : result DecodedInstruction DecodeError :=
  match bytes with
  | [] => Err BufferTooShort
  | _ =>
      let '(has_operand_size_prefix, pos, bytes) := skip_prefixes false 0 bytes in
      match bytes with
      | [] => Err BufferTooShort
      | b :: rest =>
          let '(rex, pos, bytes) := match rex_from_byte b with
                                    | Some rex => (rex, pos + 1, rest)
                                    | None => (mkRex false false false false, pos, bytes)
                                    end in
          match bytes with
          | [] => Err BufferTooShort
          | opcode :: bytes =>
              let operand_size := if rex_w rex then 8 else if has_operand_size_prefix : bool then 2 else 4 in
              let pos := pos + 1 in
              if opcode =? 0x8B then decode_modrm rex Load operand_size pos bytes
              else if opcode =? 0x89 then decode_modrm rex Store operand_size pos bytes
              else if opcode =? 0x8A then decode_modrm rex Load 1 pos bytes
              else if opcode =? 0x88 then decode_modrm rex Store 1 pos bytes
              else if opcode =? 0x0F then
                match bytes with
                | [] => Err BufferTooShort
                | opcode2 :: bytes =>
                    if (opcode2 =? 0xB6) || (opcode2 =? 0xB7)
                    then decode_modrm rex Load (if opcode2 =? 0xB6 then 1 else 2) (pos + 1) bytes
                    else Err UnsupportedOpcode
                end
              else Err UnsupportedOpcode
          end
      end
  end.

(** ** The abstract syntax of memory MOVs *)
Inductive opcode_kind := MovLoad | MovStore | MovLoad8 | MovStore8 | Movzx8 | Movzx16.
Definition opcode_bytes (k : opcode_kind) : list Z :=
  match k with
  | MovLoad => [0x8B] | MovStore => [0x89] | MovLoad8 => [0x8A] | MovStore8 => [0x88]
  | Movzx8 => [0x0F; 0xB6] | Movzx16 => [0x0F; 0xB7]
  end.
Definition opcode_op (k : opcode_kind) : MemoryOperation :=
  match k with MovStore | MovStore8 => Store | _ => Load end.

(** ModR/M [mod] and [r/m] with what follows them: no displacement, one of eight
    bits, or one of thirty-two, each with a SIB byte or without. *)
Inductive address :=
| Plain (rm : Z)                  (* [reg] *)
| Rip (disp : list Z)             (* [rip + disp32] *)
| Disp8 (rm : Z) (disp : Z)       (* [reg + disp8] *)
| Disp32 (rm : Z) (disp : list Z) (* [reg + disp32] *)
| Sib (sib : Z)                   (* [base + index] *)
| SibNoBase (sib : Z) (disp : list Z)
| SibDisp8 (sib disp : Z)
| SibDisp32 (sib : Z) (disp : list Z).

Definition addr_ok (a : address) : Prop :=
  match a with
  | Plain rm => 0 ≤ rm < 8 ∧ rm ≠ 4 ∧ rm ≠ 5
  | Rip d => length d = 4%nat
  | Disp8 rm d => 0 ≤ rm < 8 ∧ rm ≠ 4
  | Disp32 rm d => 0 ≤ rm < 8 ∧ rm ≠ 4 ∧ length d = 4%nat
  | Sib s => Z.land s 7 ≠ 5
  | SibNoBase s d => Z.land s 7 = 5 ∧ length d = 4%nat
  | SibDisp8 s d => True
  | SibDisp32 s d => length d = 4%nat
  end.
Definition addr_mod (a : address) : Z :=
  match a with Plain _ | Rip _ | Sib _ | SibNoBase _ _ => 0 | Disp8 _ _ | SibDisp8 _ _ => 1 | _ => 2 end.
Definition addr_rm (a : address) : Z :=
  match a with Plain rm | Disp8 rm _ | Disp32 rm _ => rm | Rip _ => 5 | _ => 4 end.
Definition addr_tail (a : address) : list Z :=
  match a with
  | Plain _ => [] | Rip d | Disp32 _ d => d | Disp8 _ d => [d]
  | Sib s => [s] | SibNoBase s d | SibDisp32 s d => s :: d | SibDisp8 s d => [s; d]
  end.

Record mov := mkMov {
  mv_prefixes : list Z;
  mv_rex : option RexPrefix;
  mv_kind : opcode_kind;
  mv_reg : Z;
  mv_addr : address;
}.
Definition rex_byte (r : RexPrefix) : Z :=
  0x40 + (if rex_w r then 8 else 0) + (if rex_r r then 4 else 0) + (if rex_x r then 2 else 0) + (if rex_b r then 1 else 0).
Record mov_ok (i : mov) : Prop := {
  mo_prefixes : Forall (λ b, is_legacy b = true) (mv_prefixes i);
  mo_reg : 0 ≤ mv_reg i < 8;
  mo_addr : addr_ok (mv_addr i);
}.
Definition mov_bytes (i : mov) : list Z :=
  mv_prefixes i ++ match mv_rex i with Some r => [rex_byte r] | None => [] end ++ opcode_bytes (mv_kind i) ++
  (64 * addr_mod (mv_addr i) + 8 * mv_reg i + addr_rm (mv_addr i)) :: addr_tail (mv_addr i).

Definition rex_of (i : mov) : RexPrefix := default (mkRex false false false false) (mv_rex i).
(** What the decoder should say of the instruction. *)
Definition describe (i : mov) : DecodedInstruction :=
  mkDecoded (u8 (Z.of_nat (length (mov_bytes i)))) (opcode_op (mv_kind i))
    (mv_reg i + (if rex_r (rex_of i) then 8 else 0))
    (match mv_kind i with
     | MovLoad8 | MovStore8 | Movzx8 => 1
     | Movzx16 => 2
     | MovLoad | MovStore =>
         if rex_w (rex_of i) then 8 else if existsb (Z.eqb 0x66) (mv_prefixes i) then 2 else 4
     end).

(** ** The language of the decoder *)

(** A property of a byte is checked on the 256 of them. *)
Lemma byte_check (P : Z → bool) : forallb P (Z.of_nat <$> seq 0 256) = true → ∀ b, is_byte b → P b = true.
Proof.
  intros H b Hb. rewrite forallb_forall in H. apply H. apply list_elem_of_In, list_elem_of_fmap. exists (Z.to_nat b).
  unfold is_byte in Hb. split; [lia|]. apply elem_of_seq. lia.
Qed.

Lemma skip_prefixes_app h pos ps rest :
  Forall (λ b, is_legacy b = true) ps → match rest with b :: _ => is_legacy b = false | [] => True end →
  skip_prefixes h pos (ps ++ rest) = (existsb (Z.eqb 0x66) ps || h, pos + Z.of_nat (length ps), rest).
Proof.
  intros Hps Hr. revert h pos. induction Hps as [|b ps Hb _ IH]; intros h pos; cbn [app skip_prefixes existsb length].
  - destruct rest as [|b rest]; cbn; [by rewrite Z.add_0_r|]. by rewrite Hr, Z.add_0_r.
  - rewrite Hb, IH. rewrite (Z.eqb_sym 0x66 b). f_equal; [f_equal; [|lia]].
    by destruct (existsb _ ps), (b =? 0x66), h.
Qed.
Lemma skip_prefixes_split bytes :
  ∃ ps rest, bytes = ps ++ rest ∧ Forall (λ b, is_legacy b = true) ps ∧
    match rest with b :: _ => is_legacy b = false | [] => True end.
Proof.
  induction bytes as [|b bytes (ps & rest & -> & Hps & Hr)]; [by exists [], []|].
  destruct (is_legacy b) eqn:Hb; [|by exists [], (b :: ps ++ rest)]. exists (b :: ps), rest. auto.
Qed.

Lemma rex_roundtrip r : rex_from_byte (rex_byte r) = Some r.
Proof. by destruct r as [[] [] [] []]. Qed.
Lemma rex_byte_of b r : is_byte b → rex_from_byte b = Some r → b = rex_byte r.
Proof.
  intros Hb. pose proof (byte_check (λ b, match rex_from_byte b with Some r => b =? rex_byte r | None => true end) eq_refl b Hb) as H.
  cbv beta in H. intros E. rewrite E in H. by apply Z.eqb_eq.
Qed.
Lemma rex_not_legacy r : is_legacy (rex_byte r) = false.
Proof. by destruct r as [[] [] [] []]. Qed.

Lemma modrm_split m : is_byte m →
  m = 64 * Z.shiftr m 6 + 8 * Z.land (Z.shiftr m 3) 7 + Z.land m 7 ∧ 0 ≤ Z.shiftr m 6 < 4.
Proof.
  intros Hm. pose proof (byte_check (λ m, (m =? 64 * Z.shiftr m 6 + 8 * Z.land (Z.shiftr m 3) 7 + Z.land m 7) &&
    (0 <=? Z.shiftr m 6) && (Z.shiftr m 6 <? 4)) eq_refl m Hm) as H. cbv beta in H. rewrite !andb_true_iff in H. lia.
Qed.
Lemma modrm_fields k r m : 0 ≤ k < 3 → 0 ≤ r < 8 → 0 ≤ m < 8 →
  let b := 64 * k + 8 * r + m in Z.shiftr b 6 = k ∧ Z.land (Z.shiftr b 3) 7 = r ∧ Z.land b 7 = m.
Proof.
  intros Hk Hr Hm. cbv zeta. change 7 with (Z.ones 3). rewrite !Z.land_ones, !Z.shiftr_div_pow2 by lia.
  change (2 ^ 6) with 64. change (2 ^ 3) with 8. Z.to_euclidean_division_equations. lia.
Qed.
Lemma reg_ext r x : 0 ≤ r < 8 → Z.lor r (if x : bool then 8 else 0) = r + (if x then 8 else 0).
Proof.
  intros Hr. destruct x; [|by rewrite Z.lor_0_r, Z.add_0_r].
  assert (r = 0 ∨ r = 1 ∨ r = 2 ∨ r = 3 ∨ r = 4 ∨ r = 5 ∨ r = 6 ∨ r = 7) as H by lia. by destruct H as [->|[->|[->|[->|[->|[->|[->| ->]]]]]]].
Qed.
Lemma rm_low r x : 0 ≤ r < 8 → Z.land (Z.lor r (if x : bool then 8 else 0)) 7 = r.
Proof.
  intros Hr. assert (r = 0 ∨ r = 1 ∨ r = 2 ∨ r = 3 ∨ r = 4 ∨ r = 5 ∨ r = 6 ∨ r = 7) as H by lia.
  by destruct x, H as [->|[->|[->|[->|[->|[->|[->| ->]]]]]]].
Qed.

(** The addressing forms are what the displacement computation accepts. *)
Lemma displacement_complete a rest :
  addr_ok a → modrm_displacement_length (addr_mod a) (addr_rm a) (addr_tail a ++ rest) = Ok (Z.of_nat (length (addr_tail a))).
Proof.
  intros Ha. unfold modrm_displacement_length. cbv zeta. set (n := Z.of_nat (length (addr_tail a ++ rest))).
  assert (Z.of_nat (length (addr_tail a)) ≤ n) as Hn by (unfold n; rewrite length_app; lia). clearbody n.
  destruct a as [rm|d|rm d|rm d|s|s d|s d|s d]; cbn [addr_ok addr_mod addr_rm addr_tail length app] in *; deex;
    repeat match goal with
    | H : ?x ≠ ?y |- context [?x =? ?y] => rewrite (proj2 (Z.eqb_neq x y) H)
    | H : Z.land _ 7 = 5 |- _ => rewrite H
    | H : length _ = 4%nat |- _ => rewrite H in Hn |- *
    end; cbn [andb negb Z.eqb Pos.eqb]; try done;
    match goal with |- context [n <? ?k] => destruct (Z.ltb_spec n k); [exfalso; lia|f_equal; lia] end.
Qed.

Lemma displacement_sound k rm rest n :
  0 ≤ k < 3 → 0 ≤ rm < 8 → modrm_displacement_length k rm rest = Ok n →
  ∃ a rest', addr_ok a ∧ addr_mod a = k ∧ addr_rm a = rm ∧ rest = addr_tail a ++ rest' ∧ n = Z.of_nat (length (addr_tail a)).
Proof.
  intros Hk Hrm. unfold modrm_displacement_length. cbv zeta.
  assert (∀ j (l : list Z), (Z.of_nat (length l) <? j + 4) = false → 0 ≤ j → ∃ d l', drop (Z.to_nat j) l = d ++ l' ∧ length d = 4%nat) as Hd4.
  { intros j l Hj%Z.ltb_ge H0. exists (take 4 (drop (Z.to_nat j) l)), (drop 4 (drop (Z.to_nat j) l)). rewrite take_drop.
    split; [done|]. rewrite length_take, length_drop. lia. }
  assert (k = 0 ∨ k = 1 ∨ k = 2) as [->|[->| ->]] by lia; destruct (Z.eqb_spec rm 4) as [->|H4]; cbn [andb negb Z.eqb Pos.eqb].
  - destruct rest as [|s rest]; [done|]. destruct (Z.eqb_spec (Z.land s 7) 5) as [H5|H5]; cbn [andb].
    + destruct (_ <? 1 + 4) eqn:E; [done|]. intros [= <-]. destruct (Hd4 1 (s :: rest) E) as (d & l' & Hd & Hl); [lia|].
      assert (rest = d ++ l') as -> by exact Hd. exists (SibNoBase s d), l'. cbn. by rewrite Hl.
    + intros [= <-]. by exists (Sib s), rest.
  - destruct (Z.eqb_spec rm 5) as [->|H5]; cbn [andb].
    + destruct (_ <? 0 + 4) eqn:E; [done|]. intros [= <-]. destruct (Hd4 0 rest E) as (d & l' & Hd & Hl); [lia|].
      assert (rest = d ++ l') as -> by exact Hd. exists (Rip d), l'. cbn. by rewrite Hl.
    + intros [= <-]. by exists (Plain rm), rest.
  - destruct rest as [|s rest]; [done|]. destruct (Z.ltb_spec (Z.of_nat (length (s :: rest))) (1 + 1)) as [|Hl]; [done|]. intros [= <-].
    destruct rest as [|d rest]; [cbn in Hl; lia|]. by exists (SibDisp8 s d), rest.
  - destruct (Z.ltb_spec (Z.of_nat (length rest)) (0 + 1)) as [|Hl]; [done|]. intros [= <-].
    destruct rest as [|d rest]; [cbn in Hl; lia|]. by exists (Disp8 rm d), rest.
  - destruct rest as [|s rest]; [done|]. destruct (_ <? 1 + 4) eqn:E; [done|]. intros [= <-].
    destruct (Hd4 1 (s :: rest) E) as (d & l' & Hd & Hl); [lia|]. assert (rest = d ++ l') as -> by exact Hd. exists (SibDisp32 s d), l'. cbn. by rewrite Hl.
  - destruct (_ <? 0 + 4) eqn:E; [done|]. intros [= <-]. destruct (Hd4 0 rest E) as (d & l' & Hd & Hl); [lia|].
    assert (rest = d ++ l') as -> by exact Hd. exists (Disp32 rm d), l'. cbn. by rewrite Hl.
Qed.

Lemma decode_modrm_complete rex op size pos r a rest :
  0 ≤ r < 8 → addr_ok a →
  decode_modrm rex op size pos (64 * addr_mod a + 8 * r + addr_rm a :: addr_tail a ++ rest) =
    Ok (mkDecoded (u8 (pos + 1 + Z.of_nat (length (addr_tail a)))) op (r + (if rex_r rex then 8 else 0)) size).
Proof.
  intros Hr Ha. assert (0 ≤ addr_mod a < 3 ∧ 0 ≤ addr_rm a < 8) as [Hk Hm] by (destruct a; cbn in *; lia).
  unfold decode_modrm. cbv zeta. destruct (modrm_fields (addr_mod a) r (addr_rm a) Hk Hr Hm) as (-> & -> & ->).
  rewrite rm_low, displacement_complete, reg_ext by done. rewrite (proj2 (Z.eqb_neq (addr_mod a) 3)) by lia. done.
Qed.
Lemma decode_modrm_sound rex op size pos bytes d :
  Forall is_byte bytes → decode_modrm rex op size pos bytes = Ok d →
  ∃ r a rest, 0 ≤ r < 8 ∧ addr_ok a ∧ bytes = 64 * addr_mod a + 8 * r + addr_rm a :: addr_tail a ++ rest ∧
    d = mkDecoded (u8 (pos + 1 + Z.of_nat (length (addr_tail a)))) op (r + (if rex_r rex then 8 else 0)) size.
Proof.
  intros Hb. unfold decode_modrm. destruct bytes as [|m rest]; [done|]. apply Forall_cons in Hb as [Hm Hb]. cbv zeta.
  destruct (modrm_split m Hm) as [Hs Hk].
  assert (∀ x, 0 ≤ Z.land x 7 < 8) as H7 by (intros x; change 7 with (Z.ones 3); rewrite Z.land_ones by lia; apply Z.mod_pos_bound; lia).
  rewrite rm_low by apply H7. destruct (modrm_displacement_length _ _ rest) as [n|e] eqn:E; [|done].
  destruct (Z.eqb_spec (Z.shiftr m 6) 3) as [|H3]; [done|]. intros [= <-].
  assert (0 ≤ Z.shiftr m 6 < 3) as Hk3 by lia. destruct (displacement_sound _ _ _ _ Hk3 (H7 m) E) as (a & rest' & Ha & Hmod & Hrm & -> & ->).
  exists (Z.land (Z.shiftr m 3) 7), a, rest'. split; [apply H7|]. split; [done|]. rewrite Hmod, Hrm, <-Hs. split; [done|].
  by rewrite reg_ext by apply H7.
Qed.

(** What follows the prefixes. *)
Definition decode_opcode (rex : RexPrefix) (size pos : Z) (bytes : list Z) : result DecodedInstruction DecodeError :=
  match bytes with
  | [] => Err BufferTooShort
  | opcode :: bytes =>
      let pos := pos + 1 in
      if opcode =? 0x8B then decode_modrm rex Load size pos bytes
      else if opcode =? 0x89 then decode_modrm rex Store size pos bytes
      else if opcode =? 0x8A then decode_modrm rex Load 1 pos bytes
      else if opcode =? 0x88 then decode_modrm rex Store 1 pos bytes
      else if opcode =? 0x0F then
        match bytes with
        | [] => Err BufferTooShort
        | opcode2 :: bytes =>
            if (opcode2 =? 0xB6) || (opcode2 =? 0xB7)
            then decode_modrm rex Load (if opcode2 =? 0xB6 then 1 else 2) (pos + 1) bytes
            else Err UnsupportedOpcode
        end
      else Err UnsupportedOpcode
  end.
Definition size_of (k : opcode_kind) (size : Z) : Z :=
  match k with MovLoad8 | MovStore8 | Movzx8 => 1 | Movzx16 => 2 | MovLoad | MovStore => size end.

Lemma decode_opcode_complete rex size pos k r a rest :
  0 ≤ r < 8 → addr_ok a →
  decode_opcode rex size pos (opcode_bytes k ++ (64 * addr_mod a + 8 * r + addr_rm a) :: addr_tail a ++ rest) =
    Ok (mkDecoded (u8 (pos + Z.of_nat (length (opcode_bytes k)) + 1 + Z.of_nat (length (addr_tail a)))) (opcode_op k)
      (r + (if rex_r rex then 8 else 0)) (size_of k size)).
Proof.
  intros Hr Ha. destruct k; cbn [opcode_bytes app decode_opcode Z.eqb Pos.eqb orb]; cbv zeta;
    rewrite decode_modrm_complete by done; cbn [opcode_op size_of length]; do 3 f_equal; lia.
Qed.
Lemma decode_opcode_sound rex size pos bytes d :
  Forall is_byte bytes → decode_opcode rex size pos bytes = Ok d →
  ∃ k r a rest, 0 ≤ r < 8 ∧ addr_ok a ∧
    bytes = opcode_bytes k ++ (64 * addr_mod a + 8 * r + addr_rm a) :: addr_tail a ++ rest ∧
    d = mkDecoded (u8 (pos + Z.of_nat (length (opcode_bytes k)) + 1 + Z.of_nat (length (addr_tail a)))) (opcode_op k)
      (r + (if rex_r rex then 8 else 0)) (size_of k size).
Proof.
  intros Hb. destruct bytes as [|o bytes]; [done|]. apply Forall_cons in Hb as [Ho Hb]. unfold decode_opcode. cbv zeta.
  assert (∀ k op sz p bs, Forall is_byte bs → decode_modrm rex op sz p bs = Ok d → op = opcode_op k → sz = size_of k size →
    p = pos + Z.of_nat (length (opcode_bytes k)) →
    ∃ k' r a rest, 0 ≤ r < 8 ∧ addr_ok a ∧
      opcode_bytes k ++ bs = opcode_bytes k' ++ (64 * addr_mod a + 8 * r + addr_rm a) :: addr_tail a ++ rest ∧
      d = mkDecoded (u8 (pos + Z.of_nat (length (opcode_bytes k')) + 1 + Z.of_nat (length (addr_tail a)))) (opcode_op k')
        (r + (if rex_r rex then 8 else 0)) (size_of k' size)) as Hgo.
  { intros k op sz p bs Hbs E -> -> ->. destruct (decode_modrm_sound _ _ _ _ _ _ Hbs E) as (r & a & rest & Hr & Ha & -> & ->). by exists k, r, a, rest. }
  destruct (Z.eqb_spec o 0x8B) as [->|]; [intros E; by apply (Hgo MovLoad _ _ _ _ Hb E)|].
  destruct (Z.eqb_spec o 0x89) as [->|]; [intros E; by apply (Hgo MovStore _ _ _ _ Hb E)|].
  destruct (Z.eqb_spec o 0x8A) as [->|]; [intros E; by apply (Hgo MovLoad8 _ _ _ _ Hb E)|].
  destruct (Z.eqb_spec o 0x88) as [->|]; [intros E; by apply (Hgo MovStore8 _ _ _ _ Hb E)|].
  destruct (Z.eqb_spec o 0x0F) as [->|]; [|done]. destruct bytes as [|o2 bytes]; [done|]. apply Forall_cons in Hb as [Ho2 Hb].
  destruct (Z.eqb_spec o2 0xB6) as [->|]; cbn [orb]; [intros E; apply (Hgo Movzx8 _ _ _ _ Hb E); cbn; (done || lia)|].
  destruct (Z.eqb_spec o2 0xB7) as [->|]; cbn [orb]; [intros E; apply (Hgo Movzx16 _ _ _ _ Hb E); cbn; (done || lia)|done].
Qed.

Definition size_with (rex : RexPrefix) (h : bool) : Z := if rex_w rex then 8 else if h then 2 else 4.
Lemma decode_instruction_eq bytes :
  decode_instruction bytes =
    let '(h, pos, rest) := skip_prefixes false 0 bytes in
    match rest with
    | [] => Err BufferTooShort
    | b :: rest' =>
        match rex_from_byte b with
        | Some rex => decode_opcode rex (size_with rex h) (pos + 1) rest'
        | None => decode_opcode (mkRex false false false false) (size_with (mkRex false false false false) h) pos rest
        end
    end.
Proof.
  destruct bytes as [|b0 bytes]; [done|]. unfold decode_instruction. destruct (skip_prefixes false 0 (b0 :: bytes)) as [[h pos] [|b rest]]; [done|].
  by destruct (rex_from_byte b) as [rex|].
Qed.

Lemma opcode_head k rest : ∃ o l, opcode_bytes k ++ rest = o :: l ∧ is_legacy o = false ∧ rex_from_byte o = None.
Proof. destruct k; by eexists _, _. Qed.

Lemma decode_mov i rest : mov_ok i → decode_instruction (mov_bytes i ++ rest) = Ok (describe i).
Proof.
  intros [Hp Hr Ha]. rewrite decode_instruction_eq. unfold mov_bytes, describe. rewrite <-!app_assoc. cbn [app].
  set (h := existsb (Z.eqb 0x66) (mv_prefixes i)). set (m := 64 * addr_mod (mv_addr i) + 8 * mv_reg i + addr_rm (mv_addr i)).
  assert (∀ rex pre, rex = rex_of i →
    u8 (Z.of_nat (length (mov_bytes i))) = u8 (Z.of_nat (length (mv_prefixes i)) + pre + Z.of_nat (length (opcode_bytes (mv_kind i))) + 1 + Z.of_nat (length (addr_tail (mv_addr i)))) →
    decode_opcode rex (size_with rex h) (Z.of_nat (length (mv_prefixes i)) + pre) (opcode_bytes (mv_kind i) ++ m :: addr_tail (mv_addr i) ++ rest)
      = Ok (describe i)) as Hgo.
  { intros rex pre -> Hl. unfold m. rewrite decode_opcode_complete by done. unfold describe. by rewrite Hl. }
  unfold mov_bytes in Hgo. fold m in Hgo. rewrite !length_app in Hgo. cbn [length] in Hgo. destruct (mv_rex i) as [r|] eqn:Hrex.
  - rewrite skip_prefixes_app; [|done|cbn; apply rex_not_legacy]. fold h. rewrite orb_false_r. cbn [app]. rewrite rex_roundtrip.
    rewrite Z.add_0_l. apply Hgo; [unfold rex_of; by rewrite Hrex|f_equal; cbn; lia].
  - cbn [app]. destruct (opcode_head (mv_kind i) (m :: addr_tail (mv_addr i) ++ rest)) as (o & l & E & Hlg & Hrx).
    rewrite skip_prefixes_app; [|done|by rewrite E]. fold h. rewrite orb_false_r. rewrite E at 1. rewrite Hrx, Z.add_0_l.
    specialize (Hgo (mkRex false false false false) 0). rewrite Z.add_0_r in Hgo.
    apply Hgo; [unfold rex_of; by rewrite Hrex|f_equal; cbn; lia].
Qed.

Lemma decode_sound bytes d :
  Forall is_byte bytes → decode_instruction bytes = Ok d →
  ∃ i rest, mov_ok i ∧ bytes = mov_bytes i ++ rest ∧ d = describe i.
Proof.
  intros Hb. rewrite decode_instruction_eq. destruct (skip_prefixes_split bytes) as (ps & rest & -> & Hps & Hr).
  rewrite skip_prefixes_app by done. rewrite orb_false_r, Z.add_0_l. apply Forall_app in Hb as [_ Hb].
  destruct rest as [|b rest]; [done|]. destruct (rex_from_byte b) as [rex|] eqn:Hrex; intros E.
  - pose proof (Forall_cons_1 _ _ _ Hb) as [Hb0 Hb']. apply rex_byte_of in Hrex as ->; [|done].
    destruct (decode_opcode_sound _ _ _ _ _ Hb' E) as (k & r & a & rest' & Hr' & Ha & -> & ->).
    exists (mkMov ps (Some rex) k r a), rest'. split; [by constructor|]. unfold mov_bytes, describe, mov_bytes. cbn [mv_prefixes mv_rex mv_kind mv_reg mv_addr rex_of default].
    rewrite <-?app_assoc. cbn [app]. rewrite <-?app_assoc. cbn [app]. split; [done|].
    rewrite !length_app. cbn [length]. rewrite ?length_app. cbn [length]. f_equal; f_equal; lia.
  - destruct (decode_opcode_sound _ _ _ _ _ Hb E) as (k & r & a & rest' & Hr' & Ha & -> & ->).
    exists (mkMov ps None k r a), rest'. split; [by constructor|]. unfold mov_bytes, describe, mov_bytes. cbn [mv_prefixes mv_rex mv_kind mv_reg mv_addr rex_of default app].
    rewrite <-!app_assoc. cbn [app]. split; [done|]. rewrite !length_app. cbn [length]. f_equal; f_equal; lia.
Qed.

(** C40: the language of the decoder: on any bytes it accepts exactly the
    encodings of the abstract syntax of memory MOVs -- any legacy prefixes, a
    REX prefix or none, one of the six opcodes, one of the eight addressing
    forms -- followed by anything, and what it returns is the instruction's
    length, direction, register with the REX extension and operand size.
    In particular the length is the one RIP is advanced by, and no register
    form, truncated instruction or other opcode is accepted. *)
Theorem decode_language (bytes : list Z) (d : DecodedInstruction) :
  Forall is_byte bytes →
  decode_instruction bytes = Ok d ↔ ∃ i rest, mov_ok i ∧ bytes = mov_bytes i ++ rest ∧ d = describe i.
Proof.
  intros Hb. split; [by apply decode_sound|]. intros (i & rest & Hi & -> & ->). by apply decode_mov.
Qed.
(** MOV R9D, [RAX + 0x40] followed by a byte of the next instruction. *)
Definition demo_mov : mov := mkMov [] (Some (mkRex false true false false)) MovLoad 1 (Disp8 0 0x40).
Lemma decode_language_witness :
  Forall is_byte [0x44; 0x8B; 0x48; 0x40; 0x90] ∧
  decode_instruction [0x44; 0x8B; 0x48; 0x40; 0x90] = Ok (mkDecoded 4 Load 9 4).
Proof.
  assert (Forall is_byte [0x44; 0x8B; 0x48; 0x40; 0x90]) as H by (repeat constructor; vm_compute; (done || congruence)).
  split; [exact H|]. apply (decode_language _ (mkDecoded 4 Load 9 4) H). exists demo_mov, [0x90].
  split; [constructor; [constructor|cbn; lia|cbn; lia]|]. split; reflexivity.
Defined.
