(* ===== verification/Mmio.v ===== *)
(** * Accesses that reach guest memory: address translation, device registers
    and EPT violations (crate [bedrock-vmx]: [exits/ept.rs], [exits/apic.rs],
    [exits/pebs.rs])

    The state of a handler is the processor and the memory of the VM, the latter
    through the class of the file [GuestMem].  The theorems are that the
    translation is the architecture's walk of four levels, written here as a
    recursion over them, and that an access to a device register moves the
    register's value and retires the instruction. *)
From stdpp Require Import strings.
From S2P Require Import Prelude EventLog Random Rtc Apic Vcpu GuestMem Relational Precise Handlers Safety Decoder.

#[export] Instance outcome_bind {E} : MBind (outcome E) := λ A B f o,
  match o with Done a => f a | Fail e => Fail e | Stuck => Stuck end.

(** ** Computations on a processor and its memory *)
Section Guest.
Context {R : Type} `{!GuestMem R}.

Definition GM : Type → Type := M (Vcpu * R) ExitError.

Definition on_vcpu {A} (m : VM A) : GM A := λ '(s, r), let '(o, s') := m s in (o, (s', r)).
(** A method of the memory; its error is handled by the caller. *)
Definition on_mem {E A} (m : M R E A) : GM (option A) := λ '(s, r),
  match m r with
  | (Done a, r') => (Done (Some a), (s, r'))
  | (Fail _, r') => (Done None, (s, r'))
  | (Stuck, r') => (Stuck, (s, r'))
  end.
(** A method of the VM that changes nothing. *)
Definition peek {E A} (f : Vcpu → R → outcome E A) : GM (option A) := λ '(s, r),
  match f s r with
  | Done a => (Done (Some a), (s, r))
  | Fail _ => (Done None, (s, r))
  | Stuck => (Stuck, (s, r))
  end.

(** ** Address translation ([exits/ept.rs]) *)
Definition PT_ADDR_MASK : Z := 0x000FFFFFFFFFF000.

(** One step of the walk: read the entry, and test its present bit. *)
Definition read_pte (r : R) (table index : Z) : outcome () Z :=
  match gm_read (table + index * 8) 8 r with
  | Done buf => let e := of_le buf in if Z.land e 1 =? 0 then Fail () else Done e
  | Fail _ => Fail ()
  | Stuck => Stuck
  end.

Definition translate_gva_to_gpa (gva : Z) (s : Vcpu) (r : R) : outcome () Z :=
  match vmcs s !! GuestCr3 with
  | None => Fail ()
  | Some cr3 =>
      let pml4_addr := Z.land cr3 PT_ADDR_MASK in
      let pml4_index := Z.land (Z.shiftr gva 39) 0x1FF in
      let pdpt_index := Z.land (Z.shiftr gva 30) 0x1FF in
      let pd_index := Z.land (Z.shiftr gva 21) 0x1FF in
      let pt_index := Z.land (Z.shiftr gva 12) 0x1FF in
      let page_offset := Z.land gva 0xFFF in
      pml4e ← read_pte r pml4_addr pml4_index;
      pdpte ← read_pte r (Z.land pml4e PT_ADDR_MASK) pdpt_index;
      if has pdpte (Z.shiftl 1 7) then Done (Z.lor (Z.land pdpte 0x000FFFFFC0000000) (Z.land gva 0x3FFFFFFF))
      else
        pde ← read_pte r (Z.land pdpte PT_ADDR_MASK) pd_index;
        if has pde (Z.shiftl 1 7) then Done (Z.lor (Z.land pde 0x000FFFFFFFE00000) (Z.land gva 0x1FFFFF))
        else
          pte ← read_pte r (Z.land pde PT_ADDR_MASK) pt_index;
          Done (Z.lor (Z.land pte PT_ADDR_MASK) page_offset)
  end.

(** The loop over the pages, filling the first of the slots. *)
Fixpoint translate_pages (n : nat) (page_gva : Z) (s : Vcpu) (r : R) : outcome () (list Z) :=
  match n with
  | O => Done []
  | S n' =>
      gpa ← translate_gva_to_gpa page_gva s r;
      rest ← translate_pages n' (page_gva + 4096) s r;
      Done (Z.ldiff gpa 0xFFF :: rest)
  end.
(** The GPAs of the pages; the slots after them keep their zero. *)
Definition translate_gva_range_to_gpas (gva size : Z) (slots : nat) (s : Vcpu) (r : R) : outcome () (list Z) :=
  if size =? 0 then Done []
  else
    let start_page := Z.ldiff gva 0xFFF in
    let end_addr := gva + (size -| 1) in
    if u64_MAX <? end_addr then Fail ()
    else
      let end_page := Z.ldiff end_addr 0xFFF in
      let num_pages := Z.to_nat ((end_page - start_page) / 4096 + 1) in
      if (slots <? num_pages)%nat then Fail () else translate_pages num_pages start_page s r.

(** ** Device registers ([exits/apic.rs]) *)
Definition ept_read (qual : Z) : bool := has qual (Z.shiftl 1 0).
Definition ept_writable (qual : Z) : bool := has qual (Z.shiftl 1 4).

Definition advance_to (rip len : Z) (msg : string) : GM () :=
  on_vcpu (map_err (EFatal msg) (vmwrite GuestRip (u64 (rip + len)))).
Definition fetch (gpa : Z) : GM (option (list Z)) := peek (λ _ r, gm_read gpa 15 r).
(** [return ExitHandlerResult::Error(e)], in a larger computation. *)
Definition guarded (m : GM ExitHandlerResult) : GM ExitHandlerResult := λ st,
  match m st with (Fail e, st') => (Done (Error e), st') | r => r end.

Definition apic_effect (offset : Z) (qual : Z) (register : Z) : VM () :=
  if ept_read qual then
    value ← demand (λ s, read_apic_register (apic s) offset);
    modify (set_gpr_value register value)
  else if ept_write qual then
    modify (λ s, with_apic (write_apic_register (apic s) offset (u32 (get_gpr_value register s)) (vfields s EmulatedTsc)) s)
  else mret ().

Definition handle_apic_access (gpa qual : Z) : GM ExitHandlerResult := guarded (
  let offset := u32 (gpa - APIC_BASE) in
  rip ← on_vcpu (vmread GuestRip);
  instr_gpa ← peek (translate_gva_to_gpa rip);
  match instr_gpa with
  | None => mret (ExitToUserspace EptViolation)
  | Some instr_gpa =>
      bytes ← fetch instr_gpa;
      match bytes with
      | None => mret (ExitToUserspace EptViolation)
      | Some bytes =>
          match decode_instruction bytes with
          | Err _ => mret (ExitToUserspace EptViolation)
          | Ok decoded =>
              on_vcpu (apic_effect offset qual (register decoded));;
              advance_to rip (length_ decoded) "Failed to advance RIP for APIC access";;
              mret Continue
          end
      end
  end).

Definition ioapic_effect (offset qual register : Z) : VM () :=
  if ept_read qual then
    value ← (if offset =? 0x00 then gets (λ s, ioregsel (ioapic s))
             else if offset =? 0x10 then demand (λ s, read_ioapic_register (ioapic s))
             else mret 0);
    modify (set_gpr_value register value)
  else if ept_write qual then
    value ← gets (λ s, u32 (get_gpr_value register s));
    if offset =? 0x00 then modify (λ s, with_ioapic (ioapic_select value (ioapic s)) s)
    else if offset =? 0x10 then modify (λ s, with_ioapic (write_ioapic_register value (ioapic s)) s)
    else mret ()
  else mret ().

Definition handle_ioapic_access (gpa qual : Z) : GM ExitHandlerResult := guarded (
  let offset := u32 (gpa - IOAPIC_BASE) in
  rip ← on_vcpu (vmread GuestRip);
  instr_gpa ← peek (translate_gva_to_gpa rip);
  match instr_gpa with
  | None => throw (EFatal "Failed to translate I/O APIC instruction address")
  | Some instr_gpa =>
      bytes ← fetch instr_gpa;
      match bytes with
      | None => throw (EFatal "Failed to read I/O APIC instruction")
      | Some bytes =>
          match decode_instruction bytes with
          | Err _ => throw (EFatal "Failed to decode I/O APIC instruction")
          | Ok decoded =>
              on_vcpu (ioapic_effect offset qual (register decoded));;
              advance_to rip (length_ decoded) "Failed to advance RIP for I/O APIC access";;
              mret Continue
          end
      end
  end).

(** ** EPT violations ([exits/ept.rs]) *)
Definition handle_ept_violation (qual : Z) : GM ExitHandlerResult :=
  if is_pebs_induced qual then on_vcpu handle_pebs_precise_exit
  else
    guest_phys ← on_vcpu (unwrap_or 0 (vmread GuestPhysicalAddr));
    if (APIC_BASE <=? guest_phys) && (guest_phys <? APIC_BASE + APIC_SIZE) then handle_apic_access guest_phys qual
    else if (IOAPIC_BASE <=? guest_phys) && (guest_phys <? IOAPIC_BASE + IOAPIC_SIZE) then handle_ioapic_access guest_phys qual
    else if ept_write qual && negb (ept_writable qual) then
      handled ← on_mem (gm_cow_fault guest_phys);
      mret (match handled with Some _ => Continue | None => ExitToUserspace PoolExhausted end)
    else mret (ExitToUserspace EptViolation).

(** ** The page of precise exits ([exits/pebs.rs]) *)
Definition PEBS_BUFFER_OFFSET : Z := 0x100.
Definition PEBS_BUFFER_SIZE : Z := 0x800.
Definition GUEST_LINUX_PAGE_OFFSET : Z := 0xffff888000000000.
Definition FIXED_CTR_CTRL_FC0_OS_USR : Z := 3.
Definition PERF_GLOBAL_CTRL_FIXED_CTR0 : Z := Z.shiftl 1 32.
Definition GuestIa32PerfGlobalCtrl : Z := 0x2808.
Definition VmExitMsrLoadAddr : Z := 0x2008.
Definition VmExitMsrLoadCount : Z := 0x4010.

Inductive RegisterPebsPageResult :=
| PebsSuccess | PebsUnsupported | PebsMisaligned | PebsUntranslatable | PebsNotEptMapped | PebsAlreadyRegistered.
Definition pebs_result_u64 (r : RegisterPebsPageResult) : Z :=
  match r with
  | PebsSuccess => 0 | PebsUnsupported => u64_MAX | PebsMisaligned => u64_MAX - 1 | PebsUntranslatable => u64_MAX - 2
  | PebsNotEptMapped => u64_MAX - 3 | PebsAlreadyRegistered => u64_MAX - 4
  end.

(** The twenty words of [DsManagementArea], as [build_ds_management_area] fills
    them, and their bytes. *)
Definition build_ds_management_area (page_va : Z) : list Z :=
  let buffer_base := page_va + PEBS_BUFFER_OFFSET in
  let buffer_max := buffer_base + PEBS_BUFFER_SIZE in
  [0; 0; 0; 0; buffer_base; buffer_base; buffer_max; buffer_base] ++ replicate 8 0 ++ replicate 4 0.
Definition ds_management_area_bytes (area : list Z) : list Z := concat (le_bytes 8 <$> area).

Definition new_pebs_state (gpa_page kernel_va : Z) : PebsState :=
  mkPebs (λ r, match r with
               | DsManagementGpa | PebsBufferGpa => gpa_page
               | DsAreaVa => kernel_va
               | FixedCtrCtrl => FIXED_CTR_CTRL_FC0_OS_USR
               | PebsEnable => Z.shiftl 1 32
               | _ => 0
               end) None false.

(** A VMCS write whose error is dropped. *)
Definition vmwrite_ignored (f v : Z) : VM () := unwrap_or () (vmwrite f v).

(** [exit_load_pa] is the physical address of the page of the VM-exit MSR-load
    list, which the kernel allocated. *)
Definition register_pebs_page (exit_load_pa page_va : Z) : GM RegisterPebsPageResult :=
  supported ← on_vcpu (gets pebs_supported);
  registered ← on_vcpu (gets (λ s, match pebs_state s with Some _ => true | None => false end));
  if negb supported then mret PebsUnsupported
  else if negb (Z.land page_va 0xFFF =? 0) then mret PebsMisaligned
  else if registered : bool then mret PebsAlreadyRegistered
  else
    gpa ← peek (translate_gva_to_gpa page_va);
    match gpa with
    | None => mret PebsUntranslatable
    | Some gpa =>
        let gpa_page := Z.ldiff gpa 0xFFF in
        mapped ← peek (λ _ r, gm_lookup gpa_page r);
        match mapped with
        | Some (Some _) =>
            let kernel_va := GUEST_LINUX_PAGE_OFFSET +! gpa_page in
            written ← on_mem (gm_write gpa_page (ds_management_area_bytes (build_ds_management_area kernel_va)));
            match written with
            | None => mret PebsNotEptMapped
            | Some _ =>
                mapped ← peek (λ _ r, gm_lookup gpa_page r);
                match mapped with
                | Some (Some (host_phys, _)) =>
                    remapped ← on_mem (gm_protect gpa_page host_phys);
                    match remapped with
                    | None => mret PebsNotEptMapped
                    | Some _ =>
                        on_vcpu (unwrap_or () (
                          prev ← vmread GuestIa32PerfGlobalCtrl;
                          vmwrite_ignored GuestIa32PerfGlobalCtrl (Z.lor prev PERF_GLOBAL_CTRL_FIXED_CTR0)));;
                        on_vcpu (vmwrite_ignored VmExitMsrLoadAddr exit_load_pa);;
                        on_vcpu (vmwrite_ignored VmExitMsrLoadCount 1);;
                        on_vcpu (modify (with_pebs_state (Some (new_pebs_state gpa_page kernel_va))));;
                        mret PebsSuccess
                    end
                | _ => mret PebsNotEptMapped
                end
            end
        | _ => mret PebsNotEptMapped
        end
    end.
End Guest.
Arguments GM R A : clear implicits.

(** ** The architecture's page walk *)
Section Walk.
Context {R : Type} `{!GuestMem R} `{!GuestMemSpec R}.
Implicit Types r : R.

(** The eight bytes of a table entry. *)
Definition entry_word r (addr : Z) : option Z := of_le <$> mapM (byte_at r) (seqZ addr 8).
Definition frame_bits (e shift : Z) : Z := 2 ^ shift * ((e mod 2 ^ 52) / 2 ^ shift).

(** Each level indexes its table with nine bits of the address; an entry with
    bit 7 set maps a large page at the second and third level, and the last
    level always maps a page. *)
Fixpoint walk r (gva : Z) (levels : list Z) (table : Z) : option Z :=
  match levels with
  | [] => None
  | shift :: below =>
      e ← entry_word r (table + 8 * ((gva / 2 ^ shift) mod 512));
      if negb (Z.odd e) then None
      else if (shift =? 12) || ((shift <? 39) && Z.testbit e 7) then Some (frame_bits e shift + gva mod 2 ^ shift)
      else walk r gva below (frame_bits e 12)
  end.
Definition levels : list Z := [39; 30; 21; 12].

Lemma land_mask e k m : m = Z.ldiff (Z.ones 52) (Z.ones k) → 0 ≤ k → 0 ≤ e → Z.land e m = frame_bits e k.
Proof.
  intros -> Hk He. unfold frame_bits. rewrite Z.mul_comm, <-Z.shiftr_div_pow2, <-Z.shiftl_mul_pow2, <-Z.land_ones by lia.
  rewrite <-Z.ldiff_ones_r by lia. apply Z.bits_inj'. intros i Hi. rewrite !Z.land_spec, !Z.ldiff_spec, Z.land_spec.
  by destruct (Z.testbit e i), (Z.testbit (Z.ones 52) i), (Z.testbit (Z.ones k) i).
Qed.
Lemma lor_offset e k m o g :
  m = Z.ldiff (Z.ones 52) (Z.ones k) → o = Z.ones k → 0 ≤ k → 0 ≤ e →
  Z.lor (Z.land e m) (Z.land g o) = frame_bits e k + g mod 2 ^ k.
Proof.
  intros Hm -> Hk He. rewrite <-Z.lxor_lor, <-Z.add_nocarry_lxor; [rewrite (land_mask e k) by done; by rewrite Z.land_ones|..];
  subst m; apply Z.bits_inj'; intros i Hi; rewrite !Z.land_spec, Z.ldiff_spec, Z.bits_0;
    by destruct (Z.testbit e i), (Z.testbit (Z.ones 52) i), (Z.testbit (Z.ones k) i), (Z.testbit g i).
Qed.
Lemma frame_bits_bounds e k : 0 ≤ k ≤ 52 → 0 ≤ frame_bits e k ∧ frame_bits e k + 2 ^ k ≤ 2 ^ 52 ∧ frame_bits e k mod 2 ^ k = 0.
Proof.
  intros Hk. unfold frame_bits. assert (0 < 2 ^ k) by (apply Z.pow_pos_nonneg; lia).
  assert (2 ^ 52 = 2 ^ k * 2 ^ (52 - k)) as Hp by (rewrite <-Z.pow_add_r by lia; f_equal; lia).
  pose proof (Z.mod_pos_bound e (2 ^ 52) ltac:(lia)) as Hm. split_and!.
  - apply Z.mul_nonneg_nonneg; [lia|]. apply Z.div_pos; lia.
  - assert (e mod 2 ^ 52 / 2 ^ k < 2 ^ (52 - k)) by (apply Z.div_lt_upper_bound; lia). nia.
  - rewrite Z.mul_comm. apply Z.mod_mul. lia.
Qed.

Lemma entry_word_width r addr e : gm_ok r → entry_word r addr = Some e → in_width 64 e.
Proof.
  intros Hr. unfold entry_word. destruct (mapM (byte_at r) (seqZ addr 8)) as [bs|] eqn:Hm; [|done]. intros [= <-].
  apply mapM_Some in Hm. assert (length bs = 8%nat) as Hl by (apply Forall2_length in Hm; by rewrite <-Hm, length_seqZ).
  assert (Forall is_byte bs) as Hb.
  { apply Forall_lookup. intros i b Hi. destruct (Forall2_lookup_r _ _ _ _ _ Hm Hi) as (a & _ & Ha). by eapply byte_at_byte. }
  clear Hm. destruct bs as [|b0 [|b1 [|b2 [|b3 [|b4 [|b5 [|b6 [|b7 [|]]]]]]]]]; try done.
  repeat match goal with H : Forall _ (_ :: _) |- _ => apply Forall_cons in H as [? H] end. unfold is_byte, in_width in *. cbn [of_le]. lia.
Qed.

Lemma read_pte_spec r table index : gm_ok r → 0 ≤ table → 0 ≤ index →
  read_pte r table index = match entry_word r (table + 8 * index) with
                           | Some e => if Z.odd e then Done e else Fail ()
                           | None => Fail ()
                           end.
Proof.
  intros Hr Ht Hi. unfold read_pte, entry_word. rewrite gm_read_law by (done || lia). rewrite (Z.mul_comm index).
  change (Z.of_nat 8) with 8. destruct (mapM _ _) as [bs|]; [|done]. cbn [fmap option_fmap option_map]. cbv zeta.
  change 1 with (Z.ones 1) at 1. rewrite Z.land_ones by lia. change (2 ^ 1) with 2. rewrite Zmod_odd. by destruct (Z.odd _).
Qed.
Lemma index_bits gva sh : 0 ≤ sh → Z.land (Z.shiftr gva sh) 0x1FF = (gva / 2 ^ sh) mod 512.
Proof. intros Hs. change 0x1FF with (Z.ones 9). rewrite Z.land_ones, Z.shiftr_div_pow2 by lia. done. Qed.
Lemma has_bit e i : 0 ≤ i → has e (Z.shiftl 1 i) = Z.testbit e i.
Proof.
  intros Hi. unfold has. destruct (Z.testbit e i) eqn:Hb.
  - apply negb_true_iff, Z.eqb_neq. intros H. apply (f_equal (λ z, Z.testbit z i)) in H.
    rewrite Z.land_spec, Z.shiftl_spec, Hb, Z.sub_diag, Z.bits_0 in H by lia. done.
  - apply negb_false_iff, Z.eqb_eq. apply Z.bits_inj'. intros j Hj. rewrite Z.land_spec, Z.shiftl_spec, Z.bits_0 by lia.
    destruct (decide (j = i)) as [->|]; [by rewrite Hb|]. change 1 with (Z.ones 1).
    rewrite Z.testbit_ones by lia. destruct (0 <=? j - i) eqn:?; [|by rewrite andb_false_r].
    rewrite (proj2 (Z.ltb_ge _ _)) by lia. by rewrite andb_false_r.
Qed.

Definition of_option {E A} (e : E) (o : option A) : outcome E A := match o with Some a => Done a | None => Fail e end.

(** A level of the walk in the code and in the recursion. *)
Lemma walk_step r gva sh below table k :
  gm_ok r → 0 ≤ sh → 0 ≤ table →
  (∀ e, in_width 64 e → k e = of_option () (
    if (sh =? 12) || ((sh <? 39) && Z.testbit e 7) then Some (frame_bits e sh + gva mod 2 ^ sh)
    else walk r gva below (frame_bits e 12))) →
  (e ← read_pte r table (Z.land (Z.shiftr gva sh) 0x1FF); k e) = of_option () (walk r gva (sh :: below) table).
Proof.
  intros Hr Hs Ht Hk. rewrite index_bits by done. rewrite read_pte_spec; [|done|done|apply Z.mod_pos_bound; lia].
  cbn [walk]. destruct (entry_word r _) as [e|] eqn:He; [|done]. cbn [mbind option_bind outcome_bind].
  destruct (Z.odd e); [|done]. cbn [negb]. by apply Hk, (entry_word_width r _ _ Hr He).
Qed.

Lemma translate_walk gva s r cr3 :
  gm_ok r → in_width 64 cr3 → vmcs s !! GuestCr3 = Some cr3 →
  translate_gva_to_gpa gva s r = of_option () (walk r gva levels (frame_bits cr3 12)).
Proof.
  intros Hr Hc Hv. unfold translate_gva_to_gpa. rewrite Hv. cbv zeta.
  assert (∀ e, in_width 64 e → Z.land e PT_ADDR_MASK = frame_bits e 12 ∧ 0 ≤ frame_bits e 12) as Hm.
  { intros e [He _]. split; [by apply land_mask|]. by apply (frame_bits_bounds e 12). }
  rewrite (proj1 (Hm cr3 Hc)). apply walk_step; [done|lia|by apply Hm|]. intros pml4e H4. cbn [orb andb Z.eqb Z.ltb Z.compare Pos.eqb Pos.compare Pos.compare_cont].
  rewrite (proj1 (Hm _ H4)). apply walk_step; [done|lia|by apply Hm|]. intros pdpte H3. rewrite has_bit by lia. cbn [orb andb Z.eqb Z.ltb Z.compare Pos.eqb Pos.compare Pos.compare_cont].
  destruct (Z.testbit pdpte 7); [by cbn [of_option]; rewrite (lor_offset pdpte 30) by (done || apply H3)|].
  rewrite (proj1 (Hm _ H3)). apply walk_step; [done|lia|by apply Hm|]. intros pde H2. rewrite has_bit by lia. cbn [orb andb Z.eqb Z.ltb Z.compare Pos.eqb Pos.compare Pos.compare_cont].
  destruct (Z.testbit pde 7); [by cbn [of_option]; rewrite (lor_offset pde 21) by (done || apply H2)|].
  rewrite (proj1 (Hm _ H2)). apply walk_step; [done|lia|by apply Hm|]. intros pte H1. cbn [orb andb Z.eqb Pos.eqb of_option].
  by rewrite (lor_offset pte 12) by (done || apply H1).
Qed.
End Walk.

(** ** Well-formedness and independence of host time *)
Section Typed.
Context {R : Type} `{!GuestMem R} `{!GuestMemSpec R}.
Implicit Types r : R.

(** Processors that differ in host time only, over the same memory. *)
Definition simR (st1 st2 : Vcpu * R) : Prop := sim st1.1 st2.1 ∧ st1.2 = st2.2 ∧ gm_ok st1.2.

Lemma gt_vcpu {A} (P : A → Prop) (m1 m2 : VM A) : vt P m1 m2 → rtyped simR P (on_vcpu m1) (on_vcpu m2).
Proof.
  intros Hm [s1 r1] [s2 r2] (Hs & Hr & Hok). cbn in Hr. subst r2. specialize (Hm s1 s2 Hs). unfold on_vcpu.
  destruct (m1 s1) as [[a|e|] s1'], (m2 s2) as [[a'|e'|] s2']; try done.
  - by destruct Hm as (-> & ? & ?).
  - by destruct Hm as [-> ?].
Qed.
Lemma gt_mem {E A} (m : M R E A) :
  (∀ r, gm_ok r → match m r with (Stuck, _) => False | (_, r') => gm_ok r' end) →
  rtyped simR (λ _, True) (on_mem m) (on_mem m).
Proof.
  intros Hm [s1 r1] [s2 r2] (Hs & Hr & Hok). cbn in Hr. subst r2. specialize (Hm r1 Hok). unfold on_mem.
  by destruct (m r1) as [[a|e|] r'].
Qed.
Lemma gt_silent {E A} (m : M R E A) : silent gm_ok byte_at m → rtyped simR (λ _, True) (on_mem m) (on_mem m).
Proof. intros Hm. apply gt_mem. intros r Hr. specialize (Hm r Hr). by destruct (m r) as [[?|?|] r'], Hm. Qed.
Lemma gt_write gpa buf : 0 ≤ gpa → Forall is_byte buf → rtyped simR (λ _, True) (on_mem (gm_write gpa buf)) (on_mem (gm_write gpa buf)).
Proof.
  intros Hg Hb. apply gt_mem. intros r Hr. pose proof (gm_write_law r gpa buf Hr Hg Hb) as H.
  destruct (gm_write gpa buf r) as [[?|?|] r']; [by destruct H|done|done].
Qed.
Lemma gt_peek {E A} (P : A → Prop) (f : Vcpu → R → outcome E A) :
  (∀ e c st s r, f (upd e c st s) r = f s r) →
  (∀ s r, core_ok s → gm_ok r → match f s r with Done a => P a | Fail _ => True | Stuck => False end) →
  rtyped simR (λ o, ∀ a, o = Some a → P a) (peek f) (peek f).
Proof.
  intros He Hf [s1 r1] [s2 r2] (Hs & Hr & Hok). cbn in Hr. subst r2.
  pose proof Hs as [(e & c & st & Heq) _ Hc _ _]. cbn [fst snd] in Hc, Heq. specialize (Hf s1 r1 Hc Hok). unfold peek.
  rewrite Heq, He, <-Heq. destruct (f s1 r1); [split; [done|]; split; [by intros ? [= <-]|done]|done|done].
Qed.
Lemma gt_guarded (P : ExitHandlerResult → Prop) (m1 m2 : GM R ExitHandlerResult) :
  rtyped simR P m1 m2 → rtyped simR (λ _, True) (guarded m1) (guarded m2).
Proof.
  intros Hm st1 st2 Hs. specialize (Hm st1 st2 Hs). unfold guarded.
  destruct (m1 st1) as [[a|e|] st1'], (m2 st2) as [[a'|e'|] st2']; try done; [by destruct Hm as (-> & _ & ?)|by destruct Hm as [-> ?]].
Qed.

Lemma walk_bounds r gva lv table gpa :
  Forall (λ k, 12 ≤ k ≤ 52) lv → walk r gva lv table = Some gpa → 0 ≤ gpa < 2 ^ 52 ∧ gpa mod 4096 = gva mod 4096.
Proof.
  intros Hlv. revert table. induction Hlv as [|k lv Hk Hlv IH]; intros table; [done|]. cbn [walk].
  destruct (entry_word r _) as [e|]; [|done]. cbn [mbind option_bind]. destruct (negb (Z.odd e)); [done|].
  destruct (_ || _); [|apply IH]. intros [= <-]. destruct (frame_bits_bounds e k) as (H0 & H1 & H2); [lia|].
  assert (0 < 2 ^ k) by (apply Z.pow_pos_nonneg; lia). pose proof (Z.mod_pos_bound gva (2 ^ k)). split; [lia|].
  assert (2 ^ k = 4096 * 2 ^ (k - 12)) as Hp by (change 4096 with (2 ^ 12); rewrite <-Z.pow_add_r by lia; f_equal; lia).
  unfold frame_bits. set (q := e mod 2 ^ 52 / 2 ^ k). clearbody q. rewrite Hp. assert (0 < 2 ^ (k - 12)) by (apply Z.pow_pos_nonneg; lia).
  replace (4096 * 2 ^ (k - 12) * q + gva mod (4096 * 2 ^ (k - 12))) with (gva mod (4096 * 2 ^ (k - 12)) + (2 ^ (k - 12) * q) * 4096) by lia.
  rewrite Z.mod_add, Z.rem_mul_r by lia. rewrite (Z.mul_comm 4096), Z.mod_add by lia. by apply Z.mod_mod.
Qed.

Lemma translate_total gva s r :
  core_ok s → gm_ok r → match translate_gva_to_gpa gva s r with
                        | Done gpa => 0 ≤ gpa < 2 ^ 52 ∧ gpa mod 4096 = gva mod 4096
                        | Fail _ => True
                        | Stuck => False
                        end.
Proof.
  intros Hs Hr. destruct (vmcs s !! GuestCr3) as [cr3|] eqn:Hc; [|unfold translate_gva_to_gpa; by rewrite Hc].
  rewrite (translate_walk gva s r cr3); [|done| |done].
  2: { pose proof (vk_vmcs _ Hs _ _ Hc) as H. by widths. }
  destruct (walk r gva levels (frame_bits cr3 12)) as [g|] eqn:Hw; [|done]. cbn [of_option].
  eapply walk_bounds; [|done]. repeat constructor; lia.
Qed.
Lemma gt_translate gva :
  rtyped simR (λ o, ∀ gpa, o = Some gpa → 0 ≤ gpa < 2 ^ 52 ∧ gpa mod 4096 = gva mod 4096) (peek (translate_gva_to_gpa gva)) (peek (translate_gva_to_gpa gva)).
Proof. apply gt_peek; [done|]. intros s r Hs Hr. apply (translate_total gva s r Hs Hr). Qed.
Lemma read_total r gpa n : gm_ok r → 0 ≤ gpa → (0 < n)%nat →
  match gm_read gpa n r with Done bs => length bs = n ∧ Forall is_byte bs | Fail _ => True | Stuck => False end.
Proof.
  intros Hr Hg Hn. rewrite gm_read_law by done. destruct (mapM (byte_at r) (seqZ gpa (Z.of_nat n))) as [bs|] eqn:Hm; [|done].
  apply mapM_Some in Hm. split; [apply Forall2_length in Hm; rewrite <-Hm, length_seqZ; lia|].
  apply Forall_lookup. intros i b Hi. destruct (Forall2_lookup_r _ _ _ _ _ Hm Hi) as (a & _ & Ha). by eapply byte_at_byte.
Qed.
Lemma gt_fetch gpa : 0 ≤ gpa → rtyped simR (λ o, ∀ bs, o = Some bs → Forall is_byte bs) (fetch gpa) (fetch gpa).
Proof.
  intros Hg. apply gt_peek; [done|]. intros s r Hs Hr. pose proof (read_total r gpa 15 Hr Hg ltac:(lia)) as H.
  by destruct (gm_read gpa 15 r) as [bs|e|]; [apply H|..].
Qed.
End Typed.

Lemma vt_apic_effect offset qual reg : vt (λ _, True) (apic_effect offset qual reg) (apic_effect offset qual reg).
Proof.
  unfold apic_effect. vt_one; [|vt_one].
  - apply (rt_bind sim (in_width 32)).
    { apply vt_demand; [done|]. intros s Hs. apply read_apic_register_total, Hs. }
    intros v Hv. apply vt_set_gpr_value. by eapply in_width_mono; [exact Hv|].
  - apply sim_modify; [reflexivity|reflexivity|reflexivity|]. intros s Hs. apply core_apic; [|done].
    apply write_apic_register_ok; [apply Hs|]. apply in_width_u32.
  - vt_go.
Qed.
Lemma write_ioapic_ok v i :
  ioapic_ok i → in_width 32 v → in_width 32 (ioregsel i) ∧ in_width 32 (ioapic_id i) →
  ioapic_ok (write_ioapic_register v i) ∧
  in_width 32 (ioregsel (write_ioapic_register v i)) ∧ in_width 32 (ioapic_id (write_ioapic_register v i)).
Proof.
  intros [Hl Hw] Hv [Hr Hi]. unfold write_ioapic_register. cbv zeta.
  repeat match goal with |- context [if ?b then mkIoApic _ _ _ else _] => destruct b
    | |- context [if ?b then i else _] => destruct b | |- context [if ?b then _ else i] => destruct b end; try done.
  - split; [done|]. cbn. split; [done|]. width.
  - split; [|done]. constructor; cbn; [by rewrite length_alter|]. apply Forall_alter; [done|].
    intros x Hx Hxw. pose proof (Forall_lookup_1 _ _ _ _ Hw Hx). destruct (_ =? 1); (apply in_width_lor; [lia|width|width]).
Qed.
Lemma read_ioapic_total i : ioapic_ok i → in_width 32 (ioapic_id i) → ∃ v, read_ioapic_register i = Some v ∧ in_width 32 v.
Proof.
  intros [Hl Hw] Hi. unfold read_ioapic_register. cbv zeta.
  assert (in_width 32 0) by const_width. assert (in_width 32 0x00170020) by const_width.
  repeat match goal with |- context [if ?b then Some _ else _] => destruct b; [by eauto|] end.
  destruct (_ && _); [|by eauto]. destruct (Nat.ltb_spec (Z.to_nat ((ioregsel i - 0x10) / 2)) IOAPIC_NUM_PINS) as [Hlt|]; [|by eauto].
  destruct (lookup_lt_is_Some_2 (redtbl i) (Z.to_nat ((ioregsel i - 0x10) / 2))) as [e He]; [by rewrite Hl|].
  rewrite He. cbn. eexists. split; [done|]. destruct (_ =? 1); apply in_width_u32.
Qed.
Lemma vt_ioapic_effect offset qual reg : vt (λ _, True) (ioapic_effect offset qual reg) (ioapic_effect offset qual reg).
Proof.
  unfold ioapic_effect. vt_one; [|vt_one].
  - apply (rt_bind sim (in_width 32)).
    { vt_one; [|vt_one].
      - apply vt_gets; [done|]. intros s Hs. apply Hs.
      - apply vt_demand; [done|]. intros s Hs. apply read_ioapic_total; apply Hs.
      - apply rt_ret. const_width. }
    intros v Hv. apply vt_set_gpr_value. by eapply in_width_mono; [exact Hv|].
  - apply (rt_bind sim (in_width 32)); [apply vt_gets; [done|]; intros; apply in_width_u32|]. intros v Hv. vt_one; [|vt_one].
    + apply sim_modify; [reflexivity|reflexivity|reflexivity|]. intros s Hs. destruct (vk_ioapic_regs _ Hs), (vk_ioapic _ Hs).
      apply core_ioapic; [by constructor|by split|done].
    + apply sim_modify; [reflexivity|reflexivity|reflexivity|]. intros s Hs.
      destruct (write_ioapic_ok v (ioapic s) (vk_ioapic _ Hs) Hv (vk_ioapic_regs _ Hs)). by apply core_ioapic.
    + vt_go.
  - vt_go.
Qed.
#[export] Hint Resolve vt_apic_effect vt_ioapic_effect : vt.
Lemma vt_vmwrite_ignored f v : in_width (field_width f) v → vt (λ _, True) (vmwrite_ignored f v) (vmwrite_ignored f v).
Proof. intros Hv. by apply vt_unwrap_or, vt_vmwrite. Qed.

(** Walks through a computation on a processor and its memory. *)
Ltac gt_one :=
  match goal with
  | |- rtyped _ _ (mret _) _ => apply rt_ret; try done
  | |- rtyped _ _ (throw _) _ => apply rt_throw
  | |- rtyped _ _ (guarded _) _ => apply (gt_guarded (λ _, True))
  | |- rtyped _ _ (@mbind _ _ () _ _ _) _ => apply (rt_bind simR (λ _, True)); [|intros _ _]
  | |- rtyped _ _ (on_vcpu (vmread _) ≫= _) _ => eapply rt_bind; [apply gt_vcpu, vt_vmread|intros ? ?]
  | |- rtyped _ _ (on_vcpu (unwrap_or _ (vmread _)) ≫= _) _ =>
      eapply rt_bind; [apply gt_vcpu, vt_unwrap_or; [|apply vt_vmread]; [width]|intros ? ?]
  | |- rtyped _ _ (on_vcpu (get_gpr _) ≫= _) _ => eapply rt_bind; [apply gt_vcpu, vt_get_gpr|intros ? ?]
  | |- rtyped _ _ (on_vcpu (get_field _) ≫= _) _ => eapply rt_bind; [apply gt_vcpu, vt_get_field|intros ? ?]
  | |- rtyped _ _ (on_vcpu (gets _) ≫= _) _ =>
      apply (rt_bind simR (λ _, True)); [apply gt_vcpu, vt_gets; [reflexivity|done]|intros ? _]
  | |- rtyped _ _ (peek (translate_gva_to_gpa _) ≫= _) _ => eapply rt_bind; [apply gt_translate|intros ? ?]
  | |- rtyped _ _ (fetch _ ≫= _) _ => eapply rt_bind; [apply gt_fetch|intros ? ?]
  | |- rtyped _ _ (on_mem _ ≫= _) _ => apply (rt_bind simR (λ _, True)); [|intros ? _]
  | |- rtyped _ _ (on_mem (gm_write _ _)) _ => apply gt_write
  | |- rtyped _ _ (on_mem (gm_cow_fault _)) _ => apply gt_silent, gm_cow_fault_law
  | |- rtyped _ _ (on_mem (gm_pre_cow _)) _ => apply gt_silent, gm_pre_cow_law
  | |- rtyped _ _ (on_mem (gm_protect _ _)) _ => apply gt_silent, gm_protect_law
  | |- rtyped _ _ (if ?b then _ else _) (if ?b then _ else _) => destruct b eqn:?
  | |- rtyped _ _ (match ?o with Some _ => _ | None => _ end) (match ?o with Some _ => _ | None => _ end) => destruct o eqn:?
  | |- rtyped _ _ (match ?o with Ok _ => _ | Err _ => _ end) (match ?o with Ok _ => _ | Err _ => _ end) => destruct o eqn:?
  | |- rtyped _ _ (match ?o with pair _ _ => _ end) _ => destruct o eqn:?
  | |- rtyped _ _ (on_vcpu _) (on_vcpu _) => apply gt_vcpu
  | |- rtyped sim _ _ _ => vt_one
  | |- rtyped _ _ _ _ => solve [eauto with vt]
  end.
Ltac gt_go := repeat (cbv beta zeta; gt_one).

Section TypedHandlers.
Context {R : Type} `{!GuestMem R} `{!GuestMemSpec R}.
Abbreviation gt := (@rtyped (Vcpu * R) ExitError simR _).

Lemma some_bounds {A} (P : A → Prop) o (a : A) : (∀ a, o = Some a → P a) → o = Some a → P a.
Proof. auto. Qed.
Lemma gt_advance_to rip len msg : gt (λ _, True) (advance_to rip len msg) (advance_to rip len msg).
Proof. unfold advance_to. gt_go. Qed.
Lemma gt_apic_access gpa qual : gt (λ _, True) (handle_apic_access gpa qual) (handle_apic_access gpa qual).
Proof.
  unfold handle_apic_access. gt_go; try apply gt_advance_to.
  match goal with H : ∀ g, Some _ = Some g → _ |- _ => by destruct (H _ eq_refl) as [[? _] _] end.
Qed.
Lemma gt_ioapic_access gpa qual : gt (λ _, True) (handle_ioapic_access gpa qual) (handle_ioapic_access gpa qual).
Proof.
  unfold handle_ioapic_access. gt_go; try apply gt_advance_to.
  match goal with H : ∀ g, Some _ = Some g → _ |- _ => by destruct (H _ eq_refl) as [[? _] _] end.
Qed.
Lemma gt_ept_violation qual : gt (λ _, True) (handle_ept_violation qual) (handle_ept_violation qual).
Proof.
  unfold handle_ept_violation. gt_go; try (apply gt_apic_access || apply gt_ioapic_access).
  match goal with H : in_width _ ?a |- 0 ≤ ?a => apply H end.
Qed.

Lemma ds_area_bytes page_va : Forall is_byte (ds_management_area_bytes (build_ds_management_area page_va)).
Proof. apply Forall_concat, Forall_fmap, Forall_true. intros z. apply le_bytes_is_byte. Qed.
Lemma page_of_gpa g : 0 ≤ g < 2 ^ 52 → 0 ≤ Z.ldiff g 0xFFF < 2 ^ 52.
Proof.
  intros Hg. assert (in_width 52 (Z.ldiff g 0xFFF)) as H by (by apply in_width_ldiff). exact H.
Qed.
Lemma new_pebs_ok gpa va : in_width 64 gpa → in_width 64 va → pebs_ok (new_pebs_state gpa va).
Proof. intros Hg Hv. constructor; [|done]. intros []; cbn; (assumption || const_width). Qed.
Lemma gt_lookup gpa : gt (λ _, True) (peek (λ _ r, gm_lookup gpa r)) (peek (λ _ r, gm_lookup gpa r)).
Proof.
  eapply rt_conseq; [apply (gt_peek (λ _, True)); [done|]|done]. intros s r _ Hr. by destruct (gm_lookup_law r gpa Hr) as [x ->].
Qed.
Lemma gt_register_pebs exit_pa va :
  in_width 64 exit_pa → gt (λ _, True) (register_pebs_page exit_pa va) (register_pebs_page exit_pa va).
Proof.
  intros Hp. unfold register_pebs_page. gt_go.
  all: try match goal with H : ∀ g, Some ?g0 = Some g → _ |- _ =>
    destruct (H _ eq_refl) as [Hg _]; apply page_of_gpa in Hg; cbv zeta; set (gp := Z.ldiff g0 0xFFF) in *; clearbody gp; clear H end.
  all: apply (rt_bind simR (λ _, True)); [apply gt_lookup|intros o1 _]; destruct o1 as [[?|]|]; gt_go; try (done || lia || apply ds_area_bytes).
  apply (rt_bind simR (λ _, True)); [apply gt_lookup|intros o2 _]; destruct o2 as [[[hp ?]|]|]; gt_go; try done.
  - eapply vt_unwrap_or; [done|]. vt_one. apply vt_vmwrite_ignored. width.
  - apply vt_vmwrite_ignored. width.
  - apply vt_vmwrite_ignored. width.
  - apply core_pebs; [|done]. intros ps [= <-]. apply new_pebs_ok; [unfold in_width; lia|apply in_width_u64].
Qed.
End TypedHandlers.
#[export] Hint Resolve gt_advance_to gt_apic_access gt_ioapic_access gt_ept_violation : vt.

(** ** Theorems *)
Section Theorems.
Context {R : Type} `{!GuestMem R} `{!GuestMemSpec R}.
Implicit Types r : R.

(** C39: the translation of a guest-virtual address is the architecture's: the
    straight-line code for four levels computes the recursive walk, with its
    pages of 1 GiB, 2 MiB and 4 KiB, and fails exactly where the walk meets an
    entry that is not present or not in memory.  The result is below 2^52 and
    keeps the offset in the page; the walk never leaves the bytes it asks for. *)
Theorem gva_translation_is_page_walk gva s r cr3 :
  gm_ok r → vmcs s !! GuestCr3 = Some cr3 → in_width 64 cr3 →
  match translate_gva_to_gpa gva s r with
  | Done gpa => walk r gva levels (frame_bits cr3 12) = Some gpa ∧ 0 ≤ gpa < 2 ^ 52 ∧ gpa mod 4096 = gva mod 4096
  | Fail _ => walk r gva levels (frame_bits cr3 12) = None
  | Stuck => False
  end.
Proof.
  intros Hr Hc Hw. rewrite (translate_walk gva s r cr3) by done.
  destruct (walk r gva levels (frame_bits cr3 12)) as [g|] eqn:E; [|done]. split; [done|].
  eapply walk_bounds; [|done]. repeat constructor; lia.
Qed.

Definition in_apic (gpa : Z) : bool := (APIC_BASE <=? gpa) && (gpa <? APIC_BASE + APIC_SIZE).
Definition in_ioapic (gpa : Z) : bool := (IOAPIC_BASE <=? gpa) && (gpa <? IOAPIC_BASE + IOAPIC_SIZE).

(** The value of the device register at an address, and a write to it. *)
Definition device_read (gpa : Z) s : option Z :=
  if in_apic gpa then read_apic_register (apic s) (gpa - APIC_BASE)
  else if gpa =? IOAPIC_BASE then Some (ioregsel (ioapic s))
  else if gpa =? IOAPIC_BASE + 0x10 then read_ioapic_register (ioapic s)
  else Some 0.
Definition device_write (gpa value : Z) s : Vcpu :=
  if in_apic gpa then with_apic (write_apic_register (apic s) (gpa - APIC_BASE) value (vfields s EmulatedTsc)) s
  else if gpa =? IOAPIC_BASE then with_ioapic (ioapic_select value (ioapic s)) s
  else if gpa =? IOAPIC_BASE + 0x10 then with_ioapic (write_ioapic_register value (ioapic s)) s
  else s.
(** What the instruction at an exit does. *)
Definition device_effect (op : MemoryOperation) (gpa reg : Z) s : option Vcpu :=
  match op with
  | Load => (λ v, set_gpr_value reg v s) <$> device_read gpa s
  | Store => Some (device_write gpa (u32 (get_gpr_value reg s)) s)
  end.

Lemma apic_effect_run gpa qual op reg s s' :
  in_apic gpa = true → ept_read qual = (match op with Load => true | Store => false end) →
  ept_write qual = (match op with Load => false | Store => true end) → device_effect op gpa reg s = Some s' →
  apic_effect (u32 (gpa - APIC_BASE)) qual reg s = (Done (), s').
Proof.
  intros Ha Hr Hw He. assert (u32 (gpa - APIC_BASE) = gpa - APIC_BASE) as ->.
  { unfold in_apic, APIC_BASE, APIC_SIZE in *. apply andb_true_iff in Ha as [? ?]. apply Z.mod_small. lia. }
  unfold apic_effect. rewrite Hr, Hw. unfold device_effect, device_read, device_write in He. rewrite Ha in He. destruct op.
  - unfold mbind, M_bind, demand. by destruct (read_apic_register (apic s) (gpa - APIC_BASE)); [injection He as <-|].
  - by injection He as <-.
Qed.
Lemma ioapic_effect_run gpa qual op reg s s' :
  in_apic gpa = false → in_ioapic gpa = true → ept_read qual = (match op with Load => true | Store => false end) →
  ept_write qual = (match op with Load => false | Store => true end) → device_effect op gpa reg s = Some s' →
  ioapic_effect (u32 (gpa - IOAPIC_BASE)) qual reg s = (Done (), s').
Proof.
  intros Ha Hi Hr Hw He. assert (u32 (gpa - IOAPIC_BASE) = gpa - IOAPIC_BASE) as ->.
  { unfold in_ioapic, IOAPIC_BASE, IOAPIC_SIZE in *. apply andb_true_iff in Hi as [? ?]. apply Z.mod_small. lia. }
  unfold ioapic_effect. rewrite Hr, Hw. unfold device_effect, device_read, device_write in He. rewrite Ha in He.
  replace (gpa =? IOAPIC_BASE) with (gpa - IOAPIC_BASE =? 0) in He by lia.
  replace (gpa =? IOAPIC_BASE + 0x10) with (gpa - IOAPIC_BASE =? 0x10) in He by lia.
  destruct (gpa - IOAPIC_BASE =? 0), (gpa - IOAPIC_BASE =? 0x10); unfold mbind, M_bind, gets, demand; destruct op;
    try by injection He as <-.
  by destruct (read_ioapic_register (ioapic s)); [injection He as <-|].
Qed.

Lemma bind_done {A B} (m : GM R A) (k : A → GM R B) st a st' : m st = (Done a, st') → (m ≫= k) st = k a st'.
Proof. intros H. unfold mbind, M_bind. by rewrite H. Qed.
Lemma effect_vmcs op gpa reg s s' : device_effect op gpa reg s = Some s' → vmcs s' = vmcs s.
Proof.
  unfold device_effect, device_write, set_gpr_value. destruct op.
  - destruct (device_read gpa s); [|done]. intros [= <-]. by destruct (reg_of_index reg).
  - intros [= <-]. by repeat case_match.
Qed.

(** An access of the guest to a register of the local or the I/O APIC is
    emulated as the instruction asks.  RIP is translated, the MOV there decoded;
    a load puts the register's value in the destination, a store writes the low
    half of the source; RIP moves past the instruction, however many prefixes it
    has, and nothing else of the processor or the memory changes. *)
Theorem device_access_emulated s r qual gpa rip code i rest s' :
  gm_ok r → is_pebs_induced qual = false → in_apic gpa || in_ioapic gpa = true →
  vmcs s !! GuestPhysicalAddr = Some gpa → vmcs s !! GuestRip = Some rip →
  translate_gva_to_gpa rip s r = Done code → 0 ≤ code →
  mapM (byte_at r) (seqZ code 15) = Some (mov_bytes i ++ rest) → mov_ok i →
  ept_read qual = (match opcode_op (mv_kind i) with Load => true | Store => false end) →
  ept_write qual = (match opcode_op (mv_kind i) with Load => false | Store => true end) →
  device_effect (opcode_op (mv_kind i)) gpa (register (describe i)) s = Some s' →
  handle_ept_violation qual (s, r) =
    (Done Continue, (with_vmcs (<[GuestRip := u64 (rip + Z.of_nat (length (mov_bytes i)))]> (vmcs s)) s', r)).
Proof.
  intros Hr Hq Hd Hg Hrip Ht Hcode Hb Hi Hrd Hwr He.
  assert (gm_read code 15 r = Done (mov_bytes i ++ rest)) as Hread by (rewrite gm_read_law by (done || lia); change (Z.of_nat 15) with 15; by rewrite Hb).
  assert (length_ (describe i) = Z.of_nat (length (mov_bytes i))) as Hlen.
  { apply mapM_Some, Forall2_length in Hb. rewrite length_seqZ, length_app in Hb. cbn. apply Z.mod_small. lia. }
  pose proof (effect_vmcs _ _ _ _ _ He) as Hv. unfold handle_ept_violation. rewrite Hq.
  assert (∀ f v, vmcs s !! f = Some v → on_vcpu (R:=R) (vmread f) (s, r) = (Done v, (s, r))) as Hrun
    by (intros f v Hf; unfold on_vcpu, vmread; by rewrite Hf).
  assert (∀ (eff : VM ()) k msg, eff s = (Done (), s') → k = length_ (describe i) →
    (on_vcpu eff;; advance_to rip k msg;; mret Continue) (s, r) =
    (Done Continue, (with_vmcs (<[GuestRip:=u64 (rip + Z.of_nat (length (mov_bytes i)))]> (vmcs s)) s', r))) as Heff.
  { intros eff k msg Hs ->. unfold on_vcpu at 1, mbind, M_bind. rewrite Hs. unfold advance_to, on_vcpu, map_err, vmwrite.
    by rewrite Hv, Hrip, Hlen. }
  rewrite (bind_done _ _ _ gpa (s, r)) by (unfold on_vcpu, unwrap_or, vmread; by rewrite Hg).
  fold (in_apic gpa) (in_ioapic gpa). unfold handle_apic_access, handle_ioapic_access, guarded. cbv zeta.
  destruct (in_apic gpa) eqn:Ha; [|cbn [orb] in Hd; rewrite Hd]; rewrite (bind_done _ _ _ rip (s, r)) by (by apply Hrun);
    rewrite (bind_done _ _ _ (Some code) (s, r)) by (unfold peek; by rewrite Ht);
    rewrite (bind_done _ _ _ (Some (mov_bytes i ++ rest)) (s, r)) by (unfold fetch, peek; by rewrite Hread); rewrite decode_mov by done;
    rewrite Heff; try done; [by eapply apic_effect_run|by eapply ioapic_effect_run].
Qed.
End Theorems.

(** *** A guest that writes its APIC *)

(** Two pages of guest memory: the first two levels of the page table, a large
    page that maps the address space to itself, and at 0x200 the instruction
    MOV [RAX], ECX. *)
Definition demo_guest : machine Ept.bump Z :=
  poke 0x200 [0x89; 0x08] (poke 0x1000 (le_bytes 8 0x83) (poke 0 (le_bytes 8 0x1003) demo_machine)).
Definition demo_mmio : Vcpu :=
  let s := demo_vcpu (demo_timer 0x000EC 1000 0) 0 1000 true None in
  set_gpr RCX 0x1FF (with_vmcs (<[GuestCr3 := 0]> (<[GuestRip := 0x200]> (<[GuestPhysicalAddr := 0xFEE000F0]> (vmcs s)))) s).
Definition demo_store : mov := mkMov [] None MovStore 1 (Plain 0).
Lemma demo_guest_ok : gm_ok demo_guest.
Proof. unfold demo_guest. repeat (apply poke_ok; [|lia|by apply bytes_check]). apply demo_machine_ok. Qed.

Lemma gva_translation_witness :
  translate_gva_to_gpa 0x1234 demo_mmio demo_guest = Done 0x1234 ∧
  translate_gva_to_gpa 0x40001234 demo_mmio demo_guest = Fail ().
Proof.
  assert (in_width 64 0) as H0 by (split; vm_compute; congruence).
  pose proof (gva_translation_is_page_walk 0x1234 demo_mmio demo_guest 0 demo_guest_ok eq_refl H0) as H.
  assert (walk demo_guest 0x1234 levels (frame_bits 0 12) = Some 0x1234) as E by (vm_compute; reflexivity).
  rewrite E in H. destruct (translate_gva_to_gpa 0x1234 demo_mmio demo_guest) as [g|[]|]; [|discriminate H|destruct H].
  destruct H as [[= <-] _]. split; [reflexivity|]. vm_compute. reflexivity.
Defined.
Lemma device_access_witness :
  ∃ s', handle_ept_violation 2 (demo_mmio, demo_guest) = (Done Continue, (s', demo_guest)) ∧
    areg_of (apic s') ASvr = 0x1FF ∧ vmcs s' !! GuestRip = Some 0x202.
Proof.
  eexists. split.
  - apply (device_access_emulated demo_mmio demo_guest 2 0xFEE000F0 0x200 0x200 demo_store (replicate 13 1)); try reflexivity.
    + apply demo_guest_ok.
    + vm_compute. congruence.
    + constructor; [constructor|cbn; lia|cbn; lia].
  - split; vm_compute; reflexivity.
Defined.
