(* ===== verification/ExitLog.v ===== *)
(** * Exit records (crate [bedrock-vmx]: [vm_state.rs], [exit_record/hash.rs] and
    the [StateHash] implementations of [devices/*.rs])

    At an exit the hypervisor may write a record of the processor: registers as
    they are, each device as a hash of its serialized state.  The hash function
    is the kernel's XXH64, a parameter here; what is modelled is what is fed to
    it.  The theorems are that equal records mean equal processors, unless two
    of the hashed states collide, and which exits of a run each trigger
    records. *)
From stdpp Require Import strings.
From S2P Require Import Prelude Wire EventLog Random Rtc Apic Vcpu Relational Precise Safety.

(** ** What is hashed *)
Definition apic_state_bytes (a : ApicState) : list Z :=
  let g := areg_of a in
  encode ([8]%nat ++ replicate 6 4%nat ++ replicate 8 4%nat ++ replicate 8 4%nat ++ replicate 8 4%nat ++ replicate 11 4%nat ++ [8]%nat)
    ([g ABase] ++ [g AId; g AVersion; g ATpr; g ALdr; g ADfr; g ASvr] ++ isr a ++ tmr a ++ irr a ++
     [g AEsr; g AIcrLo; g AIcrHi; g ALvtTimer; g ALvtThermal; g ALvtPerf; g ALvtLint0; g ALvtLint1; g ALvtError;
      g ATimerInitial; g ATimerDivide] ++ [g ATimerDeadline]).
Definition serial_state_bytes (p : SerialState) : list Z :=
  encode (replicate 6 1%nat) [p Ier; p Lcr; p Mcr; p Scr; p Dll; p Dlh].
Definition ioapic_state_bytes (i : IoApicState) : list Z :=
  encode ([4; 4]%nat ++ replicate IOAPIC_NUM_PINS 8%nat) ([ioregsel i; ioapic_id i] ++ redtbl i).
Definition rtc_state_bytes (r : RtcState) : list Z := encode [1; 8]%nat [rtc_index r; rtc_base_time r].
Definition mtrr_state_bytes (m : MtrrState) : list Z :=
  encode ([8]%nat ++ replicate 8 8%nat ++ replicate 2 8%nat ++ [8]%nat ++ replicate 20 8%nat)
    ([def_type m] ++ fixed_4k m ++ fixed_16k m ++ [fixed_64k m] ++ concat ((λ '(base, mask), [base; mask]) <$> var m)).
Definition mode_u8 (m : RdrandMode) : Z := match m with SeededRng => 0 | ExitToUserspaceMode => 1 end.
Definition random_state_bytes (r : RandomState) : list Z :=
  encode [1; 8]%nat [mode_u8 (rs_mode r); rs_seed r] ++
  match rs_pending_value r with
  | Some pv => encode [1; 8]%nat [1; pv]
  | None => encode [1]%nat [0]
  end.

(** ** Records *)
Definition GuestEsBase : Z := 0x6806.
Definition GuestCsBase : Z := 0x6808.
Definition GuestSsBase : Z := 0x680A.
Definition GuestDsBase : Z := 0x680C.
Definition GuestFsBase : Z := 0x680E.
Definition GuestGsBase : Z := 0x6810.
Definition GuestPendingDebugExceptions : Z := 0x6822.
Definition ExceptionBitmap : Z := 0x4004.

(** [exit_reason as u32] *)
Definition exit_reason_u32 (r : ExitReason) : Z :=
  match r with
  | NeedResched => 256 | VmcallShutdown => 258 | StopTscReached => 259 | VmcallSnapshot => 260
  | VmcallFeedbackBuffer => 261 | PoolExhausted => 262 | VmcallPebsPage => 263 | VmcallIoRegisterPage => 264
  | VmcallIoResponse => 265 | VmcallReady => 266 | EventBufferFull => 267 | VmcallFileFetch => 268
  | VmcallGetRandom => 269 | VmcallFileStore => 270
  | _ => match list_find (r =.) hardware_reasons with Some (i, _) => Z.of_nat i | None => 0 end
  end.

Section Hash.
Context (xxh64 : list Z → Z).

Definition exit_record (reason : ExitReason) (exit_qualification flags : Z) (s : Vcpu) : ExitRecord :=
  let vmread_or_0 f := default 0 (vmcs s !! f) in
  let g := gprs s in
  mkExit (vfields s EmulatedTsc) (exit_reason_u32 reason) flags exit_qualification
    ([g RAX; g RCX; g RDX; g RBX; g RSP; g RBP; g RSI; g RDI; g R8; g R9; g R10; g R11; g R12; g R13; g R14; g R15] ++
     [vmread_or_0 GuestRip; vmread_or_0 GuestRflags])
    [xxh64 (apic_state_bytes (apic s)); xxh64 (serial_state_bytes (serial s)); xxh64 (ioapic_state_bytes (ioapic s));
     xxh64 (rtc_state_bytes (rtc s)); xxh64 (mtrr_state_bytes (mtrr s)); xxh64 (random_state_bytes (random s))]
    0
    [vmread_or_0 GuestFsBase; vmread_or_0 GuestGsBase; vfields s KernelGsBase; vmread_or_0 GuestCr3;
     vmread_or_0 GuestCsBase; vmread_or_0 GuestDsBase; vmread_or_0 GuestEsBase; vmread_or_0 GuestSsBase;
     vmread_or_0 GuestPendingDebugExceptions]
    (vmread_or_0 GuestInterruptibilityState) 0
    (vfields s LastPebsSkid) (vfields s LastPebsInstDelta) (vfields s LastPebsTscOffsetDelta)
    (vfields s LastPebsItersSinceArm) (vfields s LastPebsArmDelta)
    [vfields s LastInstructionCount; areg_of (apic s) ATimerDeadline; request_target_tsc (io_channel s);
     match pebs_state s with Some p => preg_of p ArmedTargetTsc | None => 0 end;
     Z.lor (Z.b2z (mtf_enabled s)) (Z.shiftl (Z.b2z (last_exit_deterministic s)) 1)]
    (replicate 16 0).

(** Consuming the diagnostics of the last precise exit. *)
Definition clear_pebs_diagnostics (s : Vcpu) : Vcpu :=
  set_field LastPebsArmDelta 0 (set_field LastPebsItersSinceArm 0 (set_field LastPebsTscOffsetDelta 0
    (set_field LastPebsInstDelta 0 (set_field LastPebsSkid 0 s)))).

Definition exit_category_on (s : Vcpu) : bool :=
  match event_buffer (events s) with Some _ => contains (event_categories (events s)) CAT_EXIT | None => false end.

(** [junk] is what the four bytes of padding of the record hold. *)
Definition write_exit_record (junk : Z) (reason : ExitReason) (exit_qualification flags : Z) : VM () :=
  on ← gets exit_category_on;
  if negb on then mret ()
  else
    entry ← gets (exit_record reason exit_qualification flags);
    modify clear_pebs_diagnostics;;
    tsc ← get_field EmulatedTsc;
    emit (λ t es, (true, emit_exit_event (exit_bytes junk entry) (has flags EXIT_RECORD_FLAG_DETERMINISTIC) tsc t es)).

(** ** Which exits are recorded *)
Definition before_start (s : Vcpu) : bool :=
  (0 <? vfields s ExitStartTsc) && (vfields s EmulatedTsc <? vfields s ExitStartTsc).

(** The [match] on the trigger: is the exit recorded, and the new checkpoint. *)
Definition triggered (deterministic : bool) (s : Vcpu) : bool * Vcpu :=
  match exit_trigger s with
  | Disabled | AtShutdown => (false, s)
  | Checkpoints =>
      if negb deterministic then (false, s)
      else
        let interval := vfields s ExitTargetTsc in
        if interval =? 0 then (false, s)
        else
          let checkpoint_idx := vfields s EmulatedTsc / interval in
          if vfields s LastCheckpointIdx <? checkpoint_idx then (true, set_field LastCheckpointIdx checkpoint_idx s)
          else (false, s)
  | AtTsc =>
      if negb deterministic then (false, s)
      else (negb (exit_captured s || (vfields s EmulatedTsc <? vfields s ExitTargetTsc)), s)
  | AllExits => (true, s)
  | TscRange =>
      (match single_step_tsc_range s with
       | Some (start, end_) => negb ((vfields s EmulatedTsc <? start) || (end_ <=? vfields s EmulatedTsc))
       | None => false
       end, s)
  end.

Definition capture_exit (junk : Z) (reason : ExitReason) (exit_qualification : Z) (deterministic : bool) : VM () :=
  early ← gets before_start;
  if early : bool then mret ()
  else
    go ← gets (λ s, (triggered deterministic s).1);
    modify (λ s, (triggered deterministic s).2);;
    if negb go then mret ()
    else
      write_exit_record junk reason exit_qualification (if deterministic then EXIT_RECORD_FLAG_DETERMINISTIC else 0);;
      modify (λ s, if decide (exit_trigger s = AtTsc) then with_exit_captured true s else s).

Definition capture_exit_at_shutdown (junk : Z) : VM () :=
  skip ← gets (λ s, negb (bool_decide (exit_trigger s = AtShutdown)) || exit_captured s);
  if skip : bool then mret ()
  else
    early ← gets before_start;
    if early : bool then mret ()
    else
      write_exit_record junk VmcallShutdown 0 EXIT_RECORD_FLAG_DETERMINISTIC;;
      modify (with_exit_captured true).

Definition capture_exit_at_snapshot (junk : Z) : VM () :=
  early ← gets before_start;
  if early : bool then mret ()
  else
    off ← gets (λ s, bool_decide (exit_trigger s = Disabled));
    if off : bool then mret () else write_exit_record junk VmcallSnapshot 0 EXIT_RECORD_FLAG_DETERMINISTIC.
End Hash.

(** ** Configuration *)
Definition exit_capture_enabled (s : Vcpu) : bool := negb (bool_decide (exit_trigger s = Disabled)).
Definition enable_exit_capture (s : Vcpu) : Vcpu := with_exit_captured false (with_exit_trigger AllExits s).
Definition disable_exit_capture (s : Vcpu) : Vcpu := with_exit_captured false (with_exit_trigger Disabled s).
Definition set_exit_trigger (mode : ExitTrigger) (target_tsc : Z) (s : Vcpu) : Vcpu :=
  with_exit_captured false (set_field ExitTargetTsc target_tsc (with_exit_trigger mode s)).
Definition set_exit_start_tsc (start_tsc : Z) (s : Vcpu) : Vcpu := set_field ExitStartTsc start_tsc s.
Definition set_intercept_pf (enable : bool) (s : Vcpu) : Vcpu := with_intercept_pf enable s.
Definition apply_intercept_pf : VM () :=
  bitmap ← unwrap_or 0 (vmread ExceptionBitmap);
  on ← gets intercept_pf;
  unwrap_or () (vmwrite ExceptionBitmap
    (if on : bool then Z.lor bitmap (Z.shiftl 1 14) else Z.ldiff bitmap (Z.shiftl 1 14))).

(** ** Well-formedness *)
Lemma ev_rel_category s1 s2 : sim s1 s2 → exit_category_on s1 = exit_category_on s2.
Proof.
  intros [_ (a & a' & H1 & H2 & He) _ _ _]. unfold exit_category_on.
  pose proof (f_equal a_attached He) as Ha. pose proof (f_equal a_cats He) as Hc. cbn in Ha, Hc.
  rewrite (rf_cats _ _ H1), (rf_cats _ _ H2), Hc. pose proof (rf_buffer _ _ H1) as B1. pose proof (rf_buffer _ _ H2) as B2.
  destruct (event_buffer (events s1)), (event_buffer (events s2)); [done|..|done].
  - destruct B1 as [B1 _], B2 as [B2 _]. congruence.
  - destruct B1 as [B1 _], B2 as [B2 _]. congruence.
Qed.

Section Typed.
Context (xxh64 : list Z → Z) (Hxx : ∀ l, in_width 64 (xxh64 l)) (junk : Z).

Lemma exit_entry_length reason qual flags s : length (exit_bytes junk (exit_record xxh64 reason qual flags s)) = 512%nat.
Proof. unfold exit_bytes. by rewrite length_encode. Qed.

Lemma vt_clear_diagnostics : vt (λ _, True) (modify clear_pebs_diagnostics : VM ()) (modify clear_pebs_diagnostics).
Proof.
  apply sim_modify; [reflexivity|reflexivity|reflexivity|]. intros s Hs. unfold clear_pebs_diagnostics.
  repeat (apply core_set_field; [cbn; first [const_width|split; lia]|]). done.
Qed.
Lemma vt_write_exit_record reason qual flags :
  vt (λ _, True) (write_exit_record xxh64 junk reason qual flags) (write_exit_record xxh64 junk reason qual flags).
Proof.
  unfold write_exit_record. apply rt_get. intros s1 s2 Hs. rewrite (ev_rel_category _ _ Hs). vt_one; [vt_go|].
  apply (rt_bind sim (λ e, length (exit_bytes junk e) = 512%nat)).
  { apply vt_gets; [done|]. intros s _. apply exit_entry_length. }
  intros entry Hlen. vt_one; [apply vt_clear_diagnostics|]. vt_one.
  apply (vt_emit _ (λ t, OExit (exit_bytes junk entry) (has flags EXIT_RECORD_FLAG_DETERMINISTIC) a t)); [done|done|].
  intros t b Ht. split; [by widths|]. done.
Qed.
Lemma triggered_shape det s : ∃ i, (triggered det s).2 = s ∨ (triggered det s).2 = set_field LastCheckpointIdx i s ∧ i = vfields s EmulatedTsc / vfields s ExitTargetTsc ∧ vfields s ExitTargetTsc ≠ 0.
Proof.
  exists (vfields s EmulatedTsc / vfields s ExitTargetTsc). unfold triggered. destruct (exit_trigger s); auto; destruct det; cbn [negb]; auto.
  destruct (Z.eqb_spec (vfields s ExitTargetTsc) 0); cbn; [by auto|]. destruct (_ <? _); cbn; auto.
Qed.
Lemma vt_capture_exit reason qual det :
  vt (λ _, True) (capture_exit xxh64 junk reason qual det) (capture_exit xxh64 junk reason qual det).
Proof.
  unfold capture_exit. vt_one. vt_one; [vt_go|].
  apply (rt_bind sim (λ _, True)); [apply vt_gets; [|done]|intros go _].
  { intros e c st s. unfold triggered. cbn. destruct (exit_trigger s), det; try done. cbn. by repeat case_match. }
  vt_one.
  { apply sim_modify.
    - intros e c st s. unfold triggered. cbn. destruct (exit_trigger s), det; try done. cbn. by repeat case_match.
    - intros s. by destruct (triggered_shape det s) as (i & [->|[-> _]]).
    - intros s. by destruct (triggered_shape det s) as (i & [->|[-> _]]).
    - intros s Hs. destruct (triggered_shape det s) as (i & [->|(-> & -> & Hne)]); [done|]. apply core_set_field; [|done].
      pose proof (vk_fields _ Hs EmulatedTsc) as H1. pose proof (vk_fields _ Hs ExitTargetTsc) as H2. cbn in *. unfold in_width in *.
      split; [apply Z.div_pos; lia|]. apply Z.div_lt_upper_bound; [lia|]. nia. }
  vt_one; [vt_go|]. vt_one; [apply vt_write_exit_record|].
  apply sim_modify; intros; cbn; case_decide; try done. by apply core_captured.
Qed.
Lemma vt_capture_shutdown :
  vt (λ _, True) (capture_exit_at_shutdown xxh64 junk) (capture_exit_at_shutdown xxh64 junk).
Proof. unfold capture_exit_at_shutdown. vt_go. apply vt_write_exit_record. Qed.
Lemma vt_capture_snapshot :
  vt (λ _, True) (capture_exit_at_snapshot xxh64 junk) (capture_exit_at_snapshot xxh64 junk).
Proof. unfold capture_exit_at_snapshot. vt_go. apply vt_write_exit_record. Qed.
Lemma vt_apply_intercept_pf : vt (λ _, True) apply_intercept_pf apply_intercept_pf.
Proof. unfold apply_intercept_pf. vt_go. apply vt_unwrap_or; [done|]. apply vt_vmwrite. width. Qed.
End Typed.
#[export] Hint Resolve vt_capture_exit vt_capture_shutdown vt_capture_snapshot vt_apply_intercept_pf : vt.

(** ** Equal records, equal processors *)
Lemma encode_inj szs v1 v2 : fits szs v1 → fits szs v2 → encode szs v1 = encode szs v2 → v1 = v2.
Proof.
  intros H1 H2 E. pose proof (decode_encode szs v1 [] H1) as D1. pose proof (decode_encode szs v2 [] H2) as D2.
  rewrite E, D2 in D1. congruence.
Qed.
Lemma fits_replicate n sz l : length l = n → Forall (in_width (8 * Z.of_nat sz)) l → fits (replicate n sz) l.
Proof. intros <- Hl. induction Hl; cbn; constructor; done. Qed.
Lemma fits_app s1 s2 v1 v2 : fits s1 v1 → fits s2 v2 → fits (s1 ++ s2) (v1 ++ v2).
Proof. apply Forall2_app. Qed.

Ltac fits_go :=
  repeat first [ apply fits_app | apply fits_replicate | apply List.Forall2_cons | apply List.Forall2_nil
               | apply Forall_cons_2 | apply Forall_nil_2 ].

Lemma apic_fits a : apic_ok a → fits ([8]%nat ++ replicate 6 4%nat ++ replicate 8 4%nat ++ replicate 8 4%nat ++ replicate 8 4%nat ++ replicate 11 4%nat ++ [8]%nat)
  (let g := areg_of a in [g ABase] ++ [g AId; g AVersion; g ATpr; g ALdr; g ADfr; g ASvr] ++ isr a ++ tmr a ++ irr a ++
   [g AEsr; g AIcrLo; g AIcrHi; g ALvtTimer; g ALvtThermal; g ALvtPerf; g ALvtLint0; g ALvtLint1; g ALvtError;
    g ATimerInitial; g ATimerDivide] ++ [g ATimerDeadline]).
Proof.
  intros [Hi Ht Hr Hg]. cbv zeta. assert (∀ r, in_width 32 (areg_of a r) ∨ r = ABase ∨ r = ATimerDeadline) as H32.
  { intros r. pose proof (Hg r) as H. destruct r; auto; left; eapply in_width_mono; (exact H || cbn; lia). }
  assert (∀ r, r ≠ ABase → r ≠ ATimerDeadline → in_width (8 * Z.of_nat 4) (areg_of a r)) as H4.
  { intros r ? ?. by destruct (H32 r) as [?|[?|?]]. }
  fits_go; try done; try apply Hi; try apply Ht; try apply Hr; try (by apply H4).
  - apply (Hg ABase).
  - apply (Hg ATimerDeadline).
Qed.

Definition same_apic (a b : ApicState) : Prop :=
  (∀ r, areg_of a r = areg_of b r) ∧ isr a = isr b ∧ tmr a = tmr b ∧ irr a = irr b.
Lemma apic_bytes_inj a b : apic_ok a → apic_ok b → apic_state_bytes a = apic_state_bytes b → same_apic a b.
Proof.
  intros Ha Hb E%encode_inj; [|by apply apic_fits..]. destruct Ha as [[Ia _] [Ta _] [Ra _] _], Hb as [[Ib _] [Tb _] [Rb _] _].
  cbn [app] in E. injection E as E0 E1 E2 E3 E4 E5 E6 E.
  apply app_inj_1 in E as [Hi E]; [|congruence]. apply app_inj_1 in E as [Ht E]; [|congruence]. apply app_inj_1 in E as [Hr E]; [|congruence].
  injection E as F0 F1 F2 F3 F4 F5 F6 F7 F8 F9 F10 F11. split; [|done]. by intros [].
Qed.

Definition same_random (a b : RandomState) : Prop :=
  rs_mode a = rs_mode b ∧ rs_seed a = rs_seed b ∧ rs_pending_value a = rs_pending_value b.
Lemma random_bytes_inj a b : rng_ok a → rng_ok b → random_state_bytes a = random_state_bytes b → same_random a b.
Proof.
  intros Ha Hb E. unfold random_state_bytes in E.
  assert (∀ r, rng_ok r → fits [1; 8]%nat [mode_u8 (rs_mode r); rs_seed r]) as Hf.
  { intros r Hr. unfold fits. fits_go; [destruct (rs_mode r); by apply width_const|]. apply (gk_state _ Hr). }
  apply app_inj_1 in E as [E1 E2]; [|by rewrite !length_encode].
  apply encode_inj in E1; [|by apply Hf..]. injection E1 as Hm Hs. split; [by destruct (rs_mode a), (rs_mode b)|]. split; [done|].
  destruct (rs_pending_value a) as [v|] eqn:Va, (rs_pending_value b) as [v'|] eqn:Vb; [|done..].
  apply encode_inj in E2; [by injection E2 as ->|..]; unfold fits; fits_go; try (by apply width_const);
    first [exact (gk_pending _ Ha _ Va)|exact (gk_pending _ Hb _ Vb)].
Qed.

Lemma mtrr_fits m : mtrr_ok m → fits ([8]%nat ++ replicate 8 8%nat ++ replicate 2 8%nat ++ [8]%nat ++ replicate 20 8%nat)
  ([def_type m] ++ fixed_4k m ++ fixed_16k m ++ [fixed_64k m] ++ concat ((λ '(base, mask), [base; mask]) <$> var m)).
Proof.
  intros [Hd H64 [L4 H4] [L16 H16] [Lv Hv]]. unfold fits. fits_go; try done.
  - clear -Lv. assert (∀ l : list (Z * Z), length (concat ((λ '(base, mask), [base; mask]) <$> l)) = (2 * length l)%nat) as H.
    { induction l as [|[? ?] l IH]; [done|]. cbn. rewrite IH. lia. }
    by rewrite H, Lv.
  - clear -Hv. induction Hv as [|[b k] l [Hb Hk] Hl IH]; [constructor|]. cbn. by fits_go.
Qed.
Lemma pairs_inj (l l' : list (Z * Z)) :
  concat ((λ '(base, mask), [base; mask]) <$> l) = concat ((λ '(base, mask), [base; mask]) <$> l') → l = l'.
Proof.
  revert l'. induction l as [|[b k] l IH]; intros [|[b' k'] l']; cbn; try done. intros [= -> -> H]. f_equal. by apply IH.
Qed.
Lemma mtrr_bytes_inj a b : mtrr_ok a → mtrr_ok b → mtrr_state_bytes a = mtrr_state_bytes b → a = b.
Proof.
  intros Ha Hb E%encode_inj; [|by apply mtrr_fits..]. destruct Ha as [_ _ [La _] [Ma _] _], Hb as [_ _ [Lb _] [Mb _] _].
  cbn [app] in E. injection E as E0 E. apply app_inj_1 in E as [E1 E]; [|congruence]. apply app_inj_1 in E as [E2 E]; [|congruence].
  injection E as E3 E4%pairs_inj. destruct a, b. cbn in *. congruence.
Qed.
Lemma ioapic_bytes_inj a b :
  ioapic_ok a → ioapic_ok b → in_width 32 (ioregsel a) ∧ in_width 32 (ioapic_id a) →
  in_width 32 (ioregsel b) ∧ in_width 32 (ioapic_id b) → ioapic_state_bytes a = ioapic_state_bytes b → a = b.
Proof.
  intros [La Ha] [Lb Hb] [? ?] [? ?] E%encode_inj; try (unfold fits; fits_go; done).
  cbn [app] in E. injection E as E1 E2 E3. destruct a, b. cbn in *. congruence.
Qed.
Lemma rtc_bytes_inj a b : rtc_ok a → rtc_ok b → rtc_state_bytes a = rtc_state_bytes b → a = b.
Proof.
  intros [Ia Ta] [Ib Tb] E%encode_inj.
  - injection E as E1 E2. destruct a, b. cbn in *. congruence.
  - unfold fits. fits_go; [by eapply in_width_mono; [exact Ia|lia]|done].
  - unfold fits. fits_go; [by eapply in_width_mono; [exact Ib|lia]|done].
Qed.
Lemma serial_bytes_inj (p q : SerialState) :
  (∀ r, in_width 8 (p r)) → (∀ r, in_width 8 (q r)) → serial_state_bytes p = serial_state_bytes q → ∀ r, p r = q r.
Proof. intros Hp Hq E%encode_inj; [|unfold fits; fits_go; done..]. injection E as E1 E2 E3 E4 E5 E6. by intros []. Qed.

(** The device states of two processors that are hashed into the same slot. *)
Definition hashed_pairs (s1 s2 : Vcpu) : list (list Z * list Z) :=
  [(apic_state_bytes (apic s1), apic_state_bytes (apic s2)); (serial_state_bytes (serial s1), serial_state_bytes (serial s2));
   (ioapic_state_bytes (ioapic s1), ioapic_state_bytes (ioapic s2)); (rtc_state_bytes (rtc s1), rtc_state_bytes (rtc s2));
   (mtrr_state_bytes (mtrr s1), mtrr_state_bytes (mtrr s2)); (random_state_bytes (random s1), random_state_bytes (random s2))].
Definition same_devices (s1 s2 : Vcpu) : Prop :=
  same_apic (apic s1) (apic s2) ∧ (∀ r, serial s1 r = serial s2 r) ∧ ioapic s1 = ioapic s2 ∧ rtc s1 = rtc s2 ∧
  mtrr s1 = mtrr s2 ∧ same_random (random s1) (random s2).

(** Exit records tell diverging runs apart.  If the records of two
    well-formed processors are equal, then so are their registers, time and
    instruction count and -- unless XXH64 collides on one of the six pairs of
    serialized device states -- every register of every device: the
    serializations that are hashed determine the states they are taken of. *)
Theorem exit_record_identifies_processor (xxh64 : list Z → Z) reason qual flags s1 s2 :
  core_ok s1 → core_ok s2 →
  Forall (λ '(x, y), xxh64 x = xxh64 y → x = y) (hashed_pairs s1 s2) →
  exit_record xxh64 reason qual flags s1 = exit_record xxh64 reason qual flags s2 →
  (∀ r, gprs s1 r = gprs s2 r) ∧ vfields s1 EmulatedTsc = vfields s2 EmulatedTsc ∧
  vfields s1 LastInstructionCount = vfields s2 LastInstructionCount ∧
  Forall (λ f, default 0 (vmcs s1 !! f) = default 0 (vmcs s2 !! f))
    [GuestRip; GuestRflags; GuestCr3; GuestFsBase; GuestGsBase; GuestCsBase; GuestDsBase; GuestEsBase; GuestSsBase] ∧
  same_devices s1 s2.
Proof.
  intros H1 H2 Hc E. unfold hashed_pairs in Hc. rewrite !Forall_cons in Hc. destruct Hc as (C1 & C2 & C3 & C4 & C5 & C6 & _).
  pose proof (f_equal er_gprs E) as G. pose proof (f_equal er_hashes E) as D. pose proof (f_equal er_bases E) as B.
  pose proof (f_equal er_tsc E) as T. pose proof (f_equal er_debug E) as L. cbn in G, D, B, T, L. clear E.
  injection G as ? ? ? ? ? ? ? ? ? ? ? ? ? ? ? ? Grip Gfl. injection D as D1 D2 D3 D4 D5 D6. injection B as ? ? ? ? ? ? ? ? ?.
  injection L as L0 L. split; [by intros []|]. split; [done|]. split; [done|]. split; [by repeat constructor|].
  split_and!.
  - apply apic_bytes_inj; [apply H1|apply H2|by apply C1].
  - apply serial_bytes_inj; [apply H1|apply H2|by apply C2].
  - apply ioapic_bytes_inj; [apply H1|apply H2|apply H1|apply H2|by apply C3].
  - apply rtc_bytes_inj; [apply H1|apply H2|by apply C4].
  - apply mtrr_bytes_inj; [apply H1|apply H2|by apply C5].
  - apply random_bytes_inj; [apply H1|apply H2|by apply C6].
Qed.

(** Two processors whose task priorities differ have different records. *)
Definition demo_tpr (tpr : Z) : Vcpu := demo_vcpu (aset ATpr tpr (demo_timer 0x000EC 1000 0)) 0 1000 true (Some demo_pebs).
Lemma demo_tpr_ok tpr : in_width 32 tpr → core_ok (demo_tpr tpr).
Proof.
  intros Ht. apply ok_core, demo_vcpu_ok; [|by apply width_const..].
  apply aset_ok; [apply demo_timer_ok; by apply width_const|done].
Qed.
Lemma exit_record_witness : exit_record of_le Cpuid 0 1 (demo_tpr 0) ≠ exit_record of_le Cpuid 0 1 (demo_tpr 0x20).
Proof.
  intros E. destruct (exit_record_identifies_processor of_le Cpuid 0 1 (demo_tpr 0) (demo_tpr 0x20)) as (_ & _ & _ & _ & [Hr _] & _).
  - apply demo_tpr_ok. by apply width_const.
  - apply demo_tpr_ok. by apply width_const.
  - repeat apply Forall_cons_2; [|reflexivity..|constructor]. intros H. exfalso. vm_compute in H. discriminate H.
  - exact E.
  - specialize (Hr ATpr). vm_compute in Hr. discriminate Hr.
Defined.
