(* ===== verification/IoChannel.v ===== *)
(** * The channel of I/O requests (crate [bedrock-vmx]: [vm_state.rs])

    The host queues requests; the one in the slot of [request_buf] is announced
    to the guest by an interrupt, which fetches it with a hypercall.  The slot is
    free when [request_len] is zero.  Read as a queue, the channel holds the
    request of the slot and then the pending ones: this file relates the
    operations to that queue. *)
From S2P Require Import Prelude EventLog Vcpu Relational.

Definition PENDING_IO_QUEUE_CAP : nat := 256.

(** A zeroed page buffer, [box_io_page_buf]. *)
Definition box_io_page_buf : Z → Z := λ _, 0.

Definition io_channel_new : IoChannelState :=
  mkIoChannel 0 0 false 0 0 box_io_page_buf box_io_page_buf [].
Definition io_channel_clone_for_fork (parent : IoChannelState) : IoChannelState :=
  mkIoChannel (page_gpa parent) 0 false 0 0 box_io_page_buf box_io_page_buf [].
Definition serial_console_new : SerialConsoleState := mkConsole 0 box_io_page_buf.
Definition serial_console_clone_for_fork (parent : SerialConsoleState) : SerialConsoleState :=
  mkConsole (console_page_gpa parent) box_io_page_buf.

Implicit Types c : IoChannelState.

Definition promote_next_pending c : IoChannelState :=
  if negb (request_len c =? 0) then c
  else
    match pending_actions c with
    | [] => c
    | next :: rest =>
        let len := Z.min (Z.of_nat (length (pia_data next))) IO_CHANNEL_BUF_SIZE in
        mkIoChannel (page_gpa c) len false (pia_target_tsc next) 0
          (store (request_buf c) 0 (take (Z.to_nat len) (pia_data next))) (response_buf c) rest
    end.

Inductive EnqueueResult := Queued | QueueFull | OutOfMemory.
(** [heap] is whether the push could allocate. *)
Definition enqueue_pending (heap : bool) (action : PendingIoAction) c : EnqueueResult * IoChannelState :=
  if (PENDING_IO_QUEUE_CAP <=? length (pending_actions c))%nat then (QueueFull, c)
  else if negb heap then (OutOfMemory, c)
  else (Queued, mkIoChannel (page_gpa c) (request_len c) (request_delivered c) (request_target_tsc c) (response_len c)
                  (request_buf c) (response_buf c) (pending_actions c ++ [action])).

(** What the hypercalls of the file [Vmcall] do to the channel. *)
Definition set_channel_page (gpa : Z) c : IoChannelState :=
  mkIoChannel gpa (request_len c) false (request_target_tsc c) 0 (request_buf c) (response_buf c) (pending_actions c).
Definition consume_request c : IoChannelState :=
  promote_next_pending
    (mkIoChannel (page_gpa c) 0 false 0 (response_len c) (request_buf c) (response_buf c) (pending_actions c)).
Definition set_response_buf (buf : Z → Z) c : IoChannelState :=
  mkIoChannel (page_gpa c) (request_len c) (request_delivered c) (request_target_tsc c) (response_len c)
    (request_buf c) buf (pending_actions c).
Definition set_response_len (len : Z) c : IoChannelState :=
  mkIoChannel (page_gpa c) (request_len c) (request_delivered c) (request_target_tsc c) len
    (request_buf c) (response_buf c) (pending_actions c).

(** ** The invariant *)
Lemma store_is_byte m off bs : (∀ i, is_byte (m i)) → Forall is_byte bs → ∀ i, is_byte (store m off bs i).
Proof.
  intros Hm Hbs i. unfold store. destruct (i <? off); [apply Hm|]. destruct (bs !! _) as [b|] eqn:Hb; [|apply Hm]. cbn.
  by apply (Forall_lookup_1 _ _ _ _ Hbs Hb).
Qed.
Lemma load_is_byte m off n : (∀ i, is_byte (m i)) → Forall is_byte (load m off n).
Proof. intros Hm. unfold load. apply Forall_fmap, Forall_true. intros i. apply Hm. Qed.

Lemma promote_ok c : channel_ok c → channel_ok (promote_next_pending c).
Proof.
  intros Hc. unfold promote_next_pending. destruct (negb _); [done|]. pose proof Hc as [Hpg Hrq Hrs Htg Hqb Hsb Hpd].
  destruct (pending_actions c) as [|a rest]; [done|]. apply Forall_cons in Hpd as [(Ht & Hl & Hb) Hpd].
  cbv zeta. constructor; cbn; try done; try (unfold IO_CHANNEL_BUF_SIZE in *; lia).
  apply store_is_byte; [done|]. by apply Forall_take.
Qed.
Lemma enqueue_ok heap a c : channel_ok c → action_ok a → channel_ok (enqueue_pending heap a c).2.
Proof.
  intros Hc Ha. unfold enqueue_pending. destruct (_ <=? _)%nat; [done|]. destruct heap; [|done]. cbn.
  destruct Hc. constructor; try done. cbn. apply Forall_app. split; [done|]. by constructor.
Qed.
Lemma consume_ok c : channel_ok c → channel_ok (consume_request c).
Proof.
  intros [Hpg Hrq Hrs Htg Hqb Hsb Hpd]. apply promote_ok. constructor; cbn; try done; unfold IO_CHANNEL_BUF_SIZE in *; lia.
Qed.
Lemma set_page_ok gpa c : in_width 52 gpa → channel_ok c → channel_ok (set_channel_page gpa c).
Proof. intros Hg [Hpg Hrq Hrs Htg Hqb Hsb Hpd]. constructor; cbn; try done; unfold IO_CHANNEL_BUF_SIZE in *; lia. Qed.
Lemma set_response_ok off bs c :
  Forall is_byte bs → channel_ok c → channel_ok (set_response_buf (store (response_buf c) off bs) c).
Proof. intros Hb [Hpg Hrq Hrs Htg Hqb Hsb Hpd]. constructor; cbn; try done. by apply store_is_byte. Qed.
Lemma set_response_len_ok len c : 0 ≤ len ≤ IO_CHANNEL_BUF_SIZE → channel_ok c → channel_ok (set_response_len len c).
Proof. intros Hl []. by constructor. Qed.

(** ** The channel as a queue *)
Definition in_slot c : list (Z * list Z) :=
  if request_len c =? 0 then [] else [(request_target_tsc c, load (request_buf c) 0 (Z.to_nat (request_len c)))].
Definition as_request (a : PendingIoAction) : Z * list Z := (pia_target_tsc a, pia_data a).
Definition contents c : list (Z * list Z) := in_slot c ++ (as_request <$> pending_actions c).

(** No request has to wait for a slot that is free, and none is empty. *)
Record queue_ok c : Prop := {
  qk_channel : channel_ok c;
  qk_nonempty : Forall (λ a, pia_data a ≠ []) (pending_actions c);
  qk_busy : request_len c = 0 → pending_actions c = [];
}.

Lemma promote_contents c :
  channel_ok c → Forall (λ a, pia_data a ≠ []) (pending_actions c) →
  contents (promote_next_pending c) = contents c ∧ queue_ok (promote_next_pending c).
Proof.
  intros Hc Hne. pose proof (promote_ok c Hc) as Hok. unfold promote_next_pending in *.
  destruct (Z.eqb_spec (request_len c) 0) as [H0|H0]; cbn [negb] in *; [|by split; [|constructor]].
  destruct (pending_actions c) as [|a rest] eqn:Hp; [split; [done|]; constructor; [done|by rewrite Hp|done]|].
  pose proof (ck_pending _ Hc) as Hpd. rewrite Hp in Hpd. apply Forall_cons in Hpd as [(Ht & Hl & Hb) Hpd].
  apply Forall_cons in Hne as [Ha Hne]. assert (length (pia_data a) ≠ 0%nat) by (by destruct (pia_data a)).
  assert (Z.min (Z.of_nat (length (pia_data a))) IO_CHANNEL_BUF_SIZE = Z.of_nat (length (pia_data a))) as Hmin
    by (unfold IO_CHANNEL_BUF_SIZE; lia).
  cbv zeta in *. rewrite Hmin in *. rewrite Nat2Z.id in *. rewrite take_ge in * by done. split.
  - unfold contents, in_slot. cbn. rewrite H0, Hp. rewrite (proj2 (Z.eqb_neq _ _)) by lia.
    rewrite Nat2Z.id, load_store. done.
  - constructor; [done|done|]. cbn. lia.
Qed.

(** Queueing appends; a full queue or a failed allocation changes nothing. *)
Lemma enqueue_contents heap a c r c' :
  queue_ok c → action_ok a → pia_data a ≠ [] → enqueue_pending heap a c = (r, c') →
  match r with
  | Queued => contents (promote_next_pending c') = contents c ++ [as_request a] ∧ queue_ok (promote_next_pending c')
  | _ => c' = c
  end.
Proof.
  intros [Hc Hn Hb] Ha Hne He. pose proof (enqueue_ok heap a c Hc Ha) as Hok. rewrite He in Hok. cbn [snd] in Hok.
  unfold enqueue_pending in He. destruct (_ <=? _)%nat; [by injection He as <- <-|]. destruct heap; [|by injection He as <- <-].
  injection He as <- <-. destruct (promote_contents _ Hok) as [Hp Hq]; [cbn; apply Forall_app; split; [done|by constructor]|].
  split; [|done]. rewrite Hp. unfold contents, in_slot. cbn. by rewrite fmap_app, app_assoc.
Qed.

(** Consuming removes the head. *)
Lemma consume_contents c x rest :
  queue_ok c → contents c = x :: rest →
  contents (consume_request c) = rest ∧ queue_ok (consume_request c) ∧ request_len c ≠ 0 ∧
  x = (request_target_tsc c, load (request_buf c) 0 (Z.to_nat (request_len c))).
Proof.
  intros [Hc Hn Hb] Hx. unfold consume_request.
  destruct (promote_contents (mkIoChannel (page_gpa c) 0 false 0 (response_len c) (request_buf c) (response_buf c) (pending_actions c))) as [Hp Hq].
  { destruct Hc. constructor; cbn; try done; unfold IO_CHANNEL_BUF_SIZE in *; lia. }
  { done. }
  rewrite Hp. unfold contents, in_slot in *. cbn. destruct (Z.eqb_spec (request_len c) 0) as [H0|H0].
  { rewrite Hb in Hx by done. done. }
  cbn in Hx. injection Hx as <- <-. done.
Qed.
Lemma contents_nil c : queue_ok c → contents c = [] ↔ request_len c = 0.
Proof.
  intros [Hc Hn Hb]. unfold contents, in_slot. destruct (Z.eqb_spec (request_len c) 0) as [H0|H0]; [|done].
  rewrite Hb by done. done.
Qed.
