(* ===== verification/Vmcall.v ===== *)
(** * Hypercalls (crate [bedrock-vmx]: [exits/vmcall.rs], [hypercalls.rs])

    RAX holds the number of the call, RBX, RCX, RDX and RSI its arguments.  The
    calls register pages, move requests, responses and console lines through
    them, hand out random bytes, and tell userspace of milestones.  Loops over
    pages and over chunks of 256 bytes are one combinator, whose fuel is the
    number of bytes: every step moves at least one. *)
From stdpp Require Import strings.
From S2P Require Import Prelude Wire EventLog Random Rtc Apic Vcpu GuestMem Relational Precise Handlers Safety Mmio ExitLog IoChannel.

Definition HYPERCALL_SHUTDOWN : Z := 0.
Definition HYPERCALL_SNAPSHOT : Z := 1.
Definition HYPERCALL_REGISTER_FEEDBACK_BUFFER : Z := 2.
Definition HYPERCALL_REGISTER_PEBS_PAGE : Z := 3.
Definition HYPERCALL_IO_REGISTER_PAGE : Z := 4.
Definition HYPERCALL_IO_GET_REQUEST : Z := 5.
Definition HYPERCALL_IO_PUT_RESPONSE : Z := 6.
Definition HYPERCALL_READY : Z := 7.
Definition HYPERCALL_SERIAL_REGISTER_PAGE : Z := 8.
Definition HYPERCALL_SERIAL_WRITE : Z := 9.
Definition HYPERCALL_FILE_FETCH : Z := 10.
Definition HYPERCALL_GET_RANDOM : Z := 11.
Definition HYPERCALL_FILE_STORE : Z := 12.

Definition MAX_FEEDBACK_BUFFER_SIZE : Z := FEEDBACK_BUFFER_MAX_PAGES * 4096.
Definition FB_ERR_BAD_SIZE : Z := u64_MAX.
Definition FB_ERR_BAD_ID_LEN : Z := u64_MAX - 1.
Definition FB_ERR_ID_NOT_RESIDENT : Z := u64_MAX - 2.
Definition FB_ERR_BUFFER_NOT_RESIDENT : Z := u64_MAX - 3.
Definition FB_ERR_NO_SLOTS : Z := u64_MAX - 4.
Definition IO_COPY_CHUNK : Z := 256.

Inductive WriteGuest := Pool | Fault.

Section Calls.
Context {R : Type} `{!GuestMem R}.

(** ** Copying *)

(** [while offset < len { n = step(offset); body; offset += n }] *)
Fixpoint chunked {E} (fuel : nat) (step : Z → Z) (body : Z → Z → GM R (result () E)) (len offset : Z) : GM R (result () E) :=
  if len <=? offset then mret (Ok ())
  else
    match fuel with
    | O => stuck
    | S fuel =>
        let n := step offset in
        r ← body offset n;
        match r with
        | Ok _ => chunked fuel step body len (offset + n)
        | Err e => mret (Err e)
        end
    end.
Definition small_chunk (len offset : Z) : Z := Z.min (len - offset) IO_COPY_CHUNK.
Definition page_chunk (gva len offset : Z) : Z := Z.min (4096 - Z.land (gva +! offset) 0xFFF) (len - offset).

(** A slice of a page buffer; a slice past its end panics. *)
Definition slice (buf : Z → Z) (offset n : Z) : option (list Z) :=
  if offset + n <=? IO_CHANNEL_BUF_SIZE then Some (load buf offset (Z.to_nat n)) else None.

Definition request_chunk (gpa offset n : Z) : GM R (result () ()) :=
  chunk ← on_vcpu (demand (λ s, slice (request_buf (io_channel s)) offset n));
  written ← on_mem (gm_write (u64 (gpa + offset)) chunk);
  mret (match written with Some _ => Ok () | None => Err () end).
Definition copy_request_to_guest (gpa len : Z) : GM R (result () ()) :=
  chunked (Z.to_nat len) (small_chunk len) (request_chunk gpa) len 0.

(** Chunks of guest memory into a page buffer, stored with [put]. *)
Definition copy_from_guest (put : Z → list Z → Vcpu → Vcpu) (gpa len : Z) : GM R (result () ()) :=
  chunked (Z.to_nat len) (small_chunk len) (λ offset n,
    chunk ← peek (λ _ r, gm_read (u64 (gpa + offset)) (Z.to_nat n) r);
    match chunk with
    | None => mret (Err ())
    | Some chunk =>
        on_vcpu (demand (λ _, if offset + n <=? IO_CHANNEL_BUF_SIZE then Some () else None));;
        on_vcpu (modify (put offset chunk));;
        mret (Ok ())
    end) len 0.
Definition put_response (offset : Z) (chunk : list Z) (s : Vcpu) : Vcpu :=
  with_io_channel (set_response_buf (store (response_buf (io_channel s)) offset chunk) (io_channel s)) s.
Definition put_console (offset : Z) (chunk : list Z) (s : Vcpu) : Vcpu :=
  with_serial_console
    (mkConsole (console_page_gpa (serial_console s)) (store (console_pending_buf (serial_console s)) offset chunk)) s.
Definition copy_response_from_guest : Z → Z → GM R (result () ()) := copy_from_guest put_response.
Definition copy_serial_console_from_guest : Z → Z → GM R (result () ()) := copy_from_guest put_console.

(** [dst] is the array the identifier is read into. *)
Fixpoint read_guest_id (fuel : nat) (gva len offset : Z) (dst : list Z) (s : Vcpu) (r : R) : outcome () (list Z) :=
  if len <=? offset then Done dst
  else
    match fuel with
    | O => Stuck
    | S fuel =>
        let in_page := page_chunk gva len offset in
        gpa ← translate_gva_to_gpa (gva +! offset) s r;
        match gm_read gpa (Z.to_nat in_page) r with
        | Done bs => read_guest_id fuel gva len (offset + in_page) (list_inserts (Z.to_nat offset) bs dst) s r
        | Fail _ => Fail ()
        | Stuck => Stuck
        end
    end.

Definition ensure_guest_writable (gva len : Z) : GM R (result () WriteGuest) :=
  forked ← gets (λ st, gm_is_forked st.2);
  if negb forked then mret (Ok ())
  else
    chunked (Z.to_nat len) (page_chunk gva len) (λ offset _,
      gpa ← peek (translate_gva_to_gpa (gva +! offset));
      match gpa with
      | None => mret (Err Fault)
      | Some gpa =>
          handled ← on_mem (gm_cow_fault gpa);
          mret (match handled with Some _ => Ok () | None => Err Pool end)
      end) len 0.

Definition write_guest_bytes (gva : Z) (src : list Z) : GM R (result () WriteGuest) :=
  let len := Z.of_nat (length src) in
  chunked (length src) (page_chunk gva len) (λ offset n,
    gpa ← peek (translate_gva_to_gpa (gva +! offset));
    match gpa with
    | None => mret (Err Fault)
    | Some gpa =>
        written ← on_mem (gm_write gpa (take (Z.to_nat n) (drop (Z.to_nat offset) src)));
        mret (match written with Some _ => Ok () | None => Err Fault end)
    end) len 0.

(** ** The calls *)

(** RAX is set and RIP advanced; then the handler returns. *)
Definition set_result (rax : Z) : GM R () := on_vcpu (modify (set_gpr RAX rax));; on_vcpu advance_rip.
Definition retire (rax : Z) (result : ExitHandlerResult) : GM R ExitHandlerResult := set_result rax;; mret result.

Definition emit_get_random_event (pid : Z) (bytes : list Z) : VM () :=
  emit_randomness_event (mkRandom 0 pid (source_u8 GetRandom) 0) bytes.
Definition flush_serial_line : VM () := modify (λ s, with_events (event_flush_serial_line (events s)).2 s).

Definition call_shutdown (xxh64 : list Z → Z) (junk : Z) : GM R ExitHandlerResult :=
  on_vcpu (capture_exit_at_shutdown xxh64 junk);;
  on_vcpu flush_serial_line;;
  on_vcpu advance_rip;;
  mret (ExitToUserspace VmcallShutdown).
Definition call_snapshot (xxh64 : list Z → Z) (junk : Z) : GM R ExitHandlerResult :=
  on_vcpu (capture_exit_at_snapshot xxh64 junk);;
  on_vcpu advance_rip;;
  mret (ExitToUserspace VmcallSnapshot).
Definition call_ready : GM R ExitHandlerResult := on_vcpu advance_rip;; mret (ExitToUserspace VmcallReady).

(** [heap] is whether the entry could be allocated. *)
Definition call_register_feedback_buffer (heap : bool) : GM R ExitHandlerResult :=
  gva ← on_vcpu (get_gpr RBX);
  size ← on_vcpu (get_gpr RCX);
  id_gva ← on_vcpu (get_gpr RDX);
  id_len ← on_vcpu (get_gpr RSI);
  if (size =? 0) || (MAX_FEEDBACK_BUFFER_SIZE <? size) then retire FB_ERR_BAD_SIZE Continue
  else if (id_len =? 0) || (FEEDBACK_BUFFER_ID_MAX_LEN <? id_len) then retire FB_ERR_BAD_ID_LEN Continue
  else
    id ← peek (read_guest_id (Z.to_nat id_len) id_gva id_len 0 (replicate (Z.to_nat FEEDBACK_BUFFER_ID_MAX_LEN) 0));
    match id with
    | None => retire FB_ERR_ID_NOT_RESIDENT Continue
    | Some id =>
        gpas ← peek (translate_gva_range_to_gpas gva size (Z.to_nat FEEDBACK_BUFFER_MAX_PAGES));
        match gpas with
        | None => retire FB_ERR_BUFFER_NOT_RESIDENT Continue
        | Some gpas =>
            let slots := gpas ++ replicate (Z.to_nat FEEDBACK_BUFFER_MAX_PAGES - length gpas) 0 in
            let info := mkFeedback gva size (Z.of_nat (length gpas)) slots id id_len in
            buffer_idx ← on_vcpu (gets (λ s, u64 (Z.of_nat (length (feedback_buffers s)))));
            if negb heap then retire FB_ERR_NO_SLOTS Continue
            else
              on_vcpu (modify (λ s, with_feedback_buffers (feedback_buffers s ++ [info]) s));;
              retire buffer_idx (ExitToUserspace VmcallFeedbackBuffer)
        end
    end.

Definition call_register_pebs_page (exit_load_pa : Z) : GM R ExitHandlerResult :=
  page_va ← on_vcpu (get_gpr RBX);
  result ← register_pebs_page exit_load_pa page_va;
  retire (pebs_result_u64 result) (ExitToUserspace VmcallPebsPage).

Definition call_file_fetch : GM R ExitHandlerResult := retire 0 (ExitToUserspace VmcallFileFetch).
Definition call_file_store : GM R ExitHandlerResult := retire 0 (ExitToUserspace VmcallFileStore).

(** The failure code is [!0]. *)
Definition call_io_register_page : GM R ExitHandlerResult :=
  page_va ← on_vcpu (get_gpr RBX);
  if negb (Z.land page_va 0xFFF =? 0) then retire u64_MAX (ExitToUserspace VmcallIoRegisterPage)
  else
    gpa ← peek (translate_gva_to_gpa page_va);
    match gpa with
    | None => retire u64_MAX (ExitToUserspace VmcallIoRegisterPage)
    | Some gpa =>
        on_vcpu (modify (λ s, with_io_channel (set_channel_page gpa (io_channel s)) s));;
        on_mem (gm_pre_cow gpa);;
        retire 0 (ExitToUserspace VmcallIoRegisterPage)
    end.

Definition call_io_get_request : GM R ExitHandlerResult :=
  page ← on_vcpu (gets (λ s, page_gpa (io_channel s)));
  len ← on_vcpu (gets (λ s, request_len (io_channel s)));
  if page =? 0 then retire u64_MAX Continue
  else if len =? 0 then retire 0 Continue
  else
    copied ← copy_request_to_guest page len;
    match copied with
    | Ok _ =>
        on_vcpu (modify (λ s, with_io_channel (consume_request (io_channel s)) s));;
        retire len Continue
    | Err _ => retire u64_MAX Continue
    end.

Definition emit_response_event : VM () :=
  s ← gets id;
  let chan := io_channel s in
  emit (λ t es, event_emit_io_channel (mkIo (phase_u8 Response) 0) (request_buf chan) (response_buf chan)
                  (request_len chan) (response_len chan) (vfields s EmulatedTsc) t es).
Definition call_io_put_response : GM R ExitHandlerResult :=
  rbx ← on_vcpu (get_gpr RBX);
  let response_len := Z.min rbx IO_CHANNEL_BUF_SIZE in
  page ← on_vcpu (gets (λ s, page_gpa (io_channel s)));
  if page =? 0 then retire u64_MAX (ExitToUserspace VmcallIoResponse)
  else
    copied ← copy_response_from_guest page response_len;
    match copied with
    | Ok _ =>
        on_vcpu (modify (λ s, with_io_channel (set_response_len response_len (io_channel s)) s));;
        set_result 0;;
        on_vcpu emit_response_event;;
        mret (ExitToUserspace VmcallIoResponse)
    | Err _ => retire u64_MAX (ExitToUserspace VmcallIoResponse)
    end.

Definition call_serial_register_page : GM R ExitHandlerResult :=
  page_va ← on_vcpu (get_gpr RBX);
  if negb (Z.land page_va 0xFFF =? 0) then retire u64_MAX Continue
  else
    gpa ← peek (translate_gva_to_gpa page_va);
    match gpa with
    | None => retire u64_MAX Continue
    | Some gpa =>
        on_vcpu (modify (λ s, with_serial_console (mkConsole gpa (console_pending_buf (serial_console s))) s));;
        retire 0 Continue
    end.

Definition emit_console_event (len : Z) : VM () :=
  s ← gets id;
  emit (λ t es, event_emit_console (console_pending_buf (serial_console s)) len (vfields s EmulatedTsc) t es).
Definition call_serial_write : GM R ExitHandlerResult :=
  rbx ← on_vcpu (get_gpr RBX);
  let len := Z.min rbx SERIAL_CONSOLE_PAGE_SIZE in
  page ← on_vcpu (gets (λ s, console_page_gpa (serial_console s)));
  if page =? 0 then retire u64_MAX Continue
  else
    copied ← copy_serial_console_from_guest page len;
    match copied with
    | Ok _ =>
        set_result 0;;
        on_vcpu flush_serial_line;;
        on_vcpu (emit_console_event len);;
        mret Continue
    | Err _ => retire u64_MAX Continue
    end.

(** Eight bytes of the generator at a time; the bytes of [tmp[..cap]]. *)
Fixpoint fill_seeded (fuel : nat) (cap off : Z) : VM (list Z) :=
  if cap <=? off then mret []
  else
    match fuel with
    | O => stuck
    | S fuel =>
        v ← gets (λ s, (next_seeded_u64 (random s)).1);
        modify (λ s, with_random (next_seeded_u64 (random s)).2 s);;
        let n := Z.min (cap - off) 8 in
        rest ← fill_seeded fuel cap (off + n);
        mret (take (Z.to_nat n) (le_bytes 8 v) ++ rest)
    end.

Definition call_get_random : GM R ExitHandlerResult :=
  buf_gva ← on_vcpu (get_gpr RBX);
  req_len ← on_vcpu (get_gpr RCX);
  pid ← on_vcpu (get_gpr RDX);
  let cap := Z.min req_len (Z.of_nat RANDOM_REPLY_MAX) in
  mode ← on_vcpu (gets (λ s, rs_mode (random s)));
  match mode with
  | SeededRng =>
      ready ← ensure_guest_writable buf_gva cap;
      match ready with
      | Err Pool => mret (ExitToUserspace PoolExhausted)
      | Err Fault => retire u64_MAX Continue
      | Ok _ =>
          tmp ← on_vcpu (fill_seeded (Z.to_nat cap) cap 0);
          written ← write_guest_bytes buf_gva tmp;
          match written with
          | Ok _ => on_vcpu (emit_get_random_event (u32 pid) tmp);; retire cap Continue
          | Err _ => retire u64_MAX Continue
          end
      end
  | ExitToUserspaceMode =>
      needs ← on_vcpu (gets (λ s, needs_get_random_exit (random s)));
      if needs : bool then
        on_vcpu (modify (λ s, with_random (begin_request buf_gva cap (u32 pid) (random s)) s));;
        mret (ExitToUserspace VmcallGetRandom)
      else
        target_gva ← on_vcpu (gets (λ s, rs_buf_gva (random s)));
        n ← on_vcpu (gets (λ s, Z.min (rs_reply_len (random s)) (rs_req_len (random s))));
        ready ← ensure_guest_writable target_gva n;
        match ready with
        | Err Pool => mret (ExitToUserspace PoolExhausted)
        | Err Fault =>
            on_vcpu (modify (λ s, with_random (clear_request (random s)) s));;
            retire u64_MAX Continue
        | Ok _ =>
            req_pid ← on_vcpu (gets (λ s, rs_pid (random s)));
            tmp ← on_vcpu (gets (λ s, take (Z.to_nat n) (rs_reply (random s))));
            written ← write_guest_bytes target_gva tmp;
            rax ← match written with
                  | Ok _ => on_vcpu (emit_get_random_event req_pid tmp);; mret n
                  | Err _ => mret u64_MAX
                  end;
            on_vcpu (modify (λ s, with_random (clear_request (random s)) s));;
            retire rax Continue
        end
  end.

(** [xxh64], [junk] and [exit_load_pa] are those of the exit records and of the
    page of precise exits; [heap] is whether an allocation succeeds. *)
Definition handle_vmcall (xxh64 : list Z → Z) (junk exit_load_pa : Z) (heap : bool) : GM R ExitHandlerResult := guarded (
  hypercall_nr ← on_vcpu (get_gpr RAX);
  if hypercall_nr =? HYPERCALL_SHUTDOWN then call_shutdown xxh64 junk
  else if hypercall_nr =? HYPERCALL_SNAPSHOT then call_snapshot xxh64 junk
  else if hypercall_nr =? HYPERCALL_READY then call_ready
  else if hypercall_nr =? HYPERCALL_REGISTER_FEEDBACK_BUFFER then call_register_feedback_buffer heap
  else if hypercall_nr =? HYPERCALL_REGISTER_PEBS_PAGE then call_register_pebs_page exit_load_pa
  else if hypercall_nr =? HYPERCALL_FILE_FETCH then call_file_fetch
  else if hypercall_nr =? HYPERCALL_FILE_STORE then call_file_store
  else if hypercall_nr =? HYPERCALL_IO_REGISTER_PAGE then call_io_register_page
  else if hypercall_nr =? HYPERCALL_IO_GET_REQUEST then call_io_get_request
  else if hypercall_nr =? HYPERCALL_IO_PUT_RESPONSE then call_io_put_response
  else if hypercall_nr =? HYPERCALL_SERIAL_REGISTER_PAGE then call_serial_register_page
  else if hypercall_nr =? HYPERCALL_SERIAL_WRITE then call_serial_write
  else if hypercall_nr =? HYPERCALL_GET_RANDOM then call_get_random
  else mret (ExitToUserspace Vmcall)).
End Calls.

(** ** Well-formedness and independence of host time *)
Lemma vt_flush_serial : vt (λ _, True) flush_serial_line flush_serial_line.
Proof. apply (vt_log_op (λ es, (event_flush_serial_line es).2) OFlush); done. Qed.
Lemma vt_get_random_event pid bs : vt (λ _, True) (emit_get_random_event pid bs) (emit_get_random_event pid bs).
Proof. apply vt_emit_randomness. Qed.
Lemma vt_response_event : vt (λ _, True) emit_response_event emit_response_event.
Proof.
  unfold emit_response_event. apply vt_get; [reflexivity|]. intros s Hs. cbv zeta.
  apply (vt_emit _ (λ t, OIo (mkIo (phase_u8 Response) 0) (request_buf (io_channel s)) (response_buf (io_channel s))
    (request_len (io_channel s)) (response_len (io_channel s)) (vfields s EmulatedTsc) t)); [done|done|].
  intros t b Ht. split; [apply (vk_fields _ Hs EmulatedTsc)|done].
Qed.
Lemma vt_console_event len : vt (λ _, True) (emit_console_event len) (emit_console_event len).
Proof.
  unfold emit_console_event. apply vt_get; [reflexivity|]. intros s Hs.
  apply (vt_emit _ (λ t, OConsole (console_pending_buf (serial_console s)) len (vfields s EmulatedTsc) t)); [done|done|].
  intros t b Ht. split; [apply (vk_fields _ Hs EmulatedTsc)|done].
Qed.
#[export] Hint Resolve vt_flush_serial vt_get_random_event vt_response_event vt_console_event : vt.

Lemma vt_channel (f : IoChannelState → IoChannelState) :
  (∀ c, channel_ok c → channel_ok (f c)) →
  vt (λ _, True) (modify (λ s, with_io_channel (f (io_channel s)) s) : VM ()) (modify (λ s, with_io_channel (f (io_channel s)) s)).
Proof. intros Hf. apply sim_modify; [reflexivity|reflexivity|reflexivity|]. intros s Hs. apply core_channel; [|done]. apply Hf, Hs. Qed.
Lemma vt_random_state (f : RandomState → RandomState) :
  (∀ r, rng_ok r → rng_ok (f r)) →
  vt (λ _, True) (modify (λ s, with_random (f (random s)) s) : VM ()) (modify (λ s, with_random (f (random s)) s)).
Proof. intros Hf. apply sim_modify; [reflexivity|reflexivity|reflexivity|]. intros s Hs. apply core_random; [|done]. apply Hf, Hs. Qed.

Lemma next_seeded_ok r : rng_ok r → rng_ok (next_seeded_u64 r).2 ∧ in_width 64 (next_seeded_u64 r).1.
Proof.
  intros [Hs Hp Hg Hl Hi Hr]. pose proof Hs as [[Hw Hz] H1 H2 H3].
  assert (in_width 64 (xorshift64 (rs_seed r))) by (by apply xorshift_width). split; [|done]. constructor; cbn; try done.
  constructor; cbn; try done. split; [done|]. intros H0. apply Hz, (xorshift_inj _ 0); [done|split; lia|done].
Qed.
Lemma clear_request_ok r : rng_ok r → rng_ok (clear_request r).
Proof.
  intros [[H0 H1 H2 H3] Hp Hg Hl Hi Hr]. constructor; cbn; try done; try const_width; try lia.
Qed.
Lemma begin_request_ok gva len pid r :
  in_width 64 gva → 0 ≤ len ≤ 256 → in_width 32 pid → rng_ok r → rng_ok (begin_request gva len pid r).
Proof.
  intros Hgv Hln Hpd [[H0 H1 H2 H3] Hp Hg Hl Hi Hr]. by constructor; cbn.
Qed.

Lemma page_chunk_bounds gva len off : off < len → 1 ≤ page_chunk gva len off ≤ len - off.
Proof.
  intros Ho. unfold page_chunk. change 0xFFF with (Z.ones 12). rewrite Z.land_ones by lia.
  pose proof (Z.mod_pos_bound (gva +! off) (2 ^ 12)). lia.
Qed.
Lemma small_chunk_bounds len off : off < len → 1 ≤ small_chunk len off ≤ len - off.
Proof. unfold small_chunk, IO_COPY_CHUNK. lia. Qed.

Section Typed.
Context {R : Type} `{!GuestMem R} `{!GuestMemSpec R}.
Abbreviation gt := (@rtyped (Vcpu * R) ExitError simR _).

(** A translated address is not negative. *)
Local Ltac gpa_range :=
  match goal with H : ∀ g, Some _ = Some g → _ ∧ _ |- 0 ≤ _ => by destruct (H _ eq_refl) as [[? _] _] end.

Local Tactic Notation "read_gpr" ident(x) simple_intropattern(H) := eapply rt_bind; [apply gt_vcpu, vt_get_gpr|intros x H].
Local Tactic Notation "read_state" simple_intropattern(x) :=
  apply (rt_bind simR (λ _, True)); [apply gt_vcpu, vt_gets; [reflexivity|done]|intros x _].
Local Tactic Notation "read_walk" ident(x) ident(H) := eapply rt_bind; [apply gt_translate|intros x H].

(** The fuel of a loop is never exhausted, and each step stays in range. *)
Lemma gt_chunked {E} fuel step (body : Z → Z → GM R (result () E)) len off :
  len - off ≤ Z.of_nat fuel → 0 ≤ off → (∀ off, off < len → 1 ≤ step off ≤ len - off) →
  (∀ off n, 0 ≤ off → 1 ≤ n → off + n ≤ len → gt (λ _, True) (body off n) (body off n)) →
  gt (λ _, True) (chunked fuel step body len off) (chunked fuel step body len off).
Proof.
  intros Hf Ho Hstep Hb. revert off Hf Ho. induction fuel as [|fuel IH]; intros off Hf Ho; cbn [chunked].
  - rewrite (proj2 (Z.leb_le _ _)) by lia. by apply rt_ret.
  - destruct (Z.leb_spec len off); [by apply rt_ret|]. pose proof (Hstep off ltac:(lia)). cbv zeta.
    apply (rt_bind simR (λ _, True)); [apply Hb; lia|]. intros [[]|e] _; [|by apply rt_ret]. apply IH; lia.
Qed.

Lemma gt_slice (buf : Vcpu → Z → Z) off n :
  (∀ e c st s, buf (upd e c st s) = buf s) → (∀ s i, core_ok s → is_byte (buf s i)) → off + n ≤ IO_CHANNEL_BUF_SIZE →
  gt (Forall is_byte) (on_vcpu (demand (λ s, slice (buf s) off n))) (on_vcpu (demand (λ s, slice (buf s) off n))).
Proof.
  intros He Hb Hn. apply gt_vcpu, vt_demand; [intros; by rewrite He|]. intros s Hs. unfold slice.
  rewrite (proj2 (Z.leb_le _ _)) by done. eexists. split; [done|]. apply load_is_byte. intros i. by apply Hb.
Qed.
Lemma gt_copy_request gpa len : len ≤ IO_CHANNEL_BUF_SIZE → gt (λ _, True) (copy_request_to_guest gpa len) (copy_request_to_guest gpa len).
Proof.
  intros Hl. unfold copy_request_to_guest. apply gt_chunked; [lia|lia|apply small_chunk_bounds|]. intros off n Ho Hn Hlen. unfold request_chunk.
  eapply rt_bind; [apply (gt_slice (λ s, request_buf (io_channel s)))|].
  - done.
  - intros s i Hs. by apply (ck_request_buf _ (vk_channel _ Hs)).
  - lia.
  - intros bs Hbs. gt_go; [|done]. apply in_width_u64.
Qed.

Lemma gt_read gpa n : 0 ≤ gpa → (0 < n)%nat →
  gt (λ o, ∀ bs, o = Some bs → Forall is_byte bs ∧ length bs = n) (peek (λ _ r, gm_read gpa n r)) (peek (λ _ r, gm_read gpa n r)).
Proof.
  intros Hg Hn. apply gt_peek; [done|]. intros s r Hs Hr. pose proof (read_total r gpa n Hr Hg Hn) as H.
  destruct (gm_read gpa n r); [|done..]. by destruct H.
Qed.
Lemma gt_copy_from put gpa len : len ≤ IO_CHANNEL_BUF_SIZE →
  (∀ off bs, Forall is_byte bs → vt (λ _, True) (modify (put off bs) : VM ()) (modify (put off bs))) →
  gt (λ _, True) (copy_from_guest put gpa len) (copy_from_guest put gpa len).
Proof.
  intros Hl Hp. unfold copy_from_guest. apply gt_chunked; [lia|lia|apply small_chunk_bounds|]. intros off n Ho Hn Hlen.
  eapply rt_bind; [apply gt_read; [apply in_width_u64|lia]|]. intros [bs|] Hbs; [|gt_go]. destruct (Hbs _ eq_refl) as [Hb _].
  rewrite (proj2 (Z.leb_le _ _)) by lia. gt_one; [apply gt_vcpu, vt_demand; eauto|]. gt_one; [by apply gt_vcpu, Hp|]. gt_go.
Qed.
Lemma vt_put_response off bs : Forall is_byte bs → vt (λ _, True) (modify (put_response off bs) : VM ()) (modify (put_response off bs)).
Proof. intros Hb. apply (vt_channel (λ c, set_response_buf (store (response_buf c) off bs) c)). intros c Hc. by apply set_response_ok. Qed.
Lemma vt_put_console off bs : Forall is_byte bs → vt (λ _, True) (modify (put_console off bs) : VM ()) (modify (put_console off bs)).
Proof.
  intros Hb. apply sim_modify; [reflexivity|reflexivity|reflexivity|]. intros s Hs. destruct (vk_console _ Hs) as [Hg Hc].
  apply core_console; [done|by apply store_is_byte|done].
Qed.

Lemma gt_ensure_writable gva len : gt (λ _, True) (ensure_guest_writable gva len) (ensure_guest_writable gva len).
Proof.
  unfold ensure_guest_writable. apply rt_get. intros st1 st2 (_ & <- & _). gt_one; [gt_go|].
  destruct (Z.ltb_spec len 0); [replace (Z.to_nat len) with 0%nat by lia; cbn [chunked]; rewrite (proj2 (Z.leb_le _ _)) by lia; gt_go|].
  apply gt_chunked; [lia|lia|apply page_chunk_bounds|]. intros off n Ho Hn Hlen. gt_go. gpa_range.
Qed.
Lemma gt_write_bytes gva src : Forall is_byte src → gt (λ _, True) (write_guest_bytes gva src) (write_guest_bytes gva src).
Proof.
  intros Hsrc. unfold write_guest_bytes. cbv zeta. apply gt_chunked; [lia|lia|apply page_chunk_bounds|]. intros off n Ho Hn Hlen. gt_go.
  - gpa_range.
  - by apply Forall_take, Forall_drop.
Qed.
Lemma gt_read_id fuel gva len off dst :
  len - off ≤ Z.of_nat fuel → 0 ≤ off → len ≤ Z.of_nat (length dst) →
  gt (λ o, ∀ id, o = Some id → length id = length dst) (peek (read_guest_id fuel gva len off dst)) (peek (read_guest_id fuel gva len off dst)).
Proof.
  intros Hf Ho Hd. apply gt_peek.
  - intros e c st s r. clear Hf Ho Hd. revert off dst. induction fuel as [|fuel IH]; intros off dst; cbn [read_guest_id]; [done|].
    destruct (_ <=? _); [done|]. cbv zeta. change (translate_gva_to_gpa (gva +! off) (upd e c st s) r) with (translate_gva_to_gpa (gva +! off) s r).
    destruct (translate_gva_to_gpa _ _ _); [|done..]. cbn. destruct (gm_read _ _ _); [|done..]. apply IH.
  - intros s r Hs Hr. revert off dst Hf Ho Hd. induction fuel as [|fuel IH]; intros off dst Hf Ho Hd; cbn [read_guest_id].
    + rewrite (proj2 (Z.leb_le _ _)) by lia. done.
    + destruct (Z.leb_spec len off); [done|]. cbv zeta. pose proof (page_chunk_bounds gva len off ltac:(lia)).
      pose proof (translate_total (gva +! off) s r Hs Hr) as Ht. destruct (translate_gva_to_gpa _ _ _) as [gpa|[]|]; [|done..].
      cbn [mbind outcome_bind]. destruct Ht as [Hg _]. pose proof (read_total r gpa (Z.to_nat (page_chunk gva len off)) Hr ltac:(lia) ltac:(lia)) as Hrd.
      destruct (gm_read _ _ _) as [bs|?|]; [|done..]. rewrite <-(length_inserts dst (Z.to_nat off) bs). apply IH; [lia|lia|]. by rewrite length_inserts.
Qed.

Lemma gt_set_result rax : in_width 64 rax → gt (λ _, True) (set_result rax) (set_result rax).
Proof. intros Hr. unfold set_result. gt_go. Qed.
Lemma gt_retire rax res : in_width 64 rax → gt (λ _, True) (retire rax res) (retire rax res).
Proof. intros Hr. unfold retire. gt_one; [by apply gt_set_result|gt_go]. Qed.
Hint Resolve gt_retire gt_set_result : vt.

Lemma translate_pages_total n gva s r : core_ok s → gm_ok r →
  match translate_pages n gva s r with
  | Done l => length l = n ∧ Forall (λ g, in_width 64 g ∧ g mod 4096 = 0) l
  | Fail _ => True
  | Stuck => False
  end.
Proof.
  intros Hs Hr. revert gva. induction n as [|n IH]; intros gva; cbn [translate_pages]; [done|].
  pose proof (translate_total gva s r Hs Hr) as Ht. destruct (translate_gva_to_gpa _ _ _) as [gpa|[]|]; [|done..].
  cbn [mbind outcome_bind]. specialize (IH (gva + 4096)). destruct (translate_pages _ _ _ _) as [l|[]|]; [|done..].
  cbn [mbind outcome_bind]. destruct IH as [Hl Hf]. split; [cbn; by rewrite Hl|]. constructor; [|done]. destruct Ht as [Hg _].
  split; [eapply in_width_mono; [apply (page_of_gpa _ Hg)|lia]|]. change 0xFFF with (Z.ones 12). rewrite Z.ldiff_ones_r, Z.shiftl_mul_pow2 by lia.
  change 4096 with (2 ^ 12). apply Z.mod_mul. lia.
Qed.
Lemma translate_range_total gva size slots s r :
  core_ok s → gm_ok r → 0 ≤ gva → 0 < size →
  match translate_gva_range_to_gpas gva size slots s r with
  | Done l => (0 < length l ≤ slots)%nat ∧ Forall (λ g, in_width 64 g ∧ g mod 4096 = 0) l
  | Fail _ => True
  | Stuck => False
  end.
Proof.
  intros Hs Hr Hg Hz. unfold translate_gva_range_to_gpas. rewrite (proj2 (Z.eqb_neq _ _)) by lia. cbv zeta. destruct (_ <? _); [done|].
  destruct (Nat.ltb_spec slots (Z.to_nat ((Z.ldiff (gva + (size -| 1)) 0xFFF - Z.ldiff gva 0xFFF) / 4096 + 1))) as [|Hn]; [done|].
  pose proof (translate_pages_total (Z.to_nat ((Z.ldiff (gva + (size -| 1)) 0xFFF - Z.ldiff gva 0xFFF) / 4096 + 1)) (Z.ldiff gva 0xFFF) s r Hs Hr) as H.
  destruct (translate_pages _ _ _ _); [|done..]. destruct H as [-> H]. split; [|done]. split; [|done].
  enough (0 ≤ (Z.ldiff (gva + (size -| 1)) 0xFFF - Z.ldiff gva 0xFFF) / 4096) by lia. apply Z.div_pos; [|lia].
  change 0xFFF with (Z.ones 12). rewrite !Z.ldiff_ones_r, !Z.shiftl_mul_pow2, !Z.shiftr_div_pow2 by lia. unfold saturating_sub.
  assert (gva / 2 ^ 12 ≤ (gva + Z.max 0 (size - 1)) / 2 ^ 12) by (apply Z.div_le_mono; lia). nia.
Qed.
Lemma gt_translate_range gva size slots : 0 ≤ gva → 0 < size →
  gt (λ o, ∀ l, o = Some l → (0 < length l ≤ slots)%nat ∧ Forall (λ g, in_width 64 g ∧ g mod 4096 = 0) l)
    (peek (translate_gva_range_to_gpas gva size slots)) (peek (translate_gva_range_to_gpas gva size slots)).
Proof.
  intros Hg Hz. apply gt_peek; [|intros s r Hs Hr; by apply translate_range_total].
  intros e c st s r. unfold translate_gva_range_to_gpas. cbv zeta. do 3 (case_match; [done|]).
  match goal with |- translate_pages ?n ?g _ _ = _ => generalize n; intros k; generalize g end. clear. induction k as [|k IH]; intros g; cbn [translate_pages]; [done|]. by rewrite IH.
Qed.

Lemma feedback_info_ok gva size gpas id id_len :
  in_width 64 gva → 0 < size ≤ MAX_FEEDBACK_BUFFER_SIZE → 0 < id_len ≤ FEEDBACK_BUFFER_ID_MAX_LEN →
  Z.of_nat (length id) = FEEDBACK_BUFFER_ID_MAX_LEN → (0 < length gpas ≤ Z.to_nat FEEDBACK_BUFFER_MAX_PAGES)%nat →
  Forall (λ g, in_width 64 g ∧ g mod 4096 = 0) gpas →
  feedback_ok (mkFeedback gva size (Z.of_nat (length gpas))
    (gpas ++ replicate (Z.to_nat FEEDBACK_BUFFER_MAX_PAGES - length gpas) 0) id id_len).
Proof.
  intros Hg Hz Hi Hid Hn Hf. unfold FEEDBACK_BUFFER_MAX_PAGES in *. constructor; cbn; try done; try (unfold FEEDBACK_BUFFER_MAX_PAGES; lia).
  - rewrite length_app, length_replicate. unfold FEEDBACK_BUFFER_MAX_PAGES. lia.
  - apply Forall_app. split; [done|]. apply Forall_replicate. split; [const_width|done].
Qed.
Lemma gt_register_feedback heap : gt (λ _, True) (call_register_feedback_buffer heap) (call_register_feedback_buffer heap).
Proof.
  unfold call_register_feedback_buffer. read_gpr gva Hgva. read_gpr size Hsize. read_gpr id_gva Hida. read_gpr id_len Hidl. gt_one; [apply gt_retire; const_width|].
  gt_one; [apply gt_retire; const_width|].
  repeat match goal with H : (_ || _) = false |- _ => apply orb_false_iff in H as [? ?] end.
  repeat match goal with H : in_width 64 _ |- _ => destruct H as [? ?] end.
  eapply rt_bind; [apply gt_read_id; [lia|lia|rewrite length_replicate; unfold FEEDBACK_BUFFER_ID_MAX_LEN in *; lia]|].
  intros [id|] Hid; [|apply gt_retire; const_width]. specialize (Hid _ eq_refl).
  eapply rt_bind; [apply gt_translate_range; lia|]. intros [gpas|] Hgpas; [|apply gt_retire; const_width]. destruct (Hgpas _ eq_refl) as [Hn Hf].
  cbv zeta. eapply rt_bind; [apply gt_vcpu, (vt_gets (in_width 64)); [done|intros; apply in_width_u64]|]. intros idx Hidx.
  gt_one; [apply gt_retire; const_width|]. gt_one; [|by apply gt_retire]. apply gt_vcpu, sim_modify; [reflexivity|reflexivity|reflexivity|].
  intros s Hs. apply core_feedback; [|done]. apply Forall_app. split; [apply Hs|]. constructor; [|done].
  apply feedback_info_ok; try done; lia || (by rewrite Hid).
Qed.

Lemma gt_get_request : gt (λ _, True) call_io_get_request call_io_get_request.
Proof.
  unfold call_io_get_request. read_state page.
  eapply rt_bind; [apply gt_vcpu, (vt_gets (λ l, 0 ≤ l ≤ IO_CHANNEL_BUF_SIZE)); [done|intros s Hs; apply (ck_request _ (vk_channel _ Hs))]|].
  intros len Hl. gt_one; [apply gt_retire; const_width|]. gt_one; [apply gt_retire; const_width|].
  apply (rt_bind simR (λ _, True)); [by apply gt_copy_request, Hl|]. unfold IO_CHANNEL_BUF_SIZE in Hl. intros [[]|[]] _; [|apply gt_retire; const_width].
  gt_one; [apply gt_vcpu, vt_channel, consume_ok|]. apply gt_retire. unfold in_width. lia.
Qed.
Lemma gt_io_register : gt (λ _, True) call_io_register_page call_io_register_page.
Proof.
  unfold call_io_register_page. read_gpr va Hva. gt_one; [apply gt_retire; const_width|]. read_walk gpa Hgpa.
  gt_one; [|apply gt_retire; const_width]. destruct (Hgpa _ eq_refl) as [Hg _].
  gt_one; [apply gt_vcpu, (vt_channel (set_channel_page _)); intros c Hc; by apply set_page_ok|].
  apply (rt_bind simR (λ _, True)); [apply gt_silent, gm_pre_cow_law, Hg|]. intros _ _. apply gt_retire. const_width.
Qed.
Lemma gt_put_response : gt (λ _, True) call_io_put_response call_io_put_response.
Proof.
  unfold call_io_put_response. read_gpr rbx [Hb _]. cbv zeta. read_state page. gt_one; [apply gt_retire; const_width|].
  apply (rt_bind simR (λ _, True)); [apply gt_copy_from; [unfold IO_CHANNEL_BUF_SIZE; lia|apply vt_put_response]|].
  intros [[]|[]] _; [|apply gt_retire; const_width]. gt_one.
  { apply gt_vcpu, vt_channel. intros c Hc. apply set_response_len_ok; [|done]. unfold IO_CHANNEL_BUF_SIZE. lia. }
  gt_one; [apply gt_set_result; const_width|]. gt_go.
Qed.
Lemma gt_serial_register : gt (λ _, True) call_serial_register_page call_serial_register_page.
Proof.
  unfold call_serial_register_page. read_gpr va Hva. gt_one; [apply gt_retire; const_width|]. read_walk gpa Hgpa.
  gt_one; [|apply gt_retire; const_width]. destruct (Hgpa _ eq_refl) as [Hg _]. gt_one; [|apply gt_retire; const_width].
  apply gt_vcpu, sim_modify; [reflexivity|reflexivity|reflexivity|]. intros s Hs. apply core_console; [done|apply (vk_console _ Hs)|done].
Qed.
Lemma gt_serial_write : gt (λ _, True) call_serial_write call_serial_write.
Proof.
  unfold call_serial_write. read_gpr rbx [Hb _]. cbv zeta. read_state page. gt_one; [apply gt_retire; const_width|].
  apply (rt_bind simR (λ _, True)); [apply gt_copy_from; [unfold SERIAL_CONSOLE_PAGE_SIZE, IO_CHANNEL_BUF_SIZE; lia|apply vt_put_console]|].
  intros [[]|[]] _; [|apply gt_retire; const_width]. gt_one; [apply gt_set_result; const_width|]. gt_go.
Qed.

Lemma vt_fill_seeded fuel cap off :
  cap - off ≤ Z.of_nat fuel → vt (λ bs, Forall is_byte bs ∧ Z.of_nat (length bs) = Z.max 0 (cap - off)) (fill_seeded fuel cap off) (fill_seeded fuel cap off).
Proof.
  revert off. induction fuel as [|fuel IH]; intros off Hf; cbn [fill_seeded].
  - rewrite (proj2 (Z.leb_le _ _)) by lia. apply rt_ret. split; [done|]. cbn. lia.
  - destruct (Z.leb_spec cap off); [apply rt_ret; split; [done|cbn; lia]|].
    apply (rt_bind sim (in_width 64)); [apply vt_gets; [done|]; intros s Hs; apply next_seeded_ok, Hs|]. intros v Hv.
    vt_one; [apply (vt_random_state (λ r, (next_seeded_u64 r).2)); intros r Hr; by apply next_seeded_ok|]. cbv zeta.
    eapply rt_bind; [apply IH; lia|]. intros bs [Hbs Hlen]. apply rt_ret. split.
    + apply Forall_app. split; [apply Forall_take, le_bytes_is_byte|done].
    + rewrite length_app, length_take, length_le_bytes. lia.
Qed.
Lemma gt_get_random : gt (λ _, True) call_get_random call_get_random.
Proof.
  unfold call_get_random. read_gpr gva Hgva. read_gpr len Hlen. read_gpr pid Hpid. cbv zeta. read_state [].
  - apply (rt_bind simR (λ _, True)); [apply gt_ensure_writable|]. intros [[]|[]] _; [|gt_go|apply gt_retire; const_width].
    eapply rt_bind; [apply gt_vcpu, vt_fill_seeded; unfold RANDOM_REPLY_MAX in *; lia|]. intros bs [Hbs _].
    apply (rt_bind simR (λ _, True)); [by apply gt_write_bytes|]. intros [[]|?] _; [|apply gt_retire; const_width].
    gt_one; [gt_go|]. apply gt_retire. unfold in_width, RANDOM_REPLY_MAX in *. lia.
  - read_state [].
    { gt_one; [|gt_go]. apply gt_vcpu, (vt_random_state (begin_request _ _ _)). intros r Hr.
      apply begin_request_ok; [done|unfold in_width, RANDOM_REPLY_MAX in *; lia|apply in_width_u32|done]. }
    read_state target.
    eapply rt_bind; [apply gt_vcpu, (vt_gets (λ n, 0 ≤ n ≤ 256)); [done|]|].
    { intros s Hs. pose proof (vk_random _ Hs) as Hr. pose proof (gk_len _ Hr). pose proof (ro_reply_len _ (gk_state _ Hr)). lia. }
    intros n Hn. apply (rt_bind simR (λ _, True)); [apply gt_ensure_writable|]. intros [[]|[]] _; [|gt_go|].
    + read_state rpid. eapply rt_bind; [apply gt_vcpu, (vt_gets (Forall is_byte)); [done|]|].
      { intros s Hs. apply Forall_take, Hs. }
      intros bs Hbs. apply (rt_bind simR (λ _, True)); [by apply gt_write_bytes|]. intros w _.
      apply (rt_bind simR (in_width 64)).
      { destruct w; gt_go. cbn in Hn. unfold in_width. lia. }
      intros rax Hrax. gt_one; [apply gt_vcpu, vt_random_state, clear_request_ok|]. by apply gt_retire.
    + gt_one; [apply gt_vcpu, vt_random_state, clear_request_ok|]. apply gt_retire. const_width.
Qed.

Lemma gt_vmcall xxh64 junk exit_pa heap :
  (∀ l, in_width 64 (xxh64 l)) → in_width 64 exit_pa →
  gt (λ _, True) (handle_vmcall xxh64 junk exit_pa heap) (handle_vmcall xxh64 junk exit_pa heap).
Proof.
  intros Hx Hp. unfold handle_vmcall. gt_one. read_gpr nr ?.
  gt_one; [unfold call_shutdown; gt_go|]. gt_one; [unfold call_snapshot; gt_go|]. gt_one; [unfold call_ready; gt_go|].
  gt_one; [apply gt_register_feedback|]. gt_one.
  { unfold call_register_pebs_page. read_gpr va ?. apply (rt_bind simR (λ _, True)); [by apply gt_register_pebs|]. intros res _.
    apply gt_retire. destruct res; const_width. }
  gt_one; [apply gt_retire; const_width|]. gt_one; [apply gt_retire; const_width|]. gt_one; [apply gt_io_register|].
  gt_one; [apply gt_get_request|]. gt_one; [apply gt_put_response|]. gt_one; [apply gt_serial_register|].
  gt_one; [apply gt_serial_write|]. gt_one; [apply gt_get_random|]. gt_go.
Qed.
End Typed.
