(* ===== verification/Ioctl.v ===== *)
(** * Configuration and data ioctls of a VM file (crate [bedrock]:
    [vm_file/handlers.rs], [vm_file/structs.rs])

    A handler reads a struct from the caller's memory, changes the VM and writes
    a struct back.  Its result is 0 or a negative error number: [Fail e] stands
    for [-e].  Copies from and to the caller's memory are the kernel's; a
    parameter says which addresses can be read, and what they hold, and which can
    be written. *)
From stdpp Require Import strings.
From S2P Require Import Prelude VmMemory Wire EventLog Random Rtc Apic Vcpu GuestMem Relational Precise Handlers Safety Mmio ExitLog IoChannel Vmcall.

Definition ENOMEM : Z := 12.
Definition EFAULT : Z := 14.
Definition EBUSY : Z := 16.
Definition EINVAL : Z := 22.

Definition BEDROCK_RANDOM_REPLY_MAX : nat := 256.
Definition BEDROCK_IO_CHANNEL_BUF_SIZE : Z := 4096.

Record vm_file := mkFile { vf_id : Z; vf_vcpu : Vcpu; vf_skip_memory_hash : bool }.
Implicit Types f : vm_file.
Definition on_file (g : Vcpu → Vcpu) f : vm_file := mkFile (vf_id f) (g (vf_vcpu f)) (vf_skip_memory_hash f).

(** A call: the file, and what it has written to the caller's memory. *)
Definition IO : Type → Type := M (vm_file * list (Z * list Z)) Z.

(** The layouts of the structs. *)
Definition rdrand_config_layout : list nat := [4; 4; 8]%nat.
Definition random_bytes_head_layout : list nat := [4; 4]%nat.
Definition event_config_layout : list nat := [4; 4; 4; 4; 8; 8]%nat.
Definition single_step_layout : list nat := [8; 8; 8]%nat.
Definition io_action_header_layout : list nat := [4; 4; 8]%nat.
Definition feedback_request_layout : list nat := [4; 4]%nat.
Definition feedback_info_layout : list nat := [8; 8; 8; 4; 4; 4; 4]%nat.
Definition IO_ACTION_DATA_OFFSET : Z := 16.

Section Handlers.
(** The bytes at an address of the caller's memory, if all of them can be read;
    whether bytes can be written there. *)
Context (from_user : Z → nat → option (list Z)) (to_user : Z → list Z → bool).

Definition copy_from_user (arg : Z) (n : nat) : IO (list Z) :=
  match from_user arg n with Some bs => mret bs | None => throw EFAULT end.
Definition copy_to_user (arg : Z) (bs : list Z) : IO () :=
  if to_user arg bs then modify (λ '(f, out), (f, out ++ [(arg, bs)])) else throw EFAULT.
(** A struct of integers, as its fields. *)
Definition read_struct (layout : list nat) (arg : Z) : IO (list Z) :=
  bs ← copy_from_user arg (sum_list layout);
  match decode layout bs with Some (vals, _) => mret vals | None => stuck end.
Definition state : IO Vcpu := gets (λ st, vf_vcpu st.1).
Definition change (g : Vcpu → Vcpu) : IO () := modify (λ '(f, out), (on_file g f, out)).

Definition handle_get_vm_id (arg : Z) : IO () :=
  vm_id ← gets (λ st, vf_id st.1);
  copy_to_user arg (le_bytes 8 vm_id).

Definition rdrand_mode (mode : Z) : option RdrandMode :=
  if mode =? 0 then Some SeededRng else if mode =? 1 then Some ExitToUserspaceMode else None.
Definition handle_set_rdrand_config (arg : Z) : IO () :=
  config ← read_struct rdrand_config_layout arg;
  match config with
  | [mode; _; value] =>
      match rdrand_mode mode with
      | None => throw EINVAL
      | Some mode => change (λ s, with_random (configure mode value (random s)) s)
      end
  | _ => stuck
  end.

Definition handle_get_random_request (arg : Z) : IO () :=
  s ← state;
  copy_to_user arg (encode [4; 4]%nat [rs_pid (random s); rs_req_len (random s)]).

Definition handle_set_random_bytes (arg : Z) : IO () :=
  payload ← copy_from_user arg (8 + BEDROCK_RANDOM_REPLY_MAX);
  match decode random_bytes_head_layout payload with
  | Some ([len; _], data) =>
      let len := Z.min len (Z.of_nat BEDROCK_RANDOM_REPLY_MAX) in
      change (λ s, with_random (stage_reply (take (Z.to_nat len) data) (random s)) s)
  | _ => stuck
  end.

Definition handle_set_rdrand_value (arg : Z) : IO () :=
  bs ← copy_from_user arg 8;
  change (λ s, with_random (set_pending_value (of_le bs) (random s)) s).

Definition exit_trigger_of (v : Z) : option ExitTrigger :=
  if v =? 0 then Some Disabled else if v =? 1 then Some AllExits else if v =? 2 then Some AtTsc
  else if v =? 3 then Some AtShutdown else if v =? 4 then Some Checkpoints else if v =? 5 then Some TscRange else None.

(** [buffer] is the event buffer the kernel allocates, if it can. *)
Definition set_event_config (buffer : option (Z → Z)) (arg : Z) : IO () :=
  config ← read_struct event_config_layout arg;
  match config with
  | [enabled; categories; trigger; flags; target_tsc; start_tsc] =>
      s ← state;
      let was_enabled := match event_buffer (events s) with Some _ => true | None => false end in
      let want_enabled := negb (enabled =? 0) in
      (if want_enabled && negb was_enabled then
         match buffer with
         | None => throw ENOMEM
         | Some fresh => change (λ s, with_events (set_event_buffer fresh (events s)) s)
         end
       else if negb want_enabled && was_enabled then change (λ s, with_events (clear_event_buffer_ptr (events s)) s)
       else mret ());;
      change (λ s, with_events (set_event_categories categories (events s)) s);;
      match exit_trigger_of trigger with
      | None => throw EINVAL
      | Some trigger =>
          change (set_exit_trigger (if want_enabled then trigger else Disabled) target_tsc);;
          change (set_exit_start_tsc start_tsc);;
          modify (λ '(f, out), (mkFile (vf_id f) (vf_vcpu f) (has flags 1), out));;
          change (set_intercept_pf (has flags 2))
      end
  | _ => stuck
  end.

Definition stat_entries : list stat_class :=
  [SCpuid; SMsrRead; SMsrWrite; SCrAccess; SIoInstruction; SEptViolation; SExternalInterrupt; SRdtsc; SRdtscp; SRdpmc;
   SMwait; SVmcall; SApicAccess; SMtf; SXsetbv; SRdrand; SRdseed; SExceptionNmi; SOther].
Definition stat_words : list stat :=
  concat ((λ c, [Count c; Cycles c]) <$> stat_entries) ++
  [TotalRunCycles; GuestCycles; VmentryOverheadCycles; VmexitOverheadCycles; IrqWindowCycles; PebsArmBelowMinDelta;
   PebsArmAlreadyPast; PebsArmedIterNoFire; ApicTimerLateInject; MaxPebsSkid].
Definition handle_get_exit_stats (arg : Z) : IO () :=
  s ← state;
  copy_to_user arg (encode (replicate (length stat_words) 8%nat) (stats s <$> stat_words)).

Definition handle_set_stop_tsc (arg : Z) : IO () :=
  bs ← copy_from_user arg 8;
  let value := of_le bs in
  change (with_stop_at_tsc (if value =? 0 then None else Some value)).

Definition handle_set_single_step (arg : Z) : IO () :=
  config ← read_struct single_step_layout arg;
  match config with
  | [enabled; tsc_start; tsc_end] =>
      if negb (enabled =? 0) then change (with_single_step_tsc_range (Some (tsc_start, tsc_end)))
      else change (with_single_step_tsc_range None);; change (with_mtf_enabled false)
  | _ => stuck
  end.

Definition feedback_info (index : Z) (b : option FeedbackBufferInfo) : list Z :=
  match b with
  | Some b =>
      encode feedback_info_layout [fb_gva b; fb_size b; fb_num_pages b; 1; index; fb_id_len b; 0] ++ fb_id b
  | None =>
      encode feedback_info_layout [0; 0; 0; 0; index; 0; 0] ++ replicate (Z.to_nat FEEDBACK_BUFFER_ID_MAX_LEN) 0
  end.
Definition handle_get_feedback_buffer_info (arg : Z) : IO () :=
  request ← read_struct feedback_request_layout arg;
  match request with
  | [index; _] =>
      s ← state;
      copy_to_user arg (feedback_info index (feedback_buffers s !! Z.to_nat index))
  | _ => stuck
  end.

(** [heap] is whether the bytes of the request can be allocated, [slot] whether
    the queue can grow. *)
Definition handle_queue_io_action (heap slot : bool) (arg : Z) : IO () :=
  header ← read_struct io_action_header_layout arg;
  match header with
  | [len; _; target_tsc] =>
      if BEDROCK_IO_CHANNEL_BUF_SIZE <? len then throw EINVAL
      else if negb heap then throw ENOMEM
      else
        data ← (if 0 <? len then copy_from_user (arg + IO_ACTION_DATA_OFFSET) (Z.to_nat len) else mret []);
        s ← state;
        match enqueue_pending slot (mkIoAction target_tsc data) (io_channel s) with
        | (Queued, chan) => change (with_io_channel (promote_next_pending chan))
        | (QueueFull, chan) => throw EBUSY
        | (OutOfMemory, chan) => throw ENOMEM
        end
  | _ => stuck
  end.

Definition handle_drain_io_response (arg : Z) : IO () :=
  header ← read_struct io_action_header_layout arg;
  match header with
  | [user_capacity; _; _] =>
      if BEDROCK_IO_CHANNEL_BUF_SIZE <? user_capacity then throw EINVAL
      else
        s ← state;
        let chan := io_channel s in
        let len := Z.min (response_len chan) user_capacity in
        (if 0 <? len then copy_to_user (arg + IO_ACTION_DATA_OFFSET) (load (response_buf chan) 0 (Z.to_nat len)) else mret ());;
        copy_to_user arg (encode io_action_header_layout [len; 0; 0]);;
        change (λ s, with_io_channel (set_response_len 0 (io_channel s)) s)
  | _ => stuck
  end.
End Handlers.
