(* ===== verification/Dispatch.v ===== *)
(** * The dispatch of a VM exit (crate [bedrock-vmx]: [exits/mod.rs])

    [handle_exit] reads the reason, notes whether the exit is deterministic,
    runs the handler and then does the bookkeeping that may turn the result into
    an exit to userspace.  What depends on the host's processor is a record.  The
    theorems are about the whole of it: it is total and keeps the VM well-formed,
    its effect does not depend on the host's clock, and an exit that the host
    causes leaves the guest as it was. *)
From stdpp Require Import strings.
From S2P Require Import Prelude Wire EventLog Random Rtc Apic Vcpu GuestMem Relational Precise Handlers Safety Emulation Mmio ExitLog IoChannel Vmcall.

(** CPUID leaf 1 EAX, the fixed bits of the control registers, CPUID, the
    kernel's hash, what the padding of an exit record holds, and the address of
    the MSR-load page of precise exits. *)
Record platform := mkPlatform {
  pf_eax : Z;
  pf_caps : cr_caps;
  pf_cpuid : Z → Z → regs4;
  pf_xxh64 : list Z → Z;
  pf_junk : Z;
  pf_exit_load_pa : Z;
}.
Record platform_ok (p : platform) : Prop := {
  po_caps : caps_ok (pf_caps p);
  po_cpuid l n : regs4_ok (pf_cpuid p l n);
  po_xxh64 l : in_width 64 (pf_xxh64 p l);
  po_load : in_width 64 (pf_exit_load_pa p);
}.

Section Dispatch.
Context {R : Type} `{!GuestMem R}.

(** The [match] on the reason.  [return Error(e)] is a failure, which skips the
    bookkeeping; an error a handler returns does not. *)
Definition dispatch (p : platform) (heap : bool) (reason : ExitReason) (qual : Z) : GM R ExitHandlerResult :=
  match reason with
  | Cpuid => on_vcpu (handle_cpuid (pf_cpuid p))
  | MsrRead => on_vcpu handle_msr_read
  | MsrWrite => on_vcpu handle_msr_write
  | CrAccess => on_vcpu (handle_cr_access (pf_caps p) (cr_qualification qual))
  | IoInstruction => on_vcpu (handle_io (io_qualification qual))
  | EptViolation => handle_ept_violation qual
  | ExceptionNmi => on_vcpu handle_exception_nmi
  | Xsetbv => on_vcpu handle_xsetbv
  | Rdtsc => on_vcpu handle_rdtsc
  | Rdtscp => on_vcpu handle_rdtscp
  | Rdpmc => on_vcpu handle_rdpmc
  | Rdrand => on_vcpu handle_rdrand
  | Rdseed => on_vcpu handle_rdseed
  | MonitorTrapFlag => mret Continue
  | Hlt | Mwait => on_vcpu handle_idle
  | Monitor => on_vcpu advance_rip;; mret Continue
  | TripleFault => mret (Error ETripleFault)
  | InvalidGuestState => mret (Error EInvalidGuestState)
  | Vmcall => handle_vmcall (pf_xxh64 p) (pf_junk p) (pf_exit_load_pa p) heap
  | VmxPreemptionTimer =>
      on_vcpu (map_err (EFatal "Failed to reset preemption timer") (vmwrite VmxPreemptionTimerValue 0x100000));;
      mret (ExitToUserspace VmxPreemptionTimer)
  | ExternalInterrupt => mret Continue
  | InterruptWindow => on_vcpu disable_interrupt_window_exiting;; mret Continue
  | _ => mret (ExitToUserspace reason)
  end.

Definition record_stats (reason : ExitReason) (nondet : bool) (cycles : Z) (s : Vcpu) : Vcpu :=
  if bool_decide (reason = MonitorTrapFlag) && nondet then bump PebsMarginSteps 1 s
  else bump (Cycles (class_of reason)) cycles (bump (Count (class_of reason)) 1 s).

Definition stop_reached (nondet : bool) (s : Vcpu) : bool :=
  negb nondet && match stop_at_tsc s with Some stop_tsc => stop_tsc <=? vfields s EmulatedTsc | None => false end.

(** What follows the handler. *)
Definition finish_exit (p : platform) (reason : ExitReason) (qual start_tsc : Z) (nondet : bool) (result : ExitHandlerResult)
    : VM ExitHandlerResult :=
  end_tsc ← rdtsc;
  modify (record_stats reason nondet (end_tsc -| start_tsc));;
  update_mtf_state (pf_eax p);;
  stop ← gets (stop_reached nondet);
  if stop : bool then
    capture_exit_at_shutdown (pf_xxh64 p) (pf_junk p);;
    mret (ExitToUserspace StopTscReached)
  else
    enabled ← gets exit_capture_enabled;
    (if enabled : bool then capture_exit (pf_xxh64 p) (pf_junk p) reason qual (negb nondet) else mret ());;
    full ← gets (λ s, event_buffer_full (events s));
    mret (match result with Continue => if full : bool then ExitToUserspace EventBufferFull else Continue | _ => result end).

(** [heap] is whether an allocation of the exit succeeds. *)
Definition handle_exit (p : platform) (heap : bool) : GM R ExitHandlerResult := guarded (
  start_tsc ← on_vcpu rdtsc;
  reason ← on_vcpu read_exit_reason;
  qual ← on_vcpu read_exit_qualification;
  nondet ← on_vcpu (gets (non_deterministic_exit reason qual));
  on_vcpu (modify (note_exit reason qual));;
  result ← dispatch p heap reason qual;
  on_vcpu (finish_exit p reason qual start_tsc nondet result)).
End Dispatch.

(** ** Typing *)
Lemma event_full_sim s1 s2 : sim s1 s2 → event_buffer_full (events s1) = event_buffer_full (events s2).
Proof.
  intros [_ (a & a' & H1 & H2 & He) _ _ _]. unfold event_buffer_full. pose proof (f_equal a_staged He) as Hs. cbn in Hs.
  pose proof (rf_staged _ _ H1) as S1. pose proof (rf_staged _ _ H2) as S2.
  destruct (event_pending (events s1)), (event_pending (events s2)), (a_staged a), (a_staged a'); done.
Qed.
Lemma vt_read_reason : vt (λ _, True) read_exit_reason read_exit_reason.
Proof. unfold read_exit_reason. vt_go. Qed.
Lemma vt_finish p reason qual t1 t2 nondet result :
  vt (λ _, True) (finish_exit p reason qual t1 nondet result) (finish_exit p reason qual t2 nondet result).
Proof.
  unfold finish_exit. vt_one. vt_one.
  { unfold record_stats. apply vt_stats; intros s; destruct (_ && _); eexists; reflexivity. }
  vt_one; [eauto with vt|]. apply (rt_bind sim (λ _, True)); [apply vt_gets; done|]. intros stop _. destruct stop.
  { vt_one; [apply vt_capture_shutdown|vt_go]. }
  vt_one. vt_one; [destruct a; [apply vt_capture_exit|]; vt_go|]. apply rt_get. intros s1 s2 Hs. rewrite (event_full_sim s1 s2 Hs).
  by apply rt_ret.
Qed.

Section Typed.
Context {R : Type} `{!GuestMem R} `{!GuestMemSpec R}.
Abbreviation gt := (@rtyped (Vcpu * R) ExitError simR _).

Lemma gt_dispatch p heap reason qual : platform_ok p → gt (λ _, True) (dispatch p heap reason qual) (dispatch p heap reason qual).
Proof.
  intros [Hc Hi Hx Hl]. unfold dispatch. destruct reason; try (by apply rt_ret); try (apply gt_vcpu; eauto with vt; fail).
  all: try (gt_go; fail).
  by apply gt_vmcall.
Qed.
Lemma gt_rdtsc {B} (Q : B → Prop) (k1 k2 : Z → GM R B) :
  (∀ t1 t2, gt Q (k1 t1) (k2 t2)) → gt Q (on_vcpu rdtsc ≫= k1) (on_vcpu rdtsc ≫= k2).
Proof.
  intros Hk [s1 r1] [s2 r2] (Hs & Hr & Hok). unfold mbind, M_bind, on_vcpu, rdtsc. apply Hk. split; [|done]. cbn.
  destruct Hs as [(e & c & st & E) Hev Hc K1 K2]. cbn in *. subst s2. split; [by eexists _, _, _|done| |done..]. destruct Hc. by constructor.
Qed.
Lemma gt_handle_exit p heap : platform_ok p → gt (λ _, True) (handle_exit p heap) (handle_exit p heap).
Proof.
  intros Hp. unfold handle_exit. gt_one. apply gt_rdtsc. intros t1 t2.
  apply (rt_bind simR (λ _, True)); [apply gt_vcpu, vt_read_reason|]. intros reason _. unfold read_exit_qualification. gt_one.
  apply (rt_bind simR (λ _, True)); [apply gt_vcpu, vt_gets; done|]. intros nondet _. gt_one; [gt_go|].
  apply (rt_bind simR (λ _, True)); [by apply gt_dispatch|]. intros result _. apply gt_vcpu, vt_finish.
Qed.
Lemma simR_refl s (r : R) : vcpu_ok s → gm_ok r → simR (s, r) (s, r).
Proof. intros Hs Hr. split; [by apply sim_refl|]. done. Qed.
Lemma guarded_done (m : GM R ExitHandlerResult) st e st' : guarded m st ≠ (Fail e, st').
Proof. unfold guarded. by destruct (m st) as [[]]. Qed.
End Typed.

(** ** Exits the host causes *)

(** What the guest can see of its processor: all of it but the settings of the
    monitor trap flag and of the preemption timer, the arming of precise exits,
    the log and the host's own bookkeeping. *)
Definition guest_fields : list vfield :=
  [EmulatedTsc; TscOffset; LastInstructionCount; TscFrequency; TscAux; Xcr0Mask; Pat; KernelGsBase; GuestCr2;
   HostMiscEnable; HostPlatformInfo].
Definition guest_view (s : Vcpu) :=
  (gprs s, delete VmxPreemptionTimerValue (delete PrimaryProcBasedVmExecControls (vmcs s)), vfields s <$> guest_fields,
   (apic s, ioapic s, serial s, rtc s, mtrr s, random s), (io_channel s, serial_console s, feedback_buffers s),
   (stop_at_tsc s, single_step_tsc_range s)).

Definition exit_view (s : Vcpu) := (guest_view s, last_exit_deterministic s).

Lemma view_vmwrite f v : f = VmxPreemptionTimerValue ∨ f = PrimaryProcBasedVmExecControls → keeps exit_view (vmwrite f v).
Proof.
  intros Hf s. unfold vmwrite. destruct (vmcs s !! f); [|done]. cbn. unfold exit_view, guest_view. cbn. do 6 f_equal.
  destruct Hf as [->| ->]; [by rewrite delete_insert_ne, delete_insert_eq by done|by rewrite delete_insert_eq].
Qed.
Lemma view_update_mtf eax : keeps exit_view (update_mtf_state eax).
Proof. unfold update_mtf_state. keeps_step. by apply view_vmwrite; right. Qed.
Lemma view_write_record xxh64 junk reason qual flags : keeps exit_view (write_exit_record xxh64 junk reason qual flags).
Proof. unfold write_exit_record, get_field. keeps_step. Qed.
Lemma view_capture xxh64 junk reason qual det : keeps exit_view (capture_exit xxh64 junk reason qual det).
Proof.
  unfold capture_exit. keeps_step.
  - apply keeps_modify. intros s. destruct (triggered_shape det s) as (i & [->|(-> & _)]); done.
  - apply keeps_modify. intros s. by case_decide.
Qed.
Lemma view_finish p reason qual t result : keeps exit_view (finish_exit p reason qual t true result).
Proof.
  unfold finish_exit. apply keeps_bind; [by apply keeps_rdtsc|]. intros t'. apply keeps_bind.
  { apply keeps_modify. intros s. unfold record_stats. by destruct (_ && _). }
  intros _. apply keeps_bind; [apply view_update_mtf|]. intros _. intros s. unfold mbind at 1, M_bind at 1, gets at 1.
  unfold stop_reached at 1. cbn [negb andb].
  match goal with |- exit_view (?m s).2 = _ => enough (keeps exit_view m) as H by exact (H s) end.
  apply keeps_bind; [apply keeps_gets|]. intros en. apply keeps_bind; [destruct en; [apply view_capture|apply keeps_ret]|].
  intros _. apply keeps_bind; [apply keeps_gets|]. intros full. apply keeps_ret.
Qed.

Lemma view_precise_exit : keeps exit_view handle_pebs_precise_exit.
Proof. unfold handle_pebs_precise_exit. keeps_step. Qed.

Section Host.
Context {R : Type} `{!GuestMem R} `{!GuestMemSpec R}.

(** A computation after which the guest sees what it saw before, and the exit is
    still the kind it was. *)
Definition invisible {A} (m : GM R A) : Prop := ∀ s r, gm_ok r →
  match m (s, r) with
  | (Stuck, _) => True
  | (_, (s', r')) => exit_view s' = exit_view s ∧ gm_ok r' ∧ ∀ a, 0 ≤ a → byte_at r' a = byte_at r a
  end.
Lemma invisible_bind {A B} (m : GM R A) (k : A → GM R B) : invisible m → (∀ a, invisible (k a)) → invisible (m ≫= k).
Proof.
  intros Hm Hk s r Hr. specialize (Hm s r Hr). unfold mbind, M_bind. destruct (m (s, r)) as [[a|e|] [s1 r1]]; [|done..].
  destruct Hm as (Hv & Hr1 & Hb). specialize (Hk a s1 r1 Hr1). destruct (k a (s1, r1)) as [[b|e|] [s2 r2]]; [..|done];
    destruct Hk as (Hv' & Hr2 & Hb'); (split; [congruence|]); (split; [done|]); intros x Hx; by rewrite Hb', Hb.
Qed.
Lemma invisible_ret {A} (a : A) : invisible (mret a).
Proof. done. Qed.
Lemma invisible_vcpu {A} (m : VM A) : keeps exit_view m → invisible (on_vcpu m).
Proof. intros Hm s r Hr. specialize (Hm s). unfold on_vcpu. by destruct (m s) as [[a|e|] s']. Qed.
Lemma invisible_mem {E A} (m : M R E A) : silent gm_ok byte_at m → invisible (on_mem m).
Proof. intros Hm s r Hr. specialize (Hm r Hr). unfold on_mem. by destruct (m r) as [[a|e|] r']; [destruct Hm..|]. Qed.

Lemma invisible_ept qual s r :
  gm_ok r → (∀ g, vmcs s !! GuestPhysicalAddr = Some g → 0 ≤ g) → non_deterministic_exit EptViolation qual s = true →
  match handle_ept_violation qual (s, r) with
  | (Stuck, _) => True
  | (_, (s', r')) => exit_view s' = exit_view s ∧ gm_ok r' ∧ ∀ a, 0 ≤ a → byte_at r' a = byte_at r a
  end.
Proof.
  intros Hr Hg Hn. unfold handle_ept_violation. unfold non_deterministic_exit in Hn.
  destruct (is_pebs_induced qual); [by apply invisible_vcpu; [apply view_precise_exit|]|]. cbv zeta in Hn.
  set (gpa := default 0 (vmcs s !! GuestPhysicalAddr)) in *.
  assert (0 ≤ gpa) as Hpos by (unfold gpa; destruct (vmcs s !! GuestPhysicalAddr); [by apply Hg|done]).
  rewrite (bind_done _ _ _ gpa (s, r)) by (unfold on_vcpu, unwrap_or, vmread, gpa; by destruct (vmcs s !! GuestPhysicalAddr)).
  apply negb_true_iff, orb_false_iff in Hn as [-> ->]. destruct (_ && _); [|done].
  eapply (invisible_bind (on_mem (gm_cow_fault gpa)) (λ handled, mret _)); [|by intros; apply invisible_ret|done].
  apply invisible_mem, gm_cow_fault_law, Hpos.
Qed.
Lemma invisible_dispatch p heap reason qual s r :
  gm_ok r → core_ok s → non_deterministic_exit reason qual s = true → reason ≠ ExceptionNmi →
  match dispatch p heap reason qual (s, r) with
  | (Stuck, _) => True
  | (_, (s', r')) => exit_view s' = exit_view s ∧ gm_ok r' ∧ ∀ a, 0 ≤ a → byte_at r' a = byte_at r a
  end.
Proof.
  intros Hr Hs Hn Hne. destruct reason; try discriminate Hn; try congruence; try (by apply invisible_ret); unfold dispatch.
  - apply invisible_ept; [done| |done]. intros g Hg. apply (vk_vmcs _ Hs _ _ Hg).
  - apply invisible_bind; [|by intros; apply invisible_ret|done]. apply invisible_vcpu, keeps_map_err, view_vmwrite. by left.
Qed.
End Host.

(** ** Theorems *)
Section Theorems.
Context {R : Type} `{!GuestMem R} `{!GuestMemSpec R}.
Implicit Types (s : Vcpu) (r : R).

Lemma handle_exit_safe p heap s r :
  platform_ok p → vcpu_ok s → gm_ok r →
  ∃ res s' r', handle_exit p heap (s, r) = (Done res, (s', r')) ∧ vcpu_ok s' ∧ gm_ok r'.
Proof.
  intros Hp Hs Hr. pose proof (gt_handle_exit p heap Hp (s, r) (s, r) (simR_refl s r Hs Hr)) as H.
  destruct (handle_exit p heap (s, r)) as [[res|e|] [s' r']] eqn:E; [|by apply guarded_done in E|done].
  destruct H as (_ & _ & Hsim & _ & Hok). exists res, s', r'. split; [done|]. split; [|done]. by destruct (sim_ok _ _ Hsim).
Qed.

(** C6: the dispatcher is total and type-safe.  From any well-formed processor
    and memory, whatever exit the processor reports and whether or not
    allocations succeed, [handle_exit] returns (no index out of range, no loop
    without end, no arithmetic on an absent value), and processor and memory are
    well-formed again: every register fits its width, every device its layout,
    the log its format, the memory its page tables. *)
Theorem handle_exit_type_safe p heap s r :
  platform_ok p → vcpu_ok s → gm_ok r →
  ∃ res s' r', handle_exit p heap (s, r) = (Done res, (s', r')) ∧ vcpu_ok s' ∧ gm_ok r'.
Proof. apply handle_exit_safe. Qed.

(** C5: the dispatcher is deterministic.  Two VMs that agree on everything but
    the host's clock, the statistics and the host times in their logs, over the
    same memory, return the same result from the same exit, and agree on
    everything but those again, with the same memory. *)
Theorem handle_exit_deterministic p heap s1 s2 r :
  platform_ok p → sim s1 s2 → gm_ok r →
  ∃ res s1' s2' r', handle_exit p heap (s1, r) = (Done res, (s1', r')) ∧
    handle_exit p heap (s2, r) = (Done res, (s2', r')) ∧ sim s1' s2' ∧ gm_ok r'.
Proof.
  intros Hp Hs Hr. pose proof (gt_handle_exit p heap Hp (s1, r) (s2, r) (conj Hs (conj eq_refl Hr))) as H.
  destruct (handle_exit p heap (s1, r)) as [[res|e|] [s1' r1]] eqn:E1; [|by apply guarded_done in E1|done].
  destruct (handle_exit p heap (s2, r)) as [[res'|e|] [s2' r2]] eqn:E2; [|by apply guarded_done in E2|done].
  destruct H as (<- & _ & Hsim & Hr' & Hok). cbn in Hr'. subst r2. by exists res, s1', s2', r1.
Qed.

(** C7: what the host does to the guest's processor is invisible to the guest.
    At an exit that is not deterministic, an interrupt or timer of the host, a
    write fault on a page still shared with the parent, a precise exit or a step
    of the trap flag short of its boundary, the dispatcher leaves every register,
    device, queue and byte of memory the guest can see as it was, virtual time
    included, and marks the exit so that no timer is delivered on its account.
    (Page faults and non-maskable interrupts are exceptions of their own.) *)
Theorem host_exits_invisible p heap s r raw reason qual :
  platform_ok p → vcpu_ok s → gm_ok r →
  vmcs s !! VmExitReason = Some raw → exit_reason_of raw = inr reason → vmcs s !! ExitQualification = Some qual →
  non_deterministic_exit reason qual s = true → reason ≠ ExceptionNmi →
  ∃ res s' r', handle_exit p heap (s, r) = (Done res, (s', r')) ∧
    guest_view s' = guest_view s ∧ last_exit_deterministic s' = false ∧ ∀ a, 0 ≤ a → byte_at r' a = byte_at r a.
Proof.
  intros Hp Hs Hr Hraw Hreason Hqual Hn Hne. destruct (handle_exit_safe p heap s r Hp Hs Hr) as (res & s' & r' & E & _ & _).
  exists res, s', r'. split; [done|]. set (s1 := with_clock (mkClock (clock_values (clock s)) (S (clock_reads (clock s)))) s).
  set (s2 := note_exit reason qual s1). assert (s2 = with_last_exit_deterministic false s1) as Hs2.
  { unfold s2, note_exit. change (non_deterministic_exit reason qual s1) with (non_deterministic_exit reason qual s). by rewrite Hn. }
  assert (core_ok s2) as Hc by (rewrite Hs2; destruct (ok_core _ Hs); by constructor).
  pose proof (invisible_dispatch p heap reason qual s2 r Hr Hc) as Hd. rewrite Hs2 in Hd at 1. specialize (Hd Hn Hne).
  assert (exit_view s2 = (guest_view s, false)) as Hv by (by rewrite Hs2).
  unfold handle_exit, guarded in E. rewrite (bind_done _ _ _ _ (s1, r)) in E by reflexivity.
  rewrite (bind_done _ _ _ reason (s1, r)) in E.
  2: { unfold on_vcpu, read_exit_reason, mbind, M_bind, vmread. change (vmcs s1) with (vmcs s). rewrite Hraw. cbn. by rewrite Hreason. }
  rewrite (bind_done _ _ _ qual (s1, r)) in E by (unfold on_vcpu, read_exit_qualification, vmread; change (vmcs s1) with (vmcs s); by rewrite Hqual).
  rewrite (bind_done _ _ _ true (s1, r)) in E by (unfold on_vcpu, gets; change (non_deterministic_exit reason qual s1) with (non_deterministic_exit reason qual s); by rewrite Hn).
  rewrite (bind_done _ _ _ () (s2, r)) in E by done. unfold mbind, M_bind in E.
  destruct (dispatch p heap reason qual (s2, r)) as [[x|e|] [s3 r3]]; [| |done].
  - destruct Hd as (Hv3 & Hr3 & Hb3). pose proof (view_finish p reason qual (clock_values (clock s) (clock_reads (clock s))) x s3) as Hf.
    unfold on_vcpu in E. destruct (finish_exit _ _ _ _ _ _ _) as [[y|e|] s4]; [| |done]; injection E as <- <- <-; cbn in Hf;
      rewrite Hv3, Hv in Hf; exact (conj (f_equal fst Hf) (conj (f_equal snd Hf) Hb3)).
  - destruct Hd as (Hv3 & _ & Hb3). injection E as <- <- <-. rewrite Hv in Hv3. exact (conj (f_equal fst Hv3) (conj (f_equal snd Hv3) Hb3)).
Qed.
End Theorems.

(** *** A host, and a guest at an exit *)
Definition demo_platform : platform := mkPlatform demo_cpuid demo_caps demo_host (λ _, 0) 0 0.
Lemma demo_platform_ok : platform_ok demo_platform.
Proof. constructor; [apply demo_caps_ok|intros; apply demo_host_ok|intros; by apply width_const|by apply width_const]. Qed.
Definition demo_exit (raw : Z) : Vcpu :=
  let s := with_vmcs (<[VmExitReason := raw]> (vmcs demo_idle)) demo_idle in
  with_vmcs (<[ExitQualification := 0]> (vmcs s)) s.
Lemma demo_exit_ok raw : in_width 32 raw → vcpu_ok (demo_exit raw).
Proof.
  intros Hr. destruct demo_idle_ok as [Hc He Hk]. constructor; [|done|done].
  unfold demo_exit. cbv zeta. apply core_vmcs; [by apply width_const|]. by apply core_vmcs.
Qed.
(** The same processor on a host whose clock shows other values. *)
Definition demo_later (s : Vcpu) : Vcpu := with_clock (mkClock (λ n, u64 (7 * Z.of_nat n + 1)) 0) s.
Lemma demo_later_sim s : vcpu_ok s → sim s (demo_later s).
Proof.
  intros [Hc [a Ha] Hk]. split; [|by exists a, a|done|done|intros n; apply in_width_u64].
  exists (events s), (mkClock (λ n, u64 (7 * Z.of_nat n + 1)) 0), (stats s). by destruct s.
Qed.

Lemma handle_exit_type_safe_witness :
  ∃ s' r', handle_exit demo_platform true (demo_exit 10, demo_guest) = (Done Continue, (s', r')) ∧ vcpu_ok s' ∧ gm_ok r'.
Proof.
  destruct (handle_exit_type_safe demo_platform true (demo_exit 10) demo_guest demo_platform_ok
    (demo_exit_ok 10 ltac:(by apply width_const)) demo_guest_ok) as (res & s' & r' & E & Hs & Hr).
  assert ((handle_exit demo_platform true (demo_exit 10, demo_guest)).1 = Done Continue) as H by (vm_compute; reflexivity).
  rewrite E in H. injection H as ->. exists s', r'. exact (conj E (conj Hs Hr)).
Defined.
Lemma handle_exit_deterministic_witness :
  ∃ s1 s2 r', handle_exit demo_platform true (demo_exit 10, demo_guest) = (Done Continue, (s1, r')) ∧
    handle_exit demo_platform true (demo_later (demo_exit 10), demo_guest) = (Done Continue, (s2, r')) ∧ gprs s1 RAX = gprs s2 RAX.
Proof.
  destruct (handle_exit_deterministic demo_platform true (demo_exit 10) (demo_later (demo_exit 10)) demo_guest demo_platform_ok
    (demo_later_sim _ (demo_exit_ok 10 ltac:(by apply width_const))) demo_guest_ok) as (res & s1 & s2 & r' & E1 & E2 & Hs & _).
  assert ((handle_exit demo_platform true (demo_exit 10, demo_guest)).1 = Done Continue) as H by (vm_compute; reflexivity).
  rewrite E1 in H. injection H as ->. exists s1, s2, r'. split; [exact E1|]. split; [exact E2|]. destruct Hs as [(e & c & st & ->) _ _ _ _]. reflexivity.
Defined.
Lemma host_exits_invisible_witness :
  ∃ res s' r', handle_exit demo_platform true (demo_exit 1, demo_guest) = (Done res, (s', r')) ∧
    guest_view s' = guest_view (demo_exit 1) ∧ last_exit_deterministic s' = false.
Proof.
  destruct (host_exits_invisible demo_platform true (demo_exit 1) demo_guest 1 ExternalInterrupt 0 demo_platform_ok
    (demo_exit_ok 1 ltac:(by apply width_const)) demo_guest_ok) as (res & s' & r' & E & Hv & Hl & _); try reflexivity; [discriminate|].
  exists res, s', r'. exact (conj E (conj Hv Hl)).
Defined.
