(* ===== verification/Footprint.v ===== *)
(** * What an exit may change

    A framework for what computations leave alone: [keeps] for those on the
    virtual processor, [leaves] for those with guest memory, for any function of
    the processor.  The theorem it serves here: no exit, whatever the guest asks,
    changes a field of the VMCS but the few listed in [touched], and the VM-exit
    MSR-load list, which only becomes the page the kernel allocated for it.  In particular
    the host's state, the exit and entry controls and the addresses of the
    hypervisor's own pages are out of the guest's reach. *)
From stdpp Require Import strings.
From S2P Require Import Prelude VmMemory Wire EventLog Random Rtc Apic Vcpu GuestMem Relational Precise Handlers Safety Emulation Mmio ExitLog IoChannel Vmcall Dispatch.

Lemma keeps_handler {A} (f : Vcpu → A) m : keeps f m → keeps f (handler m).
Proof. intros H s. specialize (H s). unfold handler. by destruct (m s) as [[]]. Qed.

(** ** Computations with guest memory *)
Section Leaves.
Context {R : Type} `{!GuestMem R} {V : Type} (f : Vcpu → V).

Definition leaves {A} (m : GM R A) : Prop := ∀ st, f (m st).2.1 = f st.1.
Lemma leaves_bind {A B} (m : GM R A) (k : A → GM R B) : leaves m → (∀ a, leaves (k a)) → leaves (m ≫= k).
Proof.
  intros Hm Hk st. specialize (Hm st). unfold mbind, M_bind. destruct (m st) as [[a|e|] st']; cbn in *; [|done..]. by rewrite Hk.
Qed.
Lemma leaves_ret {A} (a : A) : leaves (mret a).
Proof. done. Qed.
Lemma leaves_throw {A} e : leaves (throw e : GM R A).
Proof. done. Qed.
Lemma leaves_gets {A} (g : Vcpu * R → A) : leaves (gets g).
Proof. done. Qed.
Lemma leaves_vcpu {A} (m : VM A) : keeps f m → leaves (on_vcpu m).
Proof. intros Hm [s r]. specialize (Hm s). unfold on_vcpu. by destruct (m s). Qed.
Lemma leaves_mem {E A} (m : M R E A) : leaves (on_mem m).
Proof. intros [s r]. unfold on_mem. by destruct (m r) as [[]]. Qed.
Lemma leaves_peek {E A} (g : Vcpu → R → outcome E A) : leaves (peek g).
Proof. intros [s r]. unfold peek. by destruct (g s r). Qed.
Lemma leaves_guarded m : leaves m → leaves (guarded m).
Proof. intros Hm st. specialize (Hm st). unfold guarded. by destruct (m st) as [[]]. Qed.
Lemma leaves_chunked {E} fuel step (body : Z → Z → GM R (result () E)) len off :
  (∀ o n, leaves (body o n)) → leaves (chunked fuel step body len off).
Proof.
  intros Hb. revert off. induction fuel as [|fuel IH]; intros off; cbn [chunked]; destruct (_ <=? _); try done.
  apply leaves_bind; [apply Hb|]. intros [[]|e]; [apply IH|apply leaves_ret].
Qed.
End Leaves.

(** The structure of a computation, given how to treat its writes to the VMCS. *)
Ltac keeps_with tac :=
  repeat first
    [ progress keeps_step | apply keeps_handler | apply keeps_throw | solve [tac]
    | match goal with |- keeps _ (match ?o with inl _ => _ | inr _ => _ end) => destruct o end
    | match goal with |- keeps _ (match ?o with tt => _ end) => destruct o end
    | match goal with |- keeps _ (let '(_, _) := ?p in _) => destruct p end
    | apply keeps_modify; intros s; by repeat case_match ].
Ltac leaves_with tac :=
  repeat first
    [ apply leaves_bind; [|intros ?] | apply leaves_ret | apply leaves_throw | apply leaves_gets | apply leaves_mem
    | apply leaves_peek | apply leaves_guarded | (apply leaves_chunked; intros ? ?)
    | match goal with |- leaves _ (if ?b then _ else _) => destruct b end
    | match goal with |- leaves _ (match ?o with Some _ => _ | None => _ end) => destruct o end
    | match goal with |- leaves _ (match ?o with Ok _ => _ | Err _ => _ end) => destruct o end
    | match goal with |- leaves _ (match ?o with pair _ _ => _ end) => destruct o end
    | match goal with |- leaves _ (match ?o with Pool => _ | Fault => _ end) => destruct o end
    | match goal with |- leaves _ (match ?o with SeededRng => _ | ExitToUserspaceMode => _ end) => destruct o end
    | apply leaves_vcpu; solve [keeps_with tac] ].

(** ** The fields an exit may change *)
Definition touched : list Z :=
  [GuestRip; GuestRflags; GuestCr0; Cr0ReadShadow; GuestCr3; GuestCr4; Cr4ReadShadow;
   VmEntryInterruptionInfo; VmEntryExceptionErrorCode; PrimaryProcBasedVmExecControls; VmxPreemptionTimerValue;
   GuestIa32PerfGlobalCtrl].
(** The VM-exit MSR-load list: what registering a PEBS page makes of its address
    and length. *)
Definition exit_list (exit_load_pa : Z) : list (Z * Z) := [(VmExitMsrLoadAddr, exit_load_pa); (VmExitMsrLoadCount, 1)].
Definition exit_list_fields : list Z := (exit_list 0).*1.

(** A view of a field: all of it, for a field that is not written, or what does
    not depend on its value. *)
Section Confined.
Context {V : Type} (view : option Z → V) (x : Z) (Hx : x ∉ touched ∨ ∀ a b, view (Some a) = view (Some b)).
Definition field (s : Vcpu) : V := view (vmcs s !! x).

Lemma field_vmwrite y v : existsb (Z.eqb y) touched = true → keeps field (vmwrite y v).
Proof using Hx.
  intros Hy s. apply existsb_exists in Hy as (z & Hz & ->%Z.eqb_eq). unfold field, vmwrite. destruct (vmcs s !! z) eqn:E; [|done]. cbn.
  destruct (decide (z = x)) as [->|Hne]; [|by rewrite lookup_insert_ne]. rewrite lookup_insert_eq, E.
  destruct Hx as [Hx'|Hv]; [|apply Hv]. by destruct Hx'; apply list_elem_of_In.
Qed.

Ltac confined_go := keeps_with ltac:(apply field_vmwrite; reflexivity).
Ltac confined_mem := leaves_with ltac:(apply field_vmwrite; reflexivity).

Lemma confined_set_gpr i v : keeps field (modify (set_gpr_value i v) : VM ()).
Proof. apply keeps_modify. intros s. unfold set_gpr_value. by case_match. Qed.
Lemma confined_cr caps q : keeps field (handle_cr_access caps q).
Proof using Hx.
  unfold handle_cr_access, rewrite_cr0, mov_to_cr, mov_from_cr. confined_go. destruct (access_type q); confined_go; apply confined_set_gpr.
Qed.
Lemma confined_io q : keeps field (handle_io q).
Proof using Hx. unfold handle_io. confined_go. unfold out_port. confined_go. Qed.
Lemma confined_random src : keeps field (handle_random src).
Proof using Hx. unfold handle_random. confined_go. apply keeps_modify. intros s. unfold write_gpr_by_index. by repeat case_match. Qed.
Lemma confined_handlers h :
  keeps field (handle_cpuid h) ∧ keeps field handle_msr_read ∧ keeps field handle_msr_write ∧ keeps field handle_exception_nmi ∧
  keeps field handle_xsetbv ∧ keeps field handle_rdtsc ∧ keeps field handle_rdtscp ∧ keeps field handle_rdpmc ∧
  keeps field handle_idle ∧ keeps field handle_pebs_precise_exit.
Proof using Hx.
  split_and!.
  all: unfold handle_cpuid, handle_msr_read, handle_msr_write, handle_exception_nmi, handle_xsetbv, handle_rdtsc, handle_rdtscp,
    handle_rdpmc, handle_idle, handle_pebs_precise_exit; confined_go.
Qed.
Lemma confined_record xxh64 junk reason qual flags : keeps field (write_exit_record xxh64 junk reason qual flags).
Proof. unfold write_exit_record. confined_go. Qed.
Lemma confined_capture xxh64 junk reason qual det : keeps field (capture_exit xxh64 junk reason qual det).
Proof.
  unfold capture_exit. confined_go. apply keeps_modify. intros s. by destruct (triggered_shape det s) as (i & [->|(-> & _)]).
Qed.
Lemma confined_shutdown xxh64 junk : keeps field (capture_exit_at_shutdown xxh64 junk) ∧ keeps field (capture_exit_at_snapshot xxh64 junk).
Proof. split; unfold capture_exit_at_shutdown, capture_exit_at_snapshot; confined_go. Qed.
Lemma confined_mtf eax : keeps field (update_mtf_state eax).
Proof using Hx. unfold update_mtf_state. confined_go. Qed.
Lemma confined_finish p reason qual t nondet result : keeps field (finish_exit p reason qual t nondet result).
Proof using Hx.
  unfold finish_exit. apply keeps_bind; [by apply keeps_rdtsc|]. intros t'. apply keeps_bind.
  { apply keeps_modify. intros s. unfold record_stats. by destruct (_ && _). }
  intros _. apply keeps_bind; [apply confined_mtf|]. intros _. apply keeps_bind; [done|]. intros [].
  { apply keeps_bind; [apply confined_shutdown|done]. }
  apply keeps_bind; [done|]. intros en. apply keeps_bind; [|confined_go]. destruct en; [|done]. apply confined_capture.
Qed.
(** Injection before an entry. *)
Lemma confined_inject eax : keeps field (inject_pending_interrupt eax).
Proof using Hx.
  unfold inject_pending_interrupt, inject_eligible, reinject_vectored_event, check_apic_timer, check_io_channel, deliver_pending,
    enable_interrupt_window_exiting, disable_interrupt_window_exiting, inject_exception. confined_go.
  apply keeps_modify. intros s. unfold arm_for_next_iteration. by repeat (case_match || cbv zeta).
Qed.

Context {R : Type} `{!GuestMem R}.
Lemma confined_retire v res : leaves field (retire (R := R) v res).
Proof using Hx. unfold retire, set_result. confined_mem. Qed.
Lemma confined_ept qual : leaves field (handle_ept_violation (R := R) qual).
Proof using Hx.
  unfold handle_ept_violation, handle_apic_access, handle_ioapic_access, apic_effect, ioapic_effect, fetch, advance_to.
  confined_mem; apply leaves_vcpu; confined_go; try apply confined_set_gpr.
Qed.
Lemma confined_fill fuel cap off : keeps field (fill_seeded fuel cap off).
Proof.
  revert off. induction fuel as [|fuel IH]; intros off; cbn [fill_seeded]; destruct (_ <=? _); try done.
  apply keeps_bind; [done|]. intros v. apply keeps_bind; [by apply keeps_modify|]. intros _. apply keeps_bind; [apply IH|done].
Qed.
(** The hypercalls but the one that registers a PEBS page. *)
Lemma confined_calls xxh64 junk heap :
  Forall (leaves field)
    [call_shutdown (R := R) xxh64 junk; call_snapshot xxh64 junk; call_ready; call_register_feedback_buffer heap; call_file_fetch; call_file_store;
     call_io_register_page; call_io_get_request; call_io_put_response; call_serial_register_page; call_serial_write; call_get_random].
Proof using Hx.
  destruct (confined_shutdown xxh64 junk) as [Hsh Hsn].
  unfold call_shutdown, call_snapshot, call_ready, call_register_feedback_buffer,
    call_file_fetch, call_file_store, call_io_register_page, call_io_get_request, copy_request_to_guest, request_chunk,
    call_io_put_response, copy_response_from_guest, call_serial_register_page, call_serial_write, copy_serial_console_from_guest,
    copy_from_guest, put_console, put_response, call_get_random, ensure_guest_writable, write_guest_bytes, retire, set_result.
  repeat constructor; confined_mem; apply leaves_vcpu; first [apply Hsh|apply Hsn|apply confined_fill|confined_go].
Qed.
Lemma confined_dispatch p heap reason qual : reason ≠ Vmcall → leaves field (dispatch (R := R) p heap reason qual).
Proof using Hx.
  intros Hr. destruct (confined_handlers (pf_cpuid p)) as (? & ? & ? & ? & ? & ? & ? & ? & ? & _).
  unfold dispatch. destruct reason; first
    [ done | apply leaves_ret | apply confined_ept | apply leaves_vcpu; first [assumption|apply confined_cr|apply confined_io|apply confined_random]
    | apply leaves_bind; [|intros; apply leaves_ret]; apply leaves_vcpu; unfold disable_interrupt_window_exiting; confined_go ].
Qed.
End Confined.

(** ** What holds of an exit *)

(** A preorder on processors, for computations with memory. *)
Section Respects.
Context {R : Type} `{!GuestMem R} (P : Vcpu → Vcpu → Prop) `{!PreOrder P}.
Definition respects {A} (m : GM R A) : Prop := ∀ st, P st.1 (m st).2.1.
Lemma respects_bind {A B} (m : GM R A) (k : A → GM R B) : respects m → (∀ a, respects (k a)) → respects (m ≫= k).
Proof using Type*.
  intros Hm Hk st. specialize (Hm st). unfold mbind, M_bind. destruct (m st) as [[a|e|] st']; cbn in *; [|done..]. etrans; [exact Hm|apply Hk].
Qed.
Lemma respects_guarded m : respects m → respects (guarded m).
Proof using Type*. intros Hm st. specialize (Hm st). unfold guarded. by destruct (m st) as [[]]. Qed.
End Respects.

Section Exit.
Context {R : Type} `{!GuestMem R}.
(** A field that is not in [touched] keeps its view through any relation that the
    registration of a PEBS page respects. *)
Context {V : Type} (view : option Z → V) (x : Z) (Hx : x ∉ touched ∨ ∀ a b, view (Some a) = view (Some b)) (P : V → V → Prop) `{!PreOrder P}.
Definition moved (s s' : Vcpu) : Prop := P (field view x s) (field view x s').
#[local] Instance moved_preorder : PreOrder moved.
Proof using PreOrder0. split; [intros s; unfold moved; reflexivity|]. intros s1 s2 s3. unfold moved. apply transitivity. Qed.
Lemma moved_leaves {A} (m : GM R A) : leaves (field view x) m → respects moved m.
Proof using PreOrder0. intros Hm st. unfold moved. rewrite Hm. reflexivity. Qed.

Context (pa : Z) (Hpebs : respects moved (call_register_pebs_page (R := R) pa)).
Lemma exit_moves p heap : pf_exit_load_pa p = pa → respects moved (handle_exit (R := R) p heap).
Proof using Type*.
  intros Hp. unfold handle_exit, read_exit_reason, read_exit_qualification. apply (respects_guarded moved).
  apply (respects_bind moved); [apply moved_leaves, leaves_vcpu, keeps_rdtsc; done|]. intros t.
  apply (respects_bind moved); [apply moved_leaves, leaves_vcpu, keeps_bind; [apply keeps_vmread|intros c s; by destruct (exit_reason_of c)]|]. intros reason.
  apply (respects_bind moved); [apply moved_leaves, leaves_vcpu, keeps_vmread|]. intros qual.
  apply (respects_bind moved); [by apply moved_leaves, leaves_vcpu|]. intros nondet. apply (respects_bind moved).
  { apply moved_leaves, leaves_vcpu, keeps_modify. intros s. unfold note_exit. cbv zeta. by destruct (negb _). }
  intros _. apply (respects_bind moved); [|intros result; by apply moved_leaves, leaves_vcpu, confined_finish].
  destruct (decide (reason = Vmcall)) as [->|Hr]; [|by apply moved_leaves, confined_dispatch].
  cbn [dispatch]. unfold handle_vmcall. apply (respects_guarded moved), (respects_bind moved); [by apply moved_leaves, leaves_vcpu|]. intros nr.
  pose proof (confined_calls view x Hx (pf_xxh64 p) (pf_junk p) heap (R := R)) as Hc. rewrite !Forall_cons in Hc. rewrite Hp.
  repeat (match goal with |- context [if ?b then _ else _] => destruct b end; [first [exact Hpebs|apply moved_leaves; tauto]|]).
  by apply moved_leaves, leaves_ret.
Qed.
End Exit.

(** Registering a PEBS page: the fields of the VM-exit list get the host's values, and no other is written. *)
Lemma pebs_page_fields {R} `{!GuestMem R} {V} (view : option Z → V) x pa (P : V → V → Prop) `{!PreOrder P} :
  x ∉ touched ∨ (∀ a b, view (Some a) = view (Some b)) →
  (∀ v w, (x, v) ∈ exit_list pa → P (view (Some w)) (view (Some v))) → respects (R := R) (moved view x P) (call_register_pebs_page pa).
Proof.
  intros Hx Hl. pose proof (moved_preorder view x P) as Hpre.
  assert (∀ y v, (y, v) ∈ exit_list pa → respects (R := R) (moved view x P) (on_vcpu (vmwrite_ignored y v))) as Hw.
  { intros y v Hy [s r]. unfold moved, field, on_vcpu, vmwrite_ignored, unwrap_or, vmwrite. destruct (vmcs s !! y) as [w|] eqn:E; cbn; [|reflexivity].
    destruct (decide (y = x)) as [->|Hne]; [rewrite lookup_insert_eq, E; by apply Hl|rewrite lookup_insert_ne by done; reflexivity]. }
  assert (∀ A (m : GM R A), leaves (field view x) m → respects (moved view x P) m) as Hleave by (intros A m; by apply moved_leaves).
  unfold call_register_pebs_page, register_pebs_page, retire, set_result.
  repeat first
    [ apply (Hw VmExitMsrLoadAddr); left | apply (Hw VmExitMsrLoadCount); right; left
    | apply Hleave; solve [leaves_with ltac:(first [apply (field_vmwrite view x Hx); reflexivity|unfold vmwrite_ignored])]
    | apply (respects_bind (moved view x P)); [|intros ?]
    | match goal with |- respects _ (if ?b then _ else _) => destruct b end
    | match goal with |- respects _ (match ?o with Some _ => _ | None => _ end) => destruct o end
    | match goal with |- respects _ (match ?o with pair _ _ => _ end) => destruct o end ].
Qed.

(** A view that no value of the list changes. *)
Lemma confined_exit {R} `{!GuestMem R} {V} (view : option Z → V) x p heap :
  x ∉ touched ++ exit_list_fields ∨ (∀ a b, view (Some a) = view (Some b)) → leaves (field view x) (handle_exit (R := R) p heap).
Proof.
  intros Hx st. symmetry. apply (exit_moves view x) with (P := eq) (pa := pf_exit_load_pa p); [set_solver|apply _| |done].
  apply pebs_page_fields; [apply _|set_solver|]. intros v w Hv. destruct Hx as [Hx|Hv']; [|apply Hv'].
  destruct Hx. apply elem_of_app. right. change exit_list_fields with ((exit_list (pf_exit_load_pa p)).*1). apply list_elem_of_fmap. by exists (x, v).
Qed.

(** C4: no exit reaches the host's part of the VMCS.  Whatever exit the guest
    causes, with whatever registers, hypercall arguments and memory, and whatever
    is injected before the next entry, the only fields of the VMCS written are
    those of [touched], the guest's instruction pointer, flags, control registers
    and counter control, the event to deliver, the interrupt window and trap flag of
    the primary controls and the preemption timer; and the address and length of the
    VM-exit MSR-load list, which injection does not write, and of which an exit makes
    nothing but the page that the kernel allocated for it and the length one.  The
    host's stack, entry point, page tables and segment bases, the EPT pointer, the
    MSR and I/O bitmaps, the exception bitmap, the VM-exit store list and the VM-entry
    list keep the values they were given. *)
Theorem exits_confined {R} `{!GuestMem R} p heap eax s (r : R) x :
  x ∉ touched →
  (vmcs (handle_exit p heap (s, r)).2.1 !! x = vmcs s !! x ∨
    ∃ v, (x, v) ∈ exit_list (pf_exit_load_pa p) ∧ vmcs (handle_exit p heap (s, r)).2.1 !! x = Some v) ∧
  vmcs (inject_pending_interrupt eax s).2 !! x = vmcs s !! x.
Proof.
  intros Hx. split; [|apply (confined_inject id x (or_introl Hx) eax s)]. set (pa := pf_exit_load_pa p).
  set (P := λ o o' : option Z, o' = o ∨ ∃ v, (x, v) ∈ exit_list pa ∧ o' = Some v).
  assert (PreOrder P) as HP.
  { split; [by left|]. intros a b c [->|(v & Hv & ->)] [->|(w & Hw & ->)]; [by left|right|right|right]; eauto. }
  apply (exit_moves id x (or_introl Hx) P pa); [|done]. apply pebs_page_fields; [done|by left|]. intros v w Hv. right. by exists v.
Qed.
Lemma exits_confined_witness :
  (vmcs (handle_exit demo_platform true (demo_exit 10, demo_guest)).2.1 !! ExceptionBitmap = vmcs (demo_exit 10) !! ExceptionBitmap ∨
    ∃ v, (ExceptionBitmap, v) ∈ exit_list (pf_exit_load_pa demo_platform) ∧
      vmcs (handle_exit demo_platform true (demo_exit 10, demo_guest)).2.1 !! ExceptionBitmap = Some v) ∧
  vmcs (inject_pending_interrupt demo_cpuid (demo_exit 10)).2 !! ExceptionBitmap = vmcs (demo_exit 10) !! ExceptionBitmap.
Proof.
  apply (exits_confined demo_platform true demo_cpuid (demo_exit 10) demo_guest ExceptionBitmap).
  intros Hin. repeat (apply elem_of_cons in Hin as [[=]|Hin]). by apply not_elem_of_nil in Hin.
Defined.
