(* ===== verification/Run.v ===== *)
(** * The run loop (crate [bedrock-vmx]: [traits/vm_run.rs], [exits/pebs.rs];
    crate [bedrock]: [instruction_counter.rs])

    [run] takes the processor from the host to the guest and back: it loads the
    model-specific registers the guest uses directly, enters the guest until an
    exit needs userspace, and gives the host its registers back.  The guest's
    stay is the assembly stub and the hardware: a parameter, which takes the
    registers, CR2, the VMCS, guest memory and the model-specific registers of the
    processor and returns them at the exit.  The
    theorems: a run returns once the scheduler asks for the processor, with the
    virtual processor and memory well-formed, and two runs over the same stays
    that differ in host time return the same. *)
From stdpp Require Import strings.
From S2P Require Import Prelude Wire EventLog Random Rtc Apic Vcpu GuestMem Relational Precise Handlers Safety Emulation Mmio ExitLog IoChannel Vmcall Dispatch.

(** ** Registers *)
Definition IA32_A_PMC0 : Z := 0x4C1.
Definition IA32_PERFEVTSEL0 : Z := 0x186.
Definition IA32_PERF_GLOBAL_CTRL : Z := 0x38F.
Definition IA32_PERF_GLOBAL_STATUS_RESET : Z := 0x390.
Definition IA32_FIXED_CTR0 : Z := 0x309.
Definition IA32_FIXED_CTR_CTRL : Z := 0x38D.
Definition MSR_PEBS_DATA_CFG : Z := 0x3F2.
Definition IA32_PEBS_ENABLE : Z := 0x3F1.
Definition IA32_DS_AREA : Z := 0x600.
Definition IA32_PMC0 : Z := 0xC1.
Definition IA32_PERF_GLOBAL_STATUS : Z := 0x38E.
Definition IA32_SYSENTER_CS : Z := 0x174.
Definition IA32_SYSENTER_ESP : Z := 0x175.
Definition IA32_SYSENTER_EIP : Z := 0x176.
Definition IA32_EFER : Z := 0xC0000080.
Definition IA32_STAR : Z := 0xC0000081.
Definition IA32_LSTAR : Z := 0xC0000082.
Definition IA32_CSTAR : Z := 0xC0000083.
Definition IA32_FMASK : Z := 0xC0000084.
Definition IA32_FS_BASE : Z := 0xC0000100.
Definition IA32_GS_BASE : Z := 0xC0000101.
Definition IA32_KERNEL_GS_BASE : Z := 0xC0000102.

Definition VmExitMsrStoreAddr : Z := 0x2006.
Definition VmEntryMsrLoadAddr : Z := 0x200A.
Definition HostIa32PerfGlobalCtrl : Z := 0x2C04.
Definition PrimaryVmExitControls : Z := 0x400C.
Definition VmExitMsrStoreCount : Z := 0x400E.
Definition VmEntryControls : Z := 0x4012.
Definition VmEntryMsrLoadCount : Z := 0x4014.
Definition HostIa32Efer : Z := 0x2C02.
Definition HostIa32SysenterCs : Z := 0x4C00.
Definition HostIa32SysenterEsp : Z := 0x6C10.
Definition HostIa32SysenterEip : Z := 0x6C12.
Definition HostCr3 : Z := 0x6C02.
Definition HostFsBase : Z := 0x6C06.
Definition HostGsBase : Z := 0x6C08.
Definition HostTrBase : Z := 0x6C0A.
Definition HostGdtrBase : Z := 0x6C0C.
Definition HostRsp : Z := 0x6C14.
Definition EXIT_LOAD_IA32_PERF_GLOBAL_CTRL : Z := Z.shiftl 1 12.
Definition ENTRY_LOAD_IA32_PERF_GLOBAL_CTRL : Z := Z.shiftl 1 13.

(** ** State *)

(** The scalars of [VmState], [VmxContext] and the instruction counter that only
    the run loop uses.  [Guest..] and [Host..] are [msr_state.syscall] and
    [host_state.syscall_msrs]; [Saved..] are [PebsHostMsrs]. *)
Inductive rreg :=
| Launched | CtxXcr0Mask
| GuestStar | GuestLstar | GuestCstar | GuestFmask
| HostStar | HostLstar | HostCstar | HostFmask
| SavedPebsEnable | SavedDsArea | SavedFixedCtrCtrl | SavedFixedCtr0 | SavedPebsDataCfg
| SavedPerfevtsel0 | GuestPerfGlobalCtrl | HostPerfGlobalCtrl | MsrData
| LastExitQualification | LastGuestPhysicalAddr.
#[export] Instance rreg_eq_dec : EqDecision rreg.
Proof. solve_decision. Defined.

Record run_state := mkRun {
  rn_regs : rreg → Z;
  rn_ctx : Reg → Z;             (** [vmx_ctx], the guest's registers *)
  rn_counter_page : option Z;   (** physical address of the counter's list entry *)
  rn_armed : bool;              (** the counter is between [prepare] and [finish] *)
  rn_loaded : bool;             (** the VMCS is current on the processor *)
  rn_last_cpu : option Z;
  rn_entry_list : list Z;       (** values of the VM-entry MSR-load page *)
  rn_msrs : gmap Z Z;           (** the model-specific registers of the processor *)
}.
Implicit Types n : run_state.

Definition rset (r : rreg) (v : Z) n : run_state :=
  mkRun (λ r', if decide (r' = r) then v else rn_regs n r') (rn_ctx n) (rn_counter_page n) (rn_armed n) (rn_loaded n)
    (rn_last_cpu n) (rn_entry_list n) (rn_msrs n).
Definition with_ctx (x : Reg → Z) n : run_state :=
  mkRun (rn_regs n) x (rn_counter_page n) (rn_armed n) (rn_loaded n) (rn_last_cpu n) (rn_entry_list n) (rn_msrs n).
Definition with_armed (x : bool) n : run_state :=
  mkRun (rn_regs n) (rn_ctx n) (rn_counter_page n) x (rn_loaded n) (rn_last_cpu n) (rn_entry_list n) (rn_msrs n).
Definition with_loaded (x : bool) n : run_state :=
  mkRun (rn_regs n) (rn_ctx n) (rn_counter_page n) (rn_armed n) x (rn_last_cpu n) (rn_entry_list n) (rn_msrs n).
Definition with_last_cpu (x : option Z) n : run_state :=
  mkRun (rn_regs n) (rn_ctx n) (rn_counter_page n) (rn_armed n) (rn_loaded n) x (rn_entry_list n) (rn_msrs n).
Definition with_entry_list (x : list Z) n : run_state :=
  mkRun (rn_regs n) (rn_ctx n) (rn_counter_page n) (rn_armed n) (rn_loaded n) (rn_last_cpu n) x (rn_msrs n).
Definition with_msrs (x : gmap Z Z) n : run_state :=
  mkRun (rn_regs n) (rn_ctx n) (rn_counter_page n) (rn_armed n) (rn_loaded n) (rn_last_cpu n) (rn_entry_list n) x.

Inductive InstructionCounterError := Unavailable | ProgramFailed | RestoreFailed.
Inductive VmRunError :=
| RInstructionCounter (e : InstructionCounterError) | RVmEntry | RExitHandler (e : ExitError) | RVmcsLoad | RVmcsClear
| RWriteHostRsp (e : ExitError) | RReadHostCr3 | RWriteHostCr3 (e : ExitError) | RWriteHostFsBase (e : ExitError)
| RWriteHostGsBase (e : ExitError) | RWriteHostTrBase (e : ExitError) | RWriteHostGdtrBase (e : ExitError) | RInveptFailed.

(** What the guest's stay takes and returns: whether the entry succeeded, the
    registers, CR2, the VMCS, memory, the model-specific registers and the value the
    processor stores in the counter's list entry. *)
Record stay (R : Type) := mkStay {
  st_entered : bool;
  st_ctx : Reg → Z;
  st_cr2 : Z;
  st_vmcs : gmap Z Z;
  st_mem : R;
  st_msrs : gmap Z Z;
  st_count : Z;
}.
Arguments mkStay {R}. Arguments st_entered {R}. Arguments st_ctx {R}. Arguments st_cr2 {R}. Arguments st_vmcs {R}. Arguments st_mem {R}.
Arguments st_msrs {R}. Arguments st_count {R}.

(** The host during one call of [run]: the processor it runs on and what its
    instructions return, the scheduler, whether allocations of an exit succeed,
    and the stays of the iterations. *)
Record host_env (R : Type) := mkEnv {
  env_platform : platform;
  env_cpu : Z;
  env_vmptrld : bool;
  env_vmclear : bool;
  env_invept : bool;
  env_cr3 : option Z;
  env_tr_base : Z;
  env_gdtr_base : Z;
  env_host_rsp : Z;
  env_entry_load_pa : Z;
  env_resched : nat → bool;
  env_heap : nat → bool;
  env_stay : nat → run_state → gmap Z Z → Z → R → stay R;
  env_hash_memory : R → Z * Z;
}.
Arguments env_platform {R}. Arguments env_cpu {R}. Arguments env_vmptrld {R}. Arguments env_vmclear {R}. Arguments env_invept {R}.
Arguments env_cr3 {R}. Arguments env_tr_base {R}. Arguments env_gdtr_base {R}. Arguments env_host_rsp {R}.
Arguments env_entry_load_pa {R}. Arguments env_resched {R}. Arguments env_heap {R}. Arguments env_stay {R}. Arguments env_hash_memory {R}.

(** ** Model-specific registers of the host ([MsrAccess]) *)
Definition read_msr_or_0 (msr : Z) n : Z := default 0 (rn_msrs n !! msr).
(** [let _ = msr.write_msr(..)]: a register that does not exist is left alone. *)
Definition write_msr (msr v : Z) n : run_state :=
  match rn_msrs n !! msr with Some _ => with_msrs (<[msr := v]> (rn_msrs n)) n | None => n end.

(** [SyscallMsrs::load] of the guest's and of the host's values, and
    [SyscallMsrs::capture] into the guest's. *)
Definition load_guest_syscall n : run_state :=
  write_msr IA32_FMASK (rn_regs n GuestFmask) (write_msr IA32_CSTAR (rn_regs n GuestCstar)
    (write_msr IA32_LSTAR (rn_regs n GuestLstar) (write_msr IA32_STAR (rn_regs n GuestStar) n))).
Definition load_host_syscall n : run_state :=
  write_msr IA32_FMASK (rn_regs n HostFmask) (write_msr IA32_CSTAR (rn_regs n HostCstar)
    (write_msr IA32_LSTAR (rn_regs n HostLstar) (write_msr IA32_STAR (rn_regs n HostStar) n))).
Definition capture_guest_syscall n : run_state :=
  rset GuestFmask (read_msr_or_0 IA32_FMASK n) (rset GuestCstar (read_msr_or_0 IA32_CSTAR n)
    (rset GuestLstar (read_msr_or_0 IA32_LSTAR n) (rset GuestStar (read_msr_or_0 IA32_STAR n) n))).

(** ** The instruction counter ([instruction_counter.rs]) *)
Definition PERFEVTSEL0_INST_RETIRED_ANY_P : Z := Z.lor (Z.lor (Z.lor (Z.shiftl 1 16) (Z.shiftl 1 17)) (Z.shiftl 1 22)) 0xC0.
Definition PERF_GLOBAL_CTRL_PMC0 : Z := 1.
Definition prepare n : result () InstructionCounterError * run_state :=
  match rn_counter_page n with
  | None => (Ok (), n)
  | Some _ =>
      match rn_msrs n !! IA32_PERF_GLOBAL_CTRL with
      | None => (Err Unavailable, n)
      | Some current_global =>
          let host := Z.ldiff current_global PERF_GLOBAL_CTRL_PMC0 in
          let n := rset GuestPerfGlobalCtrl (Z.lor host PERF_GLOBAL_CTRL_PMC0) (rset HostPerfGlobalCtrl host n) in
          match rn_msrs n !! IA32_PERFEVTSEL0 with
          | None => (Err Unavailable, n)
          | Some saved =>
              (Ok (), with_armed true (write_msr IA32_PERFEVTSEL0 PERFEVTSEL0_INST_RETIRED_ANY_P (rset SavedPerfevtsel0 saved n)))
          end
      end
  end.
Definition finish n : result () InstructionCounterError * run_state :=
  if negb (rn_armed n) then (Ok (), n)
  else
    match rn_msrs n !! IA32_PERFEVTSEL0 with
    | None => (Err RestoreFailed, n)
    | Some _ => (Ok (), with_armed false (write_msr IA32_PERFEVTSEL0 (rn_regs n SavedPerfevtsel0) n))
    end.
Definition counter_read n : Z := match rn_counter_page n with Some _ => rn_regs n MsrData | None => 0 end.
Definition perf_global_ctrl_values n : option (Z * Z) :=
  if rn_armed n then Some (rn_regs n GuestPerfGlobalCtrl, rn_regs n HostPerfGlobalCtrl) else None.

(** ** Computations of the loop *)
Section Run.
Context {R : Type} `{!GuestMem R}.

Definition RM : Type → Type := M (run_state * (Vcpu * R)) VmRunError.
(** A handler, its error wrapped; one on the virtual processor alone. *)
Definition on_guest {A} (wrap : ExitError → VmRunError) (m : GM R A) : RM A := λ '(n, st),
  match m st with
  | (Done a, st') => (Done a, (n, st'))
  | (Fail e, st') => (Fail (wrap e), (n, st'))
  | (Stuck, st') => (Stuck, (n, st'))
  end.
Definition on_cpu {A} (wrap : ExitError → VmRunError) (m : VM A) : RM A := on_guest wrap (on_vcpu m).
(** [let _ = vmcs.write(..)] *)
Definition vmwrite_quiet (f v : Z) : RM () := on_cpu RExitHandler (vmwrite_ignored f v).
Definition on_run (f : run_state → run_state) : RM () := modify (λ '(n, st), (f n, st)).
Definition run_gets {A} (f : run_state → Vcpu → A) : RM A := gets (λ '(n, (s, _)), f n s).
Definition counter_op (f : run_state → result () InstructionCounterError * run_state) : RM () := λ '(n, st),
  match f n with
  | (Ok (), n') => (Done (), (n', st))
  | (Err e, n') => (Fail (RInstructionCounter e), (n', st))
  end.
Definition now : RM Z := on_cpu RExitHandler rdtsc.
Definition spend (t : stat) (cycles : Z) : RM () := on_cpu RExitHandler (modify (bump t cycles)).

(** ** Registers of the guest *)
Definition sync_gprs_to_vmx_ctx : RM () := modify (λ '(n, (s, r)),
  (rset CtxXcr0Mask (vfields s Xcr0Mask) (with_ctx (λ g, if decide (g = RSP) then rn_ctx n RSP else gprs s g) n), (s, r))).
Definition sync_gprs_from_vmx_ctx : RM () := modify (λ '(n, (s, r)),
  (n, (with_gprs (λ g, if decide (g = RSP) then gprs s RSP else rn_ctx n g) s, r))).

(** ** Precise exits around the stay ([exits/pebs.rs]) *)
Definition save_pebs_msrs n : run_state :=
  rset SavedPebsDataCfg (read_msr_or_0 MSR_PEBS_DATA_CFG n) (rset SavedFixedCtr0 (read_msr_or_0 IA32_FIXED_CTR0 n)
    (rset SavedFixedCtrCtrl (read_msr_or_0 IA32_FIXED_CTR_CTRL n) (rset SavedDsArea (read_msr_or_0 IA32_DS_AREA n)
      (rset SavedPebsEnable (read_msr_or_0 IA32_PEBS_ENABLE n) n)))).
Definition restore_pebs_msrs n : run_state :=
  write_msr IA32_PEBS_ENABLE (rn_regs n SavedPebsEnable) (write_msr MSR_PEBS_DATA_CFG (rn_regs n SavedPebsDataCfg)
    (write_msr IA32_DS_AREA (rn_regs n SavedDsArea) (write_msr IA32_FIXED_CTR0 (rn_regs n SavedFixedCtr0)
      (write_msr IA32_FIXED_CTR_CTRL (rn_regs n SavedFixedCtrCtrl) n)))).
(** The registers of the VM-entry MSR-load page, and the values written to it. *)
Definition PEBS_ENTRY_MSR_INDEXES : list Z :=
  [IA32_A_PMC0; IA32_PERF_GLOBAL_CTRL; IA32_FIXED_CTR0; IA32_FIXED_CTR_CTRL; MSR_PEBS_DATA_CFG; IA32_DS_AREA;
   IA32_PERF_GLOBAL_STATUS_RESET; IA32_PEBS_ENABLE; IA32_PERF_GLOBAL_CTRL].
Definition entry_values (p : PebsState) (pmc0 guest_ctrl : Z) : list Z :=
  [pmc0; 0; preg_of p CounterReload; preg_of p FixedCtrCtrl; preg_of p PebsDataCfg; preg_of p DsAreaVa;
   preg_of p PebsEnable; preg_of p PebsEnable; guest_ctrl].
Definition pebs_pre_vm_entry (env : host_env R) : RM () :=
  pmc0_value ← run_gets (λ n _, counter_read n);
  guest_perf_global_ctrl ← on_cpu RExitHandler (unwrap_or 0 (vmread GuestIa32PerfGlobalCtrl));
  pebs ← run_gets (λ _ s, pebs_state s);
  match pebs with
  | None => stuck
  | Some p =>
      on_run save_pebs_msrs;;
      on_run (with_entry_list (entry_values p pmc0_value guest_perf_global_ctrl));;
      vmwrite_quiet VmEntryMsrLoadAddr (env_entry_load_pa env);;
      vmwrite_quiet VmEntryMsrLoadCount 9
  end.
Definition pebs_post_vm_exit : RM () :=
  ic ← run_gets (λ n _, rn_counter_page n);
  match ic with
  | Some ic_phys => vmwrite_quiet VmEntryMsrLoadAddr ic_phys;; vmwrite_quiet VmEntryMsrLoadCount 1
  | None => vmwrite_quiet VmEntryMsrLoadCount 0
  end;;
  pebs ← run_gets (λ _ s, pebs_state s);
  match pebs with None => stuck | Some _ => on_run restore_pebs_msrs end.

(** ** The record of the exit ([finalize_exit_record]) *)
Definition finalize_exit_record (env : host_env R) (skip_memory_hash : bool) : RM () :=
  pending ← run_gets (λ _ s, pending_exit_loc (events s));
  match pending with
  | None => mret ()
  | Some _ =>
      modify (λ '(n, (s, r)),
        let '(hash, cow_page_count) := env_hash_memory env r in
        let memory_hash := if skip_memory_hash then 0 else if bool_decide (exit_trigger s = Disabled) then 0 else hash in
        (n, (with_events (finalize_exit_memory_hash memory_hash (u32 cow_page_count) (events s)) s, r)))
  end.

(** ** The loop *)

(** The guest's stay of iteration [i]; the stub notes that the VMCS is launched. *)
Definition enter (env : host_env R) (i : nat) : RM bool := λ '(n, (s, r)),
  let out := env_stay env i n (vmcs s) (vfields s GuestCr2) r in
  let n := if st_entered out then rset Launched 1 n else n in
  let n' := rset MsrData (st_count out) (with_msrs (st_msrs out) (with_ctx (st_ctx out) n)) in
  (Done (st_entered out), (n', (set_field GuestCr2 (st_cr2 out) (with_vmcs (st_vmcs out) s), st_mem out))).

(** The stay with the registers of precise exits switched around it. *)
Definition guest_window (env : host_env R) (i : nat) (pebs_armed_this_iter : bool) : RM bool :=
  (if pebs_armed_this_iter then pebs_pre_vm_entry env else mret ());;
  entered ← enter env i;
  (if pebs_armed_this_iter then pebs_post_vm_exit else mret ());;
  mret entered.
Definition precise_exit_armed (s : Vcpu) : bool :=
  match pebs_state s with Some p => bool_decide (is_Some (armed_action p)) | None => false end.

Inductive loop_end := Again | Break (r : result ExitReason VmRunError).

Definition iterate (env : host_env R) (skip : bool) (host_kernel_gs_base : Z) (i : nat) : RM loop_end :=
  loop_start_tsc ← now;
  sync_gprs_to_vmx_ctx;;
  on_cpu RExitHandler (inject_pending_interrupt (pf_eax (env_platform env)));;
  pre_entry_tsc ← now;
  spend VmentryOverheadCycles (pre_entry_tsc -| loop_start_tsc);;
  kgs ← run_gets (λ _ s, vfields s KernelGsBase);
  on_run (write_msr IA32_KERNEL_GS_BASE kgs);;
  pebs_armed_this_iter ← run_gets (λ _ s, precise_exit_armed s);
  entered ← guest_window env i pebs_armed_this_iter;
  kgs ← run_gets (λ n _, read_msr_or_0 IA32_KERNEL_GS_BASE n);
  on_cpu RExitHandler (modify (set_field KernelGsBase kgs));;
  on_run (write_msr IA32_KERNEL_GS_BASE host_kernel_gs_base);;
  post_exit_tsc ← now;
  spend GuestCycles (post_exit_tsc -| pre_entry_tsc);;
  pre_irq_tsc ← now;
  count ← run_gets (λ n _, counter_read n);
  on_cpu RExitHandler (modify (set_field LastInstructionCount count));;
  post_irq_tsc ← now;
  spend IrqWindowCycles (post_irq_tsc -| pre_irq_tsc);;
  if negb entered then throw RVmEntry
  else
    sync_gprs_from_vmx_ctx;;
    pre_handler_tsc ← now;
    spend VmexitOverheadCycles ((pre_handler_tsc -| post_exit_tsc) -| (post_irq_tsc -| pre_irq_tsc));;
    result ← on_guest RExitHandler (handle_exit (env_platform env) (env_heap env i));
    match result with
    | Continue =>
        finalize_exit_record env skip;;
        loop_end_tsc ← now;
        spend TotalRunCycles (loop_end_tsc -| loop_start_tsc);;
        mret (if env_resched env i then Break (Ok NeedResched) else Again)
    | ExitToUserspace reason =>
        finalize_exit_record env skip;;
        loop_end_tsc ← now;
        spend TotalRunCycles (loop_end_tsc -| loop_start_tsc);;
        mret (Break (Ok reason))
    | Error e =>
        loop_end_tsc ← now;
        spend TotalRunCycles (loop_end_tsc -| loop_start_tsc);;
        mret (Break (Err (RExitHandler e)))
    end.

(** [fuel] bounds the iterations. *)
Fixpoint loop (env : host_env R) (skip : bool) (host_kernel_gs_base : Z) (fuel i : nat) : RM (result ExitReason VmRunError) :=
  match fuel with
  | O => stuck
  | S fuel =>
      next ← iterate env skip host_kernel_gs_base i;
      match next with Again => loop env skip host_kernel_gs_base fuel (S i) | Break r => mret r end
  end.

Definition write_host_state (env : host_env R) : RM () :=
  match env_cr3 env with
  | None => throw RReadHostCr3
  | Some cr3 =>
      on_cpu RWriteHostCr3 (vmwrite HostCr3 cr3);;
      fs_base ← run_gets (λ n _, read_msr_or_0 IA32_FS_BASE n);
      on_cpu RWriteHostFsBase (vmwrite HostFsBase fs_base);;
      gs_base ← run_gets (λ n _, read_msr_or_0 IA32_GS_BASE n);
      on_cpu RWriteHostGsBase (vmwrite HostGsBase gs_base);;
      on_cpu RWriteHostTrBase (vmwrite HostTrBase (env_tr_base env));;
      on_cpu RWriteHostGdtrBase (vmwrite HostGdtrBase (env_gdtr_base env));;
      on_cpu RWriteHostRsp (vmwrite HostRsp (env_host_rsp env))
  end.
(** The lists that save and load the counter, and the switching of the counters'
    global control. *)
Definition or_control (f bit : Z) : VM () := λ s,
  match vmcs s !! f with Some v => vmwrite_ignored f (Z.lor v bit) s | None => (Done (), s) end.
Definition configure_counter : RM () :=
  page ← run_gets (λ n _, rn_counter_page n);
  (match page with
   | Some entry_phys =>
       vmwrite_quiet VmExitMsrStoreAddr entry_phys;; vmwrite_quiet VmExitMsrStoreCount 1;;
       vmwrite_quiet VmEntryMsrLoadAddr entry_phys;; vmwrite_quiet VmEntryMsrLoadCount 1
   | None => mret ()
   end);;
  ctrl ← run_gets (λ n s, (perf_global_ctrl_values n, bool_decide (is_Some (pebs_state s))));
  match ctrl with
  | (Some (guest_val, host_val), pebs_registered) =>
      vmwrite_quiet GuestIa32PerfGlobalCtrl (if pebs_registered : bool then Z.lor guest_val PERF_GLOBAL_CTRL_FIXED_CTR0 else guest_val);;
      vmwrite_quiet HostIa32PerfGlobalCtrl host_val;;
      on_cpu RExitHandler (or_control VmEntryControls ENTRY_LOAD_IA32_PERF_GLOBAL_CTRL);;
      on_cpu RExitHandler (or_control PrimaryVmExitControls EXIT_LOAD_IA32_PERF_GLOBAL_CTRL)
  | (None, _) => mret ()
  end.

Definition run_loop (env : host_env R) (skip : bool) (host_kernel_gs_base : Z) (fuel : nat) : RM ExitReason :=
  write_host_state env;;
  counter_op prepare;;
  configure_counter;;
  loop_result ← loop env skip host_kernel_gs_base fuel 0;
  finish_result ← λ '(n, st), (let '(r, n') := finish n in (Done r, (n', st)));
  qual ← on_cpu RExitHandler (unwrap_or 0 (vmread ExitQualification));
  on_run (rset LastExitQualification qual);;
  gpa ← on_cpu RExitHandler (unwrap_or 0 (vmread GuestPhysicalAddr));
  on_run (rset LastGuestPhysicalAddr gpa);;
  match finish_result, loop_result with
  | Err e, _ => throw (RInstructionCounter e)
  | Ok _, Ok reason => mret reason
  | Ok _, Err e => throw e
  end.

(** The value of a [Result], as a value. *)
Definition catch {A} (m : RM A) : RM (result A VmRunError) := λ st,
  match m st with
  | (Done a, st') => (Done (Ok a), st')
  | (Fail e, st') => (Done (Err e), st')
  | (Stuck, st') => (Stuck, st')
  end.

(** What [run] does however the loop ended. *)
Definition teardown (env : host_env R) (host_kernel_gs_base : Z) (result : result ExitReason VmRunError) : RM ExitReason :=
  (if env_vmclear env then on_run (with_loaded false) else mret ());;
  on_run (rset Launched 0);;
  on_run capture_guest_syscall;;
  on_run load_host_syscall;;
  on_run (write_msr IA32_KERNEL_GS_BASE host_kernel_gs_base);;
  if negb (env_vmclear env) then throw RVmcsClear
  else match result with Ok reason => mret reason | Err e => throw e end.
(** What comes before the loop; an error in it is returned at once. *)
Definition setup (env : host_env R) : RM () :=
  on_run load_guest_syscall;;
  (if env_vmptrld env then on_run (with_loaded true) else throw RVmcsLoad);;
  last_cpu ← run_gets (λ n _, rn_last_cpu n);
  (if bool_decide (last_cpu = Some (env_cpu env)) then mret ()
   else if env_invept env then on_run (with_last_cpu (Some (env_cpu env))) else throw RInveptFailed);;
  on_cpu RExitHandler apply_intercept_pf;;
  on_cpu RExitHandler (update_mtf_state (pf_eax (env_platform env))).
Definition run (env : host_env R) (skip : bool) (fuel : nat) : RM ExitReason :=
  host_kernel_gs_base ← run_gets (λ n _, read_msr_or_0 IA32_KERNEL_GS_BASE n);
  setup env;;
  result ← catch (run_loop env skip host_kernel_gs_base fuel);
  teardown env host_kernel_gs_base result.
End Run.

(** ** Well-formedness and independence of host time *)
Record run_ok n : Prop := {
  rk_regs g : in_width 64 (rn_regs n g);
  rk_ctx g : in_width 64 (rn_ctx n g);
  rk_page p : rn_counter_page n = Some p → in_width 64 p;
  rk_msrs : map_Forall (λ _ v, in_width 64 v) (rn_msrs n);
}.
Lemma ok_rset g v n : in_width 64 v → run_ok n → run_ok (rset g v n).
Proof. intros Hv []. constructor; try done. intros g'. cbn. by destruct (decide (g' = g)). Qed.
Lemma ok_armed x n : run_ok n → run_ok (with_armed x n).
Proof. intros []. by constructor. Qed.
Lemma ok_loaded x n : run_ok n → run_ok (with_loaded x n).
Proof. intros []. by constructor. Qed.
Lemma ok_last_cpu x n : run_ok n → run_ok (with_last_cpu x n).
Proof. intros []. by constructor. Qed.
Lemma ok_entry_list x n : run_ok n → run_ok (with_entry_list x n).
Proof. intros []. by constructor. Qed.
Lemma ok_ctx x n : (∀ g, in_width 64 (x g)) → run_ok n → run_ok (with_ctx x n).
Proof. intros Hx []. by constructor. Qed.
Lemma ok_msrs x n : map_Forall (λ _ v, in_width 64 v) x → run_ok n → run_ok (with_msrs x n).
Proof. intros Hx []. by constructor. Qed.
Lemma ok_write_msr m v n : in_width 64 v → run_ok n → run_ok (write_msr m v n).
Proof.
  intros Hv Hn. unfold write_msr. destruct (rn_msrs n !! m); [|done]. apply ok_msrs; [|done]. apply map_Forall_insert_2; [done|apply Hn].
Qed.
Lemma ok_read_msr m n : run_ok n → in_width 64 (read_msr_or_0 m n).
Proof. intros Hn. unfold read_msr_or_0. destruct (rn_msrs n !! m) eqn:E; [apply (rk_msrs _ Hn m _ E)|by apply width_const]. Qed.
Lemma ok_counter_read n : run_ok n → in_width 64 (counter_read n).
Proof. intros Hn. unfold counter_read. destruct (rn_counter_page n); [apply Hn|by apply width_const]. Qed.
Create HintDb run_ok.
#[export] Hint Resolve ok_rset ok_armed ok_loaded ok_last_cpu ok_entry_list ok_ctx ok_msrs ok_write_msr ok_read_msr ok_counter_read rk_regs rk_ctx : run_ok.

Lemma ok_load_syscall n : run_ok n → run_ok (load_guest_syscall n) ∧ run_ok (load_host_syscall n).
Proof. intros Hn. unfold load_guest_syscall, load_host_syscall. auto 10 with run_ok. Qed.
Lemma ok_capture_syscall n : run_ok n → run_ok (capture_guest_syscall n).
Proof. intros Hn. unfold capture_guest_syscall. auto 10 with run_ok. Qed.
Lemma ok_save_pebs n : run_ok n → run_ok (save_pebs_msrs n).
Proof. intros Hn. unfold save_pebs_msrs. auto 10 with run_ok. Qed.
Lemma ok_restore_pebs n : run_ok n → run_ok (restore_pebs_msrs n).
Proof. intros Hn. unfold restore_pebs_msrs. auto 10 with run_ok. Qed.
Lemma ok_prepare n : run_ok n → run_ok (prepare n).2.
Proof.
  intros Hn. unfold prepare. destruct (rn_counter_page n); [|done]. destruct (rn_msrs n !! IA32_PERF_GLOBAL_CTRL) as [g|] eqn:Eg; [|done].
  cbv zeta. pose proof (rk_msrs _ Hn _ _ Eg) as Hg. cbv beta in Hg.
  assert (run_ok (rset GuestPerfGlobalCtrl (Z.lor (Z.ldiff g PERF_GLOBAL_CTRL_PMC0) PERF_GLOBAL_CTRL_PMC0)
    (rset HostPerfGlobalCtrl (Z.ldiff g PERF_GLOBAL_CTRL_PMC0) n))) as Hn'.
  { apply ok_rset; [width|]. apply ok_rset; [width|done]. }
  destruct (_ !! IA32_PERFEVTSEL0) as [v|] eqn:Ev; [|done]. cbn [snd]. apply ok_armed, ok_write_msr; [by apply width_const|].
  apply ok_rset; [|done]. apply (rk_msrs _ Hn _ _ Ev).
Qed.
Lemma ok_finish n : run_ok n → run_ok (finish n).2.
Proof.
  intros Hn. unfold finish. destruct (negb _); [done|]. destruct (_ !! _); [|done]. cbn [snd]. auto with run_ok.
Qed.

Section Typed.
Context {R : Type} `{!GuestMem R} `{!GuestMemSpec R}.
Implicit Types (env : host_env R) (r : R).

(** The host's values have the width of their registers, and a stay returns
    values of the width of theirs and memory that is well-formed. *)
Record env_ok env : Prop := {
  eo_platform : platform_ok (env_platform env);
  eo_cr3 v : env_cr3 env = Some v → in_width 64 v;
  eo_tr : in_width 64 (env_tr_base env);
  eo_gdtr : in_width 64 (env_gdtr_base env);
  eo_rsp : in_width 64 (env_host_rsp env);
  eo_load : in_width 64 (env_entry_load_pa env);
  eo_stay i n v c r : run_ok n → map_Forall (λ f x, in_width (field_width f) x) v → in_width 64 c → gm_ok r →
    let out := env_stay env i n v c r in
    (∀ g, in_width 64 (st_ctx out g)) ∧ in_width 64 (st_cr2 out) ∧ map_Forall (λ f x, in_width (field_width f) x) (st_vmcs out) ∧ gm_ok (st_mem out) ∧
    map_Forall (λ _ x, in_width 64 x) (st_msrs out) ∧ in_width 64 (st_count out);
}.

Definition run_rel (st1 st2 : run_state * (Vcpu * R)) : Prop := st1.1 = st2.1 ∧ run_ok st1.1 ∧ simR st1.2 st2.2.
Abbreviation rr := (@rtyped (run_state * (Vcpu * R)) VmRunError run_rel _).

Lemma rr_guest {A} (P : A → Prop) wrap (m1 m2 : GM R A) : rtyped simR P m1 m2 → rr P (on_guest wrap m1) (on_guest wrap m2).
Proof.
  intros Hm [n1 st1] [n2 st2] (Hn & Hok & Hs). cbn in Hn. subst n2. specialize (Hm st1 st2 Hs). unfold on_guest.
  destruct (m1 st1) as [[a|e|] st1'], (m2 st2) as [[a'|e'|] st2']; try done.
  - by destruct Hm as (-> & ? & ?).
  - by destruct Hm as [-> ?].
Qed.
Lemma rr_cpu {A} (P : A → Prop) wrap (m1 m2 : VM A) : vt P m1 m2 → rr P (on_cpu wrap m1) (on_cpu wrap m2).
Proof. intros Hm. by apply rr_guest, gt_vcpu. Qed.
Lemma rr_quiet f v : in_width (field_width f) v → rr (λ _, True) (vmwrite_quiet f v) (vmwrite_quiet f v).
Proof. intros Hv. by apply rr_cpu, vt_vmwrite_ignored. Qed.
Lemma rr_run f : (∀ n, run_ok n → run_ok (f n)) → rr (λ _, True) (on_run f) (on_run f).
Proof.
  intros Hf. apply rt_modify. intros [n1 st1] [n2 st2] (Hn & Hok & Hs). cbn in Hn. subst n2. split; [done|]. split; [|done]. by apply Hf.
Qed.
Lemma rr_gets {A} (P : A → Prop) (f : run_state → Vcpu → A) :
  (∀ e c st n s, f n (upd e c st s) = f n s) → (∀ n s, run_ok n → core_ok s → P (f n s)) → rr P (run_gets f) (run_gets f).
Proof.
  intros He Hf. apply rt_gets. intros [n1 [s1 r1]] [n2 [s2 r2]] (Hn & Hok & Hs & _). cbn in Hn, Hs, Hok. subst n2.
  destruct Hs as [(e & c & st & ->) _ Hc _ _]. rewrite He. auto.
Qed.
Lemma rr_now {B} (Q : B → Prop) (k1 k2 : Z → RM B) : (∀ t1 t2, rr Q (k1 t1) (k2 t2)) → rr Q (now ≫= k1) (now ≫= k2).
Proof.
  intros Hk [n1 [s1 r1]] [n2 [s2 r2]] (Hn & Hok & Hs & Hr & Hg). cbn in Hn, Hok, Hs, Hr, Hg. subst n2 r2.
  unfold mbind, M_bind, now, on_cpu, on_guest, on_vcpu, rdtsc. apply Hk. split; [done|]. split; [done|]. split; [|done]. cbn.
  destruct Hs as [(e & c & st & ->) Hev Hc K1 K2]. split; [by eexists _, _, _|done| |done..]. destruct Hc. by constructor.
Qed.
Lemma rr_spend t c1 c2 : rr (λ _, True) (spend t c1) (spend t c2).
Proof. apply rr_cpu, vt_stats; intros; eexists; reflexivity. Qed.
Lemma rr_counter f : (∀ n, run_ok n → run_ok (f n).2) → rr (λ _, True) (counter_op f) (counter_op f).
Proof.
  intros Hf [n1 st1] [n2 st2] (Hn & Hok & Hs). cbn in Hn. subst n2. specialize (Hf n1 Hok). unfold counter_op. by destruct (f n1) as [[[]|e] n'].
Qed.
Lemma rr_catch {A} (P : A → Prop) (m1 m2 : RM A) : rr P m1 m2 → rr (λ _, True) (catch m1) (catch m2).
Proof.
  intros Hm st1 st2 Hs. specialize (Hm st1 st2 Hs). unfold catch.
  destruct (m1 st1) as [[a|e|] st1'], (m2 st2) as [[a'|e'|] st2']; try done; [by destruct Hm as (-> & _ & ?)|by destruct Hm as [-> ?]].
Qed.

Ltac rr_one :=
  match goal with
  | |- rtyped _ _ (mret _) _ => apply rt_ret; try done
  | |- rtyped _ _ (throw _) _ => apply rt_throw
  | |- rtyped _ _ (now ≫= _) _ => apply rr_now; intros ? ?
  | |- rtyped _ _ (@mbind _ _ () _ _ _) _ => apply (rt_bind run_rel (λ _, True)); [|intros _ _]
  | |- rtyped _ _ (on_run _) _ => apply rr_run; intros; auto with run_ok
  | |- rtyped _ _ (spend _ _) _ => apply rr_spend
  | |- rtyped _ _ (vmwrite_quiet _ _) _ => apply rr_quiet; try width
  | |- rtyped _ _ (on_cpu _ _) _ => apply rr_cpu; vt_go
  | |- rtyped _ _ (if ?b then _ else _) (if ?b then _ else _) => destruct b eqn:?
  | |- rtyped _ _ (match ?o with Some _ => _ | None => _ end) (match ?o with Some _ => _ | None => _ end) => destruct o eqn:?
  end.
Ltac rr_go := repeat (cbv beta zeta; rr_one).
(** A read whose value fits 64 bits. *)
Ltac rr_read := eapply (rt_bind run_rel (in_width 64)); [apply rr_gets; [reflexivity|auto with run_ok]|intros ? ?].

(** The stay, when precise exits are armed only on a processor that has them. *)
Definition rel_pebs (st1 st2 : run_state * (Vcpu * R)) : Prop := run_rel st1 st2 ∧ is_Some (pebs_state st1.2.1).
Definition has_pebs (st : run_state * (Vcpu * R)) : Prop := is_Some (pebs_state st.2.1).
Lemma rp_of {A} (P : A → Prop) (m : RM A) :
  rr P m m → (∀ st, pebs_state (m st).2.2.1 = pebs_state st.2.1) → rtyped rel_pebs P m m.
Proof.
  intros Hm Hk st1 st2 [Hs Hp]. specialize (Hm st1 st2 Hs). pose proof (Hk st1) as H1.
  destruct (m st1) as [[a|e|] st1'], (m st2) as [[a'|e'|] st2']; try done; cbn in H1; unfold rel_pebs; rewrite H1.
  - destruct Hm as (? & ? & ?). done.
  - destruct Hm as (? & ?). done.
Qed.
Lemma keeps_quiet f v st : pebs_state ((vmwrite_quiet (R := R) f v) st).2.2.1 = pebs_state st.2.1.
Proof.
  destruct st as [n [s r]]. unfold vmwrite_quiet, on_cpu, on_guest, on_vcpu, vmwrite_ignored, unwrap_or, vmwrite. by destruct (vmcs s !! f).
Qed.
Lemma rr_enter env i : env_ok env → rr (λ _, True) (enter env i) (enter env i).
Proof.
  intros He [n1 [s1 r1]] [n2 [s2 r2]] (Hn & Hok & Hs & Hr & Hg). cbn in Hn, Hok, Hs, Hr, Hg. subst n2 r2.
  destruct Hs as [(e & c & st & ->) Hev Hc K1 K2]. unfold enter. cbv zeta. change (vmcs (upd e c st s1)) with (vmcs s1). change (vfields (upd e c st s1)) with (vfields s1).
  destruct (eo_stay _ He i n1 (vmcs s1) (vfields s1 GuestCr2) r1 Hok (vk_vmcs _ Hc) (vk_fields _ Hc GuestCr2) Hg) as (Hx & Hcr & Hv & Hm & Hms & Hct). split; [done|]. split; [done|].
  split; [done|]. split; [cbn [fst]; destruct (st_entered _); auto 10 using width_const with run_ok|]. split; [|done]. split; [by exists e, c, st|done| |done|done].
  apply core_set_field; [done|]. destruct Hc. by constructor.
Qed.
Lemma rp_pebs {B} (Q : B → Prop) (k : PebsState → RM B) :
  (∀ p, pebs_ok p → rtyped rel_pebs Q (k p) (k p)) →
  rtyped rel_pebs Q (run_gets (λ _ s, pebs_state s) ≫= λ o, match o with None => stuck | Some p => k p end)
    (run_gets (λ _ s, pebs_state s) ≫= λ o, match o with None => stuck | Some p => k p end).
Proof.
  intros Hk [n1 [s1 r1]] [n2 [s2 r2]] [(Hn & Hok & Hs & Hr) [p Hp]]. cbn in Hp. pose proof Hs as [(e & c & st & E) _ Hc _ _]. cbn in E, Hc.
  unfold mbind, M_bind, run_gets, gets. rewrite E. cbn [pebs_state upd with_stats with_clock with_events]. rewrite Hp. rewrite <-E.
  apply Hk; [by apply (vk_pebs _ Hc)|]. split; [done|]. by exists p.
Qed.
Lemma rp_window env i : env_ok env → rtyped rel_pebs (λ _, True) (guest_window env i true) (guest_window env i true).
Proof.
  intros He. unfold guest_window, pebs_pre_vm_entry, pebs_post_vm_exit.
  apply (rt_bind rel_pebs (λ _, True)); [|intros _ _; apply (rt_bind rel_pebs (λ _, True)); [|intros entered _]].
  - eapply (rt_bind rel_pebs (in_width 64)); [apply rp_of; [apply rr_gets; [reflexivity|auto with run_ok]|done]|intros pmc0 Hpm].
    eapply (rt_bind rel_pebs (in_width 64)); [apply rp_of|intros gctrl Hg].
    { apply rr_cpu, (vt_unwrap_or (in_width 64)); [by apply width_const|]. apply (vt_vmread GuestIa32PerfGlobalCtrl). }
    { intros [n [s r]]. unfold on_cpu, on_guest, on_vcpu, unwrap_or, vmread. by destruct (vmcs s !! _). }
    apply rp_pebs. intros p Hp.
    apply (rt_bind rel_pebs (λ _, True)); [apply rp_of; [apply rr_run, ok_save_pebs|by intros [? []]]|intros _ _].
    apply (rt_bind rel_pebs (λ _, True)); [apply rp_of; [apply rr_run; auto with run_ok|by intros [? []]]|intros _ _].
    apply (rt_bind rel_pebs (λ _, True)); [|intros _ _]; apply rp_of; try apply keeps_quiet; apply rr_quiet; [apply (eo_load _ He)|by apply width_const].
  - apply rp_of; [by apply rr_enter|]. by intros [n [s r]].
  - apply (rt_bind rel_pebs (λ _, True)); [|by intros _ _; apply rt_ret].
    eapply (rt_bind rel_pebs (λ ic, ∀ p, ic = Some p → in_width 64 p)).
    { apply rp_of; [|done]. apply rr_gets; [done|]. intros n s Hn _. apply Hn. }
    intros ic Hic. apply (rt_bind rel_pebs (λ _, True)).
    + destruct ic as [p|]; [apply (rt_bind rel_pebs (λ _, True)); [|intros _ _]|]; apply rp_of; try apply keeps_quiet; apply rr_quiet;
        first [by apply Hic|by apply width_const].
    + intros _ _. apply rp_pebs. intros p Hp. apply rp_of; [|by intros [? []]]. apply rr_run, ok_restore_pebs.
Qed.
Lemma rr_window env i :
  env_ok env → rr (λ _, True) (run_gets (λ _ s, precise_exit_armed s) ≫= guest_window env i)
    (run_gets (λ _ s, precise_exit_armed s) ≫= guest_window env i).
Proof.
  intros He st1 st2 Hs. pose proof (rp_window env i He st1 st2) as Hw. destruct st1 as [n1 [s1 r1]], st2 as [n2 [s2 r2]].
  pose proof Hs as (Hn & Hok & [(e & c & st & E) _ Hc _ _] & Hr). cbn in Hn, E. unfold mbind, M_bind, run_gets, gets.
  assert (precise_exit_armed s2 = precise_exit_armed s1) as -> by (by rewrite E).
  destruct (precise_exit_armed s1) eqn:Ha.
  - assert (is_Some (pebs_state s1)) as Hp by (unfold precise_exit_armed in Ha; by destruct (pebs_state s1)).
    specialize (Hw (conj Hs Hp)).
    destruct (guest_window env i true (n1, (s1, r1))) as [[a|e1|] st1'], (guest_window env i true (n2, (s2, r2))) as [[a'|e2|] st2']; try done.
    + destruct Hw as (? & ? & ? & ?). done.
    + destruct Hw as (? & ? & ?). done.
  - enough (rr (λ _, True) (guest_window env i false) (guest_window env i false)) as H by exact (H _ _ Hs). unfold guest_window. rr_go. apply (rt_bind run_rel (λ _, True)); [by apply rr_enter|].
    intros. rr_go.
Qed.

Lemma pending_exit_sim s1 s2 : sim s1 s2 →
  match pending_exit_loc (events s1), pending_exit_loc (events s2) with Some _, Some _ | None, None => True | _, _ => False end.
Proof.
  intros [_ (a & a' & H1 & H2 & He) _ _ _]. pose proof (rf_exit _ _ H1) as E1. pose proof (rf_exit _ _ H2) as E2.
  pose proof (f_equal a_exit He) as Hx. cbn in Hx. rewrite <-Hx in E2.
  by destruct (pending_exit_loc (events s1)) as [[]|], (pending_exit_loc (events s2)) as [[]|], (a_exit a) as [[]|].
Qed.
Lemma rr_finalize env skip : rr (λ _, True) (finalize_exit_record env skip) (finalize_exit_record env skip).
Proof.
  intros [n1 [s1 r1]] [n2 [s2 r2]] (Hn & Hok & Hs & Hr & Hg). cbn in Hn, Hok, Hs, Hr, Hg. subst n2 r2.
  unfold finalize_exit_record, mbind, M_bind, run_gets, gets. pose proof (pending_exit_sim s1 s2 Hs) as Hp.
  destruct (pending_exit_loc (events s1)), (pending_exit_loc (events s2)); try done. unfold modify. destruct (env_hash_memory env r1) as [hash cow].
  pose proof Hs as [(ev & c & st & ->) Hev Hc K1 K2]. cbv zeta.
  set (mh := if skip then 0 else _). change (if skip then 0 else if bool_decide (exit_trigger (upd ev c st s1) = Disabled) then 0 else hash) with mh.
  pose proof (vt_log_op (finalize_exit_memory_hash mh (u32 cow)) (OFinalize mh (u32 cow)) ltac:(done) ltac:(done) s1 (upd ev c st s1) Hs) as (_ & _ & Hf).
  done.
Qed.
Lemma rr_prepare_gprs : rr (λ _, True) sync_gprs_to_vmx_ctx sync_gprs_to_vmx_ctx.
Proof.
  apply rt_modify. intros [n1 [s1 r1]] [n2 [s2 r2]] (Hn & Hok & Hs & Hr). cbn in Hn, Hok, Hs, Hr. subst n2.
  pose proof Hs as [(e & c & st & ->) _ Hc _ _]. split; [done|]. split; [|done]. cbn [fst]. apply ok_rset; [by apply (vk_fields _ Hc Xcr0Mask)|].
  apply ok_ctx; [|done]. intros g. destruct (decide (g = RSP)); [apply Hok|apply Hc].
Qed.
Lemma rr_take_gprs : rr (λ _, True) sync_gprs_from_vmx_ctx sync_gprs_from_vmx_ctx.
Proof.
  apply rt_modify. intros [n1 [s1 r1]] [n2 [s2 r2]] (Hn & Hok & Hs & Hr). cbn in Hn, Hok, Hs, Hr. subst n2.
  split; [done|]. split; [done|]. split; [|done]. cbn [fst snd].
  apply (sim_modify_at (λ s, with_gprs (λ g, if decide (g = RSP) then gprs s RSP else rn_ctx n1 g) s)); try done.
  pose proof (sm_core _ _ Hs) as Hc. apply core_gprs; [|done]. intros g. destruct (decide (g = RSP)); [apply Hc|apply Hok].
Qed.

(** An iteration goes on only if the scheduler does not want the processor. *)
Lemma rr_iterate env skip kgs i :
  env_ok env → in_width 64 kgs → rr (λ e, e = Again → env_resched env i = false) (iterate env skip kgs i) (iterate env skip kgs i).
Proof.
  intros He Hk. unfold iterate. do 2 rr_one; [apply rr_prepare_gprs|]. rr_one; [rr_go|]. do 2 rr_one; [rr_one|].
  eapply (rt_bind run_rel (in_width 64)); [apply rr_gets; [reflexivity|]; intros n s _ Hs; apply (vk_fields _ Hs KernelGsBase)|intros g Hg].
  rr_one; [rr_one|].
  match goal with |- rtyped _ _ (run_gets ?f ≫= λ b, guest_window env i b ≫= ?k1) (_ ≫= λ b', _ ≫= ?k2) =>
    enough (rr (λ e, e = Again → env_resched env i = false) ((run_gets f ≫= guest_window env i) ≫= k1) ((run_gets f ≫= guest_window env i) ≫= k2)) as H
  end.
  { intros st1 st2 Hs. specialize (H st1 st2 Hs). exact H. }
  apply (rt_bind run_rel (λ _, True)); [by apply rr_window|]. intros entered _.
  rr_read. rr_one; [apply rr_cpu; vt_go|]. rr_one; [rr_one|]. do 2 rr_one; [rr_one|]. rr_one.
  rr_read. rr_one; [apply rr_cpu; vt_go|]. do 2 rr_one; [rr_one|]. rr_one; [rr_one|]. rr_one; [apply rr_take_gprs|]. do 2 rr_one; [rr_one|].
  apply (rt_bind run_rel (λ _, True)); [apply rr_guest, gt_handle_exit, He|]. intros result _.
  destruct result; rr_go; try apply rr_finalize. by destruct (env_resched env i).
Qed.
(** Enough fuel: the scheduler asks for the processor within it. *)
Lemma rr_loop env skip kgs fuel i :
  env_ok env → in_width 64 kgs → (∃ k, (i ≤ k < i + fuel)%nat ∧ env_resched env k = true) →
  rr (λ _, True) (loop env skip kgs fuel i) (loop env skip kgs fuel i).
Proof.
  intros He Hk. revert i. induction fuel as [|fuel IH]; intros i (k & Hik & Hrk); [lia|]. cbn [loop].
  eapply rt_bind; [by apply rr_iterate|]. intros [|res] Hres; [|by apply rt_ret]. apply IH. exists k. split; [|done].
  specialize (Hres eq_refl). assert (k ≠ i) by congruence. lia.
Qed.
Lemma rr_host_state env : env_ok env → rr (λ _, True) (write_host_state env) (write_host_state env).
Proof.
  intros [? Hc ? ? ? ?]. unfold write_host_state. destruct (env_cr3 env) as [v|]; [|apply rt_throw]. specialize (Hc v eq_refl).
  rr_one; [rr_go|]. rr_read. rr_one; [rr_go|]. rr_read. rr_go.
Qed.
Lemma vt_or_control f bit :
  0 ≤ field_width f → in_width (field_width f) bit → vt (λ _, True) (or_control f bit) (or_control f bit).
Proof.
  intros H0 Hb s1 s2 Hs. pose proof Hs as [(e & c & st & E) _ Hc _ _]. unfold or_control.
  assert (vmcs s2 = vmcs s1) as -> by (by rewrite E). destruct (vmcs s1 !! f) as [v|] eqn:Ev; [|done].
  apply vt_vmwrite_ignored; [|done]. apply in_width_lor; [done| |done]. apply (vk_vmcs _ Hc f v Ev).
Qed.
Lemma rr_configure : rr (λ _, True) configure_counter configure_counter.
Proof.
  unfold configure_counter.
  eapply (rt_bind run_rel (λ ic, ∀ p, ic = Some p → in_width 64 p)); [apply rr_gets; [done|]; intros n s Hn _; apply Hn|].
  intros ic Hic. rr_one.
  { destruct ic as [p|]; [specialize (Hic p eq_refl)|]; rr_go. }
  eapply (rt_bind run_rel (λ c, ∀ g h, c.1 = Some (g, h) → in_width 64 g ∧ in_width 64 h)).
  { apply rr_gets; [done|]. intros n s Hn _ g h. cbn. unfold perf_global_ctrl_values. destruct (rn_armed n); [|done]. intros [= <- <-]. split; apply Hn. }
  intros [[[g h]|] b] Hc; [|rr_go]. destruct (Hc g h eq_refl) as [Hg Hh]. rr_go; apply vt_or_control; by try apply width_const.
Qed.
Lemma rr_run_loop env skip kgs fuel :
  env_ok env → in_width 64 kgs → (∃ k, (k < fuel)%nat ∧ env_resched env k = true) →
  rr (λ _, True) (run_loop env skip kgs fuel) (run_loop env skip kgs fuel).
Proof.
  intros He Hk (k & Hik & Hrk). unfold run_loop. rr_one; [by apply rr_host_state|]. rr_one; [apply rr_counter, ok_prepare|].
  rr_one; [apply rr_configure|]. apply (rt_bind run_rel (λ _, True)); [apply rr_loop; try done; exists k; split; [lia|done]|]. intros res _.
  apply (rt_bind run_rel (λ _, True)).
  { intros [n1 st1] [n2 st2] (Hn & Hok & Hs). cbn in Hn. subst n2. pose proof (ok_finish n1 Hok) as Hf. by destruct (finish n1) as [x n']. }
  intros fin _. eapply (rt_bind run_rel (in_width 64)).
  { apply rr_cpu, (vt_unwrap_or (in_width 64)); [by apply width_const|]. apply (vt_vmread ExitQualification). }
  intros q Hq. rr_one; [rr_one|]. eapply (rt_bind run_rel (in_width 64)).
  { apply rr_cpu, (vt_unwrap_or (in_width 64)); [by apply width_const|]. apply (vt_vmread GuestPhysicalAddr). }
  intros g Hg. rr_one; [rr_one|]. destruct fin, res; rr_go.
Qed.
Lemma rr_setup env : rr (λ _, True) (setup env) (setup env).
Proof.
  unfold setup. rr_one; [apply rr_run; intros n Hn; apply (ok_load_syscall n Hn)|]. rr_one; [rr_go|].
  apply (rt_bind run_rel (λ _, True)); [apply rr_gets; done|]. intros cpu _. rr_go.
Qed.
Lemma rr_vm_run env skip fuel :
  env_ok env → (∃ k, (k < fuel)%nat ∧ env_resched env k = true) → rr (λ _, True) (run env skip fuel) (run env skip fuel).
Proof.
  intros He Hf. unfold run. rr_read. rr_one; [apply rr_setup|].
  apply (rt_bind run_rel (λ _, True)); [by eapply rr_catch, rr_run_loop|]. intros res _. unfold teardown. rr_one; [rr_go|].
  rr_one; [apply rr_run; intros n Hn; apply ok_rset; [by apply width_const|done]|].
  rr_one; [apply rr_run; apply ok_capture_syscall|]. rr_one; [apply rr_run; intros n Hn; apply (ok_load_syscall n Hn)|]. rr_one; [rr_one|].
  rr_one; [rr_go|]. destruct res; rr_go.
Qed.
End Typed.

(** ** Theorems *)
Section Theorems.
Context {R : Type} `{!GuestMem R} `{!GuestMemSpec R}.
Implicit Types (env : host_env R) (r : R).

(** A run returns.  If the scheduler asks for the processor after some
    iteration, [run] ends by then at the latest: it returns a reason or an error,
    never panics on an absent PEBS state or loops on, and leaves the registers,
    the virtual processor and memory well-formed.  The number of iterations is
    what bounds it: each ends, whatever the guest did in its stay. *)
Lemma run_returns env skip fuel n s r :
  env_ok env → run_ok n → vcpu_ok s → gm_ok r → (∃ k, (k < fuel)%nat ∧ env_resched env k = true) →
  ∃ o n' s' r', run env skip fuel (n, (s, r)) = (o, (n', (s', r'))) ∧ o ≠ Stuck ∧ run_ok n' ∧ vcpu_ok s' ∧ gm_ok r'.
Proof.
  intros He Hn Hs Hr Hf. pose proof (rr_vm_run env skip fuel He Hf (n, (s, r)) (n, (s, r)) (conj eq_refl (conj Hn (simR_refl s r Hs Hr)))) as H.
  destruct (run env skip fuel (n, (s, r))) as [o [n' [s' r']]] eqn:E. exists o, n', s', r'. split; [done|].
  destruct o as [a|e|]; [destruct H as (_ & _ & _ & Hok & Hsim & _ & Hg)|destruct H as (_ & _ & Hok & Hsim & _ & Hg)|done].
  all: split; [done|]; split; [done|]; split; [|done]; by destruct (sim_ok _ _ Hsim).
Qed.

(** C3: a run is deterministic.  Two runs of VMs that agree on everything but the
    host's clock, the statistics and the host times in their logs, in which the
    guest's stays are the same function of what they are given, end the same way,
    with the same reason or error, the same registers, the same memory, and agree
    on everything but those again.  How the loop composes injection, arming,
    synchronisation of registers, dispatch and recording lets no host time
    through. *)
Theorem run_deterministic env skip fuel n s1 s2 r :
  env_ok env → run_ok n → sim s1 s2 → gm_ok r → (∃ k, (k < fuel)%nat ∧ env_resched env k = true) →
  ∃ o n' s1' s2' r', run env skip fuel (n, (s1, r)) = (o, (n', (s1', r'))) ∧ run env skip fuel (n, (s2, r)) = (o, (n', (s2', r'))) ∧ sim s1' s2'.
Proof.
  intros He Hn Hs Hr Hf. pose proof (rr_vm_run env skip fuel He Hf (n, (s1, r)) (n, (s2, r)) (conj eq_refl (conj Hn (conj Hs (conj eq_refl Hr))))) as H.
  destruct (run env skip fuel (n, (s1, r))) as [o1 [n1 [s1' r1]]], (run env skip fuel (n, (s2, r))) as [o2 [n2 [s2' r2]]].
  destruct o1 as [a|e|], o2 as [a'|e'|]; try done; [destruct H as (<- & _ & E & _ & Hsim & Er & _)|destruct H as (<- & E & _ & Hsim & Er & _)];
    cbn in E, Er, Hsim; subst n2 r2; by eexists _, n1, s1', s2', r1.
Qed.
End Theorems.

(** *** A host, and a guest that executes CPUID *)
Definition demo_host_fields : list Z :=
  [HostCr3; HostFsBase; HostGsBase; HostTrBase; HostGdtrBase; HostRsp; VmEntryMsrLoadAddr; VmEntryMsrLoadCount; VmExitMsrStoreAddr;
   VmExitMsrStoreCount; HostIa32PerfGlobalCtrl; GuestIa32PerfGlobalCtrl; VmEntryControls; PrimaryVmExitControls].
Definition demo_launch : Vcpu :=
  with_vmcs (foldr (λ f m, <[f := 0]> m) (vmcs (demo_exit 10)) demo_host_fields) (demo_exit 10).
Lemma demo_launch_ok : vcpu_ok demo_launch.
Proof.
  destruct (demo_exit_ok 10 ltac:(by apply width_const)) as [Hc He Hk]. constructor; [|done|done].
  assert (∀ m0 : gmap Z Z, map_Forall (λ f v, in_width (field_width f) v) m0 → map_Forall (λ f v, in_width (field_width f) v) (foldr (λ f m, <[f := 0]> m) m0 demo_host_fields)) as Hv.
  { intros m0 H0. unfold demo_host_fields. cbn [foldr]. by repeat (apply map_Forall_insert_2; [by apply width_const|]). }
  specialize (Hv _ (vk_vmcs _ Hc)). destruct Hc. by constructor.
Qed.
Definition demo_msrs : gmap Z Z :=
  list_to_map [(IA32_STAR, 1); (IA32_LSTAR, 2); (IA32_CSTAR, 3); (IA32_FMASK, 4); (IA32_KERNEL_GS_BASE, 5); (IA32_FS_BASE, 6); (IA32_GS_BASE, 7);
    (IA32_PERFEVTSEL0, 8); (IA32_PERF_GLOBAL_CTRL, 9); (IA32_DS_AREA, 10); (IA32_FIXED_CTR_CTRL, 11)].
Definition demo_run : run_state :=
  mkRun (λ g, match g with HostStar => 1 | HostLstar => 2 | HostCstar => 3 | HostFmask => 4 | _ => 0 end) (λ _, 0) (Some 0x5000) false false None [] demo_msrs.
Lemma demo_run_ok : run_ok demo_run.
Proof.
  constructor; [by intros []; apply width_const|intros g; by apply (width_const 64 0)|intros p [= <-]; by apply width_const|].
  apply map_Forall_lookup_2. intros m v Hv. apply elem_of_list_to_map_2 in Hv. cbn in Hv.
  repeat (apply elem_of_cons in Hv as [[= -> ->]|Hv]; [by apply width_const|]). by apply not_elem_of_nil in Hv.
Qed.
(** The guest sets LSTAR and executes CPUID; or the entry fails. *)
Definition demo_stay (ok : bool) (i : nat) (n : run_state) (v : gmap Z Z) (cr2 : Z) (r : machine Ept.bump Z) : stay (machine Ept.bump Z) :=
  mkStay ok (rn_ctx n) cr2 v r (if ok then match rn_msrs n !! IA32_LSTAR with Some _ => <[IA32_LSTAR := 0x1234]> (rn_msrs n) | None => rn_msrs n end else rn_msrs n) 5.
Definition demo_env (ok : bool) : host_env (machine Ept.bump Z) :=
  mkEnv _ demo_platform 0 true true true (Some 0x7000) 1 2 3 0x6000 (λ i, Nat.eqb i 0) (λ _, true) (demo_stay ok) (λ _, (0, 0)).
Lemma demo_env_ok ok : env_ok (demo_env ok).
Proof.
  constructor; try (by apply width_const); [apply demo_platform_ok|by intros v [= <-]; apply width_const|].
  intros i n v c r Hn Hv Hc Hr. cbn. split; [apply Hn|]. split; [done|]. split; [done|]. split; [done|]. split; [|by apply width_const].
  destruct ok; [|apply Hn]. destruct (rn_msrs n !! IA32_LSTAR); [|apply Hn]. apply map_Forall_insert_2; [by apply width_const|apply Hn].
Qed.
Lemma run_deterministic_witness : ∃ n' s1 s2 r',
  run (demo_env true) true 1 (demo_run, (demo_launch, demo_guest)) = (Done NeedResched, (n', (s1, r'))) ∧
  run (demo_env true) true 1 (demo_run, (demo_later demo_launch, demo_guest)) = (Done NeedResched, (n', (s2, r'))) ∧ gprs s1 RAX = gprs s2 RAX.
Proof.
  destruct (run_deterministic (demo_env true) true 1 demo_run demo_launch (demo_later demo_launch) demo_guest (demo_env_ok true) demo_run_ok
    (demo_later_sim _ demo_launch_ok) demo_guest_ok (ex_intro _ 0%nat (conj (le_n 1) eq_refl))) as (o & n' & s1 & s2 & r' & E1 & E2 & Hs).
  assert ((run (demo_env true) true 1 (demo_run, (demo_launch, demo_guest))).1 = Done NeedResched) as H by (vm_compute; reflexivity).
  rewrite E1 in H. cbn in H. subst o. exists n', s1, s2, r'. destruct Hs as [(e & c & st & ->) _ _ _ _]. exact (conj E1 (conj E2 eq_refl)).
Defined.
