(* ===== verification/HostState.v ===== *)
(** * What the host finds after a run (crate [bedrock-vmx]: [traits/vm_run.rs])

    A run borrows the processor: it loads the guest's values of the registers the
    VMCS does not hold, programs a counter and, around an armed stay, the
    registers of PEBS.  The theorem: however the run ends the host finds every
    register as it was but the counting ones.  What a stay may change is a
    hypothesis on the hardware, [hardware_ok]: the registers the MSR bitmap lets
    through, those the entry list loads, those exchanged with the VMCS, the
    counting ones.  That no handler redirects the host state or the lists is the
    confinement of [Footprint].  Two early returns that skip the restoration are
    shown at the end. *)
From stdpp Require Import strings.
From S2P Require Import Prelude Wire EventLog Random Rtc Apic Vcpu GuestMem Relational Precise Handlers Safety Emulation Mmio ExitLog IoChannel Vmcall Dispatch Footprint Run.
Implicit Types (n : run_state) (s : Vcpu).

(** ** Registers and promises *)

(** The registers the guest uses directly, without an exit; those that hardware
    exchanges with a field of the VMCS; the counting ones. *)
Definition direct : list Z := [IA32_STAR; IA32_LSTAR; IA32_CSTAR; IA32_FMASK; IA32_KERNEL_GS_BASE].
Definition swapped : list (Z * Z) :=
  [(IA32_FS_BASE, HostFsBase); (IA32_GS_BASE, HostGsBase); (IA32_SYSENTER_CS, HostIa32SysenterCs);
   (IA32_SYSENTER_ESP, HostIa32SysenterEsp); (IA32_SYSENTER_EIP, HostIa32SysenterEip); (IA32_EFER, HostIa32Efer)].
Definition counting : list Z :=
  [IA32_PMC0; IA32_A_PMC0; IA32_FIXED_CTR0; IA32_PERF_GLOBAL_STATUS; IA32_PERF_GLOBAL_STATUS_RESET; IA32_PERF_GLOBAL_CTRL; IA32_PEBS_ENABLE].

(** Bits 11:10 of a field's encoding: control, exit information, guest state or
    host state.  A stay writes the second and third, and clears the event it
    delivered. *)
Definition field_type (f : Z) : Z := Z.land (Z.shiftr f 10) 3.
Definition hypervisor_field (f : Z) : bool :=
  ((field_type f =? 0) || (field_type f =? 3)) && negb (f =? VmEntryInterruptionInfo).

Section Host.
Context {R : Type} `{!GuestMem R}.
Implicit Types (env : host_env R) (r : R).

(** What the processor and the MSR bitmap promise of a stay. *)
Record hardware_ok env : Prop := {
  hw_vmcs i n v c r f : hypervisor_field f = true → st_vmcs (env_stay env i n v c r) !! f = v !! f;
  hw_exists i n v c r m : is_Some (st_msrs (env_stay env i n v c r) !! m) ↔ is_Some (rn_msrs n !! m);
  hw_swapped i n v c r m f : (m, f) ∈ swapped →
    st_msrs (env_stay env i n v c r) !! m = rn_msrs n !! m ∨ is_Some (rn_msrs n !! m) ∧ st_msrs (env_stay env i n v c r) !! m = v !! f;
  hw_other i n v c r m : m ∉ direct → m ∉ swapped.*1 → m ∉ counting →
    m ∉ take (Z.to_nat (default 0 (v !! VmEntryMsrLoadCount))) PEBS_ENTRY_MSR_INDEXES →
    st_msrs (env_stay env i n v c r) !! m = rn_msrs n !! m;
}.

(** The state between runs: the counter is not armed, the host's values of the
    registers the guest uses are the ones saved when the VM was created, the VMCS
    has the host's values of the exchanged ones, and the VM-entry list is not the
    one of precise exits. *)
Record at_rest n s : Prop := {
  ar_armed : rn_armed n = false;
  ar_star v : rn_msrs n !! IA32_STAR = Some v → rn_regs n HostStar = v;
  ar_lstar v : rn_msrs n !! IA32_LSTAR = Some v → rn_regs n HostLstar = v;
  ar_cstar v : rn_msrs n !! IA32_CSTAR = Some v → rn_regs n HostCstar = v;
  ar_fmask v : rn_msrs n !! IA32_FMASK = Some v → rn_regs n HostFmask = v;
  ar_swapped m f v : (m, f) ∈ swapped → m ≠ IA32_FS_BASE → m ≠ IA32_GS_BASE → rn_msrs n !! m = Some v → vmcs s !! f = Some v;
  ar_list c : vmcs s !! VmEntryMsrLoadCount = Some c → c ≤ 1;
  ar_primary : is_Some (vmcs s !! PrimaryProcBasedVmExecControls);
}.

(** The phases of a run.  [Start], [StartFs] and [Ready]: before the counter is
    prepared, with none, one and both of the host's bases in the VMCS; [Looping];
    [Window] and [Leaving]: around an armed stay, with the long and then again the
    short entry list; [Setup]: what an error leaves. *)
Inductive phase := Setup | Start | StartFs | Ready | Looping | Window | Leaving.
Definition around_stay (ph : phase) : bool := match ph with Window | Leaving => true | _ => false end.
Definition idle (ph : phase) : bool := match ph with Start | StartFs | Ready => true | _ => false end.
Definition unwritten (ph : phase) : list Z :=
  match ph with Setup | Start => [IA32_FS_BASE; IA32_GS_BASE] | StartFs => [IA32_GS_BASE] | _ => [] end.
Definition pebs_msrs : list Z := [IA32_FIXED_CTR_CTRL; MSR_PEBS_DATA_CFG; IA32_DS_AREA].
Definition host_regs : list rreg := [HostStar; HostLstar; HostCstar; HostFmask].
Record in_run (ph : phase) n0 n s : Prop := {
  ir_exists m : is_Some (rn_msrs n !! m) ↔ is_Some (rn_msrs n0 !! m);
  ir_same m : m ∉ direct → m ∉ counting → m ≠ IA32_PERFEVTSEL0 → (around_stay ph = true → m ∉ pebs_msrs) → rn_msrs n !! m = rn_msrs n0 !! m;
  ir_host g : g ∈ host_regs → rn_regs n g = rn_regs n0 g;
  ir_counter : if rn_armed n then rn_regs n SavedPerfevtsel0 = read_msr_or_0 IA32_PERFEVTSEL0 n0
               else rn_msrs n !! IA32_PERFEVTSEL0 = rn_msrs n0 !! IA32_PERFEVTSEL0;
  ir_swapped m f v : (m, f) ∈ swapped → m ∉ unwritten ph → rn_msrs n0 !! m = Some v → vmcs s !! f = Some v;
  ir_list c : ph ≠ Window → vmcs s !! VmEntryMsrLoadCount = Some c → c ≤ 1;
  ir_saved : around_stay ph = true → rn_regs n SavedFixedCtrCtrl = read_msr_or_0 IA32_FIXED_CTR_CTRL n0 ∧
    rn_regs n SavedPebsDataCfg = read_msr_or_0 MSR_PEBS_DATA_CFG n0 ∧ rn_regs n SavedDsArea = read_msr_or_0 IA32_DS_AREA n0;
  ir_idle : idle ph = true → rn_armed n = false;
  ir_primary : is_Some (vmcs s !! PrimaryProcBasedVmExecControls);
}.

Section Moves.
Context (n0 : run_state).
(** From one phase to another; an error leaves what the first phase has. *)
Definition moves {A} (ph ph' : phase) (m : RM (R := R) A) : Prop := ∀ st, in_run ph n0 st.1 st.2.1 →
  match m st with
  | (Done _, st') => in_run ph' n0 st'.1 st'.2.1
  | (Fail _, st') => in_run Setup n0 st'.1 st'.2.1
  | (Stuck, _) => True
  end.
Lemma moves_bind {A B} ph ph' ph'' (m : RM A) (k : A → RM B) : moves ph ph' m → (∀ a, moves ph' ph'' (k a)) → moves ph ph'' (m ≫= k).
Proof. intros Hm Hk st Hs. specialize (Hm st Hs). unfold mbind, M_bind. destruct (m st) as [[a|e|] st']; [by apply Hk|done..]. Qed.
Lemma moves_ret {A} ph (a : A) : moves ph ph (mret a).
Proof. by intros st Hs. Qed.
Lemma moves_gets {A} ph (f : run_state → Vcpu → A) : moves ph ph (run_gets f).
Proof. intros [n [s r]] Hs. done. Qed.
Lemma in_run_setup ph n s : around_stay ph = false → in_run ph n0 n s → in_run Setup n0 n s.
Proof.
  intros Hph []. constructor; try done.
  { intros m ? ? ? _. apply ir_same0; try done. congruence. }
  2: { intros c _. apply ir_list0. by destruct ph. }
  intros m f v Hm Hne. apply (ir_swapped0 m f v Hm). intros Hin. apply Hne. destruct ph; try done; try (by apply not_elem_of_nil in Hin).
  cbn in Hin. apply list_elem_of_singleton in Hin as ->. right. left.
Qed.
Lemma moves_throw {A} ph ph' e : around_stay ph = false → moves (A := A) ph ph' (throw e).
Proof. intros Hph st Hs. cbn. by apply (in_run_setup ph). Qed.

(** The fields of the VMCS whose value a run relies on; of the primary controls
    it needs the existence only. *)
Definition relied : list Z := VmEntryMsrLoadCount :: swapped.*2.
Definition presence (o : option Z) : option Z := (λ _, 0) <$> o.
Definition relies (w : option Z → option Z) (x : Z) : Prop := w = id ∧ x ∈ relied ∨ w = presence ∧ x = PrimaryProcBasedVmExecControls.
Lemma in_run_vmcs ph n s s' : (∀ w x, relies w x → w (vmcs s' !! x) = w (vmcs s !! x)) → in_run ph n0 n s → in_run ph n0 n s'.
Proof.
  intros Hw []. assert (∀ x, x ∈ relied → vmcs s' !! x = vmcs s !! x) as Hx by (intros x Hx; apply (Hw id); by left). constructor; try done.
  3: { specialize (Hw presence _ (or_intror (conj eq_refl eq_refl))). destruct ir_primary0 as [v Hv]. rewrite Hv in Hw.
       destruct (vmcs s' !! _); [by eexists|done]. }
  - intros m f v Hm. rewrite Hx; [by apply ir_swapped0|]. right. apply list_elem_of_fmap. by exists (m, f).
  - intros c. rewrite Hx by left. apply ir_list0.
Qed.
Lemma moves_guest {A} ph wrap (m : GM R A) :
  around_stay ph = false → (∀ w x, relies w x → leaves (field w x) m) → moves ph ph (on_guest wrap m).
Proof.
  intros Hph Hm [n st] Hs. cbn in Hs. unfold on_guest.
  assert (∀ st', st' = (m st).2 → in_run ph n0 n st'.1) as H.
  { intros st' ->. apply (in_run_vmcs ph n st.1); [|done]. intros w x Hx. apply (Hm w x Hx st). }
  destruct (m st) as [[a|e|] st']; cbn in *; [by apply H|apply (in_run_setup ph); [done|by apply H]|done].
Qed.
Lemma relies_apart w x : relies w x → x ∉ touched ++ exit_list_fields ∨ ∀ a b, w (Some a) = w (Some b).
Proof.
  intros [[-> Hx]|[-> ->]]; [left|by right]. intros Ht. assert (existsb (λ y, existsb (Z.eqb y) (touched ++ exit_list_fields)) relied = true) as H.
  { apply existsb_exists. exists x. split; [by apply list_elem_of_In|]. apply existsb_exists. exists x. split; [by apply list_elem_of_In|apply Z.eqb_refl]. }
  vm_compute in H. done.
Qed.
Lemma relies_untouched w x : relies w x → x ∉ touched ∨ ∀ a b, w (Some a) = w (Some b).
Proof. intros [H|?]%relies_apart; [left|by right]. intros ?. apply H, elem_of_app. by left. Qed.
(** A write to a field whose value is not relied on. *)
Lemma relies_insert w x f v s old : relies w x → existsb (Z.eqb f) relied = false → vmcs s !! f = Some old → w (<[f := v]> (vmcs s) !! x) = w (vmcs s !! x).
Proof.
  intros Hx Hf Ho. destruct (decide (f = x)) as [->|Hne]; [|by rewrite lookup_insert_ne]. rewrite lookup_insert_eq, Ho.
  destruct Hx as [[-> Hx]|[-> _]]; [|done]. assert (existsb (Z.eqb x) relied = true) as H; [|congruence].
  apply existsb_exists. exists x. split; [by apply list_elem_of_In|apply Z.eqb_refl].
Qed.
Lemma moves_cpu {A} ph wrap (m : VM A) : around_stay ph = false → (∀ w x, relies w x → keeps (field w x) m) → moves ph ph (on_cpu wrap m).
Proof. intros Hph Hm. apply moves_guest; [done|]. intros w x Hx. by apply leaves_vcpu, Hm. Qed.
Lemma quiet_state f v st : vmwrite_quiet (R := R) f v st =
  (Done (), (st.1, (match vmcs st.2.1 !! f with Some _ => with_vmcs (<[f := v]> (vmcs st.2.1)) st.2.1 | None => st.2.1 end, st.2.2))).
Proof. destruct st as [n [s r]]. unfold vmwrite_quiet, on_cpu, on_guest, on_vcpu, vmwrite_ignored, unwrap_or, vmwrite. cbn. by destruct (vmcs s !! f). Qed.
Lemma moves_quiet ph f v : existsb (Z.eqb f) relied = false → moves ph ph (vmwrite_quiet f v).
Proof.
  intros Hf st Hs. rewrite quiet_state. cbn. destruct (vmcs st.2.1 !! f) eqn:E; [|done]. apply (in_run_vmcs ph st.1 st.2.1); [|done].
  intros w x Hx. by apply (relies_insert w x f v st.2.1 z).
Qed.
(** The length of the VM-entry list. *)
Lemma moves_count ph ph' c :
  c ≤ 1 ∧ (ph' = ph ∨ ph = Window ∧ ph' = Leaving) ∨ ph = Window ∧ ph' = Window → moves ph ph' (vmwrite_quiet VmEntryMsrLoadCount c).
Proof.
  intros Hc st []. rewrite quiet_state. cbn.
  assert (around_stay ph' = around_stay ph ∧ idle ph' = idle ph ∧ unwritten ph' = unwritten ph) as (Har & Hid & Hun)
    by (destruct Hc as [[_ [->|[-> ->]]]|[-> ->]]; done).
  destruct (vmcs st.2.1 !! VmEntryMsrLoadCount) as [c0|] eqn:E;
    (constructor; try done; try (cbn; by rewrite lookup_insert_ne); [intros m; rewrite Har; apply ir_same0| | |by rewrite Har|by rewrite Hid]); try rewrite Hun.
  - intros m f v Hm Hne Hv. cbn. rewrite lookup_insert_ne; [by apply (ir_swapped0 m f v)|].
    intros <-. repeat (apply elem_of_cons in Hm as [[=]|Hm]). by apply not_elem_of_nil in Hm.
  - intros c' Hph. cbn. rewrite lookup_insert_eq. intros [= <-]. destruct Hc as [[? _]|[-> ->]]; done.
  - apply ir_swapped0.
  - intros c' _. by rewrite E.
Qed.

Lemma list_in (l : list Z) m : existsb (Z.eqb m) l = true → m ∈ l.
Proof. intros (z & Hz & ->%Z.eqb_eq)%existsb_exists. by apply list_elem_of_In. Qed.
Lemma list_dec (l : list Z) m : existsb (Z.eqb m) l = false → m ∉ l.
Proof.
  intros Hl Hm. assert (existsb (Z.eqb m) l = true); [|congruence]. apply existsb_exists. exists m. split; [by apply list_elem_of_In|apply Z.eqb_refl].
Qed.
Lemma entry_list_short m k : (k ≤ 1)%nat → m ∉ counting → m ∉ take k PEBS_ENTRY_MSR_INDEXES.
Proof.
  intros Hk Hm Hin. apply Hm. destruct k as [|[|k]]; [by apply not_elem_of_nil in Hin| |lia]. cbn in Hin. apply list_elem_of_singleton in Hin as ->.
  by apply list_in.
Qed.
Lemma entry_list_all m k : m ∉ counting → m ∉ pebs_msrs → m ∉ take k PEBS_ENTRY_MSR_INDEXES.
Proof.
  intros Hm Hp Hin%subseteq_take. assert (m ∈ counting ++ pebs_msrs) as [?|?]%elem_of_app; [|done..].
  repeat (apply elem_of_cons in Hin as [->|Hin]; [by apply list_in|]). by apply not_elem_of_nil in Hin.
Qed.
Lemma moves_enter env i ph : hardware_ok env → ph = Looping ∨ ph = Window → moves ph ph (enter env i).
Proof.
  intros [Hv Hd Hsw Ho] Hph [n [s r]] []. cbn in *. set (out := env_stay env i n (vmcs s) (vfields s GuestCr2) r).
  assert (∀ m, m ∉ direct → m ∉ counting → (around_stay ph = true → m ∉ pebs_msrs) → m ∉ swapped.*1 → st_msrs out !! m = rn_msrs n !! m) as Hout.
  { intros m H1 H2 H3 H4. apply Ho; try done. destruct Hph as [->| ->]; [|by apply entry_list_all; [|apply H3]].
    apply entry_list_short; [|done]. destruct (vmcs s !! VmEntryMsrLoadCount) as [c|] eqn:E; cbn; [|lia]. specialize (ir_list0 c ltac:(done) eq_refl). lia. }
  assert (rn_armed (if st_entered out then rset Launched 1 n else n) = rn_armed n) as Harm by (by destruct (st_entered out)).
  assert (∀ g, g ≠ Launched → rn_regs (if st_entered out then rset Launched 1 n else n) g = rn_regs n g) as Hregs.
  { intros g Hg. destruct (st_entered out); [|done]. cbn. by rewrite decide_False. }
  constructor; cbn.
  - intros m. etransitivity; [apply (Hd i n (vmcs s) (vfields s GuestCr2) r)|apply ir_exists0].
  - intros m H1 H2 H3 H4. destruct (decide (m ∈ swapped.*1)) as [Hm|Hm]; [|by rewrite Hout; auto].
    apply list_elem_of_fmap in Hm as ([m' f] & E & Hm). cbn in E. subst m'. destruct (Hsw i n (vmcs s) (vfields s GuestCr2) r m f Hm) as [E|[[v Hn] E]]; unfold out; rewrite E; [by apply ir_same0|].
    assert (rn_msrs n0 !! m = Some v) as H0 by (rewrite <-Hn; symmetry; by apply ir_same0). rewrite H0. apply (ir_swapped0 m f v Hm); [|done].
    destruct Hph as [->| ->]; apply not_elem_of_nil.
  - intros g Hg. rewrite decide_False, Hregs; [by apply ir_host0| |]; intros ->; repeat (apply elem_of_cons in Hg as [[=]|Hg]); by apply not_elem_of_nil in Hg.
  - rewrite Harm. destruct (rn_armed n); [by rewrite decide_False, Hregs|]. rewrite Hout; [done|by apply list_dec|by apply list_dec|intros _; by apply list_dec|by apply list_dec].
  - intros m f v Hm Hne H0. unfold out. rewrite Hv; [by apply (ir_swapped0 m f v)|]. repeat (apply elem_of_cons in Hm as [[= -> ->]|Hm]; [done|]). by apply not_elem_of_nil in Hm.
  - intros c Hne. unfold out. rewrite Hv by done. by apply ir_list0.
  - intros Ha. destruct (ir_saved0 Ha) as (? & ? & ?). by rewrite !decide_False, !Hregs.
  - by destruct Hph as [->| ->].
  - unfold out. by rewrite Hv.
Qed.

(** Updates that a run does not rely on. *)
Lemma in_run_eq ph n n' s :
  rn_msrs n' = rn_msrs n → rn_armed n' = rn_armed n →
  (∀ g, g ∈ host_regs ++ [SavedFixedCtrCtrl; SavedPebsDataCfg; SavedDsArea; SavedPerfevtsel0] → rn_regs n' g = rn_regs n g) →
  in_run ph n0 n s → in_run ph n0 n' s.
Proof.
  intros Hm Ha Hg []. constructor; rewrite ?Hm, ?Ha; try done.
  - intros g Hin. rewrite Hg; [by apply ir_host0|]. apply elem_of_app. by left.
  - rewrite Hg; [done|]. do 7 right. left.
  - intros Hph. rewrite !Hg; [by apply ir_saved0|do 6 right; left|do 5 right; left|do 4 right; left].
Qed.
Lemma in_run_rset ph g v n s :
  existsb (λ x, bool_decide (g = x)) (host_regs ++ [SavedFixedCtrCtrl; SavedPebsDataCfg; SavedDsArea; SavedPerfevtsel0]) = false →
  in_run ph n0 n s → in_run ph n0 (rset g v n) s.
Proof.
  intros Hn. apply in_run_eq; try done. intros g' Hg'. cbn. rewrite decide_False; [done|]. intros ->.
  apply not_true_iff_false in Hn. apply Hn, existsb_exists. exists g. rewrite bool_decide_true by done. split; [by apply list_elem_of_In|done].
Qed.
Lemma in_run_direct ph m v n s : m ∈ direct → in_run ph n0 n s → in_run ph n0 (write_msr m v n) s.
Proof.
  intros Hm []. unfold write_msr. destruct (rn_msrs n !! m) eqn:E; [|by constructor]. constructor; try done; cbn.
  - intros m'. rewrite lookup_insert_is_Some'. rewrite ir_exists0. split; [|by right]. intros [<-|?]; [|done]. by rewrite <-ir_exists0, E.
  - intros m' Hd. rewrite lookup_insert_ne by congruence. by apply ir_same0.
  - destruct (rn_armed n); [done|]. rewrite lookup_insert_ne; [done|]. intros ->. revert Hm. by apply list_dec.
Qed.
Lemma moves_run ph ph' f : (∀ n s, in_run ph n0 n s → in_run ph' n0 (f n) s) → moves ph ph' (on_run f).
Proof. intros Hf [n [s r]] Hs. cbn in *. by apply Hf. Qed.
Lemma read_same ph m n s :
  in_run ph n0 n s → existsb (Z.eqb m) (IA32_PERFEVTSEL0 :: direct ++ counting ++ pebs_msrs) = false → read_msr_or_0 m n = read_msr_or_0 m n0.
Proof.
  intros [] [H1 [H2 [H3 H4]%not_elem_of_app]%not_elem_of_app]%list_dec%not_elem_of_cons. unfold read_msr_or_0. by rewrite ir_same0.
Qed.
Lemma read_pebs ph m n s : around_stay ph = false → in_run ph n0 n s → m ∈ pebs_msrs → read_msr_or_0 m n = read_msr_or_0 m n0.
Proof.
  intros Hph [] Hm. unfold read_msr_or_0. rewrite ir_same0; [done|..]; [| | |congruence];
    repeat (apply elem_of_cons in Hm as [->|Hm]; [by try apply list_dec|]); by apply not_elem_of_nil in Hm.
Qed.
Lemma moves_save : moves Looping Window (on_run save_pebs_msrs).
Proof.
  apply moves_run. intros n s Hs. pose proof Hs as []. constructor; try done.
  - intros m ? ? ? _. by apply ir_same0.
  - intros g Hg. cbn. rewrite !decide_False; [by apply ir_host0|..]; intros ->; repeat (apply elem_of_cons in Hg as [[=]|Hg]); by apply not_elem_of_nil in Hg.
  - intros _. pose proof (λ m, read_pebs Looping m n s eq_refl Hs) as Hp. unfold save_pebs_msrs. cbn [rn_regs rset].
    rewrite <-!Hp by (by apply list_in). split_and!; by repeat (rewrite decide_False by done || rewrite decide_True by done).
Qed.
Lemma in_run_restore m v n s :
  in_run Leaving n0 n s → m ∈ IA32_FIXED_CTR0 :: IA32_PEBS_ENABLE :: pebs_msrs → in_run Leaving n0 (write_msr m v n) s.
Proof.
  intros [] Hm. unfold write_msr. destruct (rn_msrs n !! m) eqn:E; [|by constructor]. constructor; try done; cbn.
  - intros m'. rewrite lookup_insert_is_Some'. rewrite ir_exists0. split; [|by right]. intros [<-|?]; [|done]. by rewrite <-ir_exists0, E.
  - intros m' Hd Hc Hp Hw. rewrite lookup_insert_ne; [by apply ir_same0|]. specialize (Hw eq_refl). intros ->.
    apply elem_of_cons in Hm as [->|Hm]; [by apply Hc, list_in|]. apply elem_of_cons in Hm as [->|Hm]; [by apply Hc, list_in|done].
  - destruct (rn_armed n); [done|]. rewrite lookup_insert_ne; [done|]. intros ->. revert Hm. by apply list_dec.
Qed.
Lemma write_lookup m v n m' : rn_msrs (write_msr m v n) !! m' = if decide (m' = m) then (λ _, v) <$> (rn_msrs n !! m) else rn_msrs n !! m'.
Proof.
  unfold write_msr. destruct (decide (m' = m)) as [->|Hne]; destruct (rn_msrs n !! m) eqn:E; cbn; try done.
  - by rewrite lookup_insert_eq.
  - by rewrite lookup_insert_ne.
Qed.
Lemma write_other m v n : rn_regs (write_msr m v n) = rn_regs n ∧ rn_armed (write_msr m v n) = rn_armed n ∧ rn_loaded (write_msr m v n) = rn_loaded n.
Proof. unfold write_msr. by destruct (rn_msrs n !! m). Qed.
Lemma moves_restore : moves Leaving Looping (on_run restore_pebs_msrs).
Proof.
  apply moves_run. intros n s Hs. assert (in_run Leaving n0 (restore_pebs_msrs n) s) as Hs'.
  { unfold restore_pebs_msrs. do 5 (apply in_run_restore; [|by apply list_in]). done. }
  assert (∀ m, m ∈ pebs_msrs → rn_msrs (restore_pebs_msrs n) !! m = rn_msrs n0 !! m) as Hp; [|destruct Hs'; constructor; try done].
  - pose proof Hs as []. destruct (ir_saved0 eq_refl) as (E1 & E2 & E3). unfold restore_pebs_msrs. intros m Hm. rewrite !write_lookup.
    assert (∀ m v, v = read_msr_or_0 m n0 → (λ _, v) <$> (rn_msrs n !! m) = rn_msrs n0 !! m) as Hv.
    { intros m' v ->. pose proof (ir_exists0 m') as He. unfold read_msr_or_0. destruct (rn_msrs n !! m') eqn:Em, (rn_msrs n0 !! m'); try done.
      - destruct (proj1 He (mk_is_Some _ _ eq_refl)). done.
      - destruct (proj2 He (mk_is_Some _ _ eq_refl)). done. }
    repeat (apply elem_of_cons in Hm as [->|Hm]; [repeat (rewrite decide_False by done || rewrite decide_True by done); by apply Hv|]).
    by apply not_elem_of_nil in Hm.
  - intros m H1 H2 H3 _. destruct (decide (m ∈ pebs_msrs)); [by apply Hp|]. by apply ir_same0.
  - intros c _. by apply ir_list0.
Qed.

(** *** The parts of a run *)
Lemma moves_finalize ph env skip : moves ph ph (finalize_exit_record env skip).
Proof.
  unfold finalize_exit_record. eapply moves_bind; [apply moves_gets|intros [p|]; [|apply moves_ret]]. intros [n [s r]] Hs. unfold modify.
  destruct (env_hash_memory env r). cbn in *. by apply (in_run_vmcs ph n s).
Qed.
Ltac moves_one :=
  match goal with
  | |- moves _ _ (mret _) => apply moves_ret
  | |- moves _ _ (run_gets _) => apply moves_gets
  | |- moves _ _ (now) => apply moves_cpu; [done|intros w x Hx; by apply keeps_rdtsc]
  | |- moves _ _ (spend _ _) => apply moves_cpu; [done|intros w x Hx; by apply keeps_modify]
  | |- moves _ _ (on_cpu _ (modify _)) => apply moves_cpu; [done|intros w x Hx; by apply keeps_modify]
  | |- moves _ _ (finalize_exit_record _ _) => apply moves_finalize
  | |- moves _ _ (_ ≫= _) => eapply moves_bind; [moves_one|intros ?]
  | |- moves _ _ (vmwrite_quiet VmEntryMsrLoadCount _) => apply moves_count
  | |- moves _ _ (vmwrite_quiet _ _) => by apply moves_quiet
  | |- moves _ _ (throw _) => by apply moves_throw
  | |- moves _ _ stuck => by intros st Hst
  | |- moves _ _ (match ?o with Some _ => _ | None => _ end) => destruct o
  | |- moves _ _ (if ?b then _ else _) => destruct b
  end.
Lemma moves_pre env : moves Looping Window (pebs_pre_vm_entry env).
Proof.
  unfold pebs_pre_vm_entry. eapply moves_bind; [moves_one|intros pmc0]. eapply moves_bind; [apply moves_cpu; [done|]|intros g].
  { intros w x Hx s. unfold unwrap_or, vmread. by destruct (vmcs s !! _). }
  eapply moves_bind; [moves_one|intros [p|]; [|moves_one]]. eapply moves_bind; [apply moves_save|intros _].
  eapply moves_bind; [apply moves_run; intros n s; by apply in_run_eq|intros _]. eapply moves_bind; [moves_one|intros _]. moves_one. by right.
Qed.
Lemma moves_post : moves Window Looping pebs_post_vm_exit.
Proof.
  unfold pebs_post_vm_exit. eapply moves_bind; [moves_one|intros ic]. apply moves_bind with Leaving.
  { destruct ic; [eapply moves_bind; [moves_one|intros _]|]; moves_one; left; (split; [lia|by right]). }
  intros _. eapply moves_bind; [moves_one|intros [p|]; [apply moves_restore|moves_one]].
Qed.
Lemma moves_window env i b : hardware_ok env → moves Looping Looping (guest_window env i b).
Proof.
  intros He. unfold guest_window. destruct b.
  - eapply moves_bind; [apply moves_pre|intros _]. eapply moves_bind; [apply moves_enter; auto|intros e].
    eapply moves_bind; [apply moves_post|intros _; moves_one].
  - eapply moves_bind; [moves_one|intros _]. eapply moves_bind; [apply moves_enter; auto|intros e].
    eapply moves_bind; [moves_one|intros _; moves_one].
Qed.
Lemma moves_iterate env skip kgs i : hardware_ok env → moves Looping Looping (iterate env skip kgs i).
Proof.
  intros He. unfold iterate. eapply moves_bind; [moves_one|intros t0]. eapply moves_bind.
  { intros [n [s r]] Hs. cbn in *. eapply in_run_rset, in_run_eq, Hs; done. }
  intros _. eapply moves_bind; [apply moves_cpu; [done|]; intros w x Hx; by apply confined_inject, relies_untouched|intros _].
  eapply moves_bind; [moves_one|intros t1]. eapply moves_bind; [moves_one|intros _]. eapply moves_bind; [moves_one|intros g].
  eapply moves_bind; [apply moves_run; intros n s; apply in_run_direct; by apply list_in|intros _].
  eapply moves_bind; [moves_one|intros armed]. eapply moves_bind; [by apply moves_window|intros entered].
  eapply moves_bind; [moves_one|intros g']. eapply moves_bind; [apply moves_cpu; [done|]; intros w x Hx; by apply keeps_modify|intros _].
  eapply moves_bind; [apply moves_run; intros n s; apply in_run_direct; by apply list_in|intros _].
  do 7 moves_one. destruct (negb entered); [moves_one|]. eapply moves_bind.
  { intros [n [s r]] Hs. cbn in *. by apply (in_run_vmcs Looping n s). }
  intros _. do 2 moves_one. eapply moves_bind.
  { apply moves_guest; [done|]. intros w x Hx. by apply confined_exit, relies_apart. }
  intros []; repeat moves_one.
Qed.
Lemma moves_loop env skip kgs fuel i : hardware_ok env → moves Looping Looping (loop env skip kgs fuel i).
Proof.
  intros He. revert i. induction fuel as [|fuel IH]; intros i; cbn [loop]; [moves_one|].
  eapply moves_bind; [by apply moves_iterate|]. intros []; [apply IH|moves_one].
Qed.

(** The host's bases reach the VMCS. *)
Lemma swapped_inj m f m' f' : (m, f) ∈ swapped → (m', f') ∈ swapped → m = m' ↔ f = f'.
Proof.
  intros H H'. repeat (apply elem_of_cons in H as [[= -> ->]|H]; [repeat (apply elem_of_cons in H' as [[= -> ->]|H']; [done|]); by apply not_elem_of_nil in H'|]).
  by apply not_elem_of_nil in H.
Qed.
Lemma moves_base ph ph' m f wrap :
  (m, f) ∈ swapped → unwritten ph = m :: unwritten ph' → idle ph' = idle ph → around_stay ph = false → around_stay ph' = false →
  moves ph ph' (on_cpu wrap (vmwrite f (read_msr_or_0 m n0))).
Proof.
  intros Hm Hu Hi Ha Ha' [n [s r]] Hs. cbn in Hs. unfold on_cpu, on_guest, on_vcpu, vmwrite. pose proof Hs as [].
  destruct (vmcs s !! f) as [old|] eqn:E; cbn; [|by apply (in_run_setup ph)]. constructor; try done.
  - intros m' ? ? ? _. apply ir_same0; try done. congruence.
  - intros m' f' v Hm' Hne Hv. cbn. destruct (decide (m = m')) as [<-|Hd].
    + apply (swapped_inj m f m f') in Hm as [Hm _]; [|done]. rewrite <-(Hm eq_refl), lookup_insert_eq. unfold read_msr_or_0. by rewrite Hv.
    + rewrite lookup_insert_ne by (intros <-; by apply Hd, (swapped_inj m f m' f)). apply (ir_swapped0 m' f' v); try done. rewrite Hu. by apply not_elem_of_cons.
  - intros c Hc. cbn. rewrite lookup_insert_ne; [apply ir_list0; by destruct ph|]. intros ->.
    repeat (apply elem_of_cons in Hm as [[=]|Hm]). by apply not_elem_of_nil in Hm.
  - congruence.
  - by rewrite Hi.
  - cbn. destruct (decide (f = PrimaryProcBasedVmExecControls)) as [->|Hne]; [rewrite lookup_insert_eq; by eexists|by rewrite lookup_insert_ne].
Qed.
Lemma moves_read {A} ph ph' m (k : Z → RM A) :
  existsb (Z.eqb m) (IA32_PERFEVTSEL0 :: direct ++ counting ++ pebs_msrs) = false →
  moves ph ph' (k (read_msr_or_0 m n0)) → moves ph ph' (run_gets (λ n _, read_msr_or_0 m n) ≫= k).
Proof. intros Hm Hk [n [s r]] Hs. unfold mbind, M_bind, run_gets, gets. rewrite (read_same ph m n s Hs Hm). by apply Hk. Qed.
Lemma moves_vmwrite ph wrap f v : around_stay ph = false → existsb (Z.eqb f) relied = false → moves ph ph (on_cpu wrap (vmwrite f v)).
Proof.
  intros Ha Hf. apply moves_cpu; [done|]. intros w x Hx s. unfold vmwrite, field. destruct (vmcs s !! f) eqn:E; [|done]. cbn.
  by apply (relies_insert w x f v s z).
Qed.
Lemma moves_host_state env : moves Start Ready (write_host_state env).
Proof.
  unfold write_host_state. destruct (env_cr3 env) as [cr3|]; [|moves_one]. eapply moves_bind; [by apply moves_vmwrite|intros _].
  apply moves_read; [done|]. apply moves_bind with StartFs; [apply moves_base; try done; left|intros _].
  apply moves_read; [done|]. apply moves_bind with Ready; [apply moves_base; try done; right; left|intros _].
  eapply moves_bind; [by apply moves_vmwrite|intros _]. eapply moves_bind; [by apply moves_vmwrite|intros _]. by apply moves_vmwrite.
Qed.

(** The counter. *)
Lemma moves_prepare : moves Ready Looping (counter_op prepare).
Proof.
  intros [n [s r]] Hs. cbn in Hs. unfold counter_op, prepare. pose proof Hs as [].
  assert (in_run Looping n0 n s) as Hl by (constructor; try done; intros c _; by apply ir_list0). destruct (rn_counter_page n); [|done].
  destruct (rn_msrs n !! IA32_PERF_GLOBAL_CTRL) as [g|]; [|by apply (in_run_setup Looping)]. cbv zeta.
  change (rn_msrs (rset _ _ (rset _ _ n))) with (rn_msrs n).
  destruct (rn_msrs n !! IA32_PERFEVTSEL0) as [v|] eqn:Ev; cbn [fst snd].
  2: { apply (in_run_setup Looping); [done|]. by do 2 (apply in_run_rset; [done|]). }
  assert (read_msr_or_0 IA32_PERFEVTSEL0 n0 = v) as Hv.
  { specialize (ir_idle0 eq_refl). rewrite ir_idle0 in ir_counter0. unfold read_msr_or_0. by rewrite <-ir_counter0. }
  unfold write_msr. change (rn_msrs (rset _ _ (rset _ _ (rset _ _ n)))) with (rn_msrs n). rewrite Ev. constructor; cbn; try done.
  - intros m. rewrite lookup_insert_is_Some'. rewrite ir_exists0. split; [|by right]. intros [<-|?]; [|done]. by rewrite <-ir_exists0, Ev.
  - intros m ? ? ? _. rewrite lookup_insert_ne by congruence. by apply ir_same0.
  - intros g' Hg. rewrite !decide_False; [by apply ir_host0|..]; intros ->; repeat (apply elem_of_cons in Hg as [[=]|Hg]); by apply not_elem_of_nil in Hg.
  - intros c _. by apply ir_list0.
Qed.
Lemma moves_configure : moves Looping Looping configure_counter.
Proof.
  unfold configure_counter. eapply moves_bind; [moves_one|intros page]. eapply moves_bind.
  { destruct page; [|moves_one]. do 3 moves_one. moves_one. left. split; [lia|by left]. }
  intros _. eapply moves_bind; [moves_one|]. intros [[[g h]|] b]; [|moves_one]. do 2 moves_one.
  assert (∀ f bit, existsb (Z.eqb f) relied = false → moves Looping Looping (on_cpu (R := R) RExitHandler (or_control f bit))) as Hor.
  { intros f bit Hf. apply moves_cpu; [done|]. intros w x Hx s. unfold or_control, vmwrite_ignored, unwrap_or, vmwrite, field.
    destruct (vmcs s !! f) eqn:E; [|done]. cbn. by eapply relies_insert. }
  eapply moves_bind; [by apply Hor|intros _]. by apply Hor.
Qed.

(** With the counter given back, the run is where it started; if that fails the
    run fails. *)
Lemma moves_finish {A} (k : result () InstructionCounterError → RM A) :
  moves Ready Ready (k (Ok ())) → (∀ e, moves Looping Ready (k (Err e))) →
  moves Looping Ready ((λ '(n, st), let '(x, n') := finish n in (Done x, (n', st))) ≫= k).
Proof.
  intros Hok Herr [n [s r]] Hs. cbn in Hs. unfold mbind, M_bind, finish. pose proof Hs as [].
  destruct (rn_armed n) eqn:Ea; cbn [negb].
  2: { apply (Hok (n, (s, r))). constructor; try done; cbn; [by rewrite Ea|intros c _; by apply ir_list0]. }
  destruct (rn_msrs n !! IA32_PERFEVTSEL0) as [v|] eqn:Ev; [|by apply (Herr RestoreFailed (n, (s, r)))].
  apply (Hok (_, (s, r))). unfold write_msr. rewrite Ev. constructor; cbn; try done.
  - intros m. rewrite lookup_insert_is_Some'. rewrite ir_exists0. split; [|by right]. intros [<-|?]; [|done]. by rewrite <-ir_exists0, Ev.
  - intros m ? ? ? _. rewrite lookup_insert_ne by congruence. by apply ir_same0.
  - rewrite lookup_insert_eq. destruct (proj1 (ir_exists0 IA32_PERFEVTSEL0) ltac:(by rewrite Ev)) as [w Hw]. rewrite Hw, ir_counter0.
    unfold read_msr_or_0. by rewrite Hw.
  - intros c _. by apply ir_list0.
Qed.
Lemma moves_last ph wrap (f : Z) : around_stay ph = false → moves ph ph (on_cpu (R := R) wrap (unwrap_or 0 (vmread f))).
Proof. intros Ha. apply moves_cpu; [done|]. intros w x Hx s. unfold unwrap_or, vmread. by destruct (vmcs s !! f). Qed.
Lemma moves_run_loop env skip kgs fuel : hardware_ok env → moves Start Ready (run_loop env skip kgs fuel).
Proof.
  intros He. unfold run_loop. eapply moves_bind; [apply moves_host_state|intros _]. eapply moves_bind; [apply moves_prepare|intros _].
  eapply moves_bind; [apply moves_configure|intros _]. eapply moves_bind; [by apply moves_loop|intros res].
  apply moves_finish; [|intros e]; (eapply moves_bind; [by apply moves_last|intros q]); (eapply moves_bind; [apply moves_run; intros n s; by apply in_run_rset|intros _]);
    (eapply moves_bind; [by apply moves_last|intros g]); (eapply moves_bind; [apply moves_run; intros n s; by apply in_run_rset|intros _]); [destruct res|]; moves_one.
Qed.
End Moves.

(** What comes before the loop. *)
Lemma at_rest_start n s : at_rest n s → in_run Start n n s.
Proof.
  intros []. constructor; try done.
  - by rewrite ar_armed0.
  - intros m f v Hm Hu. apply (ar_swapped0 m f v Hm); intros ->; apply Hu; [left|right; left].
  - intros c _. apply ar_list0.
Qed.
Lemma moves_setup n0 env : moves n0 Start Start (setup env).
Proof.
  unfold setup. eapply moves_bind; [apply moves_run; intros n s Hs; unfold load_guest_syscall; by do 4 (apply in_run_direct; [by apply list_in|])|intros _].
  eapply moves_bind; [destruct (env_vmptrld env); [apply moves_run; intros n s; by apply in_run_eq|by apply moves_throw]|intros _].
  eapply moves_bind; [apply moves_gets|intros cpu]. apply moves_bind with Start; [|intros _; apply moves_bind with Start; [apply moves_cpu; [done|]|intros _; apply moves_cpu; [done|]]].
  - destruct (bool_decide _); [apply moves_ret|]. destruct (env_invept env); [apply moves_run; intros n s; by apply in_run_eq|by apply moves_throw].
  - intros w x Hx s. unfold apply_intercept_pf, unwrap_or, vmread, vmwrite, field, mbind, M_bind, gets.
    destruct (vmcs s !! ExceptionBitmap) as [v|] eqn:E; cbn; rewrite ?E; cbn; [|by rewrite ?E]. by apply (relies_insert w x _ _ s v).
  - intros w x Hx. by apply confined_mtf, relies_untouched.
Qed.
Lemma seq_done {A B} (m : RM (R := R) A) (k : A → RM B) st a st' : m st = (Done a, st') → (m ≫= k) st = k a st'.
Proof. intros E. unfold mbind, M_bind. by rewrite E. Qed.
(** It succeeds when the instructions do and the VMCS has its controls. *)
Lemma setup_done env n s r :
  env_vmptrld env = true → rn_last_cpu n = Some (env_cpu env) ∨ env_invept env = true →
  is_Some (vmcs s !! PrimaryProcBasedVmExecControls) → ∃ st, setup env (n, (s, r)) = (Done (), st).
Proof.
  intros Hl Hc [c Hp]. set (s1 := (apply_intercept_pf s).2).
  assert (apply_intercept_pf s = (Done (), s1) ∧ is_Some (vmcs s1 !! PrimaryProcBasedVmExecControls)) as [E1 [c1 Hp1]].
  { subst s1. unfold apply_intercept_pf, unwrap_or, vmread, vmwrite, mbind, M_bind, gets.
    destruct (vmcs s !! ExceptionBitmap) as [v|] eqn:E; cbn; rewrite ?E; cbn; [|by rewrite Hp]. split; [done|]. rewrite lookup_insert_ne by done. by rewrite Hp. }
  assert (∃ s2, update_mtf_state (pf_eax (env_platform env)) s1 = (Done (), s2)) as [s2 E2].
  { unfold update_mtf_state, mbind, M_bind, gets. cbv zeta. destruct (negb _); [|by eexists]. unfold map_err, vmread, vmwrite. cbn [id].
    rewrite Hp1. rewrite Hp1. by eexists. }
  unfold setup. rewrite Hl. rewrite (seq_done _ _ _ () (load_guest_syscall n, (s, r))) by done.
  rewrite (seq_done _ _ _ () (with_loaded true (load_guest_syscall n), (s, r))) by done.
  rewrite (seq_done _ _ _ (rn_last_cpu n) (with_loaded true (load_guest_syscall n), (s, r))).
  2: { unfold run_gets, gets. f_equal. f_equal. unfold load_guest_syscall, write_msr. by repeat (case_match || cbn). }
  assert (∃ n1, (if bool_decide (rn_last_cpu n = Some (env_cpu env)) then mret () else
    if env_invept env then on_run (with_last_cpu (Some (env_cpu env))) else throw RInveptFailed : RM (R := R) ()) (with_loaded true (load_guest_syscall n), (s, r))
    = (Done (), (n1, (s, r)))) as [n1 E0].
  { destruct (bool_decide _) eqn:Hb; [by eexists|]. destruct Hc as [Hc| ->]; [by rewrite Hc, bool_decide_true in Hb|]. by eexists. }
  rewrite (seq_done _ _ _ () (n1, (s, r)) E0). rewrite (seq_done _ _ _ () (n1, (s1, r))) by (unfold on_cpu, on_guest, on_vcpu; by rewrite E1).
  unfold on_cpu, on_guest, on_vcpu. rewrite E2. by eexists.
Qed.

(** What the end of a run leaves. *)
Definition settle (env : host_env R) (kgs : Z) n : run_state :=
  write_msr IA32_KERNEL_GS_BASE kgs (load_host_syscall (capture_guest_syscall (rset Launched 0 (if env_vmclear env then with_loaded false n else n)))).
Lemma teardown_state env kgs res st :
  (teardown env kgs res st).2 = (settle env kgs st.1, st.2) ∧
  (∀ reason, (teardown env kgs res st).1 = Done reason → res = Ok reason) ∧ (teardown env kgs res st).1 ≠ Stuck.
Proof.
  destruct st as [n [s r]]. unfold teardown, settle, on_run, modify, mbind, M_bind. destruct (env_vmclear env), res; cbn; (split; [done|]); split; congruence.
Qed.
Lemma host_value n n0 m v :
  (∀ x, rn_msrs n0 !! m = Some x → v = x) → (is_Some (rn_msrs n !! m) ↔ is_Some (rn_msrs n0 !! m)) → (λ _, v) <$> rn_msrs n !! m = rn_msrs n0 !! m.
Proof.
  intros Hv He. destruct (rn_msrs n !! m) eqn:E, (rn_msrs n0 !! m) eqn:E0; cbn; try done.
  - by rewrite (Hv _ eq_refl).
  - destruct (proj1 He (mk_is_Some _ _ eq_refl)). done.
  - destruct (proj2 He (mk_is_Some _ _ eq_refl)). done.
Qed.
Lemma settle_host n0 env s0 n s g :
  at_rest n0 s0 → in_run Setup n0 n s → g ∈ host_regs →
  rn_regs (capture_guest_syscall (rset Launched 0 (if env_vmclear (R := R) env then with_loaded false n else n))) g = rn_regs n0 g.
Proof.
  intros Hr [] Hg. rewrite <-(ir_host0 g Hg). unfold capture_guest_syscall. destruct (env_vmclear env); cbn [rn_regs rset with_loaded];
    rewrite !decide_False; try done; intros ->; repeat (apply elem_of_cons in Hg as [[=]|Hg]); by apply not_elem_of_nil in Hg.
Qed.
Lemma settle_msrs n0 env s0 n s m :
  at_rest n0 s0 → in_run Setup n0 n s → m ∉ counting → (m = IA32_PERFEVTSEL0 → rn_armed n = false) →
  rn_msrs (settle env (read_msr_or_0 IA32_KERNEL_GS_BASE n0) n) !! m = rn_msrs n0 !! m.
Proof.
  intros Hr Hs Hc Hp. pose proof (λ g, settle_host n0 env s0 n s g Hr Hs) as Hh. pose proof Hr as []. pose proof Hs as [].
  unfold settle, load_host_syscall. set (n1 := capture_guest_syscall _) in *.
  assert (rn_msrs n1 = rn_msrs n) as Hn1 by (unfold n1, capture_guest_syscall; by destruct (env_vmclear env)).
  rewrite !write_lookup, Hn1. rewrite !Hh by (unfold host_regs; repeat (left || right)).
  destruct (decide (m = IA32_KERNEL_GS_BASE)) as [->|N1].
  { rewrite !decide_False by done. apply host_value; [|done]. intros x Hx. unfold read_msr_or_0. by rewrite Hx. }
  destruct (decide (m = IA32_FMASK)) as [->|N2]; [rewrite !decide_False by done; by apply host_value|].
  destruct (decide (m = IA32_CSTAR)) as [->|N3]; [rewrite !decide_False by done; by apply host_value|].
  destruct (decide (m = IA32_LSTAR)) as [->|N4]; [rewrite !decide_False by done; by apply host_value|].
  destruct (decide (m = IA32_STAR)) as [->|N5]; [by apply host_value|].
  destruct (decide (m = IA32_PERFEVTSEL0)) as [->|N6]; [by rewrite (Hp eq_refl) in ir_counter0|].
  apply ir_same0; try done. unfold direct. intros Hm. repeat (apply elem_of_cons in Hm as [->|Hm]; [done|]). by apply not_elem_of_nil in Hm.
Qed.
Lemma settle_other env kgs n :
  rn_armed (settle env kgs n) = rn_armed n ∧ rn_regs (settle env kgs n) Launched = 0 ∧ rn_loaded (settle env kgs n) = (if env_vmclear (R := R) env then false else rn_loaded n).
Proof.
  unfold settle, load_host_syscall. set (n1 := capture_guest_syscall _).
  assert (rn_armed n1 = rn_armed n ∧ rn_regs n1 Launched = 0 ∧ rn_loaded n1 = (if env_vmclear env then false else rn_loaded n)) as (<- & <- & <-)
    by (unfold n1, capture_guest_syscall; by destruct (env_vmclear env)).
  repeat match goal with |- context [write_msr ?m ?v ?x] => destruct (write_other m v x) as (-> & -> & ->) end. done.
Qed.

Lemma settle_rest n0 env s0 n s :
  at_rest n0 s0 → in_run Ready n0 n s → at_rest (settle env (read_msr_or_0 IA32_KERNEL_GS_BASE n0) n) s.
Proof.
  intros Hr Hi. assert (in_run Setup n0 n s) as Hs by (by apply (in_run_setup n0 Ready)). assert (rn_armed n = false) as Ha by (by apply (ir_idle _ _ _ _ Hi)).
  pose proof (λ m, settle_msrs n0 env s0 n s m Hr Hs) as Hm. set (kgs := read_msr_or_0 IA32_KERNEL_GS_BASE n0) in *.
  assert (∀ g, g ∈ host_regs → rn_regs (settle env kgs n) g = rn_regs n0 g) as Hg.
  { intros g Hg. rewrite <-(settle_host n0 env s0 n s g Hr Hs Hg). unfold settle, load_host_syscall. set (n1 := capture_guest_syscall _).
    by repeat match goal with |- context [write_msr ?m ?v ?x] => destruct (write_other m v x) as (-> & _) end. }
  destruct (settle_other env kgs n) as (Har & _). pose proof Hr as [].
  constructor; [by rewrite Har|..].
  5: { intros m f v Hin _ _. rewrite Hm; [by apply (ir_swapped _ _ _ _ Hi m f v Hin), not_elem_of_nil| |done].
       repeat (apply elem_of_cons in Hin as [[= -> ->]|Hin]; [by apply list_dec|]). by apply not_elem_of_nil in Hin. }
  5: { intros c. by apply (ir_list _ _ _ _ Hi). }
  5: { apply (ir_primary _ _ _ _ Hi). }
  all: intros v; rewrite Hm, Hg by first [by apply list_dec|done|unfold host_regs; repeat (left || right)]; auto.
Qed.

(** A run gives the host its processor back.  If the VMCS could be loaded and
    its cached translations flushed, then however the loop ended, by an exit for
    userspace, a failed entry, a failed handler or the scheduler, and whatever the
    guest did in its stays: the VMCS is no longer current (unless clearing it
    failed, which is reported), the next entry is a launch, and every
    model-specific register of the host, but for the counting ones, has the value
    it had before: the system-call registers and KERNEL_GS_BASE that the guest
    uses directly, the bases and SYSENTER registers and EFER that hardware
    exchanges, the PEBS registers loaded around an armed stay.  The event select
    of the instruction counter is restored whenever the run succeeds, and the
    VM is then as it must be for the next run. *)
Lemma run_restores env skip fuel n s r o n' s' r' :
  hardware_ok env → at_rest n s → env_vmptrld env = true → rn_last_cpu n = Some (env_cpu env) ∨ env_invept env = true →
  run env skip fuel (n, (s, r)) = (o, (n', (s', r'))) → o ≠ Stuck →
  (∀ m, m ∉ counting → m ≠ IA32_PERFEVTSEL0 → rn_msrs n' !! m = rn_msrs n !! m) ∧
  rn_regs n' Launched = 0 ∧ (env_vmclear env = true → rn_loaded n' = false) ∧
  ∀ reason, o = Done reason → rn_msrs n' !! IA32_PERFEVTSEL0 = rn_msrs n !! IA32_PERFEVTSEL0 ∧ at_rest n' s'.
Proof.
  intros He Hr Hl Hc Hrun Ho. pose proof (ar_primary _ _ Hr) as Hp. set (kgs := read_msr_or_0 IA32_KERNEL_GS_BASE n) in *.
  destruct (setup_done env n s r Hl Hc Hp) as [st1 Hset]. pose proof (moves_setup n env (n, (s, r)) (at_rest_start n s Hr)) as H1. rewrite Hset in H1.
  unfold run in Hrun. rewrite (seq_done _ _ _ kgs (n, (s, r))) in Hrun by done. rewrite (seq_done _ _ _ () st1 Hset) in Hrun.
  pose proof (moves_run_loop n env skip kgs fuel He st1 H1) as H2. unfold mbind, M_bind, catch in Hrun.
  destruct (run_loop env skip kgs fuel st1) as [[reason|e|] [n2 [s2 r2]]]; [| |congruence]; cbn in H2.
  - destruct (teardown_state env kgs (Ok reason) (n2, (s2, r2))) as (E & _ & _). rewrite Hrun in E. injection E as -> -> ->.
    destruct (settle_other env kgs n2) as (Ha & Hla & Hld). assert (rn_armed n2 = false) as Hn2 by (by apply (ir_idle _ _ _ _ H2)).
    assert (in_run Setup n n2 s2) as H3 by (by apply (in_run_setup n Ready)).
    split; [intros m Hm _; by apply (settle_msrs n env s n2 s2)|]. split; [done|]. split; [by rewrite Hld; intros ->|]. intros _ _.
    split; [|by apply (settle_rest n env s)]. apply (settle_msrs n env s n2 s2); [done|done|by apply list_dec|done].
  - destruct (teardown_state env kgs (Err e) (n2, (s2, r2))) as (E & Hd & _). rewrite Hrun in E, Hd. injection E as -> -> ->.
    destruct (settle_other env kgs n2) as (Ha & Hla & Hld).
    split; [intros m Hm Hne; by apply (settle_msrs n env s n2 s2)|]. split; [done|]. split; [by rewrite Hld; intros ->|]. intros reason ->.
    by specialize (Hd reason eq_refl).
Qed.

(** A VMCS that cannot be loaded, or whose translations cannot be flushed: the
    run ends before it began, the VM and memory as they were, with the guest's
    system-call registers loaded. *)
Definition syscall_msrs : list Z := [IA32_STAR; IA32_LSTAR; IA32_CSTAR; IA32_FMASK].
Lemma load_lookup n m : m ∉ syscall_msrs → rn_msrs (load_guest_syscall n) !! m = rn_msrs n !! m.
Proof.
  intros Hm. unfold load_guest_syscall. rewrite !write_lookup, !decide_False; [done|..]; intros ->; by apply Hm, list_in.
Qed.
Lemma run_unprepared env skip fuel n s r :
  env_vmptrld env = false ∨ rn_last_cpu n ≠ Some (env_cpu env) ∧ env_invept env = false →
  ∃ e n', run env skip fuel (n, (s, r)) = (Fail e, (n', (s, r))) ∧ (e = RVmcsLoad ∨ e = RInveptFailed) ∧ rn_msrs n' = rn_msrs (load_guest_syscall n).
Proof.
  intros Hf. unfold run. rewrite (seq_done _ _ _ (read_msr_or_0 IA32_KERNEL_GS_BASE n) (n, (s, r))) by done. unfold mbind at 1, M_bind.
  assert (∃ e n', setup env (n, (s, r)) = (Fail e, (n', (s, r))) ∧ (e = RVmcsLoad ∨ e = RInveptFailed) ∧ rn_msrs n' = rn_msrs (load_guest_syscall n))
    as (e & n' & -> & He); [|by exists e, n'].
  unfold setup. rewrite (seq_done _ _ _ () (load_guest_syscall n, (s, r))) by done.
  destruct (env_vmptrld env); [|exists RVmcsLoad, (load_guest_syscall n); split_and!; [done|by left|done]].
  destruct Hf as [Hf|[Hc Hf]]; [done|].
  rewrite (seq_done _ _ _ () (with_loaded true (load_guest_syscall n), (s, r))) by done.
  rewrite (seq_done _ _ _ (rn_last_cpu n) (with_loaded true (load_guest_syscall n), (s, r))).
  2: { unfold run_gets, gets. f_equal. f_equal. unfold load_guest_syscall, write_msr. by repeat (case_match || cbn). }
  rewrite bool_decide_false, Hf by done. exists RInveptFailed, (with_loaded true (load_guest_syscall n)). split_and!; [done|by right|done].
Qed.
End Host.

(** ** Where the restoration is skipped *)

(** A VMCS that cannot be loaded: the host is left with the guest's system-call
    registers, which were loaded first. *)
Theorem failed_setup_leaves_guest_msrs {R} `{!GuestMem R} (env : host_env R) skip fuel n s r v :
  env_vmptrld env = false → rn_msrs n !! IA32_STAR = Some v →
  ∃ n', run env skip fuel (n, (s, r)) = (Fail RVmcsLoad, (n', (s, r))) ∧ rn_msrs n' !! IA32_STAR = Some (rn_regs n GuestStar).
Proof.
  intros Hl Hv. exists (load_guest_syscall n). split.
  - unfold run, setup. rewrite Hl. done.
  - unfold load_guest_syscall. rewrite !write_lookup, !decide_False by done. rewrite decide_True by done. by rewrite Hv.
Qed.

(** A failed entry: the counter stays armed, with the guest's event select in the
    host's register. *)
Theorem failed_entry_skips_finish :
  let out := run (demo_env false) true 1 (demo_run, (demo_launch, demo_guest)) in
  out.1 = Fail RVmEntry ∧ rn_armed out.2.1 = true ∧ rn_msrs out.2.1 !! IA32_PERFEVTSEL0 = Some PERFEVTSEL0_INST_RETIRED_ANY_P ∧
  rn_msrs demo_run !! IA32_PERFEVTSEL0 = Some 8.
Proof. cbv zeta. split_and!; vm_compute; reflexivity. Qed.

(** *** A run *)
Lemma demo_hardware ok : hardware_ok (demo_env ok).
Proof.
  assert (∀ i n v c r m, m ≠ IA32_LSTAR → st_msrs (demo_stay ok i n v c r) !! m = rn_msrs n !! m) as Hm.
  { intros i n v c r m Hm. cbn. destruct ok; [|done]. destruct (rn_msrs n !! IA32_LSTAR); [|done]. by apply lookup_insert_ne. }
  constructor; cbn [env_stay demo_env].
  - done.
  - intros i n v c r m. destruct (decide (m = IA32_LSTAR)) as [->|Hne]; [|by rewrite Hm].
    cbn. destruct ok; [|done]. destruct (rn_msrs n !! IA32_LSTAR) eqn:E; [|by rewrite E]. by rewrite lookup_insert_eq.
  - intros i n v c r m f Hin. left. apply Hm. intros ->. repeat (apply elem_of_cons in Hin as [[=]|Hin]). by apply not_elem_of_nil in Hin.
  - intros i n v c r m Hd _ _ _. apply Hm. intros ->. by apply Hd, list_in.
Qed.
Lemma demo_at_rest : at_rest demo_run demo_launch.
Proof.
  constructor.
  - reflexivity.
  - intros v Hv. vm_compute in Hv. by injection Hv as <-.
  - intros v Hv. vm_compute in Hv. by injection Hv as <-.
  - intros v Hv. vm_compute in Hv. by injection Hv as <-.
  - intros v Hv. vm_compute in Hv. by injection Hv as <-.
  - intros m f v Hin H1 H2 Hv. exfalso. unfold swapped in Hin.
    do 6 (apply elem_of_cons in Hin as [[= -> ->]|Hin]; [first [by apply H1|by apply H2|by vm_compute in Hv]|]). by apply not_elem_of_nil in Hin.
  - intros c Hc. vm_compute in Hc. by injection Hc as <-.
  - vm_compute. by eexists.
Qed.
Lemma demo_run_restores : ∃ n' s' r',
  run (demo_env true) true 1 (demo_run, (demo_launch, demo_guest)) = (Done NeedResched, (n', (s', r'))) ∧
  rn_msrs n' !! IA32_LSTAR = Some 2 ∧ rn_msrs n' !! IA32_PERFEVTSEL0 = Some 8 ∧ at_rest n' s'.
Proof.
  assert ((run (demo_env true) true 1 (demo_run, (demo_launch, demo_guest))).1 = Done NeedResched) as H by (vm_compute; reflexivity).
  destruct (run (demo_env true) true 1 (demo_run, (demo_launch, demo_guest))) as [o [n' [s' r']]] eqn:E. cbn in H. subst o.
  destruct (run_restores (demo_env true) true 1 demo_run demo_launch demo_guest (Done NeedResched) n' s' r' (demo_hardware true) demo_at_rest
    eq_refl (or_intror eq_refl) E ltac:(discriminate)) as (Hm & _ & _ & Hd).
  destruct (Hd NeedResched eq_refl) as [Hsel Hrest]. exists n', s', r'.
  exact (conj eq_refl (conj (Hm IA32_LSTAR (list_dec counting IA32_LSTAR eq_refl) ltac:(discriminate)) (conj Hsel Hrest))).
Qed.
