(* ===== verification/Requests.v ===== *)
(** * The journey of an I/O request

    The host queues requests with an ioctl, the guest is interrupted and fetches
    them with a hypercall.  Every step a VM can take is one of: an ioctl that
    queues or drains, the handling of an exit, the injection before an entry, or
    the guest itself.  The theorem of this file is about any sequence of them:
    the guest receives the accepted requests, in order, each once. *)
From stdpp Require Import strings.
From S2P Require Import Prelude VmMemory Wire EventLog Random Rtc Apic Vcpu GuestMem Relational Precise Handlers Safety Emulation Mmio ExitLog IoChannel Vmcall Ioctl Dispatch Footprint.

(** ** What leaves the queue alone *)

(** The fields of the channel that its queue is made of. *)
Definition queue_part (s : Vcpu) :=
  let c := io_channel s in (request_len c, request_target_tsc c, request_buf c, pending_actions c).
Abbreviation spares := (keeps queue_part).

Ltac spares_go := keeps_with fail.

Lemma spares_set_gpr i v : spares (modify (set_gpr_value i v) : VM ()).
Proof. apply keeps_modify. intros s. unfold set_gpr_value. by case_match. Qed.
Lemma spares_cr caps q : spares (handle_cr_access caps q).
Proof.
  unfold handle_cr_access, rewrite_cr0, mov_to_cr, mov_from_cr. spares_go. destruct (access_type q); spares_go; apply spares_set_gpr.
Qed.
Lemma spares_io q : spares (handle_io q).
Proof. unfold handle_io. spares_go. unfold out_port. spares_go. Qed.
Lemma spares_random src : spares (handle_random src).
Proof. unfold handle_random. spares_go. apply keeps_modify. intros s. unfold write_gpr_by_index. by repeat case_match. Qed.
Lemma spares_vcpu_handlers h caps reason qual :
  spares (handle_cpuid h) ∧ spares handle_msr_read ∧ spares handle_msr_write ∧ spares (handle_cr_access caps (cr_qualification qual)) ∧
  spares (handle_io (io_qualification qual)) ∧ spares handle_exception_nmi ∧ spares handle_xsetbv ∧ spares handle_rdtsc ∧
  spares handle_rdtscp ∧ spares handle_rdpmc ∧ spares (handle_random reason) ∧ spares handle_idle ∧ spares handle_pebs_precise_exit.
Proof.
  split_and!; try (apply spares_cr || apply spares_io || apply spares_random).
  all: unfold handle_cpuid, handle_msr_read, handle_msr_write, handle_exception_nmi, handle_xsetbv, handle_rdtsc, handle_rdtscp,
    handle_rdpmc, handle_idle, handle_pebs_precise_exit; spares_go.
Qed.
Lemma spares_capture xxh64 junk reason qual det : spares (capture_exit xxh64 junk reason qual det).
Proof.
  unfold capture_exit. spares_go.
  - apply keeps_modify. intros s. by destruct (triggered_shape det s) as (i & [->|(-> & _)]).
Qed.
Lemma spares_shutdown xxh64 junk : spares (capture_exit_at_shutdown xxh64 junk) ∧ spares (capture_exit_at_snapshot xxh64 junk).
Proof. split; unfold capture_exit_at_shutdown, capture_exit_at_snapshot; spares_go. Qed.
(** ** Fetching a request *)
Section Channel.
Context {R : Type} `{!GuestMem R} `{!GuestMemSpec R}.
Implicit Types (s : Vcpu) (r : R).

Lemma overlay_nil old gpa a : overlay old gpa [] a = old a.
Proof. unfold overlay. rewrite decide_False; [done|]. cbn. lia. Qed.
Lemma mapM_overlay (bytes old : Z → option Z) gpa d :
  (∀ a, 0 ≤ a → bytes a = overlay old gpa d a) → 0 ≤ gpa → mapM bytes (seqZ gpa (Z.of_nat (length d))) = Some d.
Proof.
  intros Hb Hg. apply mapM_Some, Forall2_same_length_lookup. split; [rewrite length_seqZ; lia|].
  intros i a b Ha Hd. apply lookup_seqZ in Ha as [-> Hi]. rewrite Hb by lia. unfold overlay. rewrite decide_True by lia.
  by replace (Z.to_nat (gpa + Z.of_nat i - gpa)) with i by lia.
Qed.

Lemma request_chunk_run s r page off n :
  channel_ok (io_channel s) → gm_ok r → 0 ≤ page → 0 ≤ off → page + off < 2 ^ 64 → off + n ≤ IO_CHANNEL_BUF_SIZE →
  let d := load (request_buf (io_channel s)) off (Z.to_nat n) in
  match request_chunk page off n (s, r) with
  | (Done res, (s', r')) => s' = s ∧ gm_ok r' ∧ (res = Ok () → ∀ a, 0 ≤ a → byte_at r' a = overlay (byte_at r) (page + off) d a)
  | _ => False
  end.
Proof.
  intros Hc Hr Hp Ho Hu Hn d. unfold request_chunk, mbind, M_bind, on_vcpu, demand, slice.
  rewrite (proj2 (Z.leb_le _ _)) by done. fold d. unfold u64, wrap, on_mem. rewrite Z.mod_small by lia.
  pose proof (gm_write_law r (page + off) d Hr ltac:(lia)) as Hw.
  assert (Forall is_byte d) as Hd by (apply load_is_byte; intros i; by apply (ck_request_buf _ Hc)). specialize (Hw Hd).
  destruct (gm_write (page + off) d r) as [[[]|e|] r']; cbn; [destruct Hw|..]; done.
Qed.

(** The loop that writes the request: each chunk extends what is written. *)
Lemma copy_request_step s r page len fuel off r0 :
  let d := load (request_buf (io_channel s)) 0 (Z.to_nat len) in
  channel_ok (io_channel s) → gm_ok r → in_width 52 page → 0 ≤ off ≤ len → len ≤ IO_CHANNEL_BUF_SIZE →
  len - off ≤ Z.of_nat fuel →
  (∀ a, 0 ≤ a → byte_at r a = overlay (byte_at r0) page (take (Z.to_nat off) d) a) →
  match chunked fuel (small_chunk len) (request_chunk page) len off (s, r) with
  | (Done res, (s', r')) => s' = s ∧ gm_ok r' ∧ (res = Ok () → ∀ a, 0 ≤ a → byte_at r' a = overlay (byte_at r0) page d a)
  | _ => False
  end.
Proof.
  intros d Hc Hr Hp Ho Hl Hf Hd. revert r off Hr Ho Hf Hd. induction fuel as [|fuel IH]; intros r off Hr Ho Hf Hd; cbn [chunked].
  { rewrite (proj2 (Z.leb_le _ _)) by lia. split; [done|]. split; [done|]. intros _ a Ha. rewrite Hd by done.
    rewrite take_ge; [done|]. unfold d. rewrite length_load. lia. }
  destruct (Z.leb_spec len off).
  { split; [done|]. split; [done|]. intros _ a Ha. rewrite Hd by done. rewrite take_ge; [done|]. unfold d. rewrite length_load. lia. }
  pose proof (small_chunk_bounds len off ltac:(lia)) as Hn. set (n := small_chunk len off) in *. clearbody n. cbv zeta. unfold in_width in Hp.
  pose proof (request_chunk_run s r page off n Hc Hr ltac:(lia) ltac:(lia) ltac:(unfold IO_CHANNEL_BUF_SIZE in *; lia) ltac:(lia)) as Hrun.
  unfold mbind, M_bind. destruct (request_chunk page off n (s, r)) as [[res|e|] [s' r']]; [|done..].
  destruct Hrun as (-> & Hr' & Hv). destruct res as [[]|[]]; [|done]. apply IH; [done|lia|lia|]. intros a Ha. rewrite Hv by done.
  rewrite (overlay_ext _ _ _ _ _ (Hd a Ha)).
  assert (off = Z.of_nat (length (take (Z.to_nat off) d))) as Hlen by (unfold d; rewrite length_take, length_load; lia).
  replace (page + off) with (page + Z.of_nat (length (take (Z.to_nat off) d))) by lia. rewrite overlay_app. f_equal.
  replace (Z.to_nat (off + n)) with (Z.to_nat off + Z.to_nat n)%nat by lia. rewrite <-take_take_drop. f_equal.
  unfold d. replace (Z.to_nat len) with (Z.to_nat off + (Z.to_nat n + (Z.to_nat len - Z.to_nat off - Z.to_nat n)))%nat by lia.
  rewrite load_add, drop_app_length' by (by rewrite length_load). rewrite load_add, take_app_length' by (by rewrite length_load).
  f_equal. lia.
Qed.

Lemma set_result_run v s r :
  match set_result v (s, r) with
  | (Stuck, _) => False
  | (_, (s', r')) => r' = r ∧ io_channel s' = io_channel s ∧ gprs s' RAX = v
  end.
Proof.
  unfold set_result, mbind, M_bind, on_vcpu, modify. assert (io_channel (set_gpr RAX v s) = io_channel s) as Hc by done.
  pose proof (set_gpr_eq RAX v s) as Hv. generalize dependent (set_gpr RAX v s). intros s1 Hc Hv.
  unfold advance_rip, read_guest_rip, read_instruction_len, mbind, M_bind, vmread, map_err, vmwrite.
  destruct (vmcs s1 !! GuestRip) eqn:E; [|done]. destruct (vmcs s1 !! VmExitInstructionLen); [|done]. by rewrite E.
Qed.
Lemma retire_run v res s r :
  match retire v res (s, r) with
  | (Stuck, _) => False
  | (_, (s', r')) => r' = r ∧ io_channel s' = io_channel s ∧ gprs s' RAX = v
  end.
Proof.
  pose proof (set_result_run v s r) as H. unfold retire, mbind, M_bind. by destruct (set_result v (s, r)) as [[[]|e|] [s' r']].
Qed.

(** GET_REQUEST: nothing is queued, the page cannot be written, or the first
    request of the queue is in the page and no longer in the queue. *)
Lemma get_request_run s r :
  queue_ok (io_channel s) → gm_ok r →
  match call_io_get_request (s, r) with
  | (Stuck, _) => False
  | (_, (s', r')) => gm_ok r' ∧
      ((io_channel s' = io_channel s ∧ (gprs s' RAX = u64_MAX ∨ gprs s' RAX = 0 ∧ contents (io_channel s) = [])) ∨
       ∃ t d rest, contents (io_channel s) = (t, d) :: rest ∧ contents (io_channel s') = rest ∧ queue_ok (io_channel s') ∧
         gprs s' RAX = Z.of_nat (length d) ∧ (0 < length d ≤ 4096)%nat ∧
         mapM (byte_at r') (seqZ (page_gpa (io_channel s')) (Z.of_nat (length d))) = Some d)
  end.
Proof.
  intros Hq Hr. set (c := io_channel s) in *. pose proof (qk_channel _ Hq) as Hc. unfold call_io_get_request.
  rewrite (bind_done _ _ _ (page_gpa c) (s, r)), (bind_done _ _ _ (request_len c) (s, r)) by done.
  assert (∀ v (Q : Vcpu → R → Prop), (∀ s', io_channel s' = c → gprs s' RAX = v → Q s' r) →
    match retire v Continue (s, r) with (Stuck, _) => False | (_, (s', r')) => Q s' r' end) as Hret.
  { intros v Q HQ. pose proof (retire_run v Continue s r) as H. destruct (retire v Continue (s, r)) as [[x|e|] [s' r']]; [..|done];
      destruct H as (-> & ? & ?); by apply HQ. }
  destruct (page_gpa c =? 0); [apply Hret; auto|].
  destruct (Z.eqb_spec (request_len c) 0) as [H0|H0]; [apply Hret; intros; split; [done|]; left; split; [done|]; right; by rewrite contents_nil|].
  destruct (contents c) as [|x rest] eqn:Hcon; [by apply contents_nil in Hcon|].
  destruct (consume_contents c x rest Hq Hcon) as (Hc' & Hq' & _ & ->). set (d := load (request_buf c) 0 (Z.to_nat (request_len c))) in *.
  pose proof (ck_request _ Hc) as Hlen. pose proof (ck_page _ Hc) as Hpg.
  pose proof (copy_request_step s r (page_gpa c) (request_len c) (Z.to_nat (request_len c)) 0 r Hc Hr Hpg ltac:(lia) ltac:(lia) ltac:(lia)
    ltac:(intros a Ha; by rewrite overlay_nil)) as Hrun. fold c d in Hrun.
  unfold mbind, M_bind, copy_request_to_guest. destruct (chunked _ _ _ _ _ _) as [[res|e|] [s1 r1]]; [|done..].
  destruct Hrun as (-> & Hr1 & Hv). destruct res as [[]|[]].
  - pose proof (retire_run (request_len c) Continue (with_io_channel (consume_request c) s) r1) as H. unfold on_vcpu, modify. fold c.
    assert (Z.of_nat (length d) = request_len c) as Hd by (unfold d; rewrite length_load; lia). unfold IO_CHANNEL_BUF_SIZE in Hlen.
    assert (page_gpa (consume_request c) = page_gpa c) as Hpc by (unfold consume_request, promote_next_pending; cbn; by destruct (pending_actions c)).
    assert (mapM (byte_at r1) (seqZ (page_gpa c) (request_len c)) = Some d) as Hm
      by (rewrite <-Hd; apply (mapM_overlay _ (byte_at r)); [by apply Hv|apply Hpg]).
    destruct (retire _ _ _) as [[x|e|] [s' r']]; [..|done]; destruct H as (-> & Hch & Hrax); split; try done; right;
      exists (request_target_tsc c), d, rest; rewrite Hch, Hrax; cbn [io_channel with_io_channel]; rewrite Hpc, Hd; split_and!; done || lia.
  - pose proof (retire_run u64_MAX Continue s r1) as H. destruct (retire _ _ _) as [[x|e|] [s' r']]; [..|done]; destruct H as (-> & ? & ?); auto.
Qed.
End Channel.

(** ** Exits that fetch nothing *)
Section Inert.
Context {R : Type} `{!GuestMem R}.
Abbreviation inert := (leaves (R := R) queue_part).

Ltac inert_go := leaves_with fail.

Lemma inert_retire v res : inert (retire v res).
Proof. unfold retire, set_result. inert_go. Qed.
Lemma inert_ept qual : inert (handle_ept_violation qual).
Proof.
  unfold handle_ept_violation, handle_apic_access, handle_ioapic_access, apic_effect, ioapic_effect, fetch, advance_to.
  inert_go; apply leaves_vcpu; spares_go; apply spares_set_gpr.
Qed.
Lemma inert_pebs pa va : inert (register_pebs_page pa va).
Proof. unfold register_pebs_page. inert_go. Qed.
Lemma spares_fill fuel cap off : spares (fill_seeded fuel cap off).
Proof.
  revert off. induction fuel as [|fuel IH]; intros off; cbn [fill_seeded]; destruct (_ <=? _); try done.
  apply keeps_bind; [done|]. intros v. apply keeps_bind; [by apply keeps_modify|]. intros _. apply keeps_bind; [apply IH|done].
Qed.
Lemma inert_random : inert call_get_random.
Proof.
  unfold call_get_random, ensure_guest_writable, write_guest_bytes, retire, set_result. inert_go. apply leaves_vcpu, spares_fill.
Qed.
Lemma inert_put : inert call_io_put_response.
Proof. unfold call_io_put_response, copy_response_from_guest, copy_from_guest, put_response, retire, set_result. inert_go. Qed.

Lemma inert_vmcall xxh64 junk pa heap st :
  gprs st.1 RAX ≠ HYPERCALL_IO_GET_REQUEST → queue_part (handle_vmcall xxh64 junk pa heap st).2.1 = queue_part st.1.
Proof.
  intros Hne. unfold handle_vmcall.
  enough (∀ m : GM R ExitHandlerResult, queue_part (m st).2.1 = queue_part st.1 → queue_part (guarded m st).2.1 = queue_part st.1) as H.
  2: { intros m Hm. unfold guarded. by destruct (m st) as [[]]. }
  apply H. clear H. rewrite (bind_done _ _ _ (gprs st.1 RAX) st) by (by destruct st).
  destruct (spares_shutdown xxh64 junk) as [Hsh Hsn].
  rewrite (proj2 (Z.eqb_neq (gprs st.1 RAX) HYPERCALL_IO_GET_REQUEST)) by done.
  match goal with |- queue_part (?m st).2.1 = _ => enough (inert m) as H by exact (H st) end.
  repeat match goal with |- inert (if ?b then _ else _) => destruct b end;
    unfold call_shutdown, call_snapshot, call_ready, call_register_feedback_buffer, call_register_pebs_page, call_file_fetch,
      call_file_store, call_io_register_page, call_serial_register_page, call_serial_write, copy_serial_console_from_guest,
      copy_from_guest, put_console; try apply inert_put; try apply inert_random; try apply inert_retire; try apply leaves_ret.
  all: repeat (apply leaves_bind; [|intros ?]); try (apply leaves_vcpu; first [apply Hsh|apply Hsn|spares_go; fail]); try apply inert_pebs; try apply inert_retire; try apply leaves_ret.
  all: inert_go; try apply inert_retire.
Qed.
End Inert.

(** ** Exits *)
Definition fetch_view (s : Vcpu) := (gprs s, io_channel s).
Lemma finish_fetch_view p reason qual t nondet result : keeps fetch_view (finish_exit p reason qual t nondet result).
Proof.
  unfold finish_exit, update_mtf_state. apply keeps_bind; [by apply keeps_rdtsc|]. intros t'. apply keeps_bind.
  { apply keeps_modify. intros s. unfold record_stats. by destruct (_ && _). }
  intros _. apply keeps_bind; [spares_go|]. intros _. apply keeps_bind; [done|]. intros [].
  { unfold capture_exit_at_shutdown. spares_go. }
  apply keeps_bind; [done|]. intros en. apply keeps_bind; [|spares_go]. destruct en; [|done]. unfold capture_exit. spares_go.
  apply keeps_modify. intros s. by destruct (triggered_shape (negb nondet) s) as (i & [->|(-> & _)]).
Qed.
Lemma note_fetch_view reason qual s : fetch_view (note_exit reason qual s) = fetch_view s.
Proof. unfold note_exit. cbv zeta. by destruct (negb _). Qed.

(** The exit is a hypercall that asks for a request. *)
Definition fetching (s : Vcpu) : bool :=
  match vmcs s !! VmExitReason, vmcs s !! ExitQualification with
  | Some raw, Some _ => bool_decide (exit_reason_of raw = inr Vmcall) && (gprs s RAX =? HYPERCALL_IO_GET_REQUEST)
  | _, _ => false
  end.

Section Exits.
Context {R : Type} `{!GuestMem R} `{!GuestMemSpec R}.
Abbreviation inert := (leaves (R := R) queue_part).

Lemma fetch_view_part s s' : fetch_view s' = fetch_view s → queue_part s' = queue_part s.
Proof. intros H. unfold queue_part. pose proof (f_equal snd H) as E. cbn in E. by rewrite E. Qed.

(** The computation of an exit, from its dispatch. *)
Lemma handle_exit_run p heap s r raw reason qual :
  vmcs s !! VmExitReason = Some raw → exit_reason_of raw = inr reason → vmcs s !! ExitQualification = Some qual →
  ∃ s2, fetch_view s2 = fetch_view s ∧
    fetch_view (handle_exit p heap (s, r)).2.1 = fetch_view (dispatch p heap reason qual (s2, r)).2.1 ∧
    (handle_exit p heap (s, r)).2.2 = (dispatch p heap reason qual (s2, r)).2.2.
Proof.
  intros Hraw Hreason Hqual. set (s1 := with_clock (mkClock (clock_values (clock s)) (S (clock_reads (clock s)))) s).
  exists (note_exit reason qual s1). rewrite note_fetch_view. split; [done|]. unfold handle_exit, guarded.
  rewrite (bind_done _ _ _ _ (s1, r)) by reflexivity. rewrite (bind_done _ _ _ reason (s1, r)).
  2: { unfold on_vcpu, read_exit_reason, mbind, M_bind, vmread. change (vmcs s1) with (vmcs s). rewrite Hraw. cbn. by rewrite Hreason. }
  rewrite (bind_done _ _ _ qual (s1, r)) by (unfold on_vcpu, read_exit_qualification, vmread; change (vmcs s1) with (vmcs s); by rewrite Hqual).
  rewrite (bind_done _ _ _ (non_deterministic_exit reason qual s1) (s1, r)) by done.
  rewrite (bind_done _ _ _ () (note_exit reason qual s1, r)) by done. unfold mbind, M_bind.
  destruct (dispatch p heap reason qual _) as [[x|e|] [s3 r3]]; [|done..].
  match goal with |- context [finish_exit _ _ _ ?t ?n x] => pose proof (finish_fetch_view p reason qual t n x s3) as Hf end.
  unfold on_vcpu. by destruct (finish_exit _ _ _ _ _ _ _) as [[y|e|] s4].
Qed.
Lemma handle_exit_early p heap s r :
  (vmcs s !! VmExitReason = None ∨ (∃ raw b, vmcs s !! VmExitReason = Some raw ∧ exit_reason_of raw = inl b) ∨ vmcs s !! ExitQualification = None) →
  fetch_view (handle_exit p heap (s, r)).2.1 = fetch_view s.
Proof.
  intros H. set (s1 := with_clock (mkClock (clock_values (clock s)) (S (clock_reads (clock s)))) s). unfold handle_exit, guarded.
  rewrite (bind_done _ _ _ _ (s1, r)) by reflexivity. unfold mbind at 1, M_bind at 1, on_vcpu at 1, read_exit_reason, mbind at 1, M_bind at 1, vmread at 1.
  change (vmcs s1) with (vmcs s). destruct (vmcs s !! VmExitReason) as [raw|]; [|done]. destruct (exit_reason_of raw) as [b|reason] eqn:E; [done|].
  cbn [mret M_ret]. unfold mbind at 1, M_bind at 1, on_vcpu at 1, read_exit_qualification, vmread at 1. change (vmcs s1) with (vmcs s).
  destruct H as [?|[(? & ? & [= <-] & ?)| ->]]; [done|congruence|done].
Qed.

Lemma dispatch_inert p heap reason qual st :
  (reason = Vmcall → gprs st.1 RAX ≠ HYPERCALL_IO_GET_REQUEST) → queue_part (dispatch p heap reason qual st).2.1 = queue_part st.1.
Proof.
  intros Hne. destruct (decide (reason = Vmcall)) as [->|Hr]; [by apply inert_vmcall, Hne|].
  destruct (spares_vcpu_handlers (pf_cpuid p) (pf_caps p) Wire.Rdrand qual) as (? & ? & ? & ? & ? & ? & ? & ? & ? & ? & ? & ? & _).
  pose proof (spares_random Wire.Rdseed).
  enough (inert (dispatch p heap reason qual)) as H' by exact (H' st). unfold dispatch.
  destruct reason; first
    [ apply leaves_ret | by destruct Hr | apply inert_ept | apply leaves_vcpu; assumption
    | apply leaves_bind; [|intros; apply leaves_ret]; apply leaves_vcpu; unfold disable_interrupt_window_exiting; spares_go ].
Qed.
Lemma exit_inert p heap s r : fetching s = false → queue_part (handle_exit p heap (s, r)).2.1 = queue_part s.
Proof.
  intros Hf. unfold fetching in Hf.
  destruct (vmcs s !! VmExitReason) as [raw|] eqn:Hraw; [|by apply fetch_view_part, handle_exit_early; left].
  destruct (vmcs s !! ExitQualification) as [qual|] eqn:Hqual; [|by apply fetch_view_part, handle_exit_early; right; right].
  destruct (exit_reason_of raw) as [b|reason] eqn:Hreason; [apply fetch_view_part, handle_exit_early; right; left; eauto|].
  destruct (handle_exit_run p heap s r raw reason qual Hraw Hreason Hqual) as (s2 & Hs2 & Hv & _).
  rewrite (fetch_view_part _ _ Hv), dispatch_inert; [by apply fetch_view_part|]. intros ->. cbn.
  pose proof (f_equal fst Hs2) as E. cbn in E. rewrite E. rewrite bool_decide_true in Hf by done. cbn in Hf. by apply Z.eqb_neq.
Qed.
End Exits.

(** ** The journey *)

(** What the caller's memory may hold: bytes, as many as were asked for. *)
Definition user_ok (from_user : Z → nat → option (list Z)) : Prop :=
  ∀ a n bs, from_user a n = Some bs → length bs = n ∧ Forall is_byte bs.
(** The bytes a QUEUE ioctl is about to queue. *)
Definition queued_bytes (from_user : Z → nat → option (list Z)) (arg : Z) : list Z :=
  match from_user arg 16%nat ≫= decode io_action_header_layout with
  | Some ([len; _; _], _) => if 0 <? len then default [] (from_user (arg + IO_ACTION_DATA_OFFSET) (Z.to_nat len)) else []
  | _ => []
  end.

Lemma header_fits from_user arg bs vals rest :
  user_ok from_user → from_user arg 16%nat = Some bs → decode io_action_header_layout bs = Some (vals, rest) →
  ∃ len reserved target, vals = [len; reserved; target] ∧ 0 ≤ len ∧ in_width 64 target.
Proof.
  intros Hu Hbs Hd. destruct (Hu _ _ _ Hbs) as [_ Hb]. pose proof (decode_fits _ _ _ _ Hb Hd) as Hf.
  inversion Hf as [|? len ? v1 Hlen Hf1]; subst. inversion Hf1 as [|? rsv ? v2 _ Hf2]; subst.
  inversion Hf2 as [|? tgt ? v3 Ht Hf3]; subst. inversion Hf3; subst. exists len, rsv, tgt. split; [done|]. split; [apply Hlen|done].
Qed.

(** A QUEUE ioctl refuses and changes nothing, or appends its bytes. *)
Lemma queue_run from_user heap slot arg f o f' out :
  user_ok from_user → handle_queue_io_action from_user heap slot arg (f, []) = (o, (f', out)) →
  match o with
  | Done _ => ∃ target c, let a := mkIoAction target (queued_bytes from_user arg) in
      action_ok a ∧ enqueue_pending slot a (io_channel (vf_vcpu f)) = (Queued, c) ∧
      f' = on_file (with_io_channel (promote_next_pending c)) f
  | Fail _ => f' = f
  | Stuck => True
  end.
Proof.
  intros Hu. unfold handle_queue_io_action, read_struct, copy_from_user, queued_bytes, throw, mbind, M_bind.
  change (sum_list io_action_header_layout) with 16%nat. destruct (from_user arg 16%nat) as [bs|] eqn:Hbs; [|by intros [= <- <- <-]].
  cbn [option_bind mbind]. cbn [mret M_ret]. destruct (decode io_action_header_layout bs) as [[vals rest]|] eqn:Hd; [|by intros [= <- <- <-]].
  destruct (header_fits _ _ _ _ _ Hu Hbs Hd) as (len & rsv & tgt & -> & Hlen & Ht).
  unfold mret, M_ret. cbv beta iota. destruct (Z.ltb_spec BEDROCK_IO_CHANNEL_BUF_SIZE len) as [|Hmax]; [by intros [= <- <- <-]|].
  destruct heap; [|by intros [= <- <- <-]]. cbn [negb]. unfold BEDROCK_IO_CHANNEL_BUF_SIZE in Hmax.
  assert (∀ data, Forall is_byte data → Z.of_nat (length data) ≤ 4096 →
    match enqueue_pending slot (mkIoAction tgt data) (io_channel (vf_vcpu f)) with
    | (Queued, chan) => change (with_io_channel (promote_next_pending chan))
    | (QueueFull, chan) => throw EBUSY
    | (OutOfMemory, chan) => throw ENOMEM
    end (f, []) = (o, (f', out)) →
    match o with
    | Done _ => ∃ target c, action_ok (mkIoAction target data) ∧ enqueue_pending slot (mkIoAction target data) (io_channel (vf_vcpu f)) = (Queued, c) ∧
        f' = on_file (with_io_channel (promote_next_pending c)) f
    | Fail _ => f' = f
    | Stuck => True
    end) as H.
  { intros data Hdb Hdl. destruct (enqueue_pending slot (mkIoAction tgt data) (io_channel (vf_vcpu f))) as [[] c] eqn:Hen; intros [= <- <- <-]; [|done..].
    exists tgt, c. split; [|by rewrite Hen]. split; [done|]. split; [cbn; lia|done]. }
  destruct (Z.ltb_spec 0 len); [|refine (H [] _ _); [done|cbn; lia]].
  destruct (from_user (arg + IO_ACTION_DATA_OFFSET) (Z.to_nat len)) as [data|] eqn:Hdata; [|by intros [= <- <- <-]].
  destruct (Hu _ _ _ Hdata) as [Hdl Hdb]. refine (H data _ _); [done|lia].
Qed.
(** A DRAIN ioctl changes the response's length at most. *)
Lemma drain_run from_user to_user arg f o f' out :
  handle_drain_io_response from_user to_user arg (f, []) = (o, (f', out)) →
  f' = f ∨ f' = on_file (λ s, with_io_channel (set_response_len 0 (io_channel s)) s) f.
Proof.
  unfold handle_drain_io_response, read_struct, copy_from_user, copy_to_user, change, state, gets, modify, throw, stuck, mbind, M_bind, mret, M_ret.
  destruct (from_user arg _) as [bs|]; [|intros [= <- <- <-]; by left]. destruct (decode _ bs) as [[vals rest]|]; [|intros [= <- <- <-]; by left].
  cbv beta iota. destruct vals as [|cap [|? [|? [|? ?]]]]; try (intros [= <- <- <-]; by left).
  destruct (_ <? cap); [intros [= <- <- <-]; by left|]. cbn [fst snd]. cbv zeta.
  set (len := Z.min _ cap). destruct (0 <? len); [destruct (to_user (arg + _) _)|]; cbv beta iota; try (intros [= <- <- <-]; by left);
    destruct (to_user arg _); cbv beta iota; intros [= <- <- <-]; auto.
Qed.
Lemma inject_spares eax : spares (inject_pending_interrupt eax).
Proof.
  unfold inject_pending_interrupt. apply keeps_bind.
  { intros s. destruct (inject_eligible_injected s) as [_ _ Hi _ _]. unfold queue_part. by destruct Hi as [->| ->]. }
  intros el. apply keeps_bind.
  - apply keeps_modify. intros s. destruct (arm_keeps eax s) as (_ & _ & Hi & _). unfold queue_part. by rewrite Hi.
  - intros _. destruct el; [|done]. intros s. pose proof (deliver_keeps s) as Hk. unfold sched in Hk. unfold queue_part. by injection Hk as _ _ _ _ _ _ _ -> _.
Qed.

Section Journey.
Context {R : Type} `{!GuestMem R} `{!GuestMemSpec R}.
Implicit Types (s : Vcpu) (r : R) (f : vm_file).

(** The bytes in the page after a successful fetch: RAX is their number. *)
Definition fetched s r : list (list Z) :=
  if (gprs s RAX =? 0) || (gprs s RAX =? u64_MAX) then []
  else option_list (mapM (byte_at r) (seqZ (page_gpa (io_channel s)) (gprs s RAX))).

(** The steps of a VM, with what they accept from the host and deliver to the
    guest. *)
Inductive vm_step : vm_file * R → list (list Z) → list (list Z) → vm_file * R → Prop :=
| step_queue from_user heap slot arg f r f' out :
    user_ok from_user → handle_queue_io_action from_user heap slot arg (f, []) = (Done (), (f', out)) →
    queued_bytes from_user arg ≠ [] → vm_step (f, r) [queued_bytes from_user arg] [] (f', r)
| step_refused from_user heap slot arg f r e f' out :
    user_ok from_user → handle_queue_io_action from_user heap slot arg (f, []) = (Fail e, (f', out)) → vm_step (f, r) [] [] (f', r)
| step_drain from_user to_user arg f r o f' out :
    user_ok from_user → handle_drain_io_response from_user to_user arg (f, []) = (o, (f', out)) → vm_step (f, r) [] [] (f', r)
| step_exit p heap f r res s' r' :
    platform_ok p → handle_exit p heap (vf_vcpu f, r) = (Done res, (s', r')) →
    vm_step (f, r) [] (if fetching (vf_vcpu f) then fetched s' r' else []) (on_file (λ _, s') f, r')
| step_inject eax f r o s' : inject_pending_interrupt eax (vf_vcpu f) = (o, s') → vm_step (f, r) [] [] (on_file (λ _, s') f, r)
| step_guest f r s' r' :
    vcpu_ok s' → gm_ok r' → io_channel s' = io_channel (vf_vcpu f) → vm_step (f, r) [] [] (on_file (λ _, s') f, r').
Inductive vm_run : vm_file * R → list (list Z) → list (list Z) → vm_file * R → Prop :=
| run_nil st : vm_run st [] [] st
| run_cons st acc del st1 acc' del' st2 :
    vm_step st acc del st1 → vm_run st1 acc' del' st2 → vm_run st (acc ++ acc') (del ++ del') st2.

Definition waiting (st : vm_file * R) : list (list Z) := (contents (io_channel (vf_vcpu st.1))).*2.
Definition running_ok (st : vm_file * R) : Prop :=
  vcpu_ok (vf_vcpu st.1) ∧ gm_ok st.2 ∧ queue_ok (io_channel (vf_vcpu st.1)).

Lemma queue_part_ok s s' :
  queue_part s' = queue_part s → vcpu_ok s' → queue_ok (io_channel s) →
  queue_ok (io_channel s') ∧ contents (io_channel s') = contents (io_channel s).
Proof.
  intros H Hs' [_ Hn Hb]. unfold queue_part in H. cbv zeta in H. injection H as E1 E2 E3 E4.
  split; [|unfold contents, in_slot; by rewrite E1, E2, E3, E4]. constructor; [apply (vk_channel _ (ok_core _ Hs'))|by rewrite E4|by rewrite E1, E4].
Qed.
Lemma step_keeps f r s' r' :
  running_ok (f, r) → vcpu_ok s' → gm_ok r' → queue_part s' = queue_part (vf_vcpu f) →
  running_ok (on_file (λ _, s') f, r') ∧ waiting (on_file (λ _, s') f, r') = waiting (f, r).
Proof.
  intros (Hs & Hr & Hq) Hs' Hr' Hp. destruct (queue_part_ok _ _ Hp Hs' Hq) as [Hq' Hc]. split; [done|]. unfold waiting. cbn. by rewrite Hc.
Qed.

(** An exit that fetches: the head of the queue, or nothing. *)
Lemma exit_fetches p heap s r res s' r' :
  platform_ok p → vcpu_ok s → gm_ok r → queue_ok (io_channel s) → fetching s = true →
  handle_exit p heap (s, r) = (Done res, (s', r')) →
  queue_ok (io_channel s') ∧ (contents (io_channel s)).*2 = fetched s' r' ++ (contents (io_channel s')).*2 ∧
  (gprs s' RAX = 0 → contents (io_channel s) = []).
Proof.
  intros Hp Hs Hr Hq Hf E. unfold fetching in Hf. destruct (vmcs s !! VmExitReason) as [raw|] eqn:Hraw; [|done].
  destruct (vmcs s !! ExitQualification) as [qual|] eqn:Hqual; [|done]. apply andb_true_iff in Hf as [Hreason%bool_decide_eq_true Hrax].
  destruct (handle_exit_run p heap s r raw Vmcall qual Hraw Hreason Hqual) as (s2 & Hs2 & Hv & Hm). rewrite E in Hv, Hm. cbn in Hv, Hm.
  assert (gprs s2 RAX = HYPERCALL_IO_GET_REQUEST) as Hnr by (pose proof (f_equal fst Hs2) as G; cbn in G; rewrite G; lia).
  assert (io_channel s2 = io_channel s) as Hch by exact (f_equal snd Hs2).
  pose proof (get_request_run s2 r) as Hg. rewrite Hch in Hg. specialize (Hg Hq Hr).
  assert ((handle_vmcall (pf_xxh64 p) (pf_junk p) (pf_exit_load_pa p) heap (s2, r)).2 = (call_io_get_request (s2, r)).2) as Hcall.
  { unfold handle_vmcall, guarded. rewrite (bind_done _ _ _ (gprs s2 RAX) (s2, r)) by done. rewrite Hnr. cbn. by destruct (call_io_get_request (s2, r)) as [[]]. }
  rewrite Hcall in Hv, Hm. destruct (call_io_get_request (s2, r)) as [o [s3 r3]]. cbn in Hv, Hm. subst r'.
  assert (io_channel s' = io_channel s3) as Hch' by exact (f_equal snd Hv). assert (gprs s' = gprs s3) as Hgp by exact (f_equal fst Hv).
  assert (gm_ok r3 ∧ _) as [Hr3 Hcase] by (destruct o; [exact Hg..|done]). unfold fetched. rewrite Hch', Hgp.
  destruct Hcase as [[Hsame Hrv]|(t & d & rest & Hcon & Hcon' & Hq' & Hlen & Hd & Hb)].
  - rewrite Hsame. split; [done|]. destruct Hrv as [-> |[-> ->]]; [|done]. cbn. split; [done|]. unfold u64_MAX. lia.
  - split; [done|]. rewrite Hlen, Hcon, Hcon'. rewrite !(proj2 (Z.eqb_neq _ _)) by (unfold u64_MAX; lia). cbn [orb]. rewrite Hb.
    split; [done|]. lia.
Qed.

Lemma step_order st acc del st' :
  running_ok st → vm_step st acc del st' → running_ok st' ∧ waiting st ++ acc = del ++ waiting st'.
Proof.
  intros Hok Hstep. destruct Hstep as [from heap slot arg f r f' out Hu E Hne|from heap slot arg f r e f' out Hu E|from to arg f r o f' out Hu E
    |p heap f r res s' r' Hp E|eax f r o s' E|f r s' r' Hs' Hr' Hi]; rewrite ?app_nil_r.
  - destruct (queue_run _ _ _ _ _ _ _ _ Hu E) as (target & c & Ha & Hen & ->). destruct Hok as (Hs & Hr & Hq); cbn [fst snd] in Hs, Hr, Hq.
    destruct (enqueue_contents _ _ _ _ _ Hq Ha Hne Hen) as [Hc Hq'].
    split; [|unfold waiting; cbn; by rewrite Hc, fmap_app]. split; [|done]. destruct Hs as [Hcore Hev Hclk].
    constructor; [|done|done]. apply core_channel; [apply Hq'|done].
  - by rewrite (queue_run _ _ _ _ _ _ _ _ Hu E).
  - destruct (drain_run _ _ _ _ _ _ _ E) as [->| ->]; [done|]. destruct Hok as (Hs & Hr & Hq); cbn [fst snd] in Hs, Hr, Hq.
    assert (vcpu_ok (with_io_channel (set_response_len 0 (io_channel (vf_vcpu f))) (vf_vcpu f))) as Hs'.
    { destruct Hs as [Hcore Hev Hclk]. constructor; [|done|done]. apply core_channel; [|done]. apply set_response_len_ok; [done|apply Hcore]. }
    destruct (step_keeps f r _ r ltac:(done) Hs' Hr ltac:(done)) as [H1 H2]. done.
  - destruct Hok as (Hs & Hr & Hq); cbn [fst snd] in Hs, Hr, Hq. destruct (handle_exit_safe p heap _ r Hp Hs Hr) as (res' & s1 & r1 & E' & Hs1 & Hr1).
    rewrite E in E'. injection E' as <- <- <-. destruct (fetching (vf_vcpu f)) eqn:Hf.
    + destruct (exit_fetches p heap _ r res s' r' Hp Hs Hr Hq Hf E) as (Hq' & Hw & _). done.
    + pose proof (exit_inert p heap (vf_vcpu f) r Hf) as Hi. rewrite E in Hi.
      destruct (step_keeps f r s' r' ltac:(done) Hs1 Hr1 Hi) as [H1 H2]. done.
  - destruct Hok as (Hs & Hr & Hq); cbn [fst snd] in Hs, Hr, Hq. assert (vcpu_ok s') as Hs'.
    { pose proof (vt_inject_pending eax _ _ (sim_refl _ Hs)) as H. rewrite E in H. destruct o; [destruct H as (_ & _ & H)|destruct H as [_ H]|done];
        by destruct (sim_ok _ _ H). }
    pose proof (inject_spares eax (vf_vcpu f)) as Hi. rewrite E in Hi. destruct (step_keeps f r s' r ltac:(done) Hs' Hr Hi) as [H1 H2]. done.
  - destruct Hok as (Hs & Hr & Hq); cbn [fst snd] in Hs, Hr, Hq. assert (queue_part s' = queue_part (vf_vcpu f)) as Hp by (unfold queue_part; by rewrite Hi).
    destruct (step_keeps f r s' r' ltac:(done) Hs' Hr' Hp) as [H1 H2]. done.
Qed.

End Journey.

(** *** A request of two bytes, queued and fetched *)
Definition demo_user (bytes : list Z) (a : Z) (n : nat) : option (list Z) :=
  let m := le_bytes 4 (Z.of_nat (length bytes)) ++ le_bytes 4 0 ++ le_bytes 8 0 ++ bytes in
  let off := Z.to_nat a in
  if (off + n <=? length m)%nat then Some (take n (drop off m)) else None.
Lemma demo_user_ok bytes : Forall is_byte bytes → user_ok (demo_user bytes).
Proof.
  intros Hb a n bs. unfold demo_user.
  assert (Forall is_byte (le_bytes 4 (Z.of_nat (length bytes)) ++ le_bytes 4 0 ++ le_bytes 8 0 ++ bytes)) as Hm
    by (repeat (apply Forall_app; split; [apply le_bytes_is_byte|]); done).
  revert Hm. generalize (le_bytes 4 (Z.of_nat (length bytes)) ++ le_bytes 4 0 ++ le_bytes 8 0 ++ bytes) as m. intros m Hm. cbv zeta.
  destruct (Nat.leb_spec (Z.to_nat a + n) (length m)) as [Hl|]; [|done].
  intros [= <-]. split; [rewrite length_take, length_drop; lia|]. by apply Forall_take, Forall_drop.
Qed.
(** A guest that is about to fetch, its page at 0x1800. *)
Definition demo_fetch : Vcpu :=
  set_gpr RAX HYPERCALL_IO_GET_REQUEST (with_io_channel (mkIoChannel 0x1800 0 false 0 0 (λ _, 0) (λ _, 0) []) (demo_exit 18)).
Definition demo_file : vm_file := mkFile 1 demo_fetch false.

Lemma demo_fetch_ok : vcpu_ok demo_fetch.
Proof.
  destruct (demo_exit_ok 18 ltac:(by apply width_const)) as [Hc He Hk]. constructor; [|exact He|exact Hk]. unfold demo_fetch.
  apply core_set_gpr; [by apply width_const|]. apply core_channel; [|exact Hc].
  constructor; cbn; try (by apply width_const); try (intros; split; lia); try (split; unfold IO_CHANNEL_BUF_SIZE; lia). constructor.
Qed.
Lemma demo_running_ok : running_ok (demo_file, demo_guest).
Proof.
  split; [exact demo_fetch_ok|]. split; [exact demo_guest_ok|]. constructor; [apply (vk_channel _ (ok_core _ demo_fetch_ok))|constructor|reflexivity].
Qed.

Definition demo_queued : vm_file := (handle_queue_io_action (demo_user [104; 105]) true true 0 (demo_file, [])).2.1.
Abbreviation demo_fetched := (handle_exit demo_platform true (vf_vcpu demo_queued, demo_guest)).

Lemma demo_queue_step : vm_step (demo_file, demo_guest) [[104; 105]] [] (demo_queued, demo_guest).
Proof.
  assert (queued_bytes (demo_user [104; 105]) 0 = [104; 105]) as Hb by (vm_compute; reflexivity). rewrite <-Hb. unfold demo_queued.
  destruct (handle_queue_io_action (demo_user [104; 105]) true true 0 (demo_file, [])) as [o [f' out]] eqn:E.
  assert ((handle_queue_io_action (demo_user [104; 105]) true true 0 (demo_file, [])).1 = Done ()) as Ho by (vm_compute; reflexivity).
  rewrite E in Ho. cbn [fst] in Ho. rewrite Ho in E.
  refine (step_queue (demo_user [104; 105]) true true 0 demo_file demo_guest f' out _ E _); [|by rewrite Hb].
  apply demo_user_ok. by apply bytes_check.
Qed.
Lemma demo_fetched_done : demo_fetched.1 = Done Continue.
Proof. vm_compute. reflexivity. Qed.
Lemma demo_fetched_bytes : fetched demo_fetched.2.1 demo_fetched.2.2 = [[104; 105]].
Proof. vm_compute. reflexivity. Qed.
Lemma demo_fetching : fetching (vf_vcpu demo_queued) = true.
Proof. vm_compute. reflexivity. Qed.
Lemma demo_fetch_step : ∃ st', vm_step (demo_queued, demo_guest) [] [[104; 105]] st'.
Proof.
  pose proof demo_fetched_done as Ho. pose proof demo_fetched_bytes as Hd. pose proof (eq_refl demo_fetched) as E.
  revert E Ho Hd. generalize demo_fetched at 2 3 4 5. intros [o [s' r']] E Ho Hd. cbn [fst snd] in Ho, Hd. subst o.
  pose proof (step_exit demo_platform true demo_queued demo_guest Continue s' r' demo_platform_ok E) as Hstep.
  rewrite demo_fetching, Hd in Hstep. by eexists.
Qed.


(** A request of no bytes is accepted, takes the slot's turn and leaves the slot
    free: the request behind it waits although nothing is in flight, and a fetch
    answers that there is none. *)
Definition stalled : IoChannelState :=
  let queue bytes c := promote_next_pending (enqueue_pending true (mkIoAction 0 bytes) c).2 in
  consume_request (queue [98] (queue [] (queue [97] (mkIoChannel 0x1800 0 false 0 0 (λ _, 0) (λ _, 0) [])))).
Lemma empty_request_stalls_queue :
  request_len stalled = 0 ∧ pending_actions stalled = [mkIoAction 0 [98]] ∧
  ∀ s (r : machine Ept.bump Z), io_channel s = stalled → queue_part (call_io_get_request (s, r)).2.1 = queue_part s.
Proof.
  split; [reflexivity|]. split; [reflexivity|]. intros s r Hc. unfold call_io_get_request.
  rewrite (bind_done _ _ _ 0x1800 (s, r)) by (unfold on_vcpu, gets; by rewrite Hc).
  rewrite (bind_done _ _ _ 0 (s, r)) by (unfold on_vcpu, gets; by rewrite Hc). cbn [Z.eqb]. apply inert_retire.
Qed.
