(* ===== verification/Setup.v ===== *)
(** * Creating a virtual machine (crate [bedrock-vmx]: [vm_state.rs],
    [traits/vmcs.rs], [traits/vmx.rs], [traits/capabilities.rs], [host.rs])

    What the processor allows is read from its capability registers, the host's
    state is captured, the VMCS is filled in, the MSR bitmap lets a few registers
    through, and the state of the virtual processor starts from its defaults
    ([new]) or from those of a parent ([new_for_fork]).  The theorems: the bitmap
    lets exactly the registers through that a run restores; the controls for the
    exits that the code asks for are set on a processor that offers them; a new VM and a fork
    are well-formed and ready to run; a fork starts as its parent is, but for CR2.  The VMCS
    region, page allocation and the VMX instructions are parameters. *)
From stdpp Require Import strings.
From S2P Require Import Prelude Wire EventLog Random Rtc Apic Vcpu GuestMem Relational Precise Handlers Safety Emulation Mmio ExitLog IoChannel Vmcall Dispatch Footprint Run HostState.

(** ** Encodings *)
Definition VirtualProcessorId : Z := 0x0000.
Definition HostEsSelector : Z := 0x0C00.
Definition HostCsSelector : Z := 0x0C02.
Definition HostSsSelector : Z := 0x0C04.
Definition HostDsSelector : Z := 0x0C06.
Definition HostFsSelector : Z := 0x0C08.
Definition HostGsSelector : Z := 0x0C0A.
Definition HostTrSelector : Z := 0x0C0C.
Definition MsrBitmapAddr : Z := 0x2004.
Definition EptPointer : Z := 0x201A.
Definition VmcsLinkPointer : Z := 0x2800.
Definition HostIa32Pat : Z := 0x2C00.
Definition PinBasedVmExecControls : Z := 0x4000.
Definition PageFaultErrorCodeMask : Z := 0x4006.
Definition PageFaultErrorCodeMatch : Z := 0x4008.
Definition Cr3TargetCount : Z := 0x400A.
Definition SecondaryProcBasedVmExecControls : Z := 0x401E.
Definition Cr0GuestHostMask : Z := 0x6000.
Definition Cr4GuestHostMask : Z := 0x6002.
Definition HostCr0 : Z := 0x6C00.
Definition HostCr4 : Z := 0x6C04.
Definition HostIdtrBase : Z := 0x6C0E.
Definition HostRip : Z := 0x6C16.

Definition IA32_VMX_PINBASED_CTLS : Z := 0x481.
Definition IA32_VMX_PROCBASED_CTLS : Z := 0x482.
Definition IA32_VMX_EXIT_CTLS : Z := 0x483.
Definition IA32_VMX_ENTRY_CTLS : Z := 0x484.
Definition IA32_VMX_CR0_FIXED0 : Z := 0x486.
Definition IA32_VMX_CR0_FIXED1 : Z := 0x487.
Definition IA32_VMX_CR4_FIXED0 : Z := 0x488.
Definition IA32_VMX_CR4_FIXED1 : Z := 0x489.
Definition IA32_VMX_PROCBASED_CTLS2 : Z := 0x48B.
Definition IA32_PERF_CAPABILITIES : Z := 0x345.

Definition EXT_INTR_EXITING : Z := Z.shiftl 1 0.
Definition NMI_EXITING : Z := Z.shiftl 1 3.
Definition PREEMPTION_TIMER : Z := Z.shiftl 1 6.
Definition HLT_EXITING : Z := Z.shiftl 1 7.
Definition MWAIT_EXITING : Z := Z.shiftl 1 10.
Definition RDPMC_EXITING : Z := Z.shiftl 1 11.
Definition RDTSC_EXITING : Z := Z.shiftl 1 12.
Definition CR3_LOAD_EXITING : Z := Z.shiftl 1 15.
Definition CR3_STORE_EXITING : Z := Z.shiftl 1 16.
Definition CR8_LOAD_EXITING : Z := Z.shiftl 1 19.
Definition CR8_STORE_EXITING : Z := Z.shiftl 1 20.
Definition UNCOND_IO_EXITING : Z := Z.shiftl 1 24.
Definition USE_MSR_BITMAPS : Z := Z.shiftl 1 28.
Definition MONITOR_EXITING : Z := Z.shiftl 1 29.
Definition ACTIVATE_SECONDARY_CONTROLS : Z := Z.shiftl 1 31.
Definition ENABLE_EPT : Z := Z.shiftl 1 1.
Definition ENABLE_RDTSCP : Z := Z.shiftl 1 3.
Definition ENABLE_VPID : Z := Z.shiftl 1 5.
Definition UNRESTRICTED_GUEST : Z := Z.shiftl 1 7.
Definition RDRAND_EXITING : Z := Z.shiftl 1 11.
Definition ENABLE_INVPCID : Z := Z.shiftl 1 12.
Definition RDSEED_EXITING : Z := Z.shiftl 1 16.
Definition HOST_ADDR_SPACE_SIZE : Z := Z.shiftl 1 9.
Definition SAVE_IA32_EFER : Z := Z.shiftl 1 20.
Definition EXIT_LOAD_IA32_EFER : Z := Z.shiftl 1 21.
Definition IA32E_MODE : Z := Z.shiftl 1 9.
Definition ENTRY_LOAD_IA32_EFER : Z := Z.shiftl 1 15.
Definition SSE_AVX : Z := 7.
Definition PAT_DEFAULT : Z := 0x0007040600070406.

(** ** Capabilities *)
Record VmxCapabilities := mkVmxCaps {
  pin_based_exec_ctrl : Z;
  cpu_based_exec_ctrl : Z;
  cpu_based_exec_ctrl2 : Z;
  vmexit_ctrl : Z;
  vmentry_ctrl : Z;
  fixed_bits : cr_caps;
  has_ept : bool;
  has_vpid : bool;
  pebs_format : Z;
  pebs_baseline : bool;
  pebs_trap : bool;
}.
Definition adjust_controls (msr_value requested : Z) : Z :=
  Z.land (Z.lor requested (u32 msr_value)) (u32 (Z.shiftr msr_value 32)).
Definition pin_requested : Z := Z.lor (Z.lor EXT_INTR_EXITING NMI_EXITING) PREEMPTION_TIMER.
Definition cpu_requested : Z :=
  fold_left Z.lor [MWAIT_EXITING; MONITOR_EXITING; RDPMC_EXITING; RDTSC_EXITING; USE_MSR_BITMAPS; ACTIVATE_SECONDARY_CONTROLS;
    UNCOND_IO_EXITING; CR3_LOAD_EXITING; CR3_STORE_EXITING; CR8_LOAD_EXITING; CR8_STORE_EXITING] HLT_EXITING.
Definition cpu2_requested : Z :=
  fold_left Z.lor [ENABLE_VPID; UNRESTRICTED_GUEST; ENABLE_RDTSCP; ENABLE_INVPCID; RDRAND_EXITING; RDSEED_EXITING] ENABLE_EPT.
Definition exit_requested : Z := Z.lor (Z.lor HOST_ADDR_SPACE_SIZE SAVE_IA32_EFER) EXIT_LOAD_IA32_EFER.
Definition entry_requested : Z := Z.lor IA32E_MODE ENTRY_LOAD_IA32_EFER.

(** A register that cannot be read leaves its default, zero. *)
Definition read_control (msrs : gmap Z Z) (msr requested : Z) : Z :=
  match msrs !! msr with Some v => adjust_controls v requested | None => 0 end.
Definition read_capabilities (msrs : gmap Z Z) : VmxCapabilities :=
  let cpu := read_control msrs IA32_VMX_PROCBASED_CTLS cpu_requested in
  let cpu2 := if has cpu ACTIVATE_SECONDARY_CONTROLS then read_control msrs IA32_VMX_PROCBASED_CTLS2 cpu2_requested else 0 in
  let perf := default 0 (msrs !! IA32_PERF_CAPABILITIES) in
  mkVmxCaps (read_control msrs IA32_VMX_PINBASED_CTLS pin_requested) cpu cpu2
    (read_control msrs IA32_VMX_EXIT_CTLS exit_requested) (read_control msrs IA32_VMX_ENTRY_CTLS entry_requested)
    (mkCaps (default 0 (msrs !! IA32_VMX_CR0_FIXED0)) (default 0 (msrs !! IA32_VMX_CR0_FIXED1))
       (default 0 (msrs !! IA32_VMX_CR4_FIXED0)) (default 0 (msrs !! IA32_VMX_CR4_FIXED1)))
    (has cpu2 ENABLE_EPT) (has cpu2 ENABLE_VPID)
    (Z.land (Z.shiftr perf 8) 0xF) (Z.testbit perf 14) (Z.testbit perf 6).

(** ** The host's state *)
Inductive hreg :=
| HsCr0 | HsCr3 | HsCr4
| HsCs | HsSs | HsDs | HsEs | HsFs | HsGs | HsTr
| HsFsBase | HsGsBase | HsTrBase | HsGdtrBase | HsIdtrBase
| HsSysenterCs | HsSysenterEsp | HsSysenterEip | HsEfer | HsPat | HsMiscEnable | HsPlatformInfo
| HsStar | HsLstar | HsCstar | HsFmask | HsRsp | HsRip.
Definition HostState : Type := hreg → Z.

(** A processor of the host: its control, segment and descriptor-table registers
    and its model-specific registers. *)
Record processor := mkProcessor {
  pr_msrs : gmap Z Z;
  pr_cr0 : option Z;
  pr_cr3 : option Z;
  pr_cr4 : option Z;
  pr_regs : hreg → Z;
}.
Definition capture (pr : processor) (rip rsp : Z) : HostState := λ h,
  let msr m := default 0 (pr_msrs pr !! m) in
  match h with
  | HsCr0 => default 0 (pr_cr0 pr) | HsCr3 => default 0 (pr_cr3 pr) | HsCr4 => default 0 (pr_cr4 pr)
  | HsFsBase => msr IA32_FS_BASE | HsGsBase => msr IA32_GS_BASE
  | HsSysenterCs => u32 (msr IA32_SYSENTER_CS) | HsSysenterEsp => msr IA32_SYSENTER_ESP | HsSysenterEip => msr IA32_SYSENTER_EIP
  | HsEfer => msr IA32_EFER | HsPat => msr IA32_PAT | HsMiscEnable => msr IA32_MISC_ENABLE | HsPlatformInfo => msr IA32_PLATFORM_INFO
  | HsStar => msr IA32_STAR | HsLstar => msr IA32_LSTAR | HsCstar => msr IA32_CSTAR | HsFmask => msr IA32_FMASK
  | HsRsp => rsp | HsRip => rip
  | _ => pr_regs pr h
  end.

(** ** The VMCS *)
Definition host_fields : list (Z * hreg) :=
  [(HostCr0, HsCr0); (HostCr3, HsCr3); (HostCr4, HsCr4);
   (HostCsSelector, HsCs); (HostSsSelector, HsSs); (HostDsSelector, HsDs); (HostEsSelector, HsEs); (HostFsSelector, HsFs);
   (HostGsSelector, HsGs); (HostTrSelector, HsTr);
   (HostFsBase, HsFsBase); (HostGsBase, HsGsBase); (HostTrBase, HsTrBase); (HostGdtrBase, HsGdtrBase); (HostIdtrBase, HsIdtrBase);
   (HostIa32SysenterCs, HsSysenterCs); (HostIa32SysenterEsp, HsSysenterEsp); (HostIa32SysenterEip, HsSysenterEip);
   (HostIa32Efer, HsEfer); (HostIa32Pat, HsPat); (HostRsp, HsRsp); (HostRip, HsRip)].
Definition write_fields (l : list (Z * Z)) : VM () := for_each l (λ '(f, v), vmwrite f v).
Definition setup_host_state (host : HostState) : VM () :=
  write_fields (prod_map id host <$> host_fields);; vmwrite VmcsLinkPointer u64_MAX.

(** The bits the processor constrains: those that must be one and those that
    must be zero. *)
Definition cr_mask (fixed0 fixed1 : Z) : Z := Z.lor (Z.land fixed0 fixed1) (Z.ldiff (Z.ldiff u64_MAX fixed0) fixed1).
(** [vpid] is the tag [allocate_vpid] returns, if one is needed. *)
Definition setup_controls (caps : VmxCapabilities) (msr_bitmap_addr : option Z) (vpid : Z) : VM () :=
  let fb := fixed_bits caps in
  (if has (cpu_based_exec_ctrl caps) USE_MSR_BITMAPS then
     match msr_bitmap_addr with Some addr => vmwrite MsrBitmapAddr addr | None => mret () end
   else mret ());;
  vmwrite PinBasedVmExecControls (pin_based_exec_ctrl caps);;
  (if has (pin_based_exec_ctrl caps) PREEMPTION_TIMER then vmwrite VmxPreemptionTimerValue 0x100000 else mret ());;
  vmwrite PrimaryProcBasedVmExecControls (cpu_based_exec_ctrl caps);;
  (if has (cpu_based_exec_ctrl caps) ACTIVATE_SECONDARY_CONTROLS then
     vmwrite SecondaryProcBasedVmExecControls (cpu_based_exec_ctrl2 caps);;
     if has (cpu_based_exec_ctrl2 caps) ENABLE_VPID then vmwrite VirtualProcessorId vpid else mret ()
   else mret ());;
  write_fields
    [(PrimaryVmExitControls, vmexit_ctrl caps); (VmEntryControls, vmentry_ctrl caps); (ExceptionBitmap, Z.shiftl 1 18);
     (Cr0GuestHostMask, cr_mask (cr0_fixed0 fb) (cr0_fixed1 fb)); (Cr4GuestHostMask, cr_mask (cr4_fixed0 fb) (cr4_fixed1 fb));
     (Cr0ReadShadow, 0); (Cr4ReadShadow, 0); (PageFaultErrorCodeMask, 0); (PageFaultErrorCodeMatch, 0); (Cr3TargetCount, 0);
     (VmEntryInterruptionInfo, 0)].
(** [clears] and [loads]: whether VMCLEAR and VMPTRLD succeed. *)
Definition vmcs_setup (caps : VmxCapabilities) (host : HostState) (msr_bitmap_addr : option Z) (eptp vpid : Z) (clears loads : bool) : VM () :=
  if negb clears then throw (EFatal "VMCLEAR failed")
  else if negb loads then throw (EFatal "VMPTRLD failed")
  else setup_host_state host;; setup_controls caps msr_bitmap_addr vpid;; vmwrite EptPointer eptp.

(** ** The MSR bitmap *)
Definition set_byte (b : Z → Z) (i v : Z) : Z → Z := λ j, if decide (j = i) then v else b j.
Definition clear_bit_at (base index : Z) (b : Z → Z) : Z → Z :=
  let i := base + index / 8 in set_byte b i (Z.ldiff (b i) (Z.shiftl 1 (index mod 8))).
Definition msr_bitmap_clear_intercept (msr : Z) (b : Z → Z) : Z → Z :=
  if msr <? 0x2000 then clear_bit_at 2048 msr (clear_bit_at 0 msr b)
  else if (0xC0000000 <=? msr) && (msr <? 0xC0002000) then
    clear_bit_at 3072 (msr - 0xC0000000) (clear_bit_at 1024 (msr - 0xC0000000) b)
  else b.
Definition passthrough : list Z :=
  [IA32_FS_BASE; IA32_GS_BASE; IA32_KERNEL_GS_BASE; IA32_EFER; IA32_STAR; IA32_LSTAR; IA32_CSTAR; IA32_FMASK;
   IA32_SYSENTER_CS; IA32_SYSENTER_ESP; IA32_SYSENTER_EIP].
Definition msr_bitmap_new : Z → Z := fold_left (λ b m, msr_bitmap_clear_intercept m b) passthrough (λ _, 0xFF).

(** ** The extended state of a new guest *)
Definition xsave_new : Z → Z := store (store (store (λ _, 0) 0 (le_bytes 2 0x037F)) 24 (le_bytes 4 0x1F80)) 512 (le_bytes 8 SSE_AVX).

(** ** The state of a VM *)
Inductive VmStateError := MsrBitmapAlloc | PebsExitMsrLoadAlloc | XsavePageAlloc | VmcsSetup (e : ExitError) | InveptFailed | GuestStateCopy.

(** What belongs to a VM besides its memory: the virtual processor, what the run
    loop keeps, the pages that hardware reads, and the address-space tag. *)
Record VmState := mkVmState {
  vs_vcpu : Vcpu;
  vs_run : run_state;
  vs_bitmap : Z → Z;
  vs_bitmap_pa : Z;
  vs_exit_list : list (Z * Z);   (** the VM-exit MSR-load page *)
  vs_exit_list_pa : Z;
  vs_entry_indexes : list Z;     (** the indexes of the VM-entry MSR-load page *)
  vs_xsave : Z → Z;
  vs_vpid : Z;
}.

(** What creating a VM takes from the machine: the addresses of the pages it
    allocates, in order, the fields of a cleared VMCS, the counter's page, and whether the VMX instructions succeed. *)
Record machine_env := mkMachine {
  me_processor : processor;
  me_alloc : nat → option Z;
  me_vmcs : gmap Z Z;
  me_clock : host_clock;
  me_counter_page : option Z;
  me_vpid : Z;
  me_clears : bool;
  me_loads : bool;
  me_invept : bool;
}.

Definition fresh_events : EventState := event_state_new box_io_page_buf (λ _, 0).
(** The registers of the run loop of a VM that has not run. *)
Definition fresh_run (me : machine_env) (regs : rreg → Z) : run_state :=
  mkRun regs (λ _, 0) (me_counter_page me) false false None [] (pr_msrs (me_processor me)).
Definition pebs_capable (msrs : gmap Z Z) : bool :=
  match msrs !! IA32_PERF_CAPABILITIES with
  | Some v => Z.testbit v 14 && (4 <=? Z.land (Z.shiftr v 8) 0xF)
  | None => false
  end.
Definition new_vcpu (me : machine_env) (host : HostState) (tsc_frequency : Z) (v : gmap Z Z) : Vcpu :=
  mkVcpu v (λ _, 0)
    (λ f, match f with
          | TscFrequency => tsc_frequency | Xcr0Mask => SSE_AVX | Pat => PAT_DEFAULT
          | HostMiscEnable => host HsMiscEnable | HostPlatformInfo => host HsPlatformInfo
          | _ => 0
          end)
    apic_default ioapic_default (λ _, 0) rtc_default mtrr_default random_default
    fresh_events io_channel_new serial_console_new [] None
    (pebs_capable (pr_msrs (me_processor me))) None None false true false Disabled false (λ _, 0) (me_clock me).
Definition host_syscalls (host : HostState) (g : rreg) : Z :=
  match g with HostStar => host HsStar | HostLstar => host HsLstar | HostCstar => host HsCstar | HostFmask => host HsFmask | _ => 0 end.

(** [VmState::new]. *)
Definition new (me : machine_env) (exit_handler_rip eptp tsc_frequency : Z) : result VmState VmStateError :=
  match me_alloc me 0 with
  | None => Err MsrBitmapAlloc
  | Some bitmap_pa =>
  match me_alloc me 1, me_alloc me 2 with
  | Some exit_pa, Some _ =>
  match me_alloc me 3, me_alloc me 4 with
  | Some _, Some _ =>
      let host := capture (me_processor me) exit_handler_rip 0 in
      let s := new_vcpu me host tsc_frequency (me_vmcs me) in
      match vmcs_setup (read_capabilities (pr_msrs (me_processor me))) host (Some bitmap_pa) eptp (me_vpid me) (me_clears me) (me_loads me) s with
      | (Done _, s) =>
          if me_invept me then
            Ok (mkVmState s (fresh_run me (host_syscalls host)) msr_bitmap_new bitmap_pa [(IA32_PEBS_ENABLE, 0)] exit_pa
                  PEBS_ENTRY_MSR_INDEXES xsave_new (default 0 (vmcs s !! VirtualProcessorId)))
          else Err InveptFailed
      | (Fail e, _) => Err (VmcsSetup e)
      | (Stuck, _) => Err GuestStateCopy
      end
  | _, _ => Err XsavePageAlloc
  end
  | _, _ => Err PebsExitMsrLoadAlloc
  end
  end.

(** ** Forking *)
Definition pebs_clone_for_fork (p : PebsState) : PebsState :=
  mkPebs (λ r, match r with
               | ArmedTargetTsc | ArmedInstCount | ArmedTscOffset | ItersSinceArm | CounterReload => 0
               | _ => preg_of p r
               end) None false.

(** The child's VMCS: the parent's, with the fields that must differ. *)
Definition fork_repoint (pebs : bool) (eptp bitmap_pa exit_pa : Z) : VM () :=
  vmwrite EptPointer eptp;;
  vmwrite MsrBitmapAddr bitmap_pa;;
  vmwrite VmxPreemptionTimerValue 0x100000;;
  if pebs then vmwrite VmExitMsrLoadAddr exit_pa;; vmwrite VmExitMsrLoadCount 1 else mret ().
Definition fork_vmcs (pebs : bool) (eptp bitmap_pa exit_pa vpid : Z) : VM () :=
  fork_repoint pebs eptp bitmap_pa exit_pa;;
  exec2 ← unwrap_or 0 (vmread SecondaryProcBasedVmExecControls);
  if has exec2 ENABLE_VPID then vmwrite VirtualProcessorId vpid else mret ().
Definition fork_vcpu (me : machine_env) (p : Vcpu) (v : gmap Z Z) : Vcpu :=
  mkVcpu v (gprs p)
    (λ f, match f with
          | EmulatedTsc | TscOffset => vfields p EmulatedTsc
          | TscFrequency | TscAux | Xcr0Mask | Pat | KernelGsBase | HostMiscEnable | HostPlatformInfo => vfields p f
          | _ => 0
          end)
    (apic p) (ioapic p) (serial p) (rtc p) (mtrr p) (random p)
    fresh_events (io_channel_clone_for_fork (io_channel p)) (serial_console_clone_for_fork (serial_console p))
    (feedback_buffers p)
    (pebs_clone_for_fork <$> pebs_state p) (pebs_supported p) None None false true false Disabled false (λ _, 0) (me_clock me).
(** The parent's saved system-call registers, the guest's and the host's. *)
Definition inherited_syscalls (n : run_state) (g : rreg) : Z :=
  match g with
  | GuestStar | GuestLstar | GuestCstar | GuestFmask | HostStar | HostLstar | HostCstar | HostFmask => rn_regs n g
  | _ => 0
  end.
(** [VmState::new_for_fork]; [clears] of the parent's VMCS comes first. *)
Definition new_for_fork (me : machine_env) (parent_clears : bool) (parent : VmState) (eptp : Z) : result VmState VmStateError :=
  let p := vs_vcpu parent in
  match me_alloc me 0 with
  | None => Err MsrBitmapAlloc
  | Some bitmap_pa =>
  match me_alloc me 1, me_alloc me 2 with
  | Some exit_pa, Some _ =>
  match me_alloc me 3, me_alloc me 4 with
  | Some _, Some _ =>
      if negb parent_clears then Err GuestStateCopy
      else if negb (me_loads me) then Err GuestStateCopy
      else
        match fork_vmcs (bool_decide (is_Some (pebs_state p))) eptp bitmap_pa exit_pa (me_vpid me) (fork_vcpu me p (vmcs p)) with
        | (Done _, s) =>
            if negb (me_invept me) then Err InveptFailed
            else if negb (me_clears me) then Err GuestStateCopy
            else
              Ok (mkVmState s (fresh_run me (inherited_syscalls (vs_run parent))) (vs_bitmap parent) bitmap_pa [(IA32_PEBS_ENABLE, 0)] exit_pa
                    PEBS_ENTRY_MSR_INDEXES (vs_xsave parent)
                    (if has (default 0 (vmcs p !! SecondaryProcBasedVmExecControls)) ENABLE_VPID then me_vpid me else 0))
        | (_, _) => Err GuestStateCopy
        end
  | _, _ => Err XsavePageAlloc
  end
  | _, _ => Err PebsExitMsrLoadAlloc
  end
  end.

(** ** The MSR bitmap lets through what a run restores *)

(** Where hardware looks a register up: the bit's number in the bitmap, for a
    register of one of the two ranges; others always exit. *)
Definition bitmap_position (write : bool) (msr : Z) : option Z :=
  let base := if write then 2048 * 8 else 0 in
  if msr <? 0x2000 then Some (base + msr)
  else if (0xC0000000 <=? msr) && (msr <? 0xC0002000) then Some (base + 1024 * 8 + (msr - 0xC0000000))
  else None.
Definition bitmap_bit (b : Z → Z) (p : Z) : bool := Z.testbit (b (p / 8)) (p mod 8).
Definition intercepted (b : Z → Z) (write : bool) (msr : Z) : bool :=
  match bitmap_position write msr with Some p => bitmap_bit b p | None => true end.

Lemma bit_clear base index b p :
  0 ≤ index → bitmap_bit (clear_bit_at base index b) p = (bitmap_bit b p && negb (p =? base * 8 + index)).
Proof.
  intros Hi. unfold bitmap_bit, clear_bit_at, set_byte.
  assert ((base * 8 + index) / 8 = base + index / 8) as Hq by (rewrite Z.div_add_l; lia).
  assert ((base * 8 + index) mod 8 = index mod 8) as Hm by (rewrite Z.add_comm, Z_mod_plus_full; lia).
  destruct (decide (p / 8 = base + index / 8)) as [E|E].
  - rewrite Z.ldiff_spec, Z.shiftl_spec, E by (apply Z.mod_pos_bound; lia). f_equal. f_equal.
    destruct (Z.eqb_spec p (base * 8 + index)) as [->|Hne]; [by rewrite Hm, Z.sub_diag|].
    assert (p mod 8 ≠ index mod 8) by (intros Hp; apply Hne; rewrite (Z.div_mod p 8), (Z.div_mod (base * 8 + index) 8) by lia; congruence).
    destruct (p mod 8 - index mod 8) as [|q|q] eqn:D; [lia| |done]. by destruct q.
  - destruct (Z.eqb_spec p (base * 8 + index)) as [->|Hne]; [congruence|by rewrite andb_true_r].
Qed.

Lemma intercepted_clear m b w msr :
  in_width 32 m → in_width 32 msr → is_Some (bitmap_position false m) →
  intercepted (msr_bitmap_clear_intercept m b) w msr = (intercepted b w msr && negb (msr =? m)).
Proof.
  intros [Hm _] [Hr _] Hp. unfold intercepted, msr_bitmap_clear_intercept, bitmap_position in *.
  destruct (Z.ltb_spec msr 0x2000), (Z.ltb_spec m 0x2000), (Z.leb_spec 0xC0000000 msr), (Z.ltb_spec msr 0xC0002000),
    (Z.leb_spec 0xC0000000 m), (Z.ltb_spec m 0xC0002000); cbn [andb] in *; try lia; try by destruct Hp as [? [=]].
  all: destruct w; rewrite ?bit_clear by lia;
    repeat match goal with |- context [?a =? ?b] => destruct (Z.eqb_spec a b); try lia end; cbn [negb]; by rewrite ?andb_true_r, ?andb_false_r.
Qed.

(** C18: The MSR bitmap of a new VM lets a read or a write of a model-specific register through without an exit exactly for the registers that
    the guest may use directly because a run saves and restores them around the guest, or because hardware exchanges them with the VMCS. *)
Theorem msr_bitmap_exact w msr :
  in_width 32 msr → intercepted msr_bitmap_new w msr = false ↔ msr ∈ direct ∨ msr ∈ swapped.*1.
Proof.
  intros Hm. unfold msr_bitmap_new, passthrough. cbn [fold_left].
  rewrite !intercepted_clear by first [done|by apply width_const|by vm_compute; eexists].
  assert (intercepted (λ _, 0xFF) w msr = true) as ->.
  { unfold intercepted, bitmap_bit. destruct (bitmap_position w msr) as [p|]; [|done].
    assert (0 ≤ p mod 8 < 8) as Hp by (apply Z.mod_pos_bound; lia). change 255 with (Z.ones 8). by apply Z.ones_spec_low. }
  rewrite andb_true_l, <- !negb_orb, negb_false_iff, !orb_true_iff, !Z.eqb_eq. cbn [swapped fmap list_fmap fst]. unfold direct.
  rewrite !elem_of_cons, !elem_of_nil. tauto.
Qed.

(** ** What a sequence of field writes leaves *)
Definition apply_writes (l : list (Z * Z)) (v : gmap Z Z) : gmap Z Z := foldl (λ v '(f, x), <[f := x]> v) v l.
(** The computation writes the fields of [l], in order, if they all exist, and
    fails otherwise. *)
Definition writes (l : list (Z * Z)) (m : VM ()) : Prop :=
  ∀ s, match m s with
       | (Done _, s') => s' = with_vmcs (apply_writes l (vmcs s)) s
       | (Fail _, _) => ∃ f, f ∈ l.*1 ∧ vmcs s !! f = None
       | (Stuck, _) => False
       end.

Lemma with_vmcs_same s : with_vmcs (vmcs s) s = s.
Proof. by destruct s. Qed.
Lemma writes_ret : writes [] (mret ()).
Proof. intros s. cbn. by rewrite with_vmcs_same. Qed.
Lemma writes_vmwrite f x : writes [(f, x)] (vmwrite f x).
Proof. intros s. unfold vmwrite. destruct (vmcs s !! f) eqn:E; [done|]. exists f. split; [apply elem_of_cons; by left|done]. Qed.
Lemma apply_writes_exists l v f : is_Some (v !! f) → is_Some (apply_writes l v !! f).
Proof.
  revert v. induction l as [|[g x] l IH]; intros v Hf; [done|]. cbn. apply IH. destruct (decide (f = g)) as [->|Hne].
  - rewrite lookup_insert_eq. by eexists.
  - by rewrite lookup_insert_ne.
Qed.
Lemma writes_bind l1 l2 m1 m2 : writes l1 m1 → writes l2 m2 → writes (l1 ++ l2) (m1;; m2).
Proof.
  intros H1 H2 s. unfold mbind, M_bind. specialize (H1 s). destruct (m1 s) as [[[]|e|] s1]; [| |done].
  - subst s1. specialize (H2 (with_vmcs (apply_writes l1 (vmcs s)) s)). destruct (m2 _) as [[[]|e|] s2]; [| |done].
    + subst s2. cbn. unfold apply_writes. by rewrite foldl_app.
    + destruct H2 as (f & Hf & Hn). exists f. rewrite fmap_app, elem_of_app. split; [by right|]. cbn in Hn.
      destruct (vmcs s !! f) eqn:E; [|done]. destruct (apply_writes_exists l1 (vmcs s) f ltac:(by rewrite E)) as [? Hx]. by rewrite Hx in Hn.
  - destruct H1 as (f & Hf & Hn). exists f. rewrite fmap_app, elem_of_app. by split; [left|].
Qed.
Lemma writes_if (b : bool) l1 l2 m1 m2 : writes l1 m1 → writes l2 m2 → writes (if b then l1 else l2) (if b then m1 else m2).
Proof. by destruct b. Qed.
Lemma writes_fields l : writes l (write_fields l).
Proof.
  induction l as [|[f x] l IH]; [apply writes_ret|]. change ((f, x) :: l) with ([(f, x)] ++ l). cbn. apply (writes_bind [(f, x)] l); [apply writes_vmwrite|exact IH].
Qed.

(** The last write of a field is what it reads as. *)
Lemma apply_writes_other l v f : f ∉ l.*1 → apply_writes l v !! f = v !! f.
Proof.
  revert v. induction l as [|[g x] l IH]; intros v Hf; [done|]. cbn in Hf. rewrite not_elem_of_cons in Hf. destruct Hf as [Hg Hf].
  etrans; [exact (IH (<[g := x]> v) Hf)|by apply lookup_insert_ne].
Qed.
Lemma apply_writes_app l1 l2 v : apply_writes (l1 ++ l2) v = apply_writes l2 (apply_writes l1 v).
Proof. apply foldl_app. Qed.
Lemma apply_writes_last l1 f x l2 v : f ∉ l2.*1 → apply_writes (l1 ++ (f, x) :: l2) v !! f = Some x.
Proof. intros Hf. rewrite apply_writes_app. etrans; [exact (apply_writes_other l2 _ f Hf)|apply lookup_insert_eq]. Qed.
Lemma apply_writes_ok l v :
  Forall (λ p, in_width (field_width p.1) p.2) l → map_Forall (λ f x, in_width (field_width f) x) v →
  map_Forall (λ f x, in_width (field_width f) x) (apply_writes l v).
Proof.
  intros Hl. revert v. induction Hl as [|[g x] l Hx Hl IH]; intros v Hv; [done|]. cbn. apply IH. by apply map_Forall_insert_2.
Qed.
Definition last_write (l : list (Z * Z)) (f : Z) : option Z := foldl (λ acc '(g, x), if Z.eqb g f then Some x else acc) None l.
Lemma last_write_spec l v f : apply_writes l v !! f = match last_write l f with Some x => Some x | None => v !! f end.
Proof.
  induction l as [|[g x] l IH] using rev_ind; [done|]. unfold last_write. rewrite apply_writes_app, foldl_app. cbn.
  destruct (Z.eqb_spec g f) as [->|Hne]; [apply lookup_insert_eq|]. by rewrite lookup_insert_ne.
Qed.

(** *** The writes of a new VM *)
Definition host_writes (host : HostState) : list (Z * Z) := (prod_map id host <$> host_fields) ++ [(VmcsLinkPointer, u64_MAX)].
Definition when {A} (b : bool) (l : list A) : list A := if b then l else [].
Definition control_writes (caps : VmxCapabilities) (msr_bitmap_addr vpid : Z) : list (Z * Z) :=
  let fb := fixed_bits caps in
  when (has (cpu_based_exec_ctrl caps) USE_MSR_BITMAPS) [(MsrBitmapAddr, msr_bitmap_addr)] ++
  [(PinBasedVmExecControls, pin_based_exec_ctrl caps)] ++
  when (has (pin_based_exec_ctrl caps) PREEMPTION_TIMER) [(VmxPreemptionTimerValue, 0x100000)] ++
  [(PrimaryProcBasedVmExecControls, cpu_based_exec_ctrl caps)] ++
  when (has (cpu_based_exec_ctrl caps) ACTIVATE_SECONDARY_CONTROLS)
    ([(SecondaryProcBasedVmExecControls, cpu_based_exec_ctrl2 caps)] ++
     when (has (cpu_based_exec_ctrl2 caps) ENABLE_VPID) [(VirtualProcessorId, vpid)]) ++
  [(PrimaryVmExitControls, vmexit_ctrl caps); (VmEntryControls, vmentry_ctrl caps); (ExceptionBitmap, Z.shiftl 1 18);
   (Cr0GuestHostMask, cr_mask (cr0_fixed0 fb) (cr0_fixed1 fb)); (Cr4GuestHostMask, cr_mask (cr4_fixed0 fb) (cr4_fixed1 fb));
   (Cr0ReadShadow, 0); (Cr4ReadShadow, 0); (PageFaultErrorCodeMask, 0); (PageFaultErrorCodeMatch, 0); (Cr3TargetCount, 0);
   (VmEntryInterruptionInfo, 0)].
Definition setup_writes (caps : VmxCapabilities) (host : HostState) (msr_bitmap_addr eptp vpid : Z) : list (Z * Z) :=
  host_writes host ++ control_writes caps msr_bitmap_addr vpid ++ [(EptPointer, eptp)].

Lemma setup_controls_writes caps addr vpid : writes (control_writes caps addr vpid) (setup_controls caps (Some addr) vpid).
Proof.
  unfold setup_controls, control_writes, when.
  repeat first [apply writes_vmwrite | apply writes_ret | apply writes_fields | apply writes_if | apply writes_bind].
Qed.
Lemma vmcs_setup_writes caps host addr eptp vpid :
  writes (setup_writes caps host addr eptp vpid) (vmcs_setup caps host (Some addr) eptp vpid true true).
Proof.
  unfold setup_writes, host_writes, vmcs_setup, setup_host_state. cbn [negb].
  apply writes_bind; [apply writes_bind; [apply writes_fields|apply writes_vmwrite]|].
  apply writes_bind; [apply setup_controls_writes|apply writes_vmwrite].
Qed.

(** ** A new VM *)
Definition hreg_width (h : hreg) : Z :=
  match h with HsCs | HsSs | HsDs | HsEs | HsFs | HsGs | HsTr => 16 | HsSysenterCs => 32 | _ => 64 end.
Record processor_ok (pr : processor) : Prop := {
  po_msrs : map_Forall (λ _ v, in_width 64 v) (pr_msrs pr);
  po_sysenter v : pr_msrs pr !! IA32_SYSENTER_CS = Some v → in_width 32 v;
  po_cr0 v : pr_cr0 pr = Some v → in_width 64 v;
  po_cr3 v : pr_cr3 pr = Some v → in_width 64 v;
  po_cr4 v : pr_cr4 pr = Some v → in_width 64 v;
  po_regs h : in_width (hreg_width h) (pr_regs pr h);
}.
(** The values are in range. *)
Record machine_ok (me : machine_env) : Prop := {
  mo_processor : processor_ok (me_processor me);
  mo_alloc i pa : me_alloc me i = Some pa → in_width 64 pa;
  mo_vmcs : map_Forall (λ f v, in_width (field_width f) v) (me_vmcs me);
  mo_list c : me_vmcs me !! VmEntryMsrLoadCount = Some c → c ≤ 1;
  mo_page p : me_counter_page me = Some p → in_width 64 p;
  mo_vpid : in_width 16 (me_vpid me);
  mo_clock : clock_ok (me_clock me);
}.
(** Pages are available and the VMX instructions succeed. *)
Record machine_works (me : machine_env) : Prop := {
  mw_alloc i : (i < 5)%nat → is_Some (me_alloc me i);
  mw_clears : me_clears me = true;
  mw_loads : me_loads me = true;
  mw_invept : me_invept me = true;
}.

Definition new_result (me : machine_env) (rip eptp freq bitmap_pa exit_pa : Z) : VmState :=
  let host := capture (me_processor me) rip 0 in
  let v := apply_writes (setup_writes (read_capabilities (pr_msrs (me_processor me))) host bitmap_pa eptp (me_vpid me)) (me_vmcs me) in
  mkVmState (new_vcpu me host freq v) (fresh_run me (host_syscalls host)) msr_bitmap_new bitmap_pa [(IA32_PEBS_ENABLE, 0)] exit_pa
    PEBS_ENTRY_MSR_INDEXES xsave_new (default 0 (v !! VirtualProcessorId)).
Lemma new_Ok me rip eptp freq vm :
  new me rip eptp freq = Ok vm →
  ∃ bitmap_pa exit_pa, me_alloc me 0 = Some bitmap_pa ∧ me_alloc me 1 = Some exit_pa ∧ vm = new_result me rip eptp freq bitmap_pa exit_pa.
Proof.
  unfold new. destruct (me_alloc me 0) as [b|]; [|done]. destruct (me_alloc me 1) as [e|], (me_alloc me 2), (me_alloc me 3), (me_alloc me 4); try done.
  destruct (me_clears me) eqn:Ec; [|done]. destruct (me_loads me) eqn:El; [|done]. cbv zeta.
  set (host := capture _ _ _). set (caps := read_capabilities _). pose proof (vmcs_setup_writes caps host b eptp (me_vpid me) (new_vcpu me host freq (me_vmcs me))) as H.
  destruct (vmcs_setup _ _ _ _ _ _ _ _) as [[[]|x|] s]; [|done..]. destruct (me_invept me); [|done]. intros [= <-]. subst s. by exists b, e.
Qed.
(** The fields a new VM's VMCS must have. *)
Definition setup_fields : list Z :=
  host_fields.*1 ++
  [VmcsLinkPointer; MsrBitmapAddr; PinBasedVmExecControls; VmxPreemptionTimerValue; PrimaryProcBasedVmExecControls; SecondaryProcBasedVmExecControls;
   VirtualProcessorId; PrimaryVmExitControls; VmEntryControls; ExceptionBitmap; Cr0GuestHostMask; Cr4GuestHostMask; Cr0ReadShadow; Cr4ReadShadow;
   PageFaultErrorCodeMask; PageFaultErrorCodeMatch; Cr3TargetCount; VmEntryInterruptionInfo; EptPointer].
Lemma list_sub (l l' : list Z) f : forallb (λ g, existsb (Z.eqb g) l') l = true → f ∈ l → f ∈ l'.
Proof.
  rewrite forallb_forall. intros H Hf. apply list_elem_of_In in Hf. specialize (H f Hf). apply existsb_exists in H as (g & Hg & E).
  apply Z.eqb_eq in E. subst g. by apply list_elem_of_In.
Qed.
Lemma setup_writes_fields caps host addr eptp vpid f : f ∈ (setup_writes caps host addr eptp vpid).*1 → f ∈ setup_fields.
Proof.
  assert ((host_writes host).*1 = host_fields.*1 ++ [VmcsLinkPointer]) as Hh by reflexivity.
  unfold setup_writes, control_writes. rewrite !fmap_app, Hh. unfold when.
  apply list_sub. destruct (has (cpu_based_exec_ctrl caps) USE_MSR_BITMAPS), (has (pin_based_exec_ctrl caps) PREEMPTION_TIMER),
    (has (cpu_based_exec_ctrl caps) ACTIVATE_SECONDARY_CONTROLS), (has (cpu_based_exec_ctrl2 caps) ENABLE_VPID); reflexivity.
Qed.
Lemma new_works me rip eptp freq :
  machine_works me → (∀ f, f ∈ setup_fields → is_Some (me_vmcs me !! f)) → ∃ vm, new me rip eptp freq = Ok vm.
Proof.
  intros [Ha Hc Hl Hi] Hf. unfold new. destruct (Ha 0%nat ltac:(lia)) as [b ->], (Ha 1%nat ltac:(lia)) as [e ->], (Ha 2%nat ltac:(lia)) as [? ->],
    (Ha 3%nat ltac:(lia)) as [? ->], (Ha 4%nat ltac:(lia)) as [? ->]. cbv zeta. rewrite Hc, Hl.
  set (host := capture _ _ _). set (caps := read_capabilities _). pose proof (vmcs_setup_writes caps host b eptp (me_vpid me) (new_vcpu me host freq (me_vmcs me))) as H.
  destruct (vmcs_setup _ _ _ _ _ _ _ _) as [[[]|err|] s]; [rewrite Hi; by eexists| |done].
  destruct H as (f & Hin & Hn). destruct (Hf f (setup_writes_fields _ _ _ _ _ _ Hin)) as [v Hv]. cbn in Hn. congruence.
Qed.

(** *** Well-formed and ready *)
Lemma capture_ok pr rip rsp h : processor_ok pr → in_width 64 rip → in_width 64 rsp → in_width (hreg_width h) (capture pr rip rsp h).
Proof.
  intros Hp Hrip Hrsp. assert (∀ m, in_width 64 (default 0 (pr_msrs pr !! m))) as Hm.
  { intros m. destruct (pr_msrs pr !! m) eqn:E; [apply (po_msrs _ Hp m _ E)|by apply width_const]. }
  destruct h; cbn; try done; try apply (po_regs _ Hp); try apply in_width_u32.
  - destruct (pr_cr0 pr) eqn:E; [by apply (po_cr0 _ Hp)|by apply width_const].
  - destruct (pr_cr3 pr) eqn:E; [by apply (po_cr3 _ Hp)|by apply width_const].
  - destruct (pr_cr4 pr) eqn:E; [by apply (po_cr4 _ Hp)|by apply width_const].
Qed.
Lemma host_writes_ok host : (∀ h, in_width (hreg_width h) (host h)) → Forall (λ p, in_width (field_width p.1) p.2) (host_writes host).
Proof.
  intros Hh. unfold host_writes, host_fields. cbn [fmap list_fmap app].
  repeat (apply Forall_cons; split; [match goal with |- in_width _ (prod_map _ _ (_, ?h)).2 => apply (Hh h) | |- _ => by apply width_const end|]).
  constructor.
Qed.

Lemma adjust_controls_ok v req : in_width 32 (adjust_controls v req).
Proof. apply in_width_land_r; [lia|apply in_width_u32]. Qed.
Lemma read_control_ok msrs m req : in_width 32 (read_control msrs m req).
Proof. unfold read_control. destruct (msrs !! m); [apply adjust_controls_ok|by apply width_const]. Qed.
Lemma cr_mask_ok f0 f1 : in_width 64 f0 → in_width 64 f1 → in_width 64 (cr_mask f0 f1).
Proof.
  intros H0 H1. unfold cr_mask. apply in_width_lor; [lia|apply in_width_land_r; [lia|done]|].
  rewrite Z.ldiff_ldiff_l, Z.ldiff_land. apply in_width_land; [lia|left]. by apply width_const.
Qed.
Lemma Forall_when {A} (P : A → Prop) b l : Forall P l → Forall P (when b l).
Proof. by destruct b. Qed.
Lemma control_writes_ok msrs addr vpid :
  map_Forall (λ _ v, in_width 64 v) msrs → in_width 64 addr → in_width 16 vpid →
  Forall (λ p, in_width (field_width p.1) p.2) (control_writes (read_capabilities msrs) addr vpid).
Proof.
  intros Hm Ha Hv. assert (∀ m, in_width 64 (default 0 (msrs !! m))) as Hd.
  { intros m. destruct (msrs !! m) eqn:E; [apply (Hm m _ E)|by apply width_const]. }
  assert (in_width 32 (cpu_based_exec_ctrl2 (read_capabilities msrs))) as H2.
  { cbn. destruct (has _ _); [apply read_control_ok|by apply width_const]. }
  unfold control_writes. rewrite !Forall_app. 
  repeat first [apply Forall_nil_2 | apply Forall_cons; split | apply Forall_when | apply Forall_app; split | match goal with |- Forall _ _ ∧ _ => split end].
  all: cbn [fst snd]; match goal with |- in_width (field_width ?f) _ => let w := eval vm_compute in (field_width f) in change (field_width f) with w end.
  all: first [exact Ha | exact Hv | exact H2 | apply read_control_ok | apply cr_mask_ok; apply Hd | by apply width_const].
Qed.
Lemma setup_writes_ok pr rip addr eptp vpid :
  processor_ok pr → in_width 64 rip → in_width 64 addr → in_width 64 eptp → in_width 16 vpid →
  Forall (λ p, in_width (field_width p.1) p.2) (setup_writes (read_capabilities (pr_msrs pr)) (capture pr rip 0) addr eptp vpid).
Proof.
  intros Hp Hr Ha He Hv. unfold setup_writes. rewrite !Forall_app. split_and!.
  - apply host_writes_ok. intros h. apply capture_ok; [done..|by apply width_const].
  - apply control_writes_ok; [apply Hp|done..].
  - apply Forall_singleton, He.
Qed.

Lemma new_vcpu_ok me rip freq v :
  machine_ok me → in_width 64 rip → in_width 64 freq → map_Forall (λ f x, in_width (field_width f) x) v →
  vcpu_ok (new_vcpu me (capture (me_processor me) rip 0) freq v).
Proof.
  intros Hme Hrip Hf Hv. assert (∀ h, in_width (hreg_width h) (capture (me_processor me) rip 0 h)) as Hc.
  { intros h. apply capture_ok; [apply Hme|done|by apply width_const]. }
  constructor; [|eexists; apply event_state_new_refines|apply Hme].
  constructor; try exact Hv; try apply apic_default_ok; try apply ioapic_default_ok; try apply mtrr_default_ok; try apply rng_default_ok; try done.
  - intros f. destruct f; cbn [vfields new_vcpu vfield_ok]; try exact Hf; try (by apply width_const); try (by split); [apply (Hc HsMiscEnable)|apply (Hc HsPlatformInfo)].
Qed.
Lemma fresh_run_ok me regs : machine_ok me → (∀ g, in_width 64 (regs g)) → run_ok (fresh_run me regs).
Proof. intros Hme Hr. constructor; [done|intros g; by apply width_const|apply Hme|apply Hme]. Qed.

(** The host's state is not overwritten by the controls. *)
Lemma last_host_write caps host addr eptp vpid f h :
  (f, h) ∈ host_fields → last_write (setup_writes caps host addr eptp vpid) f = Some (host h).
Proof.
  intros Hin. unfold setup_writes, control_writes, when, host_fields in *.
  destruct (has (cpu_based_exec_ctrl caps) USE_MSR_BITMAPS), (has (pin_based_exec_ctrl caps) PREEMPTION_TIMER),
    (has (cpu_based_exec_ctrl caps) ACTIVATE_SECONDARY_CONTROLS), (has (cpu_based_exec_ctrl2 caps) ENABLE_VPID);
    repeat (apply elem_of_cons in Hin as [[= -> ->]|Hin]; [reflexivity|]); by apply not_elem_of_nil in Hin.
Qed.
Lemma last_primary caps host addr eptp vpid :
  last_write (setup_writes caps host addr eptp vpid) PrimaryProcBasedVmExecControls = Some (cpu_based_exec_ctrl caps).
Proof.
  unfold setup_writes, control_writes, when.
  by destruct (has (cpu_based_exec_ctrl caps) USE_MSR_BITMAPS), (has (pin_based_exec_ctrl caps) PREEMPTION_TIMER),
    (has (cpu_based_exec_ctrl caps) ACTIVATE_SECONDARY_CONTROLS), (has (cpu_based_exec_ctrl2 caps) ENABLE_VPID).
Qed.
(** The saved value of an exchanged register. *)
Definition exchanged (m : Z) : hreg :=
  if m =? IA32_SYSENTER_CS then HsSysenterCs else if m =? IA32_SYSENTER_ESP then HsSysenterEsp else if m =? IA32_SYSENTER_EIP then HsSysenterEip else HsEfer.
Lemma swapped_captured m f pr rip v :
  (m, f) ∈ swapped → m ≠ IA32_FS_BASE → m ≠ IA32_GS_BASE → pr_msrs pr !! m = Some v → (m = IA32_SYSENTER_CS → in_width 32 v) →
  (f, exchanged m) ∈ host_fields ∧ capture pr rip 0 (exchanged m) = v.
Proof.
  intros Hin H1 H2 Hv Hcs. unfold swapped in Hin. do 2 (apply elem_of_cons in Hin as [[= -> ->]|Hin]; [done|]).
  repeat (apply elem_of_cons in Hin as [[= -> ->]|Hin]; [split; [by repeat first [left|right]|]|]); [..|by apply not_elem_of_nil in Hin].
  all: cbn; rewrite Hv; try done. by apply wrap_small, Hcs.
Qed.
Lemma new_at_rest me rip eptp freq vm :
  machine_ok me → new me rip eptp freq = Ok vm → at_rest (vs_run vm) (vs_vcpu vm).
Proof.
  intros Hme (b & e & _ & _ & ->)%new_Ok. pose proof (po_sysenter _ (mo_processor _ Hme)) as Hsys.
  set (pr := me_processor me) in *. constructor; cbn -[setup_writes]; fold pr; try (by intros v ->).
  - done.
  - intros m f v Hin H1 H2 Hv. rewrite last_write_spec.
    destruct (swapped_captured m f pr rip v Hin H1 H2 Hv) as [Hf <-]; [intros ->; by apply Hsys|]. by rewrite (last_host_write _ _ _ _ _ f _ Hf).
  - intros c Hc. apply (mo_list _ Hme). rewrite <-Hc. symmetry. apply apply_writes_other.
    intros Hin%setup_writes_fields. revert Hin. by apply list_dec.
  - rewrite last_write_spec, last_primary. by eexists.
Qed.

Lemma new_state_ok me rip eptp freq vm :
  machine_ok me → in_width 64 rip → in_width 64 eptp → in_width 64 freq → new me rip eptp freq = Ok vm → vcpu_ok (vs_vcpu vm) ∧ run_ok (vs_run vm).
Proof.
  intros Hme Hrip He Hfr (b & e & Hb & _ & ->)%new_Ok. pose proof (mo_alloc _ Hme _ _ Hb) as Hbw. split.
  - apply new_vcpu_ok; [done..|]. apply apply_writes_ok; [|apply Hme]. apply setup_writes_ok; [apply Hme|done..|apply Hme].
  - apply fresh_run_ok; [done|]. assert (∀ h, in_width (hreg_width h) (capture (me_processor me) rip 0 h)) as Hc.
    { intros h. apply capture_ok; [apply Hme|done|by apply width_const]. }
    intros []; try (by apply width_const); [apply (Hc HsStar)|apply (Hc HsLstar)|apply (Hc HsCstar)|apply (Hc HsFmask)].
Qed.

(** On a machine where pages are available and the VMX instructions succeed, creating a VM returns one, and it is ready to run: its virtual
    processor and the data of the run loop are well-formed, and the host's registers are saved where a run restores them from. *)
Theorem new_ready me rip eptp freq :
  machine_works me → machine_ok me → (∀ f, f ∈ setup_fields → is_Some (me_vmcs me !! f)) → in_width 64 rip → in_width 64 eptp → in_width 64 freq →
  ∃ vm, new me rip eptp freq = Ok vm ∧ vcpu_ok (vs_vcpu vm) ∧ run_ok (vs_run vm) ∧ at_rest (vs_run vm) (vs_vcpu vm) ∧
    vmcs (vs_vcpu vm) !! EptPointer = Some eptp ∧ (∀ h f, (f, h) ∈ host_fields → vmcs (vs_vcpu vm) !! f = Some (capture (me_processor me) rip 0 h)).
Proof.
  intros Hw Hme Hf Hrip He Hfr. destruct (new_works me rip eptp freq Hw Hf) as [vm Hvm]. exists vm. split; [done|].
  destruct (new_state_ok me rip eptp freq vm) as [Hv Hr]; [done..|]. split; [done|]. split; [done|]. split; [by apply (new_at_rest me rip eptp freq)|].
  apply new_Ok in Hvm as (b & e & _ & _ & ->). split.
  - cbn -[setup_writes]. apply (apply_writes_last (host_writes _ ++ control_writes _ _ _) EptPointer eptp []). apply not_elem_of_nil.
  - intros h f Hin. cbn -[setup_writes]. by rewrite last_write_spec, (last_host_write _ _ _ _ _ f h Hin).
Qed.

(** *** What the guest cannot do without an exit *)

(** The processor allows the requested controls: they are among the bits that may be one. *)
Definition capable (msrs : gmap Z Z) (msr requested : Z) : Prop :=
  ∃ v, msrs !! msr = Some v ∧ Z.land (u32 (Z.shiftr v 32)) requested = requested.
Lemma capable_control msrs m req : capable msrs m req → Z.land (read_control msrs m req) req = req.
Proof.
  intros (v & Hv & Ha). unfold read_control. rewrite Hv. unfold adjust_controls.
  rewrite <-Z.land_assoc, Ha. apply Z.bits_inj'. intros i Hi. rewrite Z.land_spec, Z.lor_spec. by destruct (Z.testbit req i); rewrite ?andb_false_r.
Qed.
Lemma has_among c req b : Z.land c req = req → Z.land req b = b → b ≠ 0 → has c b = true.
Proof.
  intros Hc Hb Hn. unfold has. apply negb_true_iff, Z.eqb_neq.
  assert (Z.land c b = b) as ->; [|done]. by rewrite <-Hb, Z.land_assoc, Hc.
Qed.
Lemma has_all c req l : Z.land c req = req → forallb (λ b, (Z.land req b =? b) && negb (b =? 0)) l = true → Forall (λ b, has c b = true) l.
Proof.
  intros Hc Hl. rewrite forallb_forall in Hl. apply Forall_forall. intros b Hb. apply list_elem_of_In, Hl in Hb.
  apply andb_prop in Hb as [H1%Z.eqb_eq H2%negb_true_iff%Z.eqb_neq]. by apply (has_among c req).
Qed.

(** C17: On a processor that offers every control the code asks for, the VMCS of a new VM has the controls set for exits on RDTSC and RDTSCP, RDPMC, RDRAND, RDSEED, I/O ports, HLT, MWAIT and
    MONITOR, loads and stores of CR3 and CR8, external interrupts, NMIs and the preemption timer, and for the use of an MSR bitmap, of EPT and of an address-space tag, which are the VM's own.
    The statement is about these controls only: RDPID, which RDTSCP's control also enables, does not exit. *)
Theorem interception_controls_set me rip eptp freq vm :
  new me rip eptp freq = Ok vm → let msrs := pr_msrs (me_processor me) in
  capable msrs IA32_VMX_PINBASED_CTLS pin_requested → capable msrs IA32_VMX_PROCBASED_CTLS cpu_requested →
  capable msrs IA32_VMX_PROCBASED_CTLS2 cpu2_requested →
  ∃ pin cpu cpu2, let v := vmcs (vs_vcpu vm) in
    v !! PinBasedVmExecControls = Some pin ∧ Forall (λ b, has pin b = true) [EXT_INTR_EXITING; NMI_EXITING; PREEMPTION_TIMER] ∧
    v !! PrimaryProcBasedVmExecControls = Some cpu ∧
    Forall (λ b, has cpu b = true) [HLT_EXITING; MWAIT_EXITING; MONITOR_EXITING; RDPMC_EXITING; RDTSC_EXITING; CR3_LOAD_EXITING; CR3_STORE_EXITING;
      CR8_LOAD_EXITING; CR8_STORE_EXITING; UNCOND_IO_EXITING; USE_MSR_BITMAPS; ACTIVATE_SECONDARY_CONTROLS] ∧
    v !! SecondaryProcBasedVmExecControls = Some cpu2 ∧
    Forall (λ b, has cpu2 b = true) [ENABLE_EPT; ENABLE_VPID; UNRESTRICTED_GUEST; ENABLE_RDTSCP; RDRAND_EXITING; RDSEED_EXITING] ∧
    v !! MsrBitmapAddr = Some (vs_bitmap_pa vm) ∧ v !! EptPointer = Some eptp ∧ v !! VirtualProcessorId = Some (me_vpid me) ∧ vs_vpid vm = me_vpid me.
Proof.
  intros (b & e & _ & _ & ->)%new_Ok msrs Hpin Hcpu Hcpu2. apply capable_control in Hpin, Hcpu, Hcpu2.
  set (caps := read_capabilities msrs). assert (cpu_based_exec_ctrl2 caps = read_control msrs IA32_VMX_PROCBASED_CTLS2 cpu2_requested) as E2.
  { unfold caps, read_capabilities. cbv zeta. cbn [cpu_based_exec_ctrl2]. by rewrite (has_among _ _ ACTIVATE_SECONDARY_CONTROLS Hcpu) by done. }
  exists (pin_based_exec_ctrl caps), (cpu_based_exec_ctrl caps), (cpu_based_exec_ctrl2 caps). cbv zeta. cbn [vs_vcpu vmcs new_result new_vcpu vs_bitmap_pa vs_vpid].
  fold msrs caps. rewrite !last_write_spec. unfold setup_writes, control_writes.
  rewrite (has_among (cpu_based_exec_ctrl caps) _ USE_MSR_BITMAPS Hcpu), (has_among (cpu_based_exec_ctrl caps) _ ACTIVATE_SECONDARY_CONTROLS Hcpu),
    (has_among (pin_based_exec_ctrl caps) _ PREEMPTION_TIMER Hpin) by done.
  rewrite (has_among (cpu_based_exec_ctrl2 caps) cpu2_requested ENABLE_VPID) by (by rewrite ?E2). unfold when.
  split_and!; [reflexivity|by apply (has_all _ _ _ Hpin)|reflexivity|by apply (has_all _ _ _ Hcpu)|reflexivity|rewrite E2; by apply (has_all _ _ _ Hcpu2)|reflexivity..].
Qed.
(** A control the processor does not offer is left out, and the VM is created
    without it: here RDTSC does not exit. *)
Lemma missing_control_dropped : has (read_control {[IA32_VMX_PROCBASED_CTLS := Z.shiftl (cpu_requested - RDTSC_EXITING) 32]} IA32_VMX_PROCBASED_CTLS cpu_requested) RDTSC_EXITING = false.
Proof. reflexivity. Qed.

(** ** A fork *)
Definition repoint_writes (pebs : bool) (eptp bitmap_pa exit_pa : Z) : list (Z * Z) :=
  [(EptPointer, eptp)] ++ [(MsrBitmapAddr, bitmap_pa)] ++ [(VmxPreemptionTimerValue, 0x100000)] ++
  when pebs ([(VmExitMsrLoadAddr, exit_pa)] ++ [(VmExitMsrLoadCount, 1)]).
Definition fork_writes (pebs : bool) (eptp bitmap_pa exit_pa vpid exec2 : Z) : list (Z * Z) :=
  repoint_writes pebs eptp bitmap_pa exit_pa ++ when (has exec2 ENABLE_VPID) [(VirtualProcessorId, vpid)].
Lemma fork_repoint_writes pebs eptp bitmap_pa exit_pa : writes (repoint_writes pebs eptp bitmap_pa exit_pa) (fork_repoint pebs eptp bitmap_pa exit_pa).
Proof. unfold repoint_writes, fork_repoint, when. repeat first [apply writes_vmwrite | apply writes_ret | apply writes_if | apply writes_bind]. Qed.
Lemma fork_vmcs_writes pebs eptp bitmap_pa exit_pa vpid s :
  let l := fork_writes pebs eptp bitmap_pa exit_pa vpid (default 0 (vmcs s !! SecondaryProcBasedVmExecControls)) in
  match fork_vmcs pebs eptp bitmap_pa exit_pa vpid s with
  | (Done _, s') => s' = with_vmcs (apply_writes l (vmcs s)) s
  | (Fail _, _) => ∃ f, f ∈ l.*1 ∧ vmcs s !! f = None
  | (Stuck, _) => False
  end.
Proof.
  intros l. set (exec2 := default 0 _) in l. set (m2 := if has exec2 ENABLE_VPID then vmwrite VirtualProcessorId vpid else mret () : VM ()).
  assert (fork_vmcs pebs eptp bitmap_pa exit_pa vpid s = (fork_repoint pebs eptp bitmap_pa exit_pa;; m2) s) as ->.
  { unfold fork_vmcs, mbind, M_bind. pose proof (fork_repoint_writes pebs eptp bitmap_pa exit_pa s) as H.
    destruct (fork_repoint _ _ _ _ s) as [[[]|e|] s1]; [subst s1|done..].
    assert (∀ s', vmcs s' !! SecondaryProcBasedVmExecControls = vmcs s !! SecondaryProcBasedVmExecControls →
      unwrap_or 0 (vmread SecondaryProcBasedVmExecControls) s' = (Done exec2, s')) as Hr.
    { intros s' E. unfold unwrap_or, vmread, exec2. rewrite E. by destruct (vmcs s !! _). }
    rewrite Hr; [done|]. cbn -[apply_writes]. apply apply_writes_other. by destruct pebs; apply list_dec. }
  apply writes_bind; [apply fork_repoint_writes|]. apply writes_if; [apply writes_vmwrite|apply writes_ret].
Qed.

Definition fork_result (me : machine_env) (parent : VmState) (eptp bitmap_pa exit_pa : Z) : VmState :=
  let p := vs_vcpu parent in
  let exec2 := default 0 (vmcs p !! SecondaryProcBasedVmExecControls) in
  mkVmState
    (fork_vcpu me p (apply_writes (fork_writes (bool_decide (is_Some (pebs_state p))) eptp bitmap_pa exit_pa (me_vpid me) exec2) (vmcs p)))
    (fresh_run me (inherited_syscalls (vs_run parent))) (vs_bitmap parent) bitmap_pa [(IA32_PEBS_ENABLE, 0)] exit_pa
    PEBS_ENTRY_MSR_INDEXES (vs_xsave parent) (if has exec2 ENABLE_VPID then me_vpid me else 0).
Lemma fork_Ok me pc parent eptp child :
  new_for_fork me pc parent eptp = Ok child →
  ∃ bitmap_pa exit_pa, me_alloc me 0 = Some bitmap_pa ∧ me_alloc me 1 = Some exit_pa ∧ child = fork_result me parent eptp bitmap_pa exit_pa.
Proof.
  unfold new_for_fork. destruct (me_alloc me 0) as [b|]; [|done]. destruct (me_alloc me 1) as [e|], (me_alloc me 2), (me_alloc me 3), (me_alloc me 4); try done.
  destruct pc; [|done]. destruct (me_loads me) eqn:El; [|done]. cbv zeta. cbn [negb]. set (p := vs_vcpu parent).
  pose proof (fork_vmcs_writes (bool_decide (is_Some (pebs_state p))) eptp b e (me_vpid me) (fork_vcpu me p (vmcs p))) as H. cbv zeta in H.
  destruct (fork_vmcs _ _ _ _ _ _) as [[[]|x|] s]; [|done..]. destruct (me_invept me); [|done]. destruct (me_clears me); [|done]. intros [= <-]. subst s.
  by exists b, e.
Qed.
(** The fields a parent's VMCS must have. *)
Definition fork_fields : list Z := [EptPointer; MsrBitmapAddr; VmxPreemptionTimerValue; VmExitMsrLoadAddr; VmExitMsrLoadCount; VirtualProcessorId].
Lemma fork_writes_fields pebs eptp b e vpid exec2 f : f ∈ (fork_writes pebs eptp b e vpid exec2).*1 → f ∈ fork_fields.
Proof. apply list_sub. unfold fork_writes, repoint_writes, when. by destruct pebs, (has exec2 ENABLE_VPID). Qed.
Lemma fork_works me parent eptp :
  machine_works me → (∀ f, f ∈ fork_fields → is_Some (vmcs (vs_vcpu parent) !! f)) → ∃ child, new_for_fork me true parent eptp = Ok child.
Proof.
  intros [Ha Hc Hl Hi] Hf. unfold new_for_fork. destruct (Ha 0%nat ltac:(lia)) as [b ->], (Ha 1%nat ltac:(lia)) as [e ->], (Ha 2%nat ltac:(lia)) as [? ->],
    (Ha 3%nat ltac:(lia)) as [? ->], (Ha 4%nat ltac:(lia)) as [? ->]. cbv zeta. rewrite Hc, Hl, Hi. cbn [negb]. set (p := vs_vcpu parent) in *.
  pose proof (fork_vmcs_writes (bool_decide (is_Some (pebs_state p))) eptp b e (me_vpid me) (fork_vcpu me p (vmcs p))) as H. cbv zeta in H.
  destruct (fork_vmcs _ _ _ _ _ _) as [[[]|err|] s]; [by eexists| |done].
  destruct H as (f & Hin & Hn). destruct (Hf f (fork_writes_fields _ _ _ _ _ _ _ Hin)) as [v Hv]. cbn in Hn. congruence.
Qed.

Lemma fork_writes_ok pebs eptp b e vpid exec2 :
  in_width 64 eptp → in_width 64 b → in_width 64 e → in_width 16 vpid → Forall (λ p, in_width (field_width p.1) p.2) (fork_writes pebs eptp b e vpid exec2).
Proof.
  intros He Hb Hx Hv. unfold fork_writes, repoint_writes.
  repeat first [apply Forall_nil_2 | apply Forall_app; split | apply Forall_when | apply Forall_cons; split].
  all: first [exact He | exact Hb | exact Hx | exact Hv | by apply width_const].
Qed.
Lemma pebs_clone_ok p : pebs_ok p → pebs_ok (pebs_clone_for_fork p).
Proof. intros [Hr _]. constructor; [|done]. intros r. specialize (Hr r). destruct r; try exact Hr; by apply width_const. Qed.
Lemma fork_vcpu_ok me p v :
  machine_ok me → vcpu_ok p → map_Forall (λ f x, in_width (field_width f) x) v → vcpu_ok (fork_vcpu me p v).
Proof.
  intros Hme [Hc _ _] Hv. constructor; [|eexists; apply event_state_new_refines|apply Hme].
  pose proof (vk_fields _ Hc) as Hf. pose proof (vk_channel _ Hc) as Hch. pose proof (vk_console _ Hc) as Hco. pose proof (vk_pebs _ Hc) as Hp. destruct Hc. constructor; try done.
  - intros f. destruct f; cbn [vfields fork_vcpu vfield_ok]; first [match goal with |- context [vfields p ?g] => exact (Hf g) end | by apply width_const | by split].
  - destruct Hch. constructor; try done; intros; by apply width_const.
  - split; [apply Hco|done].
  - cbn. destruct (pebs_state p) as [q|]; [|done]. intros q' [= <-]. by apply pebs_clone_ok, Hp.
Qed.
Lemma fork_ok me pc parent eptp child :
  machine_ok me → in_width 64 eptp → vcpu_ok (vs_vcpu parent) → run_ok (vs_run parent) →
  new_for_fork me pc parent eptp = Ok child → vcpu_ok (vs_vcpu child) ∧ run_ok (vs_run child).
Proof.
  intros Hme He Hv Hr (b & e & Hb & Hx & ->)%fork_Ok. split.
  - apply fork_vcpu_ok; [done..|]. apply apply_writes_ok; [|apply Hv].
    apply fork_writes_ok; [done|by apply (mo_alloc _ Hme _ _ Hb)|by apply (mo_alloc _ Hme _ _ Hx)|apply Hme].
  - apply fresh_run_ok; [done|]. intros g. pose proof (rk_regs _ Hr g). destruct g; try done; by apply width_const.
Qed.
(** The child's VMCS is the parent's but for the fields repointed. *)
Lemma fork_field me pc parent eptp child f :
  new_for_fork me pc parent eptp = Ok child → f ∉ fork_fields → vmcs (vs_vcpu child) !! f = vmcs (vs_vcpu parent) !! f.
Proof. intros (b & e & _ & _ & ->)%fork_Ok Hf. cbn -[fork_writes]. apply apply_writes_other. intros Hin%fork_writes_fields. done. Qed.
Lemma fork_at_rest me pc parent eptp child :
  new_for_fork me pc parent eptp = Ok child → at_rest (with_msrs (pr_msrs (me_processor me)) (vs_run parent)) (vs_vcpu parent) →
  at_rest (vs_run child) (vs_vcpu child).
Proof.
  intros Hf Hr. assert (∀ f, f ∉ fork_fields → vmcs (vs_vcpu child) !! f = vmcs (vs_vcpu parent) !! f) as Hv by (intros f; by apply (fork_field me pc parent eptp)).
  apply fork_Ok in Hf as (b & e & _ & _ & ->). destruct Hr as [_ H1 H2 H3 H4 H5 H6 H7].
  constructor; [done|exact H1|exact H2|exact H3|exact H4|..].
  - intros m f v Hin Hm1 Hm2 Hm. rewrite Hv; [by apply (H5 m)|]. unfold swapped in Hin.
    repeat (apply elem_of_cons in Hin as [[= -> ->]|Hin]; [by apply list_dec|]). by apply not_elem_of_nil in Hin.
  - intros c. rewrite Hv by (by apply list_dec). apply H6.
  - by rewrite Hv by (by apply list_dec).
Qed.

(** C16: A fork that can be made is a well-formed VM ready to run, and starts as its parent is.  When pages and instructions do not fail, and the parent is well-formed, not running, with
    the host's saved registers as they are now and the fields a fork writes in its VMCS, the fork is made; it has the parent's fields of the VMCS, general registers, device
    states, emulated registers, extended state and intercepted registers, at the parent's guest time with its counter at zero; but its own
    EPT, MSR bitmap page, VM-exit list and tag, and no pending request, event, precise exit or stop of the parent's.  One register of the guest is lost: CR2 is zero. *)
Theorem fork_inherits me parent eptp :
  machine_works me → machine_ok me → in_width 64 eptp → vcpu_ok (vs_vcpu parent) → run_ok (vs_run parent) →
  at_rest (with_msrs (pr_msrs (me_processor me)) (vs_run parent)) (vs_vcpu parent) →
  (∀ f, f ∈ fork_fields → is_Some (vmcs (vs_vcpu parent) !! f)) →
  ∃ child, new_for_fork me true parent eptp = Ok child ∧ vcpu_ok (vs_vcpu child) ∧ run_ok (vs_run child) ∧ at_rest (vs_run child) (vs_vcpu child) ∧
    let p := vs_vcpu parent in let c := vs_vcpu child in
    (∀ f, f ∉ fork_fields → vmcs c !! f = vmcs p !! f) ∧ gprs c = gprs p ∧
    (∀ g, g ∈ [GuestStar; GuestLstar; GuestCstar; GuestFmask] → rn_regs (vs_run child) g = rn_regs (vs_run parent) g) ∧
    (∀ f, f ∈ [TscFrequency; TscAux; Xcr0Mask; Pat; KernelGsBase; EmulatedTsc] → vfields c f = vfields p f) ∧
    apic c = apic p ∧ ioapic c = ioapic p ∧ serial c = serial p ∧ rtc c = rtc p ∧ mtrr c = mtrr p ∧ random c = random p ∧
    feedback_buffers c = feedback_buffers p ∧ page_gpa (io_channel c) = page_gpa (io_channel p) ∧
    vs_bitmap child = vs_bitmap parent ∧ vs_xsave child = vs_xsave parent ∧ vfields c GuestCr2 = 0 ∧
    u64 (vfields c LastInstructionCount + vfields c TscOffset) = vfields p EmulatedTsc ∧
    vmcs c !! EptPointer = Some eptp ∧ vmcs c !! MsrBitmapAddr = Some (vs_bitmap_pa child) ∧
    (is_Some (pebs_state p) → vmcs c !! VmExitMsrLoadAddr = Some (vs_exit_list_pa child)) ∧
    (has (default 0 (vmcs p !! SecondaryProcBasedVmExecControls)) ENABLE_VPID = true → vmcs c !! VirtualProcessorId = Some (me_vpid me) ∧ vs_vpid child = me_vpid me) ∧
    request_len (io_channel c) = 0 ∧ pending_actions (io_channel c) = [] ∧ event_len (events c) = 0 ∧ stop_at_tsc c = None ∧
    (∀ q, pebs_state c = Some q → armed_action q = None).
Proof.
  intros Hw Hme He Hv Hr Hrest Hf. destruct (fork_works me parent eptp Hw Hf) as [child Hc]. exists child. split; [done|].
  destruct (fork_ok me true parent eptp child) as [Hcv Hcr]; [done..|]. split; [done|]. split; [done|].
  split; [by apply (fork_at_rest me true parent eptp)|].
  assert (∀ f, f ∉ fork_fields → vmcs (vs_vcpu child) !! f = vmcs (vs_vcpu parent) !! f) as Hsame by (intros f; by apply (fork_field me true parent eptp)).
  apply fork_Ok in Hc as (b & e & _ & _ & ->). cbv zeta. split; [exact Hsame|].
  assert (in_width 64 (vfields (vs_vcpu parent) EmulatedTsc)) as Ht by apply (vk_fields _ (ok_core _ Hv) EmulatedTsc).
  cbn -[fork_writes]. rewrite !last_write_spec. unfold fork_writes, repoint_writes.
  split_and!; try done.
  - intros g Hg. repeat (apply elem_of_cons in Hg as [->|Hg]; [done|]). by apply not_elem_of_nil in Hg.
  - intros f Hg. repeat (apply elem_of_cons in Hg as [->|Hg]; [done|]). by apply not_elem_of_nil in Hg.
  - by apply wrap_small.
  - by destruct (bool_decide _), (has _ _).
  - by destruct (bool_decide _), (has _ _).
  - intros Hp. rewrite (bool_decide_eq_true_2 _ Hp). by destruct (has _ _).
  - intros ->. by destruct (bool_decide _).
  - intros q. destruct (pebs_state (vs_vcpu parent)); cbn; [by intros [= <-]|done].
Qed.

(** Not everything is inherited: the context that holds the guest's page-fault
    address is a new one. *)
Lemma fork_loses_cr2 me pc parent eptp child :
  new_for_fork me pc parent eptp = Ok child → vfields (vs_vcpu child) GuestCr2 = 0.
Proof. by intros (b & e & _ & _ & ->)%fork_Ok. Qed.
(** And a parent that is single-stepped passes the trap flag on to a child that
    does not know of it. *)
Lemma fork_keeps_trap_flag me pc parent eptp child :
  new_for_fork me pc parent eptp = Ok child →
  vmcs (vs_vcpu child) !! PrimaryProcBasedVmExecControls = vmcs (vs_vcpu parent) !! PrimaryProcBasedVmExecControls ∧ mtf_enabled (vs_vcpu child) = false.
Proof.
  intros Hf. split; [by apply (fork_field me pc parent eptp child _ Hf), list_dec|]. by apply fork_Ok in Hf as (b & e & _ & _ & ->).
Qed.

(** *** A machine *)
Definition demo_processor : processor :=
  mkProcessor (list_to_map [(IA32_VMX_PINBASED_CTLS, Z.shiftl 0x7F 32); (IA32_VMX_PROCBASED_CTLS, Z.shiftl 0xFFFFFFFF 32);
      (IA32_VMX_PROCBASED_CTLS2, Z.shiftl 0xFFFFFFFF 32); (IA32_STAR, 1); (IA32_LSTAR, 2); (IA32_SYSENTER_CS, 0x10); (IA32_EFER, 0xD01)])
    (Some 0x80050033) (Some 0x1000) (Some 0x2000) (λ _, 8).
Definition demo_machine : machine_env :=
  mkMachine demo_processor (λ i, Some (0x10000 + 0x1000 * Z.of_nat (i mod 5)))
    (foldr (λ f m, <[f := 0]> m) ∅ (VmEntryMsrLoadCount :: setup_fields ++ fork_fields)) (mkClock (λ _, 0) 0) (Some 0x9000) 1 true true true.
Lemma demo_processor_ok : processor_ok demo_processor.
Proof.
  constructor; cbn [pr_msrs pr_cr0 pr_cr3 pr_cr4 pr_regs demo_processor].
  - apply map_Forall_lookup_2. intros m v Hv. apply elem_of_list_to_map_2 in Hv.
    repeat (apply elem_of_cons in Hv as [[= -> ->]|Hv]; [by apply width_const|]). by apply not_elem_of_nil in Hv.
  - intros v Hv. vm_compute in Hv. injection Hv as <-. by apply width_const.
  - intros v [= <-]. by apply width_const.
  - intros v [= <-]. by apply width_const.
  - intros v [= <-]. by apply width_const.
  - intros []; by apply width_const.
Qed.
Lemma demo_machine_env_ok : machine_ok demo_machine.
Proof.
  constructor; cbn [me_processor me_alloc me_vmcs me_clock me_counter_page me_vpid demo_machine].
  - apply demo_processor_ok.
  - intros i pa [= <-]. assert (Z.of_nat (i mod 5) < 5) by (pose proof (Nat.mod_upper_bound i 5); lia). split; lia.
  - generalize (VmEntryMsrLoadCount :: setup_fields ++ fork_fields). intros l. induction l as [|f l IH]; [apply map_Forall_empty|].
    cbn. apply map_Forall_insert_2; [|done]. unfold field_width. repeat case_match; by apply width_const.
  - intros c Hc. vm_compute in Hc. by injection Hc as <-.
  - intros p [= <-]. by apply width_const.
  - by apply width_const.
  - intros n. by apply width_const.
Qed.
Lemma demo_machine_works : machine_works demo_machine.
Proof. constructor; [by eexists|done..]. Qed.
Lemma demo_machine_fields f : f ∈ setup_fields ++ fork_fields → is_Some (me_vmcs demo_machine !! f).
Proof.
  intros Hf. cbn [me_vmcs demo_machine]. assert (f ∈ VmEntryMsrLoadCount :: setup_fields ++ fork_fields) as Hin by (by apply elem_of_cons; right).
  revert Hin. generalize (VmEntryMsrLoadCount :: setup_fields ++ fork_fields). clear Hf. intros l. induction l as [|g l IH]; intros Hin; [by apply not_elem_of_nil in Hin|].
  cbn. destruct (decide (f = g)) as [->|Hne]; [rewrite lookup_insert_eq; by eexists|]. rewrite lookup_insert_ne by done. apply IH.
  by apply elem_of_cons in Hin as [->|Hin].
Qed.
Definition demo_vm : VmState := new_result demo_machine 0x7000 0x5000 1000 0x10000 0x11000.

Lemma msr_bitmap_exact_witness : intercepted msr_bitmap_new true IA32_LSTAR = false ∧ intercepted msr_bitmap_new false 0x10 ≠ false.
Proof.
  split; [apply (msr_bitmap_exact true IA32_LSTAR); [by apply width_const|left; by apply list_in]|].
  intros H. apply (msr_bitmap_exact false 0x10) in H as [H|H]; [revert H; by apply list_dec|revert H; by apply list_dec|by apply width_const].
Defined.
Lemma new_ready_witness : ∃ vm, new demo_machine 0x7000 0x5000 1000 = Ok vm ∧ at_rest (vs_run vm) (vs_vcpu vm).
Proof.
  destruct (new_ready demo_machine 0x7000 0x5000 1000 demo_machine_works demo_machine_env_ok) as (vm & E & _ & _ & H & _);
    [intros f Hf; apply demo_machine_fields, elem_of_app; by left|by apply width_const..|]. exact (ex_intro _ vm (conj E H)).
Defined.
Lemma demo_vm_new : new demo_machine 0x7000 0x5000 1000 = Ok demo_vm.
Proof.
  destruct (new_works demo_machine 0x7000 0x5000 1000 demo_machine_works) as [vm E]; [intros f Hf; apply demo_machine_fields, elem_of_app; by left|].
  rewrite E. f_equal. apply new_Ok in E as (b & e & [= <-] & [= <-] & ->). reflexivity.
Qed.
Lemma interception_controls_set_witness : ∃ cpu, vmcs (vs_vcpu demo_vm) !! PrimaryProcBasedVmExecControls = Some cpu ∧ has cpu HLT_EXITING = true.
Proof.
  assert (∀ m req v, pr_msrs demo_processor !! m = Some v → Z.land (u32 (Z.shiftr v 32)) req = req → capable (pr_msrs demo_processor) m req) as Hc
    by (intros m req v Hv Hr; by exists v).
  destruct (interception_controls_set demo_machine 0x7000 0x5000 1000 demo_vm demo_vm_new) as (pin & cpu & cpu2 & _ & _ & E & H & _).
  - by apply (Hc _ _ (Z.shiftl 0x7F 32)).
  - by apply (Hc _ _ (Z.shiftl 0xFFFFFFFF 32)).
  - by apply (Hc _ _ (Z.shiftl 0xFFFFFFFF 32)).
  - exact (ex_intro _ cpu (conj E (Forall_inv H))).
Defined.
(** The VM created is forked. *)
Lemma fork_inherits_witness : ∃ child, new_for_fork demo_machine true demo_vm 0x6000 = Ok child ∧ vmcs (vs_vcpu child) !! EptPointer = Some 0x6000 ∧
  vmcs (vs_vcpu child) !! MsrBitmapAddr = Some 0x10000.
Proof.
  destruct (new_state_ok demo_machine 0x7000 0x5000 1000 demo_vm demo_machine_env_ok) as [Hv Hr]; [by apply width_const..|apply demo_vm_new|].
  pose proof (new_at_rest _ _ _ _ _ demo_machine_env_ok demo_vm_new) as Hrest.
  destruct (fork_inherits demo_machine demo_vm 0x6000 demo_machine_works demo_machine_env_ok) as (child & E & _ & _ & _ & H); [by apply width_const|done|done|exact Hrest| |].
  - intros f Hin. apply apply_writes_exists, demo_machine_fields, elem_of_app. by right.
  - exists child. cbv zeta in H. split; [exact E|]. destruct H as (_ & _ & _ & _ & _ & _ & _ & _ & _ & _ & _ & _ & _ & _ & _ & _ & He & Hb & _).
    split; [exact He|]. rewrite Hb. f_equal. apply fork_Ok in E as (b & e & [= <-] & _ & ->). reflexivity.
Defined.
