(* ===== verification/Registers.v ===== *)
(** * The guest's registers, from and for userspace (crates [bedrock-vmx]:
    [registers/], [traits/registers.rs], [traits/context.rs]; [bedrock]:
    [vm_file/handlers.rs]; [bedrock-vm]: [registers.rs])

    SET_REGS replaces the registers of a VM and GET_REGS reads them, through one
    struct of 456 bytes.  The theorems: what was set is read back, but for the
    registers the VMCS does not hold and the bits the processor fixes; and the
    registers with which a guest is started in long mode.  Copies to and from the
    caller's memory are parameters, as in [Ioctl]. *)
From stdpp Require Import strings.
From S2P Require Import Prelude Wire EventLog Random Rtc Apic Vcpu GuestMem Relational Precise Handlers Safety Emulation Mmio ExitLog IoChannel Vmcall Ioctl Dispatch Footprint Run HostState Setup.

(** ** Data *)
Inductive segment := SegCs | SegDs | SegEs | SegFs | SegGs | SegSs | SegTr | SegLdtr.
Record SegmentRegister := mkSegment { seg_selector : Z; seg_access_rights : Z; seg_limit : Z; seg_base : Z }.
Record DebugRegisters := mkDebug { dr0 : Z; dr1 : Z; dr2 : Z; dr3 : Z; dr6 : Z; dr7 : Z }.
Record ControlRegisters := mkControl { cr0 : Z; cr2 : Z; cr3 : Z; cr4 : Z; cr8 : Z }.
Record DescriptorTable := mkTable { table_base : Z; table_limit : Z }.
Record GuestRegisters := mkRegisters {
  g_gprs : Reg → Z;
  g_control : ControlRegisters;
  g_debug : DebugRegisters;
  g_segment : segment → SegmentRegister;
  g_gdtr : DescriptorTable;
  g_idtr : DescriptorTable;
  g_efer : Z;
  g_rip : Z;
  g_rflags : Z;
}.

Definition GuestRsp : Z := 0x681C.
Definition GuestDr7 : Z := 0x681A.
Definition GuestGdtrBase : Z := 0x6816.
Definition GuestIdtrBase : Z := 0x6818.
Definition GuestGdtrLimit : Z := 0x4810.
Definition GuestIdtrLimit : Z := 0x4812.
Definition GuestIa32Efer : Z := 0x2806.
Definition GuestIa32SysenterCs : Z := 0x482A.
Definition GuestIa32SysenterEsp : Z := 0x6824.
Definition GuestIa32SysenterEip : Z := 0x6826.
Definition GuestIa32Debugctl : Z := 0x2802.
Definition GuestIa32Pat : Z := 0x2804.
Definition GuestActivityState : Z := 0x4826.
Definition selector_field (s : segment) : Z :=
  match s with
  | SegEs => 0x0800 | SegCs => 0x0802 | SegSs => 0x0804 | SegDs => 0x0806 | SegFs => 0x0808 | SegGs => 0x080A | SegLdtr => 0x080C | SegTr => 0x080E
  end.
Definition limit_field (s : segment) : Z :=
  match s with
  | SegEs => 0x4800 | SegCs => 0x4802 | SegSs => 0x4804 | SegDs => 0x4806 | SegFs => 0x4808 | SegGs => 0x480A | SegLdtr => 0x480C | SegTr => 0x480E
  end.
Definition access_rights_field (s : segment) : Z :=
  match s with
  | SegEs => 0x4814 | SegCs => 0x4816 | SegSs => 0x4818 | SegDs => 0x481A | SegFs => 0x481C | SegGs => 0x481E | SegLdtr => 0x4820 | SegTr => 0x4822
  end.
Definition base_field (s : segment) : Z :=
  match s with
  | SegEs => 0x6806 | SegCs => 0x6808 | SegSs => 0x680A | SegDs => 0x680C | SegFs => 0x680E | SegGs => 0x6810 | SegLdtr => 0x6812 | SegTr => 0x6814
  end.

(** ** Writing and reading them *)
Definition fix_cr (fixed0 fixed1 value : Z) : Z := Z.land (Z.lor value fixed0) fixed1.
Definition fix_cr0 (cap : cr_caps) (value : Z) : Z := fix_cr (cr0_fixed0 cap) (cr0_fixed1 cap) value.
Definition fix_cr4 (cap : cr_caps) (value : Z) : Z := fix_cr (cr4_fixed0 cap) (cr4_fixed1 cap) value.

(** The order in which the segments are written. *)
Definition written_segments : list segment := [SegCs; SegDs; SegEs; SegFs; SegGs; SegSs; SegLdtr; SegTr].
Definition register_writes (cap : cr_caps) (regs : GuestRegisters) : list (Z * Z) :=
  let seg := g_segment regs in
  [(GuestRsp, g_gprs regs RSP); (GuestRip, g_rip regs); (GuestRflags, g_rflags regs);
   (GuestCr0, fix_cr0 cap (cr0 (g_control regs))); (GuestCr4, fix_cr4 cap (cr4 (g_control regs))); (GuestCr3, cr3 (g_control regs));
   (GuestDr7, dr7 (g_debug regs))] ++
  ((λ s, (selector_field s, seg_selector (seg s))) <$> written_segments) ++ ((λ s, (base_field s, seg_base (seg s))) <$> written_segments) ++
  ((λ s, (limit_field s, seg_limit (seg s))) <$> written_segments) ++
  ((λ s, (access_rights_field s, seg_access_rights (seg s))) <$> written_segments) ++
  [(GuestGdtrBase, table_base (g_gdtr regs)); (GuestIdtrBase, table_base (g_idtr regs));
   (GuestGdtrLimit, table_limit (g_gdtr regs)); (GuestIdtrLimit, table_limit (g_idtr regs)); (GuestIa32Efer, g_efer regs);
   (GuestIa32SysenterCs, 0); (GuestIa32SysenterEsp, 0); (GuestIa32SysenterEip, 0); (GuestIa32Debugctl, 0); (GuestIa32Pat, 0x0007040600070406);
   (GuestInterruptibilityState, 0); (GuestActivityState, 0); (GuestPendingDebugExceptions, 0)].
Definition set_registers (cap : cr_caps) (regs : GuestRegisters) : VM () :=
  modify (with_gprs (g_gprs regs));; write_fields (register_writes cap regs).

Definition read_segment (s : segment) : VM SegmentRegister :=
  selector ← vmread (selector_field s);
  base ← vmread (base_field s);
  limit ← vmread (limit_field s);
  ar ← vmread (access_rights_field s);
  mret (mkSegment selector ar limit base).
Definition get_registers : VM GuestRegisters :=
  gprs ← gets gprs;
  cr0 ← vmread GuestCr0;
  cr3 ← vmread GuestCr3;
  cr4 ← vmread GuestCr4;
  dr7 ← vmread GuestDr7;
  cs ← read_segment SegCs;
  ds ← read_segment SegDs;
  es ← read_segment SegEs;
  fs ← read_segment SegFs;
  gs ← read_segment SegGs;
  ss ← read_segment SegSs;
  tr ← read_segment SegTr;
  ldtr ← read_segment SegLdtr;
  gdtr_base ← vmread GuestGdtrBase;
  gdtr_limit ← vmread GuestGdtrLimit;
  idtr_base ← vmread GuestIdtrBase;
  idtr_limit ← vmread GuestIdtrLimit;
  efer ← vmread GuestIa32Efer;
  rip ← vmread GuestRip;
  rflags ← vmread GuestRflags;
  mret (mkRegisters gprs (mkControl cr0 0 cr3 cr4 0) (mkDebug 0 0 0 0 0 dr7)
    (λ s, match s with
          | SegCs => cs | SegDs => ds | SegEs => es | SegFs => fs | SegGs => gs | SegSs => ss | SegTr => tr | SegLdtr => ldtr
          end)
    (mkTable gdtr_base (u16 gdtr_limit)) (mkTable idtr_base (u16 idtr_limit)) efer rip rflags).

(** With the VMCS current around the accesses: [loads] and [clears] say whether
    VMPTRLD and VMCLEAR succeed. *)
Inductive RegistersError := VmcsAccess (e : ExitError) | VmcsGuard.
Definition vmcs_guarded {A} (loads clears : bool) (m : VM A) : M Vcpu RegistersError A := λ s,
  if negb loads then (Fail VmcsGuard, s)
  else
    let '(result, s) := m s in
    if negb clears then (match result with Stuck => Stuck | _ => Fail VmcsGuard end, s)
    else (match result with Done a => Done a | Fail e => Fail (VmcsAccess e) | Stuck => Stuck end, s).
Definition set_registers_guarded (loads clears : bool) (cap : cr_caps) (regs : GuestRegisters) : M Vcpu RegistersError () :=
  vmcs_guarded loads clears (set_registers cap regs).
Definition get_registers_guarded (loads clears : bool) : M Vcpu RegistersError GuestRegisters := vmcs_guarded loads clears get_registers.

(** ** The struct *)
Definition segment_layout : list nat := [2; 2; 4; 4; 4; 8]%nat.
Definition struct_segments : list segment := [SegCs; SegDs; SegEs; SegFs; SegGs; SegSs; SegTr; SegLdtr].
Definition BedrockRegs_layout : list nat :=
  replicate 16 8%nat ++ replicate 5 8%nat ++ replicate 6 8%nat ++ concat (replicate 8 segment_layout) ++ [2; 8; 2; 8; 4; 8; 8; 8]%nat.
Definition struct_gprs : list Reg := [RAX; RCX; RDX; RBX; RSP; RBP; RSI; RDI; R8; R9; R10; R11; R12; R13; R14; R15].
(** The values of the fields; [pad] gives those of the bytes the compiler adds. *)
Definition struct_values (pad : nat → Z) (r : GuestRegisters) : list Z :=
  let c := g_control r in let d := g_debug r in
  (g_gprs r <$> struct_gprs) ++ [cr0 c; cr2 c; cr3 c; cr4 c; cr8 c] ++ [dr0 d; dr1 d; dr2 d; dr3 d; dr6 d; dr7 d] ++
  concat (imap (λ i s, let g := g_segment r s in [seg_selector g; 0; seg_access_rights g; seg_limit g; pad i; seg_base g]) struct_segments) ++
  [table_limit (g_gdtr r); table_base (g_gdtr r); table_limit (g_idtr r); table_base (g_idtr r); pad 8%nat; g_efer r; g_rip r; g_rflags r].
Definition reg_index (r : Reg) : nat :=
  match r with
  | RAX => 0 | RCX => 1 | RDX => 2 | RBX => 3 | RSP => 4 | RBP => 5 | RSI => 6 | RDI => 7
  | R8 => 8 | R9 => 9 | R10 => 10 | R11 => 11 | R12 => 12 | R13 => 13 | R14 => 14 | R15 => 15
  end.
Definition segment_index (s : segment) : nat :=
  match s with SegCs => 0 | SegDs => 1 | SegEs => 2 | SegFs => 3 | SegGs => 4 | SegSs => 5 | SegTr => 6 | SegLdtr => 7 end.
Definition of_struct (l : list Z) : GuestRegisters :=
  let v (i : nat) := default 0 (l !! i) in
  (mkRegisters (λ r, v (reg_index r)) (mkControl (v 16) (v 17) (v 18) (v 19) (v 20)) (mkDebug (v 21) (v 22) (v 23) (v 24) (v 25) (v 26))
    (λ s, let i := 27 + 6 * segment_index s in mkSegment (v i) (v (i + 2)) (v (i + 3)) (v (i + 5)))
    (mkTable (v 76) (v 75)) (mkTable (v 78) (v 77)) (v 80) (v 81) (v 82))%nat.

(** ** The ioctls *)
Section Ioctls.
Context (from_user : Z → nat → option (list Z)) (to_user : Z → list Z → bool).
Context (loads clears : bool) (cap : cr_caps).

Definition on_vm {A} (m : M Vcpu RegistersError A) : IO A := λ '(f, out),
  match m (vf_vcpu f) with
  | (Done a, s) => (Done a, (on_file (λ _, s) f, out))
  | (Fail _, s) => (Fail EINVAL, (on_file (λ _, s) f, out))
  | (Stuck, s) => (Stuck, (f, out))
  end.
(** [stack] is what the padding of the struct on the kernel's stack holds. *)
Definition handle_get_regs (stack : nat → Z) (arg : Z) : IO () :=
  regs ← on_vm (get_registers_guarded loads clears);
  copy_to_user to_user arg (encode BedrockRegs_layout (struct_values stack regs)).
Definition handle_set_regs (arg : Z) : IO () :=
  vals ← read_struct from_user BedrockRegs_layout arg;
  on_vm (set_registers_guarded loads clears cap (of_struct vals)).
End Ioctls.

(** ** Setting and reading back *)

(** What the VMCS keeps of the registers. *)
Definition kept (cap : cr_caps) (r : GuestRegisters) : GuestRegisters :=
  let c := g_control r in
  mkRegisters (g_gprs r) (mkControl (fix_cr0 cap (cr0 c)) 0 (cr3 c) (fix_cr4 cap (cr4 c)) 0) (mkDebug 0 0 0 0 0 (dr7 (g_debug r)))
    (g_segment r) (g_gdtr r) (g_idtr r) (g_efer r) (g_rip r) (g_rflags r).
Definition register_fields : list Z :=
  [GuestRsp; GuestRip; GuestRflags; GuestCr0; GuestCr4; GuestCr3; GuestDr7] ++ (selector_field <$> written_segments) ++ (base_field <$> written_segments) ++
  (limit_field <$> written_segments) ++ (access_rights_field <$> written_segments) ++
  [GuestGdtrBase; GuestIdtrBase; GuestGdtrLimit; GuestIdtrLimit; GuestIa32Efer; GuestIa32SysenterCs; GuestIa32SysenterEsp; GuestIa32SysenterEip;
   GuestIa32Debugctl; GuestIa32Pat; GuestInterruptibilityState; GuestActivityState; GuestPendingDebugExceptions].
Lemma register_writes_fields cap r : (register_writes cap r).*1 = register_fields.
Proof. reflexivity. Qed.

Lemma vm_done {A B} (m : VM A) (k : A → VM B) s a s' : m s = (Done a, s') → (m ≫= k) s = k a s'.
Proof. intros E. unfold mbind, M_bind. by rewrite E. Qed.
Lemma set_registers_done cap r s :
  (∀ f, f ∈ register_fields → is_Some (vmcs s !! f)) →
  set_registers cap r s = (Done (), with_vmcs (apply_writes (register_writes cap r) (vmcs s)) (with_gprs (g_gprs r) s)).
Proof.
  intros Hf. unfold set_registers. rewrite (vm_done _ _ s () (with_gprs (g_gprs r) s)) by done.
  pose proof (writes_fields (register_writes cap r) (with_gprs (g_gprs r) s)) as H. destruct (write_fields _ _) as [[[]|e|] s']; [by rewrite H| |done].
  destruct H as (f & Hin & Hn). rewrite register_writes_fields in Hin. destruct (Hf f Hin) as [v Hv]. cbn in Hn. congruence.
Qed.

(** A write that fails leaves those before it. *)
Lemma write_fields_some l s : ∃ l', l' `prefix_of` l ∧ (write_fields l s).2 = with_vmcs (apply_writes l' (vmcs s)) s.
Proof.
  revert s. induction l as [|[f v] l IH]; intros s; [exists []; split; [done|by destruct s]|]. unfold write_fields. cbn [for_each]. unfold mbind, M_bind, vmwrite.
  destruct (vmcs s !! f); [|exists []; split; [apply prefix_nil|by destruct s]].
  destruct (IH (with_vmcs (<[f := v]> (vmcs s)) s)) as (l' & Hp & E). exists ((f, v) :: l'). split; [by apply prefix_cons|]. exact E.
Qed.
Lemma set_registers_some cap r s : ∃ l, l `prefix_of` register_writes cap r ∧
  (set_registers cap r s).2 = with_vmcs (apply_writes l (vmcs s)) (with_gprs (g_gprs r) s) ∧ (set_registers cap r s).1 ≠ Stuck ∧
  ((∀ f, f ∈ register_fields → is_Some (vmcs s !! f)) → (set_registers cap r s).1 = Done () ∧ l = register_writes cap r).
Proof.
  destruct (write_fields_some (register_writes cap r) (with_gprs (g_gprs r) s)) as (l & Hl & E).
  pose proof (writes_fields (register_writes cap r) (with_gprs (g_gprs r) s)) as H.
  assert (set_registers cap r s = write_fields (register_writes cap r) (with_gprs (g_gprs r) s)) as Es by done. rewrite Es.
  destruct (decide (Forall (λ f, is_Some (vmcs s !! f)) register_fields)) as [Hf|Hf]; rewrite Forall_forall in Hf.
  - exists (register_writes cap r). rewrite <-Es, (set_registers_done cap r s Hf). by split_and!.
  - exists l. split; [done|]. split; [done|]. split; [by destruct (write_fields _ _) as [[]]|]. intros ?. by destruct Hf.
Qed.

(** The registers that fields and general registers hold. *)
Definition registers_at (v : Z → Z) (g : Reg → Z) : GuestRegisters :=
  mkRegisters g (mkControl (v GuestCr0) 0 (v GuestCr3) (v GuestCr4) 0) (mkDebug 0 0 0 0 0 (v GuestDr7))
    (λ s, mkSegment (v (selector_field s)) (v (access_rights_field s)) (v (limit_field s)) (v (base_field s)))
    (mkTable (v GuestGdtrBase) (u16 (v GuestGdtrLimit))) (mkTable (v GuestIdtrBase) (u16 (v GuestIdtrLimit))) (v GuestIa32Efer) (v GuestRip) (v GuestRflags).
Lemma read_field s f : f ∈ register_fields → (∀ f, f ∈ register_fields → is_Some (vmcs s !! f)) → vmread f s = (Done (default 0 (vmcs s !! f)), s).
Proof. intros Hin Hf. destruct (Hf f Hin) as [v Hv]. unfold vmread. by rewrite Hv. Qed.
Lemma read_segment_done s sg : (∀ f, f ∈ register_fields → is_Some (vmcs s !! f)) →
  let v f := default 0 (vmcs s !! f) in
  read_segment sg s = (Done (mkSegment (v (selector_field sg)) (v (access_rights_field sg)) (v (limit_field sg)) (v (base_field sg))), s).
Proof.
  intros Hf v. unfold read_segment.
  do 4 (erewrite vm_done; [|apply read_field; [apply list_in; by destruct sg|done]]). done.
Qed.
Lemma get_registers_done s : (∀ f, f ∈ register_fields → is_Some (vmcs s !! f)) →
  ∃ r, get_registers s = (Done r, s) ∧ ∀ pad, struct_values pad r = struct_values pad (registers_at (λ f, default 0 (vmcs s !! f)) (gprs s)).
Proof.
  intros Hf. eexists. split.
  - unfold get_registers. rewrite (vm_done _ _ s (gprs s) s) by done.
    do 4 (erewrite vm_done; [|apply read_field; [by apply list_in|done]]).
    do 8 (erewrite vm_done; [|by apply read_segment_done]).
    do 7 (erewrite vm_done; [|apply read_field; [by apply list_in|done]]). reflexivity.
  - intros pad. reflexivity.
Qed.

(** Values of the widths the struct gives them. *)
Record segment_ok (s : SegmentRegister) : Prop := {
  so_selector : in_width 16 (seg_selector s);
  so_rights : in_width 32 (seg_access_rights s);
  so_limit : in_width 32 (seg_limit s);
  so_base : in_width 64 (seg_base s);
}.
Record registers_ok (r : GuestRegisters) : Prop := {
  go_gprs g : in_width 64 (g_gprs r g);
  go_cr0 : in_width 64 (cr0 (g_control r));
  go_cr3 : in_width 64 (cr3 (g_control r));
  go_cr4 : in_width 64 (cr4 (g_control r));
  go_dr7 : in_width 64 (dr7 (g_debug r));
  go_segment s : segment_ok (g_segment r s);
  go_gdtr : in_width 64 (table_base (g_gdtr r)) ∧ in_width 16 (table_limit (g_gdtr r));
  go_idtr : in_width 64 (table_base (g_idtr r)) ∧ in_width 16 (table_limit (g_idtr r));
  go_efer : in_width 64 (g_efer r);
  go_rip : in_width 64 (g_rip r);
  go_rflags : in_width 64 (g_rflags r);
}.
Definition cap_ok (cap : cr_caps) : Prop := in_width 64 (cr0_fixed1 cap) ∧ in_width 64 (cr4_fixed1 cap).

Lemma struct_segments_ext pad g c d f f' t1 t2 e i fl :
  (∀ s, f s = f' s) → struct_values pad (mkRegisters g c d f t1 t2 e i fl) = struct_values pad (mkRegisters g c d f' t1 t2 e i fl).
Proof. intros Hf. unfold struct_values, struct_segments. cbn. by rewrite !Hf. Qed.
Lemma registers_kept cap r v g pad :
  registers_ok r → g = g_gprs r →
  struct_values pad (registers_at (λ f, default 0 (apply_writes (register_writes cap r) v !! f)) g) = struct_values pad (kept cap r).
Proof.
  intros Hr ->. assert (∀ f x, last_write (register_writes cap r) f = Some x → default 0 (apply_writes (register_writes cap r) v !! f) = x) as Hl.
  { intros f x E. by rewrite last_write_spec, E. }
  assert (∀ s, g_segment r s = mkSegment (default 0 (apply_writes (register_writes cap r) v !! selector_field s))
    (default 0 (apply_writes (register_writes cap r) v !! access_rights_field s)) (default 0 (apply_writes (register_writes cap r) v !! limit_field s))
    (default 0 (apply_writes (register_writes cap r) v !! base_field s))) as Hs.
  { intros s. rewrite (Hl _ (seg_selector (g_segment r s))), (Hl _ (seg_access_rights (g_segment r s))), (Hl _ (seg_limit (g_segment r s))),
      (Hl _ (seg_base (g_segment r s))) by (destruct s; reflexivity). by destruct (g_segment r s). }
  unfold registers_at, kept. rewrite (Hl GuestCr0 _ eq_refl), (Hl GuestCr3 _ eq_refl), (Hl GuestCr4 _ eq_refl), (Hl GuestDr7 _ eq_refl),
    (Hl GuestGdtrBase _ eq_refl), (Hl GuestGdtrLimit _ eq_refl), (Hl GuestIdtrBase _ eq_refl), (Hl GuestIdtrLimit _ eq_refl),
    (Hl GuestIa32Efer _ eq_refl), (Hl GuestRip _ eq_refl), (Hl GuestRflags _ eq_refl).
  unfold u16. rewrite !wrap_small by apply Hr. destruct (g_gdtr r), (g_idtr r). by apply struct_segments_ext.
Qed.

(** From the struct's bytes and back. *)
Lemma of_struct_values pad pad' r : struct_values pad' (of_struct (struct_values pad r)) = struct_values pad' r.
Proof. reflexivity. Qed.
Lemma struct_fits pad r : (∀ i, in_width 32 (pad i)) → registers_ok r → in_width 64 (cr2 (g_control r)) → in_width 64 (cr8 (g_control r)) →
  Forall (in_width 64) [dr0 (g_debug r); dr1 (g_debug r); dr2 (g_debug r); dr3 (g_debug r); dr6 (g_debug r)] → fits BedrockRegs_layout (struct_values pad r).
Proof.
  intros Hp Hr H2 H8 Hd. unfold BedrockRegs_layout, struct_values. cbv zeta.
  apply Forall2_app; [|apply Forall2_app; [|apply Forall2_app; [|apply Forall2_app]]].
  - repeat (constructor; [apply Hr|]). constructor.
  - repeat (constructor; [first [done|apply Hr]|]). constructor.
  - rewrite !Forall_cons in Hd. destruct Hd as (?&?&?&?&?&_). repeat (constructor; [first [done|apply Hr]|]). constructor.
  - unfold struct_segments, segment_layout. cbn [imap concat replicate app].
    repeat (constructor; [first [apply Hp|apply (go_segment _ Hr)|by apply width_const]|]). constructor.
  - repeat (constructor; [first [apply Hp|apply Hr]|]). constructor.
Qed.
Lemma of_struct_ok vals : fits BedrockRegs_layout vals → registers_ok (of_struct vals).
Proof.
  intros Hf. assert (∀ i n, BedrockRegs_layout !! i = Some n → in_width (8 * Z.of_nat n) (default 0 (vals !! i))) as H.
  { intros i n Hi. unfold fits in Hf. destruct (Forall2_lookup_l _ _ _ i n Hf Hi) as (z & Hz & Hw). by rewrite Hz. }
  constructor; cbn [of_struct g_gprs g_control g_debug g_segment g_gdtr g_idtr g_efer g_rip g_rflags table_base table_limit cr0 cr3 cr4 dr7].
  - intros g. apply (H _ 8%nat). by destruct g.
  - by apply (H 16 8)%nat.
  - by apply (H 18 8)%nat.
  - by apply (H 19 8)%nat.
  - by apply (H 26 8)%nat.
  - intros s. constructor; cbv zeta; cbn [seg_selector seg_access_rights seg_limit seg_base].
    + apply (H _ 2%nat). by destruct s.
    + apply (H _ 4%nat). by destruct s.
    + apply (H _ 4%nat). by destruct s.
    + apply (H _ 8%nat). by destruct s.
  - split; [by apply (H 76 8)%nat|by apply (H 75 2)%nat].
  - split; [by apply (H 78 8)%nat|by apply (H 77 2)%nat].
  - by apply (H 80 8)%nat.
  - by apply (H 81 8)%nat.
  - by apply (H 82 8)%nat.
Qed.

Lemma fix_cr_ok f0 f1 x : in_width 64 f1 → in_width 64 (fix_cr f0 f1 x).
Proof. intros H. by apply in_width_land_r. Qed.
Lemma register_writes_ok cap r : cap_ok cap → registers_ok r → Forall (λ p, in_width (field_width p.1) p.2) (register_writes cap r).
Proof.
  intros [H0 H4] Hr. assert (∀ s, segment_ok (g_segment r s)) as Hs by apply Hr.
  assert (∀ t : DescriptorTable, in_width 16 (table_limit t) → in_width 32 (table_limit t)) as Ht by (intros t Ht; by eapply in_width_mono; [apply Ht|]).
  unfold register_writes, written_segments. cbv zeta. cbn [fmap list_fmap app].
  repeat first [apply Forall_nil_2 | apply Forall_cons; split]; cbn [fst snd].
  all: match goal with |- in_width (field_width ?f) _ => let w := eval vm_compute in (field_width f) in change (field_width f) with w end.
  all: first [by apply width_const | by apply fix_cr_ok | apply (so_selector _ (Hs _)) | apply (so_rights _ (Hs _)) | apply (so_limit _ (Hs _)) | apply (so_base _ (Hs _))
    | apply Ht; apply Hr | apply Hr].
Qed.
Lemma set_registers_ok cap r s : cap_ok cap → registers_ok r → vcpu_ok s →
  vcpu_ok (with_vmcs (apply_writes (register_writes cap r) (vmcs s)) (with_gprs (g_gprs r) s)).
Proof.
  intros Hc Hr [Hk He Ht]. constructor; [|done|done]. pose proof (apply_writes_ok _ _ (register_writes_ok cap r Hc Hr) (vk_vmcs _ Hk)) as Hv.
  pose proof (go_gprs _ Hr). destruct Hk. by constructor.
Qed.
Lemma kept_ok cap r : cap_ok cap → registers_ok r → registers_ok (kept cap r).
Proof. intros [H0 H4] []. constructor; try done; by apply fix_cr_ok. Qed.
Lemma struct_bytes : sum_list BedrockRegs_layout = 456%nat.
Proof. reflexivity. Qed.

Section RoundTrip.
Context (from_user : Z → nat → option (list Z)) (to_user : Z → list Z → bool) (cap : cr_caps).

Lemma handle_set_regs_done clears arg bs vals f out :
  from_user arg 456 = Some bs → decode BedrockRegs_layout bs = Some (vals, []) → (∀ x, x ∈ register_fields → is_Some (vmcs (vf_vcpu f) !! x)) →
  let r := of_struct vals in
  handle_set_regs from_user true clears cap arg (f, out) =
  (if clears then Done () else Fail EINVAL, (on_file (λ s, with_vmcs (apply_writes (register_writes cap r) (vmcs s)) (with_gprs (g_gprs r) s)) f, out)).
Proof.
  intros Hu Hd Hf r. unfold handle_set_regs, read_struct, copy_from_user, mbind, M_bind. rewrite struct_bytes, Hu. cbn -[BedrockRegs_layout of_struct]. rewrite Hd.
  cbn -[BedrockRegs_layout of_struct set_registers]. unfold on_vm, set_registers_guarded, vmcs_guarded. rewrite (set_registers_done cap r) by done. by destruct clears.
Qed.
Lemma handle_get_regs_done stack arg f out :
  (∀ x, x ∈ register_fields → is_Some (vmcs (vf_vcpu f) !! x)) →
  let bs := encode BedrockRegs_layout (struct_values stack (registers_at (λ x, default 0 (vmcs (vf_vcpu f) !! x)) (gprs (vf_vcpu f)))) in
  to_user arg bs = true → handle_get_regs to_user true true stack arg (f, out) = (Done (), (f, out ++ [(arg, bs)])).
Proof.
  intros Hf bs Hu. unfold handle_get_regs, mbind, M_bind, on_vm, get_registers_guarded, vmcs_guarded. cbn [negb].
  destruct (get_registers_done (vf_vcpu f) Hf) as (r & -> & Hr). rewrite (Hr stack). fold bs. unfold copy_to_user. rewrite Hu. by destruct f.
Qed.

(** The registers SET_REGS puts into a VM are those GET_REGS returns: the struct read back, byte for byte, is the one that was written, except
    that CR0 and CR4 have the bits the processor fixes, that CR2, CR8 and the debug registers other than DR7 are zero, and that the padding is what
    the kernel's stack held.  The VM stays well-formed. *)
Theorem registers_round_trip stack arg arg' bs f out :
  from_user arg 456 = Some bs → length bs = 456%nat → Forall is_byte bs → (∀ b, to_user arg' b = true) → (∀ i, in_width 32 (stack i)) → cap_ok cap →
  vcpu_ok (vf_vcpu f) → (∀ x, x ∈ register_fields → is_Some (vmcs (vf_vcpu f) !! x)) →
  ∃ vals f' bs', decode BedrockRegs_layout bs = Some (vals, []) ∧
    handle_set_regs from_user true true cap arg (f, out) = (Done (), (f', out)) ∧ vcpu_ok (vf_vcpu f') ∧
    handle_get_regs to_user true true stack arg' (f', out) = (Done (), (f', out ++ [(arg', bs')])) ∧
    decode BedrockRegs_layout bs' = Some (struct_values stack (kept cap (of_struct vals)), []).
Proof.
  intros Hu Hl Hb Hw Hst Hc Hv Hf.
  destruct (decode BedrockRegs_layout bs) as [[vals rest]|] eqn:Hd; [|apply decode_None in Hd; rewrite struct_bytes in Hd; lia].
  pose proof (of_struct_ok vals (decode_fits _ _ _ _ Hb Hd)) as Hr.
  assert (rest = []) as ->.
  { apply decode_length in Hd as [E _]. apply (f_equal length) in E. rewrite length_app, length_take, struct_bytes, Hl in E. apply length_zero_iff_nil. lia. }
  set (r := of_struct vals) in *. set (g := λ s, with_vmcs (apply_writes (register_writes cap r) (vmcs s)) (with_gprs (g_gprs r) s)).
  eexists vals, (on_file g f), _. split; [reflexivity|]. split; [exact (handle_set_regs_done true arg bs vals f out Hu Hd Hf)|].
  split; [exact (set_registers_ok cap r _ Hc Hr Hv)|]. split; [apply handle_get_regs_done; [|apply Hw]; intros x Hx; cbn -[register_writes]; by apply apply_writes_exists, Hf|].
  cbn [on_file vf_vcpu g vmcs gprs with_vmcs with_gprs]. rewrite (registers_kept cap r _ _ stack Hr eq_refl).
  rewrite <-(app_nil_r (encode _ _)). apply decode_encode. pose proof (kept_ok cap r Hc Hr).
  apply struct_fits; [done|done|by apply width_const|by apply width_const|].
  repeat (apply Forall_cons; split; [by apply width_const|]). apply Forall_nil_2.
Qed.
End RoundTrip.

(** ** The registers a guest starts with ([bedrock-vm]) *)
Definition CR0_PE : Z := Z.shiftl 1 0.
Definition CR0_ET : Z := Z.shiftl 1 4.
Definition CR0_NE : Z := Z.shiftl 1 5.
Definition CR0_PG : Z := Z.shiftl 1 31.
Definition CR4_PAE : Z := Z.shiftl 1 5.
Definition EFER_LME : Z := Z.shiftl 1 8.
Definition EFER_LMA : Z := Z.shiftl 1 10.
Definition RFLAGS_RESERVED : Z := Z.shiftl 1 1.
Definition DATA_ACCESSED : Z := Z.shiftl 1 0.
Definition DATA_WRITABLE : Z := Z.shiftl 1 1.
Definition CODE_ACCESSED : Z := Z.shiftl 1 0.
Definition CODE_READABLE : Z := Z.shiftl 1 1.
Definition CODE_SEGMENT : Z := Z.shiftl 1 3.
Definition SEG_S : Z := Z.shiftl 1 4.
Definition PRESENT : Z := Z.shiftl 1 7.
Definition LONG_MODE : Z := Z.shiftl 1 13.
Definition UNUSABLE : Z := Z.shiftl 1 16.
Definition real_mode : GuestRegisters :=
  let real_seg := mkSegment 0 0x93 0xFFFF 0 in
  mkRegisters (λ _, 0) (mkControl (Z.lor CR0_NE CR0_ET) 0 0 0 0) (mkDebug 0 0 0 0 0 0)
    (λ s, match s with
          | SegCs => mkSegment 0xF000 0x9B 0xFFFF 0xF0000 | SegTr => mkSegment 0 0x8B 0xFFFF 0 | SegLdtr => mkSegment 0 UNUSABLE 0 0 | _ => real_seg
          end)
    (mkTable 0 0xFFFF) (mkTable 0 0xFFFF) 0 0xFFF0 RFLAGS_RESERVED.
Definition long_mode : GuestRegisters :=
  let code_ar := fold_left Z.lor [SEG_S; CODE_SEGMENT; CODE_READABLE; CODE_ACCESSED; LONG_MODE] PRESENT in
  let data_ar := fold_left Z.lor [SEG_S; DATA_WRITABLE; DATA_ACCESSED] PRESENT in
  mkRegisters (λ _, 0) (mkControl (fold_left Z.lor [CR0_PG; CR0_NE; CR0_ET] CR0_PE) 0 0 CR4_PAE 0) (mkDebug 0 0 0 0 0 0)
    (λ s, match s with
          | SegCs => mkSegment 0x08 code_ar 0 0 | SegTr => mkSegment 0x18 (Z.lor PRESENT 0x0B) 0x67 0 | SegLdtr => mkSegment 0 UNUSABLE 0 0
          | _ => mkSegment 0x10 data_ar 0 0
          end)
    (mkTable 0 0) (mkTable 0 0) (Z.lor EFER_LME EFER_LMA) 0 RFLAGS_RESERVED.

(** *** The checks of VM entry on the segments (SDM volume 3C, 28.3.1.2), for a
    guest that is not in virtual-8086 mode. *)
Definition ar_type (ar : Z) : Z := Z.land ar 0xF.
Definition ar_dpl (ar : Z) : Z := Z.land (Z.shiftr ar 5) 3.
Definition usable (ar : Z) : bool := negb (Z.testbit ar 16).
Definition granularity_ok (s : SegmentRegister) : bool :=
  let g := Z.testbit (seg_access_rights s) 15 in
  (if negb (Z.land (seg_limit s) 0xFFF =? 0xFFF) then negb g else true) && (if negb (Z.shiftr (seg_limit s) 20 =? 0) then g else true).
Definition reserved_clear (ar : Z) : bool := (Z.land ar 0xF00 =? 0) && (Z.shiftr ar 17 =? 0).
Definition data_segment_ok (s : SegmentRegister) : bool :=
  let ar := seg_access_rights s in
  if usable ar then
    Z.testbit ar 0 && implb (Z.testbit ar 3) (Z.testbit ar 1) && Z.testbit ar 4 && Z.testbit ar 7 && reserved_clear ar && granularity_ok s &&
    implb (ar_type ar <=? 11) (Z.land (seg_selector s) 3 <=? ar_dpl ar)
  else true.
Definition entry_segments_ok (unrestricted : bool) (r : GuestRegisters) : bool :=
  let seg := g_segment r in
  let ia32e := Z.testbit (g_efer r) 10 in
  let cs := seg_access_rights (seg SegCs) in let ss := seg_access_rights (seg SegSs) in let tr := seg_access_rights (seg SegTr) in
  let pe := Z.testbit (cr0 (g_control r)) 0 in
  (** TR *)
  ((ar_type tr =? 11) || (negb ia32e && (ar_type tr =? 3))) && negb (Z.testbit tr 4) && Z.testbit tr 7 && reserved_clear tr && granularity_ok (seg SegTr) &&
  usable tr && negb (Z.testbit (seg_selector (seg SegTr)) 2) &&
  (** CS *)
  (existsb (Z.eqb (ar_type cs)) [9; 11; 13; 15] || (unrestricted && (ar_type cs =? 3))) && Z.testbit cs 4 && Z.testbit cs 7 && reserved_clear cs &&
  negb (ia32e && Z.testbit cs 13 && Z.testbit cs 14) && granularity_ok (seg SegCs) && usable cs &&
  (if existsb (Z.eqb (ar_type cs)) [9; 11] then ar_dpl cs =? ar_dpl ss else true) &&
  (** SS *)
  (if usable ss then existsb (Z.eqb (ar_type ss)) [3; 7] && Z.testbit ss 4 && Z.testbit ss 7 && reserved_clear ss && granularity_ok (seg SegSs) else true) &&
  (if unrestricted then true else ar_dpl ss =? Z.land (seg_selector (seg SegSs)) 3) && (if pe then true else ar_dpl ss =? 0) &&
  forallb (λ s, data_segment_ok (seg s)) [SegDs; SegEs; SegFs; SegGs] && (if usable (seg_access_rights (seg SegLdtr)) then false else true).
Lemma long_mode_enters : entry_segments_ok false long_mode = true.
Proof. reflexivity. Qed.
Lemma real_mode_enters : entry_segments_ok true real_mode = true.
Proof. reflexivity. Qed.

(** ** The stack pointer *)

(** After a stay the VMCS holds the guest's stack pointer, and [gprs] still the
    one that was set; GET_REGS returns that one, and setting what was read moves
    the guest's stack. *)
Theorem get_registers_stale_rsp cap s : (∀ f, f ∈ register_fields → is_Some (vmcs s !! f)) →
  ∃ r s', get_registers s = (Done r, s) ∧ set_registers cap r s = (Done (), s') ∧ g_gprs r RSP = gprs s RSP ∧ vmcs s' !! GuestRsp = Some (gprs s RSP).
Proof.
  intros Hf. destruct (get_registers_done s Hf) as (r & Hg & Hv). eexists r, _. split; [exact Hg|]. split; [by apply set_registers_done|].
  assert (g_gprs r RSP = gprs s RSP) as E.
  { specialize (Hv (λ _, 0)). apply (f_equal (λ l : list Z, default 0 (l !! 4%nat))) in Hv. exact Hv. }
  split; [exact E|]. cbn -[register_writes]. by rewrite last_write_spec, <-E.
Qed.

(** *** Setting the registers of long mode *)
Definition demo_struct : list Z := encode BedrockRegs_layout (struct_values (λ _, 0) long_mode).
Definition demo_file : vm_file :=
  mkFile 1 (with_vmcs (foldr (λ f m, <[f := 0]> m) (vmcs demo_launch) register_fields) demo_launch) false.
Definition demo_caps : cr_caps := mkCaps 0x80000021 0xFFFFFFFF 0x2000 0x3FFFFF.
Lemma demo_file_ok : vcpu_ok (vf_vcpu demo_file).
Proof.
  destruct demo_launch_ok as [Hc He Hk]. constructor; [|done|done].
  assert (map_Forall (λ f v, in_width (field_width f) v) (foldr (λ f m, <[f := 0]> m) (vmcs demo_launch) register_fields)) as Hv.
  { generalize register_fields. intros l. induction l as [|f l IH]; [apply Hc|]. cbn. apply map_Forall_insert_2; [|done].
    unfold field_width. repeat case_match; by apply width_const. }
  destruct Hc. by constructor.
Qed.
Lemma demo_file_fields x : x ∈ register_fields → is_Some (vmcs (vf_vcpu demo_file) !! x).
Proof.
  cbn [vf_vcpu demo_file vmcs with_vmcs]. generalize register_fields. intros l. induction l as [|g l IH]; intros Hin; [by apply not_elem_of_nil in Hin|].
  cbn. destruct (decide (x = g)) as [->|Hne]; [rewrite lookup_insert_eq; by eexists|]. rewrite lookup_insert_ne by done. apply IH.
  by apply elem_of_cons in Hin as [->|Hin].
Qed.
Lemma registers_round_trip_witness : ∃ f' bs',
  handle_get_regs (λ _ _, true) true true (λ _, 0) 0x2000 (f', []) = (Done (), (f', [(0x2000, bs')])) ∧
  decode BedrockRegs_layout bs' = Some (struct_values (λ _, 0) (kept demo_caps (of_struct (struct_values (λ _, 0) long_mode))), []).
Proof.
  assert (Some demo_struct = Some demo_struct) as Hu by reflexivity.
  destruct (registers_round_trip (λ _ _, Some demo_struct) (λ _ _, true) demo_caps (λ _, 0) 0x1000 0x2000 demo_struct demo_file [] Hu)
    as (vals & f' & bs' & Hd & _ & _ & Hg & Hd').
  - reflexivity.
  - apply encode_is_byte.
  - done.
  - intros i. by apply width_const.
  - split; by apply width_const.
  - apply demo_file_ok.
  - apply demo_file_fields.
  - exists f', bs'. split; [exact Hg|]. assert (decode BedrockRegs_layout demo_struct = Some (struct_values (λ _, 0) long_mode, [])) as E by (vm_compute; reflexivity).
    rewrite E in Hd. injection Hd as <-. exact Hd'.
Defined.
