(* ===== verification/Registry.v ===== *)
(** * The registry of VMs (crates [bedrock-vmx]: [handler.rs], [vm/root.rs],
    [vm/forked.rs]; [bedrock]: [bedrock_main.rs], [vm_file/fd.rs],
    [vm_file/core.rs], [vm_file/handlers.rs])

    Threads create, fork, run and close VMs concurrently.  The global handler
    maps identifiers to VMs under a lock; a VM counts the children forked from
    it, and refuses to run while it has any; a child holds a reference to its
    parent.  One step of the transition system is one critical section or one
    atomic access.  The theorems: in every reachable state identifiers are
    unique, the count of children is exact, parents outlive their children, and
    a run is started by one thread only, and only without children.  Two
    executions show what is not excluded.  Memory allocation, the creation of
    file descriptors and the drop of the last reference ([Arc]) are the kernel's:
    they happen or fail as a step says. *)
From stdpp Require Import gmap.
From S2P Require Import Prelude.

(** ** The handler *)
Section Handler.
Context (MAX_VMS : nat).

(** A VM is referred to by the address of its allocation. *)
Record BedrockHandler := mkHandler { vm_list : list (Z * nat); next_vm_id : Z }.
Implicit Types h : BedrockHandler.
Definition handler_new : BedrockHandler := mkHandler [] 1.
Definition can_create_vm h : bool := (length (vm_list h) <? MAX_VMS)%nat.
Definition alloc_vm_id h : option (Z * BedrockHandler) :=
  if can_create_vm h then Some (next_vm_id h, mkHandler (vm_list h) (next_vm_id h + 1)) else None.
(** The list may fail to grow, which is ignored. *)
Definition add_vm (grows : bool) (vm_id : Z) (vm : nat) h : BedrockHandler :=
  if grows then mkHandler (vm_list h ++ [(vm_id, vm)]) (next_vm_id h) else h.
Definition remove_vm (vm : nat) h : BedrockHandler := mkHandler (filter (λ e : Z * nat, e.2 ≠ vm) (vm_list h)) (next_vm_id h).
Definition find_vm_by_id (vm_id : Z) h : option nat := snd <$> List.find (λ e, e.1 =? vm_id) (vm_list h).

(** ** VMs and threads *)
Record vm_object := mkObject { ob_id : Z; ob_parent : option nat; children_count : Z; ob_running : bool; ob_fd : bool }.
Definition add_child (ob : vm_object) : vm_object := mkObject (ob_id ob) (ob_parent ob) (children_count ob + 1) (ob_running ob) (ob_fd ob).
Definition remove_child (ob : vm_object) : vm_object := mkObject (ob_id ob) (ob_parent ob) (children_count ob - 1) (ob_running ob) (ob_fd ob).
Definition can_run (ob : vm_object) : bool := children_count ob =? 0.
Definition set_running (b : bool) (ob : vm_object) : vm_object := mkObject (ob_id ob) (ob_parent ob) (children_count ob) b (ob_fd ob).
Definition set_fd (b : bool) (ob : vm_object) : vm_object := mkObject (ob_id ob) (ob_parent ob) (children_count ob) (ob_running ob) b.

(** Where a thread is in an ioctl of the device or of a VM. *)
Inductive thread :=
| CreatingRoot (vm_id : Z)               (** [handle_create_root_vm], with an identifier *)
| Forking (vm_id : Z) (parent : nat)     (** [handle_create_forked_vm], after its first phase *)
| Registered (vm : nat)                  (** [create_vm_fd], before the descriptor *)
| Entering (vm : nat)                    (** [handle_run], having set [running] *)
| Running (vm : nat).                    (** past the check for children *)
Record registry := mkRegistry { handler : BedrockHandler; objects : gmap nat vm_object; threads : gmap nat thread }.
Implicit Types g : registry.
Definition initial : registry := mkRegistry handler_new ∅ ∅.

Definition with_thread (t : nat) (th : option thread) g : registry :=
  mkRegistry (handler g) (objects g) (match th with Some th => (<[t := th]> (threads g)) | None => delete t (threads g) end).
Definition with_handler (h : BedrockHandler) g : registry := mkRegistry h (objects g) (threads g).
Definition on_object (f : vm_object → vm_object) (vm : nat) g : registry := mkRegistry (handler g) (alter f vm (objects g)) (threads g).

Definition new_object (vm : nat) (vm_id : Z) (parent : option nat) g : registry :=
  mkRegistry (handler g) (<[vm := mkObject vm_id parent 0 false false]> (objects g)) (threads g).
(** Dropping a VM: [ForkedVm::drop] tells the parent. *)
Definition drop_object (vm : nat) g : registry :=
  match objects g !! vm with
  | Some ob =>
      let g := mkRegistry (handler g) (delete vm (objects g)) (threads g) in
      match ob_parent ob with Some p => on_object remove_child p g | None => g end
  | None => g
  end.
Definition fork_parent (th : thread) : option nat := match th with Forking _ p => Some p | _ => None end.
Definition run_of (th : thread) : option nat := match th with Entering vm | Running vm => Some vm | _ => None end.
Definition registered (th : thread) : option nat := match th with Registered vm => Some vm | _ => None end.
Definition pending_id (th : thread) : option Z := match th with CreatingRoot id | Forking id _ => Some id | _ => None end.
(** Nothing refers to the VM: no descriptor, no entry of the list, no thread and
    no child. *)
Definition unreferenced (vm : nat) g : Prop :=
  (∀ ob, objects g !! vm = Some ob → ob_fd ob = false) ∧ (vm ∉ (vm_list (handler g)).*2) ∧
  (∀ o ob, objects g !! o = Some ob → ob_parent ob ≠ Some vm) ∧
  (∀ t th, threads g !! t = Some th → fork_parent th ≠ Some vm ∧ registered th ≠ Some vm).

(** ** Steps *)
Inductive step : registry → registry → Prop :=
| SRootAlloc t g id h : threads g !! t = None → next_vm_id (handler g) < u64_MAX → alloc_vm_id (handler g) = Some (id, h) →
    step g (with_thread t (Some (CreatingRoot id)) (with_handler h g))
| SRootFail t g id : threads g !! t = Some (CreatingRoot id) → step g (with_thread t None g)
| SRootRegister t g id vm grows : threads g !! t = Some (CreatingRoot id) → objects g !! vm = None →
    step g (with_thread t (Some (Registered vm)) (with_handler (add_vm grows id vm (handler g)) (new_object vm id None g)))
| SForkBegin t g id h parent p : threads g !! t = None → next_vm_id (handler g) < u64_MAX → alloc_vm_id (handler g) = Some (id, h) →
    find_vm_by_id parent h = Some p → step g (with_thread t (Some (Forking id p)) (on_object add_child p (with_handler h g)))
| SForkUnknown t g id h parent : threads g !! t = None → next_vm_id (handler g) < u64_MAX → alloc_vm_id (handler g) = Some (id, h) →
    find_vm_by_id parent h = None → step g (with_handler h g)
| SForkFail t g id p : threads g !! t = Some (Forking id p) → step g (with_thread t None (on_object remove_child p g))
| SForkRegister t g id p vm grows : threads g !! t = Some (Forking id p) → objects g !! vm = None →
    step g (with_thread t (Some (Registered vm)) (with_handler (add_vm grows id vm (handler g)) (new_object vm id (Some p) g)))
| SFd t g vm : threads g !! t = Some (Registered vm) → step g (with_thread t None (on_object (set_fd true) vm g))
| SFdFail t g vm : threads g !! t = Some (Registered vm) → step g (with_thread t None (with_handler (remove_vm vm (handler g)) g))
| SRunEnter t g vm ob : threads g !! t = None → objects g !! vm = Some ob → ob_fd ob = true → ob_running ob = false →
    step g (with_thread t (Some (Entering vm)) (on_object (set_running true) vm g))
| SRunRefuse t g vm ob : threads g !! t = Some (Entering vm) → objects g !! vm = Some ob → can_run ob = false →
    step g (with_thread t None (on_object (set_running false) vm g))
| SRunStart t g vm ob : threads g !! t = Some (Entering vm) → objects g !! vm = Some ob → can_run ob = true →
    step g (with_thread t (Some (Running vm)) g)
| SRunEnd t g vm : threads g !! t = Some (Running vm) → step g (with_thread t None (on_object (set_running false) vm g))
(** A descriptor is released when no call on it is in progress. *)
| SRelease g vm ob : objects g !! vm = Some ob → ob_fd ob = true → (∀ t th, threads g !! t = Some th → run_of th ≠ Some vm) →
    step g (on_object (set_fd false) vm (with_handler (remove_vm vm (handler g)) g))
| SDrop g vm : is_Some (objects g !! vm) → unreferenced vm g → step g (drop_object vm g).

Inductive reachable : registry → Prop :=
| reach_init : reachable initial
| reach_step g g' : reachable g → step g g' → reachable g'.

(** ** Invariants *)

(** Identifiers are below the next one, and belong to one VM or one thread. *)
Record ids_ok g : Prop := {
  ik_list i vm : (i, vm) ∈ vm_list (handler g) → ∃ ob, objects g !! vm = Some ob ∧ ob_id ob = i;
  ik_below vm ob : objects g !! vm = Some ob → ob_id ob < next_vm_id (handler g);
  ik_unique vm vm' ob ob' : objects g !! vm = Some ob → objects g !! vm' = Some ob' → ob_id ob = ob_id ob' → vm = vm';
  ik_pending t th i : threads g !! t = Some th → pending_id th = Some i → i < next_vm_id (handler g);
  ik_fresh t th i vm ob : threads g !! t = Some th → pending_id th = Some i → objects g !! vm = Some ob → ob_id ob ≠ i;
  ik_thread t t' th th' i : threads g !! t = Some th → threads g !! t' = Some th' → pending_id th = Some i → pending_id th' = Some i → t = t';
}.
(** A run is in one thread, which set [running] and has the descriptor open. *)
Record runs_ok g : Prop := {
  uk_run t th vm : threads g !! t = Some th → run_of th = Some vm → ∃ ob, objects g !! vm = Some ob ∧ ob_running ob = true ∧ ob_fd ob = true;
  uk_unique t t' th th' vm : threads g !! t = Some th → threads g !! t' = Some th' → run_of th = Some vm → run_of th' = Some vm → t = t';
}.
(** How many values of a map satisfy a predicate. *)
Definition count {V} (P : V → Prop) `{∀ v, Decision (P v)} (m : gmap nat V) : nat := size (filter (λ kv, P kv.2) m).
Definition children g (p : nat) : nat := count (λ ob, ob_parent ob = Some p) (objects g).
Definition forkers g (p : nat) : nat := count (λ th, fork_parent th = Some p) (threads g).
(** What is referred to exists, and children are counted. *)
Record tree_ok g : Prop := {
  tk_fork t th p : threads g !! t = Some th → fork_parent th = Some p → is_Some (objects g !! p);
  tk_registered t th vm : threads g !! t = Some th → registered th = Some vm → is_Some (objects g !! vm);
  tk_parent vm ob p : objects g !! vm = Some ob → ob_parent ob = Some p → is_Some (objects g !! p);
  tk_children p ob : objects g !! p = Some ob → children_count ob = Z.of_nat (children g p) + Z.of_nat (forkers g p);
}.
End Handler.

Ltac lookups := repeat match goal with
  | H : <[_ := _]> _ !! _ = Some _ |- _ => apply lookup_insert_Some in H as [[? ?]|[? H]]; [subst|]
  | H : delete _ _ !! _ = Some _ |- _ => apply lookup_delete_Some in H as [? H]
  | H : alter _ _ _ !! _ = Some _ |- _ => apply lookup_alter_Some in H as [(? & ? & H & ?)|[? H]]; [subst|]
  end.

Lemma find_listed h i vm : find_vm_by_id i h = Some vm → (i, vm) ∈ vm_list h.
Proof.
  unfold find_vm_by_id. destruct (List.find _ _) as [[j o]|] eqn:E; [|done]. intros [= <-]. apply List.find_some in E as [Hin Hj]. cbn in Hj.
  apply Z.eqb_eq in Hj as <-. by apply list_elem_of_In.
Qed.
Lemma alloc_spec MAX h i h' : alloc_vm_id MAX h = Some (i, h') → i = next_vm_id h ∧ vm_list h' = vm_list h ∧ next_vm_id h' = i + 1.
Proof. unfold alloc_vm_id. destruct (can_create_vm MAX h); [|done]. by intros [= <- <-]. Qed.
Lemma remove_listed h vm e : e ∈ vm_list (remove_vm vm h) ↔ e ∈ vm_list h ∧ e.2 ≠ vm.
Proof. cbn. rewrite list_elem_of_filter. tauto. Qed.

(** *** Runs *)
Lemma runs_objects g objs : runs_ok g →
  (∀ vm ob, objects g !! vm = Some ob → ob_running ob = true → ob_fd ob = true → (∃ t th, threads g !! t = Some th ∧ run_of th = Some vm) →
   ∃ ob', objs !! vm = Some ob' ∧ ob_running ob' = true ∧ ob_fd ob' = true) →
  ∀ h, runs_ok (mkRegistry h objs (threads g)).
Proof.
  intros [Hr Hu] Ho h. constructor; [|apply Hu]. intros t th vm Ht Hv. destruct (Hr t th vm Ht Hv) as (ob & H1 & H2 & H3). apply (Ho vm ob H1 H2 H3). eauto.
Qed.
Lemma runs_thread g t th : runs_ok g → match th with Some th => ∀ vm, run_of th = Some vm →
    (∃ ob, objects g !! vm = Some ob ∧ ob_running ob = true ∧ ob_fd ob = true) ∧ (∀ t' th', threads g !! t' = Some th' → run_of th' = Some vm → t' = t) | None => True end →
  runs_ok (with_thread t th g).
Proof.
  intros [Hr Hu] Ht. destruct th as [th|]; constructor; cbn; intros; lookups; simplify_eq; eauto.
  - by apply Ht.
  - eapply (Ht vm); eauto.
  - symmetry. eapply (Ht vm); eauto.
Qed.
Lemma runs_alter f vm g : runs_ok g →
  (∀ ob, ob_running ob = true → ob_fd ob = true → ob_running (f ob) = true ∧ ob_fd (f ob) = true) ∨ (∀ t th, threads g !! t = Some th → run_of th ≠ Some vm) →
  runs_ok (on_object f vm g).
Proof.
  intros Hk Hf. apply runs_objects; [done|]. intros o ob Ho Hr Hfd (t & th & Ht & Hth).
  destruct (decide (vm = o)) as [->|Hne]; [|exists ob; by rewrite lookup_alter_ne].
  exists (f ob). rewrite lookup_alter_eq, Ho. split; [done|]. destruct Hf as [Hf|Hn]; [by apply Hf|]. by destruct (Hn t th Ht).
Qed.
Lemma runs_alone g t th vm : runs_ok g → threads g !! t = Some th → run_of th = Some vm →
  ∀ t' th', threads (with_thread t None g) !! t' = Some th' → run_of th' ≠ Some vm.
Proof. intros Hk Ht Hv t' th' Ht' Hv'. cbn in Ht'. lookups. destruct (uk_unique _ Hk t' t th' th vm); done. Qed.
Lemma runs_new g vm id p h : runs_ok g → objects g !! vm = None → runs_ok (with_handler h (new_object vm id p g)).
Proof. intros Hk Hn. apply (runs_objects g); [done|]. intros o ob Ho Hr Hf _. exists ob. cbn. rewrite lookup_insert_ne by congruence. done. Qed.
Lemma runs_handler g h : runs_ok g → runs_ok (with_handler h g).
Proof. intros []. by constructor. Qed.
Lemma runs_step MAX g g' : runs_ok g → step MAX g g' → runs_ok g'.
Proof.
  intros Hk Hs. destruct Hs as [| | | | | | | | |t g vm ob Ht Hv Hfd Hr|t g vm ob Ht Hv Hc|t g vm ob Ht Hv Hc|t g vm Ht|g vm ob Hv Hfd Hn|g vm [ob Hv] Hn].
  1-9: try (apply runs_thread; [|done]); first [done | by apply runs_handler | by apply runs_new | apply runs_alter; [first [done|by apply runs_handler]|by left]].
  - apply runs_thread; [apply runs_alter; [done|by left]|]. intros o [= <-]. split.
    + exists (set_running true ob). cbn. rewrite lookup_alter_eq, Hv. done.
    + intros t' th' Ht' Hv'. destruct (uk_run _ Hk t' th' vm Ht' Hv') as (ob' & E & Hr' & _). congruence.
  - apply (runs_alter (set_running false) vm (with_thread t None g)); [by apply runs_thread|right; by eapply runs_alone].
  - apply runs_thread; [done|]. intros o [= <-]. split; [by apply (uk_run _ Hk t (Entering vm))|]. intros t' th' Ht' Hv'. by eapply (uk_unique _ Hk).
  - apply (runs_alter (set_running false) vm (with_thread t None g)); [by apply runs_thread|right; by eapply runs_alone].
  - apply runs_alter; [by apply runs_handler|by right].
  - unfold drop_object. rewrite Hv. assert (runs_ok (mkRegistry (handler g) (delete vm (objects g)) (threads g))) as Hd.
    { apply runs_objects; [done|]. intros o ob' Ho Hr Hfd _. exists ob'. rewrite lookup_delete_ne; [done|]. intros <-.
      destruct Hn as [Hn _]. specialize (Hn ob' Ho). congruence. }
    destruct (ob_parent ob); [|done]. apply runs_alter; [done|by left].
Qed.

(** *** Identifiers *)
Lemma ids_alter f vm g : (∀ ob, ob_id (f ob) = ob_id ob) → ids_ok g → ids_ok (on_object f vm g).
Proof.
  intros Hf []. constructor; cbn; intros; lookups; rewrite ?Hf in *; eauto.
  destruct (ik_list0 i vm0 ltac:(done)) as (ob & E & Hi). destruct (decide (vm = vm0)) as [->|Hne].
  - exists (f ob). by rewrite lookup_alter_eq, E, Hf.
  - exists ob. by rewrite lookup_alter_ne.
Qed.
Lemma ids_quiet g t th : ids_ok g → match th with Some th => pending_id th = None | None => True end → ids_ok (with_thread t th g).
Proof. intros [] Hth. destruct th as [th|]; constructor; cbn in *; intros; lookups; simplify_eq; eauto. Qed.
Lemma ids_alloc MAX g i h : ids_ok g → alloc_vm_id MAX (handler g) = Some (i, h) → ids_ok (with_handler h g).
Proof.
  intros [] (-> & Hl & Hn)%alloc_spec. constructor; cbn; rewrite ?Hl, ?Hn; eauto.
  - intros vm ob Ho. specialize (ik_below0 vm ob Ho). lia.
  - intros t th i Ht Hi. specialize (ik_pending0 t th i Ht Hi). lia.
Qed.
Lemma ids_start MAX g t i h th : ids_ok g → threads g !! t = None → alloc_vm_id MAX (handler g) = Some (i, h) → pending_id th = Some i →
  ids_ok (with_thread t (Some th) (with_handler h g)).
Proof.
  intros Hk Ht Ha Hi. pose proof (ids_alloc MAX g i h Hk Ha) as []. apply alloc_spec in Ha as (-> & Hl & Hn). cbn in *.
  constructor; cbn; intros; lookups; simplify_eq; eauto; [lia|..].
  - intros E. match goal with H : objects g !! _ = Some _ |- _ => apply (ik_below _ Hk) in H end. lia.
  - match goal with H : threads g !! _ = Some ?th', H' : pending_id ?th' = Some _ |- _ => pose proof (ik_pending _ Hk _ _ _ H H') end. lia.
  - match goal with H : threads g !! _ = Some ?th', H' : pending_id ?th' = Some _ |- _ => pose proof (ik_pending _ Hk _ _ _ H H') end. lia.
Qed.
Lemma ids_register g t th i vm p grows : ids_ok g → threads g !! t = Some th → pending_id th = Some i → objects g !! vm = None →
  ids_ok (with_thread t (Some (Registered vm)) (with_handler (add_vm grows i vm (handler g)) (new_object vm i p g))).
Proof.
  intros [] Ht Hi Hn. assert (next_vm_id (add_vm grows i vm (handler g)) = next_vm_id (handler g)) as Hnext by (by destruct grows).
  constructor; cbn in *; rewrite ?Hnext; intros; lookups; simplify_eq; cbn in *; eauto.
  - assert ((i0, vm0) = (i, vm) ∨ (i0, vm0) ∈ vm_list (handler g)) as [[= -> ->]|Hin].
    { destruct grows; [|by right]. cbn in H. apply elem_of_app in H as [H|H]; [by right|left]. by apply list_elem_of_singleton in H. }
    + rewrite lookup_insert_eq. by eexists.
    + destruct (ik_list0 i0 vm0 Hin) as (ob & E & Hid). exists ob. rewrite lookup_insert_ne; [done|congruence].
  - exfalso. by eapply ik_fresh0.
  - exfalso. by eapply ik_fresh0.
  - intros ->. match goal with H : threads g !! ?t' = Some ?th', H' : pending_id ?th' = Some _ |- _ => pose proof (ik_thread0 t t' th th' _ Ht H Hi H') end. done.
Qed.
Lemma ids_remove g vm : ids_ok g → ids_ok (with_handler (remove_vm vm (handler g)) g).
Proof. intros []. constructor; try done. intros i o [Hin _]%remove_listed. by apply ik_list0. Qed.
Lemma ids_delete g vm : ids_ok g → vm ∉ (vm_list (handler g)).*2 → ids_ok (mkRegistry (handler g) (delete vm (objects g)) (threads g)).
Proof.
  intros [] Hn. constructor; cbn; intros; lookups; eauto.
  destruct (ik_list0 i vm0 ltac:(done)) as (ob & E & Hi). exists ob. rewrite lookup_delete_ne; [done|]. intros ->. apply Hn, list_elem_of_fmap. by exists (i, vm0).
Qed.
Lemma ids_step MAX g g' : ids_ok g → step MAX g g' → ids_ok g'.
Proof.
  intros Hk Hs. destruct Hs as [t g id h Ht _ Ha|t g id Ht|t g id vm grows Ht Hv|t g id h pid p Ht _ Ha Hp|t g id h pid Ht _ Ha Hp|t g id p Ht|t g id p vm grows Ht Hv
    |t g vm Ht|t g vm Ht|t g vm ob Ht Hv Hfd Hr|t g vm ob Ht Hv Hc|t g vm ob Ht Hv Hc|t g vm Ht|g vm ob Hv Hfd Hn|g vm [ob Hv] Hn].
  - by eapply ids_start.
  - by apply ids_quiet.
  - by eapply ids_register.
  - apply (ids_alter add_child p (with_thread t (Some (Forking id p)) (with_handler h g))); [done|]. by eapply ids_start.
  - by eapply ids_alloc.
  - by apply ids_quiet; [apply ids_alter|].
  - by eapply ids_register.
  - by apply ids_quiet; [apply ids_alter|].
  - by apply ids_quiet; [apply ids_remove|].
  - by apply ids_quiet; [apply ids_alter|].
  - by apply ids_quiet; [apply ids_alter|].
  - by apply ids_quiet.
  - by apply ids_quiet; [apply ids_alter|].
  - by apply ids_alter, ids_remove.
  - unfold drop_object. rewrite Hv. destruct Hn as (_ & Hl & _). destruct (ob_parent ob); [apply ids_alter; [done|]|]; by apply ids_delete.
Qed.

(** *** Children *)
Section Count.
Context {V : Type} (P : V → Prop) `{∀ v, Decision (P v)}.
Implicit Types m : gmap nat V.
Definition one (Q : Prop) `{Decision Q} : nat := if decide Q then 1 else 0.
Lemma count_insert_new m k v : m !! k = None → count P (<[k := v]> m) = (count P m + one (P v))%nat.
Proof.
  intros Hk. unfold count, one. destruct (decide (P v)) as [Hv|Hv].
  - rewrite map_filter_insert_True by done. rewrite map_size_insert_None; [lia|]. apply map_lookup_filter_None. by left.
  - rewrite map_filter_insert_False by done. rewrite delete_id by done. lia.
Qed.
Lemma count_delete m k v : m !! k = Some v → count P m = (count P (delete k m) + one (P v))%nat.
Proof.
  intros Hk. rewrite <-(count_insert_new (delete k m) k v) by apply lookup_delete_eq. by rewrite insert_delete_id.
Qed.
Lemma count_delete_none m k : m !! k = None → count P (delete k m) = count P m.
Proof. intros Hk. by rewrite delete_id. Qed.
Lemma count_insert m k v0 v : m !! k = Some v0 → (count P (<[k := v]> m) + one (P v0) = count P m + one (P v))%nat.
Proof.
  intros Hk. rewrite <-(insert_delete_eq m k v). rewrite count_insert_new by apply lookup_delete_eq. rewrite (count_delete m k v0 Hk). lia.
Qed.
Lemma count_alter f k m : (∀ v, P (f v) ↔ P v) → count P (alter f k m) = count P m.
Proof.
  intros Hf. destruct (m !! k) as [v|] eqn:E.
  - assert (alter f k m = <[k := f v]> m) as -> by (rewrite <-(insert_id m k v E) at 1; by rewrite alter_insert_eq). pose proof (count_insert m k v (f v) E) as Hc. unfold one in Hc.
    pose proof (Hf v). destruct (decide (P (f v))), (decide (P v)); tauto || lia.
  - by rewrite alter_id' by done.
Qed.
Lemma count_pos m k v : m !! k = Some v → P v → (0 < count P m)%nat.
Proof. intros Hk Hv. rewrite (count_delete m k v Hk). unfold one. rewrite decide_True by done. lia. Qed.
Lemma count_zero m : (∀ k v, m !! k = Some v → ¬ P v) → count P m = 0%nat.
Proof.
  intros Hm. unfold count. apply map_size_empty_iff, map_empty. intros k. apply map_lookup_filter_None. right. intros v Hv. by apply (Hm k v).
Qed.
End Count.

Lemma live_alter f vm o (m : gmap nat vm_object) : is_Some (m !! o) → is_Some (alter f vm m !! o).
Proof. intros [ob Ho]. destruct (decide (vm = o)) as [->|Hne]; [rewrite lookup_alter_eq, Ho|rewrite lookup_alter_ne by done]; eauto. Qed.
Lemma children_alter f vm g q : (∀ ob, ob_parent (f ob) = ob_parent ob) → children (on_object f vm g) q = children g q.
Proof. intros Hf. apply count_alter. intros ob. by rewrite Hf. Qed.
(** A thread that changes without beginning or ending a fork. *)
Lemma forkers_thread g t th q :
  (forkers (with_thread t th g) q + one (threads g !! t ≫= fork_parent = Some q) = forkers g q + one (th ≫= fork_parent = Some q))%nat.
Proof.
  unfold forkers. cbn. destruct (threads g !! t) as [th0|] eqn:E, th as [th|]; cbn [mbind option_bind].
  - exact (count_insert (λ th, fork_parent th = Some q) _ _ _ _ E).
  - rewrite (count_delete (λ th, fork_parent th = Some q) _ _ _ E). unfold one. rewrite (decide_False (P := None = Some q)) by done. lia.
  - rewrite count_insert_new by done. unfold one. rewrite (decide_False (P := None = Some q)) by done. lia.
  - rewrite count_delete_none by done. lia.
Qed.
Lemma tree_thread g t th : tree_ok g → threads g !! t ≫= fork_parent = (th ≫= fork_parent) →
  (∀ vm, th ≫= registered = Some vm → is_Some (objects g !! vm)) → tree_ok (with_thread t th g).
Proof.
  intros [] Hf Hr. constructor; cbn.
  - intros t' th' p Ht Hp. destruct (decide (t = t')) as [<-|Hne].
    + assert (th ≫= fork_parent = Some p) as E by (destruct th; [rewrite lookup_insert_eq in Ht; by simplify_eq|by rewrite lookup_delete_eq in Ht]).
      rewrite <-Hf in E. destruct (threads g !! t) as [th0|] eqn:E0; [|done]. by eapply tk_fork0.
    + destruct th; [rewrite lookup_insert_ne in Ht by done|rewrite lookup_delete_ne in Ht by done]; by eapply tk_fork0.
  - intros t' th' vm Ht Hv. destruct (decide (t = t')) as [<-|Hne].
    + apply Hr. destruct th; [rewrite lookup_insert_eq in Ht; by simplify_eq|by rewrite lookup_delete_eq in Ht].
    + destruct th; [rewrite lookup_insert_ne in Ht by done|rewrite lookup_delete_ne in Ht by done]; by eapply tk_registered0.
  - done.
  - intros p ob Hp. rewrite (tk_children0 p ob Hp). pose proof (forkers_thread g t th p) as H. rewrite Hf in H.
    assert (children (with_thread t th g) p = children g p) as -> by done. lia.
Qed.
Lemma tree_alter f vm g : (∀ ob, ob_parent (f ob) = ob_parent ob ∧ children_count (f ob) = children_count ob) → tree_ok g → tree_ok (on_object f vm g).
Proof.
  intros Hf []. constructor; cbn.
  - intros t th p Ht Hp. apply live_alter. by eapply tk_fork0.
  - intros t th o Ht Hp. apply live_alter. by eapply tk_registered0.
  - intros o ob p Ho Hp. apply live_alter. lookups; [rewrite (proj1 (Hf _)) in Hp|]; by eapply tk_parent0.
  - intros p ob Hp. rewrite children_alter by (intros; apply Hf). assert (forkers (on_object f vm g) p = forkers g p) as -> by done.
    lookups; [rewrite (proj2 (Hf _))|]; by apply tk_children0.
Qed.
Lemma tree_handler g h : tree_ok g → tree_ok (with_handler h g).
Proof. intros []. by constructor. Qed.
(** A fork begins or fails. *)
Lemma tree_fork f t th p g d :
  (∀ ob, ob_parent (f ob) = ob_parent ob ∧ children_count (f ob) = children_count ob + d) → is_Some (objects g !! p) → tree_ok g →
  th ≫= registered = None → (∀ q, th ≫= fork_parent = Some q → q = p) →
  (∀ q, Z.of_nat (one (th ≫= fork_parent = Some q)) - Z.of_nat (one (threads g !! t ≫= fork_parent = Some q)) = if decide (q = p) then d else 0) →
  tree_ok (with_thread t th (on_object f p g)).
Proof.
  intros Hf Hp [] Hr Hq Hd. constructor; cbn.
  - intros t' th' q Ht Hpar. apply live_alter. destruct (decide (t = t')) as [<-|Hne].
    + assert (q = p) as -> by (apply Hq; destruct th; [rewrite lookup_insert_eq in Ht; by simplify_eq|by rewrite lookup_delete_eq in Ht]). done.
    + destruct th; [rewrite lookup_insert_ne in Ht by done|rewrite lookup_delete_ne in Ht by done]; by eapply tk_fork0.
  - intros t' th' o Ht Ho. apply live_alter. destruct (decide (t = t')) as [<-|Hne].
    + destruct th as [th|]; [rewrite lookup_insert_eq in Ht; simplify_eq; cbn in Hr; congruence|by rewrite lookup_delete_eq in Ht].
    + destruct th; [rewrite lookup_insert_ne in Ht by done|rewrite lookup_delete_ne in Ht by done]; by eapply tk_registered0.
  - intros o ob q Ho Hpar. apply live_alter. lookups; [rewrite (proj1 (Hf _)) in Hpar|]; by eapply tk_parent0.
  - intros q ob Ho. assert (children (with_thread t th (on_object f p g)) q = children g q) as -> by (apply (children_alter f p g q); intros; apply Hf).
    pose proof (forkers_thread (on_object f p g) t th q) as H. cbn in H. assert (forkers (on_object f p g) q = forkers g q) as E by done. rewrite E in H.
    specialize (Hd q). lookups.
    + rewrite (proj2 (Hf _)), (tk_children0 q x) by done. rewrite decide_True in Hd by done. lia.
    + rewrite (tk_children0 q ob) by done. rewrite decide_False in Hd by done. lia.
Qed.
(** A VM that does not exist has no children. *)
Lemma no_children g vm : tree_ok g → objects g !! vm = None → children g vm = 0%nat ∧ forkers g vm = 0%nat.
Proof.
  intros [] Hn. split; apply count_zero.
  - intros o ob Ho Hp. destruct (tk_parent0 o ob vm Ho Hp). congruence.
  - intros t th Ht Hp. destruct (tk_fork0 t th vm Ht Hp). congruence.
Qed.
Lemma children_new g vm id p q : objects g !! vm = None → children (new_object vm id p g) q = (children g q + one (p = Some q))%nat.
Proof. intros Hn. exact (count_insert_new (λ ob, ob_parent ob = Some q) _ _ _ Hn). Qed.
(** A VM is registered, by the thread that created it. *)
Lemma tree_register g t th id vm h : tree_ok g → threads g !! t = Some th → objects g !! vm = None → registered th = None →
  tree_ok (with_thread t (Some (Registered vm)) (with_handler h (new_object vm id (fork_parent th) g))).
Proof.
  intros Hk Ht Hn Hr. destruct (no_children g vm Hk Hn) as [Hc0 Hf0]. pose proof Hk as [].
  assert (∀ o, is_Some (objects g !! o) → is_Some (<[vm := mkObject id (fork_parent th) 0 false false]> (objects g) !! o)) as Hlive.
  { intros o [ob Ho]. rewrite lookup_insert_ne; [by exists ob|congruence]. }
  constructor; cbn.
  - intros t' th' p Ht' Hp. apply Hlive. lookups; [done|]. by eapply tk_fork0.
  - intros t' th' o Ht' Ho. lookups; [|apply Hlive; by eapply tk_registered0]. cbn in Ho. simplify_eq. rewrite lookup_insert_eq. by eexists.
  - intros o ob p Ho Hp. apply Hlive. lookups; [by eapply tk_fork0|by eapply tk_parent0].
  - intros p ob Ho. pose proof (forkers_thread g t (Some (Registered vm)) p) as H. rewrite Ht in H. cbn [mbind option_bind fork_parent] in H.
    unfold one at 2 in H. rewrite decide_False in H by done.
    assert (forkers (with_thread t (Some (Registered vm)) (with_handler h (new_object vm id (fork_parent th) g))) p = forkers (with_thread t (Some (Registered vm)) g) p) as -> by done.
    assert (children (with_thread t (Some (Registered vm)) (with_handler h (new_object vm id (fork_parent th) g))) p = children (new_object vm id (fork_parent th) g) p) as -> by done.
    rewrite children_new by done. lookups; [rewrite Hc0; cbn; lia|]. rewrite (tk_children0 p ob) by done. lia.
Qed.
Lemma tree_drop g vm ob : tree_ok g → objects g !! vm = Some ob → unreferenced vm g → tree_ok (drop_object vm g).
Proof.
  intros [] Hv (_ & _ & Hch & Hth). unfold drop_object. rewrite Hv. set (g' := mkRegistry (handler g) (delete vm (objects g)) (threads g)).
  assert (∀ o, o ≠ vm → is_Some (objects g !! o) → is_Some (objects g' !! o)) as Hlive by (intros o Hne; cbn; by rewrite lookup_delete_ne by done).
  assert (∀ q, children g q = (children g' q + one (ob_parent ob = Some q))%nat) as Hc by (intros q; exact (count_delete (λ ob, ob_parent ob = Some q) _ _ _ Hv)).
  assert (∀ g'', threads g'' = threads g → (∀ o, o ≠ vm → is_Some (objects g !! o) → is_Some (objects g'' !! o)) →
    (∀ o ob', objects g'' !! o = Some ob' → ∃ ob0, objects g !! o = Some ob0 ∧ ob_parent ob0 = ob_parent ob' ∧
       children_count ob' = children_count ob0 - Z.of_nat (one (ob_parent ob = Some o))) →
    (∀ q, children g'' q = children g' q) → tree_ok g'') as Hdone.
  { intros g'' Et Hl Ho Hq. constructor; rewrite ?Et.
    - intros t th p Ht Hp. apply Hl; [intros ->; by destruct (Hth t th Ht)|by eapply tk_fork0].
    - intros t th o Ht Hp. apply Hl; [intros ->; by destruct (Hth t th Ht)|by eapply tk_registered0].
    - intros o ob' p Ho' Hp. destruct (Ho o ob' Ho') as (ob0 & E & Ep & _). rewrite <-Ep in Hp. apply Hl; [intros ->; by apply (Hch o ob0 E)|by eapply tk_parent0].
    - intros o ob' Ho'. destruct (Ho o ob' Ho') as (ob0 & E & _ & ->). rewrite (tk_children0 o ob0 E), Hc, Hq. assert (forkers g'' o = forkers g o) as -> by (unfold forkers; by rewrite Et). lia. }
  destruct (ob_parent ob) as [p|] eqn:Ep.
  - apply Hdone; [done|intros o Hne Ho; by apply live_alter, Hlive| |intros q; by apply children_alter].
    intros o ob' Ho. cbn in Ho. lookups; eexists; (split; [eassumption|]); cbn; unfold one; (split; [done|]).
    + by rewrite decide_True.
    + rewrite decide_False by congruence. lia.
  - apply Hdone; [done|done| |done]. intros o ob' Ho. cbn in Ho. lookups. eexists. split; [eassumption|]. unfold one. rewrite decide_False by done. split; [done|lia].
Qed.
Lemma tree_step MAX g g' : ids_ok g → tree_ok g → step MAX g g' → tree_ok g'.
Proof.
  intros Hi Hk Hs. destruct Hs as [t g id h Ht _ Ha|t g id Ht|t g id vm grows Ht Hv|t g id h pid p Ht _ Ha Hp|t g id h pid Ht _ Ha Hp|t g id p Ht|t g id p vm grows Ht Hv
    |t g vm Ht|t g vm Ht|t g vm ob Ht Hv Hfd Hr|t g vm ob Ht Hv Hc|t g vm ob Ht Hv Hc|t g vm Ht|g vm ob Hv Hfd Hn|g vm [ob Hv] Hn].
  - apply tree_thread; [by apply tree_handler|cbn; by rewrite Ht|done].
  - apply tree_thread; [done|by rewrite Ht|done].
  - by apply (tree_register g t (CreatingRoot id)).
  - assert (is_Some (objects g !! p)) as Hpl.
    { apply find_listed in Hp. apply alloc_spec in Ha as (_ & Hl & _). rewrite Hl in Hp. destruct (ik_list _ Hi _ _ Hp) as (ob & E & _). by exists ob. }
    apply (tree_fork add_child t (Some (Forking id p)) p (with_handler h g) 1); [done|done|by apply tree_handler|done|by intros q [= <-]|].
    intros q. cbn. rewrite Ht. cbn. unfold one. by repeat case_decide; simplify_eq.
  - by apply tree_handler.
  - apply (tree_fork remove_child t None p g (-1)); [done|by eapply (tk_fork _ Hk)|done|done|done|].
    intros q. rewrite Ht. cbn. unfold one. by repeat case_decide; simplify_eq.
  - by apply (tree_register g t (Forking id p)).
  - apply tree_thread; [by apply tree_alter|cbn; by rewrite Ht|done].
  - apply tree_thread; [by apply tree_handler|cbn; by rewrite Ht|done].
  - apply tree_thread; [by apply tree_alter|cbn; by rewrite Ht|done].
  - apply tree_thread; [by apply tree_alter|cbn; by rewrite Ht|done].
  - apply tree_thread; [done|cbn; by rewrite Ht|done].
  - apply tree_thread; [by apply tree_alter|cbn; by rewrite Ht|done].
  - by apply tree_alter, tree_handler.
  - by apply (tree_drop g vm ob).
Qed.

(** ** What every reachable state satisfies *)
Lemma reachable_ok MAX g : reachable MAX g → ids_ok g ∧ tree_ok g ∧ runs_ok g.
Proof.
  induction 1 as [|g g' _ (Hi & Ht & Hr) Hs].
  - split_and!; constructor; cbn; intros; repeat match goal with H : ∅ !! _ = Some _ |- _ => by rewrite lookup_empty in H end.
    by apply not_elem_of_nil in H.
  - split_and!; [by eapply ids_step|by eapply tree_step|by eapply runs_step].
Qed.

(** C8: However threads interleave the creation, forking, running and closing of VMs: a VM is found by its identifier only if it exists and has that
    identifier, no two VMs have the same, a VM's count of children is exactly the number of VMs forked from it that exist plus the forks in progress,
    and the parent of a VM that exists, or of a fork in progress, exists. *)
Theorem registry_consistent MAX g : reachable MAX g →
  (∀ i vm, find_vm_by_id i (handler g) = Some vm → ∃ ob, objects g !! vm = Some ob ∧ ob_id ob = i) ∧
  (∀ vm vm' ob ob', objects g !! vm = Some ob → objects g !! vm' = Some ob' → ob_id ob = ob_id ob' → vm = vm') ∧
  (∀ vm ob, objects g !! vm = Some ob → children_count ob = Z.of_nat (children g vm) + Z.of_nat (forkers g vm)) ∧
  (∀ vm ob p, objects g !! vm = Some ob → ob_parent ob = Some p → ∃ ob', objects g !! p = Some ob' ∧ 0 < children_count ob') ∧
  (∀ t id p, threads g !! t = Some (Forking id p) → ∃ ob', objects g !! p = Some ob' ∧ 0 < children_count ob').
Proof.
  intros (Hi & Ht & _)%reachable_ok. split_and!.
  - intros i vm Hf%find_listed. by apply (ik_list _ Hi).
  - apply (ik_unique _ Hi).
  - apply (tk_children _ Ht).
  - intros vm ob p Ho Hp. destruct (tk_parent _ Ht vm ob p Ho Hp) as [ob' Hp']. exists ob'. split; [done|]. rewrite (tk_children _ Ht p ob' Hp').
    assert (0 < children g p)%nat by exact (count_pos (λ ob, ob_parent ob = Some p) _ vm ob Ho Hp). lia.
  - intros t id p Hth. destruct (tk_fork _ Ht t _ p Hth eq_refl) as [ob' Hp']. exists ob'. split; [done|]. rewrite (tk_children _ Ht p ob' Hp').
    assert (0 < forkers g p)%nat by exact (count_pos (λ th, fork_parent th = Some p) _ t _ Hth eq_refl). lia.
Qed.

(** A VM is run by at most one thread at a time, with its descriptor open, and a run that passes the check starts when no VM forked from it
    exists and no fork of it is in progress. *)
Theorem runs_exclusive MAX g t t' vm : reachable MAX g → threads g !! t = Some (Running vm) ∨ threads g !! t = Some (Entering vm) →
  (threads g !! t' = Some (Running vm) ∨ threads g !! t' = Some (Entering vm) → t = t') ∧ (∃ ob, objects g !! vm = Some ob ∧ ob_fd ob = true) ∧
  (threads g !! t = Some (Entering vm) → ∀ ob, objects g !! vm = Some ob → can_run ob = true → children g vm = 0%nat ∧ forkers g vm = 0%nat).
Proof.
  intros (_ & Ht & Hr)%reachable_ok Hth. split_and!.
  - intros Ht'. destruct Hth, Ht'; by eapply (uk_unique _ Hr).
  - destruct Hth as [H|H]; destruct (uk_run _ Hr t _ vm H eq_refl) as (ob & E & _ & Hf); by exists ob.
  - intros _ ob Ho Hc. apply Z.eqb_eq in Hc. rewrite (tk_children _ Ht vm ob Ho) in Hc. lia.
Qed.

(** ** What is not excluded *)

(** A root VM, created and registered by thread 0, with its descriptor. *)
Definition one_vm : registry :=
  mkRegistry (mkHandler [(1, 7%nat)] 2) {[7%nat := mkObject 1 None 0 false true]} ∅.
Lemma one_vm_reachable : reachable 2 one_vm.
Proof.
  eapply reach_step; [eapply reach_step; [eapply reach_step; [apply reach_init|]|]|].
  - by apply (SRootAlloc 2 0%nat initial 1 (mkHandler [] 2)).
  - by apply (SRootRegister 2 0%nat _ 1 7%nat true).
  - assert (one_vm = with_thread 0 None (on_object (set_fd true) 7
      (with_thread 0 (Some (Registered 7)) (with_handler (add_vm true 1 7 (mkHandler [] 2))
        (new_object 7 1 None (with_thread 0 (Some (CreatingRoot 1)) (with_handler (mkHandler [] 2) initial))))))) as -> by (vm_compute; reflexivity).
    by apply SFd.
Qed.
(** A fork begins while its parent runs: the count of children stops only the
    next run. *)
Theorem fork_of_running_vm : ∃ g id, reachable 2 g ∧ threads g !! 0%nat = Some (Running 7) ∧ threads g !! 1%nat = Some (Forking id 7).
Proof.
  set (g1 := with_thread 0 (Some (Entering 7)) (on_object (set_running true) 7 one_vm)).
  set (g2 := with_thread 0 (Some (Running 7)) g1).
  set (g3 := with_thread 1 (Some (Forking 2 7)) (on_object add_child 7 (with_handler (mkHandler [(1, 7%nat)] 3) g2))).
  exists g3, 2. split; [|by vm_compute].
  eapply reach_step; [eapply reach_step; [eapply reach_step; [apply one_vm_reachable|]|]|].
  - by apply (SRunEnter 2 0%nat one_vm 7%nat (mkObject 1 None 0 false true)).
  - by apply (SRunStart 2 0%nat g1 7%nat (mkObject 1 None 0 true true)).
  - by apply (SForkBegin 2 1%nat g2 2 (mkHandler [(1, 7%nat)] 3) 1 7%nat).
Qed.
(** Two threads that create a VM can exceed the limit: it is checked when the
    identifier is allocated, not when the VM is registered. *)
Theorem limit_exceeded : ∃ g, reachable 1 g ∧ length (vm_list (handler g)) = 2%nat.
Proof.
  set (g1 := with_thread 0 (Some (CreatingRoot 1)) (with_handler (mkHandler [] 2) initial)).
  set (g2 := with_thread 1 (Some (CreatingRoot 2)) (with_handler (mkHandler [] 3) g1)).
  set (g3 := with_thread 0 (Some (Registered 7)) (with_handler (add_vm true 1 7 (handler g2)) (new_object 7 1 None g2))).
  set (g4 := with_thread 1 (Some (Registered 8)) (with_handler (add_vm true 2 8 (handler g3)) (new_object 8 2 None g3))).
  exists g4. split; [|done].
  eapply reach_step; [eapply reach_step; [eapply reach_step; [eapply reach_step; [apply reach_init|]|]|]|].
  - by apply (SRootAlloc 1 0%nat initial 1 (mkHandler [] 2)).
  - by apply (SRootAlloc 1 1%nat g1 2 (mkHandler [] 3)).
  - by apply (SRootRegister 1 0%nat g2 1 7%nat true).
  - by apply (SRootRegister 1 1%nat g3 2 8%nat true).
Qed.

Lemma registry_consistent_witness : ∃ ob, objects one_vm !! 7%nat = Some ob ∧ ob_id ob = 1.
Proof. destruct (registry_consistent 2 one_vm one_vm_reachable) as [H _]. apply (H 1 7%nat). reflexivity. Defined.
Lemma runs_exclusive_witness : ∃ g t', reachable 2 g ∧ (threads g !! t' = Some (Running 7) ∨ threads g !! t' = Some (Entering 7) → 0%nat = t').
Proof.
  set (g1 := with_thread 0 (Some (Entering 7)) (on_object (set_running true) 7 one_vm)).
  assert (reachable 2 g1) as Hr by (eapply reach_step; [apply one_vm_reachable|by apply (SRunEnter 2 0%nat one_vm 7%nat (mkObject 1 None 0 false true))]).
  exists g1, 1%nat. split; [exact Hr|]. exact (proj1 (runs_exclusive 2 g1 0%nat 1%nat 7%nat Hr (or_intror eq_refl))).
Defined.
