(* ===== verification/VmFile.v ===== *)
(** * The calls on a VM's descriptor (crates [bedrock]: [vm_file/structs.rs],
    [vm_file/root.rs], [vm_file/forked.rs], [vm_file/handlers.rs]; [bedrock-vm]:
    [vm/ioctl.rs])

    Userspace sends a number; the kernel module matches it and calls a handler of
    [Ioctl], [Registers] or, for RUN, the run loop.  The theorems: the numbers the
    two sides compute from their structs agree, so each request reaches its
    handler; a call that fails leaves the VM as it was, with two exceptions; RUN
    gives the VM up on every path that returns.  The copies between kernel and caller are
    parameters, as in [Ioctl]. *)
From stdpp Require Import strings.
From S2P Require Import Prelude VmMemory Wire EventLog Random Rtc Apic Vcpu GuestMem Relational Precise Handlers Safety Emulation Mmio ExitLog IoChannel Vmcall Ioctl Dispatch Footprint Run HostState Setup Registers.

(** ** Requests and their numbers *)
Inductive request :=
| GET_REGS | SET_REGS | RUN | SET_RDRAND_CONFIG | SET_RDRAND_VALUE | SET_SINGLE_STEP | GET_EXIT_STATS | SET_STOP_TSC | GET_VM_ID
| GET_FEEDBACK_BUFFER_INFO | QUEUE_IO_ACTION | DRAIN_IO_RESPONSE | SET_EVENT_CONFIG | GET_RANDOM_REQUEST | SET_RANDOM_BYTES.
#[export] Instance request_eq_dec : EqDecision request.
Proof. solve_decision. Defined.

Definition IOC_WRITE : Z := 1.
Definition IOC_READ : Z := 2.
(** Direction, size, type and number, as the kernel's macros and the library's
    functions place them. *)
Definition ioctl_number (dir ty nr size : Z) : Z :=
  Z.lor (Z.lor (Z.lor (Z.shiftl dir 30) (Z.shiftl ty 8)) nr) (Z.shiftl size 16).
Definition BEDROCK_IOC_MAGIC : Z := 66.
Definition size_of (layout : list nat) : Z := Z.of_nat (sum_list layout).

(** *** The kernel's structs *)
Definition vm_exit_layout : list nat := [4; 4; 8; 8; 4; 4; 8; 8]%nat.
Definition exit_stats_layout : list nat := replicate (19 * 2 + 10) 8%nat.
Definition random_bytes_layout : list nat := [4; 4]%nat ++ replicate 256 1%nat.
Definition io_action_payload_layout : list nat := io_action_header_layout ++ replicate 4096 1%nat.
Definition BEDROCK_VM (r : request) : Z :=
  match r with
  | GET_REGS => ioctl_number IOC_READ BEDROCK_IOC_MAGIC 1 (size_of BedrockRegs_layout)
  | SET_REGS => ioctl_number IOC_WRITE BEDROCK_IOC_MAGIC 2 (size_of BedrockRegs_layout)
  | RUN => ioctl_number IOC_READ BEDROCK_IOC_MAGIC 3 (size_of vm_exit_layout)
  | SET_RDRAND_CONFIG => ioctl_number IOC_WRITE BEDROCK_IOC_MAGIC 4 (size_of rdrand_config_layout)
  | SET_RDRAND_VALUE => ioctl_number IOC_WRITE BEDROCK_IOC_MAGIC 5 8
  | SET_SINGLE_STEP => ioctl_number IOC_WRITE BEDROCK_IOC_MAGIC 6 (size_of single_step_layout)
  | GET_EXIT_STATS => ioctl_number IOC_READ BEDROCK_IOC_MAGIC 7 (size_of exit_stats_layout)
  | SET_STOP_TSC => ioctl_number IOC_WRITE BEDROCK_IOC_MAGIC 8 8
  | GET_VM_ID => ioctl_number IOC_READ BEDROCK_IOC_MAGIC 9 8
  | GET_FEEDBACK_BUFFER_INFO => ioctl_number IOC_READ BEDROCK_IOC_MAGIC 10 (size_of feedback_request_layout)
  | QUEUE_IO_ACTION => ioctl_number IOC_WRITE BEDROCK_IOC_MAGIC 11 (size_of io_action_payload_layout)
  | DRAIN_IO_RESPONSE => ioctl_number IOC_READ BEDROCK_IOC_MAGIC 12 (size_of io_action_payload_layout)
  | SET_EVENT_CONFIG => ioctl_number IOC_WRITE BEDROCK_IOC_MAGIC 13 (size_of event_config_layout)
  | GET_RANDOM_REQUEST => ioctl_number IOC_READ BEDROCK_IOC_MAGIC 14 (size_of random_bytes_head_layout)
  | SET_RANDOM_BYTES => ioctl_number IOC_WRITE BEDROCK_IOC_MAGIC 15 (size_of random_bytes_layout)
  end.

(** *** The library's structs, field by field *)
Definition lib_Regs : list nat :=
  replicate 16 8%nat ++ replicate 5 8%nat ++ replicate 6 8%nat ++ concat (replicate 8 [2; 2; 4; 4; 4; 8]%nat) ++ [2; 8; 2; 8; 4]%nat ++ [8; 8; 8]%nat.
Definition lib_VmExit : list nat := [4; 4; 8; 8; 4; 4; 8; 8]%nat.
Definition lib_RdrandConfig : list nat := [4; 4; 8]%nat.
Definition lib_SingleStepConfig : list nat := [8; 8; 8]%nat.
Definition lib_ExitStats : list nat := concat (replicate 19 [8; 8]%nat) ++ replicate 10 8%nat.
Definition lib_EventConfig : list nat := [4; 4; 4; 4; 8; 8]%nat.
Definition lib_RandomRequest : list nat := [4; 4]%nat.
Definition lib_RandomBytes : list nat := [4; 4]%nat ++ replicate 256 1%nat.
Definition lib_FeedbackBufferInfoRequest : list nat := [4; 4]%nat.
Definition lib_IoActionPayload : list nat := [4; 4; 8]%nat ++ replicate 4096 1%nat.
Definition ioctl_ior (ty nr size : Z) : Z := ioctl_number IOC_READ ty nr size.
Definition ioctl_iow (ty nr size : Z) : Z := ioctl_number IOC_WRITE ty nr size.
Definition lib_number (r : request) : Z :=
  let B := BEDROCK_IOC_MAGIC in
  match r with
  | GET_REGS => ioctl_ior B 1 (size_of lib_Regs)
  | SET_REGS => ioctl_iow B 2 (size_of lib_Regs)
  | RUN => ioctl_ior B 3 (size_of lib_VmExit)
  | SET_RDRAND_CONFIG => ioctl_iow B 4 (size_of lib_RdrandConfig)
  | SET_RDRAND_VALUE => ioctl_iow B 5 8
  | SET_SINGLE_STEP => ioctl_iow B 6 (size_of lib_SingleStepConfig)
  | GET_EXIT_STATS => ioctl_ior B 7 (size_of lib_ExitStats)
  | SET_STOP_TSC => ioctl_iow B 8 8
  | GET_VM_ID => ioctl_ior B 9 8
  | GET_FEEDBACK_BUFFER_INFO => ioctl_ior B 10 (size_of lib_FeedbackBufferInfoRequest)
  | QUEUE_IO_ACTION => ioctl_iow B 11 (size_of lib_IoActionPayload)
  | DRAIN_IO_RESPONSE => ioctl_ior B 12 (size_of lib_IoActionPayload)
  | SET_EVENT_CONFIG => ioctl_iow B 13 (size_of lib_EventConfig)
  | GET_RANDOM_REQUEST => ioctl_ior B 14 (size_of lib_RandomRequest)
  | SET_RANDOM_BYTES => ioctl_iow B 15 (size_of lib_RandomBytes)
  end.

(** The match of the ioctl callbacks, in its order. *)
Definition match_order : list request :=
  [GET_REGS; SET_REGS; RUN; SET_RDRAND_CONFIG; SET_RDRAND_VALUE; GET_RANDOM_REQUEST; SET_RANDOM_BYTES; SET_EVENT_CONFIG; SET_SINGLE_STEP; GET_EXIT_STATS;
   SET_STOP_TSC; GET_VM_ID; GET_FEEDBACK_BUFFER_INFO; QUEUE_IO_ACTION; DRAIN_IO_RESPONSE].
Definition matched (cmd : Z) : option request := List.find (λ r, BEDROCK_VM r =? cmd) match_order.

(** ** The calls that do not run the guest *)
Definition ENOTTY : Z := 25.
Section Calls.
Context (from_user : Z → nat → option (list Z)) (to_user : Z → list Z → bool).
(** Whether VMPTRLD and VMCLEAR succeed, whether allocations do, what the event
    buffer and the kernel's stack hold. *)
Context (loads clears heap slot : bool) (cap : cr_caps) (buffer : option (Z → Z)) (stack : nat → Z).
(** RUN works on more than the file; it is modelled below. *)
Context (run_call : Z → IO ()).
Definition serve (r : request) (arg : Z) : IO () :=
  match r with
  | GET_REGS => handle_get_regs to_user loads clears stack arg
  | SET_REGS => handle_set_regs from_user loads clears cap arg
  | RUN => run_call arg
  | SET_RDRAND_CONFIG => handle_set_rdrand_config from_user arg
  | SET_RDRAND_VALUE => handle_set_rdrand_value from_user arg
  | GET_RANDOM_REQUEST => handle_get_random_request to_user arg
  | SET_RANDOM_BYTES => handle_set_random_bytes from_user arg
  | SET_EVENT_CONFIG => set_event_config from_user buffer arg
  | SET_SINGLE_STEP => handle_set_single_step from_user arg
  | GET_EXIT_STATS => handle_get_exit_stats to_user arg
  | SET_STOP_TSC => handle_set_stop_tsc from_user arg
  | GET_VM_ID => handle_get_vm_id to_user arg
  | GET_FEEDBACK_BUFFER_INFO => handle_get_feedback_buffer_info from_user to_user arg
  | QUEUE_IO_ACTION => handle_queue_io_action from_user heap slot arg
  | DRAIN_IO_RESPONSE => handle_drain_io_response from_user to_user arg
  end.
Definition vm_ioctl (cmd arg : Z) : IO () := match matched cmd with Some r => serve r arg | None => throw ENOTTY end.
End Calls.

(** The numbers that the userspace library computes from its structs are those the kernel module computes from its own, and distinct, so that the
    module serves each request with the handler of that request; any other number is refused. *)
Theorem requests_reach_their_handlers r cmd :
  lib_number r = BEDROCK_VM r ∧ matched (lib_number r) = Some r ∧ (matched cmd = Some r → cmd = lib_number r).
Proof.
  assert (lib_number r = BEDROCK_VM r) as E by (destruct r; vm_compute; reflexivity).
  split; [done|]. split; [destruct r; vm_compute; reflexivity|]. rewrite E. intros [_ H]%List.find_some. by apply Z.eqb_eq in H.
Qed.

(** ** Failures *)

(** Never stuck, and with the file unchanged: always; when it fails, but for the
    errors of [X].  Failing only with an error of [X]. *)
Definition inert_call {A} (m : IO A) : Prop := ∀ st, (m st).1 ≠ Stuck ∧ (m st).2.1 = st.1.
Definition atomic_call (X : Z → Prop) {A} (m : IO A) : Prop := ∀ st,
  match m st with (Done _, _) => True | (Fail e, st') => X e ∨ st'.1 = st.1 | (Stuck, _) => False end.
Definition fails_only (X : Z → Prop) {A} (m : IO A) : Prop := ∀ st, match m st with (Done _, _) => True | (Fail e, _) => X e | (Stuck, _) => False end.
Create HintDb calls.

Section Composition.
Context (X : Z → Prop).
Lemma inert_atomic {A} (m : IO A) : inert_call m → atomic_call X m.
Proof. intros H st. destruct (H st) as [H1 H2]. destruct (m st) as [[]]; [done|by right|done]. Qed.
Lemma only_atomic {A} (m : IO A) : fails_only X m → atomic_call X m.
Proof. intros H st. specialize (H st). destruct (m st) as [[]]; [done|by left|done]. Qed.
Lemma inert_bind {A B} (m : IO A) (k : A → IO B) : inert_call m → (∀ a, inert_call (k a)) → inert_call (m ≫= k).
Proof.
  intros Hm Hk st. destruct (Hm st) as [H1 H2]. unfold mbind, M_bind. destruct (m st) as [[a|e|] st']; cbn in *; [|done|done].
  destruct (Hk a st') as [H3 H4]. split; [done|]. by rewrite H4.
Qed.
Lemma atomic_bind {A B} (m : IO A) (k : A → IO B) : inert_call m → (∀ a, atomic_call X (k a)) → atomic_call X (m ≫= k).
Proof.
  intros Hm Hk st. destruct (Hm st) as [H1 H2]. unfold mbind, M_bind. destruct (m st) as [[a|e|] st']; cbn in *; [|by right|done].
  specialize (Hk a st'). destruct (k a st') as [[]]; [done| |done]. by rewrite <-H2.
Qed.
Lemma atomic_then {A B} (m : IO A) (k : A → IO B) : atomic_call X m → (∀ a, fails_only X (k a)) → atomic_call X (m ≫= k).
Proof.
  intros Hm Hk st. specialize (Hm st). unfold mbind, M_bind. destruct (m st) as [[a|e|] st']; [|done|done].
  specialize (Hk a st'). destruct (k a st') as [[]]; [done|by left|done].
Qed.
Lemma only_bind {A B} (m : IO A) (k : A → IO B) : fails_only X m → (∀ a, fails_only X (k a)) → fails_only X (m ≫= k).
Proof. intros Hm Hk st. specialize (Hm st). unfold mbind, M_bind. destruct (m st) as [[a|e|] st']; [apply Hk|done|done]. Qed.
Lemma only_throw {A} e : X e → fails_only X (A := A) (throw e).
Proof. by intros He st. Qed.
Lemma only_modify g : fails_only X (modify g).
Proof. by intros st. Qed.
Lemma only_change g : fails_only X (change g).
Proof. by intros [f out]. Qed.
Lemma inert_ret {A} (a : A) : inert_call (mret a).
Proof. by intros st. Qed.
Lemma inert_throw {A} e : inert_call (A := A) (throw e).
Proof. by intros st. Qed.
Lemma inert_gets {A} (f : _ → A) : inert_call (gets f).
Proof. by intros st. Qed.
End Composition.
#[export] Hint Resolve inert_ret inert_throw inert_gets only_modify only_change : calls.

Section Failures.
Context (from_user : Z → nat → option (list Z)) (to_user : Z → list Z → bool).
(** A copy from the caller's memory has the length asked for. *)
Context (Hlen : ∀ arg n bs, from_user arg n = Some bs → length bs = n).
Lemma inert_copy_from arg n : inert_call (copy_from_user from_user arg n).
Proof. intros st. unfold copy_from_user. by destruct (from_user arg n). Qed.
Lemma inert_copy_to arg bs : inert_call (copy_to_user to_user arg bs).
Proof. intros [f out]. unfold copy_to_user. by destruct (to_user arg bs). Qed.
(** A struct that was copied can be read, and has as many fields as the layout. *)
Lemma atomic_struct {B} X layout arg (k : list Z → IO B) :
  (∀ vals, length vals = length layout → atomic_call X (k vals)) → atomic_call X (read_struct from_user layout arg ≫= k).
Proof.
  intros Hk st. unfold read_struct, copy_from_user, mbind, M_bind. destruct (from_user arg (sum_list layout)) as [bs|] eqn:E; [|by right].
  cbn. destruct (decode layout bs) as [[vals rest]|] eqn:Hd; [|apply decode_None in Hd; rewrite (Hlen _ _ _ E) in Hd; lia].
  apply Hk. by apply decode_length in Hd as [_ ?].
Qed.
Local Hint Resolve inert_copy_from inert_copy_to : calls.
Ltac call := repeat first
  [ apply inert_atomic; solve [auto with calls] | apply only_atomic; solve [auto with calls]
  | apply atomic_struct; intros | apply atomic_bind; [solve [auto with calls]|intros] | apply atomic_then; [|solve [intros; auto with calls]] ].

(** Reading registers. *)
Definition reads {A} (m : VM A) : Prop := ∀ s, (m s).1 ≠ Stuck ∧ (m s).2 = s.
Lemma reads_bind {A B} (m : VM A) (k : A → VM B) : reads m → (∀ a, reads (k a)) → reads (m ≫= k).
Proof.
  intros Hm Hk s. destruct (Hm s) as [H1 H2]. unfold mbind, M_bind. destruct (m s) as [[a|e|] s']; cbn in *; [subst s'; apply Hk|done|done].
Qed.
Lemma reads_ret {A} (a : A) : reads (mret a).
Proof. by intros s. Qed.
Lemma reads_gets {A} (f : Vcpu → A) : reads (gets f).
Proof. by intros s. Qed.
Lemma reads_vmread f : reads (vmread f).
Proof. intros s. unfold vmread. by destruct (vmcs s !! f). Qed.
Lemma reads_get_registers : reads get_registers.
Proof.
  unfold get_registers, read_segment.
  repeat first [apply reads_bind; [|intros] | apply reads_vmread | apply reads_gets | apply reads_ret].
Qed.
Lemma inert_get_regs loads clears : inert_call (on_vm (get_registers_guarded loads clears)).
Proof.
  intros [f out]. unfold on_vm, get_registers_guarded, vmcs_guarded. destruct loads; [|by destruct f].
  destruct (reads_get_registers (vf_vcpu f)) as [H1 H2]. cbn [negb]. destruct (get_registers (vf_vcpu f)) as [[r|e|] s]; cbn in *; [| |done]; subst s;
    destruct clears; by destruct f.
Qed.
Local Hint Resolve inert_get_regs : calls.

Lemma rdrand_config_atomic X arg : atomic_call X (handle_set_rdrand_config from_user arg).
Proof. unfold handle_set_rdrand_config. call. destruct vals as [|m [|? [|v [|]]]]; try done. destruct (rdrand_mode m); call. Qed.
Lemma random_bytes_atomic X arg : atomic_call X (handle_set_random_bytes from_user arg).
Proof.
  intros st. unfold handle_set_random_bytes, copy_from_user, mbind, M_bind. destruct (from_user arg _) as [bs|] eqn:E; [|by right]. cbn [mret M_ret].
  destruct (decode random_bytes_head_layout bs) as [[vals rest]|] eqn:Hd; [|apply decode_None in Hd; rewrite (Hlen _ _ _ E) in Hd; cbn in Hd; lia].
  apply decode_length in Hd as [_ Hl]. by destruct vals as [|x [|y [|]]], st.
Qed.
Lemma event_config_atomic buffer arg : atomic_call (λ e, e = EINVAL) (set_event_config from_user buffer arg).
Proof.
  unfold set_event_config. call. destruct vals as [|en [|cats [|trig [|fl [|tgt [|st [|]]]]]]]; try done.
  apply atomic_bind; [unfold state; auto with calls|intros s]. apply atomic_then.
  - destruct (negb (en =? 0) && _); [destruct buffer; call|]. destruct (negb (negb (en =? 0)) && _); call.
  - intros _. apply only_bind; [auto with calls|intros _]. destruct (exit_trigger_of trig); [|by apply only_throw].
    repeat (apply only_bind; [auto with calls|intros _]). auto with calls.
Qed.
Lemma single_step_atomic X arg : atomic_call X (handle_set_single_step from_user arg).
Proof.
  unfold handle_set_single_step. call. destruct vals as [|en [|a [|b [|]]]]; try done. destruct (negb (en =? 0)); call.
Qed.
Lemma feedback_info_atomic X arg : atomic_call X (handle_get_feedback_buffer_info from_user to_user arg).
Proof. unfold handle_get_feedback_buffer_info. call. destruct vals as [|i [|? [|]]]; try done. unfold state. call. Qed.
Lemma queue_atomic X heap slot arg : atomic_call X (handle_queue_io_action from_user heap slot arg).
Proof.
  unfold handle_queue_io_action. call. destruct vals as [|len [|? [|tgt [|]]]]; try done. destruct (_ <? len); [call|]. destruct heap; cbn [negb]; [|call].
  apply atomic_bind; [destruct (0 <? len); auto with calls|intros data]. unfold state. call.
  destruct (enqueue_pending _ _ _) as [[] chan]; call.
Qed.
Lemma drain_atomic X arg : atomic_call X (handle_drain_io_response from_user to_user arg).
Proof.
  unfold handle_drain_io_response. call. destruct vals as [|cap [|? [|? [|]]]]; try done. destruct (_ <? cap); [call|]. unfold state. call.
  apply atomic_bind; [destruct (0 <? _); auto with calls|intros _]. call.
Qed.

(** What a failed call may have done: nothing; or, if it was SET_EVENT_CONFIG with an
    invalid trigger, a part of the configuration; or, if it was SET_REGS, the
    registers: all of them when VMCLEAR failed after they were written, the first
    ones when the VMCS has not all the fields. *)
Definition may_leave (clears : bool) (cap : cr_caps) (r : request) (e : Z) (f f' : vm_file) : Prop :=
  f' = f ∨ r = SET_EVENT_CONFIG ∧ e = EINVAL ∨
  r = SET_REGS ∧ ∃ regs l, f' = on_file (λ s, with_vmcs (apply_writes l (vmcs s)) (with_gprs (g_gprs regs) s)) f ∧ l `prefix_of` register_writes cap regs ∧
    (clears = false ∧ l = register_writes cap regs ∨ ∃ x, x ∈ register_fields ∧ vmcs (vf_vcpu f) !! x = None).
Lemma set_regs_leaves loads clears cap arg f out :
  match handle_set_regs from_user loads clears cap arg (f, out) with
  | (Done _, _) => True
  | (Fail e, (f', _)) => may_leave clears cap SET_REGS e f f'
  | (Stuck, _) => False
  end.
Proof.
  unfold handle_set_regs, read_struct, copy_from_user, mbind, M_bind. destruct (from_user arg _) as [bs|] eqn:E; [|by left].
  cbn -[BedrockRegs_layout of_struct set_registers_guarded]. destruct (decode BedrockRegs_layout bs) as [[vals rest]|] eqn:Hd;
    [|apply decode_None in Hd; rewrite (Hlen _ _ _ E) in Hd; lia].
  cbn -[BedrockRegs_layout of_struct set_registers]. unfold on_vm, set_registers_guarded, vmcs_guarded. destruct loads; [|left; by destruct f]. cbn [negb].
  destruct (set_registers_some cap (of_struct vals) (vf_vcpu f)) as (l & Hl & Hs & Hn & Hd').
  destruct (decide (Forall (λ x, is_Some (vmcs (vf_vcpu f) !! x)) register_fields)) as [Hf|Hf].
  - rewrite Forall_forall in Hf. destruct (Hd' Hf) as [Ed ->]. destruct (set_registers _ _ _) as [o s]. cbn in Ed, Hs. subst o s.
    destruct clears; [done|]. right. right. split; [done|]. exists (of_struct vals), (register_writes cap (of_struct vals)). split; [done|]. split; [done|]. by left.
  - apply not_Forall_Exists, Exists_exists in Hf as (x & Hx & Hnx); [|solve_decision]. destruct (set_registers _ _ _) as [o s]. cbn in Hs, Hn. subst s.
    assert (may_leave clears cap SET_REGS EINVAL f (on_file (λ _, with_vmcs (apply_writes l (vmcs (vf_vcpu f))) (with_gprs (g_gprs (of_struct vals)) (vf_vcpu f))) f)) as Hm.
    { right. right. split; [done|]. exists (of_struct vals), l. split; [done|]. split; [done|]. right. exists x. split; [done|]. by apply eq_None_not_Some. }
    by destruct clears, o.
Qed.

(** C38: A call on a VM's descriptor other than RUN never panics, and leaves the VM unchanged when it fails: whether the caller's memory cannot be read or
    written, a value is invalid, the queue is full, memory is short or the VMCS cannot be loaded.  There are two exceptions: SET_EVENT_CONFIG with an invalid
    trigger; and SET_REGS, which has set all registers when VMCLEAR fails after the writes, and the first ones when the VMCS lacks a field, and then has changed nothing else. *)
Theorem failed_call_changes_nothing loads clears heap slot cap buffer stack run_call r arg f out :
  r ≠ RUN →
  match serve from_user to_user loads clears heap slot cap buffer stack run_call r arg (f, out) with
  | (Done _, _) => True
  | (Fail e, (f', _)) => may_leave clears cap r e f f'
  | (Stuck, _) => False
  end.
Proof.
  intros Hr. assert (∀ m : IO (), atomic_call (λ e, r = SET_EVENT_CONFIG ∧ e = EINVAL) m →
    match m (f, out) with (Done _, _) => True | (Fail e, (f', _)) => may_leave clears cap r e f f' | (Stuck, _) => False end) as Ha.
  { intros m Hm. specialize (Hm (f, out)). destruct (m (f, out)) as [[a|e|] [f' out']]; [done| |done]. cbn in Hm. unfold may_leave. tauto. }
  destruct r; cbn [serve]; try done.
  2: apply set_regs_leaves.
  all: apply Ha; clear Ha; try (unfold handle_set_rdrand_value, handle_get_random_request, handle_get_exit_stats, handle_set_stop_tsc, handle_get_vm_id, state; call; fail).
  all: first [apply rdrand_config_atomic | apply single_step_atomic | apply feedback_info_atomic | apply queue_atomic | apply drain_atomic
    | apply random_bytes_atomic | idtac].
  intros st. pose proof (event_config_atomic buffer arg st) as H. destruct (set_event_config _ _ _ st) as [[]]; [done| |done]. destruct H; [left; by split|by right].
Qed.
End Failures.

(** ** Running the guest *)
Definition EIO : Z := 5.
Definition EOPNOTSUPP : Z := 95.
Section RunCall.
Context {R : Type} `{!GuestMem R}.
Record run_file := mkRunFile { rf_children : Z; rf_running : bool; rf_vm : run_state * (Vcpu * R) }.
Implicit Types (rf : run_file) (st : run_state * (Vcpu * R)).
(** The environment of each attempt, whether and how the page pool is refilled
    before it, how many iterations the loop may take, whether memory is hashed. *)
Context (envs : nat → host_env R) (refill : nat → R → option R) (iterations : nat) (skip : bool) (to_user : Z → list Z → bool).

Definition errno (e : VmRunError) : Z := match e with RInstructionCounter Unavailable => EOPNOTSUPP | _ => EIO end.
(** Attempt [i]: the pool is refilled if the one before ran out of it; the event
    buffer is cleared before the first. *)
Definition prepare_attempt (i : nat) st : outcome Z (run_state * (Vcpu * R)) :=
  let '(n, (s, r)) := st in
  match i with
  | O => Done (n, (with_events (event_clear (events s)) s, r))
  | S _ => match refill i r with Some r => Done (n, (s, r)) | None => Fail ENOMEM end
  end.
(** The first [fuel] attempts of the loop; [None] is a loop that is still going. *)
Fixpoint attempts (fuel i : nat) st : option (outcome Z ExitReason) * (run_state * (Vcpu * R)) :=
  match fuel with
  | O => (None, st)
  | S fuel =>
      match prepare_attempt i st with
      | Done st =>
          match run (envs i) skip iterations st with
          | (Done PoolExhausted, st) => attempts fuel (S i) st
          | (Done reason, st) => (Some (Done reason), st)
          | (Fail e, st) => (Some (Fail (errno e)), st)
          | (Stuck, st) => (Some Stuck, st)
          end
      | Fail e => (Some (Fail e), st)
      | Stuck => (Some Stuck, st)
      end
  end.
Definition exit_info (reason : ExitReason) st : list Z :=
  let '(n, (s, _)) := st in
  encode vm_exit_layout [exit_reason_u32 reason; 0; rn_regs n LastExitQualification; rn_regs n LastGuestPhysicalAddr;
    u32 (event_len (events s)); 0; vfields s EmulatedTsc; vfields s TscFrequency].
(** The result is 0 or an error number, with what was written for the caller;
    [None] if the call has not returned after [fuel] attempts. *)
Definition handle_run (fuel : nat) (arg : Z) rf : option (outcome Z (list (Z * list Z))) * run_file :=
  if rf_running rf then (Some (Fail EBUSY), rf)
  else if negb (rf_children rf =? 0) then (Some (Fail EBUSY), mkRunFile (rf_children rf) false (rf_vm rf))
  else
    let '(result, st) := attempts fuel 0 (rf_vm rf) in
    match result with
    | None => (None, mkRunFile (rf_children rf) true st)
    | Some result =>
        (Some match result with
         | Done reason => let info := exit_info reason st in if to_user arg info then Done [(arg, info)] else Fail EFAULT
         | Fail e => Fail e
         | Stuck => Stuck
         end, mkRunFile (rf_children rf) false st)
    end.

(** *** The log between runs *)

(** No exit record waits for its hash. *)
Definition settled (s : Vcpu) : Prop := pending_exit_loc (events s) = None.
Definition leaves {A} (m : RM A) (Q : A → Prop) : Prop := ∀ st a st', m st = (Done a, st') → Q a → settled st'.2.1.
Lemma settles_bind {A B} (m : RM A) (k : A → RM B) Q : (∀ a, leaves (k a) Q) → leaves (m ≫= k) Q.
Proof. intros Hk st b st' E Hb. unfold mbind, M_bind in E. destruct (m st) as [[a|e|] st1]; try done. by eapply Hk. Qed.
Lemma leaves_never {A} (m : RM A) (Q : A → Prop) : (∀ st a st', m st = (Done a, st') → ¬ Q a) → leaves m Q.
Proof. intros Hm st a st' E Ha. by destruct (Hm st a st' E). Qed.
Lemma finalize_settles env skip_hash t (l : loop_end) Q :
  leaves (finalize_exit_record env skip_hash;; e ← now; spend TotalRunCycles (e -| t);; mret l) Q.
Proof.
  intros [n [s r]] a st' E _. unfold settled. revert E.
  unfold finalize_exit_record, now, spend, on_cpu, on_guest, on_vcpu, run_gets, gets, modify, rdtsc, mbind, M_bind. cbn.
  destruct (pending_exit_loc (events s)) as [loc|] eqn:Hl; cbn.
  - destruct (env_hash_memory env r) as [hash cow]. cbn. intros [= <- <-]. cbn. unfold finalize_exit_memory_hash. rewrite Hl.
    destruct loc; cbn; [by destruct (event_buffer (events s))|done].
  - intros [= <- <-]. done.
Qed.
(** An iteration that does not end the run with an error. *)
Definition no_error (l : loop_end) : Prop := ∀ e, l ≠ Break (Err e).
Lemma iterate_settles env skip_hash kgs i : leaves (iterate env skip_hash kgs i) no_error.
Proof.
  unfold iterate. do 19 (apply settles_bind; intros ?). destruct (negb _); [by intros st l st' [=]|].
  do 3 (apply settles_bind; intros ?). apply settles_bind. intros [|reason|e]; try apply finalize_settles.
  do 2 (apply settles_bind; intros ?). intros st l st' [= <- <-] H. by destruct (H (RExitHandler e)).
Qed.
Lemma loop_settles env skip_hash kgs fuel i : leaves (loop env skip_hash kgs fuel i) (λ res, ∀ e, res ≠ Err e).
Proof.
  revert i. induction fuel as [|fuel IH]; intros i st a st' E Ha; cbn [loop] in E; [done|]. unfold mbind, M_bind in E.
  destruct (iterate env skip_hash kgs i st) as [[l|e|] st1] eqn:Ei; try done. destruct l as [|res]; [by eapply IH|].
  injection E as -> ->. apply (iterate_settles env skip_hash kgs i st _ st' Ei). intros e [= ->]. by destruct (Ha e).
Qed.
Lemma run_loop_settles env skip_hash kgs fuel : leaves (run_loop env skip_hash kgs fuel) (λ _, True).
Proof.
  unfold run_loop. do 3 (apply settles_bind; intros ?). intros st reason st' E _. unfold mbind at 1, M_bind in E.
  destruct (loop env skip_hash kgs fuel 0 st) as [[res|e|] st1] eqn:El; try done. pose proof (loop_settles _ _ _ _ _ _ _ _ El) as Hs. clear El.
  destruct st1 as [n [s r]]. revert E. unfold mbind, M_bind. destruct (finish n) as [fin n']. cbn.
  unfold on_cpu, on_guest, on_vcpu, unwrap_or, vmread, on_run, modify, mbind, M_bind. cbn.
  destruct (vmcs s !! ExitQualification), (vmcs s !! GuestPhysicalAddr); cbn; destruct fin as [[]|], res as [reason'|e']; intros [= <- <-]; by apply Hs.
Qed.
Lemma run_settles env skip_hash fuel : leaves (run env skip_hash fuel) (λ _, True).
Proof.
  unfold run. do 2 (apply settles_bind; intros ?). intros st reason st' E _. unfold mbind, M_bind, catch in E.
  destruct (run_loop env skip_hash _ fuel st) as [[res|e|] st1] eqn:El; try done.
  - pose proof (run_loop_settles _ _ _ _ _ _ _ El I) as Hs. pose proof (teardown_state env a (Ok res) st1) as (Ht & _). rewrite E in Ht. cbn in Ht. by subst st'.
  - pose proof (teardown_state env a (Err e) st1) as (_ & Hd & _). rewrite E in Hd. by specialize (Hd _ eq_refl).
Qed.

(** *** The call *)
Lemma clear_ok (s : Vcpu) : vcpu_ok s → settled s → vcpu_ok (with_events (event_clear (events s)) s).
Proof.
  intros [Hc [a Ha] Hk] Hs. assert (a_exit a = None) as Hx by (pose proof (rf_exit _ _ Ha) as H; rewrite Hs in H; by destruct (a_exit a)).
  constructor; [by destruct Hc; constructor| |done]. exists (a_clear a). apply event_clear_refines; [done|]. cbn [op_ok]. by rewrite Hx.
Qed.

Context `{!GuestMemSpec R}.
(** The state of a VM no one runs. *)
Definition idle (st : run_state * (Vcpu * R)) : Prop :=
  run_ok st.1 ∧ vcpu_ok st.2.1 ∧ gm_ok st.2.2 ∧ settled st.2.1 ∧ at_rest st.1 st.2.1.
(** The host of the attempts: machine values are in their widths, stays move the
    host's registers as hardware does, refilling the pool leaves memory well-formed,
    and in each attempt the scheduler wants the processor back at some point. *)
Record host_ok : Prop := {
  ho_env i : env_ok (envs i);
  ho_hardware i : hardware_ok (envs i);
  ho_resched i : ∃ k, (k < iterations)%nat ∧ env_resched (envs i) k = true;
  ho_refill i r r' : refill i r = Some r' → gm_ok r → gm_ok r';
}.
(** VMPTRLD and INVEPT succeed in the first [fuel] attempts. *)
Definition loads (fuel : nat) : Prop := ∀ i, (i < fuel)%nat → env_vmptrld (envs i) = true ∧ env_invept (envs i) = true.
Definition same_msrs (n n' : run_state) : Prop := ∀ m, m ∉ counting → m ≠ IA32_PERFEVTSEL0 → rn_msrs n' !! m = rn_msrs n !! m.
(** The host's registers after the call: all but the counting ones as they were; if
    VMPTRLD or INVEPT failed, which is reported as EIO, all but the system-call
    ones too. *)
Definition given_back {A} (fuel : nat) (o : option (outcome Z A)) (n n' : run_state) : Prop :=
  (o ≠ Some (Fail EIO) ∨ loads fuel → same_msrs n n') ∧
  ∀ m, m ∉ syscall_msrs → m ∉ counting → m ≠ IA32_PERFEVTSEL0 → rn_msrs n' !! m = rn_msrs n !! m.
Lemma given_back_all {A} fuel (o : option (outcome Z A)) n n' : same_msrs n n' → given_back fuel o n n'.
Proof. intros H. split; [done|]. intros m _. apply H. Qed.
Lemma given_back_trans {A} fuel (o : option (outcome Z A)) n n' n'' : same_msrs n n' → given_back fuel o n' n'' → given_back fuel o n n''.
Proof.
  intros H [H1 H2]. split; [intros Ho m Hm Hp; rewrite (H1 Ho) by done; by apply H|]. intros m Hs Hm Hp. rewrite H2 by done. by apply H.
Qed.

Lemma prepare_idle i st : host_ok → idle st →
  match prepare_attempt i st with
  | Done st' => (∀ r, i ≠ O → refill i r = None → st.2.2 ≠ r) ∧ st'.1 = st.1 ∧ run_ok st'.1 ∧ vcpu_ok st'.2.1 ∧ gm_ok st'.2.2 ∧ at_rest st'.1 st'.2.1
  | Fail e => e = ENOMEM
  | Stuck => False
  end.
Proof.
  intros Hh (Hn & Hs & Hr & Hl & Hrest). destruct st as [n [s r]], i as [|i]; cbn in *.
  - pose proof (clear_ok s Hs Hl) as Hs'. cbn. do 5 (split; [done|]). by destruct Hrest.
  - destruct (refill (S i) r) as [r'|] eqn:E; [|done]. cbn. split; [intros r1 _ E1 ->; by rewrite E1 in E|].
    split; [done|]. split; [done|]. split; [done|]. split; [by eapply ho_refill|done].
Qed.
(** One attempt: the host's registers are given back, and the VM is idle if it ended with a reason. *)
Lemma attempt_ok fuel i n s r : host_ok → run_ok n → vcpu_ok s → gm_ok r → at_rest n s → (i < fuel)%nat →
  ∃ o n' s' r', run (envs i) skip iterations (n, (s, r)) = (o, (n', (s', r'))) ∧ o ≠ Stuck ∧ run_ok n' ∧ vcpu_ok s' ∧ gm_ok r' ∧
    match o with
    | Done _ => idle (n', (s', r')) ∧ same_msrs n n'
    | Fail e => given_back (A := ExitReason) fuel (Some (Fail (errno e))) n n'
    | Stuck => False
    end.
Proof.
  intros Hh Hn Hs Hr Ha Hi.
  destruct (run_returns (envs i) skip iterations n s r (ho_env Hh i) Hn Hs Hr (ho_resched Hh i)) as (o & n' & s' & r' & E & Ho & Hn' & Hs' & Hr').
  exists o, n', s', r'. do 5 (split; [done|]).
  destruct (decide (env_vmptrld (envs i) = true ∧ (rn_last_cpu n = Some (env_cpu (envs i)) ∨ env_invept (envs i) = true))) as [[Hl Hc]|Hf].
  - destruct (run_restores (envs i) skip iterations n s r o n' s' r' (ho_hardware Hh i) Ha Hl Hc E Ho) as (Hm & _ & _ & Hd).
    destruct o as [reason|e|]; [|by apply given_back_all|done]. destruct (Hd reason eq_refl) as [_ Ha'].
    split; [split_and!; try done; exact (run_settles _ _ _ _ _ _ E I)|done].
  - destruct (run_unprepared (envs i) skip iterations n s r) as (e & n1 & E1 & He & Hm).
    { destruct (env_vmptrld (envs i)); [right|by left]. destruct (env_invept (envs i)); [destruct Hf; auto|]. split; [intros ?; destruct Hf; auto|done]. }
    rewrite E1 in E. injection E as <- <- <- <-. split; [|intros m Hsys _ _; rewrite Hm; by apply load_lookup].
    intros [Hx|Hx]; [by destruct He as [->| ->]|]. destruct (Hx i Hi) as [? ?]. destruct Hf. auto.
Qed.
(** The attempts give the host its registers back; they are still going only if
    no refill failed for good. *)
Lemma attempts_ok fuel i st : host_ok → idle st → ∀ total, (i + fuel ≤ total)%nat →
  ∃ o st', attempts fuel i st = (o, st') ∧ o ≠ Some Stuck ∧ run_ok st'.1 ∧ vcpu_ok st'.2.1 ∧ gm_ok st'.2.2 ∧ given_back total o st.1 st'.1 ∧
    match o with
    | None => idle st' ∧ ∀ last, (0 < last)%nat → (i ≤ last < i + fuel)%nat → ∃ r, is_Some (refill last r)
    | Some (Done reason) => reason ≠ PoolExhausted ∧ idle st'
    | Some (Fail e) => e = EIO ∨ e = EOPNOTSUPP ∨ e = ENOMEM ∧ idle st'
    | Some Stuck => False
    end.
Proof.
  intros Hh. revert i st. induction fuel as [|fuel IH]; intros i st Hi total Ht; cbn [attempts].
  { pose proof Hi as (? & ? & ? & ? & ?). exists None, st. split_and!; try done; intros; lia. }
  pose proof (prepare_idle i st Hh Hi) as Hp.
  destruct (prepare_attempt i st) as [[n [s r]]|e|]; [|subst e; pose proof Hi as (? & ? & ? & ? & ?); eexists _, _; split_and!; try done; by do 2 right|done].
  destruct Hp as (Hne & Hn1 & Hn & Hs & Hr & Ha). cbn in *. subst n.
  destruct (attempt_ok total i st.1 s r Hh Hn Hs Hr Ha ltac:(lia)) as (o & n' & s' & r' & E & Ho & Hn' & Hs' & Hr' & Hd). rewrite E.
  destruct o as [reason|e|]; [|eexists _, _; split_and!; try done; unfold errno; repeat case_match; tauto|done]. destruct Hd as [Hi' Hm].
  destruct (decide (reason = PoolExhausted)) as [->|Hx].
  - destruct (IH (S i) (n', (s', r')) Hi' total ltac:(lia)) as (o & st' & E' & Ho' & ? & ? & ? & Hm' & Hd'). exists o, st'. split_and!; try done.
    + by eapply given_back_trans.
    + destruct o as [o|]; [done|]. destruct Hd' as [? Hl]. split; [done|]. intros last Hpos Hlast. destruct (decide (last = i)) as [->|]; [|apply Hl; lia].
      exists st.2.2. destruct (refill i st.2.2) eqn:Er; [by eexists|]. destruct (Hne st.2.2 ltac:(lia) Er). done.
  - exists (Some (Done reason)), (n', (s', r')). split; [by destruct reason|]. split_and!; try done. by apply given_back_all.
Qed.

(** RUN gives the VM up and gives the host its processor back.  A call that has
    returned ended with a reason or an error number, the VM is not marked as
    running, and the host's registers are as [given_back] says.  The VM can be run
    again unless the run itself failed.  A reason is one for userspace, never the
    exhaustion of the pool, and is reported with the state the run ended in.  A VM
    that is being run, or has children, is not touched.  The call goes on only
    while the pool can be refilled. *)
Definition run_call_spec (fuel : nat) (arg : Z) rf (o : option (outcome Z (list (Z * list Z)))) rf' : Prop :=
  if rf_running rf then o = Some (Fail EBUSY) ∧ rf' = rf
  else o ≠ Some Stuck ∧ rf_running rf' = bool_decide (o = None) ∧ given_back fuel o (rf_vm rf).1 (rf_vm rf').1 ∧
    run_ok (rf_vm rf').1 ∧ vcpu_ok (rf_vm rf').2.1 ∧ gm_ok (rf_vm rf').2.2 ∧
    (o = Some (Fail EIO) ∨ o = Some (Fail EOPNOTSUPP) ∨ idle (rf_vm rf')) ∧
    (rf_children rf ≠ 0 → o = Some (Fail EBUSY) ∧ rf_vm rf' = rf_vm rf) ∧
    (∀ w, o = Some (Done w) → ∃ reason, reason ≠ PoolExhausted ∧ w = [(arg, exit_info reason (rf_vm rf'))]) ∧
    (o = None → ∀ last, (0 < last < fuel)%nat → ∃ r, is_Some (refill last r)).
Lemma run_call_ok fuel arg rf : host_ok → idle (rf_vm rf) → ∃ o rf', handle_run fuel arg rf = (o, rf') ∧ run_call_spec fuel arg rf o rf'.
Proof.
  intros Hh Hi. unfold handle_run, run_call_spec. destruct (rf_running rf) eqn:Hr; [by eexists _, _|].
  destruct (rf_children rf =? 0) eqn:Hc; cbn [negb].
  2: { eexists _, _. split; [done|]. pose proof Hi as (? & ? & ? & ? & ?). split_and!; try done; by do 2 right. }
  destruct (attempts_ok fuel 0 (rf_vm rf) Hh Hi fuel ltac:(lia)) as (o & st' & E & Ho & ? & ? & ? & Hg & Hd). rewrite E.
  destruct o as [[reason|e|]|]; [destruct Hd as [Hne Hi']| |done|destruct Hd as [Hi' Hl]]; eexists _, _; (split; [done|]); cbn; split_and!; try done; try lia.
  - by destruct (to_user arg _).
  - destruct Hg as [Hg _]. apply given_back_all, Hg. by left.
  - by do 2 right.
  - intros w. destruct (to_user arg _); [|done]. intros [= <-]. by exists reason.
  - split; [|apply Hg]. intros Ho'. apply Hg. destruct Ho' as [Ho'|]; [left; congruence|by right].
  - destruct Hd as [->|[->|[_ ?]]]; tauto.
  - split; [|apply Hg]. intros _. apply Hg. by left.
  - by do 2 right.
  - intros _ last Hlast. apply Hl; lia.
Qed.
End RunCall.

(** ** Where a call does less, or more, than it says *)

(** Single-stepping that is turned off while the trap flag is set: the flag stays
    in the VMCS, and the next entry, which goes by the cleared note, leaves it. *)
Theorem single_step_off_keeps_trap_flag from_user arg f out bs a b rest :
  from_user arg (sum_list single_step_layout) = Some bs → decode single_step_layout bs = Some ([0; a; b], rest) → pebs_state (vf_vcpu f) = None →
  ∃ f', handle_set_single_step from_user arg (f, out) = (Done (), (f', out)) ∧
    vmcs (vf_vcpu f') = vmcs (vf_vcpu f) ∧ mtf_enabled (vf_vcpu f') = false ∧
    ∀ eax, update_mtf_state eax (vf_vcpu f') = (Done (), vf_vcpu f').
Proof.
  intros Hb Hd Hp. exists (on_file (with_mtf_enabled false) (on_file (with_single_step_tsc_range None) f)).
  unfold handle_set_single_step, read_struct, copy_from_user, mbind, M_bind. rewrite Hb. cbn -[single_step_layout]. rewrite Hd. cbn.
  split; [done|]. split; [done|]. split; [done|]. intros eax. unfold update_mtf_state, mbind, M_bind, gets. cbn. by rewrite Hp.
Qed.

(** An event configuration with an invalid trigger: refused, after the buffer has
    been detached and the categories replaced. *)
Theorem refused_config_applied :
  let config := encode event_config_layout [0; 0x55; 9; 0; 0; 0] in
  let f := mkFile 1 (with_events (set_event_buffer (λ _, 0) (events (vf_vcpu demo_file))) (vf_vcpu demo_file)) false in
  let out := set_event_config (λ _ _, Some config) None 0x1000 (f, []) in
  out.1 = Fail EINVAL ∧ event_buffer (events (vf_vcpu out.2.1)) = None ∧ event_categories (events (vf_vcpu out.2.1)) = 0x55.
Proof. cbv zeta. split_and!; vm_compute; reflexivity. Qed.

(** *** Calls *)
Lemma failed_call_changes_nothing_witness :
  match serve (λ _ _, None) (λ _ _, true) true false true true demo_caps None (λ _, 0) (λ _, throw EIO) SET_REGS 0x1000 (demo_file, []) with
  | (Fail e, (f', _)) => e = EFAULT ∧ may_leave false demo_caps SET_REGS EFAULT demo_file f'
  | _ => False
  end.
Proof.
  pose proof (failed_call_changes_nothing (λ _ _, None) (λ _ _, true) ltac:(intros ? ? ? [=]) true false true true demo_caps None (λ _, 0) (λ _, throw EIO)
    SET_REGS 0x1000 demo_file [] ltac:(discriminate)) as H.
  cbn [serve] in *. unfold handle_set_regs, read_struct, copy_from_user, mbind, M_bind, throw in *. split; [reflexivity|]. exact H.
Defined.

Lemma demo_idle_vm : idle (demo_run, (demo_launch, demo_guest)).
Proof. split; [apply demo_run_ok|]. split; [apply demo_launch_ok|]. split; [apply demo_guest_ok|]. split; [vm_compute; reflexivity|apply demo_at_rest]. Qed.
Lemma demo_attempts_ok : host_ok (λ _, demo_env true) (λ _ _, None) 1.
Proof.
  constructor; intros; try done; [apply demo_env_ok|apply demo_hardware|]. exists 0%nat. split; [lia|reflexivity].
Qed.
