(* ===== verification/Lifecycle.v ===== *)
(** * The life of a VM

    A VM is created or forked ([Setup]), configured, run and inspected through the
    calls on its descriptor ([Ioctl], [Registers], [VmFile]), in any order, while
    the host goes about its own work.  Here these compose: what [Setup]'s
    constructors establish is what [VmFile]'s RUN needs, and every call keeps it.
    [life] is the relation of VMs that can come about; the theorem is that each of
    them can be run, and that a run of it does not panic and restores the host. *)
From stdpp Require Import strings.
From S2P Require Import Prelude VmMemory Wire EventLog Random Rtc Apic Vcpu GuestMem Relational Precise Handlers Safety Emulation Mmio ExitLog IoChannel Vmcall Ioctl Dispatch Footprint Run HostState Setup Registers VmFile.

(** ** What the calls keep *)

(** The virtual processor of a VM with data [n] that no one runs. *)
Definition ready (n : run_state) (s : Vcpu) : Prop := vcpu_ok s ∧ settled s ∧ at_rest n s.

Lemma at_rest_vmcs n s s' :
  (∀ f, hypervisor_field f = true → vmcs s' !! f = vmcs s !! f) → at_rest n s → at_rest n s'.
Proof.
  intros Hv [H0 H1 H2 H3 H4 H5 H6 H7]. constructor; try done.
  - intros m f v Hin Hm1 Hm2 Hm. rewrite Hv; [by apply (H5 m)|]. unfold swapped in Hin.
    repeat (apply elem_of_cons in Hin as [[= -> ->]|Hin]; [done|]). by apply not_elem_of_nil in Hin.
  - intros c. rewrite Hv; [apply H6|done].
  - by rewrite Hv.
Qed.
(** A change of the processor that is neither of the VMCS nor of the log. *)
Lemma ready_core n s s' : core_ok s' → vmcs s' = vmcs s → events s' = events s → clock s' = clock s → ready n s → ready n s'.
Proof.
  intros Hc Hv He Hk ([_ Ho Hck] & Hs & Hr). split; [|split].
  - constructor; [done|by rewrite He|by rewrite Hk].
  - unfold settled in *. by rewrite He.
  - apply (at_rest_vmcs n s); [|done]. intros f _. by rewrite Hv.
Qed.
Lemma ready_events n s es : (∃ a, refines es a) → pending_exit_loc es = None → ready n s → ready n (with_events es s).
Proof.
  intros Ha Hp ([Hc _ Hk] & _ & Hr). split; [|split; [exact Hp|by apply (at_rest_vmcs n s)]]. constructor; [by destruct Hc; constructor|exact Ha|exact Hk].
Qed.
(** The steps of SET_EVENT_CONFIG, each an instance of [config_refines]. *)
Lemma ready_config n s enabled categories fresh :
  ready n s → ready n (with_events (handle_set_event_config enabled categories fresh (events s)) s).
Proof.
  intros Hr. pose proof Hr as ([_ [a Ha] _] & Hs & _). unfold settled in Hs. apply ready_events; [| |done].
  - exists (a_config enabled categories a). apply config_refines; [done|]. intros i Hi. pose proof (rf_exit _ _ Ha) as Hx. by rewrite Hs, Hi in Hx.
  - unfold handle_set_event_config. destruct enabled, (event_buffer (events s)); exact Hs.
Qed.
Lemma same_categories es : set_event_categories (event_categories es) es = es.
Proof. by destruct es. Qed.
Lemma ready_categories n s c : ready n s → ready n (with_events (set_event_categories c (events s)) s).
Proof.
  intros Hr. pose proof (ready_config n s (match event_buffer (events s) with Some _ => true | None => false end) c (λ _, 0) Hr) as H.
  unfold handle_set_event_config in H. by destruct (event_buffer (events s)).
Qed.
Lemma ready_attach n s fresh : event_buffer (events s) = None → ready n s → ready n (with_events (set_event_buffer fresh (events s)) s).
Proof.
  intros Hb Hr. pose proof (ready_config n s true (event_categories (set_event_buffer fresh (events s))) fresh Hr) as H. unfold handle_set_event_config in H. rewrite Hb in H.
  cbn [andb negb] in H. by rewrite same_categories in H.
Qed.
Lemma ready_detach n s m : event_buffer (events s) = Some m → ready n s → ready n (with_events (clear_event_buffer_ptr (events s)) s).
Proof.
  intros Hb Hr. pose proof (ready_config n s false (event_categories (clear_event_buffer_ptr (events s))) (λ _, 0) Hr) as H. unfold handle_set_event_config in H. rewrite Hb in H.
  cbn [andb negb] in H. by rewrite same_categories in H.
Qed.

(** A call that keeps the processor ready, and whose result has [P]. *)
Definition keeps (n : run_state) {A} (P : A → Prop) (m : IO A) : Prop := ∀ st, ready n (vf_vcpu st.1) →
  match m st with (Done a, st') => P a ∧ ready n (vf_vcpu st'.1) | (Fail _, st') => ready n (vf_vcpu st'.1) | (Stuck, _) => True end.
Create HintDb keeping.

Section Keeping.
Context (n : run_state).
Lemma call_bind {A B} (P : A → Prop) (Q : B → Prop) (m : IO A) (k : A → IO B) :
  keeps n P m → (∀ a, P a → keeps n Q (k a)) → keeps n Q (m ≫= k).
Proof.
  intros Hm Hk st Hst. specialize (Hm st Hst). unfold mbind, M_bind. destruct (m st) as [[a|e|] st']; [|done|done]. destruct Hm as [Ha Hst']. by apply Hk.
Qed.
Lemma keeps_inert {A} (m : IO A) : inert_call m → keeps n (λ _, True) m.
Proof. intros Hm st Hst. destruct (Hm st) as [H1 H2]. destruct (m st) as [[a|e|] st']; cbn in *; by rewrite ?H2. Qed.
Lemma keeps_stuck {A} (P : A → Prop) : keeps n P stuck.
Proof. by intros st. Qed.
Lemma call_ret {A} (P : A → Prop) a : P a → keeps n P (mret a).
Proof. by intros Ha st. Qed.
Lemma call_throw {A} (P : A → Prop) e : keeps n P (throw e).
Proof. by intros st. Qed.
Lemma keeps_change g : (∀ s, ready n s → ready n (g s)) → keeps n (λ _, True) (change g).
Proof. intros Hg [f out] Hst. split; [done|]. by apply Hg. Qed.
Lemma keeps_state : keeps n (ready n) state.
Proof. by intros st. Qed.
Lemma change_core g : (∀ s, core_ok s → core_ok (g s)) → (∀ s, vmcs (g s) = vmcs s ∧ events (g s) = events s ∧ clock (g s) = clock s) →
  keeps n (λ _, True) (change g).
Proof. intros Hg Hs. apply keeps_change. intros s Hr. destruct (Hs s) as (? & ? & ?). apply (ready_core n s); try done. apply Hg, Hr. Qed.
End Keeping.

Section Calls.
Context (from_user : Z → nat → option (list Z)) (to_user : Z → list Z → bool) (n : run_state).
(** A copy from the caller's memory has the length asked for, and is bytes. *)
Context (Hlen : ∀ arg k bs, from_user arg k = Some bs → length bs = k) (Hbytes : ∀ arg k bs, from_user arg k = Some bs → Forall is_byte bs).

Lemma keeps_copy_from arg k : keeps n (λ bs, length bs = k ∧ Forall is_byte bs) (copy_from_user from_user arg k).
Proof. intros st Hst. unfold copy_from_user. destruct (from_user arg k) as [bs|] eqn:E; [|done]. cbn. eauto. Qed.
Lemma keeps_copy_to arg bs : keeps n (λ _, True) (copy_to_user to_user arg bs).
Proof. apply keeps_inert, inert_copy_to. Qed.
Lemma keeps_struct layout arg : keeps n (fits layout) (read_struct from_user layout arg).
Proof.
  unfold read_struct. eapply call_bind; [apply keeps_copy_from|]. intros bs [_ Hb] st Hst. destruct (decode layout bs) as [[vals rest]|] eqn:E; [|done].
  split; [|done]. by apply decode_fits in E.
Qed.
Lemma of_le_8 bs : length bs = 8%nat ∧ Forall is_byte bs → in_width 64 (of_le bs).
Proof. intros [Hl Hb]. apply of_le_width in Hb. by rewrite Hl in Hb. Qed.
(** The fields of a struct, with their widths. *)
Ltac fields H := repeat (let v := fresh "v" in let Hv := fresh "Hv" in apply Forall2_cons_inv_l in H as (v & ? & Hv & H & ->)); apply Forall2_nil_inv_l in H as ->.
Ltac keep_struct := eapply call_bind; [apply keeps_struct|let vals := fresh "vals" in intros vals Hvals; fields Hvals].

Lemma keeps_rdrand_config arg : keeps n (λ _, True) (handle_set_rdrand_config from_user arg).
Proof.
  unfold handle_set_rdrand_config. keep_struct. destruct (rdrand_mode v) as [mode|]; [|apply call_throw].
  apply change_core; [|done]. intros s Hs. apply core_random; [|done]. destruct (vk_random _ Hs) as [Hr Hp Hg Hl Hi Hb].
  unfold configure. apply clear_request_ok. constructor; try done. destruct Hr. constructor; try done. by apply nonzero_seed_ok.
Qed.
Lemma keeps_rdrand_value arg : keeps n (λ _, True) (handle_set_rdrand_value from_user arg).
Proof.
  unfold handle_set_rdrand_value. eapply call_bind; [apply keeps_copy_from|]. intros bs Hb%of_le_8. apply change_core; [|done].
  intros s Hs. apply core_random; [|done]. destruct (vk_random _ Hs) as [Hr ? ? ? ? ?]. constructor; try done; [by destruct Hr; constructor|by intros ? [= <-]].
Qed.
Lemma keeps_random_bytes arg : keeps n (λ _, True) (handle_set_random_bytes from_user arg).
Proof.
  unfold handle_set_random_bytes. eapply call_bind; [apply keeps_copy_from|]. intros bs [_ Hb].
  destruct (decode random_bytes_head_layout bs) as [[vals data]|] eqn:E; [|apply keeps_stuck].
  pose proof (decode_length _ _ _ _ E) as [Ed Hv]. destruct vals as [|len [|? [|]]]; try apply keeps_stuck.
  apply change_core; [|done]. intros s Hs. apply core_random; [|done]. destruct (vk_random _ Hs) as [[? Hl ? ?] ? ? ? ? Hr].
  assert (Forall is_byte data) as Hd. { rewrite Ed in Hb. by apply Forall_app in Hb as [_ ?]. }
  unfold stage_reply. constructor; try done.
  - constructor; try done; cbn -[Nat.min take drop Z.of_nat]; [rewrite length_app, length_take, length_drop, Hl; lia|unfold RANDOM_REPLY_MAX; lia].
  - apply Forall_app. split; [by do 2 apply Forall_take|by apply Forall_drop].
Qed.
Lemma keeps_stop_tsc arg : keeps n (λ _, True) (handle_set_stop_tsc from_user arg).
Proof.
  unfold handle_set_stop_tsc. eapply call_bind; [apply keeps_copy_from|]. intros bs Hb%of_le_8. apply change_core; [|done].
  intros s []. constructor; try done. cbn. destruct (of_le bs =? 0); [done|]. by intros ? [= <-].
Qed.
Lemma keeps_single_step arg : keeps n (λ _, True) (handle_set_single_step from_user arg).
Proof.
  unfold handle_set_single_step. keep_struct. destruct (negb _).
  - apply change_core; [|done]. intros s []. constructor; try done. cbn. by intros ? ? [= <- <-].
  - eapply call_bind; [apply change_core; [|done]; intros s []; by constructor|]. intros _ _. apply change_core; [|done]. intros s. apply core_mtf.
Qed.
Lemma keeps_event_config buffer arg : keeps n (λ _, True) (set_event_config from_user buffer arg).
Proof.
  unfold set_event_config. keep_struct. intros st Hst. unfold mbind at 1, M_bind, state, gets. set (rest := λ _ : (), _).
  assert (keeps n (λ _, True) (rest ())) as Hk.
  { unfold rest. eapply call_bind; [apply keeps_change; intros s; apply ready_categories|]. intros _ _.
    destruct (exit_trigger_of v1); [|apply call_throw].
    eapply call_bind; [apply change_core; [|done]; intros s Hs; apply core_captured, core_set_field; [done|by destruct Hs; constructor]|]. intros _ _.
    eapply call_bind; [apply change_core; [|done]; intros s Hs; by apply core_set_field|]. intros _ _.
    eapply (call_bind n (λ _, True)); [by intros [f out]|]. intros _ _. apply change_core; [|done]. intros s []. by constructor. }
  unfold mbind, M_bind. destruct st as [f out]. cbn [fst]. set (s := vf_vcpu f) in *.
  destruct (event_buffer (events s)) as [m|] eqn:Eb, (negb (v =? 0)); cbn [andb negb].
  - by apply Hk.
  - apply Hk. by apply (ready_detach n s m).
  - destruct buffer as [fresh|]; [|done]. apply Hk. by apply (ready_attach n s).
  - by apply Hk.
Qed.
Lemma keeps_queue heap slot arg : keeps n (λ _, True) (handle_queue_io_action from_user heap slot arg).
Proof.
  unfold handle_queue_io_action. keep_struct. destruct (Z.ltb_spec BEDROCK_IO_CHANNEL_BUF_SIZE v); [apply call_throw|].
  destruct heap; cbn [negb]; [|apply call_throw].
  apply (call_bind n (λ data, (length data ≤ 4096)%nat ∧ Forall is_byte data)).
  { destruct (0 <? v); [|apply call_ret; split; [cbn; lia|constructor]]. intros st Hst. pose proof (keeps_copy_from (arg + IO_ACTION_DATA_OFFSET) (Z.to_nat v) st Hst) as Hc.
    destruct (copy_from_user _ _ _ st) as [[bs|e|] st']; [|done|done]. destruct Hc as [[Hl Hb] Hr]. split; [|done]. split; [|done].
    unfold BEDROCK_IO_CHANNEL_BUF_SIZE in *. lia. }
  intros data [Hl Hb]. eapply call_bind; [apply keeps_state|]. intros s ([Hc _ _] & _).
  pose proof (enqueue_ok slot (mkIoAction v1 data) (io_channel s) (vk_channel _ Hc)) as He.
  destruct (enqueue_pending slot _ (io_channel s)) as [[] chan]; try apply call_throw. apply change_core; [|done]. intros s' Hs'.
  apply core_channel; [|done]. apply promote_ok, He. by split.
Qed.
Lemma keeps_drain arg : keeps n (λ _, True) (handle_drain_io_response from_user to_user arg).
Proof.
  unfold handle_drain_io_response. keep_struct. destruct (_ <? v); [apply call_throw|]. eapply call_bind; [apply keeps_state|]. intros s _.
  eapply call_bind; [destruct (0 <? _); [apply keeps_copy_to|by apply call_ret]|]. intros _ _. eapply call_bind; [apply keeps_copy_to|]. intros _ _.
  apply change_core; [|done]. intros s' Hs'. apply core_channel; [|done]. apply set_response_len_ok; [done|apply Hs'].
Qed.

Lemma registers_are_guest f : f ∈ register_fields → hypervisor_field f = false.
Proof.
  assert (forallb (λ f, negb (hypervisor_field f)) register_fields = true) as H by (vm_compute; reflexivity).
  intros Hf. rewrite List.forallb_forall in H. apply list_elem_of_In, H, negb_true_iff in Hf. done.
Qed.
(** Setting the registers, also when a field cannot be written. *)
Lemma keeps_set_regs loads clears cap arg : cap_ok cap → keeps n (λ _, True) (handle_set_regs from_user loads clears cap arg).
Proof.
  intros Hcap. unfold handle_set_regs. eapply call_bind; [apply keeps_struct|]. intros vals Hv%of_struct_ok.
  assert (∀ s, ready n s → ready n (set_registers cap (of_struct vals) s).2) as Hs.
  { intros s Hr. unfold set_registers. rewrite (vm_done _ _ s () (with_gprs (g_gprs (of_struct vals)) s)) by done.
    destruct (write_fields_some (register_writes cap (of_struct vals)) (with_gprs (g_gprs (of_struct vals)) s)) as (l & [l2 Hp] & ->).
    pose proof (register_writes_ok cap (of_struct vals) Hcap Hv) as Hw. pose proof (register_writes_fields cap (of_struct vals)) as Hf.
    rewrite Hp in Hw, Hf. apply Forall_app in Hw as [Hw _]. destruct Hr as ([Hc Ho Hk] & Hl & Ha). split; [|split; [done|]].
    - constructor; [|done|done]. pose proof (apply_writes_ok _ _ Hw (vk_vmcs _ Hc)). pose proof (go_gprs _ Hv). destruct Hc. by constructor.
    - apply (at_rest_vmcs n s); [|done]. intros f Hf'. cbn. apply apply_writes_other. intros Hin.
      assert (f ∈ register_fields) as Hin' by (rewrite <-Hf, fmap_app; apply elem_of_app; by left).
      by rewrite (registers_are_guest f Hin') in Hf'. }
  intros [f out] Hst. unfold on_vm, set_registers_guarded, vmcs_guarded. destruct loads; [|by destruct f]. cbn [negb]. specialize (Hs _ Hst). cbn in Hs.
  destruct (set_registers cap (of_struct vals) (vf_vcpu f)) as [[[]|e|] s']; destruct clears; cbn; done.
Qed.

(** No call but RUN leaves a VM that cannot be run. *)
Lemma keeps_serve loads clears heap slot cap buffer stack run_call r arg :
  cap_ok cap → r ≠ RUN → keeps n (λ _, True) (serve from_user to_user loads clears heap slot cap buffer stack run_call r arg).
Proof.
  intros Hcap Hr. destruct r; cbn [serve]; try done.
  - apply keeps_inert. unfold handle_get_regs. apply inert_bind; [apply inert_get_regs|]. intros. apply inert_copy_to.
  - by apply keeps_set_regs.
  - apply keeps_rdrand_config.
  - apply keeps_rdrand_value.
  - apply keeps_single_step.
  - apply keeps_inert, inert_bind; [apply inert_gets|]. intros. apply inert_copy_to.
  - apply keeps_stop_tsc.
  - apply keeps_inert, inert_bind; [apply inert_gets|]. intros. apply inert_copy_to.
  - unfold handle_get_feedback_buffer_info. keep_struct. apply keeps_inert, inert_bind; [apply inert_gets|]. intros. apply inert_copy_to.
  - apply keeps_queue.
  - apply keeps_drain.
  - apply keeps_event_config.
  - apply keeps_inert, inert_bind; [apply inert_gets|]. intros. apply inert_copy_to.
  - apply keeps_random_bytes.
Qed.
End Calls.

(** ** The VMs that come about *)

(** The host's registers whose values the constructors of a VM save. *)
Definition saved : list Z := [IA32_STAR; IA32_LSTAR; IA32_CSTAR; IA32_FMASK] ++ swapped.*1.
Definition same_host (msrs msrs' : gmap Z Z) : Prop := ∀ m, m ∈ saved → msrs !! m = msrs' !! m.
Definition with_state (st : run_state * Vcpu) (vm : VmState) : VmState :=
  mkVmState st.2 st.1 (vs_bitmap vm) (vs_bitmap_pa vm) (vs_exit_list vm) (vs_exit_list_pa vm) (vs_entry_indexes vm) (vs_xsave vm) (vs_vpid vm).
(** The caller's memory: copies have the length asked for, and are bytes. *)
Definition user_ok (from_user : Z → nat → option (list Z)) : Prop := ∀ arg k bs, from_user arg k = Some bs → length bs = k ∧ Forall is_byte bs.

Section Life.
Context {R : Type} `{!GuestMem R} `{!GuestMemSpec R}.
Implicit Types (vm : VmState) (r : R).
Definition vm_state vm r : run_state * (Vcpu * R) := (vs_run vm, (vs_vcpu vm, r)).

(** A VM and its memory: created; forked from another; after a call on its
    descriptor, also a failed one; after a RUN that did not fail with an error of
    the run; and after the host did something else, changing its registers but the
    saved ones and, through the mapping of it, memory. *)
Inductive life : VmState → R → Prop :=
| life_created me rip eptp freq vm r :
    machine_ok me → in_width 64 rip → in_width 64 eptp → in_width 64 freq → gm_ok r →
    new me rip eptp freq = Ok vm → life vm r
| life_forked me parent_clears parent rp eptp child r :
    life parent rp → machine_ok me → in_width 64 eptp → gm_ok r → same_host (pr_msrs (me_processor me)) (rn_msrs (vs_run parent)) →
    new_for_fork me parent_clears parent eptp = Ok child → life child r
| life_call vm r from_user to_user loads clears heap slot cap buffer stack run_call req arg id hash out o f' out' :
    life vm r → user_ok from_user → cap_ok cap → req ≠ RUN → o ≠ Stuck →
    serve from_user to_user loads clears heap slot cap buffer stack run_call req arg (mkFile id (vs_vcpu vm) hash, out) = (o, (f', out')) →
    life (with_state (vs_run vm, vf_vcpu f') vm) r
| life_run vm r envs refill iterations skip to_user fuel arg children o rf' :
    life vm r → host_ok envs refill iterations → o ≠ Fail EIO → o ≠ Fail EOPNOTSUPP →
    handle_run envs refill iterations skip to_user fuel arg (mkRunFile children false (vm_state vm r)) = (Some o, rf') →
    life (with_state ((rf_vm rf').1, (rf_vm rf').2.1) vm) (rf_vm rf').2.2
| life_elsewhere vm r r' msrs :
    life vm r → map_Forall (λ _ v, in_width 64 v) msrs → same_host msrs (rn_msrs (vs_run vm)) → gm_ok r' →
    life (with_state (with_msrs msrs (vs_run vm), vs_vcpu vm) vm) r'.

Lemma at_rest_msrs n s msrs : same_host msrs (rn_msrs n) → at_rest n s → at_rest (with_msrs msrs n) s.
Proof.
  intros Hm [H0 H1 H2 H3 H4 H5 H6 H7]. constructor; cbn; try done.
  1-4: intros v; rewrite Hm by (by apply list_in); auto.
  intros m f v Hin Hm1 Hm2. rewrite Hm; [by apply H5|]. apply elem_of_app. right. apply list_elem_of_fmap. by exists (m, f).
Qed.

Lemma life_idle vm r : life vm r → idle (vm_state vm r).
Proof.
  induction 1 as [me rip eptp freq vm r Hme H1 H2 H3 Hr E|me pc parent rp eptp child r _ (Hn & Hs & _ & Hl & Ha) Hme He Hr Hh E
    |vm r fu tu ld cl hp sl cap buf stk rc req arg id hash out o f' out' _ (Hn & Hs & Hr & Hl & Ha) Hu Hc Hne Ho E
    |vm r envs refill its skip tu fuel arg ch o rf' _ IH Hh Ho1 Ho2 E|vm r r' msrs _ (Hn & Hs & _ & Hl & Ha) Hw Hh Hr].
  - destruct (new_state_ok me rip eptp freq vm) as [Hv Hn]; [done..|]. split_and!; [done..| |by apply (new_at_rest me rip eptp freq)].
    apply new_Ok in E as (b & e & _ & _ & ->). done.
  - destruct (fork_ok me pc parent eptp child) as [Hv Hn']; [done..|]. split_and!; [done..| |].
    + apply fork_Ok in E as (b & e & _ & _ & ->). done.
    + apply (fork_at_rest me pc parent eptp); [done|]. by apply at_rest_msrs.
  - pose proof (keeps_serve fu tu (vs_run vm) (λ a k bs H, proj1 (Hu a k bs H)) (λ a k bs H, proj2 (Hu a k bs H)) ld cl hp sl cap buf stk rc req arg Hc Hne
      (mkFile id (vs_vcpu vm) hash, out) (conj Hs (conj Hl Ha))) as Hk. rewrite E in Hk.
    assert (ready (vs_run vm) (vf_vcpu f')) as (? & ? & ?) by (by destruct o as [a|e|]; [destruct Hk| |]). by split_and!.
  - destruct (run_call_ok envs refill its skip tu fuel arg (mkRunFile ch false (vm_state vm r)) Hh IH) as (o' & rf & E' & Hs).
    rewrite E' in E. injection E as -> ->. destruct Hs as (_ & _ & _ & _ & _ & _ & [?|[?|Hi]] & _); [congruence|congruence|]. by destruct (rf_vm rf') as [? []].
  - split_and!; try done; [by destruct Hn; constructor|by apply at_rest_msrs].
Qed.

(** C2: every VM that comes about can be run, and the host survives it.  Take a VM
    that any sequence of creation, forks, calls with any arguments, successful or
    not, and earlier runs led to, and a host on which stays move registers as
    hardware does and every attempt sees the scheduler ask for the processor.  RUN
    on the VM never panics; when it returns, with a reason or an error number, the
    VM is no longer marked as running, a reason is one for userspace and never the
    exhaustion of the page pool, and every model-specific register of the host but
    the counting ones has its value of before, also those the guest uses directly.
    The one exception is a failed VMPTRLD or INVEPT: the call then returns EIO, and
    the four system-call registers may be the guest's.  Unless the run failed with
    an error, the VM is again one of these.  RUN has not returned after [fuel]
    attempts only if the page pool could be refilled before each of them. *)
Theorem every_vm_runs vm r envs refill iterations skip to_user fuel arg :
  life vm r → host_ok envs refill iterations →
  ∃ o rf', handle_run envs refill iterations skip to_user fuel arg (mkRunFile 0 false (vm_state vm r)) = (o, rf') ∧
    o ≠ Some Stuck ∧ rf_running rf' = bool_decide (o = None) ∧
    (∀ m, m ∉ counting → m ≠ IA32_PERFEVTSEL0 → (m ∈ syscall_msrs → o = Some (Fail EIO) → loads envs fuel) →
       rn_msrs (rf_vm rf').1 !! m = rn_msrs (vs_run vm) !! m) ∧
    (∀ w, o = Some (Done w) → ∃ reason, reason ≠ PoolExhausted ∧ w = [(arg, exit_info reason (rf_vm rf'))]) ∧
    (∀ e, o = Some e → e ≠ Fail EIO → e ≠ Fail EOPNOTSUPP → life (with_state ((rf_vm rf').1, (rf_vm rf').2.1) vm) (rf_vm rf').2.2) ∧
    (o = None → ∀ attempt, (0 < attempt < fuel)%nat → ∃ memory, is_Some (refill attempt memory)).
Proof.
  intros Hlife Hh. destruct (run_call_ok envs refill iterations skip to_user fuel arg (mkRunFile 0 false (vm_state vm r)) Hh (life_idle vm r Hlife))
    as (o & rf' & E & Hs). exists o, rf'. split; [done|]. destruct Hs as (Ho & Hr & [Hm1 Hm2] & _ & _ & _ & _ & _ & Hw & Hl).
  split; [done|]. split; [done|]. split; [|split; [done|]; split; [|done]].
  - intros m H1 H2 Hsys. destruct (decide (m ∈ syscall_msrs)) as [Hin|Hin]; [|by apply Hm2]. apply Hm1; [|done..].
    destruct o as [[a|e|]|]; [by left| |by left..]. destruct (decide (e = EIO)) as [->|]; [right; by apply Hsys|left; congruence].
  - intros e -> He1 He2. by eapply life_run.
Qed.
End Life.

(** *** A VM's first run *)
Lemma every_vm_runs_witness : ∃ o rf',
  handle_run (λ _, demo_env true) (λ _ _, None) 1 true (λ _ _, true) 2 0x1000 (mkRunFile 0 false (vm_state demo_vm demo_guest)) = (Some o, rf') ∧
  o ≠ Stuck ∧ rf_running rf' = false ∧ rn_msrs (rf_vm rf').1 !! IA32_LSTAR = rn_msrs (vs_run demo_vm) !! IA32_LSTAR.
Proof.
  pose proof (life_created demo_machine 0x7000 0x5000 1000 demo_vm demo_guest demo_machine_env_ok ltac:(by apply width_const) ltac:(by apply width_const)
    ltac:(by apply width_const) demo_guest_ok demo_vm_new) as Hlife.
  destruct (every_vm_runs demo_vm demo_guest (λ _, demo_env true) (λ _ _, None) 1 true (λ _ _, true) 2 0x1000 Hlife demo_attempts_ok)
    as (o & rf' & E & Ho & Hr & Hm & _ & _ & Hl).
  destruct o as [o|]; [|destruct (Hl eq_refl 1%nat ltac:(lia)) as [? [? [=]]]].
  exists o, rf'. split; [exact E|]. split; [congruence|]. split; [exact Hr|].
  apply (Hm IA32_LSTAR (list_dec counting IA32_LSTAR eq_refl) ltac:(discriminate)). intros _ _ i _. by split.
Defined.
(** A guest that executes until the scheduler wants the processor: the reason is reported. *)
Lemma demo_vm_runs :
  match (handle_run (λ _, demo_env true) (λ _ _, None) 1 true (λ _ _, true) 2 0x1000 (mkRunFile 0 false (demo_run, (demo_launch, demo_guest)))).1 with
  | Some (Done [(arg, info)]) => arg = 0x1000 ∧ length info = 48%nat
  | _ => False
  end.
Proof. vm_compute. by split. Qed.
