(* ===== verification/Boot.v ===== *)
(** * The image a guest boots from (crate [bedrock-vm]: [boot/])

    Userspace fills the memory of a new root VM before its first run: a kernel
    loaded from an ELF file, page tables, descriptor tables, the tables that
    describe processor and I/O APIC, the boot parameters with the map of memory,
    the command line and an initial file system; and it sets the registers.  The
    memory is a slice: an access outside it panics.  The ELF parser is a library,
    a parameter here.

    The theorems: loading a kernel puts every segment where it belongs or reports
    an error; the builders write inside their regions, which do not overlap for
    the sizes of memory stated, so that one call leaves all of them in place; and
    a guest started with the registers it sets, whose page tables the hypervisor
    walks, sees its memory at identical and at high addresses, and nothing else. *)
From stdpp Require Import strings.
From S2P Require Import Prelude VmMemory Wire EventLog Random Rtc Apic Vcpu GuestMem Relational Precise Handlers Safety Emulation Mmio ExitLog IoChannel Vmcall Ioctl Dispatch Footprint Run HostState Setup Registers.

(** ** Layout ([boot/constants.rs]) *)
Definition GDT_ADDR : Z := 0x500.
Definition TSS_ADDR : Z := 0x600.
Definition PML4_ADDR : Z := 0x1000.
Definition PDPT_LOW_ADDR : Z := 0x2000.
Definition PDPT_HIGH_ADDR : Z := 0x3000.
Definition BOOT_PARAMS_ADDR : Z := 0x4000.
Definition PD_ADDR : Z := 0x8000.
Definition CMDLINE_ADDR : Z := 0x20000.
Definition MPTABLE_BASE : Z := 0xF0000.
Definition PTE_PRESENT : Z := Z.shiftl 1 0.
Definition PTE_WRITABLE : Z := Z.shiftl 1 1.
Definition PAGE_SIZE_2MB : Z := Z.shiftl 1 7.

(** ** Memory *)

(** [&mut [u8]]. *)
Record slice := mkSlice { sl_len : Z; sl_at : Z → Z }.
Implicit Types m : slice.
Inductive BootError :=
| ElfParse | NotX86_64 | SegmentOverflow | SegmentExceedsMemory | FileOffsetOverflow | SegmentExceedsFile
| ForkedVm_no_access | NoMemoryAccess | InitramfsTooLarge | SetRegs.
Notation BM := (M slice BootError).
(** [memory[off..off + n].copy_from_slice(bs)], and [memory[off] = b]. *)
Definition put (off : Z) (bs : list Z) : BM () := λ m,
  if off + Z.of_nat (length bs) <=? sl_len m then (Done (), mkSlice (sl_len m) (store (sl_at m) off bs)) else (Stuck, m).
Definition puts (l : list (Z * list Z)) : BM () := for_each l (λ '(off, bs), put off bs).
Definition write_u64 (off value : Z) : BM () := put off (le_bytes 8 value).

(** ** Page tables ([boot/page_tables.rs]) *)
Definition num_gb (memory_size : Z) : Z := Z.max ((memory_size + 2 ^ 30 - 1) / 2 ^ 30) 4.
Definition pt_flags (addr : Z) : Z := Z.lor (Z.lor addr PTE_PRESENT) PTE_WRITABLE.
Definition setup_page_tables (memory_size : Z) : BM () :=
  let n := num_gb memory_size in
  let pt_end := PD_ADDR + n * 4096 in
  for_range (Z.to_nat (pt_end - PML4_ADDR)) (λ i,
    len ← gets sl_len;
    if PML4_ADDR + Z.of_nat i <? len then put (PML4_ADDR + Z.of_nat i) [0] else mret ());;
  write_u64 PML4_ADDR (pt_flags PDPT_LOW_ADDR);;
  write_u64 (PML4_ADDR + 511 * 8) (pt_flags PDPT_HIGH_ADDR);;
  for_range (Z.to_nat n) (λ i,
    write_u64 (PDPT_LOW_ADDR + Z.of_nat i * 8) (pt_flags (PD_ADDR + Z.of_nat i * 4096)));;
  for_range (Z.to_nat (Z.min n 2)) (λ i,
    write_u64 (PDPT_HIGH_ADDR + (510 + Z.of_nat i) * 8) (pt_flags (PD_ADDR + Z.of_nat i * 4096)));;
  for_range (Z.to_nat n) (λ gb_idx,
    let pd_base := PD_ADDR + Z.of_nat gb_idx * 4096 in
    for_range 512 (λ i,
      let phys_addr := (Z.of_nat gb_idx * 512 + Z.of_nat i) * 2 ^ 21 in
      if phys_addr <? memory_size then write_u64 (pd_base + Z.of_nat i * 8) (Z.lor (pt_flags phys_addr) PAGE_SIZE_2MB)
      else mret ())).

(** ** Descriptors ([boot/gdt.rs]) *)
Definition code_seg : Z := 0x00AF9A000000FFFF.
Definition data_seg : Z := 0x00CF92000000FFFF.
Definition tss_low : Z :=
  Z.lor (Z.lor (Z.lor 0x67 (Z.shiftl (Z.land TSS_ADDR 0xFFFFFF) 16)) (Z.shiftl 0x89 40)) (Z.shiftl (Z.land (Z.shiftr TSS_ADDR 24) 0xFF) 56).
Definition tss_high : Z := Z.shiftr TSS_ADDR 32.
Definition setup_gdt : BM (Z * Z) :=
  for_range 64 (λ i, put (GDT_ADDR + Z.of_nat i) [0]);;
  write_u64 (GDT_ADDR + 0x10) code_seg;;
  write_u64 (GDT_ADDR + 0x18) data_seg;;
  write_u64 (GDT_ADDR + 0x20) tss_low;;
  write_u64 (GDT_ADDR + 0x28) tss_high;;
  for_range 104 (λ i, put (TSS_ADDR + Z.of_nat i) [0]);;
  mret (GDT_ADDR, 0x30 - 1).

(** ** Tables of processor and I/O APIC ([boot/mptable.rs]) *)
Definition LAPIC_PADDR : Z := 0xFEE00000.
Definition LAPIC_VERSION : Z := 0x14.
Definition IOAPIC_PADDR : Z := 0xFEC00000.
Definition IOAPIC_ID : Z := 1.
Definition IOAPIC_VERSION : Z := 0x11.
Definition SPEC_REV : Z := 4.
Definition ascii_bytes (s : string) : list Z := (λ c, Z.of_nat (Ascii.nat_of_ascii c)) <$> String.list_ascii_of_string s.
Definition mp_checksum (data : list Z) : Z := u8 (0 - fold_left (λ acc b, u8 (acc + b)) data 0).
(** A field at the running offset: the offset after it. *)
Definition append (bs : list Z) (offset : Z) : BM Z := put offset bs;; mret (offset + Z.of_nat (length bs)).
Fixpoint append_all (l : list (list Z)) (offset : Z) : BM Z :=
  match l with
  | [] => mret offset
  | bs :: l => offset ← append bs offset; append_all l offset
  end.
Definition read_bytes (first last : Z) : BM (list Z) := demand (λ m,
  if (first <=? last) && (last <=? sl_len m) then Some (load (sl_at m) first (Z.to_nat (last - first))) else None).
Definition processor_entry : list (list Z) :=
  let cpu_signature := Z.lor (Z.lor (Z.shiftl 6 8) (Z.shiftl 5 4)) 7 in
  [[0]; [0]; [LAPIC_VERSION]; [0x03]; le_bytes 4 cpu_signature; le_bytes 4 0xBFEBFBFF; replicate 8 0].
Definition bus_entry : list (list Z) := [[1]; [0]; ascii_bytes "ISA   "].
Definition ioapic_entry : list (list Z) := [[2]; [IOAPIC_ID]; [IOAPIC_VERSION]; [0x01]; le_bytes 4 IOAPIC_PADDR].
Definition io_interrupt_entry (irq : Z) : list (list Z) := [[3]; [0]; le_bytes 2 0; [0]; [irq]; [IOAPIC_ID]; [irq]].
Definition local_interrupt_entry (type lintin : Z) : list (list Z) := [[4]; [type]; le_bytes 2 0; [0]; [0]; [0xFF]; [lintin]].
Definition setup_mptable : BM () :=
  let mpfp_addr := MPTABLE_BASE in
  checksum_offset ← append_all [ascii_bytes "_MP_"; le_bytes 4 (MPTABLE_BASE + 16); [1]; [SPEC_REV]] mpfp_addr;
  config_table_start ← append_all [[0]; [0; 0; 0; 0; 0]] checksum_offset;
  fp ← read_bytes mpfp_addr (mpfp_addr + 16);
  put checksum_offset [mp_checksum fp];;
  length_offset ← append_all [ascii_bytes "PCMP"] config_table_start;
  config_checksum_offset ← append_all [le_bytes 2 0; [SPEC_REV]] length_offset;
  entry_count_offset ← append_all [[0]; ascii_bytes "BEDROCK "; ascii_bytes "Hypervisor  "; le_bytes 4 0; le_bytes 2 0] config_checksum_offset;
  offset ← append_all [le_bytes 2 0; le_bytes 4 LAPIC_PADDR; le_bytes 2 0; [0]; [0]] entry_count_offset;
  offset ← append_all processor_entry offset;
  offset ← append_all bus_entry offset;
  offset ← append_all ioapic_entry offset;
  offset ← append_all (io_interrupt_entry 4) offset;
  offset ← append_all (io_interrupt_entry IO_CHANNEL_IRQ) offset;
  offset ← append_all (local_interrupt_entry 3 0) offset;
  offset ← append_all (local_interrupt_entry 1 1) offset;
  let entry_count := 1 + 1 + 1 + 2 + 1 + 1 in
  put entry_count_offset (le_bytes 2 entry_count);;
  put length_offset (le_bytes 2 (u16 (offset - config_table_start)));;
  table ← read_bytes config_table_start offset;
  put config_checksum_offset [mp_checksum table].

(** ** Boot parameters and command line ([boot/params.rs]) *)
Definition E820_RAM : Z := 1.
Definition E820_RESERVED : Z := 2.
Record E820Entry := mkE820 { e820_addr : Z; e820_size : Z; e820_type : Z }.
(** [&mut memory[base..][..n]]. *)
Definition window (base n : Z) : BM () := demand (λ m, if base + n <=? sl_len m then Some () else None).
(** A write to the page of parameters, at an offset of that page. *)
Definition write_param (off : Z) (bs : list Z) : BM () :=
  if off + Z.of_nat (length bs) <=? 4096 then put (BOOT_PARAMS_ADDR + off) bs else stuck.
Definition write_u8 (off val : Z) : BM () := write_param off [val].
Definition write_u16 (off val : Z) : BM () := write_param off (le_bytes 2 val).
Definition write_u32 (off val : Z) : BM () := write_param off (le_bytes 4 val).
Definition E820_TABLE : Z := 0x2D0.
Definition e820_map (memory_size : Z) : list E820Entry :=
  [mkE820 0 0x9FC00 E820_RAM; mkE820 0x9FC00 0x400 E820_RESERVED; mkE820 0xA0000 0x60000 E820_RESERVED;
   mkE820 0x100000 (memory_size -! 0x100000) E820_RAM].
Definition setup_e820_table (memory_size : Z) : BM () :=
  let entries := e820_map memory_size in
  write_u8 0x1E8 (u8 (Z.of_nat (length entries)));;
  for_each (imap pair entries) (λ '(i, entry),
    let offset := E820_TABLE + Z.of_nat i * 20 in
    write_param offset (le_bytes 8 (e820_addr entry));;
    write_param (offset + 8) (le_bytes 8 (e820_size entry));;
    write_param (offset + 16) (le_bytes 4 (e820_type entry))).
Definition setup_boot_params (memory_size : Z) (cmdline : list Z) (initramfs_addr initramfs_size : option Z) : BM () :=
  window BOOT_PARAMS_ADDR 4096;;
  put BOOT_PARAMS_ADDR (replicate 4096 0);;
  write_u8 0x1F1 0;;
  write_u16 0x1FE 0xAA55;;
  write_u32 0x202 0x53726448;;
  write_u16 0x206 0x020F;;
  write_u8 0x210 0xFF;;
  write_u8 0x211 (Z.lor 1 0x80);;
  (if initramfs_addr is Some addr then write_u32 0x218 (u32 addr) else mret ());;
  (if initramfs_size is Some size then write_u32 0x21C (u32 size) else mret ());;
  write_u16 0x224 0xFE00;;
  write_u32 0x228 (u32 CMDLINE_ADDR);;
  write_u32 0x238 (u32 (Z.of_nat (length cmdline)));;
  setup_e820_table memory_size.
Definition write_cmdline (cmdline : list Z) : BM () :=
  let n := Z.of_nat (length cmdline) in
  window CMDLINE_ADDR (n + 1);;
  put CMDLINE_ADDR cmdline;;
  put (CMDLINE_ADDR + n) [0].

(** ** The kernel ([boot/elf.rs]) *)
Definition EM_X86_64 : Z := 62.
Definition PT_LOAD : Z := 1.
(** What the parser of ELF files returns. *)
Record ProgramHeader := mkPhdr { p_type : Z; p_offset : Z; p_filesz : Z; p_memsz : Z; p_paddr : Z }.
Record Elf := mkElf { e_machine : Z; elf_entry : Z; program_headers : list ProgramHeader }.
Definition checked_add (a b : Z) : option Z := if a + b <? 2 ^ 64 then Some (a + b) else None.
Definition fill_zero (first last : Z) : BM () :=
  if first <=? last then put first (replicate (Z.to_nat (last - first)) 0) else stuck.
Definition sub_slice (data : list Z) (first last : Z) : list Z := take (Z.to_nat (last - first)) (drop (Z.to_nat first) data).
Definition load_segment (kernel_data : list Z) (phdr : ProgramHeader) : BM Z :=
  match checked_add (p_paddr phdr) (p_memsz phdr) with
  | None => throw SegmentOverflow
  | Some mem_end =>
      len ← gets sl_len;
      if len <? mem_end then throw SegmentExceedsMemory
      else match checked_add (p_offset phdr) (p_filesz phdr) with
           | None => throw FileOffsetOverflow
           | Some file_end =>
               if Z.of_nat (length kernel_data) <? file_end then throw SegmentExceedsFile
               else
                 put (p_paddr phdr) (sub_slice kernel_data (p_offset phdr) file_end);;
                 fill_zero (p_paddr phdr + p_filesz phdr) mem_end;;
                 mret mem_end
           end
  end.
Fixpoint load_segments (kernel_data : list Z) (l : list ProgramHeader) (kernel_end : Z) : BM Z :=
  match l with
  | [] => mret kernel_end
  | phdr :: l => mem_end ← load_segment kernel_data phdr; load_segments kernel_data l (Z.max kernel_end mem_end)
  end.
Definition loadable (l : list ProgramHeader) : list ProgramHeader := filter (λ p, p_type p = PT_LOAD) l.
Definition load_kernel (parse : list Z → option Elf) (kernel_data : list Z) : BM (Z * Z) :=
  match parse kernel_data with
  | None => throw ElfParse
  | Some elf =>
      if negb (e_machine elf =? EM_X86_64) then throw NotX86_64
      else
        kernel_end ← load_segments kernel_data (loadable (program_headers elf)) 0;
        mret (elf_entry elf, kernel_end)
  end.

(** ** Registers ([boot/regs.rs]) *)
Definition linux_boot_regs (kernel_entry gdt_base gdt_limit : Z) : GuestRegisters :=
  let regs := long_mode in
  let c := g_control regs in
  let code_ar := fold_left Z.lor [SEG_S; CODE_SEGMENT; CODE_READABLE; CODE_ACCESSED; LONG_MODE] PRESENT in
  let data_ar := fold_left Z.lor [SEG_S; DATA_WRITABLE; DATA_ACCESSED] PRESENT in
  mkRegisters (λ r, match r with RSI => BOOT_PARAMS_ADDR | RSP => BOOT_PARAMS_ADDR | _ => g_gprs regs r end)
    (mkControl (cr0 c) (cr2 c) PML4_ADDR (cr4 c) (cr8 c)) (g_debug regs)
    (λ s, match s with
          | SegCs => mkSegment 0x10 code_ar 0 0
          | SegTr => mkSegment 0x20 (Z.lor PRESENT 0x0B) 0x67 TSS_ADDR
          | SegLdtr => mkSegment 0 UNUSABLE 0 0
          | _ => mkSegment 0x18 data_ar 0 0
          end)
    (mkTable gdt_base gdt_limit) (g_idtr regs) (g_efer regs) kernel_entry RFLAGS_RESERVED.

(** ** [Vm::setup_linux_boot] ([boot/linux.rs])

    [forked] is the VM's flag; a VM with mapped memory has the slice of all of
    it.  [set_regs] answers the ioctl. *)
Record LinuxBootConfig := mkBootConfig { kernel_entry : Z; kernel_end : Z; bc_initramfs : option (list Z); bc_cmdline : list Z }.
Record LinuxBootInfo := mkBootInfo { bi_gdt_base : Z; bi_gdt_limit : Z; bi_initramfs_addr : option Z; bi_initramfs_size : option Z }.
Definition ALIGN_2MB : Z := 0x1FFFFF.
Definition initramfs_base (kernel_end : Z) : Z := Z.ldiff (kernel_end +! ALIGN_2MB) ALIGN_2MB.
Definition load_initramfs (memory_size kernel_end : Z) (initramfs : option (list Z)) : BM (option Z * option Z) :=
  match initramfs with
  | Some data =>
      let addr := initramfs_base kernel_end in
      let size := Z.of_nat (length data) in
      let end_ := addr +! size in
      if memory_size <? end_ then throw InitramfsTooLarge
      else put addr data;; mret (Some addr, Some size)
  | None => mret (None, None)
  end.
Definition setup_linux_boot (forked mapped : bool) (set_regs : GuestRegisters → bool) (config : LinuxBootConfig) : BM LinuxBootInfo :=
  if forked then throw ForkedVm_no_access
  else
    memory_size ← gets sl_len;
    if negb mapped then throw NoMemoryAccess
    else
      '(gdt_base, gdt_limit) ← setup_gdt;
      setup_page_tables memory_size;;
      setup_mptable;;
      '(initramfs_addr, initramfs_size) ← load_initramfs memory_size (kernel_end config) (bc_initramfs config);
      setup_boot_params memory_size (bc_cmdline config) initramfs_addr initramfs_size;;
      write_cmdline (bc_cmdline config);;
      if set_regs (linux_boot_regs (kernel_entry config) gdt_base gdt_limit)
      then mret (mkBootInfo gdt_base gdt_limit initramfs_addr initramfs_size)
      else throw SetRegs.

(** The boot of a root VM by the command line ([bedrock-cli]: [main]). *)
Definition boot_root (parse : list Z → option Elf) (set_regs : GuestRegisters → bool) (kernel_data : list Z) (initramfs : option (list Z)) (cmdline : list Z) : BM LinuxBootInfo :=
  '(entry, end_) ← load_kernel parse kernel_data;
  setup_linux_boot false true set_regs (mkBootConfig entry end_ initramfs cmdline).

(** * Lemmas *)

(** ** Running without an error *)
Definition runs {A} (k : BM A) m (Q : A → slice → Prop) : Prop := match k m with (Done a, m') => Q a m' | _ => False end.
Lemma runs_triple {A} (k : BM A) m Q : triple (λ m', m' = m) k Q (λ _ _, False) ↔ runs k m Q.
Proof. unfold triple, runs. split; [intros H; specialize (H m eq_refl); by destruct (k m) as [[]]|intros H m' ->; by destruct (k m) as [[]]]. Qed.
Lemma runs_bind {A B} (k : BM A) (f : A → BM B) m Q Q' :
  runs k m Q → (∀ a m', Q a m' → runs (f a) m' Q') → runs (k ≫= f) m Q'.
Proof. unfold runs, mbind, M_bind. intros Hk Hf. destruct (k m) as [[a| |] m']; [by apply Hf|done..]. Qed.
Lemma runs_mono {A} (k : BM A) m (Q Q' : A → slice → Prop) : runs k m Q → (∀ a m', Q a m' → Q' a m') → runs k m Q'.
Proof. unfold runs. intros Hk Hf. destruct (k m) as [[a| |] m']; auto. Qed.
Lemma runs_done {A} (k : BM A) m Q : runs k m Q → ∃ a m', k m = (Done a, m') ∧ Q a m'.
Proof. unfold runs. destruct (k m) as [[a| |] m']; [eauto|done..]. Qed.
Lemma runs_for_range n (body : nat → BM ()) (I : nat → slice → Prop) m :
  I 0%nat m → (∀ i m', (i < n)%nat → I i m' → runs (body i) m' (λ _, I (S i))) → runs (for_range n body) m (λ _, I n).
Proof.
  intros H0 Hb. apply runs_triple. eapply triple_conseq; [apply (triple_for_range n body I (λ _ _, False))|by intros s ->|done|done].
  intros i Hi s Hs. specialize (Hb i s Hi Hs). unfold runs in Hb. by destruct (body i s) as [[]].
Qed.

(** ** Regions *)

(** Nothing changes outside [lo, hi). *)
Definition outside (lo hi : Z) m m' : Prop := sl_len m' = sl_len m ∧ ∀ a, a < lo ∨ hi ≤ a → sl_at m' a = sl_at m a.
(** The bytes at [base] are [bs], and nothing else changes. *)
Definition holds (base : Z) (bs : list Z) m m' : Prop :=
  outside base (base + Z.of_nat (length bs)) m m' ∧ load (sl_at m') base (length bs) = bs.
Definition written (off : Z) (bs : list Z) m : slice := mkSlice (sl_len m) (store (sl_at m) off bs).

Lemma outside_refl lo hi m : outside lo hi m m.
Proof. done. Qed.
Lemma outside_trans lo hi m1 m2 m3 : outside lo hi m1 m2 → outside lo hi m2 m3 → outside lo hi m1 m3.
Proof. intros [L1 H1] [L2 H2]. split; [congruence|]. intros a Ha. by rewrite H2, H1. Qed.
Lemma outside_weaken lo hi lo' hi' m m' : lo' ≤ lo → hi ≤ hi' → outside lo hi m m' → outside lo' hi' m m'.
Proof. intros ?? [L H]. split; [done|]. intros a Ha. apply H. lia. Qed.
Lemma outside_load lo hi m m' a n : outside lo hi m m' → a + Z.of_nat n ≤ lo ∨ hi ≤ a → load (sl_at m') a n = load (sl_at m) a n.
Proof.
  intros [_ H] Ha. apply list_eq_same_length with n; rewrite ?length_load; [done|done|].
  intros i x y Hi. rewrite !lookup_load by done. rewrite H by lia. congruence.
Qed.
Lemma outside_written off bs m : outside off (off + Z.of_nat (length bs)) m (written off bs m).
Proof. split; [done|]. intros a Ha. by apply store_ne. Qed.
Lemma put_done off bs m : off + Z.of_nat (length bs) ≤ sl_len m → put off bs m = (Done (), written off bs m).
Proof. intros H. unfold put. by rewrite (proj2 (Z.leb_le _ _) H). Qed.
Lemma runs_put off bs m (Q : () → slice → Prop) : off + Z.of_nat (length bs) ≤ sl_len m → Q () (written off bs m) → runs (put off bs) m Q.
Proof. intros H. unfold runs. by rewrite put_done. Qed.

Lemma holds_nil base m : holds base [] m m.
Proof. split; [apply outside_refl|done]. Qed.
Lemma holds_app base bs bs' m0 m : holds base bs m0 m → holds base (bs ++ bs') m0 (written (base + Z.of_nat (length bs)) bs' m).
Proof.
  intros [Ho Hl]. split; [|eapply load_store_app; [done|done]].
  rewrite length_app. eapply outside_trans; [|eapply outside_weaken; [..|apply outside_written]; lia].
  eapply outside_weaken; [..|done]; lia.
Qed.
Lemma holds_patch base bs off bs' m0 m :
  holds base bs m0 m → base ≤ off → off + Z.of_nat (length bs') ≤ base + Z.of_nat (length bs) →
  holds base (list_inserts (Z.to_nat (off - base)) bs' bs) m0 (written off bs' m).
Proof.
  intros [Ho Hl] H1 H2. split; rewrite length_inserts.
  - eapply outside_trans; [done|]. eapply outside_weaken; [..|apply outside_written]; lia.
  - cbn [sl_at written]. rewrite load_store_inserts by done. by rewrite Hl.
Qed.
Lemma holds_zeros n base m : base + Z.of_nat n ≤ sl_len m →
  runs (for_range n (λ i, put (base + Z.of_nat i) [0])) m (λ _, holds base (replicate n 0) m).
Proof.
  intros Hn. apply (runs_for_range _ _ (λ i m', holds base (replicate i 0) m m')); [apply holds_nil|].
  intros i m' Hi Hm. apply runs_put; [rewrite (proj1 (proj1 Hm)); cbn; lia|].
  pose proof (holds_app base _ [0] _ _ Hm) as H. rewrite length_replicate in H. by rewrite replicate_S_end.
Qed.
Lemma holds_sub base bs m0 m off n : holds base bs m0 m → base ≤ off → off + Z.of_nat n ≤ base + Z.of_nat (length bs) →
  load (sl_at m) off n = take n (drop (Z.to_nat (off - base)) bs).
Proof.
  intros [_ Hl] H1 H2. apply list_eq_same_length with n; [rewrite length_take, length_drop; lia|by rewrite length_load|].
  intros i x y Hi. rewrite lookup_load, lookup_take_lt, lookup_drop by lia. intros [= <-] Hy. rewrite <-Hl in Hy.
  rewrite lookup_load in Hy by lia. injection Hy as <-. f_equal. lia.
Qed.

(** ** Tables of 64-bit words *)
Definition word m (addr : Z) : Z := of_le (load (sl_at m) addr 8).
Definition table_of (base : Z) (n : nat) (c : nat → bool) (f : nat → Z) m m' : Prop :=
  outside base (base + 8 * Z.of_nat n) m m' ∧
  ∀ k, (k < n)%nat → word m' (base + 8 * Z.of_nat k) = if c k then f k mod 2 ^ 64 else word m (base + 8 * Z.of_nat k).
Lemma word_outside lo hi m m' a : outside lo hi m m' → a + 8 ≤ lo ∨ hi ≤ a → word m' a = word m a.
Proof. intros Ho Ha. unfold word. erewrite outside_load; [done|done|lia]. Qed.
Lemma word_written off v m : word (written off (le_bytes 8 v) m) off = v mod 2 ^ 64.
Proof. unfold word. cbn [sl_at written]. rewrite <-(length_le_bytes 8 v) at 2. rewrite load_store. apply of_le_le_bytes. Qed.
Lemma table_app base n n' c f m0 m1 m2 :
  table_of base n c f m0 m1 → table_of (base + 8 * Z.of_nat n) n' (λ i, c (n + i)%nat) (λ i, f (n + i)%nat) m1 m2 →
  table_of base (n + n') c f m0 m2.
Proof.
  intros [O1 T1] [O2 T2]. split.
  - eapply outside_trans; eapply outside_weaken; [| |exact O1| | |exact O2]; lia.
  - intros k Hk. destruct (decide (k < n)%nat).
    + rewrite (word_outside _ _ _ _ _ O2) by lia. by apply T1.
    + specialize (T2 (k - n)%nat ltac:(lia)). replace (n + (k - n))%nat with k in T2 by lia.
      replace (base + 8 * Z.of_nat n + 8 * Z.of_nat (k - n)) with (base + 8 * Z.of_nat k) in T2 by lia.
      rewrite T2. destruct (c k); [done|]. apply (word_outside _ _ _ _ _ O1). lia.
Qed.
Lemma table_nil base c f m : table_of base 0 c f m m.
Proof. split; [apply outside_refl|lia]. Qed.
Lemma table_loop (step : nat) n base c f (body : nat → BM ()) m :
  (∀ i m', (i < n)%nat → sl_len m' = sl_len m →
     runs (body i) m' (λ _, table_of (base + 8 * Z.of_nat (step * i)) step (λ j, c (step * i + j)%nat) (λ j, f (step * i + j)%nat) m')) →
  runs (for_range n body) m (λ _, table_of base (step * n) c f m).
Proof.
  intros Hb. apply (runs_for_range _ _ (λ i m', table_of base (step * i) c f m m')).
  - replace (step * 0)%nat with 0%nat by lia. apply table_nil.
  - intros i m' Hi Hm. eapply runs_mono; [apply (Hb i m' Hi), Hm|]. intros [] m'' H. cbn beta in H.
    replace (step * S i)%nat with (step * i + step)%nat by lia. by eapply table_app.
Qed.
Lemma table_fill n base c f m : base + 8 * Z.of_nat n ≤ sl_len m →
  runs (for_range n (λ i, if c i : bool then write_u64 (base + Z.of_nat i * 8) (f i) else mret ())) m (λ _, table_of base n c f m).
Proof.
  intros Hl. eapply runs_mono; [apply (table_loop 1 n base c f)|intros a m'; by rewrite Nat.mul_1_l]. intros i m' Hi Hm. rewrite Nat.mul_1_l.
  unfold write_u64. destruct (c i) eqn:Ec.
  - apply runs_put; [rewrite length_le_bytes; lia|]. rewrite (Z.mul_comm (Z.of_nat i)). split.
    + eapply outside_weaken; [..|apply outside_written]; rewrite ?length_le_bytes; lia.
    + intros k Hk. replace k with 0%nat by lia. rewrite Nat.add_0_r, Z.add_0_r, Ec. apply word_written.
  - split; [apply outside_refl|]. intros k Hk. replace k with 0%nat by lia. by rewrite Nat.add_0_r, Ec.
Qed.

(** ** Page tables *)
Lemma lor_low k x f : 0 ≤ k → 0 ≤ f < 2 ^ k → Z.lor (2 ^ k * x) f = 2 ^ k * x + f.
Proof.
  intros Hk Hf. rewrite <-Z.add_lor_land. enough (Z.land (2 ^ k * x) f = 0) by lia. destruct (decide (f = 0)) as [->|]; [apply Z.land_0_r|].
  rewrite Z.mul_comm, <-Z.shiftl_mul_pow2 by done. apply Z.bits_inj_0. intros i. rewrite Z.land_spec.
  destruct (Z.ltb_spec i 0); [by rewrite Z.testbit_neg_r|]. destruct (Z.ltb_spec i k).
  - by rewrite Z.shiftl_spec_low.
  - rewrite (Z.bits_above_log2 f i), andb_false_r; [done|lia|].
    apply Z.lt_le_trans with k; [|done]. apply (Z.log2_lt_pow2 f k); lia.
Qed.
Lemma pt_flags_table x : pt_flags (4096 * x) = 4096 * x + 3.
Proof. unfold pt_flags. rewrite <-Z.lor_assoc. apply (lor_low 12 x 3); lia. Qed.
Lemma pt_flags_page x : Z.lor (pt_flags (2 ^ 21 * x)) PAGE_SIZE_2MB = 2 ^ 21 * x + 0x83.
Proof. unfold pt_flags. rewrite <-!Z.lor_assoc. apply (lor_low 21 x 0x83); lia. Qed.
Lemma num_gb_bounds size : 4 ≤ num_gb size ∧ size ≤ 2 ^ 30 * num_gb size.
Proof. unfold num_gb. pose proof (Z.div_mod (size + 2 ^ 30 - 1) (2 ^ 30)). pose proof (Z.mod_pos_bound (size + 2 ^ 30 - 1) (2 ^ 30)). lia. Qed.
Lemma of_le_zeros n : of_le (replicate n 0) = 0.
Proof. induction n as [|n IH]; [done|]. cbn. by rewrite IH. Qed.

(** What the tables say, in memory as a whole. *)
Record boot_tables (size : Z) m : Prop := {
  bt_pml4 : ∀ k, (k < 512)%nat → word m (PML4_ADDR + 8 * Z.of_nat k) = if decide (k = 0)%nat then 0x2003 else if decide (k = 511)%nat then 0x3003 else 0;
  bt_low : ∀ k, (k < 512)%nat →
    word m (PDPT_LOW_ADDR + 8 * Z.of_nat k) = if Z.of_nat k <? num_gb size then PD_ADDR + 4096 * Z.of_nat k + 3 else 0;
  bt_high : ∀ k, (k < 512)%nat →
    word m (PDPT_HIGH_ADDR + 8 * Z.of_nat k) = if (510 <=? k)%nat then PD_ADDR + 4096 * Z.of_nat (k - 510) + 3 else 0;
  bt_pd : ∀ k, (Z.of_nat k < 512 * num_gb size) →
    word m (PD_ADDR + 8 * Z.of_nat k) = if 2 ^ 21 * Z.of_nat k <? size then 2 ^ 21 * Z.of_nat k + 0x83 else 0
}.

Section PageTables.
Context (size : Z) (m0 : slice).
Local Notation n := (num_gb size).
Context (Hn : n ≤ 512) (Hl : PD_ADDR + 4096 * n ≤ sl_len m0).

Definition cleared m : Prop := outside PML4_ADDR (PD_ADDR + 4096 * n) m0 m.
Lemma clear_loop :
  runs (for_range (Z.to_nat (PD_ADDR + n * 4096 - PML4_ADDR)) (λ i,
    len ← gets sl_len;
    if PML4_ADDR + Z.of_nat i <? len then put (PML4_ADDR + Z.of_nat i) [0] else mret ())) m0
    (λ _ m, cleared m ∧ ∀ a, PML4_ADDR ≤ a → a + 8 ≤ PD_ADDR + 4096 * n → word m a = 0).
Proof.
  pose proof (num_gb_bounds size) as [H4 _]. set (N := Z.to_nat _). assert (Z.of_nat N = PD_ADDR + n * 4096 - PML4_ADDR) as HN by (subst N; unfold PD_ADDR, PML4_ADDR; lia).
  eapply runs_mono; [apply (runs_for_range _ _ (λ i m', holds PML4_ADDR (replicate i 0) m0 m')); [apply holds_nil|]|].
  - intros i m' Hi Hm. unfold runs, gets, mbind, M_bind. rewrite (proj1 (proj1 Hm)).
    rewrite (proj2 (Z.ltb_lt _ _)) by lia. rewrite put_done by (rewrite (proj1 (proj1 Hm)); cbn; lia).
    pose proof (holds_app PML4_ADDR _ [0] _ _ Hm) as H. rewrite length_replicate in H. by rewrite replicate_S_end.
  - intros a m' Hm. split; [destruct Hm as [Ho _]; rewrite length_replicate in Ho; eapply outside_weaken; [..|exact Ho]; lia|].
    intros x H1 H2. unfold word. rewrite (holds_sub _ _ _ _ x 8 Hm) by (rewrite ?length_replicate; lia).
    rewrite drop_replicate, take_replicate. apply of_le_zeros.
Qed.

Lemma table_one base v m : base + 8 ≤ sl_len m → runs (write_u64 base v) m (λ _, table_of base 1 (λ _, true) (λ _, v) m).
Proof.
  intros Hm. apply runs_put; [by rewrite length_le_bytes|]. split.
  - eapply outside_weaken; [..|apply outside_written]; rewrite ?length_le_bytes; lia.
  - intros k Hk. replace k with 0%nat by lia. rewrite Z.add_0_r. apply word_written.
Qed.
(** The writes after the clearing, one table after the other. *)
Record tables_written m1 m2 m3 m4 m5 m6 : Prop := {
  tw_first : table_of PML4_ADDR 1 (λ _, true) (λ _, pt_flags PDPT_LOW_ADDR) m1 m2;
  tw_last : table_of (PML4_ADDR + 511 * 8) 1 (λ _, true) (λ _, pt_flags PDPT_HIGH_ADDR) m2 m3;
  tw_low : table_of PDPT_LOW_ADDR (Z.to_nat n) (λ _, true) (λ i, pt_flags (PD_ADDR + Z.of_nat i * 4096)) m3 m4;
  tw_high : table_of (PDPT_HIGH_ADDR + 510 * 8) 2 (λ _, true) (λ i, pt_flags (PD_ADDR + Z.of_nat i * 4096)) m4 m5;
  tw_pd : table_of PD_ADDR (512 * Z.to_nat n) (λ k, Z.of_nat k * 2 ^ 21 <? size) (λ k, Z.lor (pt_flags (Z.of_nat k * 2 ^ 21)) PAGE_SIZE_2MB) m5 m6
}.
Lemma directories_filled m : sl_len m = sl_len m0 →
  runs (for_range (Z.to_nat n) (λ gb_idx,
    let pd_base := PD_ADDR + Z.of_nat gb_idx * 4096 in
    for_range 512 (λ i,
      let phys_addr := (Z.of_nat gb_idx * 512 + Z.of_nat i) * 2 ^ 21 in
      if phys_addr <? size then write_u64 (pd_base + Z.of_nat i * 8) (Z.lor (pt_flags phys_addr) PAGE_SIZE_2MB)
      else mret ()))) m
    (λ _, table_of PD_ADDR (512 * Z.to_nat n) (λ k, Z.of_nat k * 2 ^ 21 <? size) (λ k, Z.lor (pt_flags (Z.of_nat k * 2 ^ 21)) PAGE_SIZE_2MB) m).
Proof.
  intros Hm. pose proof (num_gb_bounds size) as [H4 _]. apply table_loop. intros g m' Hg Hm'. cbv zeta.
  assert (∀ i, Z.of_nat (512 * g + i) = Z.of_nat g * 512 + Z.of_nat i) as E by lia.
  replace (PD_ADDR + 8 * Z.of_nat (512 * g)) with (PD_ADDR + Z.of_nat g * 4096) by lia.
  eapply runs_mono; [apply (table_fill 512 (PD_ADDR + Z.of_nat g * 4096) (λ i, (Z.of_nat g * 512 + Z.of_nat i) * 2 ^ 21 <? size)
    (λ i, Z.lor (pt_flags ((Z.of_nat g * 512 + Z.of_nat i) * 2 ^ 21)) PAGE_SIZE_2MB)); lia|].
  intros a m'' [Ho Ht]. split; [exact Ho|]. intros k Hk. rewrite E. by apply Ht.
Qed.
Lemma setup_page_tables_writes :
  runs (setup_page_tables size) m0 (λ _ m6, ∃ m1 m2 m3 m4 m5, (cleared m1 ∧ ∀ a, PML4_ADDR ≤ a → a + 8 ≤ PD_ADDR + 4096 * n → word m1 a = 0) ∧
    tables_written m1 m2 m3 m4 m5 m6).
Proof.
  pose proof (num_gb_bounds size) as [H4 _]. assert (PD_ADDR = 0x8000 ∧ PML4_ADDR = 0x1000 ∧ PDPT_LOW_ADDR = 0x2000 ∧ PDPT_HIGH_ADDR = 0x3000) as (E1 & E2 & E3 & E4) by done.
  unfold setup_page_tables. cbv zeta. replace (Z.to_nat (n `min` 2)) with 2%nat by lia.
  eapply runs_bind; [apply clear_loop|]. intros [] m1 [C1 Z1]. pose proof (proj1 C1).
  eapply runs_bind; [apply table_one; lia|]. intros [] m2 T2. pose proof (proj1 (proj1 T2)).
  eapply runs_bind; [apply table_one; lia|]. intros [] m3 T3. pose proof (proj1 (proj1 T3)).
  eapply runs_bind; [apply (table_fill (Z.to_nat n) PDPT_LOW_ADDR (λ _, true) (λ i, pt_flags (PD_ADDR + Z.of_nat i * 4096))); lia|].
  intros [] m4 T4. pose proof (proj1 (proj1 T4)).
  eapply runs_bind.
  { apply (table_loop 1 2 (PDPT_HIGH_ADDR + 510 * 8) (λ _, true) (λ i, pt_flags (PD_ADDR + Z.of_nat i * 4096))). intros i m' Hi Hm'.
    replace (PDPT_HIGH_ADDR + 510 * 8 + 8 * Z.of_nat (1 * i)) with (PDPT_HIGH_ADDR + (510 + Z.of_nat i) * 8) by lia.
    eapply runs_mono; [apply table_one; lia|]. intros [] m'' [Ho Ht]. split; [exact Ho|]. intros k Hk.
    replace k with 0%nat by lia. rewrite Nat.mul_1_l, Nat.add_0_r. apply (Ht 0%nat). lia. }
  intros [] m5 T5. pose proof (proj1 (proj1 T5)).
  eapply runs_mono; [apply directories_filled; congruence|]. intros [] m6 T6.
  exists m1, m2, m3, m4, m5. split; [done|]. by constructor.
Qed.
End PageTables.
Ltac boot_consts := unfold GDT_ADDR, TSS_ADDR, PML4_ADDR, PDPT_LOW_ADDR, PDPT_HIGH_ADDR, BOOT_PARAMS_ADDR, PD_ADDR, CMDLINE_ADDR, MPTABLE_BASE in *.

(** A word that a later table does not reach. *)
Ltac word_kept T := rewrite (word_outside _ _ _ _ _ (proj1 T)) by (boot_consts; lia).
Lemma tables_written_boot size m0 m1 m2 m3 m4 m5 m6 :
  num_gb size ≤ 512 → 0 ≤ size → cleared size m0 m1 → (∀ a, PML4_ADDR ≤ a → a + 8 ≤ PD_ADDR + 4096 * num_gb size → word m1 a = 0) →
  tables_written size m1 m2 m3 m4 m5 m6 → boot_tables size m6 ∧ outside PML4_ADDR (PD_ADDR + 4096 * num_gb size) m0 m6.
Proof.
  intros Hn Hs C1 Z1 [T2 T3 T4 T5 T6]. pose proof (num_gb_bounds size) as [H4 _]. split; [split|].
  - intros k Hk. word_kept T6. word_kept T5. word_kept T4. destruct (decide (k = 0)%nat) as [->|N0].
    { word_kept T3. rewrite (proj2 T2 0%nat) by lia. done. }
    destruct (decide (k = 511)%nat) as [->|N1]; [exact (proj2 T3 0%nat ltac:(lia))|].
    word_kept T3. word_kept T2. apply Z1; boot_consts; lia.
  - intros k Hk. word_kept T6. word_kept T5. destruct (Z.ltb_spec (Z.of_nat k) (num_gb size)).
    + rewrite (proj2 T4 k) by lia. replace (PD_ADDR + Z.of_nat k * 4096) with (4096 * (8 + Z.of_nat k)) by (boot_consts; lia).
      rewrite pt_flags_table, Z.mod_small; boot_consts; lia.
    + word_kept T4. word_kept T3. word_kept T2. apply Z1; boot_consts; lia.
  - intros k Hk. word_kept T6. destruct (Nat.leb_spec 510 k).
    + replace (PDPT_HIGH_ADDR + 8 * Z.of_nat k) with (PDPT_HIGH_ADDR + 510 * 8 + 8 * Z.of_nat (k - 510)) by lia.
      rewrite (proj2 T5 (k - 510)%nat) by lia. replace (PD_ADDR + Z.of_nat (k - 510) * 4096) with (4096 * (8 + Z.of_nat (k - 510))) by (boot_consts; lia).
      rewrite pt_flags_table, Z.mod_small; boot_consts; lia.
    + word_kept T5. word_kept T4. word_kept T3. word_kept T2. apply Z1; boot_consts; lia.
  - intros k Hk. rewrite (proj2 T6 k) by lia. rewrite (Z.mul_comm (Z.of_nat k)). destruct (Z.ltb_spec (2 ^ 21 * Z.of_nat k) size).
    + rewrite pt_flags_page, Z.mod_small; [done|lia].
    + word_kept T5. word_kept T4. word_kept T3. word_kept T2. apply Z1; boot_consts; lia.
  - eapply outside_trans; [exact C1|]. eapply outside_trans; [eapply outside_weaken; [..|exact (proj1 T2)]; boot_consts; lia|].
    eapply outside_trans; [eapply outside_weaken; [..|exact (proj1 T3)]; boot_consts; lia|].
    eapply outside_trans; [eapply outside_weaken; [..|exact (proj1 T4)]; boot_consts; lia|].
    eapply outside_trans; eapply outside_weaken; [..|exact (proj1 T5)| | |exact (proj1 T6)]; boot_consts; lia.
Qed.
Lemma setup_page_tables_runs size m :
  num_gb size ≤ 512 → 0 ≤ size → PD_ADDR + 4096 * num_gb size ≤ sl_len m →
  runs (setup_page_tables size) m (λ _ m', boot_tables size m' ∧ outside PML4_ADDR (PD_ADDR + 4096 * num_gb size) m m').
Proof.
  intros Hn Hs Hl. eapply runs_mono; [by apply setup_page_tables_writes|].
  intros a m6 (m1 & m2 & m3 & m4 & m5 & [C1 Z1] & T). by eapply tables_written_boot.
Qed.

(** ** The address space of the tables *)
Ltac walk_bits := cbn [negb orb andb Z.eqb Z.ltb Z.compare Pos.eqb Pos.compare Pos.compare_cont].
Definition address_space (size gva : Z) : option Z :=
  let va := gva mod 2 ^ 48 in
  let mapped x := if 2 ^ 21 * (x / 2 ^ 21) <? size then Some x else None in
  if va <? 2 ^ 39 then mapped va
  else if 2 ^ 48 - 2 ^ 31 <=? va then mapped (va - (2 ^ 48 - 2 ^ 31))
  else None.

Section Walk.
Context `{!GuestMem R, !GuestMemSpec R}.
Implicit Types r : R.
(** The VM's memory is the slice userspace has mapped. *)
Definition backs r m : Prop := ∀ a, 0 ≤ a < sl_len m → byte_at r a = Some (sl_at m a).
Lemma entry_word_backs r m addr : backs r m → 0 ≤ addr → addr + 8 ≤ sl_len m → entry_word r addr = Some (word m addr).
Proof.
  intros Hb H0 Hl. unfold entry_word, word, load. change (seqZ addr 8) with ((λ i, Z.of_nat i + addr) <$> seq 0 8). cbn [fmap list_fmap seq].
  cbn [mapM]. rewrite !Hb by lia. cbn. by rewrite !(Z.add_comm addr).
Qed.
Lemma walk_cons r m gva shift below table : backs r m → 0 ≤ table → table + 4096 ≤ sl_len m →
  let e := word m (table + 8 * ((gva / 2 ^ shift) mod 512)) in
  walk r gva (shift :: below) table =
    if negb (Z.odd e) then None
    else if (shift =? 12) || ((shift <? 39) && Z.testbit e 7) then Some (frame_bits e shift + gva mod 2 ^ shift)
    else walk r gva below (frame_bits e 12).
Proof.
  intros Hb H0 Hl e. pose proof (Z.mod_pos_bound (gva / 2 ^ shift) 512). cbn [walk].
  rewrite (entry_word_backs r m) by (done || lia). done.
Qed.

Context (r : R) (m : slice) (size gva : Z).
Context (Hb : backs r m) (Ht : boot_tables size m) (Hn : num_gb size ≤ 512) (Hs : 0 ≤ size) (Hl : PD_ADDR + 4096 * num_gb size ≤ sl_len m).
Lemma table_bits x : Z.odd (4096 * x + 3) = true ∧ Z.testbit (4096 * x + 3) 7 = false ∧ (0 ≤ x < 2 ^ 40 → frame_bits (4096 * x + 3) 12 = 4096 * x).
Proof.
  split_and!.
  - rewrite Z.odd_add, Z.odd_mul. done.
  - change 4096 with (2 ^ 12). rewrite <-(lor_low 12 x 3), Z.lor_spec, Z.mul_comm, <-Z.shiftl_mul_pow2, Z.shiftl_spec_low by lia. done.
  - intros Hx. unfold frame_bits. rewrite Z.mod_small by lia. change (2 ^ 12) with 4096. rewrite (Z.mul_comm 4096 x), Z.div_add_l by lia. change (3 / 4096) with 0. lia.
Qed.
Lemma page_bits x : Z.odd (2 ^ 21 * x + 0x83) = true ∧ Z.testbit (2 ^ 21 * x + 0x83) 7 = true ∧ (0 ≤ x < 2 ^ 31 → frame_bits (2 ^ 21 * x + 0x83) 21 = 2 ^ 21 * x).
Proof.
  split_and!.
  - rewrite Z.odd_add, Z.odd_mul. done.
  - rewrite <-(lor_low 21 x 0x83), Z.lor_spec by lia. cbn [Z.testbit Pos.testbit]. by rewrite orb_true_r.
  - intros Hx. unfold frame_bits. rewrite Z.mod_small by lia. rewrite (Z.mul_comm (2 ^ 21) x), Z.div_add_l by lia. change (0x83 / 2 ^ 21) with 0. lia.
Qed.
(** The last level: a page of 2 MiB from directory [i], when the memory has it. *)
Lemma walk_directory i : 0 ≤ i < num_gb size →
  let x := 2 ^ 30 * i + gva mod 2 ^ 30 in
  walk r gva [21; 12] (PD_ADDR + 4096 * i) = if 2 ^ 21 * (x / 2 ^ 21) <? size then Some x else None.
Proof.
  intros Hi x. rewrite (walk_cons r m) by (done || (boot_consts; lia)). cbv zeta.
  pose proof (Z.mod_pos_bound (gva / 2 ^ 21) 512 ltac:(lia)) as Hm. set (j := (gva / 2 ^ 21) mod 512) in *.
  assert (gva mod 2 ^ 30 = 2 ^ 21 * j + gva mod 2 ^ 21) as Hx.
  { subst j. change (2 ^ 30) with (2 ^ 21 * 512). rewrite Z.rem_mul_r by lia. lia. }
  pose proof (Z.mod_pos_bound gva (2 ^ 21) ltac:(lia)) as Ho.
  assert (x / 2 ^ 21 = 512 * i + j) as ->.
  { subst x. rewrite Hx. symmetry. apply (Z.div_unique _ _ _ (gva mod 2 ^ 21)); lia. }
  replace (PD_ADDR + 4096 * i + 8 * j) with (PD_ADDR + 8 * Z.of_nat (Z.to_nat (512 * i + j))) by lia.
  rewrite (bt_pd _ _ Ht) by lia. rewrite Z2Nat.id by lia. destruct (Z.ltb_spec (2 ^ 21 * (512 * i + j)) size); [|done].
  destruct (page_bits (512 * i + j)) as (-> & -> & ->); [|lia]. walk_bits. f_equal. subst x. lia.
Qed.
Lemma walk_pdpt below i : 0 ≤ i < num_gb size → below = [21; 12] → 
  (if negb (Z.odd (PD_ADDR + 4096 * i + 3)) then None
   else if (30 =? 12) || ((30 <? 39) && Z.testbit (PD_ADDR + 4096 * i + 3) 7) then Some (frame_bits (PD_ADDR + 4096 * i + 3) 30 + gva mod 2 ^ 30)
   else walk r gva below (frame_bits (PD_ADDR + 4096 * i + 3) 12)) =
  let x := 2 ^ 30 * i + gva mod 2 ^ 30 in if 2 ^ 21 * (x / 2 ^ 21) <? size then Some x else None.
Proof.
  intros Hi ->. replace (PD_ADDR + 4096 * i + 3) with (4096 * (8 + i) + 3) by (boot_consts; lia).
  destruct (table_bits (8 + i)) as (-> & -> & ->); [|lia]. walk_bits.
  replace (4096 * (8 + i)) with (PD_ADDR + 4096 * i) by (boot_consts; lia). by apply walk_directory.
Qed.
Lemma walk_low : let x := 2 ^ 30 * ((gva / 2 ^ 30) mod 512) + gva mod 2 ^ 30 in
  walk r gva [30; 21; 12] PDPT_LOW_ADDR = if 2 ^ 21 * (x / 2 ^ 21) <? size then Some x else None.
Proof.
  pose proof (num_gb_bounds size) as [H4 Hg]. pose proof (Z.mod_pos_bound (gva / 2 ^ 30) 512 ltac:(lia)) as M3.
  pose proof (Z.mod_pos_bound gva (2 ^ 30) ltac:(lia)) as M2. rewrite (walk_cons r m) by (done || (boot_consts; lia)). cbv zeta.
  set (i := (gva / 2 ^ 30) mod 512) in *. replace (PDPT_LOW_ADDR + 8 * i) with (PDPT_LOW_ADDR + 8 * Z.of_nat (Z.to_nat i)) by lia.
  rewrite (bt_low _ _ Ht) by lia. rewrite Z2Nat.id by lia. destruct (Z.ltb_spec i (num_gb size)); [apply walk_pdpt; [lia|done]|].
  cbn [negb Z.odd]. rewrite (proj2 (Z.ltb_ge _ _)); [done|].
  pose proof (Z.div_le_lower_bound (2 ^ 30 * i + gva mod 2 ^ 30) (2 ^ 21) (512 * i)). lia.
Qed.
Lemma walk_high : let i := (gva / 2 ^ 30) mod 512 in let x := 2 ^ 30 * (i - 510) + gva mod 2 ^ 30 in
  walk r gva [30; 21; 12] PDPT_HIGH_ADDR = if 510 <=? i then if 2 ^ 21 * (x / 2 ^ 21) <? size then Some x else None else None.
Proof.
  pose proof (num_gb_bounds size) as [H4 _]. pose proof (Z.mod_pos_bound (gva / 2 ^ 30) 512 ltac:(lia)) as M3.
  rewrite (walk_cons r m) by (done || (boot_consts; lia)). cbv zeta.
  set (i := (gva / 2 ^ 30) mod 512) in *. replace (PDPT_HIGH_ADDR + 8 * i) with (PDPT_HIGH_ADDR + 8 * Z.of_nat (Z.to_nat i)) by lia.
  rewrite (bt_high _ _ Ht) by lia. destruct (Nat.leb_spec 510 (Z.to_nat i)), (Z.leb_spec 510 i); try lia; [|done].
  replace (Z.of_nat (Z.to_nat i - 510)) with (i - 510) by lia. apply walk_pdpt; [lia|done].
Qed.
Lemma walk_boot : walk r gva levels PML4_ADDR = address_space size gva.
Proof.
  pose proof (num_gb_bounds size) as [H4 Hg]. unfold levels. rewrite (walk_cons r m) by (done || (boot_consts; lia)). cbv zeta.
  pose proof (Z.mod_pos_bound (gva / 2 ^ 39) 512 ltac:(lia)) as M4. pose proof (Z.mod_pos_bound (gva / 2 ^ 30) 512 ltac:(lia)) as M3.
  pose proof (Z.mod_pos_bound gva (2 ^ 30) ltac:(lia)) as M2. pose proof walk_low as Hlow. pose proof walk_high as Hhigh.
  assert (gva mod 2 ^ 48 = 2 ^ 39 * ((gva / 2 ^ 39) mod 512) + 2 ^ 30 * ((gva / 2 ^ 30) mod 512) + gva mod 2 ^ 30) as Ev.
  { change (2 ^ 48) with (2 ^ 39 * 512). rewrite Z.rem_mul_r by lia. change (2 ^ 39) with (2 ^ 30 * 512) at 1. rewrite Z.rem_mul_r by lia. lia. }
  unfold address_space. cbv zeta in *. rewrite Ev. set (i4 := (gva / 2 ^ 39) mod 512) in *. set (i3 := (gva / 2 ^ 30) mod 512) in *. set (o := gva mod 2 ^ 30) in *.
  replace (PML4_ADDR + 8 * i4) with (PML4_ADDR + 8 * Z.of_nat (Z.to_nat i4)) by lia. rewrite (bt_pml4 _ _ Ht) by lia.
  destruct (decide (Z.to_nat i4 = 0%nat)) as [E0|N0].
  { change (Z.odd 0x2003) with true. change (frame_bits 0x2003 12) with PDPT_LOW_ADDR. walk_bits. rewrite Hlow.
    replace (2 ^ 39 * i4 + 2 ^ 30 * i3 + o) with (2 ^ 30 * i3 + o) by lia. by rewrite (proj2 (Z.ltb_lt (2 ^ 30 * i3 + o) (2 ^ 39))) by lia. }
  rewrite (proj2 (Z.ltb_ge _ (2 ^ 39))) by lia. destruct (decide (Z.to_nat i4 = 511%nat)) as [E1|N1].
  2: { cbn [negb Z.odd]. by rewrite (proj2 (Z.leb_gt _ _)) by lia. }
  change (Z.odd 0x3003) with true. change (frame_bits 0x3003 12) with PDPT_HIGH_ADDR. walk_bits. rewrite Hhigh.
  replace (2 ^ 39 * i4 + 2 ^ 30 * i3 + o - (2 ^ 48 - 2 ^ 31)) with (2 ^ 30 * (i3 - 510) + o) by lia.
  by destruct (Z.leb_spec 510 i3), (Z.leb_spec (2 ^ 48 - 2 ^ 31) (2 ^ 39 * i4 + 2 ^ 30 * i3 + o)); try lia.
Qed.
End Walk.

(** ** Descriptors *)
Definition gdt_words : list Z := [0; 0; code_seg; data_seg; tss_low; tss_high].
Lemma holds_load base bs m0 m : holds base bs m0 m → load (sl_at m) base (length bs) = bs.
Proof. by intros [_ H]. Qed.
Lemma setup_gdt_runs m : 0x668 ≤ sl_len m →
  runs setup_gdt m (λ a m', a = (GDT_ADDR, 0x2F) ∧ outside GDT_ADDR 0x668 m m' ∧
    load (sl_at m') GDT_ADDR 48 = concat (le_bytes 8 <$> gdt_words) ∧ load (sl_at m') TSS_ADDR 104 = replicate 104 0).
Proof.
  intros Hl. unfold setup_gdt, write_u64. eapply runs_bind; [apply holds_zeros; boot_consts; lia|]. intros [] m1 H1.
  assert (∀ m' off v bs, holds GDT_ADDR bs m m' → length bs = 64%nat → GDT_ADDR ≤ off → off + 8 ≤ GDT_ADDR + 64 →
    runs (put off (le_bytes 8 v)) m' (λ _ m'', holds GDT_ADDR (list_inserts (Z.to_nat (off - GDT_ADDR)) (le_bytes 8 v) bs) m m'')) as Hp.
  { intros m' off v bs Hm Hb H0 H8. apply runs_put; [rewrite length_le_bytes, (proj1 (proj1 Hm)); boot_consts; lia|].
    apply holds_patch; [done|done|]. rewrite length_le_bytes, Hb. lia. }
  do 4 (eapply runs_bind; [eapply Hp; [eassumption|by rewrite ?length_inserts|boot_consts; lia..]|]; clear dependent m1; intros [] m1 H1).
  eapply runs_bind; [apply holds_zeros; rewrite (proj1 (proj1 H1)); boot_consts; lia|]. intros [] m2 H2. cbn [runs mret M_ret].
  split; [done|]. split_and!.
  - eapply outside_trans; eapply outside_weaken; [..|exact (proj1 H1)| | |exact (proj1 H2)]; rewrite ?length_inserts, ?length_replicate; boot_consts; lia.
  - rewrite (outside_load _ _ _ _ _ _ (proj1 H2)) by (boot_consts; lia).
    rewrite (holds_sub _ _ _ _ GDT_ADDR 48 H1) by (rewrite ?length_inserts, ?length_replicate; lia). vm_compute. done.
  - exact (holds_load _ _ _ _ H2).
Qed.

(** ** The MultiProcessor tables

    A reader of the tables after the specification (version 1.4, chapter 4): the
    floating pointer, the header it points to, both with their checksums, and the
    entries it counts, 20 bytes for a processor and 8 for the rest. *)
Inductive MpEntry :=
| MpProcessor (id version flags signature features : Z)
| MpBus (id : Z) (type : list Z)
| MpIoApic (id version flags address : Z)
| MpIoInterrupt (type flags bus irq apic pin : Z)
| MpLocalInterrupt (type flags bus irq apic pin : Z).
Definition field (bs : list Z) (off n : nat) : Z := of_le (take n (drop off bs)).
Definition mp_entry (bs : list Z) : option (MpEntry * nat) :=
  match field bs 0 1 with
  | 0 => Some (MpProcessor (field bs 1 1) (field bs 2 1) (field bs 3 1) (field bs 4 4) (field bs 8 4), 20%nat)
  | 1 => Some (MpBus (field bs 1 1) (take 6 (drop 2 bs)), 8%nat)
  | 2 => Some (MpIoApic (field bs 1 1) (field bs 2 1) (field bs 3 1) (field bs 4 4), 8%nat)
  | 3 => Some (MpIoInterrupt (field bs 1 1) (field bs 2 2) (field bs 4 1) (field bs 5 1) (field bs 6 1) (field bs 7 1), 8%nat)
  | 4 => Some (MpLocalInterrupt (field bs 1 1) (field bs 2 2) (field bs 4 1) (field bs 5 1) (field bs 6 1) (field bs 7 1), 8%nat)
  | _ => None
  end.
Fixpoint mp_entries (count : nat) (bs : list Z) : option (list MpEntry) :=
  match count with
  | O => if bs is [] then Some [] else None
  | S count =>
      '(e, n) ← mp_entry bs;
      if (length bs <? n)%nat then None else l ← mp_entries count (drop n bs); Some (e :: l)
  end.
Definition sums_to_zero (bs : list Z) : bool := fold_right Z.add 0 bs mod 256 =? 0.
Definition mp_read (base : Z) (bs : list Z) : option (Z * list MpEntry) :=
  let config := Z.to_nat (field bs 4 4 - base) in
  let header := drop config bs in
  let len := Z.to_nat (field header 4 2) in
  if bool_decide (take 4 bs = ascii_bytes "_MP_") && sums_to_zero (take (16 * Z.to_nat (field bs 8 1)) bs) &&
     bool_decide (take 4 header = ascii_bytes "PCMP") && (len <=? length header)%nat && sums_to_zero (take len header)
  then l ← mp_entries (Z.to_nat (field header 34 2)) (take (len - 44) (drop 44 header)); Some (field header 36 4, l)
  else None.

Lemma append_all_runs base l off m0 m bs :
  holds base bs m0 m → off = base + Z.of_nat (length bs) → base + Z.of_nat (length (bs ++ concat l)) ≤ sl_len m0 →
  runs (append_all l off) m (λ o m', o = base + Z.of_nat (length (bs ++ concat l)) ∧ holds base (bs ++ concat l) m0 m').
Proof.
  revert off m bs. induction l as [|b l IH]; intros off m bs Hm -> Hl; cbn [append_all concat] in *.
  - rewrite app_nil_r. by split.
  - eapply (runs_bind _ _ _ (λ o m', o = base + Z.of_nat (length (bs ++ b)) ∧ holds base (bs ++ b) m0 m')).
    + unfold append. eapply runs_bind; [apply runs_put; [rewrite (proj1 (proj1 Hm)); rewrite !length_app in Hl; lia|]|].
      * instantiate (1 := λ _ m', holds base (bs ++ b) m0 m'). by apply holds_app.
      * intros [] m' Hm'. split; [rewrite length_app; lia|exact Hm'].
    + intros o m' [-> Hm']. rewrite app_assoc in *. by apply IH.
Qed.
Lemma read_bytes_runs base bs m0 m first last :
  holds base bs m0 m → base ≤ first ≤ last → last ≤ base + Z.of_nat (length bs) → base + Z.of_nat (length bs) ≤ sl_len m0 →
  runs (read_bytes first last) m (λ v m', v = take (Z.to_nat (last - first)) (drop (Z.to_nat (first - base)) bs) ∧ m' = m).
Proof.
  intros Hm H1 H2 H3. unfold runs, read_bytes, demand. rewrite (proj1 (proj1 Hm)).
  rewrite (proj2 (Z.leb_le first last)), (proj2 (Z.leb_le last _)) by lia. cbn [andb]. split; [|done]. eapply holds_sub; [done|lia..].
Qed.
Lemma patch_runs base bs m0 m off b :
  holds base bs m0 m → base ≤ off → off + Z.of_nat (length b) ≤ base + Z.of_nat (length bs) → base + Z.of_nat (length bs) ≤ sl_len m0 →
  runs (put off b) m (λ _, holds base (list_inserts (Z.to_nat (off - base)) b bs) m0).
Proof. intros Hm H1 H2 H3. apply runs_put; [rewrite (proj1 (proj1 Hm)); lia|]. by apply holds_patch. Qed.

(** One processor, the devices where the hypervisor emulates them, and the pins it
    raises. *)
Definition mp_machine : list MpEntry :=
  [MpProcessor 0 LAPIC_VERSION 3 0x657 0xBFEBFBFF; MpBus 0 (ascii_bytes "ISA   "); MpIoApic IOAPIC_ID IOAPIC_VERSION 1 IOAPIC_BASE;
   MpIoInterrupt 0 0 0 4 IOAPIC_ID 4; MpIoInterrupt 0 0 0 IO_CHANNEL_IRQ IOAPIC_ID IO_CHANNEL_IRQ;
   MpLocalInterrupt 3 0 0 0 0xFF 0; MpLocalInterrupt 1 0 0 0 0xFF 1].
Definition MPTABLE_LEN : nat := 128.
(** Closed arithmetic on offsets and lengths. *)
Ltac closed := vm_compute; repeat split; first [reflexivity | discriminate].
Section MpTable.
Context (m : slice) (Hl : MPTABLE_BASE + Z.of_nat MPTABLE_LEN ≤ sl_len m).
Lemma mp_room (n : nat) : (n <=? MPTABLE_LEN)%nat = true → MPTABLE_BASE + Z.of_nat n ≤ sl_len m.
Proof. intros Hn. apply Nat.leb_le in Hn. lia. Qed.
Lemma mp_append {A} l off m' bs (f : Z → BM A) Q :
  holds MPTABLE_BASE bs m m' → off = MPTABLE_BASE + Z.of_nat (length bs) → (length (bs ++ concat l) <=? MPTABLE_LEN)%nat = true →
  (∀ m'', holds MPTABLE_BASE (bs ++ concat l) m m'' → runs (f (MPTABLE_BASE + Z.of_nat (length (bs ++ concat l)))) m'' Q) → runs (append_all l off ≫= f) m' Q.
Proof. intros Hm Ho Hn Hf. eapply runs_bind; [apply (append_all_runs MPTABLE_BASE l off m m' bs); auto using mp_room|]. intros o m'' [-> Hm']. by apply Hf. Qed.
Lemma mp_sum {A} first last m' bs (f : list Z → BM A) Q :
  holds MPTABLE_BASE bs m m' → (length bs <=? MPTABLE_LEN)%nat = true →
  MPTABLE_BASE ≤ first ≤ last ∧ last ≤ MPTABLE_BASE + Z.of_nat (length bs) →
  runs (f (take (Z.to_nat (last - first)) (drop (Z.to_nat (first - MPTABLE_BASE)) bs))) m' Q → runs (read_bytes first last ≫= f) m' Q.
Proof. intros Hm Hn [Ho1 Ho2] Hf. eapply runs_bind; [apply (read_bytes_runs MPTABLE_BASE bs m m'); auto using mp_room|]. by intros v m'' [-> ->]. Qed.
Lemma mp_patch off b m' bs :
  holds MPTABLE_BASE bs m m' → (length bs <=? MPTABLE_LEN)%nat = true →
  MPTABLE_BASE ≤ off ∧ off + Z.of_nat (length b) ≤ MPTABLE_BASE + Z.of_nat (length bs) →
  runs (put off b) m' (λ _, holds MPTABLE_BASE (list_inserts (Z.to_nat (off - MPTABLE_BASE)) b bs) m).
Proof. intros Hm Hn [Ho1 Ho2]. apply patch_runs; auto using mp_room. Qed.
Lemma setup_mptable_runs :
  runs setup_mptable m (λ _ m', ∃ bs, holds MPTABLE_BASE bs m m' ∧ length bs = MPTABLE_LEN ∧ mp_read MPTABLE_BASE bs = Some (APIC_BASE, mp_machine)).
Proof.
  unfold setup_mptable. cbv zeta. assert (holds MPTABLE_BASE [] m m) as H by apply holds_nil.
  do 2 (eapply mp_append; [exact H|closed..|]; clear H; intros ? H).
  eapply mp_sum; [exact H|closed..|].
  eapply runs_bind; [eapply mp_patch; [exact H|closed..]|]. clear H. intros [] ? H.
  do 11 (eapply mp_append; [exact H|closed..|]; clear H; intros ? H).
  do 2 (eapply runs_bind; [eapply mp_patch; [exact H|closed..]|]; clear H; intros [] ? H).
  eapply mp_sum; [exact H|closed..|].
  eapply runs_mono; [eapply mp_patch; [exact H|closed..]|]. clear H. intros [] m9 H. eexists. split; [exact H|]. closed.
Qed.
End MpTable.

(** ** Boot parameters: little-endian fields of one page *)
Definition param_field : Type := Z * nat * Z.
Definition field_in m (f : param_field) : Prop := load (sl_at m) (BOOT_PARAMS_ADDR + f.1.1) f.1.2 = le_bytes f.1.2 f.2.
Definition apart (f g : param_field) : bool := (f.1.1 + Z.of_nat f.1.2 <=? g.1.1) || (g.1.1 + Z.of_nat g.1.2 <=? f.1.1).
(** A write supersedes the fields it overlaps. *)
Definition push (f : param_field) (l : list param_field) : list param_field := f :: List.filter (apart f) l.
Definition page_holds m0 (l : list param_field) m : Prop :=
  outside BOOT_PARAMS_ADDR (BOOT_PARAMS_ADDR + 4096) m0 m ∧ Forall (field_in m) l.
Lemma page_write m0 m l off n v :
  BOOT_PARAMS_ADDR + 4096 ≤ sl_len m0 → page_holds m0 l m → (0 <=? off) && (off + Z.of_nat n <=? 4096) = true →
  runs (write_param off (le_bytes n v)) m (λ _, page_holds m0 (push (off, n, v) l)).
Proof.
  intros Hl [Ho Hf] Hr. apply andb_true_iff in Hr as [H0 Hr]. apply Z.leb_le in H0. unfold write_param. rewrite length_le_bytes, Hr. apply Z.leb_le in Hr.
  apply runs_put; [rewrite length_le_bytes, (proj1 Ho); lia|]. split.
  - eapply outside_trans; [done|]. eapply outside_weaken; [..|apply outside_written]; rewrite ?length_le_bytes; lia.
  - constructor.
    + unfold field_in. cbn [fst snd sl_at written]. rewrite <-(length_le_bytes n v) at 2. apply load_store.
    + apply Forall_forall. intros g Hg. apply list_elem_of_In, filter_In in Hg as [Hg Ha]. apply list_elem_of_In in Hg.
      pose proof (proj1 (Forall_forall _ _) Hf g Hg) as Hgl. unfold field_in in *. cbn [sl_at written]. rewrite load_store_disjoint; [done|].
      rewrite length_le_bytes. unfold apart in Ha. cbn [fst snd] in Ha. apply orb_true_iff in Ha. rewrite !Z.leb_le in Ha. lia.
Qed.
Lemma page_zeroed m : BOOT_PARAMS_ADDR + 4096 ≤ sl_len m →
  runs (put BOOT_PARAMS_ADDR (replicate 4096 0)) m (λ _, page_holds m [(0x218, 4%nat, 0); (0x21C, 4%nat, 0)]).
Proof.
  intros Hl. apply runs_put; [rewrite length_replicate; lia|]. assert (holds BOOT_PARAMS_ADDR (replicate 4096 0) m (written BOOT_PARAMS_ADDR (replicate 4096 0) m)) as H.
  { pose proof (holds_app BOOT_PARAMS_ADDR [] (replicate 4096 0) m m (holds_nil _ _)) as H. cbn [app length Z.of_nat] in H. by rewrite Z.add_0_r in H. }
  split; [pose proof (proj1 H) as Ho; by rewrite length_replicate in Ho|].
  repeat constructor; unfold field_in; cbn [fst snd]; rewrite (holds_sub _ _ _ _ _ 4 H) by (rewrite ?length_replicate; boot_consts; lia);
    rewrite drop_replicate, take_replicate; reflexivity.
Qed.

(** The map of memory as the guest reads it: type, base and size. *)
Definition e820_fields (size : Z) : list param_field :=
  [(0x1E8, 1%nat, 4);
   (0x2D0, 8%nat, 0); (0x2D8, 8%nat, 0x9FC00); (0x2E0, 4%nat, E820_RAM);
   (0x2E4, 8%nat, 0x9FC00); (0x2EC, 8%nat, 0x400); (0x2F4, 4%nat, E820_RESERVED);
   (0x2F8, 8%nat, 0xA0000); (0x300, 8%nat, 0x60000); (0x308, 4%nat, E820_RESERVED);
   (0x30C, 8%nat, 0x100000); (0x314, 8%nat, size -! 0x100000); (0x31C, 4%nat, E820_RAM)].
Definition param_fields (size cmdline_len ramdisk_addr ramdisk_size : Z) : list param_field :=
  [(0x1F1, 1%nat, 0); (0x1FE, 2%nat, 0xAA55); (0x202, 4%nat, 0x53726448); (0x206, 2%nat, 0x020F); (0x210, 1%nat, 0xFF); (0x211, 1%nat, 0x81);
   (0x218, 4%nat, u32 ramdisk_addr); (0x21C, 4%nat, u32 ramdisk_size); (0x224, 2%nat, 0xFE00); (0x228, 4%nat, CMDLINE_ADDR);
   (0x238, 4%nat, u32 cmdline_len)] ++ e820_fields size.
Lemma page_step m0 n off v m l (f : () → BM ()) Q : BOOT_PARAMS_ADDR + 4096 ≤ sl_len m0 → page_holds m0 l m →
  (0 <=? off) && (off + Z.of_nat n <=? 4096) = true →
  (∀ m', page_holds m0 (push (off, n, v) l) m' → runs (f ()) m' Q) → runs (write_param off (le_bytes n v) ≫= f) m Q.
Proof. intros Hl Hm Hr Hf. eapply runs_bind; [by apply page_write|]. intros [] m' Hm'. by apply Hf. Qed.
Ltac page_field n off v H := eapply (page_step _ n off v); [|exact H|reflexivity|]; [assumption|]; clear H; intros ? H; cbv beta.
Lemma e820_entry_runs m0 m l off a s t : BOOT_PARAMS_ADDR + 4096 ≤ sl_len m0 → page_holds m0 l m → (0 <=? off) && (off + 20 <=? 4096) = true →
  runs (write_param off (le_bytes 8 a);; write_param (off + 8) (le_bytes 8 s);; write_param (off + 16) (le_bytes 4 t)) m
    (λ _, page_holds m0 (push (off + 16, 4%nat, t) (push (off + 8, 8%nat, s) (push (off, 8%nat, a) l)))).
Proof.
  intros Hl H Ho. apply andb_true_iff in Ho as [H0 H1]. apply Z.leb_le in H0, H1.
  assert (∀ k n, 0 ≤ k → k + Z.of_nat n ≤ 20 → (0 <=? off + k) && (off + k + Z.of_nat n <=? 4096) = true) as Hk.
  { intros k n ??. apply andb_true_iff. rewrite !Z.leb_le. lia. }
  pose proof (Hk 0 8%nat ltac:(lia) ltac:(lia)) as Hz. rewrite Z.add_0_r in Hz.
  eapply page_step; [done|exact H|exact Hz|]. clear H. intros m' H. eapply page_step; [done|exact H|apply Hk; lia|]. clear H. intros m'' H.
  apply page_write; [done|exact H|apply Hk; lia].
Qed.
Lemma setup_e820_table_runs size m0 m l : BOOT_PARAMS_ADDR + 4096 ≤ sl_len m0 → page_holds m0 l m →
  runs (setup_e820_table size) m (λ _, page_holds m0 (fold_left (flip push) (e820_fields size) l)).
Proof.
  intros Hl H. unfold setup_e820_table. cbv zeta. page_field 1%nat 0x1E8 4 H. cbn [e820_map imap for_each e820_addr e820_size e820_type].
  do 4 (eapply runs_bind; [eapply e820_entry_runs; [exact Hl|exact H|reflexivity]|]; clear H; intros [] ? H; cbv beta). exact H.
Qed.
Lemma ramdisk_runs m0 m l off o : BOOT_PARAMS_ADDR + 4096 ≤ sl_len m0 → page_holds m0 l m → (off, 4%nat, 0) ∈ l → (0 <=? off) && (off + 4 <=? 4096) = true →
  runs (if o is Some v then write_u32 off (u32 v) else mret ()) m (λ _, page_holds m0 (push (off, 4%nat, u32 (default 0 o)) l)).
Proof.
  intros Hl H Hin Ho. destruct o as [v|]; [by apply (page_write m0 m l off 4)|]. destruct H as [H1 H2]. split; [done|]. constructor.
  - apply (proj1 (Forall_forall _ _) H2 _ Hin).
  - apply Forall_forall. intros g Hg. apply list_elem_of_In, filter_In in Hg as [Hg _]. apply (proj1 (Forall_forall _ _) H2). by apply list_elem_of_In.
Qed.
Lemma setup_boot_params_runs size cmdline addr sz m :
  BOOT_PARAMS_ADDR + 4096 ≤ sl_len m →
  runs (setup_boot_params size cmdline addr sz) m (λ _,
    page_holds m (param_fields size (Z.of_nat (length cmdline)) (default 0 addr) (default 0 sz))).
Proof.
  intros Hl. unfold setup_boot_params, window, demand.
  eapply (runs_bind _ _ _ (λ _ m', m' = m)); [unfold runs; by rewrite (proj2 (Z.leb_le _ _) Hl)|]. intros [] ? ->.
  eapply runs_bind; [by apply page_zeroed|]. intros [] m1 H.
  page_field 1%nat 0x1F1 0 H. page_field 2%nat 0x1FE 0xAA55 H. page_field 4%nat 0x202 0x53726448 H. page_field 2%nat 0x206 0x020F H.
  page_field 1%nat 0x210 0xFF H. page_field 1%nat 0x211 0x81 H.
  eapply runs_bind; [apply (ramdisk_runs _ _ _ 0x218 addr Hl H); [apply list_elem_of_In; do 6 right; left; reflexivity|reflexivity]|]; clear H; intros [] ? H; cbv beta.
  eapply runs_bind; [apply (ramdisk_runs _ _ _ 0x21C sz Hl H); [apply list_elem_of_In; do 7 right; left; reflexivity|reflexivity]|]; clear H; intros [] ? H; cbv beta.
  page_field 2%nat 0x224 0xFE00 H. page_field 4%nat 0x228 CMDLINE_ADDR H. page_field 4%nat 0x238 (u32 (Z.of_nat (length cmdline))) H.
  eapply runs_mono; [by eapply setup_e820_table_runs|]. clear H. intros [] m9 [Ho H]. split; [exact Ho|].
  rewrite <-(reverse_involutive (param_fields _ _ _ _)). apply Forall_reverse. exact H.
Qed.
Lemma write_cmdline_runs cmdline m : CMDLINE_ADDR + Z.of_nat (length cmdline) + 1 ≤ sl_len m →
  runs (write_cmdline cmdline) m (λ _, holds CMDLINE_ADDR (cmdline ++ [0]) m).
Proof.
  intros Hl. unfold write_cmdline, window, demand. cbv zeta.
  eapply (runs_bind _ _ _ (λ _ m', m' = m)); [unfold runs; by rewrite (proj2 (Z.leb_le _ _)) by lia|]. intros [] ? ->.
  eapply (runs_bind _ _ _ (λ _, holds CMDLINE_ADDR cmdline m)).
  - apply runs_put; [lia|]. pose proof (holds_app CMDLINE_ADDR [] cmdline m m (holds_nil _ _)) as H. cbn [app length Z.of_nat] in H. by rewrite Z.add_0_r in H.
  - intros [] m' Hm. apply runs_put; [rewrite (proj1 (proj1 Hm)); cbn; lia|]. by apply holds_app.
Qed.

(** ** The kernel *)
Record phdr_ok (p : ProgramHeader) : Prop := {
  ph_offset : 0 ≤ p_offset p; ph_paddr : 0 ≤ p_paddr p; ph_filesz : 0 ≤ p_filesz p ≤ p_memsz p
}.
Definition segment_end (p : ProgramHeader) : Z := p_paddr p + p_memsz p.
Definition segment_error (data : list Z) (len : Z) (p : ProgramHeader) : option BootError :=
  if 2 ^ 64 <=? segment_end p then Some SegmentOverflow
  else if len <? segment_end p then Some SegmentExceedsMemory
  else if 2 ^ 64 <=? p_offset p + p_filesz p then Some FileOffsetOverflow
  else if Z.of_nat (length data) <? p_offset p + p_filesz p then Some SegmentExceedsFile
  else None.
(** What a segment looks like in memory: its bytes of the file, then zeros. *)
Definition segment_bytes (data : list Z) (p : ProgramHeader) : list Z :=
  sub_slice data (p_offset p) (p_offset p + p_filesz p) ++ replicate (Z.to_nat (p_memsz p - p_filesz p)) 0.
Lemma length_sub_slice data first last : 0 ≤ first ≤ last → last ≤ Z.of_nat (length data) → Z.of_nat (length (sub_slice data first last)) = last - first.
Proof. intros H1 H2. unfold sub_slice. rewrite length_take, length_drop. lia. Qed.
Lemma load_segment_spec data p m : phdr_ok p →
  match segment_error data (sl_len m) p with
  | Some e => load_segment data p m = (Fail e, m)
  | None => Z.of_nat (length (segment_bytes data p)) = p_memsz p ∧
            runs (load_segment data p) m (λ e m', e = segment_end p ∧ holds (p_paddr p) (segment_bytes data p) m m')
  end.
Proof.
  intros [H0 Hp Hf]. unfold segment_error, load_segment, checked_add, segment_end.
  destruct (Z.leb_spec (2 ^ 64) (p_paddr p + p_memsz p)); [by rewrite (proj2 (Z.ltb_ge (_ + _) (2 ^ 64))) by lia|].
  rewrite (proj2 (Z.ltb_lt (p_paddr p + p_memsz p) (2 ^ 64))) by lia.
  unfold runs, gets, mbind, M_bind. destruct (Z.ltb_spec (sl_len m) (p_paddr p + p_memsz p)); [done|].
  destruct (Z.leb_spec (2 ^ 64) (p_offset p + p_filesz p)); [by rewrite (proj2 (Z.ltb_ge (_ + _) (2 ^ 64))) by lia|].
  rewrite (proj2 (Z.ltb_lt (p_offset p + p_filesz p) (2 ^ 64))) by lia.
  destruct (Z.ltb_spec (Z.of_nat (length data)) (p_offset p + p_filesz p)); [done|].
  pose proof (length_sub_slice data (p_offset p) (p_offset p + p_filesz p) ltac:(lia) ltac:(lia)) as Hs.
  assert (Z.of_nat (length (segment_bytes data p)) = p_memsz p) as Hn by (unfold segment_bytes; rewrite length_app, length_replicate; lia). split; [done|].
  rewrite put_done by lia. unfold fill_zero. rewrite (proj2 (Z.leb_le (p_paddr p + p_filesz p) _)) by lia.
  rewrite put_done by (cbn [sl_len written]; rewrite length_replicate; lia). cbn [mret M_ret]. split; [done|].
  pose proof (holds_app (p_paddr p) [] (sub_slice data (p_offset p) (p_offset p + p_filesz p)) m m (holds_nil _ _)) as H'.
  cbn [app length Z.of_nat] in H'. rewrite Z.add_0_r in H'.
  pose proof (holds_app _ _ (replicate (Z.to_nat (p_memsz p - p_filesz p)) 0) _ _ H') as H''. rewrite Hs in H''.
  unfold segment_bytes. replace (p_paddr p + p_memsz p - (p_paddr p + p_filesz p)) with (p_memsz p - p_filesz p) by lia.
  by replace (p_offset p + p_filesz p - p_offset p) with (p_filesz p) in H'' by lia.
Qed.

Definition loaded (data : list Z) (p : ProgramHeader) m : Prop := load (sl_at m) (p_paddr p) (length (segment_bytes data p)) = segment_bytes data p.
Definition segments_apart (p q : ProgramHeader) : Prop := segment_end p ≤ p_paddr q ∨ segment_end q ≤ p_paddr p.
(** Nothing changes outside the segments. *)
Definition outside_segments (l : list ProgramHeader) m m' : Prop :=
  sl_len m' = sl_len m ∧ ∀ a, Forall (λ p, a < p_paddr p ∨ segment_end p ≤ a) l → sl_at m' a = sl_at m a.
Definition segments_error (data : list Z) (len : Z) (l : list ProgramHeader) : option BootError := head (omap (segment_error data len) l).
Lemma load_segments_spec data l : Forall phdr_ok l → ForallOrdPairs segments_apart l → ∀ m e0,
  match segments_error data (sl_len m) l with
  | Some e => ∃ m', load_segments data l e0 m = (Fail e, m')
  | None => runs (load_segments data l e0) m (λ e m', e = fold_left Z.max (segment_end <$> l) e0 ∧ Forall (λ p, segment_end p ≤ sl_len m ∧ Z.of_nat (length (segment_bytes data p)) = p_memsz p) l ∧
              Forall (λ p, loaded data p m') l ∧ outside_segments l m m')
  end.
Proof.
  induction l as [|p l IH]; intros Hok Hap m e0; [by repeat split|].
  apply Forall_cons in Hok as [Hp Hok]. inversion Hap as [|? ? Hpl Hap']; subst. unfold segments_error. cbn [omap list_omap load_segments].
  pose proof (load_segment_spec data p m Hp) as Hs. destruct (segment_error data (sl_len m) p) as [e|] eqn:Ee.
  { cbn [head]. exists m. unfold mbind, M_bind. by rewrite Hs. }
  destruct Hs as [Hn Hs]. apply runs_done in Hs as (x & m1 & E1 & -> & Hm1). specialize (IH Hok Hap' m1 (Z.max e0 (segment_end p))).
  pose proof (proj1 (proj1 Hm1)) as Hlen. unfold segments_error in IH. rewrite Hlen in IH. destruct (head (omap _ l)) as [e|].
  { destruct IH as [m' IH]. exists m'. unfold mbind, M_bind. by rewrite E1. }
  apply runs_done in IH as (x & m' & E2 & -> & Hg & Hl & Hout). unfold runs, mbind, M_bind. rewrite E1, E2.
  assert (segment_end p ≤ sl_len m) as Hpe.
  { unfold segment_error in Ee. destruct (2 ^ 64 <=? segment_end p); [done|]. destruct (Z.ltb_spec (sl_len m) (segment_end p)); [done|lia]. }
  split; [done|]. split; [by constructor|]. destruct Hm1 as [Ho1 Hl1]. assert (p_paddr p + Z.of_nat (length (segment_bytes data p)) = segment_end p) as Hpe' by (unfold segment_end; lia).
  rewrite Hpe' in Ho1. split.
  - constructor; [|done]. unfold loaded. rewrite <-Hl1 at 2. apply list_eq_same_length with (length (segment_bytes data p)); rewrite ?length_load; [done|done|].
    intros i x y Hi. rewrite !lookup_load by done. rewrite (proj2 Hout); [congruence|]. eapply Forall_impl; [exact Hpl|]. unfold segments_apart, segment_end. cbn. lia.
  - destruct Hout as [L O]. split; [congruence|]. intros a Ha. apply Forall_cons in Ha as [Ha1 Ha2]. rewrite O by done. by apply (proj2 Ho1).
Qed.

(** ** All of it *)
Definition initramfs_len (config : LinuxBootConfig) : Z := Z.of_nat (length (default [] (bc_initramfs config))).
(** Sizes for which no access leaves memory and no sum wraps. *)
Record boot_bounds (size : Z) (config : LinuxBootConfig) : Prop := {
  bb_size : 2 ^ 20 ≤ size ≤ 2 ^ 39;
  bb_cmdline : CMDLINE_ADDR + Z.of_nat (length (bc_cmdline config)) + 1 ≤ size;
  bb_kernel : 0 ≤ kernel_end config ∧ kernel_end config + ALIGN_2MB + initramfs_len config < 2 ^ 64
}.
Lemma num_gb_fits size : 2 ^ 20 ≤ size ≤ 2 ^ 39 → num_gb size ≤ 512 ∧ PD_ADDR + 4096 * num_gb size ≤ size.
Proof.
  intros Hs. unfold num_gb. pose proof (Z.div_mod (size + 2 ^ 30 - 1) (2 ^ 30)). pose proof (Z.mod_pos_bound (size + 2 ^ 30 - 1) (2 ^ 30)). boot_consts. lia.
Qed.
Lemma initramfs_base_spec e : 0 ≤ e → e + ALIGN_2MB < 2 ^ 64 →
  e ≤ initramfs_base e < e + 2 ^ 21 ∧ initramfs_base e mod 2 ^ 21 = 0.
Proof.
  intros H0 H1. unfold initramfs_base, wrapping_add, u64. rewrite wrap_small by (unfold in_width, ALIGN_2MB in *; lia).
  change ALIGN_2MB with (Z.ones 21). rewrite Z.ldiff_ones_r, Z.shiftl_mul_pow2, Z.shiftr_div_pow2 by lia.
  change (Z.ones 21) with (2 ^ 21 - 1). pose proof (Z.div_mod (e + (2 ^ 21 - 1)) (2 ^ 21)). pose proof (Z.mod_pos_bound (e + (2 ^ 21 - 1)) (2 ^ 21)).
  split; [lia|]. by rewrite Z.mod_mul.
Qed.

Definition boot_info (config : LinuxBootConfig) : LinuxBootInfo :=
  mkBootInfo GDT_ADDR 0x2F ((λ _, initramfs_base (kernel_end config)) <$> bc_initramfs config) ((λ d, Z.of_nat (length d)) <$> bc_initramfs config).
Definition boot_regs (config : LinuxBootConfig) : GuestRegisters := linux_boot_regs (kernel_entry config) GDT_ADDR 0x2F.
Definition initramfs_fits (size : Z) (config : LinuxBootConfig) : bool :=
  if bc_initramfs config is Some data then initramfs_base (kernel_end config) + Z.of_nat (length data) <=? size else true.
(** The steps of the set-up, each with the region it writes. *)
Record boot_stages (config : LinuxBootConfig) m m1 m2 m3 m4 m5 m6 : Prop := {
  bs_gdt : outside GDT_ADDR 0x668 m m1 ∧ load (sl_at m1) GDT_ADDR 48 = concat (le_bytes 8 <$> gdt_words) ∧ load (sl_at m1) TSS_ADDR 104 = replicate 104 0;
  bs_tables : boot_tables (sl_len m) m2 ∧ outside PML4_ADDR (PD_ADDR + 4096 * num_gb (sl_len m)) m1 m2;
  bs_mp : ∃ bs, holds MPTABLE_BASE bs m2 m3 ∧ length bs = MPTABLE_LEN ∧ mp_read MPTABLE_BASE bs = Some (APIC_BASE, mp_machine);
  bs_initramfs : match bc_initramfs config with Some data => holds (initramfs_base (kernel_end config)) data m3 m4 | None => m4 = m3 end;
  bs_params : page_holds m4 (param_fields (sl_len m) (Z.of_nat (length (bc_cmdline config))) (default 0 (bi_initramfs_addr (boot_info config))) (default 0 (bi_initramfs_size (boot_info config)))) m5;
  bs_cmdline : holds CMDLINE_ADDR (bc_cmdline config ++ [0]) m5 m6
}.
Lemma load_initramfs_spec size config m : boot_bounds size config → sl_len m = size →
  if initramfs_fits size config
  then runs (load_initramfs size (kernel_end config) (bc_initramfs config)) m (λ a m',
         a = (bi_initramfs_addr (boot_info config), bi_initramfs_size (boot_info config)) ∧
         match bc_initramfs config with Some data => holds (initramfs_base (kernel_end config)) data m m' | None => m' = m end)
  else load_initramfs size (kernel_end config) (bc_initramfs config) m = (Fail InitramfsTooLarge, m).
Proof.
  intros [Hs Hc [Hk1 Hk2]] Hm. unfold initramfs_fits, load_initramfs, boot_info, initramfs_len in *. destruct (bc_initramfs config) as [data|]; [|done].
  change (default [] (Some data)) with data in Hk2. cbv zeta.
  destruct (initramfs_base_spec (kernel_end config)) as [Hb _]; [done|lia|]. unfold wrapping_add, u64. rewrite wrap_small by (unfold in_width, ALIGN_2MB in *; lia).
  destruct (Z.leb_spec (initramfs_base (kernel_end config) + Z.of_nat (length data)) size).
  - rewrite (proj2 (Z.ltb_ge _ _)) by lia. unfold runs, mbind, M_bind. rewrite put_done by lia. cbn [mret M_ret]. split; [done|].
    pose proof (holds_app (initramfs_base (kernel_end config)) [] data m m (holds_nil _ _)) as H'. cbn [app length Z.of_nat] in H'. by rewrite Z.add_0_r in H'.
  - by rewrite (proj2 (Z.ltb_lt _ _)) by lia.
Qed.
Lemma setup_linux_boot_stages set_regs config m : boot_bounds (sl_len m) config →
  if initramfs_fits (sl_len m) config
  then ∃ m1 m2 m3 m4 m5 m6, boot_stages config m m1 m2 m3 m4 m5 m6 ∧
         setup_linux_boot false true set_regs config m = (if set_regs (boot_regs config) then Done (boot_info config) else Fail SetRegs, m6)
  else ∃ m1 m2 m', setup_linux_boot false true set_regs config m = (Fail InitramfsTooLarge, m') ∧ outside GDT_ADDR 0x668 m m1 ∧
         outside PML4_ADDR (PD_ADDR + 4096 * num_gb (sl_len m)) m1 m2 ∧ outside MPTABLE_BASE (MPTABLE_BASE + Z.of_nat MPTABLE_LEN) m2 m'.
Proof.
  intros Hb. pose proof Hb as [Hs Hc Hk]. destruct (num_gb_fits _ Hs) as [Hn Hpd].
  destruct (runs_done _ _ _ (setup_gdt_runs m ltac:(lia))) as (a & m1 & E1 & -> & Hgdt). pose proof (proj1 (proj1 Hgdt)) as L1.
  destruct (runs_done _ _ _ (setup_page_tables_runs (sl_len m) m1 Hn ltac:(lia) ltac:(lia))) as ([] & m2 & E2 & Htab). pose proof (proj1 (proj2 Htab)) as L2.
  destruct (runs_done _ _ _ (setup_mptable_runs m2 ltac:(boot_consts; unfold MPTABLE_LEN; lia))) as ([] & m3 & E3 & bs & Hmp). pose proof (proj1 (proj1 (proj1 Hmp))) as L3.
  assert (setup_linux_boot false true set_regs config m =
    ('(initramfs_addr, initramfs_size) ← load_initramfs (sl_len m) (kernel_end config) (bc_initramfs config);
     setup_boot_params (sl_len m) (bc_cmdline config) initramfs_addr initramfs_size;;
     write_cmdline (bc_cmdline config);;
     if set_regs (boot_regs config) then mret (mkBootInfo GDT_ADDR 0x2F initramfs_addr initramfs_size) else throw SetRegs) m3) as ->.
  { unfold setup_linux_boot, gets. unfold mbind at 1 2 3 4, M_bind at 1 2 3 4. cbn [negb]. rewrite E1. cbv beta iota. rewrite E2, E3. reflexivity. }
  pose proof (load_initramfs_spec (sl_len m) config m3 Hb ltac:(congruence)) as Hi.
  destruct (initramfs_fits (sl_len m) config); [|exists m1, m2, m3; unfold mbind, M_bind; rewrite Hi; destruct Hgdt, Htab, Hmp as ([] & <- & _); by split_and!].
  apply runs_done in Hi as (a & m4 & E4 & -> & Hi). assert (sl_len m4 = sl_len m) as L4 by (destruct (bc_initramfs config); [rewrite (proj1 (proj1 Hi))|rewrite Hi]; congruence).
  destruct (runs_done _ _ _ (setup_boot_params_runs (sl_len m) (bc_cmdline config) (bi_initramfs_addr (boot_info config)) (bi_initramfs_size (boot_info config)) m4
    ltac:(boot_consts; lia))) as ([] & m5 & E5 & Hp). pose proof (proj1 (proj1 Hp)) as L5.
  destruct (runs_done _ _ _ (write_cmdline_runs (bc_cmdline config) m5 ltac:(lia))) as ([] & m6 & E6 & Hw).
  exists m1, m2, m3, m4, m5, m6. split; [constructor; eauto|]. unfold mbind, M_bind. rewrite E4, E5, E6.
  by destruct (set_regs (boot_regs config)).
Qed.

(** ** The bytes that change *)

(** Below this address are the structures; above it only the initial file system. *)
Definition low_end (size : Z) (config : LinuxBootConfig) : Z :=
  Z.max (2 ^ 20) (Z.max (PD_ADDR + 4096 * num_gb size) (CMDLINE_ADDR + Z.of_nat (length (bc_cmdline config)) + 1)).
Definition in_initramfs (config : LinuxBootConfig) (a : Z) : Prop :=
  initramfs_base (kernel_end config) ≤ a < initramfs_base (kernel_end config) + initramfs_len config.
Lemma stage_initramfs config m m4 a :
  match bc_initramfs config with Some data => holds (initramfs_base (kernel_end config)) data m m4 | None => m4 = m end →
  ¬ in_initramfs config a → sl_len m4 = sl_len m ∧ sl_at m4 a = sl_at m a.
Proof.
  unfold in_initramfs, initramfs_len. destruct (bc_initramfs config) as [data|]; [|by intros ->]. change (default [] (Some data)) with data.
  intros [[L H] _] Ha. split; [done|]. apply H. lia.
Qed.
Lemma stages_keep config m m1 m2 m3 m4 m5 m6 a :
  boot_stages config m m1 m2 m3 m4 m5 m6 → low_end (sl_len m) config ≤ a → ¬ in_initramfs config a → sl_len m6 = sl_len m ∧ sl_at m6 a = sl_at m a.
Proof.
  intros [[[L1 H1] _] [_ [L2 H2]] (bs & [[L3 H3] _] & Hbs & _) H4 [[L5 H5] _] [[L6 H6] _]] Ha Hi.
  destruct (stage_initramfs _ _ _ a H4 Hi) as [L4 E4]. rewrite length_app in H6. cbn [length] in H6. unfold low_end, MPTABLE_LEN in *.
  split; [congruence|]. rewrite H6, H5, E4, H3, H2, H1 by (boot_consts; lia). done.
Qed.

(** ** The whole image *)
Definition param m (off : Z) (n : nat) : Z := of_le (load (sl_at m) (BOOT_PARAMS_ADDR + off) n).
(** The map of memory as the kernel reads it from its parameters. *)
Definition e820_read m : list E820Entry :=
  (λ i : nat, let o := E820_TABLE + 20 * Z.of_nat i in mkE820 (param m o 8) (param m (o + 8) 8) (param m (o + 16) 4)) <$> seq 0 (Z.to_nat (param m 0x1E8 1)).
(** Entries that follow each other without gap or overlap, up to an end. *)
Fixpoint tiles (first : Z) (l : list E820Entry) : option Z :=
  match l with
  | [] => Some first
  | e :: l => if e820_addr e =? first then tiles (first + e820_size e) l else None
  end.
Lemma param_value m off n v l : Forall (field_in m) l → (off, n, v) ∈ l → in_width (8 * Z.of_nat n) v → param m off n = v.
Proof. intros Hl Hin Hw. unfold param. rewrite (proj1 (Forall_forall _ _) Hl _ Hin). by apply of_le_le_bytes_small. Qed.
Lemma e820_read_map size c a z m : 2 ^ 20 ≤ size < 2 ^ 64 → Forall (field_in m) (param_fields size c a z) → e820_read m = e820_map size.
Proof.
  intros Hs Hf. apply Forall_app in Hf as [_ Hf].
  assert (∀ off n v, (off, n, v) ∈ e820_fields size → in_width (8 * Z.of_nat n) v → param m off n = v) as Hv by (intros; by eapply param_value).
  assert (in_width 64 (size -! 0x100000)) as Hw by (apply in_width_wrap; lia).
  unfold e820_read. rewrite (Hv 0x1E8 1%nat 4) by (first [by left|by apply width_const]). cbn [seq fmap list_fmap Z.to_nat Pos.to_nat Pos.iter_op Nat.add].
  unfold e820_map, e820_fields in *. set (top := size -! 0x100000) in *. clearbody top.
  repeat apply (f_equal2 cons); [..|reflexivity]; apply (f_equal3 mkE820); (apply Hv; [apply list_elem_of_In; cbn; repeat (first [left; reflexivity|right])|first [exact Hw|by apply width_const]]).
Qed.
Lemma e820_tiles size : 2 ^ 20 ≤ size < 2 ^ 64 → tiles 0 (e820_map size) = Some size.
Proof.
  intros Hs. cbn -[wrapping_sub Z.pow]. unfold wrapping_sub, u64. rewrite wrap_small by (unfold in_width; lia). f_equal. lia.
Qed.

(** Where the structures are apart: at most 24 page directories before the
    command line, which ends before the tables of processors; a kernel above
    1 MiB. *)
Record layout_ok (size : Z) (config : LinuxBootConfig) : Prop := {
  lo_size : 2 ^ 20 ≤ size ≤ 24 * 2 ^ 30;
  lo_cmdline : CMDLINE_ADDR + Z.of_nat (length (bc_cmdline config)) + 1 ≤ MPTABLE_BASE;
  lo_kernel : 2 ^ 20 ≤ kernel_end config ≤ size;
  lo_initramfs : initramfs_fits size config = true
}.
Record image (size : Z) (config : LinuxBootConfig) m : Prop := {
  im_gdt : load (sl_at m) GDT_ADDR 48 = concat (le_bytes 8 <$> gdt_words);
  im_tss : load (sl_at m) TSS_ADDR 104 = replicate 104 0;
  im_tables : boot_tables size m;
  im_mp : mp_read MPTABLE_BASE (load (sl_at m) MPTABLE_BASE MPTABLE_LEN) = Some (APIC_BASE, mp_machine);
  im_params : Forall (field_in m) (param_fields size (Z.of_nat (length (bc_cmdline config))) (default 0 (bi_initramfs_addr (boot_info config))) (default 0 (bi_initramfs_size (boot_info config))));
  im_e820 : e820_read m = e820_map size ∧ tiles 0 (e820_read m) = Some size;
  im_cmdline : load (sl_at m) CMDLINE_ADDR (S (length (bc_cmdline config))) = bc_cmdline config ++ [0];
  im_initramfs : let base := initramfs_base (kernel_end config) in
    kernel_end config ≤ base ∧ base mod 2 ^ 21 = 0 ∧ ∀ data, bc_initramfs config = Some data → load (sl_at m) base (length data) = data ∧ base + Z.of_nat (length data) ≤ size
}.
Lemma layout_bounds size config : layout_ok size config → boot_bounds size config ∧ num_gb size ≤ 24.
Proof.
  intros [Hs Hc Hk Hi]. pose proof (Z.div_mod (size + 2 ^ 30 - 1) (2 ^ 30)). pose proof (Z.mod_pos_bound (size + 2 ^ 30 - 1) (2 ^ 30)).
  split; [|unfold num_gb; lia]. split; [lia|boot_consts; lia|]. split; [lia|]. unfold initramfs_fits, initramfs_len in *. unfold ALIGN_2MB.
  destruct (bc_initramfs config) as [data|]; [|cbn; lia]. change (default [] (Some data)) with data. apply Z.leb_le in Hi.
  destruct (initramfs_base_spec (kernel_end config)) as [Hb _]; [lia|unfold ALIGN_2MB; lia|]. lia.
Qed.
Lemma boot_tables_kept size lo hi m m' : outside lo hi m m' → boot_tables size m →
  num_gb size ≤ 24 → hi ≤ PML4_ADDR ∨ (BOOT_PARAMS_ADDR ≤ lo ∧ hi ≤ PD_ADDR) ∨ CMDLINE_ADDR ≤ lo → boot_tables size m'.
Proof.
  intros Ho [T1 T2 T3 T4] Hn Hr. split; intros k Hk; (rewrite (word_outside lo hi m m') by (done || (boot_consts; lia))); auto.
Qed.
Lemma param_fields_page size c a z : Forall (λ f : param_field, f.1.1 + Z.of_nat f.1.2 ≤ 4096) (param_fields size c a z).
Proof. unfold param_fields, e820_fields. cbn [app]. repeat (apply Forall_cons; split; [cbn; lia|]). apply Forall_nil_2. Qed.
Section Image.
Context (config : LinuxBootConfig) (m m1 m2 m3 m4 m5 m6 : slice).
Context (Hl : layout_ok (sl_len m) config) (Hst : boot_stages config m m1 m2 m3 m4 m5 m6).
Lemma stage_initramfs_outside : outside (2 ^ 20) (sl_len m) m3 m4.
Proof.
  destruct Hl as [Hs Hc Hk Hi]. pose proof (bs_initramfs _ _ _ _ _ _ _ _ Hst) as H. unfold initramfs_fits in Hi.
  destruct (bc_initramfs config) as [data|]; [|by rewrite H; apply outside_refl]. apply Z.leb_le in Hi.
  destruct (initramfs_base_spec (kernel_end config)) as [Hb _]; [lia|unfold ALIGN_2MB; lia|]. eapply outside_weaken; [..|exact (proj1 H)]; lia.
Qed.
(** A read of the low structures, carried to the end. *)
Lemma low_kept a n : a + Z.of_nat n ≤ BOOT_PARAMS_ADDR ∨ BOOT_PARAMS_ADDR + 4096 ≤ a → a + Z.of_nat n ≤ CMDLINE_ADDR ∨ MPTABLE_BASE ≤ a → a + Z.of_nat n ≤ 2 ^ 20 →
  load (sl_at m6) a n = load (sl_at m3) a n.
Proof.
  intros H1 H2 H3. destruct Hst as [_ _ _ _ [Hp _] [Hc _]]. rewrite (outside_load _ _ _ _ a n Hc), (outside_load _ _ _ _ a n Hp), (outside_load _ _ _ _ a n stage_initramfs_outside); [done|lia|lia|].
  rewrite length_app. cbn [length]. destruct Hl. lia.
Qed.
Lemma boot_image : image (sl_len m) config m6.
Proof.
  destruct (layout_bounds _ _ Hl) as [Hb Hn]. pose proof stage_initramfs_outside as H4. destruct Hl as [Hs Hc Hk Hi].
  pose proof Hst as [[O1 [G1 T1]] [HT O2] (bs & [O3 Lm] & Hbs & Hmp) Hini [O5 Hp] Hw]. pose proof (proj1 Hw) as O6. rewrite length_app in O6. cbn [length] in O6.
  assert (∀ a n, a + Z.of_nat n ≤ PML4_ADDR → load (sl_at m6) a n = load (sl_at m1) a n) as Hlow.
  { intros a n Ha. rewrite low_kept by (boot_consts; lia). rewrite (outside_load _ _ _ _ a n O3), (outside_load _ _ _ _ a n O2); [done|boot_consts; lia..]. }
  assert (Forall (field_in m6) (param_fields (sl_len m) (Z.of_nat (length (bc_cmdline config))) (default 0 (bi_initramfs_addr (boot_info config))) (default 0 (bi_initramfs_size (boot_info config))))) as Hf.
  { eapply Forall_impl; [exact (proj2 (Forall_and _ _) (conj Hp (param_fields_page _ _ _ _)))|]. intros f [Hf Hpage]. unfold field_in in *.
    rewrite (outside_load _ _ _ _ _ _ O6); [done|]. left. boot_consts. lia. }
  split.
  - rewrite Hlow by (boot_consts; lia). done.
  - rewrite Hlow by (boot_consts; lia). done.
  - eapply boot_tables_kept; [exact O6| |done|boot_consts; lia]. eapply boot_tables_kept; [exact O5| |done|boot_consts; lia].
    eapply boot_tables_kept; [exact H4| |done|boot_consts; lia]. eapply boot_tables_kept; [exact O3|done|done|boot_consts; lia].
  - rewrite low_kept by (unfold MPTABLE_LEN; boot_consts; lia). rewrite <-Hbs, Lm. done.
  - done.
  - rewrite (e820_read_map (sl_len m) _ _ _ _ ltac:(lia) Hf). split; [done|]. apply e820_tiles. lia.
  - pose proof (proj2 Hw) as Hload. rewrite length_app in Hload. cbn [length] in Hload. by rewrite Nat.add_1_r in Hload.
  - cbv zeta. destruct Hb as [_ _ Hbk]. unfold ALIGN_2MB, initramfs_len in Hbk. destruct (initramfs_base_spec (kernel_end config)) as [Hbase Hmod]; [lia|unfold ALIGN_2MB; lia|].
    split; [lia|]. split; [done|]. intros data Ed. unfold initramfs_fits in Hi. rewrite Ed in Hini, Hi. apply Z.leb_le in Hi. split; [|done].
    rewrite (outside_load _ _ _ _ _ _ O6), (outside_load _ _ _ _ _ _ O5); [by apply Hini|boot_consts; lia..].
Qed.
End Image.

(** ** Selectors *)
Definition desc_base (d : Z) : Z := Z.lor (Z.land (Z.shiftr d 16) 0xFFFFFF) (Z.shiftl (Z.land (Z.shiftr d 56) 0xFF) 24).
(** A descriptor of the table against the hidden part of a register: the access
    byte but for the bit the processor sets on a load, long mode, and the base. *)
Definition describes (d mark : Z) (s : SegmentRegister) : bool :=
  (Z.lor (Z.land (Z.shiftr d 40) 0xFF) mark =? Z.land (seg_access_rights s) 0xFF) && Bool.eqb (Z.testbit d 53) (Z.testbit (seg_access_rights s) 13) &&
  (desc_base d =? seg_base s).
Definition described (r : GuestRegisters) (s : segment) (mark : Z) : bool :=
  let seg := g_segment r s in
  (seg_selector seg + 7 <=? table_limit (g_gdtr r)) && describes (nth (Z.to_nat (seg_selector seg / 8)) gdt_words 0) mark seg.
(** The registers that a VMCS and the general registers of a VM hold. *)
Definition vm_registers (s : Vcpu) : GuestRegisters := registers_at (λ f, default 0 (vmcs s !! f)) (gprs s).
(** The segments and tables are those of the boot. *)
Definition boot_segments config (r : GuestRegisters) : Prop :=
  (∀ s, g_segment r s = g_segment (boot_regs config) s) ∧ g_gdtr r = g_gdtr (boot_regs config) ∧ g_efer r = g_efer (boot_regs config).
Lemma boot_segments_enter config r : boot_segments config r → entry_segments_ok false r = true.
Proof. intros (Hs & _ & He). unfold entry_segments_ok. rewrite !Hs, He. cbn [forallb]. rewrite !Hs. by destruct (Z.testbit (cr0 (g_control r)) 0). Qed.
Lemma boot_segments_described config r s mark : boot_segments config r →
  (s, mark) ∈ [(SegCs, 1); (SegDs, 1); (SegEs, 1); (SegFs, 1); (SegGs, 1); (SegSs, 1); (SegTr, 2)] → described r s mark = true.
Proof.
  intros (Hs & Hg & _) Hin. unfold described. rewrite !Hs, Hg. repeat (apply elem_of_cons in Hin as [[= -> ->]|Hin]; [reflexivity|]). by apply not_elem_of_nil in Hin.
Qed.
Lemma boot_regs_ok config : in_width 64 (kernel_entry config) → registers_ok (boot_regs config).
Proof.
  intros He. unfold boot_regs, linux_boot_regs. constructor; cbn -[in_width]; try (split; by apply width_const); try (by apply width_const); [..|exact He].
  - intros g. by destruct g; apply width_const.
  - intros s. destruct s; constructor; by apply width_const.
Qed.

(** ** The image is made of bytes *)
Definition bytes_ok m : Prop := ∀ a, is_byte (sl_at m a).
Definition keeps_bytes {A} (k : BM A) : Prop := ∀ m, bytes_ok m → bytes_ok (k m).2.
Create HintDb boot.
Lemma kb_bind {A B} (k : BM A) (f : A → BM B) : keeps_bytes k → (∀ a, keeps_bytes (f a)) → keeps_bytes (k ≫= f).
Proof. intros Hk Hf m Hm. unfold mbind, M_bind. specialize (Hk m Hm). destruct (k m) as [[a|e|] m']; [by apply Hf|done..]. Qed.
Lemma kb_ret {A} (a : A) : keeps_bytes (mret a).
Proof. by intros m Hm. Qed.
Lemma kb_throw {A} e : keeps_bytes (throw e : BM A).
Proof. by intros m Hm. Qed.
Lemma kb_stuck {A} : keeps_bytes (stuck : BM A).
Proof. by intros m Hm. Qed.
Lemma kb_gets {A} (f : slice → A) : keeps_bytes (gets f).
Proof. by intros m Hm. Qed.
Lemma kb_demand {A} (f : slice → option A) : keeps_bytes (demand f).
Proof. intros m Hm. unfold demand. by destruct (f m). Qed.
Lemma kb_put off bs : Forall is_byte bs → keeps_bytes (put off bs).
Proof.
  intros Hb m Hm. unfold put. destruct (_ <=? _); [|done]. intros a. cbn [snd sl_at]. unfold store. destruct (a <? off); [apply Hm|].
  destruct (bs !! Z.to_nat (a - off)) as [b|] eqn:E; [|apply Hm]. by apply (proj1 (Forall_lookup _ _) Hb _ _ E).
Qed.
Lemma kb_for_each {B} (l : list B) (f : B → BM ()) : (∀ x, keeps_bytes (f x)) → keeps_bytes (for_each l f).
Proof. intros Hf. induction l as [|x l IH]; [apply kb_ret|]. apply kb_bind; [apply Hf|done]. Qed.
Lemma kb_for_range n (f : nat → BM ()) : (∀ i, keeps_bytes (f i)) → keeps_bytes (for_range n f).
Proof. apply kb_for_each. Qed.
Lemma kb_append_all l off : Forall (Forall is_byte) l → keeps_bytes (append_all l off).
Proof.
  intros Hl. revert off. induction Hl as [|bs l Hb _ IH]; intros off; [apply kb_ret|]. apply kb_bind; [|exact IH]. apply kb_bind; [by apply kb_put|intros; apply kb_ret].
Qed.
Definition bytesb (l : list Z) : bool := forallb (λ b, (0 <=? b) && (b <? 256)) l.
Lemma byte_list l : bytesb l = true → Forall is_byte l.
Proof.
  intros H. apply Forall_forall. intros b Hb. apply list_elem_of_In in Hb. apply (proj1 (forallb_forall _ _) H) in Hb.
  apply andb_true_iff in Hb as [H1 H2]. unfold is_byte. lia.
Qed.
Lemma byte_lists l : forallb bytesb l = true → Forall (Forall is_byte) l.
Proof. intros H. apply Forall_forall. intros b Hb. apply list_elem_of_In in Hb. apply byte_list. by apply (proj1 (forallb_forall _ _) H). Qed.
Lemma zeros_bytes n : Forall is_byte (replicate n 0).
Proof. apply Forall_replicate. unfold is_byte. lia. Qed.
Lemma u8_byte z : Forall is_byte [u8 z].
Proof. repeat constructor; apply (in_width_wrap 8 z); lia. Qed.
#[export] Hint Resolve kb_ret kb_throw kb_stuck kb_gets kb_demand kb_put kb_append_all zeros_bytes u8_byte le_bytes_is_byte : boot.
Ltac kb := repeat match goal with
  | |- keeps_bytes (_ ≫= _) => apply kb_bind; [|intros ?]
  | |- keeps_bytes (for_range _ _) => apply kb_for_range; intros ?
  | |- keeps_bytes (for_each _ _) => apply kb_for_each; intros ?
  | |- keeps_bytes (put _ _) => solve [apply kb_put; first [solve [auto with boot] | apply byte_list; reflexivity]]
  | |- keeps_bytes (append_all _ _) => apply kb_append_all, byte_lists; reflexivity
  | |- keeps_bytes (if ?b then _ else _) => destruct b
  | |- keeps_bytes (match ?x with _ => _ end) => destruct x
  | |- keeps_bytes _ => solve [auto with boot]
  end.
Lemma kb_setup_gdt : keeps_bytes setup_gdt.
Proof. unfold setup_gdt, write_u64. kb. Qed.
Lemma kb_setup_page_tables size : keeps_bytes (setup_page_tables size).
Proof. unfold setup_page_tables, write_u64. cbv zeta. kb. Qed.
Lemma kb_setup_mptable : keeps_bytes setup_mptable.
Proof. unfold setup_mptable, mp_checksum, read_bytes. cbv zeta. kb. Qed.
Lemma kb_setup_boot_params size cmdline a z : keeps_bytes (setup_boot_params size cmdline a z).
Proof. unfold setup_boot_params, setup_e820_table, write_u8, write_u16, write_u32, write_param, window. cbv zeta. kb. Qed.
Lemma kb_write_cmdline cmdline : Forall is_byte cmdline → keeps_bytes (write_cmdline cmdline).
Proof. intros Hc. unfold write_cmdline, window. cbv zeta. kb. Qed.
Lemma kb_setup_linux_boot forked mapped set_regs config :
  Forall is_byte (bc_cmdline config) → Forall is_byte (default [] (bc_initramfs config)) → keeps_bytes (setup_linux_boot forked mapped set_regs config).
Proof.
  intros Hc Hi. unfold setup_linux_boot, load_initramfs. cbv zeta.
  pose proof kb_setup_gdt. pose proof kb_setup_page_tables. pose proof kb_setup_mptable. pose proof kb_setup_boot_params. pose proof (kb_write_cmdline _ Hc).
  destruct (bc_initramfs config); kb.
Qed.

(** * Theorems *)

(** C35: For every memory of 1 MiB to 512 GiB that holds the command line, and a kernel and an initial file system whose end is below 2^64, setting up a guest never
    panics: every access of the builders is inside memory.  It is refused for a fork and without a mapping, before anything is written; it fails otherwise only when
    the initial file system does not fit or the registers are refused.  In each case no byte changes above the low structures but those of
    the initial file system. *)
Theorem boot_stays_in_bounds forked mapped set_regs config m :
  boot_bounds (sl_len m) config →
  let '(result, m') := setup_linux_boot forked mapped set_regs config m in
  result =
    (if forked then Fail ForkedVm_no_access else if negb mapped then Fail NoMemoryAccess
     else if initramfs_fits (sl_len m) config then if set_regs (boot_regs config) then Done (boot_info config) else Fail SetRegs else Fail InitramfsTooLarge) ∧
  (forked || negb mapped = true → m' = m) ∧
  ∀ a, low_end (sl_len m) config ≤ a → ¬ in_initramfs config a → sl_len m' = sl_len m ∧ sl_at m' a = sl_at m a.
Proof.
  intros Hb. destruct forked; [by split_and!|]. destruct mapped; [|by split_and!]. pose proof (setup_linux_boot_stages set_regs config m Hb) as H. destruct (initramfs_fits (sl_len m) config).
  - destruct H as (m1 & m2 & m3 & m4 & m5 & m6 & Hst & ->). split; [done|]. split; [done|]. intros a Ha Hi. by eapply stages_keep.
  - destruct H as (m1 & m2 & m' & -> & [L1 H1] & [L2 H2] & [L3 H3]). split; [done|]. split; [done|]. intros a Ha _. unfold low_end, MPTABLE_LEN in *.
    split; [congruence|]. rewrite H3, H2, H1 by (boot_consts; lia). done.
Qed.

(** The kernel's end, as [load_kernel] returns it. *)
Definition segments_end (l : list ProgramHeader) : Z := fold_left Z.max (segment_end <$> l) 0.
Lemma fold_max_bounds l e0 b : (∀ x, x ∈ l → x ≤ b) → e0 ≤ b → e0 ≤ fold_left Z.max l e0 ≤ b ∧ ∀ x, x ∈ l → x ≤ fold_left Z.max l e0.
Proof.
  revert e0. induction l as [|x l IH]; intros e0 Hl H0; cbn [fold_left]; [split; [lia|]; by intros x ?%not_elem_of_nil|].
  destruct (IH (Z.max e0 x)) as [H1 H2]; [intros; apply Hl; by right|specialize (Hl x ltac:(by left)); lia|]. split; [lia|].
  intros y [->|Hy]%elem_of_cons; [lia|by apply H2].
Qed.
Lemma segments_end_max l p : p ∈ l → segment_end p ≤ segments_end l.
Proof.
  intros Hp. unfold segments_end. destruct (fold_max_bounds (segment_end <$> l) 0 (foldr Z.max 0 (segment_end <$> l))) as [_ H].
  - clear Hp. induction l as [|q l IH]; intros x; [by intros ?%not_elem_of_nil|]. cbn [fmap list_fmap foldr]. intros [->|Hx]%elem_of_cons; [lia|]. specialize (IH _ Hx). cbn in IH. lia.
  - clear Hp. induction l as [|q l IH]; cbn in *; lia.
  - apply H. by apply list_elem_of_fmap_2.
Qed.
Lemma segments_end_bounds l b : l ≠ [] → Forall (λ p, 2 ^ 20 ≤ p_paddr p) l → 0 ≤ b → Forall (λ p, segment_end p ≤ b) l → Forall (λ p, 0 ≤ p_memsz p) l →
  2 ^ 20 ≤ segments_end l ≤ b.
Proof.
  intros Hne Hlow H0 Hb Hm. split.
  - destruct l as [|p l]; [done|]. pose proof (segments_end_max (p :: l) p ltac:(by left)) as H. apply Forall_cons in Hlow as [Hp _], Hm as [Hm _].
    cbn in Hp. unfold segment_end in H. lia.
  - unfold segments_end. apply fold_max_bounds; [|done]. intros x Hx. apply list_elem_of_fmap in Hx as (p & -> & Hp). apply (proj1 (Forall_forall _ _) Hb _ Hp).
Qed.
Lemma loaded_kept data p m m' : loaded data p m →
  (∀ a, p_paddr p ≤ a < p_paddr p + Z.of_nat (length (segment_bytes data p)) → sl_len m' = sl_len m ∧ sl_at m' a = sl_at m a) → loaded data p m'.
Proof.
  intros Hl Ha. unfold loaded. rewrite <-Hl at 2. apply list_eq_same_length with (length (segment_bytes data p)); rewrite ?length_load; [done|done|].
  intros i x y Hi. rewrite !lookup_load by done. destruct (Ha (p_paddr p + Z.of_nat i)) as [_ ->]; [lia|]. congruence.
Qed.
(** C10: Booting a root VM loads the kernel and leaves the whole image in place.  For a kernel whose segments are above 1 MiB, inside the file and memory, and do not overlap, in
    1 MiB to 24 GiB of memory, with a command line that ends before the tables of processors and an initial file system that fits, and registers that are accepted, the boot succeeds, and every segment is in memory with its bytes of the file and its zeros, and so are descriptors, page tables, tables of
    processors with correct checksums, boot parameters, a memory map that covers memory without gap, the command line with its terminator, and
    the initial file system after the kernel at a multiple of 2 MiB: within these limits no builder overwrites what another one wrote (above 24 GiB one does, [cmdline_over_directory]). *)
Theorem kernel_boots parse set_regs data elf initramfs cmdline m :
  parse data = Some elf → e_machine elf = EM_X86_64 →
  let l := loadable (program_headers elf) in
  Forall phdr_ok l → ForallOrdPairs segments_apart l → Forall (λ p, 2 ^ 20 ≤ p_paddr p) l → l ≠ [] → segments_error data (sl_len m) l = None →
  let config := mkBootConfig (elf_entry elf) (segments_end l) initramfs cmdline in
  2 ^ 20 ≤ sl_len m ≤ 24 * 2 ^ 30 → CMDLINE_ADDR + Z.of_nat (length cmdline) + 1 ≤ MPTABLE_BASE → initramfs_fits (sl_len m) config = true →
  set_regs (boot_regs config) = true →
  ∃ m', boot_root parse set_regs data initramfs cmdline m = (Done (boot_info config), m') ∧ Forall (λ p, loaded data p m') l ∧ image (sl_len m) config m'.
Proof.
  intros Hp He l Hok Hap Hlow Hne Herr config Hs Hc Hi Hr.
  pose proof (load_segments_spec data l Hok Hap m 0) as Hl. rewrite Herr in Hl. apply runs_done in Hl as (e & m1 & E1 & -> & Hin & Hld & Hout).
  pose proof (proj1 Hout) as L1. fold (segments_end l) in E1.
  assert (load_kernel parse data m = (Done (elf_entry elf, segments_end l), m1)) as Ek.
  { unfold load_kernel. rewrite Hp, He. cbn [negb Z.eqb EM_X86_64 Pos.eqb]. fold l. unfold mbind, M_bind. by rewrite E1. }
  assert (layout_ok (sl_len m1) config) as Hlay.
  { rewrite L1. constructor; [done|done| |done]. apply segments_end_bounds; [done|done|lia|eapply Forall_impl; [exact Hin|tauto]|].
    eapply Forall_impl; [exact Hok|]. intros p []. lia. }
  destruct (layout_bounds _ _ Hlay) as [Hb Hn]. pose proof (setup_linux_boot_stages set_regs config m1 Hb) as H. rewrite (lo_initramfs _ _ Hlay) in H.
  destruct H as (m1' & m2 & m3 & m4 & m5 & m6 & Hst & E). rewrite Hr in E. exists m6. split.
  { unfold boot_root, mbind, M_bind. rewrite Ek. exact E. }
  split; [|rewrite <-L1; by eapply boot_image]. apply Forall_forall. intros p Hpl.
  apply (loaded_kept data p m1); [apply (proj1 (Forall_forall _ _) Hld _ Hpl)|]. intros a Ha.
  eapply stages_keep; [exact Hst| |].
  - pose proof (proj1 (Forall_forall _ _) Hlow _ Hpl) as Hpa. cbn in Hpa. unfold low_end. cbn [config bc_cmdline]. boot_consts. lia.
  - destruct (initramfs_base_spec (segments_end l)) as [Hbase _]; [pose proof (lo_kernel _ _ Hlay) as Hk; cbn in Hk; lia|pose proof (lo_kernel _ _ Hlay) as Hk; cbn in Hk; unfold ALIGN_2MB; lia|].
    pose proof (proj1 (Forall_forall _ _) Hin _ Hpl) as [_ Hlen]. pose proof (segments_end_max l p Hpl) as Hmax. unfold in_initramfs, segment_end in *. cbn [config kernel_end] in *. lia.
Qed.

Lemma address_space_low size x : 0 ≤ x < size → size ≤ 2 ^ 39 → address_space size x = Some x.
Proof.
  intros Hx Hs. unfold address_space. cbv zeta. rewrite (Z.mod_small x) by lia. rewrite (proj2 (Z.ltb_lt x (2 ^ 39))) by lia.
  rewrite (proj2 (Z.ltb_lt _ size)); [done|]. pose proof (Z.mul_div_le x (2 ^ 21)). lia.
Qed.
Lemma address_space_high size x : 0 ≤ x < Z.min size (2 ^ 31) → address_space size (0xFFFFFFFF80000000 + x) = Some x.
Proof.
  intros Hx. unfold address_space. cbv zeta. replace ((0xFFFFFFFF80000000 + x) mod 2 ^ 48) with (2 ^ 48 - 2 ^ 31 + x).
  2: { apply (Z.mod_unique _ _ (2 ^ 16 - 1)); lia. }
  rewrite (proj2 (Z.ltb_ge _ (2 ^ 39))) by lia. rewrite (proj2 (Z.leb_le _ _)) by lia. replace (2 ^ 48 - 2 ^ 31 + x - (2 ^ 48 - 2 ^ 31)) with x by lia.
  rewrite (proj2 (Z.ltb_lt _ size)); [done|]. pose proof (Z.mul_div_le x (2 ^ 21)). lia.
Qed.

Lemma boot_done_image set_regs config m m' info :
  layout_ok (sl_len m) config → setup_linux_boot false true set_regs config m = (Done info, m') → image (sl_len m) config m' ∧ sl_len m' = sl_len m.
Proof.
  intros Hl E. destruct (layout_bounds _ _ Hl) as [Hb _]. pose proof (setup_linux_boot_stages set_regs config m Hb) as H. rewrite (lo_initramfs _ _ Hl) in H.
  destruct H as (m1 & m2 & m3 & m4 & m5 & m6 & Hst & E'). rewrite E in E'. destruct (set_regs _); [|done]. injection E' as -> ->.
  split; [by eapply boot_image|]. destruct (Hst) as [[[L1 _] _] [_ [L2 _]] (bs & [[L3 _] _] & _) _ [[L5 _] _] [[L6 _] _]].
  pose proof (proj1 (stage_initramfs_outside _ _ _ _ _ _ _ _ Hl Hst)) as L4. congruence.
Qed.
Lemma gdt_word size config m i : image size config m → (i < 6)%nat → word m (GDT_ADDR + 8 * Z.of_nat i) = nth i gdt_words 0.
Proof.
  intros Hi Hlt. assert (holds GDT_ADDR (concat (le_bytes 8 <$> gdt_words)) m m) as Hh by (split; [apply outside_refl|apply (im_gdt _ _ _ Hi)]).
  unfold word. rewrite (holds_sub _ _ _ _ _ 8 Hh); [|lia|]; (do 6 (destruct i as [|i]; [vm_compute; first [reflexivity|discriminate]|])); lia.
Qed.
(** What SET_REGS leaves in the VMCS. *)
Lemma boot_regs_set config from_user arg pad cap clears f out :
  in_width 64 (kernel_entry config) →
  from_user arg 456%nat = Some (encode BedrockRegs_layout (struct_values pad (boot_regs config))) → (∀ i, in_width 32 (pad i)) →
  (∀ x, x ∈ register_fields → is_Some (vmcs (vf_vcpu f) !! x)) →
  ∃ f', handle_set_regs from_user true clears cap arg (f, out) = (if clears then Done () else Fail EINVAL, (f', out)) ∧ boot_segments config (vm_registers (vf_vcpu f')) ∧
    vmcs (vf_vcpu f') !! GuestRip = Some (kernel_entry config) ∧ gprs (vf_vcpu f') RSI = BOOT_PARAMS_ADDR ∧ vmcs (vf_vcpu f') !! GuestCr3 = Some PML4_ADDR.
Proof.
  intros He Hu Hp Hf. assert (decode BedrockRegs_layout (encode BedrockRegs_layout (struct_values pad (boot_regs config))) = Some (struct_values pad (boot_regs config), [])) as Hd.
  { rewrite <-(app_nil_r (encode _ _)). apply decode_encode. apply struct_fits; [done|by apply boot_regs_ok|by apply width_const|by apply width_const|].
    repeat (apply Forall_cons; split; [by apply width_const|]). apply Forall_nil_2. }
  eexists. split; [exact (handle_set_regs_done from_user cap clears arg _ _ f out Hu Hd Hf)|]. cbn [on_file vf_vcpu vmcs gprs with_vmcs with_gprs].
  split; [|split_and!; [|reflexivity|]; by rewrite last_write_spec]. unfold vm_registers. cbn [vmcs gprs with_vmcs with_gprs]. set (r := of_struct _). set (w := register_writes cap r).
  assert (∀ f x v, last_write w f = Some x → default 0 (apply_writes w v !! f) = x) as Hl by (intros g x v E; by rewrite last_write_spec, E).
  split; [|split; [|by apply Hl]].
  - intros s. unfold registers_at. cbn [g_segment].
    rewrite (Hl _ (seg_selector (g_segment r s))), (Hl _ (seg_access_rights (g_segment r s))), (Hl _ (seg_limit (g_segment r s))), (Hl _ (seg_base (g_segment r s))) by (destruct s; reflexivity).
    by destruct s.
  - unfold registers_at. cbn [g_gdtr]. by rewrite (Hl GuestGdtrBase _ _ eq_refl), (Hl GuestGdtrLimit _ _ eq_refl).
Qed.
Section Start.
Context `{!GuestMem R, !GuestMemSpec R}.
End Start.

(** Loading a kernel never panics on an ELF file whose segments hold no more of the file than of memory, and do not overlap.  A file the parser
    rejects, another machine, and the first segment whose range overflows, leaves memory or leaves the file each give their error; otherwise all segments are
    in memory, nothing else changes, and the result is the entry point with the end of the last segment. *)
Theorem load_kernel_total parse data m :
  (∀ elf, parse data = Some elf → Forall phdr_ok (loadable (program_headers elf)) ∧ ForallOrdPairs segments_apart (loadable (program_headers elf))) →
  match parse data with
  | None => load_kernel parse data m = (Fail ElfParse, m)
  | Some elf =>
      let l := loadable (program_headers elf) in
      if e_machine elf =? EM_X86_64
      then match segments_error data (sl_len m) l with
           | Some e => ∃ m', load_kernel parse data m = (Fail e, m')
           | None => ∃ m', load_kernel parse data m = (Done (elf_entry elf, segments_end l), m') ∧ Forall (λ p, loaded data p m') l ∧ outside_segments l m m'
           end
      else load_kernel parse data m = (Fail NotX86_64, m)
  end.
Proof.
  intros Hok. unfold load_kernel. destruct (parse data) as [elf|]; [|done]. destruct (Hok elf eq_refl) as [H1 H2]. cbv zeta.
  destruct (e_machine elf =? EM_X86_64); [|done]. cbn [negb]. pose proof (load_segments_spec data _ H1 H2 m 0) as H.
  unfold mbind, M_bind. destruct (segments_error data (sl_len m) _) as [e|].
  - destruct H as [m' ->]. by exists m'.
  - apply runs_done in H as (e & m' & -> & -> & _ & Hl & Ho). by exists m'.
Qed.

(** ** Where the layout ends *)

(** The directory of the 25th GiB would be where the command line goes. *)
Lemma cmdline_over_directory set_regs config m info m' :
  boot_bounds (sl_len m) config → 24 * 2 ^ 30 < sl_len m → setup_linux_boot false true set_regs config m = (Done info, m') →
  PD_ADDR + 8 * (24 * 2 ^ 30 / 2 ^ 21) = CMDLINE_ADDR ∧ load (sl_at m') CMDLINE_ADDR (S (length (bc_cmdline config))) = bc_cmdline config ++ [0].
Proof.
  intros Hb Hs E. split; [done|]. pose proof (setup_linux_boot_stages set_regs config m Hb) as H. destruct (initramfs_fits _ _).
  - destruct H as (m1 & m2 & m3 & m4 & m5 & m6 & [_ _ _ _ _ [_ Hc]] & E'). rewrite E in E'. destruct (set_regs _); [|done]. injection E' as _ ->.
    rewrite length_app in Hc. cbn [length] in Hc. by rewrite Nat.add_1_r in Hc.
  - destruct H as (m1 & m2 & m3 & E' & _). by rewrite E in E'.
Qed.
(** The map of memory gives the registers of the devices as RAM. *)
Lemma e820_covers_devices size : IOAPIC_BASE + 0x1000 ≤ size < 2 ^ 64 →
  ∃ e, e ∈ e820_map size ∧ e820_type e = E820_RAM ∧ e820_addr e ≤ IOAPIC_BASE ∧ IOAPIC_BASE + 0x1000 ≤ e820_addr e + e820_size e.
Proof.
  intros Hs. unfold IOAPIC_BASE in *. exists (mkE820 0x100000 (size -! 0x100000) E820_RAM). split; [apply list_elem_of_In; cbn; tauto|]. cbn [e820_type e820_addr e820_size].
  unfold wrapping_sub, u64. rewrite wrap_small by (unfold in_width; lia). lia.
Qed.
(** Below 1 MiB its last size wraps. *)
Lemma e820_small_memory size : 0 ≤ size < 2 ^ 20 → e820_size (nth 3 (e820_map size) (mkE820 0 0 0)) = 2 ^ 64 - 2 ^ 20 + size.
Proof. intros Hs. cbn -[wrapping_sub Z.pow]. unfold wrapping_sub, u64, wrap. symmetry. apply (Z.mod_unique _ _ (-1)); lia. Qed.
(** A segment with more bytes in the file than in memory panics. *)
Definition bad_segment : ProgramHeader := mkPhdr PT_LOAD 0 2 1 4.
Lemma load_kernel_panics : ∃ m', load_kernel (λ _, Some (mkElf EM_X86_64 4 [bad_segment])) [1; 2] (mkSlice 16 (λ _, 0)) = (Stuck, m').
Proof. eexists. reflexivity. Qed.

(** ** Examples *)
Definition demo_kernel : list Z := [0x7F; 0x45; 0x4C; 0x46; 0xF4].
Definition demo_elf : Elf := mkElf EM_X86_64 0x100000 [mkPhdr 2 0 5 5 0; mkPhdr PT_LOAD 4 1 0x1000 0x100000; mkPhdr PT_LOAD 0 4 4 0x200000].
Definition demo_slice : slice := mkSlice (2 ^ 26) (λ _, 0).
Definition demo_boot : LinuxBootConfig := mkBootConfig 0x100000 0x200004 (Some [1; 2; 3]) [0x61].
Lemma demo_segments : let l := loadable (program_headers demo_elf) in
  Forall phdr_ok l ∧ ForallOrdPairs segments_apart l ∧ Forall (λ p, 2 ^ 20 ≤ p_paddr p) l ∧ l ≠ [] ∧ segments_error demo_kernel (2 ^ 26) l = None.
Proof.
  change (loadable (program_headers demo_elf)) with [mkPhdr PT_LOAD 4 1 0x1000 0x100000; mkPhdr PT_LOAD 0 4 4 0x200000]. cbv zeta. split_and!; [..|done|reflexivity].
  - repeat (apply Forall_cons; split; [by constructor; cbn|]). apply Forall_nil_2.
  - repeat constructor. unfold segments_apart, segment_end. cbn. lia.
  - repeat (apply Forall_cons; split; [by cbn|]). apply Forall_nil_2.
Qed.
Lemma boot_stays_in_bounds_witness :
  boot_bounds (2 ^ 26) demo_boot ∧ (setup_linux_boot false true (λ _, true) demo_boot demo_slice).1 = Done (boot_info demo_boot).
Proof.
  assert (boot_bounds (sl_len demo_slice) demo_boot) as Hb by (constructor; cbn -[Z.pow]; unfold CMDLINE_ADDR, ALIGN_2MB, initramfs_len; cbn -[Z.pow]; lia).
  split; [exact Hb|]. pose proof (boot_stays_in_bounds false true (λ _, true) demo_boot demo_slice Hb) as H.
  destruct (setup_linux_boot false true (λ _, true) demo_boot demo_slice) as [res m']. destruct H as [H _]. exact H.
Defined.
Lemma kernel_boots_witness : ∃ m',
  boot_root (λ _, Some demo_elf) (λ _, true) demo_kernel (Some [1; 2; 3]) [0x61] demo_slice = (Done (boot_info demo_boot), m') ∧ image (2 ^ 26) demo_boot m'.
Proof.
  destruct demo_segments as (H1 & H2 & H3 & H4 & H5).
  destruct (kernel_boots (λ _, Some demo_elf) (λ _, true) demo_kernel demo_elf (Some [1; 2; 3]) [0x61] demo_slice eq_refl eq_refl H1 H2 H3 H4 H5)
    as (m' & E & _ & Hi); [cbn -[Z.pow]; lia|cbn; unfold CMDLINE_ADDR, MPTABLE_BASE; lia|reflexivity|reflexivity|].
  exists m'. split; [exact E|exact Hi].
Defined.
Lemma load_kernel_total_witness : ∃ m', load_kernel (λ _, Some demo_elf) demo_kernel demo_slice = (Done (0x100000, 0x200004), m').
Proof.
  destruct demo_segments as (H1 & H2 & H3 & H4 & H5).
  pose proof (load_kernel_total (λ _, Some demo_elf) demo_kernel demo_slice ltac:(intros elf [= <-]; split; [exact H1|exact H2])) as H. cbv beta iota zeta in H.
  change (e_machine demo_elf =? EM_X86_64) with true in H. change (sl_len demo_slice) with (2 ^ 26) in H. rewrite H5 in H. destruct H as (m' & H & _). exists m'. exact H.
Defined.

(** *** The mapped slice as the memory of a VM without copy-on-write *)
Definition flat_byte m (a : Z) : option Z := if (0 <=? a) && (a <? sl_len m) then Some (sl_at m a) else None.
#[export] Instance flat_mem : GuestMem slice := {
  gm_is_forked _ := false;
  gm_read gpa n m := match mapM (flat_byte m) (seqZ gpa (Z.of_nat n)) with Some bs => Done bs | None => Fail OutOfRange end;
  gm_write gpa buf m := if gpa + Z.of_nat (length buf) <=? sl_len m then (Done (), written gpa buf m) else (Fail OutOfRange, m);
  gm_cow_fault _ m := (Fail (), m);
  gm_pre_cow _ m := (Done (), m);
  gm_lookup _ _ := Done None;
  gm_protect _ _ m := (Done (), m)
}.
#[export] Instance flat_mem_spec : GuestMemSpec slice.
Proof.
  refine {| gm_ok := bytes_ok; byte_at := flat_byte |}.
  - unfold flat_byte. intros m a b Hm. destruct (_ && _); [|done]. intros [= <-]. apply Hm.
  - done.
  - intros m gpa buf Hm H0 Hb. cbn [gm_write flat_mem]. destruct (Z.leb_spec (gpa + Z.of_nat (length buf)) (sl_len m)); [|done].
    split; [pose proof (kb_put gpa buf Hb m Hm) as H'; by rewrite put_done in H'|].
    intros a Ha. unfold flat_byte, VmMemory.overlay. cbn [written sl_len sl_at]. destruct (decide _).
    + rewrite (proj2 (Z.leb_le 0 a)), (proj2 (Z.ltb_lt a (sl_len m))) by lia. cbn [andb]. unfold store. rewrite (proj2 (Z.ltb_ge a gpa)) by lia.
      destruct (lookup_lt_is_Some_2 buf (Z.to_nat (a - gpa))) as [x ->]; [lia|done].
    + by rewrite store_ne by lia.
  - by intros gpa _ m Hm.
  - by intros gpa _ m Hm.
  - intros m gpa _. by exists None.
  - by intros gpa hpa m Hm.
Defined.
Lemma flat_backs m : backs m m.
Proof. intros a Ha. cbn [byte_at flat_mem_spec]. unfold flat_byte. by rewrite (proj2 (Z.leb_le 0 a)), (proj2 (Z.ltb_lt a (sl_len m))) by lia. Qed.
Lemma demo_layout : layout_ok (sl_len demo_slice) demo_boot.
Proof. constructor; cbn -[Z.pow]; unfold CMDLINE_ADDR, MPTABLE_BASE; [lia|lia|lia|reflexivity]. Qed.
Definition demo_from_user (arg : Z) (n : nat) : option (list Z) := Some (encode BedrockRegs_layout (struct_values (λ _, 0) (boot_regs demo_boot))).
