(* ===== verification/Channel.v ===== *)
(** * Commands for the guest (crate [bedrock-vm]: [io_channel.rs]; crate
    [bedrock-lab]: [bash.rs], [event.rs])

    Userspace frames a command for the guest's module as a request and reads its
    response; the hypervisor moves both as bytes.  The console of the guest comes
    back as records with pieces of lines.  Rust's [String::from_utf8_lossy] is a
    parameter: it keeps text that is valid.

    The theorems: a request decodes to the command it encodes, also from what the
    event stream keeps of it; and the lines the lab reports are the lines the
    guest wrote, however the records cut them. *)
From S2P Require Import Prelude Wire.

(** ** Requests and responses *)
Definition IO_REQUEST_MAGIC : Z := 0xB10C1010.
Definition IO_RESPONSE_MAGIC : Z := 0x1010B10C.
Definition IO_FLAG_RECORD_OUTPUT : Z := Z.shiftl 1 0.
Definition REQUEST_HEADER_LEN : nat := 12.
(** [BashTarget] and [IoTarget]; text is its bytes. *)
Inductive IoTarget := Host | Container (name : list Z).
#[export] Instance IoTarget_eq_dec : EqDecision IoTarget.
Proof. solve_decision. Defined.
Definition container_name (t : IoTarget) : option (list Z) := match t with Host => None | Container name => Some name end.
Record IoRequest := mkRequest { rq_target : IoTarget; rq_command : list Z; rq_record_output : bool }.
Record IoResponse := mkResponse { rs_status : Z; rs_exit_code : Z; rs_output_len : Z }.

Definition encode_request (container : option (list Z)) (command : list Z) (record_output : bool) : list Z :=
  let payload := default [] container ++ [0] ++ command ++ [0] in
  let flags := if record_output then IO_FLAG_RECORD_OUTPUT else 0 in
  le_bytes 4 IO_REQUEST_MAGIC ++ le_bytes 4 flags ++ le_bytes 4 (u32 (Z.of_nat (length payload))) ++ payload.

(** [bytes.get(a..b)] with [u32::from_le_bytes]. *)
Definition get_u32 (bytes : list Z) (a : nat) : option Z :=
  if (a + 4 <=? length bytes)%nat then Some (of_le (take 4 (drop a bytes))) else None.
Definition to_i32 (z : Z) : Z := if z <? 2 ^ 31 then z else z - 2 ^ 32.
(** The bytes before the first NUL, and those after it. *)
Fixpoint until_nul (b : list Z) : list Z * list Z :=
  match b with
  | [] => ([], [])
  | c :: rest => if c =? 0 then ([], rest) else let '(s, r) := until_nul rest in (c :: s, r)
  end.

Section Lossy.
Context (lossy : list Z → list Z).
Definition split_cstr (b : list Z) : list Z * list Z := let '(s, rest) := until_nul b in (lossy s, rest).
Definition decode_request (bytes : list Z) : option IoRequest :=
  magic ← get_u32 bytes 0;
  if negb (magic =? IO_REQUEST_MAGIC) then None
  else
    flags ← get_u32 bytes 4;
    let payload := drop REQUEST_HEADER_LEN bytes in
    let '(container, rest) := split_cstr payload in
    let target := if container is [] then Host else Container container in
    Some (mkRequest target (split_cstr rest).1 (negb (Z.land flags IO_FLAG_RECORD_OUTPUT =? 0))).
End Lossy.
Definition decode_response (bytes : list Z) : option IoResponse :=
  magic ← get_u32 bytes 0;
  if negb (magic =? IO_RESPONSE_MAGIC) then None
  else
    status ← get_u32 bytes 8;
    exit_code ← get_u32 bytes 12;
    output_len ← get_u32 bytes 16;
    Some (mkResponse (to_i32 status) (to_i32 exit_code) output_len).
Definition exit_code_from_wait_status (raw : Z) : Z :=
  if raw <? 0 then raw
  else if negb (Z.land raw 0x7f =? 0) then 128 + Z.land raw 0x7f
  else Z.land (Z.shiftr raw 8) 0xff.

(** ** Lines of the console ([event.rs]) *)
Record PartialLine := mkPartial { pl_bytes : list Z; pl_start : Z }.
Definition partial_default : PartialLine := mkPartial [] 0.
(** One byte: the line it completes, if it does, with the time of its first byte. *)
Definition serial_byte (tsc byte : Z) (p : PartialLine) : option (Z * list Z) * PartialLine :=
  let start := if pl_bytes p is [] then tsc else pl_start p in
  if byte =? 10 then (Some (start, pl_bytes p), mkPartial [] start)
  else (None, mkPartial (pl_bytes p ++ [byte]) start).
Fixpoint serial_record_into_sink (bytes : list Z) (tsc : Z) (p : PartialLine) : list (Z * list Z) * PartialLine :=
  match bytes with
  | [] => ([], p)
  | b :: bytes =>
      let '(line, p) := serial_byte tsc b p in
      let '(lines, p) := serial_record_into_sink bytes tsc p in
      (if line is Some l then l :: lines else lines, p)
  end.
(** [drain_serial_events]: the serial records of a drained buffer, one after the other. *)
Fixpoint drain_serial (rs : list EventRecord) (p : PartialLine) : list (Z * list Z) * PartialLine :=
  match rs with
  | [] => ([], p)
  | r :: rs =>
      if h_kind (r_header r) =? as_u16 Serial then
        let '(l1, p) := serial_record_into_sink (r_payload r) (h_tsc (r_header r)) p in
        let '(l2, p) := drain_serial rs p in (l1 ++ l2, p)
      else drain_serial rs p
  end.
Definition drain_serial_events (buf : list Z) (p : PartialLine) : list (Z * list Z) * PartialLine := drain_serial (EventStream buf) p.

(** * Lemmas *)
Lemma until_nul_spec s rest : Forall (λ c, c ≠ 0) s → until_nul (s ++ 0 :: rest) = (s, rest).
Proof. induction 1 as [|c s Hc _ IH]; [done|]. cbn. rewrite (proj2 (Z.eqb_neq c 0) Hc). by rewrite IH. Qed.
Lemma until_nul_none s : Forall (λ c, c ≠ 0) s → until_nul s = (s, []).
Proof. induction 1 as [|c s Hc _ IH]; [done|]. cbn. rewrite (proj2 (Z.eqb_neq c 0) Hc). by rewrite IH. Qed.
Lemma get_u32_app bs v rest a : a = length bs → in_width 32 v → get_u32 (bs ++ le_bytes 4 v ++ rest) a = Some v.
Proof.
  intros -> Hv. unfold get_u32. rewrite !length_app, length_le_bytes. rewrite (proj2 (Nat.leb_le _ _)) by lia.
  rewrite drop_app_length, take_app_le, take_ge by (rewrite length_le_bytes; lia). by rewrite of_le_le_bytes_small.
Qed.

(** *** Lines of a text: those a newline ends, and what follows the last one. *)
Fixpoint lines_of (cur : list Z) (bs : list Z) : list (list Z) * list Z :=
  match bs with
  | [] => ([], cur)
  | b :: bs => if b =? 10 then let '(l, r) := lines_of [] bs in (cur :: l, r) else lines_of (cur ++ [b]) bs
  end.
Lemma lines_of_app cur b1 b2 : lines_of cur (b1 ++ b2) =
  let '(l1, r1) := lines_of cur b1 in let '(l2, r2) := lines_of r1 b2 in (l1 ++ l2, r2).
Proof.
  revert cur. induction b1 as [|b b1 IH]; intros cur; cbn [lines_of app]; [by destruct (lines_of cur b2)|].
  destruct (b =? 10); [|apply IH]. rewrite IH. destruct (lines_of [] b1) as [l1 r1], (lines_of r1 b2). done.
Qed.
Lemma serial_lines bytes tsc p :
  let '(lines, p') := serial_record_into_sink bytes tsc p in lines_of (pl_bytes p) bytes = (lines.*2, pl_bytes p').
Proof.
  revert p. induction bytes as [|b bytes IH]; intros p; [done|]. cbn [serial_record_into_sink lines_of]. unfold serial_byte. destruct (b =? 10).
  - specialize (IH (mkPartial [] (if pl_bytes p is [] then tsc else pl_start p))). destruct (serial_record_into_sink _ _ _) as [l p']. cbn [pl_bytes] in IH. by rewrite IH.
  - specialize (IH (mkPartial (pl_bytes p ++ [b]) (if pl_bytes p is [] then tsc else pl_start p))). destruct (serial_record_into_sink _ _ _) as [l p']. exact IH.
Qed.
(** The console's bytes of some records. *)
Definition serial_bytes (rs : list EventRecord) : list Z :=
  concat (r_payload <$> List.filter (λ r, h_kind (r_header r) =? as_u16 Serial) rs).
Lemma drain_serial_lines rs p : let '(lines, p') := drain_serial rs p in lines_of (pl_bytes p) (serial_bytes rs) = (lines.*2, pl_bytes p').
Proof.
  revert p. induction rs as [|r rs IH]; intros p; [done|]. cbn [drain_serial]. unfold serial_bytes. cbn [List.filter].
  destruct (h_kind (r_header r) =? as_u16 Serial); [|apply IH]. cbn [fmap list_fmap concat]. rewrite lines_of_app.
  pose proof (serial_lines (r_payload r) (h_tsc (r_header r)) p) as H. destruct (serial_record_into_sink _ _ _) as [l1 p1]. rewrite H.
  specialize (IH p1). destruct (drain_serial rs p1) as [l2 p2]. unfold serial_bytes in IH. rewrite IH. by rewrite fmap_app.
Qed.
Lemma drain_serial_app rs rs' p : drain_serial (rs ++ rs') p =
  let '(l1, p1) := drain_serial rs p in let '(l2, p2) := drain_serial rs' p1 in (l1 ++ l2, p2).
Proof.
  revert p. induction rs as [|r rs IH]; intros p; cbn [app drain_serial]; [by destruct (drain_serial rs' p)|].
  destruct (_ =? _); [|apply IH]. destruct (serial_record_into_sink _ _ _) as [l1 p1]. rewrite IH. destruct (drain_serial rs p1) as [l2 p2], (drain_serial rs' p2) as [l3 p3].
  by rewrite app_assoc.
Qed.
Lemma serial_bytes_app rs rs' : serial_bytes (rs ++ rs') = serial_bytes rs ++ serial_bytes rs'.
Proof. unfold serial_bytes. by rewrite List.filter_app, fmap_app, concat_app. Qed.

(** * Theorems *)
Definition ascii (s : list Z) : Prop := Forall (λ c, 0 < c < 128) s.
Lemma ascii_no_nul s : ascii s → Forall (λ c, c ≠ 0) s.
Proof. intros H. eapply Forall_impl; [exact H|]. intros c Hc ->. cbn in Hc. lia. Qed.
Lemma request_header container command record_output :
  let bytes := encode_request container command record_output in
  let payload := default [] container ++ [0] ++ command ++ [0] in
  length (take 12 bytes) = 12%nat ∧ drop 12 bytes = payload ∧ get_u32 bytes 0 = Some IO_REQUEST_MAGIC ∧
  get_u32 bytes 4 = Some (if record_output then IO_FLAG_RECORD_OUTPUT else 0).
Proof.
  cbv zeta. unfold encode_request. set (payload := default [] container ++ _). set (flags := if record_output then _ else _).
  assert (in_width 32 flags) as Hf by (subst flags; destruct record_output; (split; [discriminate|reflexivity])).
  split_and!.
  - rewrite length_take, !length_app, !length_le_bytes. lia.
  - rewrite !app_assoc. rewrite drop_app_length'; [done|]. by rewrite !length_app, !length_le_bytes.
  - apply (get_u32_app [] IO_REQUEST_MAGIC); [done|split; [discriminate|reflexivity]].
  - apply (get_u32_app (le_bytes 4 IO_REQUEST_MAGIC)); [by rewrite length_le_bytes|done].
Qed.
Lemma get_u32_take bytes n a : (a + 4 ≤ n)%nat → (n ≤ length bytes)%nat → get_u32 (take n bytes) a = get_u32 bytes a.
Proof.
  intros H1 H2. unfold get_u32. rewrite length_take. rewrite (proj2 (Nat.leb_le (a + 4) _)), (proj2 (Nat.leb_le (a + 4) (length bytes))) by lia.
  rewrite skipn_firstn_comm, take_take. by rewrite Nat.min_l by lia.
Qed.
Section Requests.
Context (lossy : list Z → list Z) (lossy_ascii : ∀ s, ascii s → lossy s = s).
(** What is left of a payload, cut anywhere after the name of the container. *)
Lemma cut_payload name command k : ascii name → ascii command →
  split_cstr lossy (name ++ [0] ++ take k (command ++ [0])) = (name, take k (command ++ [0])) ∧
  (split_cstr lossy (take k (command ++ [0]))).1 = take k command.
Proof.
  intros Hn Hc. unfold split_cstr. cbn [app]. rewrite until_nul_spec by (by apply ascii_no_nul). rewrite lossy_ascii by done. split; [done|].
  destruct (decide (k ≤ length command)%nat) as [Hk|Hk].
  - rewrite take_app_le by done. rewrite until_nul_none by (apply Forall_take; by apply ascii_no_nul). cbn. apply lossy_ascii. by apply Forall_take.
  - rewrite (take_ge (command ++ [0])) by (rewrite length_app; cbn; lia). rewrite (take_ge command) by lia.
    rewrite until_nul_spec by (by apply ascii_no_nul). cbn. by apply lossy_ascii.
Qed.
(** A command the lab frames for the guest is the command a reader of the event stream finds: target, command line and the wish for output
    decode to what was encoded, for ASCII text; and when the stream cut the request short after the name of the container, the reader finds the same target
    with a prefix of the command. *)
Theorem request_round_trip target command record_output n :
  ascii command → (∀ name, target = Container name → ascii name ∧ name ≠ []) →
  let bytes := encode_request (container_name target) command record_output in
  let cut := (REQUEST_HEADER_LEN + S (length (default [] (container_name target))))%nat in
  (cut ≤ n)%nat → decode_request lossy (take n bytes) = Some (mkRequest target (take (n - cut) command) record_output) ∧
  decode_request lossy bytes = Some (mkRequest target command record_output).
Proof.
  intros Hc Ht bytes cut Hn. set (name := default [] (container_name target)) in *.
  destruct (request_header (container_name target) command record_output) as (_ & Hp & H0 & H4). fold bytes name in Hp, H0, H4.
  assert (ascii name ∧ (if name is [] then Host else Container name) = target) as [Hname Htarget].
  { subst name. destruct target as [|x]; [by split; [apply Forall_nil_2|]|]. destruct (Ht x eq_refl) as [? Hne]. cbn. split; [done|]. by destruct x. }
  assert (∀ k, (cut ≤ k ≤ length bytes)%nat → decode_request lossy (take k bytes) = Some (mkRequest target (take (k - cut) command) record_output)) as Hd.
  { intros k Hk. unfold decode_request. rewrite !get_u32_take by (subst cut; unfold REQUEST_HEADER_LEN in *; lia). rewrite H0. cbn [mbind option_bind]. rewrite Z.eqb_refl. cbn [negb]. rewrite H4.
    cbn [mbind option_bind]. change REQUEST_HEADER_LEN with 12%nat. rewrite skipn_firstn_comm, Hp.
    replace (take (k - 12) (name ++ [0] ++ command ++ [0])) with (name ++ [0] ++ take (k - cut) (command ++ [0])).
    2: { rewrite (app_assoc name [0] (command ++ [0])), (take_app_ge (name ++ [0])) by (rewrite length_app; cbn; subst cut; unfold REQUEST_HEADER_LEN in *; lia). rewrite <-app_assoc. do 3 f_equal.
         rewrite length_app. cbn. subst cut. unfold REQUEST_HEADER_LEN. lia. }
    destruct (cut_payload name command (k - cut) Hname Hc) as [-> Hcmd]. rewrite Hcmd, Htarget. by destruct record_output. }
  assert (length bytes = cut + length command + 1)%nat as Hlen.
  { rewrite <-(take_drop 12 bytes), Hp, !length_app, length_take. subst bytes cut. unfold encode_request, REQUEST_HEADER_LEN. rewrite !length_app, !length_le_bytes. fold name. cbn. lia. }
  assert (decode_request lossy bytes = Some (mkRequest target command record_output)) as Hall.
  { specialize (Hd (length bytes) ltac:(lia)). rewrite firstn_all in Hd. rewrite Hd. rewrite take_ge by lia. done. }
  split; [|done]. destruct (decide (n ≤ length bytes)%nat) as [Hl|Hl]; [apply Hd; lia|]. rewrite take_ge, (take_ge command) by lia. done.
Qed.
End Requests.

(** The lines the lab reports of a guest's console do not depend on how the hypervisor cut the output into records, nor on how the records were drained:
    over any number of drained buffers they are the lines of the bytes written, in order, and what is kept for the next drain is the line in
    progress. *)
Theorem console_lines_complete (drains : list (list EventRecord)) p :
  let '(lines, p') := foldl (λ '(ls, p) rs, let '(l, p) := drain_serial rs p in (ls ++ l, p)) ([], p) drains in
  lines_of (pl_bytes p) (serial_bytes (concat drains)) = (lines.*2, pl_bytes p').
Proof.
  assert (∀ ls, foldl (λ '(ls, p) rs, let '(l, p) := drain_serial rs p in (ls ++ l, p)) (ls, p) drains =
    (let '(l, p') := drain_serial (concat drains) p in (ls ++ l, p'))) as ->.
  { revert p. induction drains as [|rs drains IH]; intros p ls; cbn [foldl concat]; [cbn; by rewrite app_nil_r|].
    rewrite drain_serial_app. destruct (drain_serial rs p) as [l1 p1]. rewrite IH. destruct (drain_serial (concat drains) p1). by rewrite app_assoc. }
  pose proof (drain_serial_lines (concat drains) p) as H. by destruct (drain_serial (concat drains) p).
Qed.

(** ** Examples *)
Lemma request_round_trip_witness :
  decode_request id (encode_request (container_name (Container [0x61])) [0x6C; 0x73] true) = Some (mkRequest (Container [0x61]) [0x6C; 0x73] true).
Proof.
  assert (ascii [0x6C; 0x73]) as Hc by (repeat constructor).
  apply (request_round_trip id (λ s _, eq_refl) (Container [0x61]) [0x6C; 0x73] true 14 Hc); [|cbn; lia].
  intros name [= <-]. split; [repeat constructor|done].
Defined.
(** The raw status of [exit 7], of a process killed, and of a module's error. *)
Lemma wait_status_codes n : 0 ≤ n < 256 → exit_code_from_wait_status (256 * n) = n ∧ exit_code_from_wait_status 9 = 137 ∧ exit_code_from_wait_status (-22) = -22.
Proof.
  intros Hn. split; [|done]. unfold exit_code_from_wait_status. rewrite (proj2 (Z.ltb_ge _ _)) by lia.
  change 0x7f with (Z.ones 7). rewrite Z.land_ones by lia. replace (256 * n) with (2 * n * 2 ^ 7) at 1 by lia. rewrite Z.mod_mul by lia. cbn [Z.eqb negb].
  change 0xff with (Z.ones 8). rewrite Z.land_ones, Z.shiftr_div_pow2 by lia. change 256 with (2 ^ 8). rewrite Z.mul_comm, Z.div_mul by lia. apply Z.mod_small. lia.
Qed.
