(* ===== verification/Lab.v ===== *)
(** * Experiments on virtual machines (crate [bedrock-lab])

    A checkpoint is a halted VM; a branch is a fork of it that runs forward in
    virtual time, with randomness and commands from a source the caller chose.
    What the guest consumed is recovered from the event stream as a recording, and
    a recording is again a source.  Checkpoints form a tree by time, into which
    rewinding inserts nodes.

    The VM is seen through its ioctls, the class [VmOps]; a source is the class
    [InputSource], as the trait is in the code.  The loops that drive the VM take
    a number of rounds, since nothing bounds how often a guest leaves; the
    theorems hold for every number.

    The theorems: a branch replayed from its own recording runs the same, to the
    last event, if the recording has all the answers its source gave; a source serves exactly the bytes asked for; the recording
    categories are on in every configuration; time arithmetic; and (file
    [LabTree]) the tree stays a tree under forking, checkpoints and rewinding, and
    rewinding starts from the latest checkpoint it can. *)
From S2P Require Import Prelude Wire Random Vcpu Channel.

(** ** Virtual time ([time.rs]) *)
Record VirtTime := mkTime { instructions : Z; frequency : Z }.
Record VirtDuration := mkDuration { d_instructions : Z; d_frequency : Z }.
#[export] Instance VirtTime_eq_dec : EqDecision VirtTime.
Proof. solve_decision. Defined.
Implicit Types t : VirtTime.
Definition saturating_mul (a b : Z) : Z := Z.min u64_MAX (a * b).
Definition from_millis (ms freq : Z) : VirtTime := mkTime (saturating_mul ms freq / 1000) freq.
Definition from_secs (s freq : Z) : VirtTime := mkTime (saturating_mul s freq) freq.
(** The derived order compares the fields one after the other. *)
Definition time_ltb t t' : bool :=
  (instructions t <? instructions t') || ((instructions t =? instructions t') && (frequency t <? frequency t')).
Definition time_leb t t' : bool := negb (time_ltb t' t).
Definition checked_sub t t' : option VirtDuration :=
  if negb (frequency t =? frequency t') then None
  else if instructions t <? instructions t' then None
  else Some (mkDuration (instructions t - instructions t') (frequency t)).
(** [+], and [-] with a duration: [None] is the panic of their assertions. *)
Definition time_add t (d : VirtDuration) : option VirtTime :=
  if negb (frequency t =? d_frequency d) then None else Some (mkTime (instructions t +| d_instructions d) (frequency t)).
Definition time_sub t (d : VirtDuration) : option VirtTime :=
  if negb (frequency t =? d_frequency d) then None else Some (mkTime (instructions t -| d_instructions d) (frequency t)).

(** ** Inputs ([rng.rs]) *)
Record IoInput := mkIoInput { ii_at : VirtTime; ii_target : IoTarget; ii_command : list Z; ii_record_output : bool }.
Record RandomInput := mkRandomInput { ri_at : VirtTime; ri_source : RandomSource; ri_pid : Z; ri_bytes : list Z }.
Record InputRecording := mkRecording { random_inputs : list RandomInput; io_inputs : list IoInput }.
Definition recording_new : InputRecording := mkRecording [] [].
Section Record.
Context (lossy : list Z → list Z).
Definition record_event (record : EventRecord) (freq : Z) (rec : InputRecording) : InputRecording :=
  let at_ := mkTime (h_tsc (r_header record)) freq in
  match event record with
  | EvRandomness p bytes =>
      let source := source_from_u8 (rp_source p) in
      let '(pid, bytes) := if source is GetRandom then (rp_pid p, bytes) else (0, le_bytes 8 (rp_value p)) in
      mkRecording (random_inputs rec ++ [mkRandomInput at_ source pid bytes]) (io_inputs rec)
  | EvIoChannel meta data =>
      if io_phase meta =? phase_u8 Request then
        match decode_request lossy data with
        | None => rec
        | Some req => mkRecording (random_inputs rec) (io_inputs rec ++ [mkIoInput at_ (rq_target req) (rq_command req) (rq_record_output req)])
        end
      else rec
  | _ => rec
  end.
End Record.

(** [trait InputSource]: each method gives the source that is left. *)
Class InputSource (S : Type) := {
  next_rng_u64 : S → option Z * S;
  next_random : nat → Z → S → list Z * S;
  next_io_input : S → option IoInput * S;
}.
(** The default of [next_random]: as many words as it takes. *)
Fixpoint random_words {S} (next : S → option Z * S) (fuel : nat) (len : nat) (out : list Z) (s : S) : list Z * S :=
  match fuel with
  | O => (out, s)
  | Datatypes.S fuel =>
      if (length out <? len)%nat then
        let '(v, s) := next s in random_words next fuel len (out ++ le_bytes 8 (default 0 v)) s
      else (out, s)
  end.
Definition default_next_random {S} (next : S → option Z * S) (len : nat) (pid : Z) (s : S) : list Z * S :=
  let '(out, s) := random_words next (Datatypes.S len) len [] s in (take len out, s).
(** A closure, with its captured state. *)
Definition closure_source {S} (f : S → option Z * S) : InputSource S := {|
  next_rng_u64 := f; next_random := default_next_random f; next_io_input := λ s, (None, s)
|}.

Record RecordedInputSource := mkRecorded { rec_recording : InputRecording; random_pos : nat; io_pos : nat }.
Definition recorded_new (r : InputRecording) : RecordedInputSource := mkRecorded r 0 0.
(** [resize(len, 0)]. *)
Definition resize_zero (len : nat) (bs : list Z) : list Z := take len bs ++ replicate (len - length bs) 0.
Definition recorded_source : InputSource RecordedInputSource := {|
  next_rng_u64 s :=
    match random_inputs (rec_recording s) !! random_pos s with
    | None => (None, s)
    | Some input =>
        let n := Nat.min (length (ri_bytes input)) 8 in
        let buf := take n (ri_bytes input) ++ replicate (8 - n) 0 in
        (Some (of_le buf), mkRecorded (rec_recording s) (Datatypes.S (random_pos s)) (io_pos s))
    end;
  next_random len pid s :=
    let bytes := default [] (ri_bytes <$> random_inputs (rec_recording s) !! random_pos s) in
    (resize_zero len bytes, mkRecorded (rec_recording s) (Datatypes.S (random_pos s)) (io_pos s));
  next_io_input s :=
    match io_inputs (rec_recording s) !! io_pos s with
    | None => (None, s)
    | Some input => (Some input, mkRecorded (rec_recording s) (random_pos s) (Datatypes.S (io_pos s)))
    end
|}.
#[export] Existing Instance recorded_source.

(** ** Configuration of the event stream ([branch.rs]; [bedrock-vm/src/vm/config.rs]) *)
Inductive ExitCapture := CapDisabled | CapAllExits (memory_hash : bool) | CapCheckpoints (interval : Z) (memory_hash : bool) | CapAtShutdown (memory_hash : bool).
Definition trigger_u32 (t : ExitTrigger) : Z :=
  match t with Disabled => 0 | AllExits => 1 | AtTsc => 2 | AtShutdown => 3 | Checkpoints => 4 | TscRange => 5 end.
Definition to_trigger (c : ExitCapture) : ExitTrigger * Z * bool :=
  match c with
  | CapDisabled => (Disabled, 0, false)
  | CapAllExits memory_hash => (AllExits, 0, memory_hash)
  | CapCheckpoints interval memory_hash => (Checkpoints, interval, memory_hash)
  | CapAtShutdown memory_hash => (AtShutdown, 0, memory_hash)
  end.
Record LabEventConfig := mkLabConfig { lc_categories : Z; lc_exits : ExitCapture }.
Definition lab_config_default : LabEventConfig := mkLabConfig 0 CapDisabled.
Record VmEventConfig := mkVmConfig { vc_enabled : Z; vc_categories : Z; vc_exit_trigger : Z; vc_exit_flags : Z; vc_exit_target_tsc : Z; vc_exit_start_tsc : Z }.
Definition config_disabled : VmEventConfig := mkVmConfig 0 0 0 0 0 0.
Definition config_enabled (categories : Z) : VmEventConfig := mkVmConfig 1 categories 0 0 0 0.
Definition config_with_exit_trigger (trigger : ExitTrigger) (target_tsc : Z) (c : VmEventConfig) : VmEventConfig :=
  mkVmConfig (vc_enabled c) (vc_categories c) (trigger_u32 trigger) (vc_exit_flags c) target_tsc (vc_exit_start_tsc c).
Definition config_with_no_memory_hash (c : VmEventConfig) : VmEventConfig :=
  mkVmConfig (vc_enabled c) (vc_categories c) (vc_exit_trigger c) (Z.lor (vc_exit_flags c) 1) (vc_exit_target_tsc c) (vc_exit_start_tsc c).
Definition effective_categories (c : LabEventConfig) : Z :=
  let non_exit := Z.ldiff (lc_categories c) CAT_EXIT in
  match lc_exits c with CapDisabled => non_exit | _ => Z.lor non_exit CAT_EXIT end.
Definition to_vm_config_with (c : LabEventConfig) (extra : Z) : VmEventConfig :=
  let categories := Z.lor (effective_categories c) extra in
  if categories =? 0 then config_disabled
  else
    let '(trigger, target_tsc, memory_hash) := to_trigger (lc_exits c) in
    let config := config_with_exit_trigger trigger target_tsc (config_enabled categories) in
    if memory_hash then config else config_with_no_memory_hash config.
Definition RECORDING_CATEGORIES : Z := Z.lor CAT_RANDOMNESS CAT_IO_CHANNEL.

(** ** Exits ([bedrock-vm/src/vm/exit.rs]) *)
Inductive ExitKind :=
| KShutdown | KSnapshot (tag : Z) | KReady | KStopTscReached | KFeedbackBufferRegistered | KIoResponse | KRdrand | KRdseed | KGetRandom
| KEventBufferFull | KFileFetch | KContinue | KUnhandled (reason : Z) | KFileStore.
Record VmExit := mkVmExit { ve_reason : Z; ve_qualification : Z; ve_event_len : Z; ve_emulated_tsc : Z }.
Definition kind (e : VmExit) : ExitKind :=
  match ve_reason e with
  | 258 => KShutdown
  | 260 => KSnapshot (ve_qualification e)
  | 259 => KStopTscReached
  | 261 => KFeedbackBufferRegistered
  | 265 => KIoResponse
  | 266 => KReady
  | 57 => KRdrand
  | 61 => KRdseed
  | 267 => KEventBufferFull
  | 268 => KFileFetch
  | 269 => KGetRandom
  | 270 => KFileStore
  | 52 | 256 | 36 | 39 | 30 | 262 | 263 | 264 => KContinue
  | reason => KUnhandled reason
  end.

(** ** The VM as userspace has it: the ioctls, with the error number of a failure *)
Class VmOps (V : Type) := {
  vm_run : V → result VmExit Z * V;
  vm_event_buffer : V → option (list Z);
  vm_set_stop_at_tsc : option Z → V → result () Z * V;
  vm_queue_io_action : list Z → Z → V → result () Z * V;
  vm_drain_io_response : V → result (list Z) Z * V;
  vm_set_rdrand_value : Z → V → result () Z * V;
  vm_random_request : V → result (Z * Z) Z * V;
  vm_set_random_bytes : list Z → V → result () Z * V;
  vm_set_event_config : VmEventConfig → V → result () Z * V;
  vm_set_single_step : option (Z * Z) → V → result () Z * V;
  vm_set_rdrand_exit : V → result () Z * V;
  (** RAX and RCX. *)
  vm_get_regs : V → result (Z * Z) Z * V;
  vm_feedback_info : Z → V → result (option (list Z)) Z * V;
  vm_feedback_buffers : list Z → V → result (list (list Z)) Z * V;
  vm_fork : V → result V Z;
}.

Inductive VmOp := OpRun | OpStopTsc | OpQueueIo | OpDrainIo | OpRdrandValue | OpRandomRequest | OpRandomBytes | OpEventConfig | OpSingleStep | OpRdrandConfig | OpRegs | OpFeedback | OpFork.
Inductive LabError :=
| VmFailed (op : VmOp) (errno : Z)
| TargetInPast (current target : VirtTime)
| NoCheckpointBefore (target : VirtTime)
| FrequencyMismatch (lhs rhs : Z)
| UnexpectedExit (at_ : VirtTime) (k : ExitKind)
| QueueInputIo (input : IoInput) (errno : Z)
| BadResponse
| FileStoreFailed (at_ : VirtTime) (errno : Z).
Definition EBUSY : Z := 16.
Inductive LabEvent :=
| SerialLine (branch : Z) (at_ : VirtTime) (line : list Z)
| BranchCreated (branch origin : Z) (at_ : VirtTime)
| CheckpointCreated (checkpoint : Z) (from_branch parent : option Z) (at_ : VirtTime)
| FeedbackBufferRegistered (branch : Z) (at_ : VirtTime) (id : list Z) (slot size : Z)
| StreamRecord (branch : Z) (record : EventRecord).
Record BashOutput := mkOutput { bo_status : Z; bo_exit_code : Z; bo_output : list Z }.
Inductive RunOutcome := ReachedTime | Ready | ActionResponse (output : BashOutput) | RngExhausted | Yielded (k : ExitKind).
Inductive FeedRng := Fed | NoSource | Exhausted.

(** [BranchMeta], and the part of [LabInner] a running branch uses. *)
Record BranchMeta := mkMeta { bm_id : Z; bm_origin : Z; bm_time : VirtTime }.
Record Shared := mkShared { sh_freq : Z; sh_live : gmap Z BranchMeta; sh_sink : list LabEvent }.

Section Branch.
Context (lossy : list Z → list Z) {V S : Type} `{!VmOps V} `{!InputSource S}.
Record Branch := mkBranch {
  br_id : Z; br_origin : Z; br_vm : V; br_time : VirtTime; br_partial : PartialLine; br_source : option S; br_pending : option IoInput;
  br_exhausted : bool; br_recording : InputRecording; br_last_stop : option (option Z); br_config : LabEventConfig
}.
Implicit Types b : Branch.
Definition LM := M (Shared * Branch) LabError.

Definition with_vm (v : V) b : Branch :=
  mkBranch (br_id b) (br_origin b) v (br_time b) (br_partial b) (br_source b) (br_pending b) (br_exhausted b) (br_recording b) (br_last_stop b) (br_config b).
Definition with_time t b : Branch :=
  mkBranch (br_id b) (br_origin b) (br_vm b) t (br_partial b) (br_source b) (br_pending b) (br_exhausted b) (br_recording b) (br_last_stop b) (br_config b).
Definition with_partial (p : PartialLine) b : Branch :=
  mkBranch (br_id b) (br_origin b) (br_vm b) (br_time b) p (br_source b) (br_pending b) (br_exhausted b) (br_recording b) (br_last_stop b) (br_config b).
Definition with_source (s : option S) b : Branch :=
  mkBranch (br_id b) (br_origin b) (br_vm b) (br_time b) (br_partial b) s (br_pending b) (br_exhausted b) (br_recording b) (br_last_stop b) (br_config b).
Definition with_pending (p : option IoInput) b : Branch :=
  mkBranch (br_id b) (br_origin b) (br_vm b) (br_time b) (br_partial b) (br_source b) p (br_exhausted b) (br_recording b) (br_last_stop b) (br_config b).
Definition with_exhausted (e : bool) b : Branch :=
  mkBranch (br_id b) (br_origin b) (br_vm b) (br_time b) (br_partial b) (br_source b) (br_pending b) e (br_recording b) (br_last_stop b) (br_config b).
Definition with_recording (r : InputRecording) b : Branch :=
  mkBranch (br_id b) (br_origin b) (br_vm b) (br_time b) (br_partial b) (br_source b) (br_pending b) (br_exhausted b) r (br_last_stop b) (br_config b).
Definition with_last_stop (l : option (option Z)) b : Branch :=
  mkBranch (br_id b) (br_origin b) (br_vm b) (br_time b) (br_partial b) (br_source b) (br_pending b) (br_exhausted b) (br_recording b) l (br_config b).
Definition with_config (c : LabEventConfig) b : Branch :=
  mkBranch (br_id b) (br_origin b) (br_vm b) (br_time b) (br_partial b) (br_source b) (br_pending b) (br_exhausted b) (br_recording b) (br_last_stop b) c.
Definition on_branch (f : Branch → Branch) : LM () := modify (λ '(sh, b), (sh, f b)).
Definition this : LM Branch := gets snd.
Definition freq : LM Z := gets (λ st, sh_freq st.1).
Definition emit (e : LabEvent) : LM () := modify (λ '(sh, b), (mkShared (sh_freq sh) (sh_live sh) (sh_sink sh ++ [e]), b)).
(** An ioctl of the branch's VM. *)
Definition vm_call {A} (op : VmOp) (f : V → result A Z * V) : LM A := λ '(sh, b),
  let '(r, v) := f (br_vm b) in
  (match r with Ok a => Done a | Err e => Fail (VmFailed op e) end, (sh, with_vm v b)).

(** *** Small operations *)
Definition check_freq (f : Z) : LM () :=
  own ← freq;
  if f =? own then mret () else throw (FrequencyMismatch f own).
Definition set_stop_at (value : option Z) : LM () :=
  b ← this;
  if bool_decide (br_last_stop b = Some value) then mret ()
  else vm_call OpStopTsc (vm_set_stop_at_tsc value);; on_branch (with_last_stop (Some value)).
Definition advance_time t : LM () := modify (λ '(sh, b),
  (mkShared (sh_freq sh) (alter (λ m, mkMeta (bm_id m) (bm_origin m) t) (br_id b) (sh_live sh)) (sh_sink sh), with_time t b)).
Definition apply_event_config : LM () :=
  b ← this;
  let extra := if br_source b is Some _ then Z.lor CAT_SERIAL RECORDING_CATEGORIES else CAT_SERIAL in
  vm_call OpEventConfig (vm_set_event_config (to_vm_config_with (br_config b) extra)).
Definition set_event_config (config : LabEventConfig) : LM () :=
  on_branch (with_config config);; apply_event_config.
Definition single_step (start end_ : VirtTime) : LM () :=
  check_freq (frequency start);;
  check_freq (frequency end_);;
  if time_ltb end_ start then throw (TargetInPast start end_)
  else
    vm_call OpSingleStep (vm_set_single_step (Some (instructions start, instructions end_)));;
    b ← this;
    let categories := Z.lor CAT_EXIT CAT_SERIAL in
    let categories := if br_source b is Some _ then Z.lor categories RECORDING_CATEGORIES else categories in
    vm_call OpEventConfig (vm_set_event_config (config_with_no_memory_hash (config_with_exit_trigger TscRange 0 (config_enabled categories)))).
Definition disable_single_step : LM () :=
  vm_call OpSingleStep (vm_set_single_step None);; apply_event_config.

(** *** The event stream *)
Definition drain_record (record : EventRecord) : LM () :=
  b ← this;
  f ← freq;
  if h_kind (r_header record) =? as_u16 Serial then
    let '(lines, partial) := serial_record_into_sink (r_payload record) (h_tsc (r_header record)) (br_partial b) in
    for_each lines (λ line, emit (SerialLine (br_id b) (mkTime line.1 f) line.2));;
    on_branch (with_partial partial)
  else
    (if br_source b is Some _ then on_branch (λ b, with_recording (record_event lossy record f (br_recording b)) b) else mret ());;
    emit (StreamRecord (br_id b) record).
Definition drain_events (event_len : Z) : LM () :=
  if event_len =? 0 then mret ()
  else
    b ← this;
    match vm_event_buffer (br_vm b) with
    | None => mret ()
    | Some buffer => for_each (EventStream (take (Z.to_nat event_len) buffer)) drain_record
    end.
Definition on_feedback_buffer_registered (at_ : VirtTime) : LM () :=
  '(rax, rcx) ← vm_call OpRegs vm_get_regs;
  if rax =? u64_MAX then mret ()
  else
    info ← vm_call OpFeedback (vm_feedback_info rax);
    b ← this;
    match info with Some id => emit (FeedbackBufferRegistered (br_id b) at_ id rax rcx) | None => mret () end.

(** *** Randomness *)
Definition feed_rng : LM FeedRng :=
  b ← this;
  match br_source b with
  | None => mret NoSource
  | Some source =>
      let '(value, source) := next_rng_u64 source in
      on_branch (with_source (Some source));;
      match value with
      | None => mret Exhausted
      | Some value => vm_call OpRdrandValue (vm_set_rdrand_value value);; mret Fed
      end
  end.
Definition feed_random : LM FeedRng :=
  '(len, pid) ← vm_call OpRandomRequest vm_random_request;
  b ← this;
  match br_source b with
  | None => mret NoSource
  | Some source =>
      let '(bytes, source) := next_random (Z.to_nat len) pid source in
      on_branch (with_source (Some source));;
      vm_call OpRandomBytes (vm_set_random_bytes bytes);; mret Fed
  end.

(** *** Commands *)
Definition IO_OUTPUT_BUFFER_ID : list Z := [0x62; 0x65; 0x64; 0x72; 0x6F; 0x63; 0x6B; 0x2D; 0x69; 0x6F; 0x2D; 0x6F; 0x75; 0x74; 0x70; 0x75; 0x74].
Definition bash_output_from_response (resp : list Z) : LM BashOutput :=
  match decode_response resp with
  | None => throw BadResponse
  | Some r =>
      output ← (if 0 <? rs_output_len r then
                  bufs ← vm_call OpFeedback (vm_feedback_buffers IO_OUTPUT_BUFFER_ID);
                  mret (take (Z.to_nat (rs_output_len r)) (default [] (head bufs)))
                else mret []);
      mret (mkOutput (rs_status r) (exit_code_from_wait_status (rs_exit_code r)) output)
  end.
(** After an input was queued: the next one decides where to stop. *)
Definition peek_next_io target : LM VirtTime :=
  b ← this;
  match br_source b with
  | None => mret target
  | Some source =>
      let '(next, source) := next_io_input source in
      on_branch (λ b, with_pending next (with_source (Some source) b));;
      match next with
      | None => on_branch (with_exhausted true);; mret target
      | Some next => check_freq (frequency (ii_at next));; mret (if time_ltb target (ii_at next) then target else ii_at next)
      end
  end.
Definition queue_input (input : IoInput) target : LM VirtTime := λ '(sh, b),
  let request := encode_request (container_name (ii_target input)) (ii_command input) (ii_record_output input) in
  let '(r, v) := vm_queue_io_action request 0 (br_vm b) in
  match r with
  | Ok _ => peek_next_io target (sh, with_pending None (with_vm v b))
  | Err e => if e =? EBUSY then (Done target, (sh, with_pending (Some input) (with_vm v b)))
             else (Fail (QueueInputIo input e), (sh, with_pending None (with_vm v b)))
  end.
Definition prepare_next_io_input target : LM VirtTime :=
  b ← this;
  if br_exhausted b then mret target
  else
    let due (input : IoInput) : LM VirtTime :=
      check_freq (frequency (ii_at input));;
      b ← this;
      if time_ltb target (ii_at input) then mret target
      else if time_ltb (br_time b) (ii_at input) then mret (ii_at input)
      else queue_input input target in
    match br_pending b with
    | Some input => due input
    | None =>
        match br_source b with
        | None => mret target
        | Some source =>
            let '(next, source) := next_io_input source in
            on_branch (λ b, with_pending next (with_source (Some source) b));;
            match next with
            | None => on_branch (with_exhausted true);; mret target
            | Some input => due input
            end
        end
    end.

(** *** Running *)
(** The answer to one exit: [None] is [continue]. *)
Definition feed_outcome (feed : LM FeedRng) (at_ : VirtTime) (k : ExitKind) : LM (option (VirtTime * RunOutcome)) :=
  fed ← feed;
  match fed with
  | Fed => mret None
  | Exhausted => mret (Some (at_, RngExhausted))
  | NoSource => mret (Some (at_, Yielded k))
  end.
Definition handle_exit target (at_ : VirtTime) (k : ExitKind) : LM (option (VirtTime * RunOutcome)) :=
  match k with
  | KStopTscReached => mret (if time_leb target at_ then Some (at_, ReachedTime) else None)
  | KReady => mret (Some (at_, Ready))
  | KIoResponse =>
      bytes ← vm_call OpDrainIo vm_drain_io_response;
      output ← bash_output_from_response bytes;
      mret (Some (at_, ActionResponse output))
  | KFeedbackBufferRegistered => on_feedback_buffer_registered at_;; mret None
  | KRdrand | KRdseed => feed_outcome feed_rng at_ k
  | KGetRandom => feed_outcome feed_random at_ k
  | KContinue | KEventBufferFull => mret None
  | k => mret (Some (at_, Yielded k))
  end.
(** One [vm.run()], its time and its events. *)
Definition run_vm : LM (VirtTime * ExitKind) :=
  exit ← vm_call OpRun vm_run;
  f ← freq;
  let at_ := mkTime (ve_emulated_tsc exit) f in
  advance_time at_;;
  drain_events (ve_event_len exit);;
  mret (at_, kind exit).
(** [None]: still running after [fuel] exits. *)
Fixpoint run_loop (fuel : nat) target : LM (option (VirtTime * RunOutcome)) :=
  match fuel with
  | O => mret None
  | Datatypes.S fuel =>
      stop_at ← prepare_next_io_input target;
      set_stop_at (Some (instructions stop_at));;
      '(at_, k) ← run_vm;
      done ← handle_exit target at_ k;
      match done with Some r => mret (Some r) | None => run_loop fuel target end
  end.
Definition run_until (fuel : nat) target : LM (option (VirtTime * RunOutcome)) :=
  check_freq (frequency target);;
  b ← this;
  if time_ltb target (br_time b) then throw (TargetInPast (br_time b) target)
  else if bool_decide (target = br_time b) then mret (Some (target, ReachedTime))
  else run_loop fuel target.
Definition run_for (fuel : nat) (by_ : VirtDuration) : LM (option (VirtTime * RunOutcome)) :=
  b ← this;
  match time_add (br_time b) by_ with None => stuck | Some target => run_until fuel target end.

(** A command run to its end.  [store] writes the file chunk the guest sent. *)
Definition store_chunk (store : V → result () Z * V) (at_ : VirtTime) : LM () := λ '(sh, b),
  let '(r, v) := store (br_vm b) in
  (match r with Ok _ => Done () | Err e => Fail (FileStoreFailed at_ e) end, (sh, with_vm v b)).
Fixpoint io_loop (store : V → result () Z * V) (fuel : nat) : LM (option (list Z)) :=
  match fuel with
  | O => mret None
  | Datatypes.S fuel =>
      '(at_, k) ← run_vm;
      match k with
      | KIoResponse => bytes ← vm_call OpDrainIo vm_drain_io_response; mret (Some bytes)
      | KFeedbackBufferRegistered => on_feedback_buffer_registered at_;; io_loop store fuel
      | KFileStore => store_chunk store at_;; io_loop store fuel
      | KRdrand | KRdseed =>
          fed ← feed_rng;
          match fed with Fed => io_loop store fuel | Exhausted | NoSource => throw (UnexpectedExit at_ k) end
      | KContinue | KEventBufferFull | KReady => io_loop store fuel
      | k => throw (UnexpectedExit at_ k)
      end
  end.
Definition run_io_action (store : V → result () Z * V) (fuel : nat) (request : list Z) : LM (option (list Z)) :=
  set_stop_at None;;
  vm_call OpQueueIo (vm_queue_io_action request 0);;
  io_loop store fuel.
Definition bash (store : V → result () Z * V) (fuel : nat) (target : IoTarget) (cmd : list Z) (record_output : bool) : LM (option BashOutput) :=
  bytes ← run_io_action store fuel (encode_request (container_name target) cmd record_output);
  match bytes with
  | None => mret None
  | Some bytes => output ← bash_output_from_response bytes; mret (Some output)
  end.
Definition sched_bash (at_ : VirtTime) (target : IoTarget) (cmd : list Z) (record_output : bool) : LM () :=
  check_freq (frequency at_);;
  vm_call OpQueueIo (vm_queue_io_action (encode_request (container_name target) cmd record_output) (instructions at_)).
End Branch.
Arguments Branch : clear implicits.
Arguments mkBranch {V S}.

(** * Lemmas *)

(** ** Time *)
Lemma time_sub_add t t' d : checked_sub t t' = Some d → instructions t ≤ u64_MAX → time_add t' d = Some t.
Proof.
  unfold checked_sub, time_add. destruct (Z.eqb_spec (frequency t) (frequency t')) as [E|]; [|done]. cbn [negb].
  destruct (Z.ltb_spec (instructions t) (instructions t')); [done|]. intros [= <-] Hm. cbn [d_frequency d_instructions]. rewrite E, Z.eqb_refl. cbn [negb].
  unfold saturating_add. destruct t, t'. cbn in *. subst. do 2 f_equal. lia.
Qed.
Lemma time_ltb_same t t' : frequency t = frequency t' → time_ltb t t' = (instructions t <? instructions t').
Proof. intros E. unfold time_ltb. rewrite E, Z.ltb_irrefl, andb_false_r. apply orb_false_r. Qed.

(** ** Sources *)
Lemma random_words_length {S} (next : S → option Z * S) fuel len out s : (len ≤ length out + 8 * fuel)%nat →
  (len ≤ length (random_words next fuel len out s).1)%nat.
Proof.
  revert out s. induction fuel as [|fuel IH]; intros out s Hl; cbn [random_words]; [cbn; lia|].
  destruct (Nat.ltb_spec (length out) len); [|done]. destruct (next s) as [v s']. apply IH. rewrite length_app, length_le_bytes. lia.
Qed.
Lemma default_next_random_length {S} (next : S → option Z * S) len pid s : length (default_next_random next len pid s).1 = len.
Proof.
  unfold default_next_random. pose proof (random_words_length next (Datatypes.S len) len [] s ltac:(cbn; lia)) as H.
  destruct (random_words _ _ _ _ _) as [out s']. cbn in *. rewrite length_take. lia.
Qed.
Lemma resize_zero_length len bs : length (resize_zero len bs) = len.
Proof. unfold resize_zero. rewrite length_app, length_take, length_replicate. lia. Qed.
Lemma resize_zero_id bs : resize_zero (length bs) bs = bs.
Proof. unfold resize_zero. rewrite firstn_all, Nat.sub_diag. apply app_nil_r. Qed.

(** ** Configurations *)
Lemma config_keeps_extra c extra : extra ≠ 0 → 0 ≤ extra → 0 ≤ lc_categories c →
  vc_enabled (to_vm_config_with c extra) = 1 ∧ Z.land (vc_categories (to_vm_config_with c extra)) extra = extra.
Proof.
  intros Hne H0 Hc. unfold to_vm_config_with. destruct (Z.eqb_spec (Z.lor (effective_categories c) extra) 0) as [E|E].
  { apply Z.lor_eq_0_iff in E. lia. }
  destruct (to_trigger (lc_exits c)) as [[trigger target] []]; cbn [vc_enabled vc_categories config_with_exit_trigger config_with_no_memory_hash config_enabled];
    (split; [done|]); apply Z.bits_inj'; intros i Hi; rewrite Z.land_spec, Z.lor_spec; by destruct (Z.testbit extra i), (Z.testbit (effective_categories c) i).
Qed.

(** ** Sources of randomness *)

(** A source of randomness only. *)
Class QuietSource (S : Type) `{!InputSource S} := {
  qs_width s x s' : next_rng_u64 s = (Some x, s') → in_width 64 x;
  qs_length n pid s : length (next_random n pid s).1 = n;
  qs_io s : next_io_input s = (None, s);
}.
(** A source whose answers are noted, each as the bytes a recording has of it. *)
Definition logged {S} `{!InputSource S} : InputSource (S * list (list Z)) := {|
  next_rng_u64 := λ '(s, l), let '(v, s) := next_rng_u64 s in (v, (s, if v is Some x then l ++ [le_bytes 8 x] else l));
  next_random len pid := λ '(s, l), let '(bs, s) := next_random len pid s in (bs, (s, l ++ [bs]));
  next_io_input := λ '(s, l), let '(i, s) := next_io_input s in (i, (s, l))
|}.

(** ** Replay

    A computation of a branch, run with one source or with another that serves the
    same values, differs in the source alone.  [mirrors k k'] says so of a
    computation that does not use the source: [k] and [k'] are the same code on branches with
    sources of two types. *)
Section Replay.
Context (lossy : list Z → list Z) {V S S' : Type} `{!VmOps V, !InputSource S, !InputSource S'}.
Local Notation B := (Branch V S).
Local Notation B' := (Branch V S').
Definition retarget (s : S') (b : B) : B' :=
  mkBranch (br_id b) (br_origin b) (br_vm b) (br_time b) (br_partial b) (Some s) (br_pending b) (br_exhausted b) (br_recording b) (br_last_stop b) (br_config b).
Definition mirrors {A} (k : LM (V := V) (S := S) A) (k' : LM (V := V) (S := S') A) : Prop := ∀ sh b s s',
  br_source b = Some s →
  let '(r, (sh1, b1)) := k (sh, b) in
  k' (sh, retarget s' b) = (r, (sh1, retarget s' b1)) ∧ br_source b1 = Some s ∧ br_pending b1 = br_pending b.
(** The randomness a branch has recorded. *)
Definition bytes_of (b : B) : list (list Z) := ri_bytes <$> random_inputs (br_recording b).

Lemma mirrors_bind {A C} k k' (f : A → LM C) f' : mirrors k k' → (∀ a, mirrors (f a) (f' a)) → mirrors (k ≫= f) (k' ≫= f').
Proof.
  intros Hk Hf sh b s s' Hs. specialize (Hk sh b s s' Hs). unfold mbind, M_bind. destruct (k (sh, b)) as [r [sh1 b1]].
  destruct Hk as (-> & Hs1 & Hp). destruct r as [a|e|]; [|by split_and!..].
  specialize (Hf a sh1 b1 s s' Hs1). destruct (f a (sh1, b1)) as [r2 [sh2 b2]]. destruct Hf as (-> & Hs2 & Hp2).
  split_and!; [done|done|congruence].
Qed.
Lemma mirrors_ret {A} (a : A) : mirrors (mret a) (mret a).
Proof. intros sh b s s' Hs. cbn. by split_and!. Qed.
Lemma mirrors_throw {A} e : mirrors (throw e : LM A) (throw e).
Proof. intros sh b s s' Hs. cbn. by split_and!. Qed.
Lemma mirrors_this {A} (f : B → LM A) (f' : B' → LM A) :
  (∀ b s', is_Some (br_source b) → mirrors (f b) (f' (retarget s' b))) → mirrors (this ≫= f) (this ≫= f').
Proof. intros Hf sh b s s' Hs. apply (Hf b s' ltac:(by rewrite Hs) sh b s s' Hs). Qed.
Lemma mirrors_freq {A} (f f' : Z → LM A) : (∀ x, mirrors (f x) (f' x)) → mirrors (freq ≫= f) (freq ≫= f').
Proof. intros Hf sh b s s' Hs. apply (Hf (sh_freq sh) sh b s s' Hs). Qed.
Lemma mirrors_emit e : mirrors (emit e) (emit e).
Proof. intros sh b s s' Hs. cbn. by split_and!. Qed.
Lemma mirrors_vm_call {A} op (f : V → result A Z * V) : mirrors (vm_call op f) (vm_call op f).
Proof. intros sh b s s' Hs. unfold vm_call. cbn [retarget br_vm]. destruct (f (br_vm b)) as [r v]. by split_and!. Qed.
Lemma mirrors_emits {A} (l : list A) (f : A → LabEvent) : mirrors (for_each l (λ x, emit (f x))) (for_each l (λ x, emit (f x))).
Proof.
  induction l as [|x l IH]; [by apply mirrors_ret|]. cbn [for_each]. apply mirrors_bind; [apply mirrors_emit|intros []; exact IH].
Qed.
(** A change to the branch that leaves source and next input alone. *)
Lemma mirrors_branch (g : B → B) (g' : B' → B') :
  (∀ b s', g' (retarget s' b) = retarget s' (g b)) → (∀ b, br_source (g b) = br_source b ∧ br_pending (g b) = br_pending b) → mirrors (on_branch g) (on_branch g').
Proof. intros Hg Hk sh b s s' Hs. unfold on_branch, modify. destruct (Hk b) as [H1 H2]. rewrite Hg. split_and!; [done|congruence|done]. Qed.

(** *** Draining *)
Lemma drain_record_mirrors r : mirrors (drain_record lossy r) (drain_record lossy r).
Proof.
  unfold drain_record. apply mirrors_this. intros b0 s0 [s1 Hs1]. apply mirrors_freq. intros f. cbn [retarget br_partial br_id br_source]. rewrite Hs1.
  destruct (_ =? _).
  - destruct (serial_record_into_sink _ _ _) as [lines partial]. apply mirrors_bind; [apply mirrors_emits|]. intros []. by apply mirrors_branch.
  - apply mirrors_bind; [by apply mirrors_branch|intros []; apply mirrors_emit].
Qed.
Lemma drain_events_mirrors n : mirrors (drain_events lossy n) (drain_events lossy n).
Proof.
  unfold drain_events. destruct (n =? 0); [apply mirrors_ret|]. apply mirrors_this. intros b s' _. cbn [retarget br_vm].
  destruct (vm_event_buffer (br_vm b)) as [buf|]; [|apply mirrors_ret]. generalize (EventStream (take (Z.to_nat n) buf)). intros rs.
  induction rs as [|r rs IH]; [apply mirrors_ret|]. cbn [for_each]. apply mirrors_bind; [apply drain_record_mirrors|intros []; exact IH].
Qed.
Lemma run_vm_mirrors : mirrors (run_vm lossy) (run_vm lossy).
Proof.
  unfold run_vm. apply mirrors_bind; [apply mirrors_vm_call|intros e]. apply mirrors_freq. intros f. apply mirrors_bind.
  { intros sh b s s' Hs. cbn. by split_and!. }
  intros []. apply mirrors_bind; [apply drain_events_mirrors|intros []; apply mirrors_ret].
Qed.
(** *** Exits that do not ask for randomness *)
Definition asks (k : ExitKind) : bool := match k with KRdrand | KRdseed | KGetRandom => true | _ => false end.
Lemma bash_output_mirrors resp : mirrors (bash_output_from_response resp) (bash_output_from_response resp).
Proof.
  unfold bash_output_from_response. destruct (decode_response resp) as [r|]; [|apply mirrors_throw].
  apply mirrors_bind; [|intros out; apply mirrors_ret]. destruct (0 <? rs_output_len r); [|apply mirrors_ret].
  apply mirrors_bind; [apply mirrors_vm_call|intros bufs; apply mirrors_ret].
Qed.
Lemma feedback_mirrors at_ : mirrors (on_feedback_buffer_registered at_) (on_feedback_buffer_registered at_).
Proof.
  unfold on_feedback_buffer_registered. apply mirrors_bind; [apply mirrors_vm_call|]. intros [rax rcx].
  destruct (rax =? u64_MAX); [apply mirrors_ret|]. apply mirrors_bind; [apply mirrors_vm_call|]. intros info. apply mirrors_this. intros b s' _.
  destruct info; [apply mirrors_emit|apply mirrors_ret].
Qed.
Lemma handle_exit_mirrors target at_ k : asks k = false → mirrors (handle_exit target at_ k) (handle_exit target at_ k).
Proof.
  intros Hk. destruct k; try done; cbn [handle_exit]; try apply mirrors_ret.
  - apply mirrors_bind; [apply feedback_mirrors|intros []; apply mirrors_ret].
  - apply mirrors_bind; [apply mirrors_vm_call|]. intros bytes. apply mirrors_bind; [apply bash_output_mirrors|intros out; apply mirrors_ret].
Qed.
Lemma set_stop_at_mirrors v : mirrors (set_stop_at v) (set_stop_at v).
Proof.
  unfold set_stop_at. apply mirrors_this. intros b s' _. cbn [retarget br_last_stop]. destruct (bool_decide _); [apply mirrors_ret|].
  apply mirrors_bind; [apply mirrors_vm_call|]. intros []. by apply mirrors_branch.
Qed.
(** One round up to the exit. *)
Lemma round_mirrors target : mirrors (set_stop_at (Some (instructions target));; run_vm lossy) (set_stop_at (Some (instructions target));; run_vm lossy).
Proof. apply mirrors_bind; [apply set_stop_at_mirrors|intros []; apply run_vm_mirrors]. Qed.
End Replay.

Lemma prepare_quiet {V T} `{!VmOps V, !InputSource T} target sh (b : Branch V T) s :
  br_source b = Some s → br_pending b = None → next_io_input s = (None, s) →
  prepare_next_io_input target (sh, b) = (Done target, (sh, with_exhausted true b)).
Proof.
  intros Hs Hp Hn. unfold prepare_next_io_input, this, gets, mbind, M_bind. cbn [snd]. destruct (br_exhausted b) eqn:He.
  - destruct b. cbn in *. by subst.
  - rewrite Hp, Hs, Hn. destruct b. cbn in *. by subst.
Qed.
(** What a replayed recording has left. *)
Definition remaining (s : RecordedInputSource) : list (list Z) := drop (random_pos s) (ri_bytes <$> random_inputs (rec_recording s)).
Lemma remaining_cons s b l : remaining s = b :: l →
  ∃ input, random_inputs (rec_recording s) !! random_pos s = Some input ∧ ri_bytes input = b ∧
    remaining (mkRecorded (rec_recording s) (Datatypes.S (random_pos s)) (io_pos s)) = l.
Proof.
  unfold remaining. intros E. assert ((ri_bytes <$> random_inputs (rec_recording s)) !! random_pos s = Some b) as Hl.
  { rewrite <-(Nat.add_0_r (random_pos s)), <-lookup_drop, E. done. }
  apply list_lookup_fmap_Some in Hl as (input & -> & Hin). exists input. split; [done|]. split; [done|]. cbn.
  rewrite <-(Nat.add_1_r (random_pos s)), <-drop_drop, E. done.
Qed.
Lemma remaining_nil s : remaining s = [] → random_inputs (rec_recording s) !! random_pos s = None.
Proof. unfold remaining. intros E. apply lookup_ge_None. apply (f_equal length) in E. rewrite length_drop, length_fmap in E. cbn in E. lia. Qed.
Lemma recorded_next_rng s x l : in_width 64 x → remaining s = le_bytes 8 x :: l →
  ∃ s1, next_rng_u64 s = (Some x, s1) ∧ remaining s1 = l ∧ rec_recording s1 = rec_recording s ∧ io_pos s1 = io_pos s.
Proof.
  intros Hx E. destruct (remaining_cons _ _ _ E) as (input & Hin & Hb & Hl). eexists. split; [|by split_and!].
  cbn [next_rng_u64 recorded_source]. rewrite Hin. cbv zeta. rewrite Hb, length_le_bytes. rewrite Nat.min_id, Nat.sub_diag. cbn [replicate].
  rewrite app_nil_r. rewrite (take_ge (le_bytes 8 x)) by (by rewrite length_le_bytes). by rewrite of_le_le_bytes_small.
Qed.
Lemma recorded_next_random s bs pid l : remaining s = bs :: l →
  ∃ s1, next_random (length bs) pid s = (bs, s1) ∧ remaining s1 = l ∧ rec_recording s1 = rec_recording s ∧ io_pos s1 = io_pos s.
Proof.
  intros E. destruct (remaining_cons _ _ _ E) as (input & Hin & Hb & Hl). eexists. split; [|by split_and!].
  cbn [next_random recorded_source]. rewrite Hin. cbn. by rewrite Hb, resize_zero_id.
Qed.

Section ReplayLoop.
Context (lossy : list Z → list Z) {V S : Type} `{!VmOps V, !InputSource S, !QuietSource S}.
#[local] Existing Instance logged.
Local Notation B := (Branch V (S * list (list Z))).
Local Notation replay := (retarget (S' := RecordedInputSource)).
(** Two sources that differ in their place in the recording's randomness. *)
Definition same_recording (s s1 : RecordedInputSource) : Prop := rec_recording s1 = rec_recording s ∧ io_pos s1 = io_pos s.
(** An exit that asks for randomness, answered by the source and by a recording of its answer. *)
Definition answered (target at_ : VirtTime) (k : ExitKind) l sh (b : B) done sh1 (b1 : B) : Prop :=
  br_pending b1 = br_pending b ∧
  ((done = None ∧ ∃ s1 bs, br_source b1 = Some (s1, l ++ [bs]) ∧ ∀ s' fut, remaining s' = bs :: fut →
      ∃ s1', same_recording s' s1' ∧ remaining s1' = fut ∧ handle_exit target at_ k (sh, replay s' b) = (Done done, (sh1, replay s1' b1))) ∨
   (is_Some done ∧ (∃ s1, br_source b1 = Some (s1, l)) ∧ ∀ s', remaining s' = [] → handle_exit target at_ k (sh, replay s' b) = (Done done, (sh1, replay s' b1)))).
Lemma feed_rng_answered target at_ k sh (b : B) s l done sh1 b1 :
  k = KRdrand ∨ k = KRdseed → br_source b = Some (s, l) →
  handle_exit target at_ k (sh, b) = (Done done, (sh1, b1)) → answered target at_ k l sh b done sh1 b1.
Proof.
  intros Hk Hs. assert (∀ T (IT : InputSource T), handle_exit (V := V) (S := T) target at_ k = feed_outcome feed_rng at_ k) as Eh by (by destruct Hk as [-> | ->]).
  unfold answered. rewrite !Eh. unfold feed_outcome, feed_rng, this, gets, mbind, M_bind. cbn [snd]. rewrite Hs. cbn [next_rng_u64 logged].
  destruct (next_rng_u64 s) as [[x|] s1] eqn:En; cbn [modify on_branch fst snd].
  - unfold vm_call. cbn [with_source br_vm]. destruct (vm_set_rdrand_value x (br_vm b)) as [[[]|e] v'] eqn:Ev; [|done]. intros [= <- <- <-].
    pose proof (qs_width _ _ _ En) as Hx. split; [done|]. left. split; [done|].
    exists s1, (le_bytes 8 x). split; [done|]. intros s' fut Hrem.
    destruct (recorded_next_rng s' x fut Hx Hrem) as (s1' & En' & Hl & Hr & Hi). exists s1'. split; [done|]. split; [done|].
    cbn [snd retarget br_source]. rewrite En'. cbn. by rewrite Ev.
  - intros [= <- <- <-]. split; [done|]. right. split; [by eexists|]. split; [by eexists|]. intros s' Hrem.
    cbn [snd retarget br_source next_rng_u64 recorded_source]. by rewrite (remaining_nil _ Hrem).
Qed.
Lemma feed_random_answered target at_ sh (b : B) s l done sh1 b1 :
  br_source b = Some (s, l) →
  handle_exit target at_ KGetRandom (sh, b) = (Done done, (sh1, b1)) → answered target at_ KGetRandom l sh b done sh1 b1.
Proof.
  intros Hs. unfold answered. cbn [handle_exit]. unfold feed_outcome, feed_random, vm_call, mbind, M_bind.
  cbn [retarget br_vm]. destruct (vm_random_request (br_vm b)) as [[[len pid]|e] v] eqn:Eq; [|done].
  unfold this, gets. cbn [snd with_vm br_source]. rewrite Hs. cbn [next_random logged]. pose proof (qs_length (Z.to_nat len) pid s) as Hlen.
  destruct (next_random (Z.to_nat len) pid s) as [bs s1] eqn:En. cbn in Hlen. cbn [modify on_branch fst snd with_source with_vm br_vm].
  destruct (vm_set_random_bytes bs v) as [[[]|e] v'] eqn:Ev; [|intros H; discriminate H]. intros [= <- <- <-]. split; [done|]. left. split; [done|].
  exists s1, bs. split; [done|]. intros s' fut Hrem.
  destruct (recorded_next_random s' bs pid fut Hrem) as (s1' & En' & Hl & Hr & Hi). rewrite Hlen in En'. exists s1'. split; [done|]. split; [done|].
  cbn [retarget br_source]. rewrite En'. cbn. by rewrite Ev.
Qed.
Lemma asks_answered target at_ k sh (b : B) s l done sh1 b1 :
  asks k = true → br_source b = Some (s, l) →
  handle_exit target at_ k (sh, b) = (Done done, (sh1, b1)) → answered target at_ k l sh b done sh1 b1.
Proof.
  intros Hk. destruct k; try done; intros Hs; [apply (feed_rng_answered target at_ _ sh b s)|apply (feed_rng_answered target at_ _ sh b s)|by apply (feed_random_answered _ _ _ _ s)]; auto.
Qed.
Lemma run_loop_quiet {T} `{!InputSource T} fuel target sh (b : Branch V T) s :
  br_source b = Some s → br_pending b = None → next_io_input s = (None, s) →
  run_loop lossy (Datatypes.S fuel) target (sh, b) =
  ('(at_, k) ← (set_stop_at (Some (instructions target));; run_vm lossy);
   done ← handle_exit target at_ k;
   match done with Some r => mret (Some r) | None => run_loop lossy fuel target end) (sh, with_exhausted true b).
Proof.
  intros Hs Hp Hq. cbn [run_loop]. unfold mbind at 1, M_bind at 1. rewrite (prepare_quiet _ _ _ s Hs Hp Hq).
  unfold mbind, M_bind. by destruct (set_stop_at _ _) as [[[]|x|] st].
Qed.
Lemma logged_quiet (s : S) (l : list (list Z)) : next_io_input (s, l) = (None, (s, l)).
Proof. cbn. by rewrite qs_io. Qed.
(** A loop that ended: what its source answered on the way, and the loop again with a source that has just that left. *)
Lemma replay_loop fuel target : ∀ sh (b : B) s l res sh' b',
  br_source b = Some (s, l) → br_pending b = None →
  run_loop lossy fuel target (sh, b) = (Done (Some res), (sh', b')) →
  ∃ s1 fut, br_source b' = Some (s1, l ++ fut) ∧
    ∀ s', remaining s' = fut → next_io_input s' = (None, s') →
      ∃ s'', run_loop lossy fuel target (sh, replay s' b) = (Done (Some res), (sh', replay s'' b')).
Proof.
  induction fuel as [|fuel IH]; intros sh b s l res sh' b' Hs Hp; [done|]. rewrite (run_loop_quiet fuel target sh b _ Hs Hp (logged_quiet s l)).
  set (b0 := with_exhausted true b). unfold mbind at 1, M_bind at 1. intros H.
  assert (∀ s', next_io_input s' = (None, s') → run_loop lossy (Datatypes.S fuel) target (sh, replay s' b) =
    ('(at_, k) ← (set_stop_at (Some (instructions target));; run_vm lossy); done ← handle_exit target at_ k;
     match done with Some r => mret (Some r) | None => run_loop lossy fuel target end) (sh, replay s' b0)) as Hstart.
  { intros s' Hq. by rewrite (run_loop_quiet fuel target sh (replay s' b) s') by done. }
  pose proof (λ s', round_mirrors lossy (S' := RecordedInputSource) target sh b0 (s, l) s' Hs) as Hm.
  destruct ((set_stop_at _;; run_vm lossy) (sh, b0)) as [[[at_ k]|x|] [sh1 b1]]; [|done..].
  destruct (Hm (recorded_new recording_new)) as (_ & Hs1 & Hp1). change (br_pending b0) with (br_pending b) in Hp1. rewrite Hp in Hp1.
  assert (∀ s', (set_stop_at (Some (instructions target));; run_vm lossy) (sh, replay s' b0) = (Done (at_, k), (sh1, replay s' b1))) as Hround by (intros s'; apply Hm). clear Hm.
  unfold mbind at 1, M_bind at 1 in H. destruct (handle_exit target at_ k (sh1, b1)) as [[ans|x|] [sh2 b2]] eqn:Eh; [|done..].
  destruct (asks k) eqn:Hk.
  - destruct (asks_answered target at_ k sh1 b1 s l ans sh2 b2 Hk Hs1 Eh) as (Hp2 & [(-> & s2 & bs & Hs2 & Hrep)|([r ->] & [s2 Hs2] & Hrep)]).
    + destruct (IH sh2 b2 s2 (l ++ [bs]) res sh' b' Hs2 ltac:(congruence) H) as (s3 & fut & Hs3 & Hcont). exists s3, (bs :: fut). split; [by rewrite Hs3, <-app_assoc|].
      intros s' Hrem Hq. destruct (Hrep s' fut Hrem) as (s1' & [Hr1 Hi1] & Hl1 & Eh'). rewrite (Hstart s' Hq). unfold mbind at 1 2, M_bind at 1 2. rewrite (Hround s'), Eh'.
      apply Hcont; [done|]. cbn [next_io_input recorded_source] in *. rewrite Hr1, Hi1. by destruct (io_inputs (rec_recording s') !! io_pos s').
    + injection H as <- <- <-. exists s2, []. split; [by rewrite app_nil_r|]. intros s' Hrem Hq. exists s'. rewrite (Hstart s' Hq). unfold mbind at 1 2, M_bind at 1 2. by rewrite (Hround s'), (Hrep s' Hrem).
  - pose proof (λ s', handle_exit_mirrors (S' := RecordedInputSource) target at_ k Hk sh1 b1 (s, l) s' Hs1) as Hm. rewrite Eh in Hm.
    destruct (Hm (recorded_new recording_new)) as (_ & Hs2 & Hp2).
    assert (∀ s', handle_exit target at_ k (sh1, replay s' b1) = (Done ans, (sh2, replay s' b2))) as Hh by (intros s'; apply Hm). clear Hm.
    destruct ans as [r|].
    + injection H as <- <- <-. exists s, []. split; [by rewrite app_nil_r|].
      intros s' Hrem Hq. exists s'. rewrite (Hstart s' Hq). unfold mbind at 1 2, M_bind at 1 2. by rewrite (Hround s'), (Hh s').
    + destruct (IH sh2 b2 s l res sh' b' Hs2 ltac:(congruence) H) as (s3 & fut & Hs3 & Hcont). exists s3, fut. split; [done|].
      intros s' Hrem Hq. rewrite (Hstart s' Hq). unfold mbind at 1 2, M_bind at 1 2. rewrite (Hround s'), (Hh s'). by apply Hcont.
Qed.
End ReplayLoop.

(** * Theorems *)
Section Theorems.
Context (lossy : list Z → list Z) {V S : Type} `{!VmOps V, !InputSource S, !QuietSource S}.
#[local] Existing Instance logged.
(** C9: A branch replayed from its own recording runs the same, if the recording is complete.  Let a branch run to a target with a source of randomness of
    any kind, which gave the answers [given], and let the recording have grown by just these answers, and have no I/O command.  Then the same branch, with the recording as its
    source from where the run began, gives the same result and the same events, and ends with the same VM, time, recording and serial line; only the source
    differs.  The VM is any machine, as long as its ioctls are functions of its state.  A recording with an I/O command is not covered: replay
    queues the command a second time. *)
Theorem replay_reproduces fuel target sh (b : Branch V (S * list (list Z))) s res sh' b' s1 given :
  br_source b = Some (s, []) → br_pending b = None →
  run_until lossy fuel target (sh, b) = (Done (Some res), (sh', b')) →
  br_source b' = Some (s1, given) → bytes_of b' = bytes_of b ++ given → io_inputs (br_recording b') = [] →
  let recorded := mkRecorded (br_recording b') (length (random_inputs (br_recording b))) 0 in
  ∃ s'', run_until lossy fuel target (sh, retarget recorded b) = (Done (Some res), (sh', retarget s'' b')).
Proof.
  intros Hs Hp H Hs1 Hby Hio recorded. unfold run_until, check_freq, freq, this, gets, throw in *. unfold mbind, M_bind in *. cbn [fst snd] in *.
  destruct (frequency target =? sh_freq sh); [|done]. cbn [fst snd mret M_ret] in *. cbn [retarget br_time]. destruct (time_ltb target (br_time b)); [done|].
  destruct (bool_decide (target = br_time b)); [injection H as <- <- <-; by eexists|].
  destruct (replay_loop lossy fuel target sh b s [] res sh' b' Hs Hp H) as (s2 & fut & Hfut & Hrun). rewrite Hfut in Hs1. injection Hs1 as -> Hg. apply Hrun.
  - unfold remaining. cbn [random_pos rec_recording recorded]. change (ri_bytes <$> random_inputs (br_recording b')) with (bytes_of b'). rewrite Hby, <-Hg.
    apply drop_app_length'. unfold bytes_of. by rewrite length_fmap.
  - cbn [next_io_input recorded_source recorded rec_recording io_pos]. by rewrite Hio.
Qed.
End Theorems.

(** Every source serves a request for random bytes with exactly the bytes asked for: one that only has words, after at most one word per eight bytes;
    and a recording, also past its end.  A branch with a source keeps the records its recording is made from switched on, whatever the
    caller captures, and so does every branch for the console. *)
Theorem sources_and_capture_total {S} (next : S → option Z * S) len pid (s : S) (r : RecordedInputSource) c :
  0 ≤ lc_categories c →
  length (default_next_random next len pid s).1 = len ∧ length (next_random len pid r).1 = len ∧
  ∀ sourced : bool, let extra := if sourced then Z.lor CAT_SERIAL RECORDING_CATEGORIES else CAT_SERIAL in
    let config := to_vm_config_with c extra in
    vc_enabled config = 1 ∧ contains (vc_categories config) CAT_SERIAL = true ∧
    (sourced = true → contains (vc_categories config) CAT_RANDOMNESS = true ∧ contains (vc_categories config) CAT_IO_CHANNEL = true).
Proof.
  intros Hc. split; [apply default_next_random_length|]. split; [apply resize_zero_length|]. intros sourced extra config.
  assert (extra ≠ 0 ∧ 0 ≤ extra) as [Hne H0] by (by destruct sourced). destruct (config_keeps_extra c extra Hne H0 Hc) as [He Hx]. fold config in He, Hx.
  assert (∀ cat, Z.land extra cat = cat → contains (vc_categories config) cat = true) as Hcat.
  { intros cat E. unfold contains. rewrite <-E at 1. rewrite Z.land_assoc, Hx, E. by apply Z.eqb_eq. }
  split; [done|]. split; [apply Hcat; by destruct sourced|]. intros ->. by split; apply Hcat.
Qed.

(** ** Examples *)

(** A machine that asks for one random word, stores it, and reaches its time. *)
Record toy := mkToy { toy_staged : option Z; toy_stored : option Z; toy_buffer : list Z }.
Definition toy_record (x : Z) : EventRecord :=
  let payload := random_bytes (mkRandom (u64 x) 0 0 8) in
  mkRecord (mkHeader 0 100 0 (as_u16 Randomness) 0 (Z.of_nat (length payload))) payload.
Definition keep {A} (a : A) (v : toy) : result A Z * toy := (Ok a, v).
#[export] Instance toy_ops : VmOps toy := {
  vm_run v := match toy_staged v with
              | Some x => (Ok (mkVmExit 259 0 48 100), mkToy None (Some x) (record_bytes (toy_record x)))
              | None => (Ok (mkVmExit 57 0 0 50), mkToy None (toy_stored v) [])
              end;
  vm_event_buffer v := Some (toy_buffer v);
  vm_set_stop_at_tsc _ := keep (); vm_queue_io_action _ _ := keep (); vm_drain_io_response := keep [];
  vm_set_rdrand_value x v := (Ok (), mkToy (Some (u64 x)) (toy_stored v) (toy_buffer v));
  vm_random_request := keep (0, 0); vm_set_random_bytes _ v := (Err 22, v); vm_set_event_config _ := keep (); vm_set_single_step _ := keep ();
  vm_set_rdrand_exit := keep (); vm_get_regs := keep (0, 0); vm_feedback_info _ := keep None; vm_feedback_buffers _ := keep []; vm_fork v := Ok v
}.
(** A counter as a source of randomness. *)
Definition counter (n : Z) : option Z * Z := (Some (u64 n), n + 1).
#[export] Instance counter_source : InputSource Z := closure_source counter.
#[export] Instance counter_quiet : QuietSource Z.
Proof.
  constructor; [|intros; apply default_next_random_length|done]. intros s x s' [= <- <-]. by apply in_width_wrap.
Qed.
#[local] Existing Instance logged.
Definition toy_branch : Branch toy (Z * list (list Z)) :=
  mkBranch 1 0 (mkToy None None []) (mkTime 0 1000) partial_default (Some (7, [])) None false recording_new None lab_config_default.
Definition toy_shared : Shared := mkShared 1000 ∅ [].
Lemma replay_reproduces_witness : ∃ sh' b' s'',
  run_until id 5 (mkTime 100 1000) (toy_shared, toy_branch) = (Done (Some (mkTime 100 1000, ReachedTime)), (sh', b')) ∧
  bytes_of b' = [le_bytes 8 7] ∧ toy_stored (br_vm b') = Some 7 ∧
  run_until id 5 (mkTime 100 1000) (toy_shared, retarget (recorded_new (br_recording b')) toy_branch) = (Done (Some (mkTime 100 1000, ReachedTime)), (sh', retarget s'' b')).
Proof.
  destruct (run_until id 5 (mkTime 100 1000) (toy_shared, toy_branch)) as [r [sh' b']] eqn:E.
  vm_compute in E. injection E as <- <- <-.
  edestruct (replay_reproduces id 5 (mkTime 100 1000) toy_shared toy_branch 7) as [s'' H]; [reflexivity|reflexivity|vm_compute; reflexivity|reflexivity|reflexivity|reflexivity|].
  eexists _, _, s''. split; [reflexivity|]. split; [reflexivity|]. split; [reflexivity|]. exact H.
Defined.
Lemma sources_and_capture_total_witness : length (default_next_random counter 11 0 5).1 = 11%nat.
Proof.
  assert (0 ≤ lc_categories lab_config_default) as Hc by (cbn; lia).
  exact (proj1 (sources_and_capture_total counter 11 0 5 (recorded_new recording_new) lab_config_default Hc)).
Defined.
