(* ===== verification/LabTree.v ===== *)
(** * The tree of checkpoints (crate [bedrock-lab]: [checkpoint.rs], [inner.rs],
    [tree.rs], and [Branch::checkpoint] of [branch.rs])

    Checkpoints and their parents are a graph that all handles share.  Forking a
    branch does not change it; a checkpoint of a branch adds a child of the
    branch's origin; rewinding runs a branch from the latest ancestor that is early enough,
    takes a checkpoint of it and puts it between that ancestor and the
    checkpoints after it.  The table has weak references: a checkpoint whose handles are
    gone is no longer found.

    Nothing is assumed of the times that VMs report: a run may stop early or pass
    the stop it was given.  So the theorems are about the tree itself, and say of
    times only what the code checks. *)
From S2P Require Import Prelude Wire Random Vcpu Channel Lab.

(** ** State *)
Section Tree.
Context (lossy : list Z → list Z) {V S : Type} `{!VmOps V} `{!InputSource S}.
(** [CheckpointInner]. *)
Record Checkpoint := mkCheckpoint {
  cp_id : Z; cp_time : VirtTime; cp_vm : V; cp_vm_parent : option Z; cp_partial : PartialLine; cp_source : option S; cp_pending : option IoInput;
  cp_exhausted : bool; cp_recording : InputRecording
}.
(** [LabGraph]; a checkpoint is in the table while a handle keeps it. *)
Record LabGraph := mkGraph {
  g_checkpoints : gmap Z Checkpoint;
  g_parent : gmap Z Z;
  g_children : gmap Z (gset (Z * Z * Z))
}.
Record LabInner := mkLab { lab_shared : Shared; lab_next_checkpoint : Z; lab_next_branch : Z; lab_graph : LabGraph }.
Implicit Types (g : LabGraph) (cp : Checkpoint) (L : LabInner).
Definition TM := M LabInner LabError.

Definition child_key t (id : Z) : Z * Z * Z := (instructions t, frequency t, id).
Definition kids g (p : Z) : gset (Z * Z * Z) := default ∅ (g_children g !! p).
Definition register_checkpoint cp (parent : option Z) g : LabGraph :=
  let cps := <[cp_id cp := cp]> (g_checkpoints g) in
  match parent with
  | None => mkGraph cps (g_parent g) (g_children g)
  | Some parent =>
      mkGraph cps (<[cp_id cp := parent]> (g_parent g)) (<[parent := {[child_key (cp_time cp) (cp_id cp)]} ∪ kids g parent]> (g_children g))
  end.
Definition reparent (child new_parent : Z) g : LabGraph :=
  match g_checkpoints g !! child with
  | None => g
  | Some inner =>
      let key := child_key (cp_time inner) child in
      let children := match g_parent g !! child with
                      | Some old => match g_children g !! old with
                                    | Some ks => <[old := ks ∖ {[key]}]> (g_children g)
                                    | None => g_children g
                                    end
                      | None => g_children g
                      end in
      mkGraph (g_checkpoints g) (<[child := new_parent]> (g_parent g)) (<[new_parent := {[key]} ∪ default ∅ (children !! new_parent)]> children)
  end.
Definition graph_parent g (id : Z) : option Checkpoint := p ← g_parent g !! id; g_checkpoints g !! p.
(** The last handle of a checkpoint goes. *)
Definition drop_checkpoint (id : Z) g : LabGraph := mkGraph (delete id (g_checkpoints g)) (g_parent g) (g_children g).

(** ** Operations *)
Definition with_graph g L : LabInner := mkLab (lab_shared L) (lab_next_checkpoint L) (lab_next_branch L) g.
Definition with_shared (sh : Shared) L : LabInner := mkLab sh (lab_next_checkpoint L) (lab_next_branch L) (lab_graph L).
Definition log_event (e : LabEvent) : TM () := modify (λ L,
  let sh := lab_shared L in with_shared (mkShared (sh_freq sh) (sh_live sh) (sh_sink sh ++ [e])) L).
Definition set_live (f : gmap Z BranchMeta → gmap Z BranchMeta) : TM () := modify (λ L,
  let sh := lab_shared L in with_shared (mkShared (sh_freq sh) (f (sh_live sh)) (sh_sink sh)) L).
Definition next_checkpoint_id : TM Z := λ L,
  (Done (lab_next_checkpoint L), mkLab (lab_shared L) (u64 (lab_next_checkpoint L + 1)) (lab_next_branch L) (lab_graph L)).
Definition next_branch_id : TM Z := λ L,
  (Done (lab_next_branch L), mkLab (lab_shared L) (lab_next_checkpoint L) (u64 (lab_next_branch L + 1)) (lab_graph L)).
(** A method of a branch, which uses the shared part. *)
Definition on_branch_of {A} (b : Branch V S) (k : LM A) : TM (A * Branch V S) := λ L,
  let '(r, (sh, b)) := k (lab_shared L, b) in
  (match r with Done a => Done (a, b) | Fail e => Fail e | Stuck => Stuck end, with_shared sh L).

(** The same where the caller returns an error at once: the branch is dropped. *)
Definition or_drop {A} (b : Branch V S) (k : LM A) : TM (A * Branch V S) := λ L,
  match on_branch_of b k L with
  | (Fail e, L) => (Fail e, (set_live (delete (br_id b)) L).2)
  | r => r
  end.

(** [Branch::checkpoint]: consumes the branch, which leaves the table of live ones. *)
Definition checkpoint (b : Branch V S) : TM Checkpoint :=
  id ← next_checkpoint_id;
  let cp := mkCheckpoint id (br_time b) (br_vm b) (Some (br_origin b)) (br_partial b) (br_source b) (br_pending b) (br_exhausted b) (br_recording b) in
  modify (λ L, with_graph (register_checkpoint cp (Some (br_origin b)) (lab_graph L)) L);;
  log_event (CheckpointCreated id (Some (br_id b)) (Some (br_origin b)) (br_time b));;
  set_live (delete (br_id b));;
  mret cp.
(** [initial_at_with_configured_rng]: a new lab with its root. *)
Definition initial (freq : Z) (vm : V) t (partial : PartialLine) (source : option S) : LabInner * Checkpoint :=
  let cp := mkCheckpoint 0 t vm None partial source None false recording_new in
  (mkLab (mkShared freq ∅ [CheckpointCreated 0 None None t]) 1 1 (register_checkpoint cp None (mkGraph ∅ ∅ ∅)), cp).
Definition branch_new (id : Z) cp (vm : V) (source : option S) : TM (Branch V S) :=
  set_live (insert id (mkMeta id (cp_id cp) (cp_time cp)));;
  log_event (BranchCreated id (cp_id cp) (cp_time cp));;
  mret (mkBranch id (cp_id cp) vm (cp_time cp) (cp_partial cp) source (cp_pending cp) (cp_exhausted cp) (cp_recording cp) None lab_config_default).
Definition branch_inner cp (source : option S) (force_exit_to_userspace : bool) : TM (Branch V S) :=
  match vm_fork (cp_vm cp) with
  | Err e => throw (VmFailed OpFork e)
  | Ok child =>
      let '(r, child) := if force_exit_to_userspace then vm_set_rdrand_exit child else (Ok (), child) in
      match r with
      | Err e => throw (VmFailed OpRdrandConfig e)
      | Ok _ =>
          id ← next_branch_id;
          b ← branch_new id cp child source;
          '(_, b) ← or_drop b apply_event_config;
          mret b
      end
  end.
Definition branch cp : TM (Branch V S) := branch_inner cp (cp_source cp) false.
Definition branch_with_input_source cp (source : S) : TM (Branch V S) := branch_inner cp (Some source) true.

(** *** Rewinding *)
(** The checkpoint and its ancestors; [None]: not all of them in [fuel] steps. *)
Fixpoint ancestry (fuel : nat) g cp : option (list Checkpoint) :=
  match fuel with
  | O => None
  | Datatypes.S fuel =>
      match graph_parent g (cp_id cp) with
      | None => Some [cp]
      | Some parent => l ← ancestry fuel g parent; Some (cp :: l)
      end
  end.
Definition rewind_candidates (fuel : nat) g cp target : option (list Checkpoint) :=
  l ← ancestry fuel g cp; Some (List.filter (λ c, time_leb (cp_time c) target) l).
(** [max_by_key(|cp| (cp.time(), cp.id()))], which takes the last of equals. *)
Definition key_leb cp cp' : bool :=
  time_ltb (cp_time cp) (cp_time cp') || (bool_decide (cp_time cp = cp_time cp') && (cp_id cp <=? cp_id cp')).
Fixpoint latest (l : list Checkpoint) : option Checkpoint :=
  match l with
  | [] => None
  | c :: l => match latest l with None => Some c | Some c' => if key_leb c c' then Some c' else Some c end
  end.
Fixpoint logical_child_after (fuel : nat) g child target (ancestor : Checkpoint) : option (option Checkpoint) :=
  match fuel with
  | O => None
  | Datatypes.S fuel =>
      match graph_parent g (cp_id child) with
      | None => Some None
      | Some parent =>
          if time_leb (cp_time parent) target && time_ltb target (cp_time child) then Some (Some child)
          else if cp_id parent =? cp_id ancestor then Some None
          else logical_child_after fuel g parent target ancestor
      end
  end.
(** Enough steps for any walk: one more than there are parent links. *)
Definition walk_fuel g : nat := Datatypes.S (size (g_parent g)).
(** The part of [rewind] that takes a new checkpoint. *)
Definition replay (fuel : nat) cp (best : Checkpoint) target : TM (option Checkpoint) :=
  tmp ← branch best;
  '(reached, tmp) ← or_drop tmp (run_until lossy fuel target);
  match reached with
  | None => mret None
  | Some _ =>
      new ← checkpoint tmp;
      g ← gets lab_graph;
      match logical_child_after (walk_fuel g) g cp target best with
      | None => stuck
      | Some child => modify (λ L, with_graph (reparent (cp_id (default cp child)) (cp_id new) (lab_graph L)) L);; mret (Some new)
      end
  end.
Definition rewind (fuel : nat) cp (by_ : VirtDuration) : TM (option Checkpoint) := λ L,
  if negb (d_frequency by_ =? sh_freq (lab_shared L)) then (Fail (FrequencyMismatch (d_frequency by_) (sh_freq (lab_shared L))), L)
  else match time_sub (cp_time cp) by_ with
  | None => (Stuck, L)
  | Some target =>
      let g := lab_graph L in
      match rewind_candidates (walk_fuel g) g cp target with
      | None => (Stuck, L)
      | Some candidates =>
          match List.find (λ c, bool_decide (cp_time c = target)) candidates, latest candidates with
          | Some c, _ => (Done (Some c), L)
          | None, None => (Fail (NoCheckpointBefore target), L)
          | None, Some best =>
              replay fuel cp best target L
          end
      end
  end.
End Tree.

(** * Lemmas *)

(** ** A running branch *)
Section Running.
Context (lossy : list Z → list Z) {V S : Type} `{!VmOps V, !InputSource S}.
Local Notation B := (Branch V S).
Definition meta_of (b : B) : BranchMeta := mkMeta (br_id b) (br_origin b) (br_time b).
Definition view (st : Shared * B) := (sh_freq st.1, sh_live st.1, meta_of st.2).
(** Neither the table nor the branch's time changes. *)
Definition steady {A} (k : LM (V := V) (S := S) A) : Prop := ∀ st, view (k st).2 = view st ∧ (k st).1 ≠ Stuck.
Lemma steady_bind {A C} (k : LM A) (f : A → LM C) : steady k → (∀ a, steady (f a)) → steady (k ≫= f).
Proof.
  intros Hk Hf st. unfold mbind, M_bind. destruct (Hk st) as [H1 H2]. destruct (k st) as [[a|e|] st1]; cbn in *; [|done..]. destruct (Hf a st1) as [H3 H4]. split; [congruence|done].
Qed.
Lemma steady_ret {A} (a : A) : steady (mret a).
Proof. by intros st. Qed.
Lemma steady_throw {A} e : steady (throw e : LM A).
Proof. by intros st. Qed.
Lemma steady_this : steady this.
Proof. by intros st. Qed.
Lemma steady_freq : steady freq.
Proof. by intros st. Qed.
Lemma steady_emit e : steady (emit e).
Proof. by intros [sh b]. Qed.
Lemma steady_on_branch f : (∀ b, meta_of (f b) = meta_of b) → steady (on_branch f).
Proof. intros Hf [sh b]. cbn. unfold view. cbn. by rewrite (Hf b). Qed.
Lemma steady_vm_call {A} op (f : V → result A Z * V) : steady (vm_call op f).
Proof. intros [sh b]. unfold vm_call. by destruct (f (br_vm b)) as [[a|e] v]. Qed.
Lemma steady_for_each {A} (l : list A) (f : A → LM ()) : (∀ x, steady (f x)) → steady (for_each l f).
Proof. intros Hf. induction l as [|x l IH]; [apply steady_ret|]. apply steady_bind; [apply Hf|done]. Qed.
Create HintDb steady.
#[local] Hint Resolve steady_ret steady_throw steady_this steady_freq steady_emit steady_vm_call : steady.
Ltac steady := repeat match goal with
  | |- steady (_ ≫= _) => apply steady_bind; [|intros ?]
  | |- steady (for_each _ _) => apply steady_for_each; intros ?
  | |- steady (on_branch _) => apply steady_on_branch; intros ?; by cbn
  | |- steady (match ?x with _ => _ end) => destruct x
  | |- steady _ => solve [auto with steady]
  end.
Lemma steady_drain n : steady (drain_events lossy n).
Proof. unfold drain_events, drain_record. steady. Qed.
Lemma steady_check_freq f : steady (check_freq f).
Proof. unfold check_freq. steady. Qed.
Lemma steady_feedback t : steady (on_feedback_buffer_registered t).
Proof. unfold on_feedback_buffer_registered. steady. Qed.
Lemma steady_set_stop o : steady (set_stop_at o).
Proof. unfold set_stop_at. steady. Qed.
Lemma steady_handle_exit target at_ k : steady (handle_exit target at_ k).
Proof.
  unfold handle_exit, feed_outcome, feed_rng, feed_random, bash_output_from_response. pose proof steady_feedback. steady.
Qed.
Lemma steady_prepare target : steady (prepare_next_io_input target).
Proof.
  assert (∀ input, steady (queue_input input target)) as Hq.
  { assert (steady (peek_next_io target)) as Hp by (pose proof steady_check_freq; unfold peek_next_io; steady).
    intros input [sh b]. unfold queue_input. destruct (vm_queue_io_action _ _ _) as [[[]|e] v]; [exact (Hp (sh, with_pending None (with_vm v b)))|]. by destruct (e =? EBUSY). }
  pose proof steady_check_freq. unfold prepare_next_io_input. steady.
Qed.
Lemma ret_done {A} (a t : A) (st st' : Shared * B) : (mret a : LM A) st = (Done t, st') → t = a ∧ st' = st.
Proof. by intros [= <- <-]. Qed.
Lemma done_bind {A C} (k : LM (V := V) (S := S) A) (f : A → LM C) st c st' : (k ≫= f) st = (Done c, st') → ∃ a st1, k st = (Done a, st1) ∧ f a st1 = (Done c, st').
Proof. unfold mbind, M_bind. destruct (k st) as [[a|e|] st1]; [by eauto|done..]. Qed.
Lemma this_bind {A} (k : B → LM A) st : (this ≫= k) st = k st.2 st.
Proof. done. Qed.

(** The branch is in the table with its time. *)
Record timed (st : Shared * B) : Prop := {
  tm_live : sh_live st.1 !! br_id st.2 = Some (meta_of st.2);
  tm_freq : frequency (br_time st.2) = sh_freq st.1
}.
(** A branch changes nothing but its own entry of the table. *)
Record evolves (st st' : Shared * B) : Prop := {
  ev_freq : sh_freq st'.1 = sh_freq st.1;
  ev_live : sh_live st'.1 = <[br_id st.2 := meta_of st'.2]> (sh_live st.1);
  ev_id : br_id st'.2 = br_id st.2;
  ev_origin : br_origin st'.2 = br_origin st.2
}.
Definition goes {A} (k : LM (V := V) (S := S) A) : Prop := ∀ st, timed st → timed (k st).2 ∧ evolves st (k st).2 ∧ (k st).1 ≠ Stuck.
Lemma evolves_trans st st1 st2 : evolves st st1 → evolves st1 st2 → evolves st st2.
Proof.
  intros [] []. constructor; [congruence| |congruence|congruence]. rewrite ev_live1, ev_live0, ev_id0. apply insert_insert_eq.
Qed.
Lemma timed_view st st' : view st' = view st → timed st → timed st' ∧ br_time st'.2 = br_time st.2.
Proof.
  unfold view. intros [= E1 E2 E3 E4 E5] [H1 H2]. split; [|done]. constructor; [|congruence].
  rewrite E2, E3, H1. unfold meta_of. congruence.
Qed.
Lemma steady_goes {A} (k : LM A) : steady k → goes k.
Proof.
  intros Hk st Ht. destruct (Hk st) as [Hv Hs]. destruct (timed_view _ _ Hv Ht) as [Ht' E]. split; [done|]. split; [|done].
  unfold view in Hv. injection Hv as E1 E2 E3 E4 E5. constructor; [done| |done|done].
  rewrite E2. unfold meta_of. rewrite E3, E4, E5. symmetry. by apply insert_id, Ht.
Qed.
Lemma goes_bind {A C} (k : LM A) (f : A → LM C) : goes k → (∀ a, goes (f a)) → goes (k ≫= f).
Proof.
  intros Hk Hf st Ht. unfold mbind, M_bind. destruct (Hk st Ht) as (H1 & H2 & H3). destruct (k st) as [[a|e|] st1]; cbn in *; [|done..].
  destruct (Hf a st1 H1) as (H4 & H5 & H6). split; [done|]. split; [by eapply evolves_trans|done].
Qed.
Lemma steady_at {A} (k : LM A) st r st' : steady k → k st = (r, st') → view st' = view st.
Proof. intros Hk E. pose proof (proj1 (Hk st)) as H. by rewrite E in H. Qed.
Lemma goes_at {A} (k : LM A) st r st' : goes k → timed st → k st = (r, st') → timed st' ∧ evolves st st' ∧ r ≠ Stuck.
Proof. intros Hk Ht E. specialize (Hk st Ht). by rewrite E in Hk. Qed.
Lemma advance_goes t : ∀ st, timed st → frequency t = sh_freq st.1 → timed (advance_time t st).2 ∧ evolves st (advance_time t st).2.
Proof.
  intros [sh b] [T1 T2] Hf. cbn in *. split; [constructor; cbn; [by rewrite lookup_alter_eq, T1|done]|]. constructor; cbn; [done| |done|done].
  apply map_eq. intros i. destruct (decide (i = br_id b)) as [->|?]; [by rewrite lookup_alter_eq, lookup_insert_eq, T1|by rewrite lookup_alter_ne, lookup_insert_ne].
Qed.
(** One run: the time is the one reported. *)
Lemma run_vm_goes : goes (run_vm lossy).
Proof.
  intros [sh b] Ht. unfold run_vm, vm_call, mbind, M_bind. destruct (vm_run (br_vm b)) as [[e|e] v].
  2: { destruct (steady_goes (vm_call OpRun (λ w, (Err (A := VmExit) e, v))) (steady_vm_call _ _) (sh, b) Ht) as (H1 & H2 & _). by split_and!. }
  unfold freq, gets. cbn [fst]. assert (timed (sh, with_vm v b)) as Ht0 by (by destruct Ht).
  destruct (advance_goes (mkTime (ve_emulated_tsc e) (sh_freq sh)) (sh, with_vm v b) Ht0 eq_refl) as [Ht1 He1]. unfold advance_time, modify in *. cbn [fst snd] in *.
  set (st1 := (mkShared _ _ _, with_time _ _)) in *. assert (evolves (sh, b) st1) as He2 by (by destruct He1).
  destruct (steady_goes _ (steady_drain (ve_event_len e)) st1 Ht1) as (Hd1 & Hd2 & Hd3). destruct (drain_events lossy _ st1) as [[[]|x|] st2]; cbn in *;
    (split; [done|split; [by eapply evolves_trans|done]]).
Qed.
Lemma run_vm_done (st : Shared * B) at_ k st' : run_vm lossy st = (Done (at_, k), st') → br_time st'.2 = at_.
Proof.
  destruct st as [sh b]. unfold run_vm, vm_call, mbind, M_bind. destruct (vm_run (br_vm b)) as [[e|e] v]; [|done].
  unfold freq, gets, advance_time, modify. cbn [fst snd]. set (st1 := (mkShared _ _ _, with_time _ _)).
  destruct (steady_drain (ve_event_len e) st1) as [Hd _]. destruct (drain_events lossy _ st1) as [[[]|x|] st2]; [|done..]. intros [= <- <- <-]. cbn [snd] in Hd.
  unfold view in Hd. by injection Hd as _ _ _ _ E5.
Qed.
#[local] Hint Resolve steady_prepare steady_handle_exit steady_feedback steady_check_freq steady_set_stop : steady.
Ltac goes := repeat match goal with
  | |- goes (_ ≫= _) => apply goes_bind; [|intros ?]
  | |- goes (run_vm _) => apply run_vm_goes
  | H : ∀ _, goes _ |- goes _ => apply H
  | H : goes _ |- goes _ => apply H
  | |- goes _ => apply steady_goes; solve [steady | auto with steady]
  | |- goes (match ?x with _ => _ end) => destruct x
  end.
Lemma run_until_goes fuel target : goes (run_until lossy fuel target).
Proof.
  assert (∀ fuel, goes (run_loop lossy fuel target)) as Hl by (clear fuel; intros fuel; induction fuel; cbn [run_loop]; goes).
  unfold run_until. goes.
Qed.
Lemma bash_goes store fuel target cmd out : goes (bash lossy store fuel target cmd out).
Proof.
  assert (∀ t, steady (store_chunk store t)) as Hs by (intros t [sh b]; unfold store_chunk; by destruct (store (br_vm b)) as [[[]|e] v]).
  assert (steady feed_rng) as Hf by (unfold feed_rng; steady).
  assert (goes (io_loop lossy store fuel)) as Hl by (induction fuel; cbn [io_loop]; goes).
  unfold bash, run_io_action. goes. unfold bash_output_from_response. goes.
Qed.
Lemma steady_apply : steady apply_event_config.
Proof. unfold apply_event_config. steady. Qed.
Lemma configure_goes config : goes (set_event_config config).
Proof. unfold set_event_config, apply_event_config. goes. Qed.
Lemma sched_goes t target cmd out : goes (sched_bash t target cmd out).
Proof. unfold sched_bash. goes. Qed.

Lemma handle_exit_answer target at_ k (st : Shared * B) at' out st' : handle_exit target at_ k st = (Done (Some (at', out)), st') →
  at' = at_ ∧ (out = ReachedTime → time_leb target at_ = true).
Proof.
  assert (∀ out' (st st' : Shared * B), (mret (Some (at_, out')) : LM _) st = (Done (Some (at', out)), st') → at' = at_ ∧ out = out') as Hr by (by intros out' s s' [[= -> ->] _]%ret_done).
  assert (∀ (st st' : Shared * B), (mret None : LM (option (VirtTime * RunOutcome))) st = (Done (Some (at', out)), st') → False) as Hn by (by intros s s' [? _]%ret_done).
  assert (∀ feed : LM FeedRng, feed_outcome feed at_ k st = (Done (Some (at', out)), st') → at' = at_ ∧ out ≠ ReachedTime) as Hf.
  { intros feed (a & st1 & _ & H)%done_bind. destruct a; [by apply Hn in H|apply Hr in H as [-> ->]; done..]. }
  destruct k; cbn [handle_exit]; try (by intros [-> ->]%Hr); try (by intros []%Hn); try (by intros [-> ?]%Hf).
  - intros [H _]%ret_done. destruct (time_leb target at_); [by injection H as -> ->|done].
  - intros (a & st1 & _ & []%Hn)%done_bind.
  - intros (a & st1 & _ & (c & st2 & _ & [-> ->]%Hr)%done_bind)%done_bind. done.
Qed.
(** A run that pauses: the branch is at the time reported, and the target is said to be reached only then. *)
Lemma run_until_paused fuel target (st : Shared * B) at_ out st' : run_until lossy fuel target st = (Done (Some (at_, out)), st') →
  br_time st'.2 = at_ ∧ (out = ReachedTime → time_leb target at_ = true).
Proof.
  unfold run_until. intros ([] & st1 & _ & E)%done_bind. rewrite this_bind in E. destruct (time_ltb target (br_time st1.2)); [done|]. case_bool_decide as Eb.
  { apply ret_done in E as [[= -> ->] ->]. split; [done|]. intros _. unfold time_leb, time_ltb. by rewrite !Z.ltb_irrefl, andb_false_r. }
  clear Eb. revert st1 E. induction fuel as [|fuel IH]; intros st1; cbn [run_loop]; [by intros [? _]%ret_done|].
  intros (t & st2 & _ & ([] & st3 & _ & ([at' k] & st4 & E4 & (ans & st5 & E5 & H)%done_bind)%done_bind)%done_bind)%done_bind.
  destruct ans as [[a o]|]; [|by apply IH in H]. apply ret_done in H as [[= -> ->] ->]. destruct (handle_exit_answer _ _ _ _ _ _ _ E5) as [-> Ho]. split; [|done].
  apply run_vm_done in E4. apply (steady_at _ _ _ _ (steady_handle_exit target at' k)) in E5. unfold view in E5. injection E5 as _ _ _ _ ->. done.
Qed.
End Running.

(** ** The graph *)
Section Graph.
Context {V S : Type} `{!VmOps V, !InputSource S}.
Local Notation Checkpoint := (Checkpoint (V := V) (S := S)).
Local Notation LabGraph := (LabGraph (V := V) (S := S)).
Implicit Types (g : LabGraph) (c cc p pc cp : Checkpoint).
(** In time, and in order of creation at the same time. *)
Definition earlier c cc : Prop :=
  instructions (cp_time c) < instructions (cp_time cc) ∨ instructions (cp_time c) = instructions (cp_time cc) ∧ cp_id c < cp_id cc.
(** A numbering of the checkpoints, also of those that are gone, in which parents come before their children. *)
Definition ranked (rank : Z → nat) g : Prop := ∀ i j, g_parent g !! i = Some j → (rank j < rank i)%nat.
(** Identifiers are distinct and given out in order; the set of children mirrors the links to parents; there are no cycles. *)
Record graph_ok (freq next : Z) g : Prop := {
  go_id : ∀ i c, g_checkpoints g !! i = Some c → cp_id c = i ∧ 0 ≤ i < next;
  go_freq : ∀ i c, g_checkpoints g !! i = Some c → frequency (cp_time c) = freq;
  go_link : ∀ i j, g_parent g !! i = Some j → 0 ≤ i < next ∧ 0 ≤ j < next;
  go_kid : ∀ j t f i, (t, f, i) ∈ kids g j → g_parent g !! i = Some j ∧ ∀ c, g_checkpoints g !! i = Some c → child_key (cp_time c) i = (t, f, i);
  go_child : ∀ i j c, g_parent g !! i = Some j → g_checkpoints g !! i = Some c → child_key (cp_time c) i ∈ kids g j;
  go_acyclic : ∃ rank, ranked rank g
}.
Lemma earlier_trans c cc cp : earlier c cc → earlier cc cp → earlier c cp.
Proof. unfold earlier. lia. Qed.
Lemma graph_parent_spec g i p : graph_parent g i = Some p ↔ ∃ j, g_parent g !! i = Some j ∧ g_checkpoints g !! j = Some p.
Proof. unfold graph_parent. destruct (g_parent g !! i) as [j|]; cbn; [|naive_solver]. split; [by eauto|]. by intros (? & [= <-] & ?). Qed.
Lemma initial_graph_ok freq cp : cp_id cp = 0 → frequency (cp_time cp) = freq → graph_ok freq 1 (register_checkpoint cp None (mkGraph ∅ ∅ ∅)).
Proof.
  intros Hi Hf. unfold register_checkpoint. rewrite Hi. constructor; cbn; unfold kids; cbn.
  - intros i c [[<- <-]|[_ H]]%lookup_insert_Some; [split; [done|lia]|by rewrite lookup_empty in H].
  - intros i c [[<- <-]|[_ H]]%lookup_insert_Some; [done|by rewrite lookup_empty in H].
  - intros i j H. by rewrite lookup_empty in H.
  - intros j t f i H. rewrite lookup_empty in H. set_solver.
  - intros i j c H. by rewrite lookup_empty in H.
  - exists (λ _, O). intros i j H. cbn in H. by rewrite lookup_empty in H.
Qed.
Lemma drop_graph_ok freq next i g : graph_ok freq next g → graph_ok freq next (drop_checkpoint i g).
Proof.
  intros [H1 H2 H3 H4 H5 H6]. assert (∀ j c, g_checkpoints (drop_checkpoint i g) !! j = Some c → g_checkpoints g !! j = Some c) as Hs by (cbn; intros j c [_ ?]%lookup_delete_Some; done).
  constructor; cbn [g_parent drop_checkpoint]; [by eauto|by eauto|by eauto| | |done].
  - intros j t f k H. destruct (H4 j t f k H) as [? Hk]. split; [done|]. intros c Hc%Hs. by apply Hk.
  - intros j k c H Hc%Hs. by eapply H5.
Qed.
(** A new leaf. *)
Lemma register_ranked freq next g j cp : graph_ok freq next g → cp_id cp = next → j < next → ∃ rank, ranked rank (register_checkpoint cp (Some j) g).
Proof.
  intros Hg Hi Hj. destruct (go_acyclic _ _ _ Hg) as [rank Hr]. exists (λ i, if i =? next then Datatypes.S (rank j) else rank i).
  intros i k. cbn. rewrite Hi. intros [[<- <-]|[? H]]%lookup_insert_Some.
  - rewrite Z.eqb_refl. destruct (Z.eqb_spec j next); [lia|lia].
  - pose proof (go_link _ _ _ Hg _ _ H). apply Hr in H. destruct (Z.eqb_spec i next), (Z.eqb_spec k next); lia.
Qed.
Lemma register_graph_ok freq next j cp p g :
  graph_ok freq next g → cp_id cp = next → 0 ≤ next → g_checkpoints g !! j = Some p →
  frequency (cp_time cp) = freq → graph_ok freq (next + 1) (register_checkpoint cp (Some j) g).
Proof.
  intros Hg Hi Hn Hp Hf. pose proof Hg as [H1 H2 H3 H4 H5 _]. destruct (H1 _ _ Hp) as [Hpi Hpn].
  assert (∀ k, kids (register_checkpoint cp (Some j) g) k = if decide (k = j) then {[child_key (cp_time cp) next]} ∪ kids g j else kids g k) as Hk.
  { intros k. unfold kids at 1. cbn. rewrite Hi. case_decide as E; [subst k; by rewrite lookup_insert_eq|by rewrite lookup_insert_ne]. }
  assert (g_parent g !! next = None) as Hfresh by (destruct (g_parent g !! next) eqn:E; [apply H3 in E; lia|done]).
  constructor; [| | | | |apply (register_ranked freq next); [done|done|lia]]; cbn [register_checkpoint g_checkpoints g_parent] in *; rewrite ?Hi in *.
  - intros i c [[<- <-]|[_ H]]%lookup_insert_Some; [split; [done|lia]|]. destruct (H1 _ _ H). split; [done|lia].
  - intros i c [[<- <-]|[_ H]]%lookup_insert_Some; [done|by eauto].
  - intros i k [[<- <-]|[_ H]]%lookup_insert_Some; [lia|]. apply H3 in H. lia.
  - intros k t f i Hin. rewrite Hk in Hin. assert ((t, f, i) ∈ kids g k ∨ k = j ∧ (t, f, i) = child_key (cp_time cp) next) as [H|[-> [= -> -> ->]]] by (case_decide; set_solver).
    + destruct (H4 _ _ _ _ H) as [Hl Hc']. assert (i ≠ next) by congruence. rewrite !lookup_insert_ne by done. done.
    + rewrite !lookup_insert_eq. split; [done|]. by intros c [= <-].
  - intros i k c [[<- <-]|[? H]]%lookup_insert_Some; [rewrite lookup_insert_eq; intros [= <-]|rewrite lookup_insert_ne by done; intros Hc'].
    + rewrite Hk, decide_True by done. set_solver.
    + pose proof (H5 _ _ _ H Hc') as Hin. rewrite Hk. case_decide; subst; set_solver.
Qed.
Lemma reparent_kids g i n cc j x : g_checkpoints g !! i = Some cc → let key := child_key (cp_time cc) i in
  x ∈ kids (reparent i n g) j ↔ x = key ∧ j = n ∨ x ∈ kids g j ∧ ¬ (g_parent g !! i = Some j ∧ x = key).
Proof.
  intros Hc key. unfold reparent. rewrite Hc. fold key. cbv zeta. unfold kids at 1. cbn [g_children].
  set (m := match g_parent g !! i with Some _ => _ | None => _ end).
  assert (∀ j x, x ∈ default ∅ (m !! j) ↔ x ∈ kids g j ∧ ¬ (g_parent g !! i = Some j ∧ x = key)) as Hm.
  { clear. intros j x. subst m. unfold kids. destruct (g_parent g !! i) as [o|]; [|naive_solver]. destruct (g_children g !! o) as [ks|] eqn:E.
    - destruct (decide (j = o)) as [->|Hne]; [rewrite lookup_insert_eq, E; cbn; set_solver|rewrite lookup_insert_ne by done; naive_solver].
    - destruct (decide (j = o)) as [->|Hne]; [rewrite E; cbn; set_solver|naive_solver]. }
  destruct (decide (j = n)) as [->|Hne]; [rewrite lookup_insert_eq|rewrite lookup_insert_ne by done]; cbn; rewrite ?elem_of_union, ?elem_of_singleton, Hm; naive_solver.
Qed.
Lemma reparent_parts g i n cc : g_checkpoints g !! i = Some cc →
  g_checkpoints (reparent i n g) = g_checkpoints g ∧ g_parent (reparent i n g) = <[i := n]> (g_parent g).
Proof. intros Hc. unfold reparent. by rewrite Hc. Qed.
(** A checkpoint [i] goes below a leaf [n], whose parent [b] is above [i]. *)
Lemma reparent_ranked g i n b cc : g_checkpoints g !! i = Some cc → g_parent g !! n = Some b → (∀ k, g_parent g !! k ≠ Some n) → i ≠ n →
  (∃ rank, ranked rank g ∧ (rank b < rank i)%nat) → ∃ rank, ranked rank (reparent i n g).
Proof.
  intros Hc Hb Hleaf Hin (rank & Hr & Hlt). exists (λ x, if x =? n then (2 * rank b + 1)%nat else (2 * rank x)%nat).
  intros x y. rewrite (proj2 (reparent_parts g i n cc Hc)). assert (b ≠ n) as Hbn by (intros ->; by apply (Hleaf n)).
  intros [[<- <-]|[? H]]%lookup_insert_Some; [rewrite Z.eqb_refl; destruct (Z.eqb_spec i n); [done|lia]|].
  assert (y ≠ n) as Hyn by (intros ->; by apply (Hleaf x)). destruct (Z.eqb_spec x n) as [->|]; destruct (Z.eqb_spec y n); try done.
  - assert (y = b) as -> by congruence. lia.
  - apply Hr in H. lia.
Qed.
Lemma reparent_graph_ok freq next i n cc nc g :
  graph_ok freq next g → g_checkpoints g !! i = Some cc → g_checkpoints g !! n = Some nc → (∃ rank, ranked rank (reparent i n g)) → graph_ok freq next (reparent i n g).
Proof.
  intros [H1 H2 H3 H4 H5 _] Hc Hn Hrank. pose proof (λ j x, reparent_kids g i n cc j x Hc) as Hk. cbv zeta in Hk.
  destruct (reparent_parts g i n cc Hc) as [Ec Ep].
  constructor; rewrite ?Ec, ?Ep; [done|done| | | |done].
  - intros a b [[<- <-]|[_ H]]%lookup_insert_Some; [|by eauto]. destruct (H1 _ _ Hc), (H1 _ _ Hn). done.
  - intros j t f a [[[= -> -> ->] ->]|[Hin Hno]]%Hk.
    + rewrite lookup_insert_eq. split; [done|]. intros c Hc'. by assert (c = cc) as -> by congruence.
    + destruct (H4 _ _ _ _ Hin) as [Hl Hu]. assert (a ≠ i) as Hne by (intros ->; apply Hno; split; [done|by rewrite (Hu cc)]).
      by rewrite lookup_insert_ne.
  - intros a j c [[<- <-]|[Hne Hl]]%lookup_insert_Some Hc'; apply Hk; [left; split; [|done]; by assert (c = cc) as -> by congruence|].
    right. split; [by eauto|]. intros [_ [= _ _ ->]]. done.
Qed.

(** *** Walks *)
Context (freq next : Z) (g : LabGraph) (Hg : graph_ok freq next g).
Definition held c : Prop := g_checkpoints g !! cp_id c = Some c.
Definition link c p : Prop := graph_parent g (cp_id c) = Some p.
Lemma link_held c p : link c p → held p.
Proof. intros (j & _ & Hp)%graph_parent_spec. unfold held. by rewrite (proj1 (go_id _ _ _ Hg _ _ Hp)). Qed.
Lemma link_ranked rank c p : ranked rank g → link c p → (rank (cp_id p) < rank (cp_id c))%nat.
Proof. intros Hr (j & Hj & Hp)%graph_parent_spec. rewrite (proj1 (go_id _ _ _ Hg _ _ Hp)). by apply Hr. Qed.
Lemma rtc_held c p : held c → relations.rtc link c p → held p.
Proof. intros Hc H. induction H as [|? ? ? Hl _ IH]; [done|]. apply IH. by eapply link_held. Qed.
Lemma rtc_ranked rank c p : ranked rank g → relations.rtc link c p → (rank (cp_id p) ≤ rank (cp_id c))%nat.
Proof. intros Hr H. induction H as [|x y z Hl _ IH]; [done|]. pose proof (link_ranked rank _ _ Hr Hl). lia. Qed.
(** The links that a walk from here can still take. *)
Definition links_left (rank : Z → nat) cp : gset Z := filter (λ i, (rank i ≤ rank (cp_id cp))%nat) (dom (g_parent g)).
Lemma links_left_link rank c p : ranked rank g → link c p → (size (links_left rank p) < size (links_left rank c))%nat.
Proof.
  intros Hr Hl. pose proof (link_ranked rank _ _ Hr Hl) as Hlt. apply subset_size. unfold links_left. split.
  - intros i. rewrite !elem_of_filter. intros [H Hd]. split; [lia|done].
  - intros Hs. assert (cp_id c ∈ links_left rank c) as Hin.
    { unfold links_left. rewrite elem_of_filter. split; [lia|]. apply graph_parent_spec in Hl as (j & Hj & _). apply elem_of_dom. by eexists. }
    apply Hs in Hin. rewrite elem_of_filter in Hin. lia.
Qed.
Lemma links_left_fuel rank cp : (size (links_left rank cp) < walk_fuel g)%nat.
Proof. clear Hg. unfold walk_fuel. apply Nat.lt_succ_r. rewrite <-(size_dom (D := gset Z)). apply subseteq_size. unfold links_left. set_solver. Qed.
(** A walk up ends, and visits the ancestors. *)
Lemma ancestry_spec rank fuel cp : ranked rank g → held cp → (size (links_left rank cp) < fuel)%nat →
  ∃ l, ancestry fuel g cp = Some l ∧ (∀ c, c ∈ l ↔ relations.rtc link cp c) ∧ Forall held l ∧ NoDup l.
Proof.
  intros Hr. revert cp. induction fuel as [|fuel IH]; intros cp Hc Hf; [lia|]. cbn [ancestry]. destruct (graph_parent g (cp_id cp)) as [p|] eqn:E.
  - pose proof (links_left_link rank _ _ Hr E) as Hlt. destruct (IH p (link_held _ _ E) ltac:(lia)) as (l & -> & Hl & Hh & Hs). exists (cp :: l). cbn. split; [done|]. split; [|split; [by constructor|constructor; [|done]]].
    2:{ intros H%Hl. apply (rtc_ranked rank _ _ Hr) in H. pose proof (link_ranked rank _ _ Hr E). lia. }
    intros c. rewrite elem_of_cons, Hl. split.
    + intros [->|H]; [done|]. by eapply rtc_l.
    + intros [?|(q & Hq & H)]%rtc_inv; [by left|right]. unfold link in Hq. by assert (q = p) as -> by congruence.
  - exists [cp]. split; [done|]. split; [|split; [by constructor|apply NoDup_singleton]]. intros c. rewrite list_elem_of_singleton. split; [by intros ->|].
    intros [?|(q & Hq & H)]%rtc_inv; [done|]. unfold link in Hq. congruence.
Qed.
Lemma held_freq c : held c → frequency (cp_time c) = freq.
Proof. intros Hc. by eapply go_freq. Qed.
Lemma leb_same t t' : frequency t = frequency t' → time_leb t t' = (instructions t <=? instructions t').
Proof. intros E. unfold time_leb. rewrite time_ltb_same by done. lia. Qed.
Lemma held_eq c c' : held c → held c' → cp_id c = cp_id c' → c = c'.
Proof. unfold held. congruence. Qed.
(** The walk from a checkpoint after the target to an ancestor that is not: it finds the first step across the target. *)
Lemma logical_child_spec rank fuel cp best target :
  ranked rank g → held cp → (size (links_left rank cp) < fuel)%nat → frequency target = freq → instructions target < instructions (cp_time cp) →
  relations.rtc link cp best → instructions (cp_time best) ≤ instructions target →
  ∃ child p, logical_child_after fuel g cp target best = Some (Some child) ∧ held child ∧ relations.rtc link cp child ∧ link child p ∧ relations.rtc link p best ∧
    instructions (cp_time p) ≤ instructions target < instructions (cp_time child).
Proof.
  intros Hrk. revert cp. induction fuel as [|fuel IH]; intros cp Hc Hf Hft Hlt Hr Hb; [lia|]. cbn [logical_child_after].
  destruct (rtc_inv _ _ Hr) as [->|(p & Hl & Hr')]; [lia|]. unfold link in Hl. rewrite Hl. pose proof (link_held _ _ Hl) as Hp. pose proof (held_freq _ Hc). pose proof (held_freq _ Hp).
  rewrite leb_same, time_ltb_same by congruence. rewrite (proj2 (Z.ltb_lt _ _) Hlt), andb_true_r. destruct (Z.leb_spec (instructions (cp_time p)) (instructions target)) as [Hle|Hgt].
  - exists cp, p. by split_and!.
  - destruct (Z.eqb_spec (cp_id p) (cp_id best)) as [E|_].
    { rewrite (held_eq _ _ Hp (rtc_held _ _ Hp Hr') E) in Hgt. lia. }
    pose proof (links_left_link rank _ _ Hrk Hl) as Hs. destruct (IH p Hp ltac:(lia) Hft Hgt Hr' Hb) as (child & q & H1 & H2 & H3 & H4).
    exists child, q. split_and!; [done|done| |apply H4..]. by eapply rtc_l.
Qed.
Lemma latest_spec l : Forall held l → match latest l with
  | None => l = []
  | Some b => b ∈ l ∧ ∀ c, c ∈ l → c = b ∨ earlier c b
  end.
Proof.
  induction 1 as [|c l Hc Hl IH]; cbn [latest]; [done|]. destruct (latest l) as [b|]; [|subst l; split; [set_solver|]; intros c' ->%list_elem_of_singleton; by left].
  destruct IH as [Hb Hmax]. rewrite Forall_forall in Hl. pose proof (Hl b Hb) as Hhb. pose proof (held_freq _ Hc) as Fc. pose proof (held_freq _ Hhb) as Fb.
  assert (if key_leb c b then c = b ∨ earlier c b else earlier b c) as Hk.
  { unfold key_leb. rewrite time_ltb_same by congruence. unfold earlier. destruct (Z.ltb_spec (instructions (cp_time c)) (instructions (cp_time b))); cbn [orb]; [by right; left|].
    case_bool_decide as E; cbn [andb].
    - rewrite E in *. destruct (Z.leb_spec (cp_id c) (cp_id b)); [|right; lia]. destruct (decide (cp_id c = cp_id b)); [left; by apply held_eq|right; right; lia].
    - left. assert (instructions (cp_time c) ≠ instructions (cp_time b)); [|lia]. intros Ei. apply E. destruct (cp_time c), (cp_time b). cbn in *. congruence. }
  destruct (key_leb c b).
  - split; [set_solver|]. intros x [->|Hx]%elem_of_cons; [done|by apply Hmax].
  - split; [set_solver|]. intros x [->|Hx]%elem_of_cons; [by left|]. right. destruct (Hmax x Hx) as [->|?]; [done|by eapply earlier_trans].
Qed.
End Graph.

(** ** The lab *)
Section Lab.
Context (lossy : list Z → list Z) {V S : Type} `{!VmOps V, !InputSource S}.
Local Notation B := (Branch V S).
Local Notation Checkpoint := (Checkpoint (V := V) (S := S)).
Local Notation LabInner := (LabInner (V := V) (S := S)).
Local Notation LabGraph := (LabGraph (V := V) (S := S)).
Implicit Types (L : LabInner) (g : LabGraph) (b : B) (c cp p child best new : Checkpoint) (bs : gmap Z B).

(** The lab with the branches its users have.  The table of live branches is exactly theirs, each at its time, and its origin is held. *)
Record lab_ok L bs : Prop := {
  lo_graph : graph_ok (sh_freq (lab_shared L)) (lab_next_checkpoint L) (lab_graph L);
  lo_next : 0 ≤ lab_next_checkpoint L;
  lo_live : sh_live (lab_shared L) = meta_of <$> bs;
  lo_branch : ∀ i b, bs !! i = Some b → br_id b = i ∧ 0 ≤ i < lab_next_branch L;
  lo_timed : ∀ i b, bs !! i = Some b → timed (lab_shared L, b);
  lo_origin : ∀ i b, bs !! i = Some b → is_Some (g_checkpoints (lab_graph L) !! br_origin b)
}.
Lemma timed_entry sh b : timed (sh, b) → ∀ sh', sh_freq sh' = sh_freq sh → sh_live sh' !! br_id b = Some (meta_of b) → timed (sh', b).
Proof. intros [H1 H2] sh' Hf Hl. constructor; cbn in *; [done|congruence]. Qed.
(** A call on a branch. *)
Lemma or_drop_ok {A} (k : LM A) b L bs : goes k → lab_ok L bs → bs !! br_id b = Some b →
  match or_drop b k L with
  | (Done (_, b'), L') => lab_ok L' (<[br_id b := b']> bs) ∧ br_id b' = br_id b ∧ br_origin b' = br_origin b
  | (Fail _, L') => lab_ok L' (delete (br_id b) bs)
  | (Stuck, _) => False
  end.
Proof.
  intros Hk [H1 H2 H3 H4 H5 H6] Hb. pose proof (H5 _ _ Hb) as Ht. unfold or_drop, on_branch_of. destruct (k (lab_shared L, b)) as [r [sh b']] eqn:E.
  destruct (goes_at _ _ _ _ Hk Ht E) as (Ht' & [E1 E2 E3 E4] & Hs). cbn in *. destruct r as [a|e|]; [| |done].
  - split; [|done]. constructor; cbn; [by rewrite E1|done|by rewrite E2, H3, fmap_insert| | |].
    + intros i x [[<- <-]|[_ Hx]]%lookup_insert_Some; [|by eauto]. destruct (H4 _ _ Hb). by rewrite E3.
    + intros i x [[<- <-]|[Hi Hx]]%lookup_insert_Some; [done|]. destruct (H4 _ _ Hx) as [<- _].
      apply (timed_entry (lab_shared L) x); [by eauto|done|]. rewrite E2, lookup_insert_ne, H3, lookup_fmap, Hx by done. done.
    + intros i x [[<- <-]|[_ Hx]]%lookup_insert_Some; [|by eauto]. rewrite E4. by eauto.
  - constructor; cbn; [by rewrite E1|done| | | |].
    + by rewrite E2, H3, delete_insert_eq, fmap_delete.
    + intros i x [_ Hx]%lookup_delete_Some. by eauto.
    + intros i x [Hi Hx]%lookup_delete_Some. destruct (H4 _ _ Hx) as [<- _].
      apply (timed_entry (lab_shared L) x); [by eauto|done|]. cbn. rewrite lookup_delete_ne, E2, lookup_insert_ne, H3, lookup_fmap, Hx by done. done.
    + intros i x [_ Hx]%lookup_delete_Some. by eauto.
Qed.
Lemma run_bind {St E A C} (k : M St E A) (f : A → M St E C) st a st' : k st = (Done a, st') → (k ≫= f) st = f a st'.
Proof. unfold mbind, M_bind. by intros ->. Qed.
(** What a call on a branch does not change. *)
Definition same_tree L L' : Prop := lab_graph L' = lab_graph L ∧ lab_next_checkpoint L' = lab_next_checkpoint L.
Lemma or_drop_tree {A} (k : LM A) b L : same_tree L (or_drop b k L).2 ∧ lab_next_branch (or_drop b k L).2 = lab_next_branch L.
Proof. unfold or_drop, on_branch_of, same_tree. by destruct (k (lab_shared L, b)) as [[a|e|] [sh b']]. Qed.
Lemma or_drop_done {A} (k : LM A) b L a b' L' : or_drop b k L = (Done (a, b'), L') → k (lab_shared L, b) = (Done a, (lab_shared L', b')).
Proof. unfold or_drop, on_branch_of. destruct (k (lab_shared L, b)) as [[x|e|] [sh x']]; [|done..]. by intros [= <- <- <-]. Qed.
Definition room L : Prop := lab_next_checkpoint L + 1 < 2 ^ 64 ∧ 0 ≤ lab_next_branch L ∧ lab_next_branch L + 1 < 2 ^ 64.
Lemma branch_inner_ok cp source force L bs : lab_ok L bs → held (lab_graph L) cp → room L →
  match branch_inner cp source force L with
  | (Done b, L') => lab_ok L' (<[br_id b := b]> bs) ∧ bs !! br_id b = None ∧ br_origin b = cp_id cp ∧ same_tree L L'
  | (Fail _, L') => lab_ok L' bs ∧ same_tree L L'
  | (Stuck, _) => False
  end.
Proof.
  intros HL Hcp (_ & Hn & Hr). unfold branch_inner. destruct (vm_fork (cp_vm cp)) as [child|e]; [|by split].
  set (q := if force then _ else _). destruct q as [[[]|e] v]; [|by split].
  set (i := lab_next_branch L). set (b := mkBranch i (cp_id cp) v (cp_time cp) (cp_partial cp) source (cp_pending cp) (cp_exhausted cp) (cp_recording cp) None lab_config_default).
  set (L1 := mkLab (mkShared (sh_freq (lab_shared L)) (<[i := meta_of b]> (sh_live (lab_shared L))) (sh_sink (lab_shared L) ++ [BranchCreated i (cp_id cp) (cp_time cp)])) (lab_next_checkpoint L) (u64 (i + 1)) (lab_graph L)).
  destruct HL as [H1 H2 H3 H4 H5 H6]. assert (bs !! i = None) as Hi.
  { destruct (bs !! i) eqn:E; [|done]. apply H4 in E. subst i. lia. }
  pose proof (go_freq _ _ _ H1 _ _ Hcp) as Hft. assert (u64 (i + 1) = i + 1) as Hu by (apply wrap_small; unfold in_width; subst i; lia).
  assert (timed (lab_shared L1, b)) as Hx by (constructor; cbn; [by rewrite lookup_insert_eq|done]).
  assert (lab_ok L1 (<[i := b]> bs)) as HL1.
  { constructor; cbn [L1 lab_shared lab_graph lab_next_checkpoint lab_next_branch sh_freq sh_live]; [done|done|by rewrite H3, fmap_insert|rewrite Hu| |].
    - intros j x [[<- <-]|[? Hj]]%lookup_insert_Some; [split; [done|lia]|]. apply H4 in Hj. split; [apply Hj|subst i; lia].
    - intros j x [[<- <-]|[? Hj]]%lookup_insert_Some; [done|]. destruct (H4 _ _ Hj) as [<- _]. apply (timed_entry (lab_shared L) x); [by eauto|done|]. cbn. rewrite lookup_insert_ne, H3, lookup_fmap, Hj by done. done.
    - intros j x [[<- <-]|[? Hj]]%lookup_insert_Some; [|by eauto]. by exists cp. }
  pose proof (or_drop_ok apply_event_config b L1 _ (steady_goes _ steady_apply) HL1 ltac:(by rewrite lookup_insert_eq)) as H. pose proof (or_drop_tree apply_event_config b L1) as [Ht _].
  set (L0 := mkLab (lab_shared L) (lab_next_checkpoint L) (u64 (i + 1)) (lab_graph L)).
  rewrite (run_bind next_branch_id _ L i L0 eq_refl), (run_bind (branch_new i cp v source) _ L0 b L1 eq_refl).
  unfold mbind, M_bind. destruct (or_drop b apply_event_config L1) as [[[[] b']|e|] L2]; [| |done]; cbn [snd mret M_ret] in *.
  - destruct H as (H & E1 & E2). rewrite insert_insert_eq in H. change (br_id b) with i in *. rewrite E1. split; [done|]. split; [done|]. split; [done|]. exact Ht.
  - split; [|done]. change (br_id b) with i in H. by rewrite delete_insert_id in H.
Qed.
(** *** Checkpoints *)
Lemma checkpoint_ok b L bs : lab_ok L bs → bs !! br_id b = Some b → lab_next_checkpoint L + 1 < 2 ^ 64 →
  ∃ cp L', checkpoint b L = (Done cp, L') ∧ lab_ok L' (delete (br_id b) bs) ∧ lab_graph L' = register_checkpoint cp (Some (br_origin b)) (lab_graph L) ∧
    cp_id cp = lab_next_checkpoint L ∧ (cp_time cp, cp_vm cp, cp_recording cp) = (br_time b, br_vm b, br_recording b) ∧ held (lab_graph L') cp ∧ sh_freq (lab_shared L') = sh_freq (lab_shared L).
Proof.
  intros [H1 H2 H3 H4 H5 H6] Hb Hr. unfold checkpoint. eexists _, _. split; [reflexivity|]. cbn. set (cp := mkCheckpoint _ _ _ _ _ _ _ _ _). pose proof (H5 _ _ Hb) as Ht. destruct (H6 _ _ Hb) as [o Ho].
  assert (u64 (lab_next_checkpoint L + 1) = lab_next_checkpoint L + 1) as Hu by (apply wrap_small; unfold in_width; lia). split_and!; try done; [|unfold held; cbn; by rewrite lookup_insert_eq].
  constructor; cbn; rewrite ?Hu; [|lia| | | |].
  - by eapply register_graph_ok; [done..|apply Ht].
  - by rewrite H3, fmap_delete.
  - intros i x [_ Hx]%lookup_delete_Some. by eauto.
  - intros i x [Hi Hx]%lookup_delete_Some. destruct (H4 _ _ Hx) as [<- _]. apply (timed_entry (lab_shared L) x); [by eauto|done|]. cbn. rewrite lookup_delete_ne, H3, lookup_fmap, Hx by done. done.
  - intros i x [_ Hx]%lookup_delete_Some. destruct (H6 _ _ Hx) as [q Hq]. exists q. rewrite lookup_insert_ne; [done|]. apply (go_id _ _ _ H1) in Hq. lia.
Qed.
Lemma with_graph_ok L bs g : lab_ok L bs → graph_ok (sh_freq (lab_shared L)) (lab_next_checkpoint L) g → (∀ i b, bs !! i = Some b → g_checkpoints g !! br_origin b = g_checkpoints (lab_graph L) !! br_origin b) →
  lab_ok (with_graph g L) bs.
Proof. intros [H1 H2 H3 H4 H5 H6] Hg Ho. constructor; try done. cbn. intros i b Hb. rewrite (Ho _ _ Hb). by eapply H6. Qed.
Lemma drop_branch_ok L bs i : lab_ok L bs → lab_ok (set_live (delete i) L).2 (delete i bs).
Proof.
  intros [H1 H2 H3 H4 H5 H6]. constructor; cbn; [done|done|by rewrite H3, fmap_delete| | |]; intros j x [Hi Hx]%lookup_delete_Some; [by eauto| |by eauto].
  destruct (H4 _ _ Hx) as [<- _]. apply (timed_entry (lab_shared L) x); [by eauto|done|]. cbn. rewrite lookup_delete_ne, H3, lookup_fmap, Hx by done. done.
Qed.
Lemma initial_lab_ok freq vm t partial source : frequency t = freq → lab_ok (initial freq vm t partial source).1 ∅.
Proof. intros Hf. constructor; cbn; try done; [by apply initial_graph_ok]. Qed.

(** *** Rewinding *)
Lemma candidates_spec freq next g cp target : graph_ok freq next g → held g cp → frequency target = freq →
  ∃ l, rewind_candidates (walk_fuel g) g cp target = Some l ∧ Forall (held g) l ∧
    ∀ c, c ∈ l ↔ relations.rtc (link g) cp c ∧ instructions (cp_time c) ≤ instructions target.
Proof.
  intros Hg Hc Hf. destruct (go_acyclic _ _ _ Hg) as [rank Hrk]. destruct (ancestry_spec _ _ g Hg rank (walk_fuel g) cp Hrk Hc (links_left_fuel _ _ _)) as (l & El & Hl & Hh & _). unfold rewind_candidates. rewrite El. cbn. eexists. split; [done|].
  assert (∀ c, c ∈ List.filter (λ c, time_leb (cp_time c) target) l ↔ relations.rtc (link g) cp c ∧ instructions (cp_time c) ≤ instructions target) as H.
  { intros c. rewrite list_elem_of_In, filter_In, <-list_elem_of_In, Hl. split; intros [Hr H]; (split; [done|]); pose proof (held_freq _ _ _ Hg c (rtc_held _ _ _ Hg _ _ Hc Hr)) as F;
      rewrite leb_same in * by congruence; lia. }
  split; [|done]. apply Forall_forall. intros c [Hr _]%H. by eapply rtc_held.
Qed.
(** A new checkpoint does not change the walks from those there are. *)
Lemma register_link freq next g j new c p : graph_ok freq next g → cp_id new = next → held g c → link (register_checkpoint new (Some j) g) c p ↔ link g c p.
Proof.
  intros Hg Hn Hc. unfold link. apply (go_id _ _ _ Hg) in Hc as [_ Hc]. rewrite !graph_parent_spec. cbn. rewrite Hn. rewrite lookup_insert_ne by lia. split; intros (i & Hi & Hp); exists i; (split; [done|]).
  - apply (go_link _ _ _ Hg) in Hi. by rewrite lookup_insert_ne in Hp by lia.
  - apply (go_link _ _ _ Hg) in Hi. by rewrite lookup_insert_ne by lia.
Qed.
Lemma register_rtc freq next g j new c p : graph_ok freq next g → cp_id new = next → held g c →
  relations.rtc (link (register_checkpoint new (Some j) g)) c p ↔ relations.rtc (link g) c p.
Proof.
  intros Hg Hn Hc. split; intros H; revert Hc; induction H as [|x y z Hl _ IH]; intros Hc; try done.
  - apply (register_link _ _ _ _ _ _ _ Hg Hn Hc) in Hl. eapply rtc_l; [done|]. apply IH. by eapply link_held.
  - pose proof (link_held _ _ _ Hg _ _ Hl). apply (register_link _ _ _ j new _ _ Hg Hn Hc) in Hl. eapply rtc_l; [done|]. by apply IH.
Qed.
(** The checkpoint [c] is new, below [best] and above [child]. *)
Record inserted g g' (best c child : Checkpoint) : Prop := {
  in_table : g_checkpoints g' = <[cp_id c := c]> (g_checkpoints g);
  in_new : g_checkpoints g !! cp_id c = None;
  in_above : link g' c best;
  in_below : link g' child c;
  in_rest : ∀ i, i ≠ cp_id c → i ≠ cp_id child → g_parent g' !! i = g_parent g !! i
}.
Lemma insert_between freq next g new best child : graph_ok freq next g → cp_id new = next → held g best → held g child →
  inserted g (reparent (cp_id child) (cp_id new) (register_checkpoint new (Some (cp_id best)) g)) best new child.
Proof.
  intros Hg Hn Hb Hc. pose proof (go_id _ _ _ Hg _ _ Hb) as [_ Ib]. pose proof (go_id _ _ _ Hg _ _ Hc) as [_ Ic].
  assert (g_checkpoints (register_checkpoint new (Some (cp_id best)) g) !! cp_id child = Some child) as E by (cbn; rewrite lookup_insert_ne by lia; done).
  unfold reparent. rewrite E. constructor; cbn; [done| | | |].
  - rewrite Hn. destruct (g_checkpoints g !! next) eqn:En; [|done]. apply (go_id _ _ _ Hg) in En. lia.
  - apply graph_parent_spec. exists (cp_id best). cbn. rewrite lookup_insert_ne, lookup_insert_eq, lookup_insert_ne by lia. done.
  - apply graph_parent_spec. exists (cp_id new). cbn. by rewrite !lookup_insert_eq.
  - intros i H1 H2. by rewrite !lookup_insert_ne.
Qed.
(** Inserting leaves a tree: the one that moves is below the new one's parent. *)
Lemma insert_ranked freq next g new best child p : graph_ok freq next g → cp_id new = next → held g best → held g child → link g child p → relations.rtc (link g) p best →
  ∃ rank, ranked rank (reparent (cp_id child) (cp_id new) (register_checkpoint new (Some (cp_id best)) g)).
Proof.
  intros Hg Hn Hb Hc Hl Hr. pose proof (go_id _ _ _ Hg _ _ Hb) as [_ Ib]. pose proof (go_id _ _ _ Hg _ _ Hc) as [_ Ic].
  apply (reparent_ranked _ _ _ (cp_id best) child); cbn; [by rewrite lookup_insert_ne by lia|by rewrite lookup_insert_eq| |lia|].
  - intros k [[_ H]|[_ H]]%lookup_insert_Some; [lia|]. apply (go_link _ _ _ Hg) in H. lia.
  - destruct (register_ranked _ _ g (cp_id best) new Hg Hn ltac:(lia)) as [rank Hrk]. exists rank. split; [exact Hrk|].
    assert (ranked rank g) as Hrk0.
    { intros i j H. apply Hrk. cbn. rewrite lookup_insert_ne; [done|]. apply (go_link _ _ _ Hg) in H. lia. }
    pose proof (link_ranked _ _ _ Hg rank _ _ Hrk0 Hl). pose proof (rtc_ranked _ _ _ Hg rank _ _ Hrk0 Hr). lia.
Qed.
(** The latest ancestor that is not after a time. *)
Definition latest_before g cp target best : Prop :=
  relations.rtc (link g) cp best ∧ instructions (cp_time best) ≤ instructions target ∧
  ∀ c, relations.rtc (link g) cp c → instructions (cp_time c) ≤ instructions target → c = best ∨ earlier c best.
(** The checkpoint [c] is of a fork of [best] that was run until [target]. *)
Definition ran fuel best target L c : Prop := ∃ b L1 at_ out sh b',
  branch best L = (Done b, L1) ∧ run_until lossy fuel target (lab_shared L1, b) = (Done (Some (at_, out)), (sh, b')) ∧
  cp_time c = at_ ∧ cp_vm c = br_vm b' ∧ cp_recording c = br_recording b' ∧ (out = ReachedTime → time_leb target at_ = true).
(** It is now between [best] and the first ancestor of [cp] whose parent is not after the target. *)
Definition rewound g g' cp target best c : Prop := ∃ child p,
  relations.rtc (link g) cp child ∧ link g child p ∧ instructions (cp_time p) ≤ instructions target < instructions (cp_time child) ∧ (p = best ∨ earlier p best) ∧
  inserted g g' best c child.
Lemma replay_ok fuel cp best target L bs : lab_ok L bs → room L → held (lab_graph L) cp → latest_before (lab_graph L) cp target best →
  frequency target = sh_freq (lab_shared L) → instructions target < instructions (cp_time cp) →
  match replay lossy fuel cp best target L with
  | (Done (Some c), L') => lab_ok L' bs ∧ ran fuel best target L c ∧ rewound (lab_graph L) (lab_graph L') cp target best c
  | (Done None, _) => True
  | (Fail _, L') => lab_ok L' bs ∧ lab_graph L' = lab_graph L
  | (Stuck, _) => False
  end.
Proof.
  intros HL Hroom Hcp (Hr & Hb & Hmax) Hft Hlt. pose proof (lo_graph _ _ HL) as Hg. pose proof (rtc_held _ _ _ Hg _ _ Hcp Hr) as Hhb.
  pose proof (branch_inner_ok best (cp_source best) false L bs HL Hhb Hroom) as H1. unfold replay. unfold mbind at 1, M_bind at 1. fold (branch best) in H1.
  destruct (branch best L) as [[b|e|] L1] eqn:Eb; [|by destruct H1 as [? []]|done]. destruct H1 as (HL1 & Hfresh & Ho & [G1 N1]).
  assert ((<[br_id b := b]> bs) !! br_id b = Some b) as Hin by (by rewrite lookup_insert_eq).
  pose proof (or_drop_ok (run_until lossy fuel target) b L1 _ (run_until_goes lossy fuel target) HL1 Hin) as H2. pose proof (or_drop_tree (run_until lossy fuel target) b L1) as [[G2 N2] _].
  pose proof (or_drop_done (run_until lossy fuel target) b L1) as H3. unfold mbind at 1, M_bind at 1.
  destruct (or_drop b (run_until lossy fuel target) L1) as [[[reached b']|e|] L2]; cbn [fst snd] in *; [|rewrite delete_insert_id in H2 by done; split; [done|congruence]|done].
  destruct reached as [[at_ out]|]; [|done]. destruct H2 as (HL2 & Hid & Ho'). rewrite insert_insert_eq in HL2. specialize (H3 _ _ _ eq_refl).
  destruct (checkpoint_ok b' L2 _ HL2 ltac:(by rewrite Hid, lookup_insert_eq) ltac:(destruct Hroom; congruence)) as (new & L3 & E3 & HL3 & G3 & I3 & T3 & Hn3 & F3).
  rewrite (run_bind _ _ _ _ _ E3). rewrite Hid, delete_insert_id in HL3 by done. clear E3. rewrite Ho', Ho, G2, G1 in G3. rewrite N2, N1 in I3.
  pose proof (lo_graph _ _ HL3) as Hg3. rewrite (run_bind (gets lab_graph) _ L3 (lab_graph L3) L3 eq_refl).
  assert (∀ c, held (lab_graph L) c → held (lab_graph L3) c) as Hup.
  { intros c Hc. unfold held. rewrite G3. cbn. rewrite lookup_insert_ne; [done|]. apply (go_id _ _ _ Hg) in Hc. lia. }
  assert (∀ c c', held (lab_graph L) c → relations.rtc (link (lab_graph L3)) c c' ↔ relations.rtc (link (lab_graph L)) c c') as Hrtc by (intros c c' Hc; rewrite G3; by eapply register_rtc).
  assert (frequency target = sh_freq (lab_shared L3)) as Hf3 by (rewrite Hft, <-(held_freq _ _ _ Hg3 _ (Hup _ Hhb)); symmetry; by eapply held_freq).
  destruct (go_acyclic _ _ _ Hg3) as [rank Hrk].
  destruct (logical_child_spec _ _ _ Hg3 rank (walk_fuel (lab_graph L3)) cp best target Hrk (Hup _ Hcp) (links_left_fuel _ _ _) Hf3 Hlt) as (child & p & Ec & Hhc & Hrc & Hlc & Hpb & Htc);
    [by apply Hrtc|done|].
  rewrite Ec. cbn [default]. unfold mbind, M_bind, modify, mret, M_ret. cbv beta iota.
  apply (Hrtc _ _ Hcp) in Hrc. pose proof (rtc_held _ _ _ Hg _ _ Hcp Hrc) as Hhc'. rewrite G3 in Hlc. apply (register_link _ _ _ _ _ _ _ Hg I3 Hhc') in Hlc.
  pose proof (link_held _ _ _ Hg _ _ Hlc) as Hhp. apply (Hrtc _ _ Hhp) in Hpb. split; [|split].
  - apply with_graph_ok; [done| |intros i x _; unfold reparent; by rewrite Hhc]. eapply reparent_graph_ok; [done|exact Hhc|exact Hn3|]. rewrite G3. by eapply insert_ranked.
  - injection T3 as T3 T4 T5. destruct (run_until_paused _ _ _ _ _ _ _ H3) as [T6 T7]. exists b, L1, at_, out, (lab_shared L2), b'. cbn in T6. split_and!; [done|done|congruence|done|done|done].
  - exists child, p. split; [done|]. split; [done|]. split; [done|]. split; [apply Hmax; [by eapply rtc_r|lia]|]. cbn. rewrite G3. by eapply insert_between.
Qed.
Lemma rewind_cases fuel cp (by_ : VirtDuration) L bs : lab_ok L bs → held (lab_graph L) cp → d_frequency by_ = sh_freq (lab_shared L) → 0 ≤ d_instructions by_ → 0 ≤ instructions (cp_time cp) →
  let target := mkTime (instructions (cp_time cp) -| d_instructions by_) (sh_freq (lab_shared L)) in
  (∃ c, relations.rtc (link (lab_graph L)) cp c ∧ cp_time c = target ∧ rewind lossy fuel cp by_ L = (Done (Some c), L)) ∨
  (∀ c, relations.rtc (link (lab_graph L)) cp c → instructions target < instructions (cp_time c)) ∧ rewind lossy fuel cp by_ L = (Fail (NoCheckpointBefore target), L) ∨
  (∃ best, latest_before (lab_graph L) cp target best ∧ (∀ c, relations.rtc (link (lab_graph L)) cp c → cp_time c ≠ target) ∧
    instructions target < instructions (cp_time cp) ∧ rewind lossy fuel cp by_ L = replay lossy fuel cp best target L).
Proof.
  intros HL Hcp Hf H0 Hpos target. pose proof (lo_graph _ _ HL) as Hg. pose proof (go_freq _ _ _ Hg _ _ Hcp) as Hft.
  destruct (candidates_spec _ _ _ cp target Hg Hcp eq_refl) as (l & El & Hh & Hl).
  assert (rewind lossy fuel cp by_ L = match List.find (λ c, bool_decide (cp_time c = target)) l, latest l with
    | Some c, _ => (Done (Some c), L) | None, None => (Fail (NoCheckpointBefore target), L) | None, Some best => replay lossy fuel cp best target L end) as E.
  { unfold rewind, time_sub. rewrite Hf, Hft, Z.eqb_refl. cbn [negb]. fold target. by rewrite El. }
  rewrite E. clear E. destruct (List.find _ l) as [c|] eqn:Ef.
  - apply find_some in Ef as [Hc%list_elem_of_In Ht%bool_decide_eq_true]. left. exists c. apply Hl in Hc as [Hc _]. done.
  - right. assert (∀ c, relations.rtc (link (lab_graph L)) cp c → cp_time c ≠ target) as Hne.
    { intros c Hc Et. pose proof (find_none _ _ Ef c) as Hn. rewrite <-list_elem_of_In, Hl in Hn. cbv beta in Hn. rewrite bool_decide_eq_false in Hn. apply Hn; [|done]. split; [done|rewrite Et; lia]. }
    pose proof (latest_spec _ _ _ Hg l Hh) as Hlat. destruct (latest l) as [best|].
    + right. exists best. destruct Hlat as [Hb Hm]. apply Hl in Hb as [Hb1 Hb2]. split_and!; [|done| |done].
      * split; [done|]. split; [done|]. intros c Hc Hle. apply Hm, Hl. done.
      * specialize (Hne cp (rtc_refl _ _)). assert (instructions (cp_time cp) ≠ instructions target).
        { intros Ei. apply Hne. destruct (cp_time cp). cbn in *. subst target. cbn in *. congruence. }
        subst target. cbn in *. unfold saturating_sub in *. lia.
    + left. split; [|done]. intros c Hc. apply Z.nle_gt. intros Hle. assert (c ∈ l) as Hin by (apply Hl; done). subst l. set_solver.
Qed.

(** *** Users of a lab *)
(** What a user calls on a branch; [store] writes a file the guest sent. *)
Inductive client : ∀ A, LM (V := V) (S := S) A → Prop :=
| client_run fuel target : client _ (run_until lossy fuel target)
| client_config config : client _ (set_event_config config)
| client_sched t target cmd out : client _ (sched_bash t target cmd out)
| client_bash store fuel target cmd out : client _ (bash lossy store fuel target cmd out).
(** One call of a user.  A branch whose call fails is given up; the last handle of a checkpoint goes only when no branch has it as its origin. *)
Inductive lab_step : LabInner * gmap Z B → LabInner * gmap Z B → Prop :=
| step_branch cp L L' bs b : held (lab_graph L) cp → room L → branch cp L = (Done b, L') → lab_step (L, bs) (L', <[br_id b := b]> bs)
| step_branch_input cp source L L' bs b : held (lab_graph L) cp → room L → branch_with_input_source cp source L = (Done b, L') → lab_step (L, bs) (L', <[br_id b := b]> bs)
| step_branch_fails cp L L' bs e : held (lab_graph L) cp → room L → branch cp L = (Fail e, L') → lab_step (L, bs) (L', bs)
| step_call A (k : LM A) b a b' L L' bs : client A k → bs !! br_id b = Some b → or_drop b k L = (Done (a, b'), L') → lab_step (L, bs) (L', <[br_id b := b']> bs)
| step_call_fails A (k : LM A) b e L L' bs : client A k → bs !! br_id b = Some b → or_drop b k L = (Fail e, L') → lab_step (L, bs) (L', delete (br_id b) bs)
| step_drop_branch i L bs : lab_step (L, bs) ((set_live (delete i) L).2, delete i bs)
| step_checkpoint b cp L L' bs : bs !! br_id b = Some b → room L → checkpoint b L = (Done cp, L') → lab_step (L, bs) (L', delete (br_id b) bs)
| step_rewind fuel cp by_ c L L' bs : held (lab_graph L) cp → room L → 0 ≤ d_instructions by_ → 0 ≤ instructions (cp_time cp) → rewind lossy fuel cp by_ L = (Done (Some c), L') → lab_step (L, bs) (L', bs)
| step_rewind_fails fuel cp by_ e L L' bs : held (lab_graph L) cp → room L → 0 ≤ d_instructions by_ → 0 ≤ instructions (cp_time cp) → rewind lossy fuel cp by_ L = (Fail e, L') → lab_step (L, bs) (L', bs)
| step_drop i L bs : (∀ j b, bs !! j = Some b → br_origin b ≠ i) → lab_step (L, bs) (with_graph (drop_checkpoint i (lab_graph L)) L, bs).
Lemma client_goes A (k : LM A) : client A k → goes k.
Proof. destruct 1; [apply run_until_goes|apply configure_goes|apply sched_goes|apply bash_goes]. Qed.
Lemma rewind_ok fuel cp by_ L bs : lab_ok L bs → held (lab_graph L) cp → room L → 0 ≤ d_instructions by_ → 0 ≤ instructions (cp_time cp) →
  match rewind lossy fuel cp by_ L with (Done (Some _), L') | (Fail _, L') => lab_ok L' bs | (Done None, _) => True | (Stuck, _) => False end.
Proof.
  intros HL Hcp Hr H0 Hpos. destruct (Z.eqb_spec (d_frequency by_) (sh_freq (lab_shared L))) as [Hf|Hf].
  - destruct (rewind_cases fuel cp by_ L bs HL Hcp Hf H0 Hpos) as [(c & _ & _ & ->)|[[_ ->]|(best & Hb & _ & Hlt & ->)]]; [done..|].
    pose proof (replay_ok fuel cp best _ L bs HL Hr Hcp Hb eq_refl Hlt) as H. destruct (replay _ _ _ _ _ _) as [[[c|]|e|] L']; [apply H|done|apply H|done].
  - unfold rewind. by rewrite (proj2 (Z.eqb_neq _ _) Hf).
Qed.
Lemma lab_step_ok w w' : lab_step w w' → lab_ok w.1 w.2 → lab_ok w'.1 w'.2.
Proof.
  destruct 1 as [cp L L' bs b Hc Hr E|cp source L L' bs b Hc Hr E|cp L L' bs e Hc Hr E|A k b a b' L L' bs Hk Hb E|A k b e L L' bs Hk Hb E|i L bs|b cp L L' bs Hb Hr E|
    fuel cp by_ c L L' bs Hc Hr H0 Hpos E|fuel cp by_ e L L' bs Hc Hr H0 Hpos E|i L bs Ho]; cbn [fst snd]; intros HL.
  - pose proof (branch_inner_ok cp (cp_source cp) false L bs HL Hc Hr) as H. unfold branch in E. rewrite E in H. apply H.
  - pose proof (branch_inner_ok cp (Some source) true L bs HL Hc Hr) as H. unfold branch_with_input_source in E. rewrite E in H. apply H.
  - pose proof (branch_inner_ok cp (cp_source cp) false L bs HL Hc Hr) as H. unfold branch in E. rewrite E in H. apply H.
  - pose proof (or_drop_ok k b L bs (client_goes _ _ Hk) HL Hb) as H. rewrite E in H. apply H.
  - pose proof (or_drop_ok k b L bs (client_goes _ _ Hk) HL Hb) as H. rewrite E in H. apply H.
  - by apply drop_branch_ok.
  - destruct (checkpoint_ok b L bs HL Hb (proj1 Hr)) as (x & Lx & Ex & H & _). rewrite E in Ex. by injection Ex as <- <-.
  - pose proof (rewind_ok fuel cp by_ L bs HL Hc Hr H0 Hpos) as H. by rewrite E in H.
  - pose proof (rewind_ok fuel cp by_ L bs HL Hc Hr H0 Hpos) as H. by rewrite E in H.
  - apply with_graph_ok; [done|apply drop_graph_ok, HL|]. intros j b Hb. cbn. by rewrite lookup_delete_ne by (intros ->; by eapply Ho).
Qed.
Lemma lab_reachable_ok freq vm t partial source L bs : frequency t = freq →
  relations.rtc lab_step ((initial freq vm t partial source).1, ∅) (L, bs) → lab_ok L bs.
Proof.
  intros Hf H. assert (∀ w w', relations.rtc lab_step w w' → lab_ok w.1 w.2 → lab_ok w'.1 w'.2) as Hi by (induction 1; [done|]; intros; eauto using lab_step_ok).
  apply (Hi _ _ H). by apply initial_lab_ok.
Qed.

(** * Theorems *)



End Lab.

(** ** Examples *)

(** A machine that runs to its stop, or says that it is ready at one time before it. *)
Record tick := mkTick { tk_now : N; tk_stop : option Z; tk_ready : option N }.
Definition still {A} (a : A) (v : tick) : result A Z * tick := (Ok a, v).
Definition tick_run (v : tick) : result VmExit Z * tick :=
  let goal := match tk_stop v with Some t => N.max (tk_now v) (Z.to_N t) | None => tk_now v end in
  match tk_ready v with
  | Some r => if ((tk_now v <? r) && (r <=? goal))%N then (Ok (mkVmExit 266 0 0 (Z.of_N r)), mkTick r (tk_stop v) (tk_ready v))
              else (Ok (mkVmExit 259 0 0 (Z.of_N goal)), mkTick goal (tk_stop v) (tk_ready v))
  | None => (Ok (mkVmExit 259 0 0 (Z.of_N goal)), mkTick goal (tk_stop v) (tk_ready v))
  end.
#[export] Instance tick_ops : VmOps tick := {
  vm_run := tick_run; vm_event_buffer _ := None;
  vm_set_stop_at_tsc o v := (Ok (), mkTick (tk_now v) o (tk_ready v)); vm_queue_io_action _ _ := still (); vm_drain_io_response := still [];
  vm_set_rdrand_value _ := still (); vm_random_request := still (0, 0); vm_set_random_bytes _ := still (); vm_set_event_config _ := still (); vm_set_single_step _ := still ();
  vm_set_rdrand_exit := still (); vm_get_regs := still (0, 0); vm_feedback_info _ := still None; vm_feedback_buffers _ := still []; vm_fork v := Ok v
}.
Definition tick_lab (ready : option N) : LabInner (V := tick) (S := Z) * Checkpoint := initial 1000 (mkTick 0 None ready) (mkTime 0 1000) partial_default None.
(** A root at 0, a branch of it run to 20 and made a checkpoint. *)
Definition tick_chain (ready : option N) : outcome LabError (option Checkpoint) * LabInner (V := tick) (S := Z) :=
  (tmp ← branch (tick_lab ready).2;
   '(_, tmp) ← or_drop tmp (run_until id 3 (mkTime 20 1000));
   '(_, tmp) ← or_drop tmp (run_until id 3 (mkTime 20 1000));
   c ← checkpoint tmp;
   rewind id 3 c (mkDuration 10 1000)) (tick_lab ready).1.
(** Rewound across a point where the guest was ready, the checkpoint is at that point and not at the target. *)
Theorem rewind_stops_early :
  (λ r, match r with Done (Some c) => Some (instructions (cp_time c)) | _ => None end) (tick_chain None).1 = Some 10 ∧
  (λ r, match r with Done (Some c) => Some (instructions (cp_time c)) | _ => None end) (tick_chain (Some 5%N)).1 = Some 5.
Proof. split; vm_compute; reflexivity. Qed.
(** The lab before it is rewound. *)
Definition tick_base : outcome LabError Checkpoint * LabInner (V := tick) (S := Z) :=
  (tmp ← branch (tick_lab None).2;
   '(_, tmp) ← or_drop tmp (run_until id 3 (mkTime 20 1000));
   checkpoint tmp) (tick_lab None).1.
Lemma tick_base_reached : ∃ c L, tick_base = (Done c, L) ∧ relations.rtc (lab_step id) ((tick_lab None).1, ∅) (L, ∅) ∧ held (lab_graph L) c ∧ room L ∧ sh_freq (lab_shared L) = 1000 ∧ cp_time c = mkTime 20 1000.
Proof.
  destruct (branch (tick_lab None).2 (tick_lab None).1) as [[b|e|] L1] eqn:E1; [|by vm_compute in E1..].
  destruct (or_drop b (run_until id 3 (mkTime 20 1000)) L1) as [[[x b']|e|] L2] eqn:E2; [|by vm_compute in E1; injection E1 as <- <-; vm_compute in E2..].
  destruct (checkpoint b' L2) as [[c|e|] L] eqn:E3; [|done..]. exists c, L. split; [unfold tick_base; by rewrite (run_bind _ _ _ _ _ E1), (run_bind _ _ _ _ _ E2)|].
  assert (br_id b' = br_id b ∧ br_id b = 1) as [Hid Hb1]. { vm_compute in E1. injection E1 as <- <-. vm_compute in E2. by injection E2 as <- <- <-. }
  split.
  - eapply rtc_l; [apply (step_branch id (tick_lab None).2 (tick_lab None).1 L1 ∅ b); [done|by vm_compute|exact E1]|].
    eapply rtc_l; [apply (step_call id _ (run_until id 3 (mkTime 20 1000)) b x b' L1 L2); [constructor|by rewrite lookup_insert_eq|exact E2]|]. rewrite insert_insert_eq.
    eapply rtc_l; [apply (step_checkpoint id b' c L2 L); [by rewrite Hid, lookup_insert_eq| |exact E3]|].
    + vm_compute in E1. injection E1 as <- <-. vm_compute in E2. injection E2 as <- <- <-. by vm_compute.
    + by rewrite Hid, delete_insert_eq, delete_empty.
  - vm_compute in E1. injection E1 as <- <-. vm_compute in E2. injection E2 as <- <- <-. vm_compute in E3. injection E3 as <- <-. split_and!; by vm_compute.
Qed.

(** A branch with a source of its own, from a checkpoint whose source had no more commands: the new source is never asked for one. *)
Theorem new_source_not_asked {V S : Type} `{!VmOps V, !InputSource S} (cp : Checkpoint (V := V) (S := S)) (source : S) L b L' sh target :
  cp_exhausted cp = true → branch_with_input_source cp source L = (Done b, L') → br_source b = Some source ∧ prepare_next_io_input target (sh, b) = (Done target, (sh, b)).
Proof.
  intros He E. assert (br_exhausted b = true ∧ br_source b = Some source) as [Hx Hs].
  { unfold branch_with_input_source, branch_inner in E. destruct (vm_fork (cp_vm cp)) as [child|]; [|done]. destruct (vm_set_rdrand_exit child) as [[[]|] v]; [|done].
    unfold next_branch_id, branch_new, set_live, log_event, or_drop, on_branch_of, apply_event_config, this, gets, modify, vm_call, mbind, M_bind in E. cbn in E. destruct (vm_set_event_config _ v) as [[[]|e] v']; [|done].
    by injection E as <- _. }
  split; [done|]. unfold prepare_next_io_input. unfold this, gets. unfold mbind at 1, M_bind at 1. cbn [snd]. by rewrite Hx.
Qed.
