(* ===== verification/FileXfer.v ===== *)
(** * Files between host and guest (crate [bedrock-vm]: [file_xfer.rs],
    [file_store.rs], and the feedback buffers of [vm/mod.rs]; [guest/file-fetch.c],
    [guest/file-store.c])

    A program in the guest and the library on the host share one buffer.  To fetch
    a file, the guest writes its name and an offset into the buffer and makes a
    hypercall; the host answers with the next piece of the file in the same buffer.
    To store a file, the guest writes a piece of it, and the host appends it to a
    file of its own.  Both sides are here, and what runs between them is the
    hypercall: the exit that leads to [serve] or [write], and back.

    What the operating system does with a read or write is a list of events: a
    number of bytes, an interruption, or a failure; after the list, every call
    does all it is asked for.  [String::from_utf8_lossy] is a parameter. *)
From S2P Require Import Prelude Wire.

(** ** Calls of the operating system *)
Inductive io_event := Short (n : nat) | Interrupted | Failed.
(** [read_up_to], on what follows the position of the file: the bytes read, and whether it failed. *)
Fixpoint read_up_to (script : list io_event) (rest : list Z) (want : nat) : list Z * bool * list io_event :=
  match want with
  | O => ([], true, script)
  | _ =>
      match script with
      | [] => (take want rest, true, [])
      | Short n :: script =>
          match take (Nat.min (S n) want) rest with
          | [] => ([], true, script)
          | got => let '(more, ok, script) := read_up_to script (drop (length got) rest) (want - length got) in (got ++ more, ok, script)
          end
      | Interrupted :: script => read_up_to script rest want
      | Failed :: script => ([], false, script)
      end
  end.
(** A loop of [write]: the bytes that reach the file, and whether all of them do. *)
Fixpoint write_loop (script : list io_event) (data : list Z) : list Z * bool * list io_event :=
  match data with
  | [] => ([], true, script)
  | _ =>
      match script with
      | [] => (data, true, [])
      | Short n :: script => let '(more, ok, script) := write_loop script (drop (S n) data) in (take (S n) data ++ more, ok, script)
      | Interrupted :: script => write_loop script data
      | Failed :: script => ([], false, script)
      end
  end.
(** [memcpy] or [copy_from_slice] into a buffer. *)
Definition splice (off : nat) (bs buf : list Z) : list Z := take off buf ++ bs ++ drop (off + length bs) buf.

(** ** Feedback buffers in userspace ([vm/mod.rs]) *)
Inductive IoError := AlreadyExists | NotFound | InvalidData | Other | Os.
(** A buffer the guest registered: its identifier, and the bytes of its pages, which are the guest's. *)
Record Slot := mkSlot { sl_id : list Z; sl_bytes : list Z }.
(** [Vm]: the buffers, and the sizes of those mapped. *)
Record FeedbackVm := mkVm { fv_slots : list Slot; fv_mapped : list (option nat) }.
Implicit Types v : FeedbackVm.

Section Buffers.
Context (mmap_ok : nat → bool).
Definition get_feedback_buffer_info_at v (index : nat) : option Slot := fv_slots v !! index.
Definition feedback_buffer_mut_at v (index : nat) : option (list Z) :=
  match fv_mapped v !! index with
  | Some (Some size) => take size ∘ sl_bytes <$> fv_slots v !! index
  | _ => None
  end.
Definition ensure_feedback_slot (index : nat) (l : list (option nat)) : list (option nat) :=
  if (length l <=? index)%nat then l ++ replicate (index + 1 - length l) None else l.
Definition map_feedback_buffer_mut_at (index : nat) v : result () IoError * FeedbackVm :=
  match feedback_buffer_mut_at v index with
  | Some _ => (Err AlreadyExists, v)
  | None =>
      match get_feedback_buffer_info_at v index with
      | None => (Err NotFound, v)
      | Some info =>
          let size := length (sl_bytes info) in
          if mmap_ok index then (Ok (), mkVm (fv_slots v) (<[index := Some size]> (ensure_feedback_slot index (fv_mapped v)))) else (Err Os, v)
      end
  end.
Fixpoint slots_from (id : list Z) (slot : nat) (l : list Slot) : list nat :=
  match l with [] => [] | s :: l => (if bool_decide (sl_id s = id) then [slot] else []) ++ slots_from id (S slot) l end.
Definition feedback_buffer_slots_for_id v (id : list Z) : list nat := slots_from id 0 (fv_slots v).
(** A store of the host, or of the guest, into the shared pages. *)
Definition set_buffer (slot : nat) (bytes : list Z) v : FeedbackVm :=
  mkVm (alter (λ s, mkSlot (sl_id s) bytes) slot (fv_slots v)) (fv_mapped v).
(** [resolve_slot] of both; the slot once found is kept. *)
Definition resolve_slot (id : list Z) (cached : option nat) v : result nat IoError :=
  match cached with
  | Some slot => Ok slot
  | None => match feedback_buffer_slots_for_id v id with slot :: _ => Ok slot | [] => Err NotFound end
  end.
(** What [serve] and [write] begin with: the mapped buffer. *)
Definition open_buffer (slot : nat) v : result (list Z) IoError * FeedbackVm :=
  let '(r, v) := match feedback_buffer_mut_at v slot with Some _ => (Ok (), v) | None => map_feedback_buffer_mut_at slot v end in
  match r with
  | Err e => (Err e, v)
  | Ok _ => match feedback_buffer_mut_at v slot with Some buf => (Ok buf, v) | None => (Err Other, v) end
  end.
End Buffers.
Definition write_result (buf : list Z) (result : Z) : list Z := splice 8 (replicate 8 0) (splice 0 (le_bytes 8 result) buf).

(** ** Fetching: the host ([file_xfer.rs]) *)
Definition HEADER_LEN : nat := 16.
Definition FILE_XFER_BUFFER_ID : list Z := [0x62; 0x65; 0x64; 0x72; 0x6F; 0x63; 0x6B; 0x2D; 0x66; 0x69; 0x6C; 0x65; 0x2D; 0x78; 0x66; 0x65; 0x72].
Definition FILE_XFER_RESULT_NOT_FOUND : Z := -1.
(** An open file is its bytes: the files served do not change. *)
Record FileEntry := mkEntry { fe_path : list Z; fe_handle : option (list Z) }.
Record FileServer := mkServer { fs_files : gmap (list Z) FileEntry; fs_slot : option nat }.
Definition server_new (files : list (list Z * list Z)) : FileServer := mkServer (list_to_map ((λ '(name, path), (name, mkEntry path None)) <$> reverse files)) None.

Section Serve.
Context (lossy : list Z → list Z) (mmap_ok : nat → bool) (host_file : list Z → option (list Z)).
(** The world of a transfer: the server and the VM, and what reads will do. *)
Record host := mkHost { h_server : FileServer; h_vm : FeedbackVm; h_reads : list io_event }.
Definition serve (h : host) : result nat IoError * host :=
  match resolve_slot FILE_XFER_BUFFER_ID (fs_slot (h_server h)) (h_vm h) with
  | Err e => (Err e, h)
  | Ok slot =>
      let server := mkServer (fs_files (h_server h)) (Some slot) in
      match open_buffer mmap_ok slot (h_vm h) with
      | (Err e, v) => (Err e, mkHost server v (h_reads h))
      | (Ok buf, v) =>
          let here := mkHost server v (h_reads h) in
          if (length buf <? HEADER_LEN)%nat then (Err InvalidData, here)
          else
            let offset := of_le (take 8 buf) in
            let name_len := Z.to_nat (of_le (take 4 (drop 8 buf))) in
            let data_cap := (length buf - HEADER_LEN)%nat in
            if (length buf <? HEADER_LEN + name_len)%nat then (Err InvalidData, here)
            else
              let name := lossy (take name_len (drop HEADER_LEN buf)) in
              let not_found server := (Ok 0%nat, mkHost server (set_buffer slot (write_result buf FILE_XFER_RESULT_NOT_FOUND) v) (h_reads h)) in
              match fs_files server !! name with
              | None => not_found server
              | Some entry =>
                  match (match fe_handle entry with Some f => Some f | None => host_file (fe_path entry) end) with
                  | None => not_found server
                  | Some contents =>
                      let server := mkServer (<[name := mkEntry (fe_path entry) (Some contents)]> (fs_files server)) (Some slot) in
                      if 2 ^ 63 <=? offset then (Err Os, mkHost server v (h_reads h))
                      else
                        let '(bytes, ok, reads) := read_up_to (h_reads h) (drop (Z.to_nat offset) contents) data_cap in
                        let buf := splice HEADER_LEN bytes buf in
                        if ok : bool then (Ok (length bytes), mkHost server (set_buffer slot (write_result buf (Z.of_nat (length bytes))) v) reads)
                        else (Err Os, mkHost server (set_buffer slot buf v) reads)
                  end
              end
      end
  end.

(** ** Fetching: the guest ([guest/file-fetch.c]) *)
(** The guest's files, and what its writes will do. *)
Record guest := mkGuest { g_files : gmap (list Z) (list Z); g_writes : list io_event }.
Context (can_create : list Z → bool).
(** The exit of the hypercall, as the command-line tool handles it: a failure is logged, and the guest goes on. *)
Definition vmcall_file_fetch (h : host) : host := (serve h).2.
Definition frame_fetch (offset : Z) (name buf : list Z) : list Z :=
  splice 16 name (splice 8 (le_bytes 4 (Z.of_nat (length name))) (splice 0 (le_bytes 8 offset) (splice 0 (replicate 16 0) buf))).
Definition buffer_of (slot : nat) v : list Z := default [] (sl_bytes <$> fv_slots v !! slot).
(** [true]: 0, [false]: -1, [None]: not done after [fuel] pieces. *)
Fixpoint fetch_loop (fuel : nat) (slot data_cap : nat) (name path : list Z) (offset : Z) (h : host) (g : guest) : option bool * host * guest :=
  match fuel with
  | O => (None, h, g)
  | S fuel =>
      let v := h_vm h in
      let h := vmcall_file_fetch (mkHost (h_server h) (set_buffer slot (frame_fetch offset name (buffer_of slot v)) v) (h_reads h)) in
      let buf := buffer_of slot (h_vm h) in
      let result := bits_i64 (of_le (take 8 buf)) in
      if result <? 0 then (Some false, h, g)
      else if result =? 0 then (Some true, h, g)
      else if Z.of_nat data_cap <? result then (Some false, h, g)
      else
        let '(bytes, ok, writes) := write_loop (g_writes g) (take (Z.to_nat result) (drop 16 buf)) in
        let g := mkGuest (alter (λ f, f ++ bytes) path (g_files g)) writes in
        if ok : bool then fetch_loop fuel slot data_cap name path (u64 (offset + result)) h g else (Some false, h, g)
  end.
Definition fetch_one (fuel : nat) (slot : nat) (name path : list Z) (h : host) (g : guest) : option bool * host * guest :=
  let data_cap := (length (buffer_of slot (h_vm h)) - HEADER_LEN)%nat in
  if ((length name =? 0) || (data_cap <? length name))%nat then (Some false, h, g)
  else if negb (can_create path) then (Some false, h, g)
  else fetch_loop fuel slot data_cap name path 0 h (mkGuest (<[path := []]> (g_files g)) (g_writes g)).
(** The loop of [main] over its arguments. *)
Fixpoint fetch_all (fuel : nat) (slot : nat) (files : list (list Z * list Z)) (h : host) (g : guest) : option bool * host * guest :=
  match files with
  | [] => (Some true, h, g)
  | (name, path) :: files =>
      match fetch_one fuel slot name path h g with
      | (Some true, h, g) => fetch_all fuel slot files h g
      | r => r
      end
  end.
End Serve.

(** ** Storing: the host ([file_store.rs]) *)
Definition FILE_STORE_BUFFER_ID : list Z := [0x62; 0x65; 0x64; 0x72; 0x6F; 0x63; 0x6B; 0x2D; 0x66; 0x69; 0x6C; 0x65; 0x2D; 0x73; 0x74; 0x6F; 0x72; 0x65].
Definition FILE_STORE_IO_ERROR : Z := -1.
(** The open files are at a position. *)
Record FileWriter := mkWriter { fw_handles : gmap (list Z) nat; fw_slot : option nat }.
Definition writer_new : FileWriter := mkWriter ∅ None.
Section Store.
Context (lossy : list Z → list Z) (mmap_ok : nat → bool) (can_open : list Z → bool).
(** The writer, the VM, the host's files, and what its writes will do. *)
Record sink := mkSink { k_writer : FileWriter; k_vm : FeedbackVm; k_files : gmap (list Z) (list Z); k_writes : list io_event }.
Definition write (k : sink) : result nat IoError * sink :=
  match resolve_slot FILE_STORE_BUFFER_ID (fw_slot (k_writer k)) (k_vm k) with
  | Err e => (Err e, k)
  | Ok slot =>
      let writer := mkWriter (fw_handles (k_writer k)) (Some slot) in
      match open_buffer mmap_ok slot (k_vm k) with
      | (Err e, v) => (Err e, mkSink writer v (k_files k) (k_writes k))
      | (Ok buf, v) =>
          let here := mkSink writer v (k_files k) (k_writes k) in
          if (length buf <? HEADER_LEN)%nat then (Err InvalidData, here)
          else
            let name_len := Z.to_nat (of_le (take 4 buf)) in
            let chunk_len := Z.to_nat (of_le (take 4 (drop 4 buf))) in
            let name_end := (HEADER_LEN + name_len)%nat in
            if (length buf <? name_end + chunk_len)%nat then (Err InvalidData, here)
            else
              let name := lossy (take name_len (drop HEADER_LEN buf)) in
              match (match fw_handles writer !! name with
                     | Some pos => Some (pos, k_files k)
                     | None => if can_open name then Some (0%nat, <[name := []]> (k_files k)) else None
                     end) with
              | None => (Err Os, here)
              | Some (pos, files) =>
                  let '(bytes, ok, writes) := write_loop (k_writes k) (take chunk_len (drop name_end buf)) in
                  let files := alter (splice pos bytes) name files in
                  let writer := mkWriter (<[name := (pos + length bytes)%nat]> (fw_handles writer)) (Some slot) in
                  if ok : bool then (Ok chunk_len, mkSink writer (set_buffer slot (write_result buf (Z.of_nat chunk_len)) v) files writes)
                  else (Err Os, mkSink writer (set_buffer slot (write_result buf FILE_STORE_IO_ERROR) v) files writes)
              end
      end
  end.

(** ** Storing: the guest ([guest/file-store.c]) *)
Definition frame_store (host_path chunk buf : list Z) : list Z :=
  splice 16 host_path (splice 4 (le_bytes 4 (Z.of_nat (length chunk))) (splice 0 (le_bytes 4 (Z.of_nat (length host_path)))
    (splice (16 + length host_path) chunk buf))).
Definition vmcall_file_store (k : sink) : sink := (write k).2.
(** One [read] for each piece; [rest]: what the guest has not read yet. *)
Fixpoint store_loop (fuel : nat) (slot chunk_cap : nat) (host_path rest : list Z) (reads : list io_event) (k : sink) : option bool * sink :=
  match fuel with
  | O => (None, k)
  | S fuel =>
      let send (chunk rest : list Z) (reads : list io_event) : option bool * sink :=
        let v := k_vm k in
        let k := vmcall_file_store (mkSink (k_writer k) (set_buffer slot (frame_store host_path chunk (buffer_of slot v)) v) (k_files k) (k_writes k)) in
        let result := bits_i64 (of_le (take 8 (buffer_of slot (k_vm k)))) in
        if result <? 0 then (Some false, k) else store_loop fuel slot chunk_cap host_path rest reads k in
      match reads with
      | Failed :: _ => (Some false, k)
      | Interrupted :: reads => store_loop fuel slot chunk_cap host_path rest reads k
      | Short n :: reads => match take (Nat.min (S n) chunk_cap) rest with [] => (Some true, k) | chunk => send chunk (drop (length chunk) rest) reads end
      | [] => match take chunk_cap rest with [] => (Some true, k) | chunk => send chunk (drop (length chunk) rest) [] end
      end
  end.
Definition send_chunk (fuel : nat) (slot : nat) (contents : option (list Z)) (host_path : list Z) (reads : list io_event) (k : sink) : option bool * sink :=
  let chunk_cap := Z.to_nat (u64 (Z.of_nat (length (buffer_of slot (k_vm k))) - 16 - Z.of_nat (length host_path))) in
  if (length host_path =? 0)%nat then (Some false, k)
  else match contents with
       | None => (Some false, k)
       | Some rest => store_loop fuel slot chunk_cap host_path rest reads k
       end.
End Store.

(** * Lemmas *)

(** ** Buffers *)
Lemma splice_app (off : nat) (a x r bs : list Z) : length a = off → length x = length bs → splice off bs (a ++ x ++ r) = a ++ bs ++ r.
Proof.
  intros <- Hx. unfold splice. rewrite take_app_length. f_equal. f_equal. rewrite <-Hx, drop_app_add, drop_app_length. done.
Qed.
Lemma splice_zero (x r bs : list Z) : length x = length bs → splice 0 bs (x ++ r) = bs ++ r.
Proof. intros Hx. by apply (splice_app 0 []). Qed.
Lemma cut3 (n m : nat) (l : list Z) : (n + m ≤ length l)%nat → ∃ a b r, l = a ++ b ++ r ∧ length a = n ∧ length b = m ∧ r = drop (n + m) l.
Proof.
  intros H. exists (take n l), (take m (drop n l)), (drop (n + m) l). rewrite <-drop_drop, !take_drop, !length_take, length_drop. split_and!; [done|lia|lia|done].
Qed.
Definition request_bytes (offset : Z) (name rest : list Z) : list Z :=
  le_bytes 8 offset ++ le_bytes 4 (Z.of_nat (length name)) ++ replicate 4 0 ++ name ++ rest.
Lemma frame_fetch_eq offset name buf : (16 + length name ≤ length buf)%nat → frame_fetch offset name buf = request_bytes offset name (drop (16 + length name) buf).
Proof.
  intros H. destruct (cut3 16 (length name) buf H) as (a & b & r & -> & Ha & Hb & <-). unfold frame_fetch, request_bytes.
  rewrite splice_zero by (rewrite length_replicate; done). change (replicate 16 0) with (replicate 8 0 ++ replicate 4 0 ++ replicate 4 0). rewrite <-!app_assoc.
  rewrite splice_zero by (by rewrite length_le_bytes). rewrite (splice_app 8) by (by rewrite ?length_le_bytes, ?length_replicate).
  replace (le_bytes 8 offset ++ le_bytes 4 (Z.of_nat (length name)) ++ replicate 4 0 ++ b ++ r) with ((le_bytes 8 offset ++ le_bytes 4 (Z.of_nat (length name)) ++ replicate 4 0) ++ b ++ r) by (by rewrite <-!app_assoc).
  rewrite splice_app; [by rewrite <-!app_assoc|by rewrite !length_app, !length_le_bytes, length_replicate|done].
Qed.
Definition store_bytes (name chunk reserved rest : list Z) : list Z :=
  le_bytes 4 (Z.of_nat (length name)) ++ le_bytes 4 (Z.of_nat (length chunk)) ++ reserved ++ name ++ chunk ++ rest.
Lemma frame_store_eq name chunk buf : (16 + length name + length chunk ≤ length buf)%nat →
  ∃ reserved, length reserved = 8%nat ∧ frame_store name chunk buf = store_bytes name chunk reserved (drop (16 + length name + length chunk) buf).
Proof.
  intros H. destruct (cut3 (16 + length name) (length chunk) buf H) as (ab & c & r & -> & Hab & Hc & <-). destruct (cut3 8 8 ab ltac:(lia)) as (a & b & n & -> & Ha & Hb & _). destruct (cut3 4 4 a ltac:(lia)) as (a1 & a2 & e & -> & Ha1 & Ha2 & _).
  rewrite !length_app in *. assert (e = []) as -> by (apply nil_length_inv; lia). rewrite app_nil_r in *. exists b. split; [done|]. unfold frame_store, store_bytes.
  rewrite splice_app by (rewrite ?length_app; lia). rewrite <-!app_assoc. rewrite splice_zero by (by rewrite length_le_bytes). rewrite (splice_app 4) by (by rewrite ?length_le_bytes).
  set (x := le_bytes 4 (Z.of_nat (length name))). set (y := le_bytes 4 (Z.of_nat (length chunk))).
  replace (x ++ y ++ b ++ n ++ chunk ++ r) with ((x ++ y ++ b) ++ n ++ chunk ++ r) by (by rewrite <-!app_assoc).
  rewrite splice_app; [by rewrite <-!app_assoc|subst x y; rewrite !length_app, !length_le_bytes; lia|lia].
Qed.
Lemma write_result_eq h buf n : length h = 16%nat → write_result (h ++ buf) n = le_bytes 8 n ++ replicate 8 0 ++ buf.
Proof.
  intros Hh. destruct (cut3 8 8 h ltac:(lia)) as (a & b & e & -> & Ha & Hb & _). rewrite !length_app in Hh. assert (e = []) as -> by (apply nil_length_inv; lia). rewrite app_nil_r.
  unfold write_result. rewrite <-!app_assoc. rewrite splice_zero by (by rewrite length_le_bytes). by apply splice_app; rewrite ?length_le_bytes, ?length_replicate.
Qed.

(** ** Reads and writes that do not fail *)
Definition no_failure (script : list io_event) : Prop := Failed ∉ script.
Lemma no_failure_tail e script : no_failure (e :: script) → no_failure script.
Proof. unfold no_failure. set_solver. Qed.
Lemma take_own (n : nat) (l : list Z) : take (length (take n l)) l = take n l.
Proof. rewrite length_take. destruct (Nat.le_ge_cases n (length l)); [by rewrite Nat.min_l|]. rewrite Nat.min_r by done. by rewrite !take_ge. Qed.
Lemma take_own_drop (n : nat) (l : list Z) : take n l ++ drop (length (take n l)) l = l.
Proof. rewrite <-(take_own n l) at 1. apply take_drop. Qed.
(** However the reads are cut, all is read that there is and that is asked for. *)
Lemma read_up_to_spec script rest want : no_failure script → ∃ script', read_up_to script rest want = (take want rest, true, script') ∧ no_failure script'.
Proof.
  revert rest want. induction script as [|e script IH]; intros rest want Hs; (destruct want as [|want]; [eexists; split; [reflexivity|done]|]); cbn [read_up_to]; [eexists; split; [reflexivity|done]|].
  pose proof (no_failure_tail _ _ Hs) as Hs'. destruct e as [n| |]; [|by apply IH|by destruct Hs; left].
  remember (take (Nat.min (S n) (S want)) rest) as got eqn:Eg. destruct got as [|x got].
  - assert (rest = []) as -> by (destruct rest; [done|by destruct want]). eexists. split; [by rewrite take_nil|done].
  - destruct (IH (drop (length (x :: got)) rest) (S want - length (x :: got))%nat Hs') as (script' & -> & Hn). eexists. split; [|done]. do 2 f_equal.
    assert (length (x :: got) ≤ S want)%nat as Hl by (rewrite Eg, length_take; lia). assert (x :: got = take (length (x :: got)) rest) as Hg by (symmetry; rewrite Eg at 1; rewrite Eg; apply take_own).
    rewrite Hg at 1. rewrite take_take_drop. f_equal. lia.
Qed.
Lemma write_loop_spec script data : no_failure script → ∃ script', write_loop script data = (data, true, script') ∧ no_failure script'.
Proof.
  revert data. induction script as [|e script IH]; intros data Hs; (destruct data as [|x data]; [eexists; split; [reflexivity|done]|]); cbn [write_loop]; [eexists; split; [reflexivity|done]|].
  pose proof (no_failure_tail _ _ Hs) as Hs'. destruct e as [n| |]; [|by apply IH|by destruct Hs; left].
  destruct (IH (drop (S n) (x :: data)) Hs') as (script' & -> & Hn). eexists. split; [|done]. by rewrite take_drop.
Qed.

(** ** A registered buffer *)
(** The first buffer under its name, of a size, and mapped as a whole if at all. *)
Record ready (id : list Z) (slot size : nat) v : Prop := {
  rd_slot : ∃ s, fv_slots v !! slot = Some s ∧ sl_id s = id ∧ length (sl_bytes s) = size;
  rd_first : head (feedback_buffer_slots_for_id v id) = Some slot;
  rd_mapped : ∀ n, fv_mapped v !! slot = Some (Some n) → n = size
}.
Lemma slots_from_alter id n (l : list Slot) slot bytes : slots_from id n (alter (λ s, mkSlot (sl_id s) bytes) slot l) = slots_from id n l.
Proof. revert n slot. induction l as [|s l IH]; intros n [|slot]; cbn; [done..|]. by rewrite IH. Qed.
Lemma set_buffer_ready id slot size v bytes : ready id slot size v → length bytes = size → ready id slot size (set_buffer slot bytes v).
Proof.
  intros [(s & Hs & Hid & Hl) Hf Hm] Hb. constructor; cbn; [|unfold feedback_buffer_slots_for_id; cbn; by rewrite slots_from_alter|done].
  exists (mkSlot id bytes). split; [|done]. rewrite list_lookup_alter, decide_True, Hs by done. cbn. by rewrite Hid.
Qed.
Lemma buffer_of_set id slot size v bytes : ready id slot size v → buffer_of slot (set_buffer slot bytes v) = bytes.
Proof. intros [(s & Hs & _) _ _]. unfold buffer_of. cbn. by rewrite list_lookup_alter, decide_True, Hs by done. Qed.
Lemma set_buffer_twice slot a b v : set_buffer slot b (set_buffer slot a v) = set_buffer slot b v.
Proof. unfold set_buffer. cbn. f_equal. generalize (fv_slots v). intros l. revert slot. induction l as [|s l IH]; intros [|slot]; cbn; [done..|]. f_equal. apply IH. Qed.
Lemma ready_length id slot size v : ready id slot size v → length (buffer_of slot v) = size.
Proof. intros [(s & Hs & _ & Hl) _ _]. unfold buffer_of. by rewrite Hs. Qed.
Lemma ensure_length slot l : (slot < length (ensure_feedback_slot slot l))%nat.
Proof. unfold ensure_feedback_slot. destruct (Nat.leb_spec (length l) slot); [|done]. rewrite length_app, length_replicate. lia. Qed.
Lemma open_ready mmap_ok id slot size v : ready id slot size v → mmap_ok slot = true →
  ∃ v', open_buffer mmap_ok slot v = (Ok (buffer_of slot v), v') ∧ fv_slots v' = fv_slots v ∧ ready id slot size v'.
Proof.
  intros [(s & Hs & Hid & Hl) Hf Hm] Hok. assert (∀ m, m !! slot = Some (Some size) → feedback_buffer_mut_at (mkVm (fv_slots v) m) slot = Some (buffer_of slot v)) as Hmap.
  { intros m E. unfold feedback_buffer_mut_at, buffer_of. cbn. rewrite E, Hs. cbn. by rewrite take_ge by lia. }
  unfold open_buffer. destruct (feedback_buffer_mut_at v slot) as [buf|] eqn:E.
  - assert (fv_mapped v !! slot = Some (Some size)) as Em.
    { unfold feedback_buffer_mut_at in E. destruct (fv_mapped v !! slot) as [[n|]|] eqn:Em; [|done..]. by rewrite (Hm n). }
    specialize (Hmap (fv_mapped v) Em). rewrite E. destruct v. cbn in *. rewrite Hmap in E. injection E as <-. eexists. split; [done|]. split; [done|]. constructor; [by eexists|done|done].
  - unfold map_feedback_buffer_mut_at, get_feedback_buffer_info_at. rewrite E, Hs, Hok, Hl. rewrite Hmap.
    + eexists. split; [done|]. split; [done|]. constructor; cbn; [by eexists|done|]. intros n. rewrite list_lookup_insert_eq by apply ensure_length. by intros [= <-].
    + apply list_lookup_insert_eq, ensure_length.
Qed.

(** ** Fetching *)
Section Fetch.
Context (lossy : list Z → list Z) (mmap_ok : nat → bool) (host_file : list Z → option (list Z)) (can_create : list Z → bool).
Definition serves (server : FileServer) (name contents : list Z) : Prop :=
  ∃ e, fs_files server !! name = Some e ∧ match fe_handle e with Some f => f = contents | None => host_file (fe_path e) = Some contents end.
Record channel (slot size : nat) (h : host) : Prop := {
  ch_ready : ready FILE_XFER_BUFFER_ID slot size (h_vm h);
  ch_slot : ∀ s, fs_slot (h_server h) = Some s → s = slot;
  ch_map : mmap_ok slot = true;
  ch_reads : no_failure (h_reads h)
}.
Lemma request_parts offset name rest : in_width 64 offset → (Z.of_nat (length name) < 2 ^ 32) → let buf := request_bytes offset name rest in
  of_le (take 8 buf) = offset ∧ of_le (take 4 (drop 8 buf)) = Z.of_nat (length name) ∧ take (length name) (drop 16 buf) = name ∧ length buf = (16 + length name + length rest)%nat.
Proof.
  intros Ho Hn buf. assert (take 8 buf = le_bytes 8 offset) as -> by (subst buf; apply take_app_length'; by rewrite length_le_bytes).
  assert (drop 8 buf = le_bytes 4 (Z.of_nat (length name)) ++ replicate 4 0 ++ name ++ rest) as E8 by (subst buf; apply drop_app_length'; by rewrite length_le_bytes).
  assert (drop 16 buf = name ++ rest) as ->. { change 16%nat with (8 + (4 + 4))%nat. rewrite <-drop_drop, E8, drop_app_add' by (by rewrite length_le_bytes). apply drop_app_length'. done. }
  rewrite E8. rewrite (take_app_length' (le_bytes 4 _)) by (by rewrite length_le_bytes). rewrite take_app_length. split_and!; [by apply of_le_le_bytes_small| |done|].
  - apply of_le_le_bytes_small. unfold in_width. cbn. lia.
  - subst buf. unfold request_bytes. rewrite !length_app, !length_le_bytes, length_replicate. lia.
Qed.
Lemma serve_chunk slot size h name contents offset rest :
  channel slot size h → buffer_of slot (h_vm h) = request_bytes offset name rest → lossy name = name → 0 ≤ offset < 2 ^ 63 → Z.of_nat (length name) < 2 ^ 32 →
  serves (h_server h) name contents →
  let chunk := take (size - 16) (drop (Z.to_nat offset) contents) in
  ∃ h' tail, serve lossy mmap_ok host_file h = (Ok (length chunk), h') ∧ channel slot size h' ∧
    buffer_of slot (h_vm h') = le_bytes 8 (Z.of_nat (length chunk)) ++ replicate 8 0 ++ chunk ++ tail ∧
    ∀ n c, serves (h_server h) n c → serves (h_server h') n c.
Proof.
  intros [Hrd Hsl Hmap Hreads] Hbuf Hlossy Ho Hn (e & He & Hc) chunk. destruct (open_ready mmap_ok _ _ _ _ Hrd Hmap) as (v' & Eo & Es & Hrd').
  assert (length (buffer_of slot (h_vm h)) = size) as Hlen by (by eapply ready_length). destruct (request_parts offset name rest ltac:(unfold in_width; lia) Hn) as (P1 & P2 & P3 & P4). rewrite <-Hbuf in P1, P2, P3, P4. rewrite Hlen in P4.
  unfold serve. assert (resolve_slot FILE_XFER_BUFFER_ID (fs_slot (h_server h)) (h_vm h) = Ok slot) as ->.
  { unfold resolve_slot. destruct (fs_slot (h_server h)) as [s|]; [by rewrite (Hsl s)|]. pose proof (rd_first _ _ _ _ Hrd) as Hf. destruct (feedback_buffer_slots_for_id _ _); [done|]. cbn in Hf. by injection Hf as ->. }
  rewrite Eo. unfold HEADER_LEN. rewrite Hlen, P1, P2, Nat2Z.id, P3, Hlossy. rewrite !(proj2 (Nat.ltb_ge _ _)) by lia. cbn [fs_files]. rewrite He.
  assert (match fe_handle e with Some f => Some f | None => host_file (fe_path e) end = Some contents) as -> by (destruct (fe_handle e); congruence).
  rewrite (proj2 (Z.leb_gt _ _)) by lia. destruct (read_up_to_spec (h_reads h) (drop (Z.to_nat offset) contents) (size - 16) Hreads) as (reads' & -> & Hr'). fold chunk.
  assert (length chunk ≤ size - 16)%nat as Hcl by (subst chunk; rewrite length_take; lia). destruct (cut3 16 (length chunk) (buffer_of slot (h_vm h)) ltac:(lia)) as (a & b & r & Eb & Ha & Hb & _).
  rewrite Eb. rewrite (splice_app 16) by done. rewrite write_result_eq by done. eexists _, r. split; [reflexivity|]. cbn [h_vm h_server]. assert (length (le_bytes 8 (Z.of_nat (length chunk)) ++ replicate 8 0 ++ chunk ++ r) = size) as Hnl.
  { rewrite <-Hlen, Eb, !length_app, length_le_bytes, length_replicate, Ha, Hb. lia. }
  split; [|split; [by eapply buffer_of_set|]].
  - constructor; cbn; [by apply set_buffer_ready|by intros s [= <-]|done|done].
  - intros n c (e' & He' & Hc'). unfold serves. cbn [fs_files]. destruct (decide (name = n)) as [->|Hne]; [|exists e'; by rewrite lookup_insert_ne].
    rewrite lookup_insert_eq. eexists. split; [done|]. cbn. assert (e' = e) as -> by congruence. destruct (fe_handle e); congruence.
Qed.
(** One piece of the file: the guest frames, the host answers. *)
Lemma exchange slot size h name contents offset :
  channel slot size h → lossy name = name → (16 + length name ≤ size)%nat → 0 ≤ offset < 2 ^ 63 → Z.of_nat (length name) < 2 ^ 32 → serves (h_server h) name contents →
  let v := h_vm h in let chunk := take (size - 16) (drop (Z.to_nat offset) contents) in
  ∃ h' tail, vmcall_file_fetch lossy mmap_ok host_file (mkHost (h_server h) (set_buffer slot (frame_fetch offset name (buffer_of slot v)) v) (h_reads h)) = h' ∧ channel slot size h' ∧
    buffer_of slot (h_vm h') = le_bytes 8 (Z.of_nat (length chunk)) ++ replicate 8 0 ++ chunk ++ tail ∧
    ∀ n c, serves (h_server h) n c → serves (h_server h') n c.
Proof.
  intros Hch Hlossy Hsz Ho Hn Hs v chunk. destruct Hch as [Hrd Hsl Hmap Hreads]. pose proof (ready_length _ _ _ _ Hrd) as Hlen. set (h1 := mkHost _ _ _).
  assert (frame_fetch offset name (buffer_of slot v) = request_bytes offset name (drop (16 + length name) (buffer_of slot v))) as Ef by (apply frame_fetch_eq; subst v; lia).
  assert (buffer_of slot (h_vm h1) = request_bytes offset name (drop (16 + length name) (buffer_of slot v))) as Eb by (rewrite <-Ef; by eapply buffer_of_set).
  destruct (serve_chunk slot size h1 name contents offset (drop (16 + length name) (buffer_of slot v))) as (h' & tail & E & H1 & H2 & H3); [|done..|].
  - constructor; [|done..]. apply set_buffer_ready; [done|]. rewrite Ef. unfold request_bytes. rewrite !length_app, !length_le_bytes, length_replicate, length_drop. subst v. lia.
  - exists h', tail. unfold vmcall_file_fetch. by rewrite E.
Qed.
Lemma fetch_loop_spec fuel slot size name path contents offset h g :
  lossy name = name → (16 + length name ≤ size)%nat → (0 < length name)%nat → Z.of_nat (length name) < 2 ^ 32 → Z.of_nat (length contents) < 2 ^ 63 → Z.of_nat size < 2 ^ 63 →
  channel slot size h → serves (h_server h) name contents → 0 ≤ offset ≤ Z.of_nat (length contents) →
  g_files g !! path = Some (take (Z.to_nat offset) contents) → no_failure (g_writes g) → (length contents - Z.to_nat offset + (size - 16) ≤ fuel * (size - 16))%nat →
  ∃ h' g', fetch_loop lossy mmap_ok host_file fuel slot (size - 16) name path offset h g = (Some true, h', g') ∧ channel slot size h' ∧ (∀ n c, serves (h_server h) n c → serves (h_server h') n c) ∧
    g_files g' = <[path := contents]> (g_files g) ∧ no_failure (g_writes g').
Proof.
  intros Hlossy Hsz Hpos Hn Hlc Hls. revert offset h g. induction fuel as [|fuel IH]; intros offset h g Hch Hs Ho Hg Hw Hfuel; [lia|]. cbn [fetch_loop].
  destruct (exchange slot size h name contents offset Hch Hlossy Hsz ltac:(lia) Hn Hs) as (h' & tail & -> & Hch' & Hbuf & Hs').
  set (chunk := take (size - 16) (drop (Z.to_nat offset) contents)) in *. assert (length chunk = Nat.min (size - 16) (length contents - Z.to_nat offset)) as Hcl by (subst chunk; by rewrite length_take, length_drop).
  assert (take 8 (buffer_of slot (h_vm h')) = le_bytes 8 (Z.of_nat (length chunk))) as -> by (rewrite Hbuf; apply take_app_length'; by rewrite length_le_bytes).
  rewrite of_le_le_bytes_small by (unfold in_width; lia). unfold bits_i64. rewrite (proj2 (Z.ltb_lt (Z.of_nat (length chunk)) (2 ^ 63))) by lia. rewrite (proj2 (Z.ltb_ge (Z.of_nat (length chunk)) 0)) by lia.
  destruct (Z.eqb_spec (Z.of_nat (length chunk)) 0) as [E0|E0].
  - exists h', g. split_and!; [done|done|done| |done]. rewrite take_ge in Hg by lia. by rewrite insert_id.
  - rewrite (proj2 (Z.ltb_ge _ _)) by lia. rewrite Nat2Z.id. assert (take (length chunk) (drop 16 (buffer_of slot (h_vm h'))) = chunk) as ->.
    { rewrite Hbuf, app_assoc, drop_app_length' by (by rewrite length_app, length_le_bytes). apply take_app_length. }
    destruct (write_loop_spec (g_writes g) chunk Hw) as (writes & -> & Hw'). assert (u64 (offset + Z.of_nat (length chunk)) = offset + Z.of_nat (length chunk)) as -> by (apply wrap_small; unfold in_width; lia).
    destruct (IH (offset + Z.of_nat (length chunk)) h' (mkGuest (alter (λ f, f ++ chunk) path (g_files g)) writes) Hch' (Hs' _ _ Hs) ltac:(lia)) as (h2 & g2 & E & H1 & H2 & H3 & H4).
    + cbn. rewrite lookup_alter_eq, Hg. cbn. f_equal. rewrite Z2Nat.inj_add, Nat2Z.id by lia. rewrite <-take_take_drop. f_equal. subst chunk. by rewrite take_own.
    + done.
    + rewrite Z2Nat.inj_add, Nat2Z.id by lia. assert (∀ l o n cap f : nat, l - o + cap ≤ S f * cap → n = Nat.min cap (l - o) → n ≠ 0 → l - (o + n) + cap ≤ f * cap)%nat as Ha.
      { clear. intros l o n cap f. destruct f as [|f]; cbn; [lia|]. generalize (f * cap)%nat. lia. }
      apply Ha; [done|done|lia].
    + exists h2, g2. split_and!; [done|done|by auto| |done]. rewrite H3. cbn. apply map_eq. intros i. destruct (decide (i = path)) as [->|Hi]; [by rewrite !lookup_insert_eq|by rewrite !lookup_insert_ne, lookup_alter_ne by done].
Qed.
(** What one fetch needs. *)
Record fetchable (fuel size : nat) (server : FileServer) (name path contents : list Z) : Prop := {
  fc_text : lossy name = name;
  fc_name : (0 < length name)%nat ∧ (16 + length name ≤ size)%nat ∧ Z.of_nat (length name) < 2 ^ 32;
  fc_create : can_create path = true;
  fc_served : serves server name contents;
  fc_length : Z.of_nat (length contents) < 2 ^ 63;
  fc_fuel : (length contents + (size - 16) ≤ fuel * (size - 16))%nat
}.
Lemma fetch_one_spec fuel slot size name path contents h g :
  channel slot size h → Z.of_nat size < 2 ^ 63 → fetchable fuel size (h_server h) name path contents → no_failure (g_writes g) →
  ∃ h' g', fetch_one lossy mmap_ok host_file can_create fuel slot name path h g = (Some true, h', g') ∧ channel slot size h' ∧ (∀ n c, serves (h_server h) n c → serves (h_server h') n c) ∧
    g_files g' = <[path := contents]> (g_files g) ∧ no_failure (g_writes g').
Proof.
  intros Hch Hls [Ht (N1 & N2 & N3) Hc Hs Hl Hf] Hw. unfold fetch_one, HEADER_LEN. rewrite (ready_length _ _ _ _ (ch_ready _ _ _ Hch)). rewrite (proj2 (Nat.eqb_neq _ _)), (proj2 (Nat.ltb_ge _ _)), Hc by lia. cbn [orb negb].
  destruct (fetch_loop_spec fuel slot size name path contents 0 h (mkGuest (<[path := []]> (g_files g)) (g_writes g))) as (h' & g' & E & H1 & H2 & H3 & H4); try done; [lia|by cbn; rewrite lookup_insert_eq|cbn; lia|].
  exists h', g'. split_and!; try done. rewrite H3. cbn. apply insert_insert_eq.
Qed.
Lemma fetch_all_spec fuel slot size content files h g :
  Z.of_nat size < 2 ^ 63 → channel slot size h → Forall (λ '(name, path), fetchable fuel size (h_server h) name path (content name)) files → no_failure (g_writes g) → NoDup files.*2 →
  ∃ h' g', fetch_all lossy mmap_ok host_file can_create fuel slot files h g = (Some true, h', g') ∧ (∀ name path, (name, path) ∈ files → g_files g' !! path = Some (content name)) ∧
    ∀ path, path ∉ files.*2 → g_files g' !! path = g_files g !! path.
Proof.
  intros Hls. revert h g. induction files as [|[name path] files IH]; intros h g Hch Hall Hw Hnd; cbn [fetch_all].
  - exists h, g. split_and!; [done|set_solver|done].
  - apply Forall_cons in Hall as [Hf Hall]. cbn in Hnd. apply NoDup_cons in Hnd as [Hn Hnd]. destruct (fetch_one_spec fuel slot size name path _ h g Hch Hls Hf Hw) as (h1 & g1 & -> & Hch1 & Hs1 & Hg1 & Hw1).
    destruct (IH h1 g1 Hch1) as (h' & g' & E & H1 & H2); [|done|done|].
    { eapply Forall_impl; [exact Hall|]. intros [n q] []. by constructor; auto. }
    exists h', g'. split; [done|]. split.
    + intros n q [[= -> ->]|Hin]%elem_of_cons; [|by apply H1]. rewrite H2, Hg1 by done. by rewrite lookup_insert_eq.
    + intros q Hq. cbn in Hq. rewrite H2, Hg1 by set_solver. rewrite lookup_insert_ne; [done|set_solver].
Qed.
End Fetch.

(** ** Storing *)
Section Keep.
Context (lossy : list Z → list Z) (mmap_ok : nat → bool) (can_open : list Z → bool).
Record outlet (slot size : nat) (k : sink) : Prop := {
  ol_ready : ready FILE_STORE_BUFFER_ID slot size (k_vm k);
  ol_slot : ∀ s, fw_slot (k_writer k) = Some s → s = slot;
  ol_map : mmap_ok slot = true;
  ol_writes : no_failure (k_writes k)
}.
(** The host's file as the next write finds it: open, and at its end; or to be emptied. *)
Definition kept_so_far (k : sink) (name : list Z) : list Z := match fw_handles (k_writer k) !! name with Some _ => default [] (k_files k !! name) | None => [] end.
Definition at_end (k : sink) (name : list Z) : Prop := ∀ pos, fw_handles (k_writer k) !! name = Some pos → ∃ f, k_files k !! name = Some f ∧ pos = length f.
Lemma store_parts name chunk reserved rest : length reserved = 8%nat → Z.of_nat (length name) < 2 ^ 32 → Z.of_nat (length chunk) < 2 ^ 32 → let buf := store_bytes name chunk reserved rest in
  of_le (take 4 buf) = Z.of_nat (length name) ∧ of_le (take 4 (drop 4 buf)) = Z.of_nat (length chunk) ∧ take (length name) (drop 16 buf) = name ∧
  take (length chunk) (drop (16 + length name) buf) = chunk ∧ length buf = (16 + length name + length chunk + length rest)%nat.
Proof.
  intros Hr Hn Hc buf. assert (take 4 buf = le_bytes 4 (Z.of_nat (length name))) as -> by (subst buf; apply take_app_length'; by rewrite length_le_bytes).
  assert (drop 4 buf = le_bytes 4 (Z.of_nat (length chunk)) ++ reserved ++ name ++ chunk ++ rest) as E4 by (subst buf; apply drop_app_length'; by rewrite length_le_bytes).
  assert (drop 16 buf = name ++ chunk ++ rest) as E16. { change 16%nat with (4 + (4 + 8))%nat. rewrite <-drop_drop, E4, drop_app_add' by (by rewrite length_le_bytes). by apply drop_app_length'. }
  rewrite <-drop_drop, E16, E4. rewrite (take_app_length' (le_bytes 4 _)) by (by rewrite length_le_bytes). rewrite drop_app_length, !take_app_length. split_and!; [| |done|done|].
  - apply of_le_le_bytes_small. unfold in_width. cbn. lia.
  - apply of_le_le_bytes_small. unfold in_width. cbn. lia.
  - subst buf. unfold store_bytes. rewrite !length_app, !length_le_bytes. lia.
Qed.
Lemma splice_end (f bs : list Z) : splice (length f) bs f = f ++ bs.
Proof. unfold splice. rewrite take_ge by done. by rewrite drop_ge, app_nil_r by lia. Qed.
Lemma write_chunk slot size k name chunk reserved rest :
  outlet slot size k → buffer_of slot (k_vm k) = store_bytes name chunk reserved rest → length reserved = 8%nat → lossy name = name → can_open name = true →
  Z.of_nat (length name) < 2 ^ 32 → Z.of_nat (length chunk) < 2 ^ 32 → at_end k name →
  ∃ k' tail, write lossy mmap_ok can_open k = (Ok (length chunk), k') ∧ outlet slot size k' ∧ buffer_of slot (k_vm k') = le_bytes 8 (Z.of_nat (length chunk)) ++ tail ∧
    k_files k' = <[name := kept_so_far k name ++ chunk]> (k_files k) ∧ fw_handles (k_writer k') = <[name := length (kept_so_far k name ++ chunk)]> (fw_handles (k_writer k)).
Proof.
  intros [Hrd Hsl Hmap Hw] Hbuf Hres Hlossy Hop Hn Hc Hend. destruct (open_ready mmap_ok _ _ _ _ Hrd Hmap) as (v' & Eo & Es & Hrd').
  assert (length (buffer_of slot (k_vm k)) = size) as Hlen by (by eapply ready_length). destruct (store_parts name chunk reserved rest Hres Hn Hc) as (P1 & P2 & P3 & P4 & P5). rewrite <-Hbuf in P1, P2, P3, P4, P5. rewrite Hlen in P5.
  unfold write. assert (resolve_slot FILE_STORE_BUFFER_ID (fw_slot (k_writer k)) (k_vm k) = Ok slot) as ->.
  { unfold resolve_slot. destruct (fw_slot (k_writer k)) as [s|]; [by rewrite (Hsl s)|]. pose proof (rd_first _ _ _ _ Hrd) as Hf. destruct (feedback_buffer_slots_for_id _ _); [done|]. cbn in Hf. by injection Hf as ->. }
  rewrite Eo. unfold HEADER_LEN. rewrite Hlen, P1, P2, !Nat2Z.id, P3, P4, Hlossy. rewrite !(proj2 (Nat.ltb_ge _ _)) by lia. cbn [fw_handles].
  set (x := match fw_handles (k_writer k) !! name with Some pos => Some (pos, k_files k) | None => _ end).
  assert (∃ pos files, x = Some (pos, files) ∧ alter (splice pos chunk) name files = <[name := kept_so_far k name ++ chunk]> (k_files k) ∧ pos = length (kept_so_far k name)) as (pos & files & -> & Hfiles & Hpos).
  { subst x. unfold kept_so_far, at_end in *. destruct (fw_handles (k_writer k) !! name) as [pos|] eqn:Eh.
    - destruct (Hend pos eq_refl) as (f & Hf & ->). eexists _, _. split; [done|]. rewrite Hf. cbn. split; [|done]. apply map_eq. intros i.
      destruct (decide (i = name)) as [->|?]; [by rewrite lookup_alter_eq, lookup_insert_eq, Hf; cbn; rewrite splice_end|by rewrite lookup_alter_ne, lookup_insert_ne].
    - rewrite Hop. eexists _, _. split; [done|]. split; [|done]. apply map_eq. intros i. destruct (decide (i = name)) as [->|?]; [rewrite lookup_alter_eq, !lookup_insert_eq; cbn; f_equal; apply (splice_end [])|by rewrite lookup_alter_ne, !lookup_insert_ne]. }
  destruct (write_loop_spec (k_writes k) chunk Hw) as (writes & -> & Hw'). destruct (cut3 16 0 (buffer_of slot (k_vm k)) ltac:(lia)) as (a & b & r & Eb & Ha & Hb & _). apply nil_length_inv in Hb as ->. rewrite app_nil_l in Eb.
  assert (write_result (buffer_of slot (k_vm k)) (Z.of_nat (length chunk)) = le_bytes 8 (Z.of_nat (length chunk)) ++ replicate 8 0 ++ r) as -> by (rewrite Eb; by apply write_result_eq).
  eexists _, (replicate 8 0 ++ r). split; [reflexivity|]. cbn [k_vm k_writer k_files fw_handles]. split; [|split; [by eapply buffer_of_set|]].
  - constructor; cbn [k_vm k_writer k_files k_writes fw_slot]; [|by intros s [= <-]|done|done]. apply set_buffer_ready; [done|]. rewrite !length_app, length_le_bytes, length_replicate. rewrite Eb, length_app in Hlen. lia.
  - split; [done|]. by rewrite Hpos, length_app.
Qed.
(** The guest's whole file arrives, after what the host's file has. *)
Lemma store_loop_spec fuel slot size name contents reads k :
  lossy name = name → can_open name = true → (16 + length name < size)%nat → (0 < length name)%nat → Z.of_nat size < 2 ^ 32 →
  outlet slot size k → at_end k name → no_failure reads → (length contents + length reads < fuel)%nat →
  ∃ k', store_loop lossy mmap_ok can_open fuel slot (size - 16 - length name) name contents reads k = (Some true, k') ∧ outlet slot size k' ∧ at_end k' name ∧
    k_files k' = (if bool_decide (contents = []) then k_files k else <[name := kept_so_far k name ++ contents]> (k_files k)).
Proof.
  intros Hlossy Hop Hsz Hpos Hls. revert contents reads k. induction fuel as [|fuel IH]; intros contents reads k Hol Hend Hr Hfuel; [lia|]. cbn [store_loop].
  assert (∀ chunk rest reads', contents = chunk ++ rest → chunk ≠ [] → (length chunk ≤ size - 16 - length name)%nat → no_failure reads' → (length reads' ≤ length reads)%nat →
    ∃ k', (let v := k_vm k in
        let k := vmcall_file_store lossy mmap_ok can_open (mkSink (k_writer k) (set_buffer slot (frame_store name chunk (buffer_of slot v)) v) (k_files k) (k_writes k)) in
        let result := bits_i64 (of_le (take 8 (buffer_of slot (k_vm k)))) in
        if result <? 0 then (Some false, k) else store_loop lossy mmap_ok can_open fuel slot (size - 16 - length name) name rest reads' k) = (Some true, k') ∧ outlet slot size k' ∧ at_end k' name ∧
      k_files k' = <[name := kept_so_far k name ++ contents]> (k_files k)) as Hsend.
  { clear Hr. intros chunk rest reads' -> Hne Hcl Hr' Hrl. cbv zeta. pose proof (ready_length _ _ _ _ (ol_ready _ _ _ Hol)) as Hlen.
    destruct (frame_store_eq name chunk (buffer_of slot (k_vm k)) ltac:(lia)) as (reserved & Hres & Ef). set (k1 := mkSink _ _ _ _).
    assert (buffer_of slot (k_vm k1) = store_bytes name chunk reserved (drop (16 + length name + length chunk) (buffer_of slot (k_vm k)))) as Eb by (rewrite <-Ef; eapply buffer_of_set, Hol).
    destruct (write_chunk slot size k1 name chunk reserved (drop (16 + length name + length chunk) (buffer_of slot (k_vm k)))) as (k' & tail & E & Hol' & Hbuf & Hfiles & Hh); [|done|done|done|done|lia|lia|done|].
    { destruct Hol as [H1 H2 H3 H4]. constructor; [|done..]. apply set_buffer_ready; [done|]. rewrite Ef. unfold store_bytes. rewrite !length_app, !length_le_bytes, length_drop. lia. }
    unfold vmcall_file_store. rewrite E. cbn [snd]. change (kept_so_far k1 name) with (kept_so_far k name) in *. change (k_files k1) with (k_files k) in *.
    assert (take 8 (buffer_of slot (k_vm k')) = le_bytes 8 (Z.of_nat (length chunk))) as -> by (rewrite Hbuf; apply take_app_length'; by rewrite length_le_bytes).
    rewrite of_le_le_bytes_small by (unfold in_width; lia). unfold bits_i64. rewrite (proj2 (Z.ltb_lt (Z.of_nat (length chunk)) (2 ^ 63))) by lia. rewrite (proj2 (Z.ltb_ge (Z.of_nat (length chunk)) 0)) by lia.
    assert (kept_so_far k' name = kept_so_far k name ++ chunk) as Ek by (unfold kept_so_far at 1; by rewrite Hh, Hfiles, !lookup_insert_eq).
    rewrite length_app in Hfuel. assert (0 < length chunk)%nat by (destruct chunk; [done|cbn; lia]). destruct (IH rest reads' k' Hol') as (k2 & E2 & H1 & H2 & H3); [|done|lia|].
    { intros pos. rewrite Hh, Hfiles, !lookup_insert_eq. intros [= <-]. by eexists. }
    exists k2. split; [done|]. split; [done|]. split; [done|]. rewrite H3. case_bool_decide as Er; [subst rest; by rewrite app_nil_r|]. by rewrite Ek, <-app_assoc, Hfiles, insert_insert_eq. }
  assert (∀ n, n ≠ 0%nat → (n ≤ size - 16 - length name)%nat → take n contents = [] → contents = []) as Hnil by (intros [|n] ?; [done|]; by destruct contents).
  destruct reads as [|[n| |] reads].
  - destruct (take (size - 16 - length name) contents) as [|x chunk] eqn:Et.
    + apply Hnil in Et as ->; [|lia..]. exists k. by rewrite bool_decide_true.
    + rewrite bool_decide_false by (intros ->; by rewrite take_nil in Et). apply Hsend; [by rewrite <-Et, take_own_drop|done|rewrite <-Et, length_take; lia|done|done].
  - pose proof (no_failure_tail _ _ Hr) as Hr'. destruct (take (Nat.min (S n) (size - 16 - length name)) contents) as [|x chunk] eqn:Et.
    + apply Hnil in Et as ->; [|lia..]. exists k. by rewrite bool_decide_true.
    + rewrite bool_decide_false by (intros ->; by rewrite take_nil in Et). apply Hsend; [by rewrite <-Et, take_own_drop|done|rewrite <-Et, length_take; lia|done|cbn; lia].
  - apply IH; [done|done|by eapply no_failure_tail|cbn in Hfuel; lia].
  - by destruct Hr; left.
Qed.
End Keep.

(** * Theorems *)
Section Theorems.
Context (lossy : list Z → list Z) (mmap_ok : nat → bool).

(** C31: Fetching files is complete, if the server has served nothing yet, the first buffer registered under the id is the mapped one, no read of the host and no write of the guest fails,
    and every file asked for is served, can be created and has a name that fits: the guest's program ends, in success, and each file it was asked for has exactly the bytes of the host's file, however the reads of
    the host and the writes of the guest are cut short or interrupted; no other file of the guest changes.  The number of pieces is one more than the buffer's capacity
    needs.  (The guest does not see a failure of the host, and takes what is in the buffer for the file: [fetch_failure_corrupts].) *)
Theorem files_fetched host_file can_create fuel slot size served wanted content v reads g :
  ready FILE_XFER_BUFFER_ID slot size v → mmap_ok slot = true → Z.of_nat size < 2 ^ 63 → no_failure reads → no_failure (g_writes g) → NoDup served.*1 → NoDup wanted.*2 →
  (∀ name path, (name, path) ∈ wanted → ∃ host_path, (name, host_path) ∈ served ∧ host_file host_path = Some (content name) ∧ lossy name = name ∧ can_create path = true ∧
    (0 < length name)%nat ∧ (16 + length name ≤ size)%nat ∧ Z.of_nat (length name) < 2 ^ 32 ∧
    Z.of_nat (length (content name)) < 2 ^ 63 ∧ (length (content name) + (size - 16) ≤ fuel * (size - 16))%nat) →
  ∃ h' g', fetch_all lossy mmap_ok host_file can_create fuel slot wanted (mkHost (server_new served) v reads) g = (Some true, h', g') ∧
    (∀ name path, (name, path) ∈ wanted → g_files g' !! path = Some (content name)) ∧ ∀ path, path ∉ wanted.*2 → g_files g' !! path = g_files g !! path.
Proof.
  intros Hrd Hmap Hls Hr Hw Hnd Hnd' Hall. eapply fetch_all_spec; [exact Hls| | |done|done]; [by constructor|].
  apply Forall_forall. intros [name path] Hin. destruct (Hall name path Hin) as (hp & Hsv & Hf & Ht & Hc & N1 & N2 & N3 & Hl & Hfuel). constructor; [done|done|done| |done|done].
  exists (mkEntry hp None). split; [|done]. cbn. apply elem_of_list_to_map_1.
  - rewrite <-list_fmap_compose. replace (_ <$> reverse served) with (reverse served.*1); [by rewrite reverse_Permutation|]. rewrite fmap_reverse. f_equal. apply list_fmap_ext. by intros ? [] ?.
  - apply list_elem_of_fmap. exists (name, hp). split; [done|]. by apply elem_of_reverse.
Qed.

(** Storing a file is complete: the guest's program ends, in success, and the host's file is what it was when it is open from an earlier transfer, or empty, followed by exactly the
    bytes of the guest's file, however the reads and writes of the pieces are cut; no other file of the host changes. *)
Theorem file_stored can_open fuel slot size contents name reads k :
  outlet mmap_ok slot size k → lossy name = name → can_open name = true → (0 < length name)%nat → (16 + length name < size)%nat → Z.of_nat size < 2 ^ 32 → at_end k name → no_failure reads →
  contents ≠ [] → (length contents + length reads < fuel)%nat →
  ∃ k', send_chunk lossy mmap_ok can_open fuel slot (Some contents) name reads k = (Some true, k') ∧ k_files k' = <[name := kept_so_far k name ++ contents]> (k_files k) ∧
    outlet mmap_ok slot size k' ∧ at_end k' name.
Proof.
  intros Hol Ht Hop Hpos Hsz Hls Hend Hr Hne Hfuel. unfold send_chunk. rewrite (ready_length _ _ _ _ (ol_ready _ _ _ _ Hol)), (proj2 (Nat.eqb_neq _ _)) by lia.
  replace (Z.to_nat (u64 (Z.of_nat size - 16 - Z.of_nat (length name)))) with (size - 16 - length name)%nat by (unfold u64; rewrite wrap_small by (unfold in_width; lia); lia).
  destruct (store_loop_spec lossy mmap_ok can_open fuel slot size name contents reads k) as (k' & E & H1 & H2 & H3); [done..|]. rewrite bool_decide_false in H3 by done. exists k'. done.
Qed.
End Theorems.

(** ** Examples *)
Definition demo_slot (id : list Z) (size : nat) : Slot := mkSlot id (replicate size 0).
Definition demo_vm (id : list Z) : FeedbackVm := mkVm [demo_slot [1] 8; demo_slot id 32] [].
Definition demo_host (reads : list io_event) : host := mkHost (server_new [([7; 8], [9])]) (demo_vm FILE_XFER_BUFFER_ID) reads.
Definition demo_content : list Z := seqZ 10 20.
Definition demo_fetch (reads : list io_event) : option bool * option (list Z) :=
  let '(r, _, g) := fetch_one id (λ _, true) (λ _, Some demo_content) (λ _, true) 9 1 [7; 8] [5] (demo_host reads) (mkGuest ∅ []) in (r, g_files g !! [5]).
Lemma demo_ready id : id ≠ [1] → ready id 1 32 (demo_vm id).
Proof.
  intros Hid. constructor; [by exists (demo_slot id 32)| |done]. unfold feedback_buffer_slots_for_id, demo_vm. cbn. rewrite bool_decide_false by done. by rewrite bool_decide_true.
Qed.
Lemma files_fetched_witness : ∃ h' g', fetch_all id (λ _, true) (λ _, Some demo_content) (λ _, true) 3 1 [([7; 8], [5])] (demo_host [Short 3; Interrupted]) (mkGuest ∅ [Short 0]) = (Some true, h', g') ∧
  g_files g' !! [5] = Some demo_content.
Proof.
  destruct (files_fetched id (λ _, true) (λ _, Some demo_content) (λ _, true) 3 1 32 [([7; 8], [9])] [([7; 8], [5])] (λ _, demo_content) (demo_vm FILE_XFER_BUFFER_ID) [Short 3; Interrupted] (mkGuest ∅ [Short 0])) as (h' & g' & E & H & _).
  - apply demo_ready. discriminate.
  - reflexivity.
  - reflexivity.
  - unfold no_failure. set_solver.
  - unfold no_failure. cbn. set_solver.
  - apply NoDup_singleton.
  - apply NoDup_singleton.
  - intros name path [= -> ->]%list_elem_of_singleton. exists [9]. split; [by apply list_elem_of_singleton|]. split_and!; try reflexivity; apply Nat.leb_le; vm_compute; reflexivity.
  - exists h', g'. split; [exact E|]. apply (H [7; 8] [5]). by apply list_elem_of_singleton.
Defined.
Definition demo_sink : sink := mkSink writer_new (demo_vm FILE_STORE_BUFFER_ID) ∅ [Short 2].
Lemma file_stored_witness : ∃ k', send_chunk id (λ _, true) (λ _, true) 25 1 (Some demo_content) [7; 8] [Short 4; Interrupted] demo_sink = (Some true, k') ∧ k_files k' = {[ [7; 8] := demo_content ]}.
Proof.
  destruct (file_stored id (λ _, true) (λ _, true) 25 1 32 demo_content [7; 8] [Short 4; Interrupted] demo_sink) as (k' & E & H & _).
  - constructor; [apply demo_ready; discriminate|discriminate|reflexivity|unfold no_failure; cbn; set_solver].
  - reflexivity.
  - reflexivity.
  - apply Nat.leb_le. reflexivity.
  - apply Nat.leb_le. reflexivity.
  - reflexivity.
  - intros pos. discriminate.
  - unfold no_failure. set_solver.
  - discriminate.
  - apply Nat.leb_le. vm_compute. reflexivity.
  - exists k'. split; [exact E|]. rewrite H. reflexivity.
Defined.

(** *** A failure of the host is not seen by the guest *)
(** The host cannot read: the guest takes the offset of its own request, 0, for the end of the file. *)
Theorem fetch_failure_unseen : demo_fetch [Failed] = (Some true, Some []).
Proof. vm_compute. reflexivity. Qed.
(** The same for the second piece: its offset is taken for a number of bytes, and the buffer as it is goes into the file. *)
Theorem fetch_failure_corrupts : ∃ f, demo_fetch [Short 99; Failed] = (Some true, Some f) ∧ length f = 32%nat ∧ take 16 f = take 16 demo_content ∧ take 2 (drop 16 f) = [7; 8].
Proof. eexists. split; [vm_compute; reflexivity|]. split_and!; vm_compute; reflexivity. Qed.
(** The host cannot open the file to write: the guest takes its own lengths for a number of bytes. *)
Theorem store_failure_unseen : ∃ k', send_chunk id (λ _, true) (λ _, false) 25 1 (Some demo_content) [7; 8] [] demo_sink = (Some true, k') ∧ k_files k' = ∅.
Proof. eexists. split; [vm_compute; reflexivity|]. reflexivity. Qed.
(** An empty file of the guest is not stored, not even as an empty file. *)
Theorem empty_file_not_stored : send_chunk id (λ _, true) (λ _, true) 25 1 (Some []) [7; 8] [] demo_sink = (Some true, demo_sink).
Proof. vm_compute. reflexivity. Qed.
(** A second program in the guest registers its own buffer, but the host uses the first that has the identifier: success, and nothing is stored. *)
Theorem second_program_not_served :
  let two := mkVm [demo_slot FILE_STORE_BUFFER_ID 32; demo_slot FILE_STORE_BUFFER_ID 32] [] in
  (λ '(r, k), (r, k_files k !! [7; 8])) (send_chunk id (λ _, true) (λ _, true) 25 1 (Some demo_content) [7; 8] [] (mkSink writer_new two ∅ [])) = (Some true, None).
Proof. vm_compute. reflexivity. Qed.
(** Two files under one name of the host: the second follows the first. *)
Theorem same_name_appended : (λ '(r, k), (r, k_files k !! [7; 8]))
  (let k := (send_chunk id (λ _, true) (λ _, true) 25 1 (Some [1; 2; 3]) [7; 8] [] demo_sink).2 in send_chunk id (λ _, true) (λ _, true) 25 1 (Some [4; 5]) [7; 8] [] k) = (Some true, Some [1; 2; 3; 4; 5]).
Proof. vm_compute. reflexivity. Qed.
