(* ===== verification/Mmap.v ===== *)
(** * Mapping a VM's memory into a process (crate [bedrock]: [vm_file/root.rs],
    [vm_file/forked.rs], [helpers.c]; crate [bedrock-vm]: [vm/mod.rs])

    A process maps the guest's memory, the buffers the guest has registered, and the event
    buffer, by offsets of the VM's file; the two handlers of [mmap] decode the offset.
    For a fork, the pages of a registered buffer are copied first, so that the frames mapped are
    those the guest writes.  The kernel's [mmap], [remap_vmalloc_range] and
    [remap_pfn_range] are parameters.

    The theorems: an offset the library asks for leads to what it stands for; and
    what a process sees of a fork's buffer is what the guest has there, and where the page
    could be copied also after any number of faults. *)
From S2P Require Import Prelude Addr Ept VmMemory Wire EventLog Vcpu Relational.

(** ** Offsets *)
Definition FEEDBACK_BUFFER_SLOT_SIZE : Z := FEEDBACK_BUFFER_MAX_PAGES * PAGE_SIZE.
Definition EVENT_BUFFER_MMAP_OFFSET : Z := 2 ^ 46.
Definition MEM_EINVAL : Z := -22.
Record vma := mkVma { vma_start : Z; vma_end : Z; vma_pgoff : Z }.
(** What a mapping shows, page by page: frames. *)
Definition view_of := list Z.
(** The frames of the guest's memory, a [vmalloc] area. *)
Definition memory_area (memory : GuestMemory) : list Z := (λ i, default 0 (page_phys_addr memory (i * PAGE_SIZE))) <$> seqZ 0 (mem_size memory / PAGE_SIZE).

Section Kernel.
(** [remap_vmalloc_range area pgoff pages] and [remap_pfn_range frame]; an error is negative. *)
Context (remap_vmalloc_range : list Z → Z → Z → result view_of Z) (remap_pfn_range : Z → option Z).

(** [bedrock_remap_pages] *)
Fixpoint remap_loop (hpas : list Z) : result view_of Z :=
  match hpas with
  | [] => Ok []
  | hpa :: hpas =>
      let frame := Z.shiftl (Z.shiftr hpa 12) 12 in
      match remap_pfn_range frame with
      | Some err => Err err
      | None => match remap_loop hpas with Ok l => Ok (frame :: l) | Err e => Err e end
      end
  end.
Definition bedrock_remap_pages (v : vma) (hpas : list Z) : result view_of Z :=
  if negb (vma_end v - vma_start v =? Z.of_nat (length hpas) * PAGE_SIZE) then Err MEM_EINVAL else remap_loop hpas.

Definition buffer_gpas (fb : FeedbackBufferInfo) : list Z := take (Z.to_nat (fb_num_pages fb)) (fb_gpas fb).
(** The part the two handlers share: the event buffer. *)
Definition mmap_event (event_buffer : option (list Z)) (requested_size : Z) : result view_of Z :=
  if negb (requested_size =? EVENT_BUFFER_SIZE) then Err MEM_EINVAL
  else match event_buffer with None => Err MEM_EINVAL | Some area => remap_vmalloc_range area 0 (requested_size / PAGE_SIZE) end.
(** The frames of a buffer, in order; [None] where one is not found. *)
Definition bedrock_vm_mmap (memory : GuestMemory) (event_buffer : option (list Z)) (buffers : list FeedbackBufferInfo) (v : vma) : result view_of Z :=
  let requested_size := vma_end v - vma_start v in
  let offset_bytes := vma_pgoff v * 4096 in
  let guest_mem_size := mem_size memory in
  if offset_bytes =? EVENT_BUFFER_MMAP_OFFSET then mmap_event event_buffer requested_size
  else if guest_mem_size <=? offset_bytes then
    let relative_offset := offset_bytes - guest_mem_size in
    let buffer_index := relative_offset / FEEDBACK_BUFFER_SLOT_SIZE in
    if negb (relative_offset mod FEEDBACK_BUFFER_SLOT_SIZE =? 0) then Err MEM_EINVAL
    else match buffers !! Z.to_nat buffer_index with
         | None => Err MEM_EINVAL
         | Some fb =>
             if negb (requested_size =? fb_num_pages fb * 4096) then Err MEM_EINVAL
             else match mapM (page_phys_addr memory) (buffer_gpas fb) with
                  | None => Err MEM_EINVAL
                  | Some hpas => bedrock_remap_pages v hpas
                  end
         end
  else if offset_bytes <? guest_mem_size then
    if guest_mem_size <? offset_bytes + requested_size then Err MEM_EINVAL
    else remap_vmalloc_range (memory_area memory) (vma_pgoff v) (requested_size / PAGE_SIZE)
  else Err MEM_EINVAL.

Section Forked.
Context {A F E : Type} `{!FrameAllocator A F E} `{!CowAllocator A F E}.
(** A page of the VM's own, or of the parent chain by its address. *)
Definition resolve_gpa (f : forked F) (gpa : Z) : option Z :=
  match cow_get (fk_cow f) gpa with
  | Some page => Some page
  | None => match read_page (as_vm f) gpa with
            | None => None
            | Some phys => if phys =? 0 then None else Some phys
            end
  end.
Definition bedrock_forked_vm_mmap (event_buffer : option (list Z)) (buffers : list FeedbackBufferInfo) (v : vma) (s : forked F * world A) : outcome () (result view_of Z) * (forked F * world A) :=
  let requested_size := vma_end v - vma_start v in
  let offset_bytes := vma_pgoff v * 4096 in
  if offset_bytes =? EVENT_BUFFER_MMAP_OFFSET then (Done (mmap_event event_buffer requested_size), s)
  else if 0 <=? offset_bytes then
    let buffer_index := Z.to_nat (offset_bytes / FEEDBACK_BUFFER_SLOT_SIZE) in
    if negb (offset_bytes mod FEEDBACK_BUFFER_SLOT_SIZE =? 0) then (Done (Err MEM_EINVAL), s)
    else
      (cow_feedback_buffer_for_mapping (buffer_gpas <$> buffers !! buffer_index);;
       f ← gets fst;
       mret (match buffers !! buffer_index with
             | None => Err MEM_EINVAL
             | Some fb =>
                 if negb (requested_size =? fb_num_pages fb * 4096) then Err MEM_EINVAL
                 else match mapM (resolve_gpa f) (buffer_gpas fb) with
                      | None => Err MEM_EINVAL
                      | Some hpas => bedrock_remap_pages v hpas
                      end
             end)) s
  else (Done (Err MEM_EINVAL), s).
End Forked.
End Kernel.

(** ** The library's side *)
(** [feedback_buffer_mmap_offset_at] *)
Definition feedback_buffer_mmap_offset_at (forked : bool) (memory_size : Z) (index : nat) : Z :=
  (if forked then 0 else memory_size) + Z.of_nat index * FEEDBACK_BUFFER_SLOT_SIZE.
(** The lengths and offsets of the calls of [mmap]: [create_from_device], [map_feedback_buffer_at], [set_event_config]. *)
Inductive lib_mapping := MapMemory | MapFeedback (index : nat) (num_pages : Z) | MapEvents.
Definition lib_mmap (forked : bool) (memory_size : Z) (m : lib_mapping) : Z * Z :=
  match m with
  | MapMemory => (memory_size, 0)
  | MapFeedback index num_pages => (num_pages * 4096, feedback_buffer_mmap_offset_at forked memory_size index)
  | MapEvents => (EVENT_BUFFER_SIZE, EVENT_BUFFER_MMAP_OFFSET)
  end.

(** * Lemmas *)
(** The library's call as the kernel sees it. *)
Definition mapped_as (len off : Z) (v : vma) : Prop := vma_end v - vma_start v = len ∧ vma_pgoff v * 4096 = off.
Lemma slot_of_offset base index : 0 ≤ base → 
  (base + Z.of_nat index * FEEDBACK_BUFFER_SLOT_SIZE - base) mod FEEDBACK_BUFFER_SLOT_SIZE = 0 ∧
  Z.to_nat ((base + Z.of_nat index * FEEDBACK_BUFFER_SLOT_SIZE - base) / FEEDBACK_BUFFER_SLOT_SIZE) = index.
Proof.
  intros Hb. replace (base + Z.of_nat index * FEEDBACK_BUFFER_SLOT_SIZE - base) with (Z.of_nat index * FEEDBACK_BUFFER_SLOT_SIZE) by lia.
  rewrite Z.mod_mul, Z.div_mul by done. split; [done|lia].
Qed.
Lemma remap_loop_ok remap_pfn_range hpas : (∀ fr, remap_pfn_range fr = None) → Forall frame_aligned hpas → remap_loop remap_pfn_range hpas = Ok hpas.
Proof.
  intros Hr. induction 1 as [|h l Hh _ IH]; [done|]. cbn. rewrite Hr, IH. f_equal. f_equal. destruct Hh as [H1 H2]. rewrite Z.shiftl_mul_pow2, Z.shiftr_div_pow2 by lia. cbn in *. Z.div_mod_to_equations. lia.
Qed.

Section Coherent.
Context {A F E : Type} `{!FrameAllocator A F E} `{!FrameAllocatorSpec A F E} `{!CowAllocator A F E} `{!CowAllocatorSpec A F E}.
Implicit Types (f : forked F) (w : world A).
Definition page_ok f (g : Z) : Prop := 0 ≤ g < 2 ^ 48 ∧ page_align g = g ∧ is_Some (expected (as_vm f) g).
(** A page of its own stays one. *)
Definition owns_more f f' : Prop := fk_parent f' = fk_parent f ∧ (∀ g fr, cow_pages (fk_cow f) !! g = Some fr → cow_pages (fk_cow f') !! g = Some fr) ∧ ∀ g, page_ok f g → page_ok f' g.
Lemma owns_more_refl f : owns_more f f.
Proof. by split_and!. Qed.
Lemma owns_more_trans f1 f2 f3 : owns_more f1 f2 → owns_more f2 f3 → owns_more f1 f3.
Proof. intros (P1 & C1 & K1) (P2 & C2 & K2). split_and!; [congruence|auto|auto]. Qed.
Lemma owns_more_insert f f' g fr : fk_parent f' = fk_parent f → cow_pages (fk_cow f') = <[g := fr]> (cow_pages (fk_cow f)) → cow_pages (fk_cow f) !! g = None → is_mmio g = false → owns_more f f'.
Proof.
  intros Hp Hc Hn Hm. split_and!; [done| |].
  - intros x y Hx. rewrite Hc, lookup_insert_ne; [done|]. intros ->. congruence.
  - intros x (H1 & H2 & H3). split; [done|]. split; [done|]. unfold as_vm in *. rewrite Hp. cbn [expected] in *. rewrite H2 in *. destruct (is_mmio x) eqn:Hx; [done|]. unfold cow_get in *. rewrite Hc. rewrite !H2 in *.
    destruct (decide (x = g)) as [->|Hne]; [by rewrite lookup_insert_eq|by rewrite lookup_insert_ne].
Qed.
Definition cow_step (page_gpa : Z) : CM (A := A) (F := F) () :=
  present ← gets (λ s, cow_contains (fk_cow s.1) page_gpa);
  if present : bool then mret () else ignore_errors (cow_page page_gpa).
Lemma cow_step_spec g f w : vm_inv w (fk_ept f) (as_vm f) → page_ok f g →
  ∃ f' w', cow_step g (f, w) = (Done (), (f', w')) ∧ vm_inv w' (fk_ept f') (as_vm f') ∧ transparent f w f' w' ∧ owns_more f f'.
Proof.
  intros Hinv (G1 & G2 & G3). unfold cow_step, mbind, M_bind, gets. cbn [fst].
  destruct (cow_contains (fk_cow f) g) eqn:Ec; [exists f, w; split; [done|]; split; [done|]; split; [apply transparent_refl|apply owns_more_refl]|].
  assert (cow_pages (fk_cow f) !! g = None) as Hn. { apply eq_None_not_Some. intros Hs. rewrite <-G2 in Hs. apply cow_contains_spec in Hs. congruence. }
  pose proof (cow_page_spec f w g Hinv G1 G2 Hn G3) as Hp. unfold ignore_errors. destruct (cow_page g (f, w)) as [[[]|[]|] [f1 w1]]; cbn in Hp; [| |done].
  - destruct Hp as (Hi & Ht & (fr & Hc & _) & _). exists f1, w1. split; [done|]. split; [done|]. split; [done|]. apply (owns_more_insert f f1 g fr); [apply Ht|done|done|]. by eapply expected_no_mmio.
  - destruct Hp as (-> & Hi & Ht). exists f, w1. split; [done|]. split; [done|]. split; [done|apply owns_more_refl].
Qed.
Lemma cow_all_spec gpas f w : vm_inv w (fk_ept f) (as_vm f) → Forall (page_ok f) gpas →
  ∃ f' w', cow_feedback_buffer_for_mapping (Some gpas) (f, w) = (Done (), (f', w')) ∧ vm_inv w' (fk_ept f') (as_vm f') ∧ transparent f w f' w' ∧ owns_more f f'.
Proof.
  change (cow_feedback_buffer_for_mapping (Some gpas)) with (for_each gpas cow_step). revert f w.
  induction gpas as [|g gpas IH]; intros f w Hinv Hall; [exists f, w; split; [done|]; split; [done|]; split; [apply transparent_refl|apply owns_more_refl]|].
  apply Forall_cons in Hall as [Hg Hall]. destruct (cow_step_spec g f w Hinv Hg) as (f1 & w1 & E1 & Hi & Ht & Ho). cbn [for_each]. unfold mbind, M_bind. rewrite E1.
  destruct (IH f1 w1 Hi) as (f' & w' & E2 & H1 & H2 & H3); [eapply Forall_impl; [exact Hall|]; intros x Hx; by apply Ho|].
  exists f', w'. split; [done|]. split; [done|]. split; [by eapply transparent_trans|by eapply owns_more_trans].
Qed.
(** Any number of faults of the guest, whatever their outcome. *)
Inductive faults : forked F * world A → forked F * world A → Prop :=
| faults_none s : faults s s
| faults_next f w g s : 0 ≤ g < 2 ^ 48 → is_Some (expected (as_vm f) g) → faults (handle_cow_fault g (f, w)).2 s → faults (f, w) s.
Lemma faults_keep s s' : faults s s' → vm_inv s.2 (fk_ept s.1) (as_vm s.1) →
  vm_inv s'.2 (fk_ept s'.1) (as_vm s'.1) ∧ fk_ept s'.1 = fk_ept s.1 ∧ ∀ g fr, cow_pages (fk_cow s.1) !! g = Some fr → cow_pages (fk_cow s'.1) !! g = Some fr.
Proof.
  induction 1 as [s|f w g s Hg He _ IH]; cbn; intros Hinv; [done|]. pose proof (handle_cow_fault_spec f w g Hinv Hg He) as Hs.
  destruct (handle_cow_fault g (f, w)) as [[u|u|] [f1 w1]]; cbn in *; [| |done].
  - destruct Hs as (Hi & Ht & fr & Hfr & Hcase). destruct (IH Hi) as (H1 & H2 & H3). split; [done|]. split; [rewrite H2; apply Ht|]. intros x y Hx. apply H3.
    destruct Hcase as [(_ & _ & ->)|(Hn & _ & -> & _)]; [done|]. rewrite lookup_insert_ne; [done|]. intros <-. congruence.
  - destruct Hs as (-> & Hi & Ht). by destruct (IH Hi) as (H1 & H2 & H3).
Qed.
(** What the page table gives for a page, and what [mmap] finds, agree. *)
Lemma resolve_expected f w g : vm_inv w (fk_ept f) (as_vm f) → page_ok f g → (∀ x fr, read_page (fk_parent f) x = Some fr → 0 ≤ x < 2 ^ 48 → fr ≠ 0) →
  ∃ fr perms, resolve_gpa f g = Some fr ∧ frame_aligned fr ∧ translate <$> leaf (tables (w_host w)) (pml4_phys (fk_ept f)) g = Some (fr, perms) ∧
    (cow_contains (fk_cow f) g = true → perms = READ_WRITE_EXECUTE ∧ cow_pages (fk_cow f) !! g = Some fr ∧ ¬ frame_of (fk_parent f) fr).
Proof.
  intros Hinv (G1 & G2 & [[fr perms] G3]) H0. pose proof (expected_read _ _ _ _ G3) as Hr. destruct (read_page_data _ _ _ _ (vi_vm _ _ _ Hinv) G1 Hr) as [Hal _].
  exists fr, perms. rewrite (vi_coherent _ _ _ Hinv g G1), G3. split; [|split; [done|split; [done|]]].
  - unfold resolve_gpa. rewrite Hr. cbn [read_page as_vm] in Hr. unfold cow_get in *. rewrite !G2 in *. destruct (cow_pages (fk_cow f) !! g) as [x|] eqn:Ec; [done|].
    destruct (Z.eqb_spec fr 0) as [->|]; [|done]. by destruct (H0 _ _ Hr G1).
  - intros [x Hx]%cow_contains_spec. rewrite G2 in Hx. cbn [expected as_vm] in G3. rewrite G2 in G3. destruct (is_mmio g); [done|]. unfold cow_get in G3. rewrite G2, Hx in G3. injection G3 as -> <-.
    split; [done|]. split; [done|]. destruct (vi_vm _ _ _ Hinv) as (_ & _ & Hp & _). by apply (Hp _ _ Hx).
Qed.
End Coherent.

(** * Theorems *)
Section Theorems.
Context (remap_vmalloc_range : list Z → Z → Z → result view_of Z) (remap_pfn_range : Z → option Z).
Context (Hvmalloc : ∀ area pgoff n, 0 ≤ pgoff → 0 ≤ n → pgoff + n ≤ Z.of_nat (length area) → remap_vmalloc_range area pgoff n = Ok (take (Z.to_nat n) (drop (Z.to_nat pgoff) area))).
Context (Hpfn : ∀ fr, remap_pfn_range fr = None).

(** Each offset the library computes for a root VM is decoded to what it stands for, as long as the guest's memory and its buffers are below the offset of the event buffer. *)
Theorem root_offsets_decoded memory event_buffer buffers m v :
  mem_size memory mod PAGE_SIZE = 0 → 0 < mem_size memory → mem_size memory + Z.of_nat (length buffers) * FEEDBACK_BUFFER_SLOT_SIZE ≤ EVENT_BUFFER_MMAP_OFFSET →
  mapped_as (lib_mmap false (mem_size memory) m).1 (lib_mmap false (mem_size memory) m).2 v →
  let mapped := bedrock_vm_mmap remap_vmalloc_range remap_pfn_range memory event_buffer buffers v in
  match m with
  | MapMemory => mapped = Ok (memory_area memory)
  | MapFeedback index num_pages => ∀ fb hpas, buffers !! index = Some fb → fb_num_pages fb = num_pages → feedback_ok fb → mapM (page_phys_addr memory) (buffer_gpas fb) = Some hpas → Forall frame_aligned hpas → mapped = Ok hpas
  | MapEvents => ∀ area, event_buffer = Some area → Z.of_nat (length area) * PAGE_SIZE = EVENT_BUFFER_SIZE → mapped = Ok area
  end.
Proof.
  intros Hw H0 Hb [Hlen Hoff] mapped. subst mapped. unfold bedrock_vm_mmap. rewrite Hlen, Hoff. assert (length (memory_area memory) = Z.to_nat (mem_size memory / PAGE_SIZE)) as Ha by (unfold memory_area; by rewrite length_fmap, length_seqZ).
  destruct m as [|index n|]; cbn [lib_mmap fst snd] in *.
  - rewrite (proj2 (Z.eqb_neq _ _)) by done. rewrite (proj2 (Z.leb_gt _ _)), (proj2 (Z.ltb_lt _ _)), (proj2 (Z.ltb_ge _ _)) by lia. assert (vma_pgoff v = 0) as -> by lia.
    rewrite Hvmalloc; [|lia|apply Z.div_pos; [lia|done]|rewrite Ha; pose proof (Z.div_pos (mem_size memory) PAGE_SIZE ltac:(lia) eq_refl); lia]. rewrite <-Ha. f_equal. cbn. by rewrite take_ge.
  - intros fb hpas Hfb Hn [_ _ Hpages Hgpas _ _ _] Hm Hal. apply lookup_lt_Some in Hfb as Hlt. unfold feedback_buffer_mmap_offset_at in *.
    assert (0 < FEEDBACK_BUFFER_SLOT_SIZE) as Hss by done. rewrite (proj2 (Z.eqb_neq _ _)) by nia. rewrite (proj2 (Z.leb_le _ _)) by nia. destruct (slot_of_offset (mem_size memory) index ltac:(lia)) as [-> ->]. cbn [Z.eqb negb].
    rewrite Hfb, Hn, Z.eqb_refl. cbn [negb]. rewrite Hm. unfold bedrock_remap_pages. rewrite Hlen. pose proof (Forall2_length _ _ _ (mapM_Some_1 _ _ _ Hm)) as Hml. unfold buffer_gpas in Hml. rewrite length_take in Hml.
    replace (Z.of_nat (length hpas)) with n by lia. unfold PAGE_SIZE. rewrite Z.eqb_refl. by apply remap_loop_ok.
  - intros area -> Harea. rewrite Z.eqb_refl. unfold mmap_event. rewrite Z.eqb_refl. cbn [negb]. rewrite <-Harea, Z.div_mul by done. rewrite Hvmalloc by lia. f_equal. rewrite Nat2Z.id. cbn. by rewrite take_ge.
Qed.

Section Fork.
Context {A F E : Type} `{!FrameAllocator A F E} `{!FrameAllocatorSpec A F E} `{!CowAllocator A F E} `{!CowAllocatorSpec A F E}.
Implicit Types (f : forked F) (w : world A).

(** C19: A registered buffer of a fork whose pages are ordinary memory, mapped into a process at its slot and with its size: the call succeeds, and at the time of the call the process gets,
    page by page, the very frame the guest's page table has there; the guest's memory reads as before, and no page of another VM changes.  A page that could be copied is the fork's
    own, writable for the guest and of no ancestor, and stays where it is: after any number of faults of the guest, the process still sees the guest's memory there.  (A page that
    could not be copied is the parent's frame, which the guest leaves at its next write: [failed_copy_maps_parent].) *)
Theorem forked_mapping_is_guests event_buffer buffers index fb v f w :
  vm_inv w (fk_ept f) (as_vm f) → buffers !! index = Some fb → feedback_ok fb → Forall (page_ok f) (buffer_gpas fb) → w_phys w !! 0 = None →
  Z.of_nat index * FEEDBACK_BUFFER_SLOT_SIZE < EVENT_BUFFER_MMAP_OFFSET →
  mapped_as (lib_mmap true 0 (MapFeedback index (fb_num_pages fb))).1 (lib_mmap true 0 (MapFeedback index (fb_num_pages fb))).2 v →
  ∃ frames f' w', bedrock_forked_vm_mmap remap_vmalloc_range remap_pfn_range event_buffer buffers v (f, w) = (Done (Ok frames), (f', w')) ∧
    vm_inv w' (fk_ept f') (as_vm f') ∧ transparent f w f' w' ∧ length frames = length (buffer_gpas fb) ∧
    ∀ i g fr, buffer_gpas fb !! i = Some g → frames !! i = Some fr →
      (∃ perms, translate <$> leaf (tables (w_host w')) (pml4_phys (fk_ept f')) g = Some (fr, perms)) ∧
      (cow_contains (fk_cow f') g = true → ¬ frame_of (fk_parent f) fr ∧ ∀ f2 w2, faults (f', w') (f2, w2) →
        translate <$> leaf (tables (w_host w2)) (pml4_phys (fk_ept f2)) g = Some (fr, READ_WRITE_EXECUTE)).
Proof.
  intros Hinv Hfb [_ _ Hpages Hgpas _ _ _] Hall Hz Hidx [Hlen Hoff]. cbn [lib_mmap fst snd feedback_buffer_mmap_offset_at] in *. destruct (cow_all_spec (buffer_gpas fb) f w Hinv Hall) as (f' & w' & Ecow & Hi & Ht & Ho).
  unfold bedrock_forked_vm_mmap. rewrite Hlen, Hoff. destruct (slot_of_offset 0 index ltac:(lia)) as [S1 S2]. rewrite Z.sub_0_r, ?Z.add_0_l in S1, S2. unfold feedback_buffer_mmap_offset_at. rewrite ?Z.add_0_l. rewrite (proj2 (Z.eqb_neq _ EVENT_BUFFER_MMAP_OFFSET)) by lia.
  assert (0 < FEEDBACK_BUFFER_SLOT_SIZE) as Hss by done. rewrite (proj2 (Z.leb_le 0 _)) by nia. rewrite S1, S2, Hfb. cbn [Z.eqb negb fmap option_fmap option_map]. unfold mbind, M_bind, gets, mret, M_ret. rewrite Ecow. cbn [fst]. rewrite Z.eqb_refl. cbn [negb].
  assert (∀ x fr, read_page (fk_parent f') x = Some fr → 0 ≤ x < 2 ^ 48 → fr ≠ 0) as H0.
  { intros x fr Hx Hr ->. destruct Ho as (Hp & _). rewrite Hp in Hx. destruct (vi_vm _ _ _ Hinv) as (Hpv & _). destruct (read_page_data _ _ _ _ Hpv Hr Hx) as (_ & bs & Hbs & _). congruence. }
  assert (∃ frames, mapM (resolve_gpa f') (buffer_gpas fb) = Some frames) as [frames Hfr].
  { apply mapM_is_Some. eapply Forall_impl; [exact Hall|]. intros g Hg. destruct (resolve_expected f' w' g Hi (proj2 (proj2 Ho) g Hg) H0) as (fr & _ & Hres & _). by exists fr. }
  pose proof (mapM_Some_1 _ _ _ Hfr) as H2. pose proof (Forall2_length _ _ _ H2) as Hl2. rewrite Hfr. exists frames, f', w'. split; [|split; [done|split; [done|split; [done|]]]].
  - f_equal. f_equal. unfold bedrock_remap_pages. rewrite Hlen, <-Hl2. unfold buffer_gpas. rewrite length_take. replace (Z.of_nat _) with (fb_num_pages fb) by lia. unfold PAGE_SIZE. rewrite Z.eqb_refl. cbn [negb].
    apply remap_loop_ok; [done|]. apply Forall_forall. intros fr (i & Hfi)%list_elem_of_lookup. destruct (Forall2_lookup_r _ _ _ _ _ H2 Hfi) as (g & Hgi & Hres).
    rewrite Forall_lookup in Hall. destruct (resolve_expected f' w' g Hi (proj2 (proj2 Ho) g (Hall _ _ Hgi)) H0) as (fr' & _ & Hres' & Hal & _). congruence.
  - intros i g fr Hgi Hfi. pose proof (Forall2_lookup_lr _ _ _ _ _ _ H2 Hgi Hfi) as Hgf. cbn in Hgf. rewrite Forall_lookup in Hall. specialize (Hall _ _ Hgi). destruct (resolve_expected f' w' g Hi (proj2 (proj2 Ho) g Hall) H0) as (fr' & perms & Hres & _ & Htr & Hown).
    assert (fr' = fr) as -> by congruence. split; [by eexists|]. intros Hc. destruct (Hown Hc) as (_ & Hcow & Hnf). split; [by rewrite <-(proj1 Ho)|].
    intros f2 w2 Hfl. destruct (faults_keep _ _ Hfl Hi) as (Hi2 & _ & Hkeep). cbn [fst snd] in Hi2, Hkeep. rewrite (vi_coherent _ _ _ Hi2 g (proj1 Hall)). cbn [expected as_vm]. destruct Hall as (_ & Ga & Ge).
    rewrite Ga, (expected_no_mmio _ _ Ge Ga). unfold cow_get. by rewrite Ga, (Hkeep _ _ Hcow).
Qed.
End Fork.
End Theorems.

(** ** Examples *)
Definition demo_buffer : FeedbackBufferInfo := mkFeedback 0x7000 4096 1 (0x1000 :: replicate 255 0) (replicate 128 7) 4.
Definition demo_remap (area : list Z) (pgoff n : Z) : result view_of Z := Ok (take (Z.to_nat n) (drop (Z.to_nat pgoff) area)).
Lemma demo_buffer_ok : feedback_ok demo_buffer.
Proof.
  constructor; try done. cbn [fb_gpas demo_buffer]. constructor; [done|]. by apply Forall_replicate.
Qed.
Lemma forked_mapping_is_guests_witness : ∃ fr f' w',
  bedrock_forked_vm_mmap demo_remap (λ _, None) None [demo_buffer] (mkVma 0x10000 0x11000 0) (demo_forked, demo_fork.2) = (Done (Ok [fr]), (f', w')) ∧
  ¬ frame_of (RootVm demo_memory) fr ∧ translate <$> leaf (tables (w_host w')) (pml4_phys (fk_ept f')) 0x1000 = Some (fr, READ_WRITE_EXECUTE).
Proof.
  destruct (forked_mapping_is_guests demo_remap (λ _, None) (λ _, eq_refl) None [demo_buffer] 0 demo_buffer (mkVma 0x10000 0x11000 0) demo_forked demo_fork.2) as (frames & f' & w' & E & _ & _ & Hl & H).
  - exact demo_fork_inv.
  - reflexivity.
  - exact demo_buffer_ok.
  - constructor; [|constructor]. split; [lia|]. split; [reflexivity|]. eexists. vm_compute. reflexivity.
  - vm_compute. reflexivity.
  - reflexivity.
  - split; reflexivity.
  - destruct frames as [|fr [|? ?]]; [discriminate Hl| |discriminate Hl]. exists fr, f', w'. split; [exact E|]. destruct (H 0%nat 0x1000 fr eq_refl eq_refl) as [_ Ho].
    destruct Ho as [Hn Hf]; [|split; [exact Hn|]; apply (Hf f' w'); constructor].
    assert (cow_contains (fk_cow (bedrock_forked_vm_mmap demo_remap (λ _, None) None [demo_buffer] (mkVma 0x10000 0x11000 0) (demo_forked, demo_fork.2)).2.1) 0x1000 = true) as Hc by (vm_compute; reflexivity).
    rewrite E in Hc. exact Hc.
Defined.

(** No memory for a copy: the call still succeeds, and maps the frame of the parent. *)
Theorem failed_copy_maps_parent :
  let w := mkWorld (mkHost (mkBump 64 64) (tables (w_host demo_fork.2))) (w_phys demo_fork.2) [] in
  (bedrock_forked_vm_mmap demo_remap (λ _, None) None [demo_buffer] (mkVma 0x10000 0x11000 0) (demo_forked, w)).1 = Done (Ok [0x2000]) ∧ read_page (RootVm demo_memory) 0x1000 = Some 0x2000.
Proof. split; vm_compute; reflexivity. Qed.
