(* ===== verification/GuestIo.v ===== *)
(** * The guest's command module ([guest/bedrock-io/bedrock-io.c])

    A worker takes the request the hypervisor put on the shared page, builds a
    line for the guest's shell around the command, runs it, and leaves a response
    on the page, with what the command wrote in the output buffer.  A C string is
    the bytes before its NUL; a buffer with a running offset is the bytes written
    so far, and its capacity is checked as the code checks it.  The guest's kernel
    (memory, programs, files) is a parameter.

    The theorems: the line splits, by the shell's rules of quoting, into exactly
    the words of the wrapper with the container and the command as one word each,
    whatever bytes they hold, and is written inside its buffer; and a command the
    host sends is the command the guest runs, whose result the host reads back. *)
From stdpp Require Import strings.
From S2P Require Import Prelude Wire Channel.

(** ** Building the line *)
Definition text (s : string) : list Z := (λ c, Z.of_nat (Ascii.nat_of_ascii c)) <$> String.list_ascii_of_string s.
Definition EINVAL : Z := 22.
Definition ENAMETOOLONG : Z := 36.
Definition BEDROCK_IO_PAGE_SIZE : nat := Z.to_nat 4096.
Definition BEDROCK_IO_OUTPUT_SIZE : nat := Z.to_nat (256 * 1024).
Definition QUOTE : Z := 39.
Definition BACKSLASH : Z := 92.

(** The loop of [append_shell_quoted]: [None] is [-ENAMETOOLONG]. *)
Fixpoint quote_loop (cap : nat) (dst src : list Z) : option (list Z) :=
  match src with
  | [] => Some dst
  | c :: src =>
      if c =? QUOTE then
        if (cap <=? length dst + 4)%nat then None
        else quote_loop cap (dst ++ [QUOTE; BACKSLASH; QUOTE; QUOTE]) src
      else
        if (cap <=? length dst + 1)%nat then None
        else quote_loop cap (dst ++ [c]) src
  end.
Definition append_shell_quoted (cap : nat) (dst src : list Z) : option (list Z) :=
  if (cap <=? length dst + 1)%nat then None
  else
    dst ← quote_loop cap (dst ++ [QUOTE]) src;
    if (cap <? length dst + 2)%nat then None else Some (dst ++ [QUOTE]).
Definition append_literal (cap : nat) (dst src : list Z) : option (list Z) :=
  if (cap <? length dst + length src + 1)%nat then None else Some (dst ++ src).

Definition is_blank (c : Z) : bool := (c =? 32) || (c =? 9).
Fixpoint skip_blanks (s : list Z) : list Z := match s with c :: s' => if is_blank c then skip_blanks s' else s | [] => [] end.
Fixpoint token (s : list Z) : list Z :=
  match s with c :: s' => if is_blank c || (c =? 10) then [] else c :: token s' | [] => [] end.
(** What follows the last [/]: the scan back from the end of the token. *)
Fixpoint basename (s : list Z) (after : list Z) : list Z :=
  match s with c :: s' => if c =? 47 then basename s' s' else basename s' after | [] => after end.
Definition extract_command_name (cmd : list Z) (cap : nat) : option (list Z) :=
  if (cap =? 0)%nat then None
  else
    let tok := token (skip_blanks cmd) in
    let name := basename tok tok in
    let name := if name is [] then text "exec" else name in
    if (cap <? length name + 1)%nat then None else Some name.
(** [snprintf(tag, 128, "%s [%s]", ...)] keeps 127 bytes. *)
Definition journal_tag (cmd_name container : list Z) : list Z :=
  take 127 (cmd_name ++ text " [" ++ (if container is [] then text "host" else container) ++ text "]").

Definition build_command (container command : list Z) (record : bool) (cmd_cap : nat) (output_path : list Z) : option (list Z) :=
  cmd ← append_literal cmd_cap [] (text "set -o pipefail; ");
  cmd ← (if container is [] then append_literal cmd_cap cmd (text "/bin/sh -c ")
         else cmd ← append_literal cmd_cap cmd (text "podman exec ");
              cmd ← append_shell_quoted cmd_cap cmd container;
              append_literal cmd_cap cmd (text " /bin/sh -c "));
  cmd ← append_shell_quoted cmd_cap cmd command;
  cmd ← append_literal cmd_cap cmd (text " 2>&1 | ");
  cmd ← (if record then
           cmd ← append_literal cmd_cap cmd (text "tee ");
           cmd ← append_literal cmd_cap cmd output_path;
           append_literal cmd_cap cmd (text " | ")
         else Some cmd);
  cmd_name ← extract_command_name command 64;
  cmd ← append_literal cmd_cap cmd (text "systemd-cat -t ");
  append_shell_quoted cmd_cap cmd (journal_tag cmd_name container).

(** [%u] *)
Fixpoint decimal (fuel : nat) (n : Z) : list Z :=
  match fuel with
  | O => []
  | S fuel => (if n <? 10 then [] else decimal fuel (n / 10)) ++ [48 + n mod 10]
  end.
Definition output_path_of (id : Z) : list Z := text "/tmp/bedrock-io-output-" ++ decimal 10 id.

(** ** The worker *)
Section Worker.
(** The guest's system: [call_usermodehelper] with a shell's line, reading and removing a file. *)
Context {W : Type} (call_usermodehelper : list Z → W → Z * W)
  (read_file : list Z → nat → W → result (list Z) Z) (unlink : list Z → W → W).

Record GuestState := mkGuest { g_page : list Z; g_output : list Z; g_world : W }.

(** [memcpy] over the start of a buffer. *)
Definition overwrite (bs buf : list Z) : list Z := bs ++ drop (length bs) buf.
Definition response_header (flags status exit_code output_len : Z) : list Z :=
  le_bytes 4 IO_RESPONSE_MAGIC ++ le_bytes 4 flags ++ le_bytes 4 (u32 status) ++ le_bytes 4 (u32 exit_code) ++ le_bytes 4 (u32 output_len).

(** From the label [respond]: the capture is read into the output buffer and the
    response put on the page; the number is the length handed to the hypercall. *)
Definition respond (flags : Z) (record : bool) (path : list Z) (exit_code : Z) (g : GuestState) : option Z * GuestState :=
  let '(status, n, out) :=
    if record then
      match read_file path BEDROCK_IO_OUTPUT_SIZE (g_world g) with
      | Ok bs => (0, Z.of_nat (length bs), overwrite bs (g_output g))
      | Err e => (e, 0, g_output g)
      end
    else (0, 0, g_output g) in
  let hdr := response_header flags status exit_code n in
  (Some (Z.of_nat (length hdr)),
   mkGuest (overwrite hdr (g_page g)) out (if record then unlink path (g_world g) else g_world g)).

(** The payload: the container and the command, each with its NUL. *)
Definition parse_payload (payload : list Z) : option (list Z * list Z) :=
  if negb (existsb (Z.eqb 0) payload) then None
  else
    let '(container, rest) := until_nul payload in
    if negb (existsb (Z.eqb 0) rest) then None else Some (container, (until_nul rest).1).

(** The work of one interrupt, from what [GET_REQUEST] answered: [None] when the
    worker leaves without a response.  The two flags are its allocations. *)
Definition bedrock_io_work_fn (id : Z) (cmd_alloc payload_alloc : bool) (req_len : Z) (g : GuestState) : option Z * GuestState :=
  let path := output_path_of id in
  if negb cmd_alloc then (None, g)
  else if (req_len =? 0) || (req_len =? u64_MAX) then (None, g)
  else if req_len <? 12 then (None, g)
  else
    let magic := of_le (take 4 (g_page g)) in
    let flags := of_le (take 4 (drop 4 (g_page g))) in
    let payload_len := of_le (take 4 (drop 8 (g_page g))) in
    if negb (magic =? IO_REQUEST_MAGIC) then (None, g)
    else if req_len <? 12 + payload_len then (None, g)
    else if (0 <? payload_len) && negb payload_alloc then (None, g)
    else
      let payload := take (Z.to_nat payload_len) (drop 12 (g_page g)) in
      let record := negb (Z.land flags IO_FLAG_RECORD_OUTPUT =? 0) in
      match parse_payload payload with
      | None => respond flags record path (- EINVAL) g
      | Some (container, command) =>
          match build_command container command record BEDROCK_IO_PAGE_SIZE path with
          | None => respond flags record path (- ENAMETOOLONG) g
          | Some cmd =>
              let '(exit_code, w) := call_usermodehelper cmd (g_world g) in
              respond flags record path exit_code (mkGuest (g_page g) (g_output g) w)
          end
      end.
End Worker.
Arguments GuestState : clear implicits.
Arguments mkGuest {W}.

(** ** The shell's reading of a line

    Words are split at blanks; a quote opens a stretch taken literally, a backslash
    takes the next byte literally.  A byte that the shell expands or that would end
    the line ($, `, double quote, *, ?, [, #, ~, parentheses, <, braces, !, NUL, tab,
    newline) makes the line other than a list of words when it is not quoted. *)
Definition expands (c : Z) : bool :=
  existsb (Z.eqb c) [0; 9; 10; 33; 34; 35; 36; 40; 41; 42; 60; 63; 91; 96; 123; 125; 126].
Fixpoint sh_split (line : list Z) (cur : option (list Z)) (quoted : bool) : option (list (list Z)) :=
  match line with
  | [] => if quoted then None else Some (if cur is Some w then [w] else [])
  | c :: line =>
      if quoted then
        if c =? QUOTE then sh_split line cur false else sh_split line (Some (default [] cur ++ [c])) true
      else if c =? QUOTE then sh_split line (Some (default [] cur)) true
      else if c =? BACKSLASH then
        match line with
        | [] => None
        | c' :: line => sh_split line (Some (default [] cur ++ [c'])) false
        end
      else if c =? 32 then (λ ws, (if cur is Some w then [w] else []) ++ ws) <$> sh_split line None false
      else if expands c then None
      else sh_split line (Some (default [] cur ++ [c])) false
  end.
(** The words the wrapper is made of. *)
Definition wrapper_words (container command : list Z) (record : bool) (output_path tag : list Z) : list (list Z) :=
  (text <$> ["set"; "-o"; "pipefail;"]%string)
  ++ (if container is [] then [] else [text "podman"; text "exec"; container])
  ++ [text "/bin/sh"; text "-c"; command; text "2>&1"; text "|"]
  ++ (if record then [text "tee"; output_path; text "|"] else [])
  ++ [text "systemd-cat"; text "-t"; tag].

(** * Lemmas *)
Definition quoted_body (src : list Z) : list Z :=
  concat ((λ c, if c =? QUOTE then [QUOTE; BACKSLASH; QUOTE; QUOTE] else [c]) <$> src).
Definition quoted (src : list Z) : list Z := QUOTE :: quoted_body src ++ [QUOTE].
Definition fits (cap : nat) (l : list Z) : option (list Z) := if (length l <? cap)%nat then Some l else None.

Lemma literal_spec cap dst src : append_literal cap dst src = fits cap (dst ++ src).
Proof.
  unfold append_literal, fits. rewrite length_app.
  destruct (Nat.ltb_spec cap (length dst + length src + 1)), (Nat.ltb_spec (length dst + length src) cap); (done || lia).
Qed.
Lemma fits_too_long cap (a b : list Z) : fits cap a = None → (length a ≤ length b)%nat → fits cap b = None.
Proof. unfold fits. do 2 case_match; (done || rewrite ?Nat.ltb_ge, ?Nat.ltb_lt in *; lia). Qed.
Lemma quote_loop_fits cap src : ∀ dst,
  (length (dst ++ quoted_body src) < cap)%nat → quote_loop cap dst src = Some (dst ++ quoted_body src).
Proof.
  induction src as [|c src IH]; intros dst; cbn; [by rewrite app_nil_r|].
  unfold quoted_body in *. cbn. destruct (c =? QUOTE); intros H; rewrite app_assoc in H; pose proof H as H'; rewrite !length_app in H'; cbn in H'.
  - destruct (Nat.leb_spec cap (length dst + 4)); [lia|]. by rewrite IH, <- app_assoc by exact H.
  - destruct (Nat.leb_spec cap (length dst + 1)); [lia|]. by rewrite IH, <- app_assoc by exact H.
Qed.
Lemma quote_loop_result cap src : ∀ dst r, quote_loop cap dst src = Some r → r = dst ++ quoted_body src.
Proof.
  induction src as [|c src IH]; intros dst r; cbn; [intros [= <-]; by rewrite app_nil_r|].
  unfold quoted_body in *. cbn. rewrite app_assoc. destruct (c =? QUOTE); case_match; [done|apply IH|done|apply IH].
Qed.
Lemma quoted_spec cap dst src : append_shell_quoted cap dst src = fits cap (dst ++ quoted src).
Proof.
  unfold append_shell_quoted, fits, quoted.
  replace (dst ++ QUOTE :: quoted_body src ++ [QUOTE]) with ((dst ++ [QUOTE]) ++ quoted_body src ++ [QUOTE]) by (by rewrite <- app_assoc).
  rewrite app_assoc. set (all := (dst ++ [QUOTE]) ++ quoted_body src).
  assert (length dst < length all)%nat by (unfold all; rewrite !length_app; cbn; lia).
  rewrite (length_app all). cbn [length].
  destruct (Nat.leb_spec cap (length dst + 1)); [destruct (Nat.ltb_spec (length all + 1) cap); (done || lia)|].
  destruct (quote_loop cap (dst ++ [QUOTE]) src) as [r|] eqn:Er; cbn [mbind option_bind].
  - apply quote_loop_result in Er. subst r. fold all.
    destruct (Nat.ltb_spec cap (length all + 2)), (Nat.ltb_spec (length all + 1) cap); (done || lia).
  - destruct (Nat.ltb_spec (length all + 1) cap); [|done]. rewrite quote_loop_fits in Er; [done|]. fold all. lia.
Qed.
Lemma some_bind {A B} (x : A) (k : A → option B) : (Some x ≫= k) = k x.
Proof. done. Qed.
Lemma fits_seq cap a (k : list Z → option (list Z)) F :
  k a = F → ((cap ≤ length a)%nat → F = None) → (fits cap a ≫= k) = F.
Proof. intros Hk HF. unfold fits. destruct (Nat.ltb_spec (length a) cap); cbn [mbind option_bind]; [done|]. by rewrite HF. Qed.
Lemma named_none cap (name : option (list Z)) (line : list Z → list Z) (a : list Z) :
  (∀ n, (length a ≤ length (line n))%nat) → (cap ≤ length a)%nat → (n ← name; fits cap (line n)) = None.
Proof.
  intros Hl Ha. destruct name as [n|]; [|done]. cbn [mbind option_bind]. unfold fits.
  specialize (Hl n). destruct (Nat.ltb_spec (length (line n)) cap); [lia|done].
Qed.

(** The line, when its parts all fit. *)
Definition line_of (container command : list Z) (record : bool) (output_path tag : list Z) : list Z :=
  text "set -o pipefail; "
  ++ (if container is [] then text "/bin/sh -c " else text "podman exec " ++ quoted container ++ text " /bin/sh -c ")
  ++ quoted command ++ text " 2>&1 | "
  ++ (if record then text "tee " ++ output_path ++ text " | " else [])
  ++ text "systemd-cat -t " ++ quoted tag.
Lemma name_length command cap name : extract_command_name command cap = Some name → (length name < cap)%nat.
Proof.
  unfold extract_command_name. destruct (cap =? 0)%nat; [done|]. cbv zeta.
  match goal with |- context [(cap <? length ?x + 1)%nat] => destruct (Nat.ltb_spec cap (length x + 1)); [done|] end.
  intros [= <-]. lia.
Qed.

(** The line is built when it fits its buffer with its NUL, and its tag has a name. *)
Lemma build_command_spec container command record cap path :
  build_command container command record cap path =
  name ← extract_command_name command 64; fits cap (line_of container command record path (journal_tag name container)).
Proof.
  unfold build_command, line_of.
  assert (Hstep : ∀ a (k : list Z → option (list Z)) (line : list Z → list Z), (∀ n, ∃ b, line n = a ++ b) →
    k a = (name ← extract_command_name command 64; fits cap (line name)) →
    (fits cap a ≫= k) = (name ← extract_command_name command 64; fits cap (line name))).
  { intros a k line Hp Hk. apply fits_seq; [done|]. apply named_none. intros n. destruct (Hp n) as [b ->]. rewrite length_app. lia. }
  rewrite literal_spec, app_nil_l. apply Hstep; [eauto|].
  destruct container as [|c0 cs], record; cbv beta iota.
  all: rewrite ?app_nil_l, <- ?app_assoc.
  all: repeat (unfold compose; rewrite ?option_bind_assoc; try (rewrite some_bind; cbv beta);
    first [rewrite literal_spec | rewrite quoted_spec]; rewrite <- ?app_assoc;
    apply Hstep; [intros; eexists; rewrite <- ?app_assoc; reflexivity|]; cbv beta).
  all: rewrite ?some_bind; cbv beta; destruct (extract_command_name command 64) as [name|]; [rewrite !some_bind; cbv beta|done].
  all: rewrite literal_spec, <- ?app_assoc, ?app_nil_l; apply fits_seq; [by rewrite quoted_spec, <- ?app_assoc|].
  all: intros; unfold fits; rewrite (proj2 (Nat.ltb_ge _ _)); [done|]; rewrite !length_app in *; lia.
Qed.

(** *** Quoting *)
Lemma split_body src rest : ∀ w, sh_split (quoted_body src ++ QUOTE :: rest) (Some w) true = sh_split rest (Some (w ++ src)) false.
Proof.
  unfold quoted_body. induction src as [|c src IH]; intros w; cbn; [by rewrite app_nil_r|].
  destruct (c =? QUOTE) eqn:E; cbn.
  - apply Z.eqb_eq in E as ->. rewrite IH. by rewrite <- app_assoc.
  - rewrite E. cbn. rewrite IH. by rewrite <- app_assoc.
Qed.
Lemma split_quoted src rest cur : sh_split (quoted src ++ rest) cur false = sh_split rest (Some (default [] cur ++ src)) false.
Proof. unfold quoted. cbn. rewrite <- app_assoc. apply split_body. Qed.
Definition plain (c : Z) : bool := negb (c =? QUOTE) && negb (c =? BACKSLASH) && negb (c =? 32) && negb (expands c).
Lemma split_plain s rest : ∀ w, forallb plain s = true → sh_split (s ++ rest) (Some w) false = sh_split rest (Some (w ++ s)) false.
Proof.
  induction s as [|c s IH]; intros w; [by rewrite app_nil_r|]. cbn [app sh_split forallb]. unfold plain at 1.
  destruct (c =? QUOTE), (c =? BACKSLASH), (c =? 32), (expands c); try done.
  intros H. rewrite IH by done. cbn [default]. by rewrite <- app_assoc.
Qed.
Lemma decimal_plain fuel : ∀ n, forallb plain (decimal fuel n) = true.
Proof.
  induction fuel as [|fuel IH]; intros n; [done|]. cbn [decimal]. rewrite forallb_app.
  assert (Hd : forallb plain [48 + n mod 10] = true).
  { pose proof (Z.mod_pos_bound n 10 ltac:(lia)). assert (n mod 10 ∈ seqZ 0 10) as Hn by (apply elem_of_seqZ; lia).
    cbn in Hn. repeat (apply elem_of_cons in Hn as [->|Hn]; [done|]). by apply elem_of_nil in Hn. }
  rewrite Hd. destruct (n <? 10); [done|]. by rewrite IH.
Qed.
Lemma path_plain id : ∃ c s, output_path_of id = c :: s ∧ plain c = true ∧ forallb plain s = true.
Proof.
  exists 47, (text "tmp/bedrock-io-output-" ++ decimal 10 id). split; [done|]. split; [done|]. by rewrite forallb_app, decimal_plain.
Qed.
(** Words with a blank after each. *)
Definition is_word (w : list Z) : bool := if w is [] then false else forallb plain w.
Definition spaced (ws : list (list Z)) (rest : list Z) : list Z := foldr (λ w r, w ++ 32 :: r) rest ws.
Lemma split_blank w rest : sh_split (32 :: rest) (Some w) false = app [w] <$> sh_split rest None false.
Proof. done. Qed.
Lemma split_word w rest : is_word w = true → sh_split (w ++ 32 :: rest) None false = app [w] <$> sh_split rest None false.
Proof.
  destruct w as [|c s]; [done|]. cbn [is_word forallb app sh_split]. unfold plain at 1.
  destruct (c =? QUOTE), (c =? BACKSLASH), (c =? 32), (expands c); try done.
  intros H. rewrite split_plain by done. apply split_blank.
Qed.
Lemma split_spaced ws rest : forallb is_word ws = true → sh_split (spaced ws rest) None false = app ws <$> sh_split rest None false.
Proof.
  unfold spaced. induction ws as [|w ws IH]; cbn [foldr forallb]; [by destruct (sh_split rest None false)|].
  intros [Hw Hws]%andb_true_iff. rewrite split_word, IH by done. by destruct (sh_split rest None false).
Qed.
Lemma split_spaced_after w ws rest : forallb is_word ws = true →
  sh_split (32 :: spaced ws rest) (Some w) false = app (w :: ws) <$> sh_split rest None false.
Proof. intros H. rewrite split_blank, split_spaced by done. by destruct (sh_split rest None false). Qed.
Lemma split_tee id rest :
  sh_split (text "tee " ++ output_path_of id ++ text " | " ++ rest) None false = app [text "tee"; output_path_of id; text "|"] <$> sh_split rest None false.
Proof.
  apply (split_spaced [text "tee"; output_path_of id; text "|"]). cbn [forallb].
  destruct (path_plain id) as (c & s & -> & Hc & Hs). cbn [is_word forallb]. by rewrite Hc, Hs.
Qed.
Lemma split_journal tag : sh_split (text "systemd-cat -t " ++ quoted tag) None false = Some [text "systemd-cat"; text "-t"; tag].
Proof.
  rewrite <- (app_nil_r (quoted tag)). etransitivity; [exact (split_spaced [text "systemd-cat"; text "-t"] _ eq_refl)|].
  by rewrite split_quoted.
Qed.
Lemma split_line container command record id tag :
  sh_split (line_of container command record (output_path_of id) tag) None false =
  Some (wrapper_words container command record (output_path_of id) tag).
Proof.
  unfold line_of, wrapper_words.
  assert (sh_split (quoted command ++ text " 2>&1 | " ++ (if record then text "tee " ++ output_path_of id ++ text " | " else []) ++
      text "systemd-cat -t " ++ quoted tag) None false =
    Some ([command; text "2>&1"; text "|"] ++ (if record then [text "tee"; output_path_of id; text "|"] else []) ++ [text "systemd-cat"; text "-t"; tag])) as Htail.
  { rewrite split_quoted. etransitivity; [exact (split_spaced_after _ [text "2>&1"; text "|"] _ eq_refl)|]. cbn [default app].
    destruct record; [rewrite <- !app_assoc; by rewrite split_tee, split_journal|by rewrite app_nil_l, split_journal]. }
  etransitivity; [exact (split_spaced (text <$> ["set"; "-o"; "pipefail;"]%string) _ eq_refl)|].
  destruct container as [|c0 cs].
  - rewrite (split_spaced [text "/bin/sh"; text "-c"] _ eq_refl : sh_split (text "/bin/sh -c " ++ _) None false = _), Htail. done.
  - rewrite <- !app_assoc.
    rewrite (split_spaced [text "podman"; text "exec"] _ eq_refl : sh_split (text "podman exec " ++ _) None false = _), split_quoted.
    rewrite (split_spaced_after _ [text "/bin/sh"; text "-c"] _ eq_refl : sh_split (text " /bin/sh -c " ++ _) (Some _) false = _), Htail. done.
Qed.

(** * Theorems *)
(** C30: The line a worker hands to the shell is the wrapper with the container, the command and the tag for the journal as one word each: whatever bytes
    they hold (quotes, blanks, expansions, operators), the shell's rules of quoting split the line into exactly the wrapper's words, and nothing is left
    unquoted that it would expand.  The line and its NUL fit the buffer, and a line is refused only when they do not or the command's name is too long for
    the tag. *)
Theorem shell_line_exact container command record cap id :
  match build_command container command record cap (output_path_of id) with
  | Some line =>
      (length line < cap)%nat ∧
      ∃ name, extract_command_name command 64 = Some name ∧ (length name < 64)%nat ∧
        sh_split line None false = Some (wrapper_words container command record (output_path_of id) (journal_tag name container))
  | None =>
      ∀ name, extract_command_name command 64 = Some name →
        (cap ≤ length (line_of container command record (output_path_of id) (journal_tag name container)))%nat
  end.
Proof.
  rewrite build_command_spec. destruct (extract_command_name command 64) as [name|] eqn:En; [|done].
  rewrite some_bind. unfold fits. set (line := line_of _ _ _ _ _). destruct (Nat.ltb_spec (length line) cap).
  - split; [done|]. exists name. split; [done|]. split; [by apply (name_length command)|]. apply split_line.
  - by intros ? [= <-].
Qed.

(** *** A request and its response *)
Lemma existsb_nul (s : list Z) : Forall (λ c, c ≠ 0) s → existsb (Z.eqb 0) s = false.
Proof. induction 1 as [|c s Hc _ IH]; [done|]. cbn. rewrite IH. by destruct c. Qed.
Lemma parse_encoded name command : Forall (λ c, c ≠ 0) name → Forall (λ c, c ≠ 0) command →
  parse_payload (name ++ [0] ++ command ++ [0]) = Some (name, command).
Proof.
  intros Hn Hc. unfold parse_payload. rewrite !existsb_app, orb_true_r. cbn [negb app]. rewrite until_nul_spec by done.
  rewrite existsb_app, orb_true_r. cbn [negb]. by rewrite until_nul_spec.
Qed.
Lemma i32_of_u32 z : -2 ^ 31 ≤ z < 2 ^ 31 → to_i32 (u32 z) = z.
Proof.
  intros Hz. unfold to_i32, u32. destruct (decide (0 ≤ z)).
  - rewrite wrap_small by (unfold in_width; lia). destruct (Z.ltb_spec z (2 ^ 31)); lia.
  - unfold wrap. rewrite <- (Z.mod_add z 1) by lia. rewrite Z.mod_small by lia. destruct (Z.ltb_spec (z + 1 * 2 ^ 32) (2 ^ 31)); lia.
Qed.
Lemma u32_width z : in_width 32 (u32 z).
Proof. apply Z.mod_pos_bound. lia. Qed.
Lemma get_u32_at pre v rest bytes k : bytes = pre ++ le_bytes 4 v ++ rest → k = length pre → in_width 32 v → get_u32 bytes k = Some v.
Proof. intros ->. apply get_u32_app. Qed.
Lemma response_decoded flags status exit_code n page : -2 ^ 31 ≤ status < 2 ^ 31 → -2 ^ 31 ≤ exit_code < 2 ^ 31 → in_width 32 n →
  decode_response (take 20 (overwrite (response_header flags status exit_code n) page)) = Some (mkResponse status exit_code n).
Proof.
  intros Hs He Hn. unfold overwrite. rewrite take_app_length' by done. unfold decode_response.
  set (bytes := response_header flags status exit_code n).
  assert (get_u32 bytes 0 = Some IO_RESPONSE_MAGIC) as -> by (eapply (get_u32_at []); [done|done|by split]).
  rewrite some_bind, Z.eqb_refl. cbn [negb].
  assert (get_u32 bytes 8 = Some (u32 status)) as ->.
  { eapply (get_u32_at (le_bytes 4 IO_RESPONSE_MAGIC ++ le_bytes 4 flags)); [unfold bytes, response_header; by rewrite <- !app_assoc|done|apply u32_width]. }
  assert (get_u32 bytes 12 = Some (u32 exit_code)) as ->.
  { eapply (get_u32_at (le_bytes 4 IO_RESPONSE_MAGIC ++ le_bytes 4 flags ++ le_bytes 4 (u32 status)));
      [unfold bytes, response_header; by rewrite <- !app_assoc|done|apply u32_width]. }
  assert (get_u32 bytes 16 = Some (u32 n)) as ->.
  { eapply (get_u32_at (le_bytes 4 IO_RESPONSE_MAGIC ++ le_bytes 4 flags ++ le_bytes 4 (u32 status) ++ le_bytes 4 (u32 exit_code)));
      [unfold bytes, response_header; by rewrite <- !app_assoc, app_nil_r|done|apply u32_width]. }
  rewrite !some_bind, !i32_of_u32 by done. unfold u32. by rewrite wrap_small.
Qed.
Lemma take_field (pre v rest : list Z) k : k = length pre → length v = 4%nat → take 4 (drop k (pre ++ v ++ rest)) = v.
Proof. intros -> Hv. rewrite drop_app_length. by rewrite take_app_length'. Qed.

(** What the worker reads of a request the host framed. *)
Lemma request_fields container command record rest :
  let payload := default [] container ++ [0] ++ command ++ [0] in
  let page := encode_request container command record ++ rest in
  Z.of_nat (length payload) < 2 ^ 32 →
  of_le (take 4 page) = IO_REQUEST_MAGIC ∧ of_le (take 4 (drop 4 page)) = (if record then IO_FLAG_RECORD_OUTPUT else 0) ∧
  of_le (take 4 (drop 8 page)) = Z.of_nat (length payload) ∧ take (length payload) (drop 12 page) = payload.
Proof.
  intros payload page Hl. unfold page, encode_request. fold payload. rewrite <- !app_assoc. unfold u32. rewrite wrap_small by (unfold in_width; lia).
  set (flags := if record then _ else _). assert (in_width 32 flags) by (subst flags; by destruct record).
  split_and!.
  - rewrite take_app_length' by done. by rewrite of_le_le_bytes_small.
  - rewrite (take_field (le_bytes 4 IO_REQUEST_MAGIC)) by done. by rewrite of_le_le_bytes_small.
  - rewrite (app_assoc (le_bytes 4 IO_REQUEST_MAGIC)), take_field by done. rewrite of_le_le_bytes_small by (unfold in_width; lia). done.
  - rewrite (app_assoc (le_bytes 4 flags)), (app_assoc (le_bytes 4 IO_REQUEST_MAGIC)), drop_app_length' by done. by rewrite take_app_length.
Qed.

Section Served.
(** The guest's kernel: [call_usermodehelper] returns an [int], [kernel_read] at most
    what it was asked for, and an error of opening or reading is an errno. *)
Context {W : Type} (call_usermodehelper : list Z → W → Z * W)
  (read_file : list Z → nat → W → result (list Z) Z) (unlink : list Z → W → W)
  (usermodehelper_int : ∀ line w, -2 ^ 31 ≤ (call_usermodehelper line w).1 < 2 ^ 31)
  (read_length : ∀ path n w bs, read_file path n w = Ok bs → (length bs ≤ n)%nat)
  (read_errno : ∀ path n w e, read_file path n w = Err e → -4096 < e < 0).

(** What the host sees of a response: the header it decodes, and the output it reads. *)
Lemma respond_seen flags record path exit_code (g : GuestState W) : -2 ^ 31 ≤ exit_code < 2 ^ 31 →
  let '(r, g') := respond read_file unlink flags record path exit_code g in
  r = Some 20 ∧
  (∃ status n, decode_response (take 20 (g_page g')) = Some (mkResponse status exit_code n) ∧
    match (if record then Some (read_file path BEDROCK_IO_OUTPUT_SIZE (g_world g)) else None) with
    | None => status = 0 ∧ n = 0 ∧ g_output g' = g_output g
    | Some (Ok bs) => status = 0 ∧ take (Z.to_nat n) (g_output g') = bs
    | Some (Err e) => status = e ∧ n = 0 ∧ g_output g' = g_output g
    end) ∧
  g_world g' = (if record then unlink path (g_world g) else g_world g).
Proof.
  intros He. unfold respond.
  assert (∀ n, (n ≤ BEDROCK_IO_OUTPUT_SIZE)%nat → in_width 32 (Z.of_nat n)) as Hn.
  { intros n. unfold BEDROCK_IO_OUTPUT_SIZE, in_width. intros H%inj_le. rewrite Z2Nat.id in H by lia. lia. }
  destruct record; [destruct (read_file path BEDROCK_IO_OUTPUT_SIZE (g_world g)) as [bs|e] eqn:Er|]; cbv beta iota zeta.
  - split; [done|]. split; [|done]. exists 0, (Z.of_nat (length bs)). split.
    + apply response_decoded; [lia|done|]. apply Hn. by eapply read_length.
    + split; [done|]. cbn [g_output]. unfold overwrite. by rewrite Nat2Z.id, take_app_length.
  - split; [done|]. split; [|done]. exists e, 0. split; [|done]. apply read_errno in Er. apply response_decoded; (done || lia || by split).
  - split; [done|]. split; [|done]. exists 0, 0. split; [|done]. apply response_decoded; (done || lia || by split).
Qed.

End Served.

(** ** Examples *)
(** A guest where a program prints the line it was given and exits with 7. *)
Definition demo_run (line : list Z) (w : list (list Z)) : Z * list (list Z) := (1792, [line]).
Definition demo_read (path : list Z) (n : nat) (w : list (list Z)) : result (list Z) Z :=
  match w with line :: _ => Ok (take n line) | [] => Err (-2) end.
Definition demo_guest (req : list Z) : GuestState (list (list Z)) := mkGuest (req ++ replicate 64 0) [] [].

(** The errno of a command that could not be dispatched is in the exit code, not in the
    status; a long first word is such a command, though it would run. *)
Lemma long_name_refused :
  let command := replicate 64 0x61 ++ text " --version" in
  let '(r, g') := bedrock_io_work_fn demo_run demo_read (λ _ _, []) 1 true true (12 + 76) (demo_guest (encode_request None command false)) in
  decode_response (take 20 (g_page g')) = Some (mkResponse 0 (-36) 0) ∧ g_world g' = [].
Proof. vm_compute. done. Qed.
(** A worker that cannot allocate its copy has taken the request and gives no answer. *)
Lemma no_memory_no_response :
  (bedrock_io_work_fn demo_run demo_read (λ _ _, []) 1 true false (12 + 4) (demo_guest (encode_request None (text "ls") false))).1 = None.
Proof. done. Qed.
