(* ===== verification/VmxInit.v ===== *)
(** * Loading and unloading the module ([traits/vmx.rs], [vmxon.rs], [machine.rs],
    [helpers.c], [handler.rs], [bedrock_main.rs])

    Loading puts every online processor into VMX operation, one after the other;
    unloading takes them out again.  A processor has its model-specific registers,
    CR4.VMXE, the region of its VMX operation and the module's per-processor
    record.  What the instructions answer (flags of VMXON and VMXOFF, whether a
    write to an MSR is taken), which pages are allocated and whether a call reaches a
    processor are parameters; an instruction that the state of the processor makes
    fault is [Stuck].

    The theorems: on processors that are not in VMX operation neither loading nor unloading
    faults, and the per-processor record says the truth throughout; a load that succeeds and
    reaches all online processors has each of them in VMX operation with a region of its own; and unloading undoes it. *)
From S2P Require Import Prelude Wire Vcpu Handlers Setup.

(** ** Processors *)
Definition IA32_VMX_BASIC : Z := 0x480.
Definition FEAT_CTL_LOCKED : Z := Z.shiftl 1 0.
Definition FEAT_CTL_VMX_ENABLED_OUTSIDE_SMX : Z := Z.shiftl 1 2.
(** [struct bedrock_vcpu]. *)
Record bedrock_vcpu := mkPcpu { pc_vmxon : bool; pc_region : Z; pc_capabilities : VmxCapabilities }.
Record cpu := mkCpu { c_msrs : gmap Z Z; c_vmxe : bool; c_vmx : option Z; c_pcpu : bedrock_vcpu }.
(** Pages are listed with their first word. *)
Record machine := mkMachine {
  m_cpus : gmap Z cpu; m_pages : gmap Z Z; m_revision : Z; m_handler : bool
}.
Implicit Types (w : machine) (c : cpu).

Inductive VmxConfigureFeatureControlError := Locked | MsrReadFailed | MsrWriteFailed.
Inductive VmxonError := InvalidPointer | AlreadyInVmxOperation.
Inductive VmxonAllocError := RegionAllocationFailed | VmxonFailed (e : VmxonError).
Inductive CrError :=
  InvalidRegister | PrivilegeViolation | InvalidCr0Combination | Cr0ReservedBits | Cr4ReservedBits | Cr8ReservedBits | Cr3ReservedBits
  | Cr8NotAvailable | PcidEnableWithNonZeroCr3 | CannotDisablePaging64Bit | CannotDisablePae | PlatformError (code : Z).
Inductive VmxCpuInitError :=
  FeatureControlConfigFailed (e : VmxConfigureFeatureControlError) | FailedToEnableVMX (e : CrError) | VmxonAllocFailed (e : VmxonAllocError).
Inductive VmxInitError := Unsupported | FailedToReadBasicInfo | FailedToEnableCPU (core : Z) (error : VmxCpuInitError) | MemoryAllocationFailed.
Inductive VmxoffError := DualMonitorTreatmentActive.
Inductive LoadError := EInval | DeviceFailed.

Definition set_cpu (i : Z) c w : machine := mkMachine (<[i := c]> (m_cpus w)) (m_pages w) (m_revision w) (m_handler w).
Definition set_handler (b : bool) w : machine := mkMachine (m_cpus w) (m_pages w) (m_revision w) b.
Definition set_revision (r : Z) w : machine := mkMachine (m_cpus w) (m_pages w) r (m_handler w).
Definition set_page (p : Z) (word : option Z) w : machine :=
  mkMachine (m_cpus w) (match word with Some x => <[p := x]> (m_pages w) | None => delete p (m_pages w) end) (m_revision w) (m_handler w).
Definition with_pcpu (v : bedrock_vcpu) c : cpu := mkCpu (c_msrs c) (c_vmxe c) (c_vmx c) v.
Definition current {E} (i : Z) : M machine E cpu := demand (λ w, m_cpus w !! i).
Definition on_cpu {E} (i : Z) (f : cpu → cpu) : M machine E () := c ← current i; modify (set_cpu i (f c)).
Definition map_err {A E E'} (f : E → E') (m : M machine E A) : M machine E' A := λ w,
  match m w with (Done a, w) => (Done a, w) | (Fail e, w) => (Fail (f e), w) | (Stuck, w) => (Stuck, w) end.

Section Init.
Context (vmxon_flags : cpu → Z → Z → Z) (vmxoff_flags : cpu → Z) (wrmsr_taken : cpu → Z → Z → bool)
  (alloc_page : machine → option Z) (smp_call : Z → bool).

(** ** One processor *)
Definition feature_enabled (c : cpu) : bool :=
  match c_msrs c !! IA32_FEATURE_CONTROL with Some v => has v FEAT_CTL_LOCKED && has v FEAT_CTL_VMX_ENABLED_OUTSIDE_SMX | None => false end.
(** VMXON: [#UD] without CR4.VMXE, [#GP] unless the feature is enabled and locked. *)
Definition vmxon (i phys : Z) : M machine VmxonError () :=
  c ← current i;
  if negb (c_vmxe c) then stuck else if negb (feature_enabled c) then stuck
  else
    word ← demand (λ w, m_pages w !! phys);
    let rflags := vmxon_flags c word phys in
    if Z.land rflags 1 =? 1 then throw InvalidPointer
    else if Z.land (Z.shiftr rflags 6) 1 =? 1 then throw AlreadyInVmxOperation
    else on_cpu i (λ c, mkCpu (c_msrs c) (c_vmxe c) (Some phys) (c_pcpu c)).
(** VMXOFF: [#UD] outside VMX operation. *)
Definition vmxoff (i : Z) : M machine VmxoffError () :=
  c ← current i;
  if c_vmx c is None then stuck
  else if Z.land (Z.shiftr (vmxoff_flags c) 6) 1 =? 1 then throw DualMonitorTreatmentActive
  else on_cpu i (λ c, mkCpu (c_msrs c) (c_vmxe c) None (c_pcpu c)).
(** The kernel's implementation of the trait has no error of its own. *)
Definition set_vmxe (i : Z) : M machine CrError () := on_cpu i (λ c, mkCpu (c_msrs c) true (c_vmx c) (c_pcpu c)).
(** Clearing CR4.VMXE in VMX operation is a [#GP]. *)
Definition clear_vmxe {E} (i : Z) : M machine E () :=
  c ← current i;
  if c_vmx c is Some _ then stuck else on_cpu i (λ c, mkCpu (c_msrs c) false (c_vmx c) (c_pcpu c)).

Definition configure_feature_control (i : Z) : M machine VmxConfigureFeatureControlError () :=
  c ← current i;
  match c_msrs c !! IA32_FEATURE_CONTROL with
  | None => throw MsrReadFailed
  | Some feature_control =>
      if has feature_control FEAT_CTL_LOCKED && has feature_control FEAT_CTL_VMX_ENABLED_OUTSIDE_SMX then mret ()
      else if has feature_control FEAT_CTL_LOCKED then throw Locked
      else
        let v := Z.lor (Z.lor feature_control FEAT_CTL_VMX_ENABLED_OUTSIDE_SMX) FEAT_CTL_LOCKED in
        if wrmsr_taken c IA32_FEATURE_CONTROL v
        then on_cpu i (λ c, mkCpu (<[IA32_FEATURE_CONTROL := v]> (c_msrs c)) (c_vmxe c) (c_vmx c) (c_pcpu c))
        else throw MsrWriteFailed
  end.
(** [VmxOnRegion::new]: the zeroed page gets the revision; it is freed when VMXON fails, and given away when it does not. *)
Definition free_on_failure (phys : Z) (m : M machine VmxonError ()) : M machine VmxonAllocError Z := λ w,
  match m w with
  | (Done _, w) => (Done phys, w)
  | (Fail e, w) => (Fail (VmxonFailed e), set_page phys None w)
  | (Stuck, w) => (Stuck, w)
  end.
Definition region_new (i : Z) : M machine VmxonAllocError Z :=
  page ← gets alloc_page;
  match page with
  | None => throw RegionAllocationFailed
  | Some phys =>
      revision ← gets m_revision;
      modify (set_page phys (Some (Z.land revision 0x7fffffff)));;
      free_on_failure phys (vmxon i phys)
  end.
(** [VmxCpu::init]. *)
Definition vcpu_init (i : Z) : M machine VmxCpuInitError () :=
  c ← current i;
  if pc_vmxon (c_pcpu c) then stuck
  else
    map_err FeatureControlConfigFailed (configure_feature_control i);;
    map_err FailedToEnableVMX (set_vmxe i);;
    region ← map_err VmxonAllocFailed (region_new i);
    on_cpu i (λ c, with_pcpu (mkPcpu true region (read_capabilities (c_msrs c))) c).
(** [VmxCpu::deinitialize]. *)
Definition deinitialize (i : Z) : M machine VmxoffError () :=
  c ← current i;
  if pc_vmxon (c_pcpu c) then
    vmxoff i;;
    clear_vmxe i;;
    on_cpu i (λ c, with_pcpu (mkPcpu false (pc_region (c_pcpu c)) (pc_capabilities (c_pcpu c))) c)
  else mret ().

(** ** All processors *)
(** [bedrock_for_each_cpu] under [call_on_all_cpus_with_data]: it stops at the first
    processor whose call fails, and reports the error the callback stored, if any. *)
Fixpoint call_on_all_cpus {E} (online : list Z) (func : Z → M machine E ()) : M machine E () :=
  match online with
  | [] => mret ()
  | i :: online => if smp_call i then func i;; call_on_all_cpus online func else mret ()
  end.
(** [vmx_load_basic_info] on the processor that loads the module. *)
Definition vmx_load_basic_info (me : Z) : M machine VmxInitError Z :=
  c ← current me;
  match c_msrs c !! IA32_VMX_BASIC with Some v => mret (Z.land v 0x7fffffff) | None => throw FailedToReadBasicInfo end.
Definition initialize (is_supported : bool) (me : Z) (online : list Z) : M machine VmxInitError () :=
  if negb is_supported then throw Unsupported
  else
    revision ← vmx_load_basic_info me;
    modify (set_revision revision);;
    call_on_all_cpus online (λ i, map_err (FailedToEnableCPU i) (vcpu_init i)).
(** [BedrockHandler::new]. *)
Definition new_handler (is_supported heap : bool) (me : Z) (online : list Z) : M machine VmxInitError () :=
  initialize is_supported me online;;
  if heap then mret () else throw MemoryAllocationFailed.
(** [InPlaceModule::init] and the drop of the module. *)
Definition module_init (is_supported heap registered : bool) (me : Z) (online : list Z) : M machine LoadError () :=
  map_err (λ _, EInval) (new_handler is_supported heap me online);;
  modify (set_handler true);;
  if registered then mret () else throw DeviceFailed.
(** An error that is only logged. *)
Definition logged {E} (m : M machine E ()) : M machine E () := λ w,
  match m w with (Stuck, w) => (Stuck, w) | (_, w) => (Done (), w) end.
Definition module_drop (online : list Z) : M machine VmxoffError () :=
  modify (set_handler false);;
  logged (call_on_all_cpus online deinitialize).
End Init.

(** * Lemmas *)
Lemma current_at {E} i c w : m_cpus w !! i = Some c → current (E:=E) i w = (Done c, w).
Proof. intros H. unfold current, demand. by rewrite H. Qed.
Lemma on_cpu_at {E} i f c w : m_cpus w !! i = Some c → on_cpu (E:=E) i f w = (Done (), set_cpu i (f c) w).
Proof. intros H. unfold on_cpu, mbind, M_bind. by rewrite (current_at i c). Qed.
Lemma set_cpu_at i c w : m_cpus (set_cpu i c w) !! i = Some c.
Proof. apply lookup_insert_eq. Qed.
Lemma set_cpu_other i j c w : i ≠ j → m_cpus (set_cpu i c w) !! j = m_cpus w !! j.
Proof. apply lookup_insert_ne. Qed.
Lemma set_cpu_twice i c c' w : set_cpu i c (set_cpu i c' w) = set_cpu i c w.
Proof. unfold set_cpu. cbn. by rewrite insert_insert_eq. Qed.
Lemma set_cpu_page i c p x w : set_cpu i c (set_page p x w) = set_page p x (set_cpu i c w).
Proof. done. Qed.

(** The module's record of a processor is the truth. *)
Definition record_true w c : Prop :=
  if pc_vmxon (c_pcpu c) then c_vmx c = Some (pc_region (c_pcpu c)) ∧ c_vmxe c = true ∧ is_Some (m_pages w !! pc_region (c_pcpu c))
  else c_vmx c = None.
Record honest w : Prop := {
  ho_record i c : m_cpus w !! i = Some c → record_true w c;
  ho_regions i j ci cj : m_cpus w !! i = Some ci → m_cpus w !! j = Some cj → pc_vmxon (c_pcpu ci) = true → pc_vmxon (c_pcpu cj) = true →
    pc_region (c_pcpu ci) = pc_region (c_pcpu cj) → i = j;
}.
(** A processor as a successful load leaves it, from the registers it had. *)
Definition feature_on (v : Z) : Z :=
  if has v FEAT_CTL_LOCKED then v else Z.lor (Z.lor v FEAT_CTL_VMX_ENABLED_OUTSIDE_SMX) FEAT_CTL_LOCKED.
Definition ready w c0 c : Prop :=
  c_msrs c = alter feature_on IA32_FEATURE_CONTROL (c_msrs c0) ∧ feature_enabled c = true ∧ c_vmxe c = true ∧ pc_vmxon (c_pcpu c) = true ∧
  c_vmx c = Some (pc_region (c_pcpu c)) ∧ pc_capabilities (c_pcpu c) = read_capabilities (c_msrs c) ∧
  m_pages w !! pc_region (c_pcpu c) = Some (Z.land (m_revision w) 0x7fffffff).
(** What a step on one processor leaves alone. *)
Definition only (i : Z) w w' : Prop :=
  (∀ j, j ≠ i → m_cpus w' !! j = m_cpus w !! j) ∧ m_revision w' = m_revision w ∧ m_handler w' = m_handler w ∧
  ∀ p x, m_pages w !! p = Some x → m_pages w' !! p = Some x.

Lemma enabled_bits v : has v FEAT_CTL_LOCKED = false →
  has (feature_on v) FEAT_CTL_LOCKED && has (feature_on v) FEAT_CTL_VMX_ENABLED_OUTSIDE_SMX = true.
Proof.
  intros H. unfold feature_on. rewrite H. unfold has, FEAT_CTL_LOCKED, FEAT_CTL_VMX_ENABLED_OUTSIDE_SMX in *.
  change (Z.shiftl 1 0) with 1 in *. change (Z.shiftl 1 2) with 4 in *. apply andb_true_iff; split; apply negb_true_iff, Z.eqb_neq; intros E.
  - apply (f_equal (λ z, Z.testbit z 0)) in E. rewrite Z.land_spec, !Z.lor_spec in E. change (Z.testbit 1 0) with true in E. by rewrite orb_true_r in E.
  - apply (f_equal (λ z, Z.testbit z 2)) in E. rewrite Z.land_spec, !Z.lor_spec in E. change (Z.testbit 4 2) with true in E. by rewrite orb_true_r in E.
Qed.

Lemma honest_off i c w : honest w → pc_vmxon (c_pcpu c) = false → c_vmx c = None → honest (set_cpu i c w).
Proof.
  intros Hh Hp Hv. split.
  - intros j cj Hj. destruct (decide (j = i)) as [->|Hne].
    + rewrite set_cpu_at in Hj. simplify_eq. unfold record_true. by rewrite Hp.
    + rewrite set_cpu_other in Hj by done. by apply (ho_record w Hh j).
  - intros j k cj ck Hj Hk Hpj Hpk. destruct (decide (j = i)) as [->|Hnj]; [rewrite set_cpu_at in Hj; simplify_eq; congruence|].
    destruct (decide (k = i)) as [->|Hnk]; [rewrite set_cpu_at in Hk; simplify_eq; congruence|].
    rewrite set_cpu_other in Hj, Hk by done. by apply (ho_regions w Hh j k cj ck).
Qed.
(** A processor enters VMX operation with a page that was not in use. *)
Lemma honest_on i c x w : honest w → record_true (set_page (pc_region (c_pcpu c)) (Some x) w) c → m_pages w !! pc_region (c_pcpu c) = None →
  honest (set_cpu i c (set_page (pc_region (c_pcpu c)) (Some x) w)).
Proof.
  intros Hh Hc Hp. set (p := pc_region (c_pcpu c)) in *. set (w' := set_cpu i c _).
  assert (∀ j cj, j ≠ i → m_cpus w' !! j = Some cj → m_cpus w !! j = Some cj ∧ (pc_vmxon (c_pcpu cj) = true → pc_region (c_pcpu cj) ≠ p)) as Hj.
  { intros j cj Hne Hj. unfold w' in Hj. rewrite set_cpu_other in Hj by done. split; [done|]. intros Hpj Heq.
    pose proof (ho_record w Hh j cj Hj) as Hrj. unfold record_true in Hrj. rewrite Hpj in Hrj. destruct Hrj as (_ & _ & [y Hy]). by rewrite Heq, Hp in Hy. }
  assert (m_cpus w' !! i = Some c) as Hi by apply set_cpu_at. split.
  - intros j cj Hcj. destruct (decide (j = i)) as [->|Hne]; [rewrite Hi in Hcj; by simplify_eq|].
    destruct (Hj j cj Hne Hcj) as [Hcj' Hpj]. pose proof (ho_record w Hh j cj Hcj') as Hrj. unfold record_true in *.
    destruct (pc_vmxon (c_pcpu cj)); [|done]. destruct Hrj as (? & ? & [y Hy]). split_and!; [done..|]. exists y. cbn. rewrite lookup_insert_ne; [done|]. intros E. by apply Hpj.
  - intros j k cj ck Hcj Hck Hpj Hpk Heq. destruct (decide (j = i)) as [->|Hnj], (decide (k = i)) as [->|Hnk]; [done|..].
    + rewrite Hi in Hcj. simplify_eq. destruct (Hj k ck Hnk Hck) as [_ Hd]. by destruct (Hd Hpk).
    + rewrite Hi in Hck. simplify_eq. destruct (Hj j cj Hnj Hcj) as [_ Hd]. by destruct (Hd Hpj).
    + destruct (Hj j cj Hnj Hcj), (Hj k ck Hnk Hck). by apply (ho_regions w Hh j k cj ck).
Qed.

Section Loading.
Context (vmxon_flags : cpu → Z → Z → Z) (vmxoff_flags : cpu → Z) (wrmsr_taken : cpu → Z → Z → bool)
  (alloc_page : machine → option Z) (smp_call : Z → bool).
(** The page allocator gives pages that are not in use. *)
Context (alloc_fresh : ∀ w p, alloc_page w = Some p → m_pages w !! p = None).
Local Notation vmxon := (vmxon vmxon_flags).
Local Notation configure_feature_control := (configure_feature_control wrmsr_taken).
Local Notation region_new := (region_new vmxon_flags alloc_page).
Local Notation vcpu_init := (vcpu_init vmxon_flags wrmsr_taken alloc_page).

(** What lets a processor be enabled: its feature register, and VMXON. *)
Definition can_enable c : bool :=
  match c_msrs c !! IA32_FEATURE_CONTROL with
  | Some v => if has v FEAT_CTL_LOCKED then has v FEAT_CTL_VMX_ENABLED_OUTSIDE_SMX else wrmsr_taken c IA32_FEATURE_CONTROL (feature_on v)
  | None => false
  end.
Definition accepts (revision : Z) c : Prop := ∀ p, p mod 4096 = 0 →
  let flags := vmxon_flags (mkCpu (alter feature_on IA32_FEATURE_CONTROL (c_msrs c)) true (c_vmx c) (c_pcpu c)) (Z.land revision 0x7fffffff) p in
  Z.land flags 1 = 0 ∧ Z.land (Z.shiftr flags 6) 1 = 0.
Definition pages_left : Prop := ∀ w, ∃ p, alloc_page w = Some p ∧ p mod 4096 = 0.

Lemma configure_spec i c w : m_cpus w !! i = Some c →
  (can_enable c = false ∧ ∃ e, configure_feature_control i w = (Fail e, w)) ∨
  ∃ c', configure_feature_control i w = (Done (), set_cpu i c' w) ∧ feature_enabled c' = true ∧
    c' = mkCpu (alter feature_on IA32_FEATURE_CONTROL (c_msrs c)) (c_vmxe c) (c_vmx c) (c_pcpu c).
Proof.
  intros Hi. unfold can_enable, VmxInit.configure_feature_control, mbind, M_bind. rewrite (current_at i c) by done.
  destruct (c_msrs c !! IA32_FEATURE_CONTROL) as [v|] eqn:Ev; [|left; split; [done|by eexists]].
  assert (∀ v', feature_on v = v' → alter feature_on IA32_FEATURE_CONTROL (c_msrs c) = <[IA32_FEATURE_CONTROL := v']> (c_msrs c)) as Ha.
  { intros v' <-. apply map_eq. intros k. destruct (decide (k = IA32_FEATURE_CONTROL)) as [->|].
    - by rewrite lookup_alter_eq, lookup_insert_eq, Ev.
    - by rewrite lookup_alter_ne, lookup_insert_ne. }
  destruct (has v FEAT_CTL_LOCKED) eqn:El; cbn [andb].
  - destruct (has v FEAT_CTL_VMX_ENABLED_OUTSIDE_SMX) eqn:Ee; [|left; split; [done|by eexists]]. right. exists c.
    assert (feature_on v = v) as Hv by (unfold feature_on; by rewrite El).
    split; [|split].
    + f_equal. destruct w. unfold set_cpu. cbn in *. by rewrite insert_id.
    + unfold feature_enabled. by rewrite Ev, El, Ee.
    + rewrite (Ha v) by done. rewrite insert_id by done. by destruct c.
  - cbv zeta. unfold feature_on at 1. rewrite El. destruct (wrmsr_taken _ _ _); [|left; split; [done|by eexists]]. right. eexists. split; [by apply on_cpu_at|].
    rewrite (Ha _ eq_refl). unfold feature_on. rewrite El. split; [|done].
    unfold feature_enabled. cbn. rewrite lookup_insert_eq. pose proof (enabled_bits v El) as H. unfold feature_on in H. by rewrite El in H.
Qed.
Lemma region_new_spec i c w : m_cpus w !! i = Some c → c_vmxe c = true → feature_enabled c = true →
  (∃ e w', region_new i w = (Fail e, w') ∧ m_cpus w' = m_cpus w ∧ m_pages w' = m_pages w ∧ m_revision w' = m_revision w ∧ m_handler w' = m_handler w ∧
     ∀ p, alloc_page w = Some p →
       let flags := vmxon_flags c (Z.land (m_revision w) 0x7fffffff) p in ¬ (Z.land flags 1 = 0 ∧ Z.land (Z.shiftr flags 6) 1 = 0)) ∨
  ∃ p, alloc_page w = Some p ∧
    region_new i w = (Done p, set_cpu i (mkCpu (c_msrs c) (c_vmxe c) (Some p) (c_pcpu c)) (set_page p (Some (Z.land (m_revision w) 0x7fffffff)) w)).
Proof.
  intros Hi He Hf. unfold VmxInit.region_new, mbind, M_bind, gets. destruct (alloc_page w) as [p|] eqn:Ep; [|left; by eexists _, _].
  pose proof (alloc_fresh w p Ep) as Hfresh. unfold modify. cbv beta iota. set (w1 := set_page p _ w). assert (m_cpus w1 !! i = Some c) as Hi1 by done.
  unfold free_on_failure, VmxInit.vmxon, mbind, M_bind. rewrite (current_at i c) by done. rewrite He, Hf. cbn [negb].
  unfold demand. assert (m_pages w1 !! p = Some (Z.land (m_revision w) 0x7fffffff)) as -> by apply lookup_insert_eq.
  assert (m_pages (set_page p None w1) = m_pages w) as Hback by (unfold w1, set_page; cbn; rewrite delete_insert_eq; by apply delete_id).
  destruct (Z.eqb_spec (Z.land (vmxon_flags c (Z.land (m_revision w) 0x7fffffff) p) 1) 1) as [E1|].
  { left. eexists _, _. split_and!; try done. intros ? [= <-]. cbn. by rewrite E1; intros [? _]. }
  destruct (Z.eqb_spec (Z.land (Z.shiftr (vmxon_flags c (Z.land (m_revision w) 0x7fffffff) p) 6) 1) 1) as [E2|].
  { left. eexists _, _. split_and!; try done. intros ? [= <-]. cbn. by rewrite E2; intros [_ ?]. }
  right. exists p. split; [done|]. rewrite (on_cpu_at i _ c) by done. by rewrite He.
Qed.

(** One processor is taken into VMX operation, or is left outside of it. *)
Lemma vcpu_init_spec i c w : honest w → m_cpus w !! i = Some c → pc_vmxon (c_pcpu c) = false →
  let '(r, w') := vcpu_init i w in
  r ≠ Stuck ∧ honest w' ∧ only i w w' ∧ ∃ c', m_cpus w' !! i = Some c' ∧ (r = Done () → ready w' c c') ∧ (can_enable c = true → pages_left → accepts (m_revision w) c → r = Done ()).
Proof.
  intros Hh Hi Hoff. pose proof (ho_record w Hh i c Hi) as Hr. unfold record_true in Hr. rewrite Hoff in Hr.
  unfold VmxInit.vcpu_init, mbind, M_bind. rewrite (current_at i c) by done. rewrite Hoff. unfold map_err.
  destruct (configure_spec i c w Hi) as [[Hno [e ->]]|(c1 & -> & Hen & Hc1)]; [|subst c1].
  { split; [done|]. split; [done|]. split; [by repeat split|]. exists c. split; [done|]. split; [done|]. by rewrite Hno. }
  unfold set_vmxe. set (c1 := mkCpu _ _ _ _) in *. rewrite (on_cpu_at i _ c1) by apply set_cpu_at. rewrite set_cpu_twice.
  set (c2 := mkCpu (c_msrs c1) true (c_vmx c1) (c_pcpu c1)). set (w2 := set_cpu i c2 w).
  assert (pc_vmxon (c_pcpu c2) = false ∧ c_vmx c2 = None) as [Hp2 Hv2] by done.
  assert (only i w w2) as Honly2 by (repeat split; [intros j Hj; by apply set_cpu_other|done..]).
  destruct (region_new_spec i c2 w2) as [(e & w3 & -> & E1 & E2 & E3 & E4 & E5)|(p & Hp & ->)]; [apply set_cpu_at|done|done|..].
  - split; [done|]. assert (w3 = w2) as -> by (destruct w3, w2; cbn in *; congruence).
    split; [by apply honest_off|]. split; [done|]. exists c2. split; [apply set_cpu_at|]. split; [done|].
    intros _ Hpages Hacc. destruct (Hpages w2) as (p & Hp & Hal). by destruct (E5 p Hp (Hacc p Hal)).
  - set (c3 := mkCpu _ _ _ _). rewrite (on_cpu_at i _ c3) by apply set_cpu_at. rewrite set_cpu_twice.
    set (c4 := with_pcpu _ c3). set (w4 := set_cpu i c4 _). apply alloc_fresh in Hp. change (m_pages w !! p = None) in Hp.
    assert (∀ q x, m_pages w !! q = Some x → m_pages w4 !! q = Some x) as Hpages.
    { intros q x Hq. cbn. rewrite lookup_insert_ne; [done|]. intros ->. by rewrite Hp in Hq. }
    assert (∀ j, j ≠ i → m_cpus w4 !! j = m_cpus w !! j) as Hcpus.
    { intros j Hj. unfold w4. rewrite set_cpu_other by done. cbn. by rewrite lookup_insert_ne. }
    split; [done|]. split.
    { unfold w4.
      apply (honest_on i c4 _ w2); [by apply honest_off| |done]. unfold record_true. cbn. split_and!; [done|done|]. rewrite lookup_insert_eq. by eexists. }
    split; [by repeat split|]. exists c4. split; [apply set_cpu_at|]. split; [|done]. intros _. unfold ready. cbn. rewrite lookup_insert_eq.
    by split_and!.
Qed.

(** *** Over the processors *)
Definition among (online : list Z) w w' : Prop :=
  (∀ j, j ∉ online → m_cpus w' !! j = m_cpus w !! j) ∧ m_revision w' = m_revision w ∧ m_handler w' = m_handler w ∧
  ∀ p x, m_pages w !! p = Some x → m_pages w' !! p = Some x.
Lemma among_step i online w w1 w2 : only i w w1 → among online w1 w2 → among (i :: online) w w2.
Proof.
  intros (A1 & A2 & A3 & A4) (B1 & B2 & B3 & B4). split_and!; [|congruence|congruence|by auto].
  intros j Hj. apply not_elem_of_cons in Hj as [? ?]. by rewrite B1, A1.
Qed.
Lemma ready_later w w' c c' : ready w c c' → m_revision w' = m_revision w → (∀ p x, m_pages w !! p = Some x → m_pages w' !! p = Some x) → ready w' c c'.
Proof. unfold ready. intros (? & ? & ? & ? & ? & ? & Hp) Hr Hm. rewrite Hr. split_and!; auto. Qed.
Definition off w i : Prop := ∃ c, m_cpus w !! i = Some c ∧ pc_vmxon (c_pcpu c) = false.

Lemma init_all_spec online : ∀ w, honest w → NoDup online → (∀ i, i ∈ online → off w i) →
  let '(r, w') := call_on_all_cpus smp_call online (λ i, map_err (FailedToEnableCPU i) (vcpu_init i)) w in
  r ≠ Stuck ∧ honest w' ∧ among online w w' ∧ (∀ i, i ∈ online → is_Some (m_cpus w' !! i)) ∧
  (r = Done () → (∀ i, i ∈ online → smp_call i = true) → ∀ i c, i ∈ online → m_cpus w !! i = Some c → ∃ c', m_cpus w' !! i = Some c' ∧ ready w' c c') ∧
  (pages_left → (∀ i c, i ∈ online → m_cpus w !! i = Some c → can_enable c = true ∧ accepts (m_revision w) c) → r = Done ()).
Proof.
  induction online as [|i online IH]; intros w Hh Hnd Hoff; cbn [call_on_all_cpus].
  { split_and!; [done|done|by repeat split|by intros i ?%elem_of_nil|by intros _ _ i c ?%elem_of_nil|done]. }
  apply NoDup_cons in Hnd as [Hni Hnd].
  assert (∀ j, j ∈ i :: online → is_Some (m_cpus w !! j)) as Hsome by (intros j Hj; destruct (Hoff j Hj) as (c & -> & _); by eexists).
  destruct (smp_call i) eqn:Es.
  2: { split_and!; [done|done|by repeat split|done| |done]. intros _ Ha. by rewrite (Ha i) in Es by left. }
  destruct (Hoff i ltac:(left)) as (c & Hi & Hc). pose proof (vcpu_init_spec i c w Hh Hi Hc) as H.
  unfold mbind, M_bind, map_err at 1. destruct (vcpu_init i w) as [r w1]. destruct H as (Hr & Hh1 & Ho & c1 & Hi1 & Hready & Hgood).
  destruct Ho as (Ho1 & Ho2 & Ho3 & Ho4).
  destruct r as [[]|e|]; [|split_and!; [done|done|split_and!; [|done..]|..|done|]|done].
  - specialize (IH w1 Hh1 Hnd). destruct (call_on_all_cpus _ _ _ w1) as [r w2].
    destruct IH as (A1 & A2 & A3 & A4 & A5 & A6).
    { intros j Hj. destruct (Hoff j ltac:(by right)) as (cj & ? & ?). exists cj. rewrite Ho1 by (by intros ->). done. }
    split_and!; [done|done|by eapply among_step| | |].
    + intros j [->|Hj]%elem_of_cons; [|by apply A4]. destruct A3 as (A3 & _). rewrite A3 by done. by eexists.
    + intros -> Ha j cj [->|Hj]%elem_of_cons Hcj.
      * simplify_eq. destruct A3 as (A3 & B2 & _ & B4). exists c1. rewrite A3 by done. split; [done|]. apply (ready_later w1); auto.
      * apply (A5 eq_refl); [by intros; apply Ha; right|done|]. rewrite Ho1; [done|]. by intros ->.
    + intros Hpl Hall. apply A6; [done|]. intros j cj Hj Hcj. rewrite Ho2. apply (Hall j); [by right|]. rewrite <- Ho1; [done|]. by intros ->.
  - intros j Hj. apply not_elem_of_cons in Hj as [? _]. by apply Ho1.
  - intros j Hj. destruct (decide (j = i)) as [->|]; [by eexists|]. rewrite Ho1 by done. by apply Hsome.
  - intros Hpl Hall. destruct (Hall i c ltac:(left) Hi). by apply Hgood in Hpl.
Qed.

(** *** Unloading *)
Local Notation deinitialize := (deinitialize vmxoff_flags).
Definition taken_out c : cpu :=
  if pc_vmxon (c_pcpu c) then mkCpu (c_msrs c) false None (mkPcpu false (pc_region (c_pcpu c)) (pc_capabilities (c_pcpu c))) else c.
Lemma deinitialize_spec i c w : honest w → m_cpus w !! i = Some c →
  ∃ w', honest w' ∧ only i w w' ∧ is_Some (m_cpus w' !! i) ∧
    (deinitialize i w = (Fail DualMonitorTreatmentActive, w') ∧ Z.testbit (vmxoff_flags c) 6 = true ∨
     deinitialize i w = (Done (), w') ∧ m_cpus w' !! i = Some (taken_out c)).
Proof.
  intros Hh Hi. pose proof (ho_record w Hh i c Hi) as Hr. unfold record_true in Hr. unfold VmxInit.deinitialize, mbind, M_bind.
  rewrite (current_at i c) by done. unfold taken_out. destruct (pc_vmxon (c_pcpu c)) eqn:Ep.
  2: { exists w. split_and!; [done|by repeat split|by eexists|]. by right. }
  destruct Hr as (Hv & He & Hpage). unfold VmxInit.vmxoff, mbind, M_bind. rewrite (current_at i c), Hv by done.
  destruct (_ =? 1) eqn:Ef.
  { exists w. split_and!; [done|by repeat split|by eexists|]. left. split; [done|]. apply Z.eqb_eq in Ef.
    apply (f_equal (λ z, Z.testbit z 0)) in Ef. rewrite Z.land_spec, Z.shiftr_spec in Ef by lia. change (Z.testbit 1 0) with true in Ef. by rewrite andb_true_r in Ef. }
  rewrite (on_cpu_at i _ c) by done. unfold clear_vmxe, mbind, M_bind. rewrite (current_at i _ (set_cpu i _ w)) by apply set_cpu_at. cbn [c_vmx].
  erewrite on_cpu_at by apply set_cpu_at. rewrite set_cpu_twice. erewrite on_cpu_at by apply set_cpu_at. rewrite set_cpu_twice.
  exists (set_cpu i (mkCpu (c_msrs c) false None (mkPcpu false (pc_region (c_pcpu c)) (pc_capabilities (c_pcpu c)))) w). split; [by apply honest_off|]. split; [split_and!; [intros j Hj; by apply set_cpu_other|done..]|]. split; [rewrite set_cpu_at; by eexists|].
  right. split; [done|]. apply set_cpu_at.
Qed.
Lemma drop_all_spec online : ∀ w, honest w → NoDup online → (∀ i, i ∈ online → is_Some (m_cpus w !! i)) →
  let '(r, w') := call_on_all_cpus smp_call online deinitialize w in
  r ≠ Stuck ∧ honest w' ∧ among online w w' ∧
  ((∀ i, i ∈ online → smp_call i = true) → (∀ c, Z.testbit (vmxoff_flags c) 6 = false) → ∀ i, i ∈ online → m_cpus w' !! i = taken_out <$> m_cpus w !! i).
Proof.
  induction online as [|i online IH]; intros w Hh Hnd Hsome; cbn [call_on_all_cpus].
  { split_and!; [done|done|by repeat split|by intros _ _ i ?%elem_of_nil]. }
  apply NoDup_cons in Hnd as [Hni Hnd]. destruct (smp_call i) eqn:Es.
  2: { split_and!; [done|done|by repeat split|]. intros Ha. by rewrite (Ha i) in Es by left. }
  destruct (Hsome i ltac:(left)) as [c Hi]. destruct (deinitialize_spec i c w Hh Hi) as (w1 & Hh1 & Ho & Hi1 & Hcase).
  unfold mbind, M_bind. destruct Hcase as [[-> Hf]|[-> Hc]].
  - split_and!; [done|done| |intros _ Hv; by rewrite Hv in Hf]. apply (among_step i online w w1 w1 Ho). by repeat split.
  - specialize (IH w1 Hh1 Hnd). destruct (call_on_all_cpus _ _ _ w1) as [r w2]. destruct IH as (A1 & A2 & A3 & A4).
    { intros j Hj. destruct (decide (j = i)) as [->|]; [done|]. destruct Ho as (Ho & _). rewrite Ho by done. apply Hsome. by right. }
    split_and!; [done|done|by eapply among_step|]. intros Ha Hv j [->|Hj]%elem_of_cons.
    + destruct A3 as (A3 & _). by rewrite A3, Hc, Hi.
    + rewrite A4 by (done || by intros; apply Ha; right). destruct Ho as (Ho & _). rewrite Ho; [done|]. by intros ->.
Qed.

(** * Theorems *)
Local Notation module_init := (module_init vmxon_flags wrmsr_taken alloc_page smp_call).
Local Notation module_drop := (module_drop vmxoff_flags smp_call).
(** Nothing but the revision and the handler is outside the processors' steps. *)
Lemma honest_same w w' : honest w → m_cpus w' = m_cpus w → m_pages w' = m_pages w → honest w'.
Proof.
  intros Hh Hc Hp. split.
  - intros i c. rewrite Hc. intros H%(ho_record w Hh). unfold record_true in *. by rewrite Hp.
  - rewrite Hc. apply (ho_regions w Hh).
Qed.
Lemma module_init_spec supported heap registered me online w : honest w → NoDup online → me ∈ online → (∀ i, i ∈ online → off w i) →
  let '(r, w') := module_init supported heap registered me online w in
  r ≠ Stuck ∧ honest w' ∧ (∀ j, j ∉ online → m_cpus w' !! j = m_cpus w !! j) ∧ (∀ p x, m_pages w !! p = Some x → m_pages w' !! p = Some x) ∧
  (∀ i, i ∈ online → is_Some (m_cpus w' !! i)) ∧
  (r = Done () → (∀ i, i ∈ online → smp_call i = true) → ∀ i c, i ∈ online → m_cpus w !! i = Some c → ∃ c', m_cpus w' !! i = Some c' ∧ ready w' c c') ∧
  (supported = true → heap = true → registered = true → pages_left →
   (∃ c b, m_cpus w !! me = Some c ∧ c_msrs c !! IA32_VMX_BASIC = Some b ∧
      ∀ i ci, i ∈ online → m_cpus w !! i = Some ci → can_enable ci = true ∧ accepts b ci) → r = Done ()).
Proof.
  intros Hh Hnd Hme Hoff. unfold VmxInit.module_init, new_handler, initialize, mbind, M_bind, map_err.
  assert (∀ i, i ∈ online → is_Some (m_cpus w !! i)) as Hsome by (intros i (c & -> & _)%Hoff; by eexists).
  destruct supported; cbn [negb]; [|by split_and!]. unfold vmx_load_basic_info, mbind, M_bind.
  destruct (Hoff me Hme) as (cm & Hcm & _). rewrite (current_at me cm) by done.
  destruct (c_msrs cm !! IA32_VMX_BASIC) as [b|] eqn:Eb; [|split_and!; [done..|]; intros _ _ _ _ (c & b & Hc & Hb & _); simplify_eq; congruence].
  unfold mret, M_ret, modify. set (w1 := set_revision _ w).
  pose proof (init_all_spec online w1 ltac:(by apply (honest_same w)) Hnd Hoff) as H. unfold map_err in H.
  destruct (call_on_all_cpus _ _ _ w1) as [r w2]. destruct H as (A1 & A2 & (A3 & A3' & _ & A3'') & A4 & A5 & A6).
  assert ((∃ c b, m_cpus w !! me = Some c ∧ c_msrs c !! IA32_VMX_BASIC = Some b ∧
      ∀ i ci, i ∈ online → m_cpus w !! i = Some ci → can_enable ci = true ∧ accepts b ci) → pages_left → r = Done ()) as Hgood.
  { intros (c & b' & Hc & Hb & Hall) Hpl. simplify_eq. apply A6; [done|]. intros i ci Hi Hci. destruct (Hall i ci Hi Hci) as [? Hacc]. split; [done|].
    intros p Hp. cbn. rewrite <- Z.land_assoc. by apply Hacc. }
  destruct r as [[]|e|]; [|split_and!; [done..|]; intros _ _ _ Hpl Hav; by specialize (Hgood Hav Hpl)|done].
  destruct heap; [|by split_and!]. cbv beta iota.
  assert (honest (set_handler true w2)) as Hh2 by (by apply (honest_same w2)).
  destruct registered; split_and!; first [done | intros _; exact (A5 eq_refl)].
Qed.
Lemma module_drop_spec online w : honest w → NoDup online → (∀ i, i ∈ online → is_Some (m_cpus w !! i)) →
  ∃ w', module_drop online w = (Done (), w') ∧ honest w' ∧ (∀ j, j ∉ online → m_cpus w' !! j = m_cpus w !! j) ∧ m_handler w' = false ∧
    ((∀ i, i ∈ online → smp_call i = true) → (∀ c, Z.testbit (vmxoff_flags c) 6 = false) → ∀ i, i ∈ online → m_cpus w' !! i = taken_out <$> m_cpus w !! i).
Proof.
  intros Hh Hnd Hsome. unfold VmxInit.module_drop, mbind, M_bind, modify, logged. set (w1 := set_handler false w).
  pose proof (drop_all_spec online w1 ltac:(by apply (honest_same w)) Hnd Hsome) as H. destruct (call_on_all_cpus _ _ _ w1) as [r w2].
  destruct H as (A1 & A2 & (A3 & _ & A3' & _) & A4). exists w2. split; [by destruct r as [[]| |]|]. by split_and!.
Qed.

(** C20: Loading the module does not fault, if no processor is recorded as being in VMX operation before (the code asserts it) and the record of each
    processor is true.  Whatever the processors answer, whichever pages are given and processors reached, no VMXON is executed without CR4.VMXE and the
    feature bits; the module's record of each processor says the truth after success and failure, regions are not shared, the pages that were in use keep
    their contents, and no offline processor is touched.  When loading succeeds and the calls reached all online processors, each of them is in VMX
    operation with a region of its own that holds the revision, and its own capabilities are recorded.  From there the unloading does not fault either. *)
Theorem module_load_safe supported heap registered me online w : honest w → NoDup online → me ∈ online → (∀ i, i ∈ online → off w i) →
  let '(r, w') := module_init supported heap registered me online w in
  r ≠ Stuck ∧ honest w' ∧ (∀ j, j ∉ online → m_cpus w' !! j = m_cpus w !! j) ∧ (∀ p x, m_pages w !! p = Some x → m_pages w' !! p = Some x) ∧
  (r = Done () → (∀ i, i ∈ online → smp_call i = true) → ∀ i c, i ∈ online → m_cpus w !! i = Some c → ∃ c', m_cpus w' !! i = Some c' ∧ ready w' c c') ∧
  ∃ w2, module_drop online w' = (Done (), w2) ∧ honest w2.
Proof.
  intros Hh Hnd Hme Hoff. pose proof (module_init_spec supported heap registered me online w Hh Hnd Hme Hoff) as H.
  destruct (module_init supported heap registered me online w) as [r w']. destruct H as (A1 & A2 & A3 & A3' & A4 & A5 & _).
  split_and!; [done..|]. destruct (module_drop_spec online w' A2 Hnd A4) as (w2 & ? & ? & _). by exists w2.
Qed.

(** C21: On processors that offer VMX, loading succeeds and unloading undoes it: every online processor enters VMX operation and leaves it, CR4.VMXE is
    set and cleared again, and of the model-specific registers only the feature register has changed, to enabled and locked. *)
Theorem load_unload_restores me online w : honest w → NoDup online → me ∈ online → (∀ i, i ∈ online → smp_call i = true) → pages_left →
  (∀ c, Z.testbit (vmxoff_flags c) 6 = false) →
  (∀ i, i ∈ online → ∃ c, m_cpus w !! i = Some c ∧ pc_vmxon (c_pcpu c) = false ∧ c_vmxe c = false) →
  (∃ c b, m_cpus w !! me = Some c ∧ c_msrs c !! IA32_VMX_BASIC = Some b ∧
     ∀ i ci, i ∈ online → m_cpus w !! i = Some ci → can_enable ci = true ∧ accepts b ci) →
  ∃ w1 w2, module_init true true true me online w = (Done (), w1) ∧ module_drop online w1 = (Done (), w2) ∧
    ∀ i c, i ∈ online → m_cpus w !! i = Some c →
      (∃ c1, m_cpus w1 !! i = Some c1 ∧ ready w1 c c1) ∧
      ∃ c2, m_cpus w2 !! i = Some c2 ∧ c_vmx c2 = None ∧ c_vmxe c2 = c_vmxe c ∧ pc_vmxon (c_pcpu c2) = false ∧
        c_msrs c2 = alter feature_on IA32_FEATURE_CONTROL (c_msrs c).
Proof.
  intros Hh Hnd Hme Hsmp Hpl Hvmxoff Hoff Hav.
  pose proof (module_init_spec true true true me online w Hh Hnd Hme ltac:(intros i (c & ? & ? & _)%Hoff; by exists c)) as H.
  destruct (module_init true true true me online w) as [r w1]. destruct H as (A1 & A2 & A3 & _ & A4 & A5 & A6).
  specialize (A6 eq_refl eq_refl eq_refl Hpl Hav). subst r. specialize (A5 eq_refl Hsmp).
  destruct (module_drop_spec online w1 A2 Hnd A4) as (w2 & Hd & _ & _ & _ & B). specialize (B Hsmp Hvmxoff).
  exists w1, w2. split; [done|]. split; [done|]. intros i c Hi Hc. destruct (A5 i c Hi Hc) as (c1 & Hc1 & Hr). split; [by exists c1|].
  rewrite (B i Hi), Hc1. destruct (Hoff i Hi) as (c' & Hc' & _ & He). simplify_eq. destruct Hr as (Hm & _ & _ & Hp & _).
  exists (taken_out c1). split; [done|]. unfold taken_out. rewrite Hp. cbn. by rewrite He.
Qed.
End Loading.

(** ** Examples *)
Definition demo_pcpu : bedrock_vcpu := mkPcpu false 0 (read_capabilities ∅).
Definition demo_cpu : cpu := mkCpu {[IA32_FEATURE_CONTROL := 0; IA32_VMX_BASIC := 0x4]} false None demo_pcpu.
Definition demo_machine : machine := mkMachine {[0 := demo_cpu; 1 := demo_cpu]} ∅ 0 false.
(** The page after the greatest one in use. *)
Definition demo_alloc (w : machine) : option Z := Some (4096 * (1 + map_fold (λ p _ m, Z.max (p / 4096) m) 0 (m_pages w))).
Lemma demo_above (m : gmap Z Z) : ∀ p x, m !! p = Some x → p / 4096 ≤ map_fold (λ p _ m, Z.max (p / 4096) m) 0 m.
Proof.
  induction m as [|q y m Hq Hf IH] using map_first_key_ind; [done|]. intros p x Hp.
  rewrite map_fold_insert_first_key by done. destruct (decide (p = q)) as [->|]; [lia|].
  rewrite lookup_insert_ne in Hp by done. apply IH in Hp. lia.
Qed.
Lemma demo_fresh w p : demo_alloc w = Some p → m_pages w !! p = None.
Proof.
  unfold demo_alloc. intros [= <-]. destruct (m_pages w !! _) as [x|] eqn:E; [|done]. apply demo_above in E.
  rewrite Z.mul_comm, Z.div_mul in E by lia. lia.
Qed.
Lemma demo_cpus i c : m_cpus demo_machine !! i = Some c → c = demo_cpu.
Proof. unfold demo_machine. cbn [m_cpus]. intros [[_ <-]|[_ [_ <-]%lookup_singleton_Some]]%lookup_insert_Some; done. Qed.
Lemma demo_honest : honest demo_machine.
Proof.
  split.
  - by intros i c ->%demo_cpus.
  - intros i j ci cj ->%demo_cpus ->%demo_cpus. done.
Qed.
Lemma demo_off i : i ∈ [0; 1] → m_cpus demo_machine !! i = Some demo_cpu.
Proof. intros [->|[->|[]%elem_of_nil]%elem_of_cons]%elem_of_cons; done. Qed.
Lemma demo_online : NoDup [0; 1].
Proof. repeat constructor; set_solver. Qed.
(** Two processors; the second one's VMXON fails. *)
Lemma module_load_safe_witness :
  let '(r, w') := module_init (λ _ _ p, if p =? 4096 then 0 else 1) (λ _ _ _, true) demo_alloc (λ _, true) true true true 0 [0; 1] demo_machine in
  r = Fail EInval ∧ honest w' ∧ ∃ w2, module_drop (λ _, 0) (λ _, true) [0; 1] w' = (Done (), w2) ∧ honest w2.
Proof.
  pose proof (module_load_safe (λ _ _ p, if p =? 4096 then 0 else 1) (λ _, 0) (λ _ _ _, true) demo_alloc (λ _, true) demo_fresh
    true true true 0 [0; 1] demo_machine demo_honest demo_online ltac:(left) ltac:(intros i Hi; exists demo_cpu; split; [by apply demo_off|done])) as H.
  assert ((module_init (λ _ _ p, if p =? 4096 then 0 else 1) (λ _ _ _, true) demo_alloc (λ _, true) true true true 0 [0; 1] demo_machine).1 = Fail EInval)
    as Hr by (vm_compute; reflexivity).
  destruct (module_init _ _ _ _ true true true 0 [0; 1] demo_machine) as [r w']. cbn in Hr. destruct H as (_ & H2 & _ & _ & _ & H5). by split_and!.
Defined.
Lemma load_unload_restores_witness : ∃ w1 w2,
  module_init (λ _ _ _, 0) (λ _ _ _, true) demo_alloc (λ _, true) true true true 0 [0; 1] demo_machine = (Done (), w1) ∧
  module_drop (λ _, 0) (λ _, true) [0; 1] w1 = (Done (), w2) ∧ ∃ c2, m_cpus w2 !! 1 = Some c2 ∧ c_vmx c2 = None ∧ c_vmxe c2 = false.
Proof.
  destruct (load_unload_restores (λ _ _ _, 0) (λ _, 0) (λ _ _ _, true) demo_alloc (λ _, true) demo_fresh 0 [0; 1] demo_machine
    demo_honest demo_online ltac:(left) (λ _ _, eq_refl)) as (w1 & w2 & H1 & H2 & H3).
  - intros w. eexists. split; [reflexivity|]. rewrite Z.mul_comm. by apply Z.mod_mul.
  - done.
  - intros i Hi. exists demo_cpu. split; [by apply demo_off|done].
  - exists demo_cpu, 4. split; [done|]. split; [done|]. intros i ci _ ->%demo_cpus. by split.
  - exists w1, w2. split; [exact H1|]. split; [exact H2|]. destruct (H3 1 demo_cpu ltac:(right; left) eq_refl) as (_ & c2 & A & B & C & _). by exists c2.
Defined.

(** A load that fails on the second processor leaves the first one in VMX operation:
    nothing undoes what was done before. *)
Lemma failed_load_leaves_vmx :
  let '(r, w') := module_init (λ _ _ p, if p =? 4096 then 0 else 1) (λ _ _ _, true) demo_alloc (λ _, true) true true true 0 [0; 1] demo_machine in
  r = Fail EInval ∧ (c_vmx <$> m_cpus w' !! 0) = Some (Some 4096) ∧ (c_vmxe <$> m_cpus w' !! 1) = Some true ∧ (c_vmx <$> m_cpus w' !! 1) = Some None.
Proof. by vm_compute. Qed.
(** A processor that the call does not reach is taken for a success, and so are all after it. *)
Lemma unreached_cpu_reported_ready :
  let '(r, w') := module_init (λ _ _ _, 0) (λ _ _ _, true) demo_alloc (λ i, negb (i =? 0)) true true true 0 [0; 1] demo_machine in
  r = Done () ∧ (c_vmx <$> m_cpus w' !! 0) = Some None ∧ (c_vmx <$> m_cpus w' !! 1) = Some None.
Proof. by vm_compute. Qed.
(** The device cannot be registered: the load fails with every processor in VMX operation and the handler set. *)
Lemma failed_registration_leaves_vmx :
  let '(r, w') := module_init (λ _ _ _, 0) (λ _ _ _, true) demo_alloc (λ _, true) true true false 0 [0; 1] demo_machine in
  r = Fail DeviceFailed ∧ m_handler w' = true ∧ (c_vmx <$> m_cpus w' !! 1) = Some (Some 8192).
Proof. by vm_compute. Qed.
(** The pages of the regions are not freed by unloading. *)
Lemma regions_leaked :
  let '(_, w1) := module_init (λ _ _ _, 0) (λ _ _ _, true) demo_alloc (λ _, true) true true true 0 [0; 1] demo_machine in
  let '(_, w2) := module_drop (λ _, 0) (λ _, true) [0; 1] w1 in size (m_pages w2) = 2%nat.
Proof. by vm_compute. Qed.
