(* ===== verification/Chaos.v ===== *)
(** * The guest's fuzzing scheduler ([guest/scx-fuzz/bpf/main.bpf.c],
    [guest/scx-fuzz/scx-init.c], [bpf/intf.h])

    A scheduler in the guest's kernel parks randomly chosen threads for short
    intervals, to provoke rare interleavings; a service refreshes the pool of random
    values the scheduler draws from, half of it at a time and value by value.  The kernel's dispatch
    queues are a class ([Dsq]) with the documented order; the clock is the time given
    with each callback; [getrandom] serves a stream of bytes, in pieces; whether the kernel creates
    the queues, starts a timer and takes an update of the pool are parameters.

    The theorems: however callbacks, updates of the pool and short reads interleave, if the service
    keeps pace the k-th random decision is made from the k-th word of the stream, so that a schedule
    is a function of the stream and a late word cannot change what happened before; the
    time spent starving is within its share of the elapsed time and one interval; and
    a victim that is parked does not run before its interval ends and is released in its turn. *)
From S2P Require Import Prelude.

Definition RND_POOL_N : Z := 4096.
Definition RND_HALF : Z := RND_POOL_N / 2.
Definition SLICE_NS : Z := 5 * 1000000.
Definition MAX_CPUS : Z := 1024.
Definition FAIR_DSQ_ID : Z := 0.
Definition FROZEN_DSQ_ID : Z := 1.
(** The read-only parameters. *)
Record config := mkConfig {
  starve_min_ns : Z; starve_max_ns : Z; gap_min_ns : Z; gap_max_ns : Z; prio_reroll_ns : Z; low_prob_inv : Z; starve_cap_pct : Z;
  logging : bool; debug : bool
}.
Definition STARVE_MIN_NS : Z := 50 * 1000000.
Definition STARVE_MAX_NS : Z := 1500 * 1000000.
Definition GAP_MIN_NS : Z := 100 * 1000000.
Definition GAP_MAX_NS : Z := 800 * 1000000.
Definition PRIO_REROLL_NS : Z := 500 * 1000000.
Definition LOW_PROB_INV : Z := 8.
Definition STARVE_CAP_PCT : Z := 35.
Definition fixed_config : config :=
  mkConfig STARVE_MIN_NS STARVE_MAX_NS GAP_MIN_NS GAP_MAX_NS PRIO_REROLL_NS LOW_PROB_INV STARVE_CAP_PCT true true.

Inductive fuzz_event_type := FUZZ_EVENT_STARVE_BEGIN | FUZZ_EVENT_LOW_PRIO | FUZZ_EVENT_DEBUG.
Record fuzz_event := mkEvent { ev_time_ns : Z; ev_duration_ns : Z; ev_pid : Z; ev_type : fuzz_event_type }.
(** The scheduler's variables; [armed] is when the release timer fires. *)
Record chaos := mkChaos {
  rnd_idx : Z; vtime_now : Z; epoch_start : Z; next_decision : Z; starve_begin : Z; starve_until : Z; total_starve_ns : Z;
  epoch_seed : Z; prio_reroll_at : Z; dbg_logged : Z; armed : option Z; events : list fuzz_event
}.
Definition chaos_zero : chaos := mkChaos 0 0 0 0 0 0 0 0 0 0 None [].
(** The kernel's fields of a task. *)
Record task := mkTask { dsq_vtime : Z; weight : Z; slice : Z }.

(** ** The kernel's queues *)
Class Dsq (Q : Type) := {
  dsq_empty : Q;
  dsq_insert : Z → Q → Q;
  dsq_insert_vtime : Z → Z → Q → Q;
  dsq_pop : Q → option (Z * Q);
  queued : Q → list Z;
  queued_empty : queued dsq_empty = [];
  queued_insert p q : queued (dsq_insert p q) = queued q ++ [p];
  queued_insert_vtime p v q : queued (dsq_insert_vtime p v q) ≡ₚ p :: queued q;
  queued_pop q : match dsq_pop q with None => queued q = [] | Some (p, q') => queued q = p :: queued q' end
}.

Section Scheduler.
Context {Q : Type} `{!Dsq Q} (cfg : config) (ring_room : list fuzz_event → bool).
(** The value at an index of the random values: that of the pool's slot. *)
Context (draw : Z → Z).
Record sched := mkSched { ch : chaos; tasks : gmap Z task; fair : Q; frozen : Q; local : list Z }.

Definition rng_next (s : chaos) : Z * chaos :=
  (draw (rnd_idx s), mkChaos (u64 (rnd_idx s + 1)) (vtime_now s) (epoch_start s) (next_decision s) (starve_begin s) (starve_until s) (total_starve_ns s)
     (epoch_seed s) (prio_reroll_at s) (dbg_logged s) (armed s) (events s)).
Definition rng_range (min max : Z) (s : chaos) : Z * chaos :=
  if max <=? min then (min, s) else let '(v, s) := rng_next s in (u64 (min + v mod (max - min)), s).
Definition log_event (pid : Z) (type : fuzz_event_type) (now duration_ns : Z) (s : chaos) : chaos :=
  if logging cfg && ring_room (events s) then
    mkChaos (rnd_idx s) (vtime_now s) (epoch_start s) (next_decision s) (starve_begin s) (starve_until s) (total_starve_ns s)
      (epoch_seed s) (prio_reroll_at s) (dbg_logged s) (armed s) (events s ++ [mkEvent now duration_ns pid type])
  else s.
(** [timer]: how long after the clock was read [bpf_timer_start] takes effect, if it does not fail. *)
Definition arm_release (timer : option Z) (now delay : Z) (s : chaos) : chaos :=
  mkChaos (rnd_idx s) (vtime_now s) (epoch_start s) (next_decision s) (starve_begin s) (starve_until s) (total_starve_ns s)
    (epoch_seed s) (prio_reroll_at s) (dbg_logged s) (if timer is Some lag then Some (now + lag + delay) else armed s) (events s).

(** [advance_schedule], in its four parts. *)
Definition start_epoch (now : Z) (s : chaos) : chaos :=
  if epoch_start s =? 0 then
    let '(gap, s) := rng_range (gap_min_ns cfg) (gap_max_ns cfg) s in
    mkChaos (rnd_idx s) (vtime_now s) now (now +! gap) (starve_begin s) (starve_until s) (total_starve_ns s)
      (epoch_seed s) (now +! prio_reroll_ns cfg) (dbg_logged s) (armed s) (events s)
  else s.
Definition reroll (now : Z) (s : chaos) : chaos :=
  if prio_reroll_at s <=? now then
    let '(seed, s) := rng_next s in
    mkChaos (rnd_idx s) (vtime_now s) (epoch_start s) (next_decision s) (starve_begin s) (starve_until s) (total_starve_ns s)
      seed (now +! prio_reroll_ns cfg) (dbg_logged s) (armed s) (events s)
  else s.
Definition close_interval (now : Z) (s : chaos) : chaos :=
  if negb (starve_until s =? 0) && (starve_until s <=? now) then
    let total := total_starve_ns s +! (starve_until s -! starve_begin s) in
    let '(gap, s) := rng_range (gap_min_ns cfg) (gap_max_ns cfg) s in
    mkChaos (rnd_idx s) (vtime_now s) (epoch_start s) (now +! gap) (starve_begin s) 0 total
      (epoch_seed s) (prio_reroll_at s) (dbg_logged s) (armed s) (events s)
  else s.
Definition open_interval (pid : Z) (timer : option Z) (now : Z) (s : chaos) : chaos :=
  if (starve_until s =? 0) && (next_decision s <=? now) then
    let elapsed := now -! epoch_start s in
    if u64 (total_starve_ns s * 100) <=? u64 (elapsed * starve_cap_pct cfg) then
      let '(len, s) := rng_range (starve_min_ns cfg) (starve_max_ns cfg) s in
      let s := mkChaos (rnd_idx s) (vtime_now s) (epoch_start s) (next_decision s) now (now +! len) (total_starve_ns s)
                 (epoch_seed s) (prio_reroll_at s) (dbg_logged s) (armed s) (events s) in
      log_event pid FUZZ_EVENT_STARVE_BEGIN now len (arm_release timer now len s)
    else
      let '(gap, s) := rng_range (gap_min_ns cfg) (gap_max_ns cfg) s in
      mkChaos (rnd_idx s) (vtime_now s) (epoch_start s) (now +! gap) (starve_begin s) (starve_until s) (total_starve_ns s)
        (epoch_seed s) (prio_reroll_at s) (dbg_logged s) (armed s) (events s)
  else s.
Definition advance_schedule (pid : Z) (timer : option Z) (now : Z) (s : chaos) : chaos :=
  open_interval pid timer now (close_interval now (reroll now (start_epoch now s))).

Definition task_is_low (pid : Z) (s : chaos) : bool :=
  let h := u64 (pid * 0x9E3779B97F4A7C15) in
  let h := Z.lxor h (u64 (epoch_seed s * 0xD1B54A32D192ED03)) in
  let h := Z.lxor h (Z.shiftr h 33) in
  let h := u64 (h * 0xFF51AFD7ED558CCD) in
  let h := Z.lxor h (Z.shiftr h 33) in
  if low_prob_inv cfg =? 0 then false else h mod low_prob_inv cfg =? 0.
Definition vtime_before (a b : Z) : bool := 2 ^ 63 <=? a -! b.
Definition starving (now : Z) (s : chaos) : bool := negb (starve_until s =? 0) && (now <? starve_until s).

(** ** The callbacks *)
(** The code [chaos_init] returns; [create] is what [scx_bpf_create_dsq] returns for a queue, [has_timer] whether the timer's map has its entry. *)
Definition chaos_init (create : Z → Z) (has_timer : bool) (s : sched) : Z * sched :=
  if negb (create FAIR_DSQ_ID =? 0) then (create FAIR_DSQ_ID, s)
  else
    let s := mkSched (ch s) (tasks s) dsq_empty (frozen s) (local s) in
    if negb (create FROZEN_DSQ_ID =? 0) then (create FROZEN_DSQ_ID, s)
    else
      let '(seed, c) := rng_next (ch s) in
      let c := mkChaos (rnd_idx c) (vtime_now c) (epoch_start c) (next_decision c) (starve_begin c) (starve_until c) (total_starve_ns c)
                 seed (prio_reroll_at c) (dbg_logged c) (armed c) (events c) in
      (if has_timer then 0 else -1, mkSched c (tasks s) (fair s) dsq_empty (local s)).
Definition chaos_enqueue (now pid : Z) (timer : option Z) (s : sched) : sched :=
  let vtime := default 0 (dsq_vtime <$> tasks s !! pid) in
  let c := advance_schedule pid timer now (ch s) in
  let c := if debug cfg && (dbg_logged c <? 64) then
      log_event pid FUZZ_EVENT_DEBUG now pid
        (mkChaos (rnd_idx c) (vtime_now c) (epoch_start c) (next_decision c) (starve_begin c) (starve_until c) (total_starve_ns c)
           (epoch_seed c) (prio_reroll_at c) (dbg_logged c + 1) (armed c) (events c))
    else c in
  if task_is_low pid c && starving now c then
    let c := if debug cfg then log_event pid FUZZ_EVENT_LOW_PRIO now (starve_until c -! now) c else c in
    mkSched c (tasks s) (fair s) (dsq_insert pid (frozen s)) (local s)
  else
    let vtime := if vtime_before vtime (vtime_now c -! SLICE_NS) then vtime_now c -! SLICE_NS else vtime in
    mkSched c (tasks s) (dsq_insert_vtime pid vtime (fair s)) (frozen s) (local s).
(** [scx_bpf_dsq_move_to_local]: the first task of a queue, if there is one. *)
Definition move_to_local (q : Q) (l : list Z) : Q * list Z :=
  match dsq_pop q with Some (p, q) => (q, l ++ [p]) | None => (q, l) end.
Definition chaos_dispatch (now : Z) (s : sched) : sched :=
  let '(frozen, local) := if starving now (ch s) then (frozen s, local s) else move_to_local (frozen s) (local s) in
  let '(fair, local) := move_to_local (fair s) local in
  mkSched (ch s) (tasks s) fair frozen local.
Definition chaos_running (pid : Z) (s : sched) : sched :=
  let v := default 0 (dsq_vtime <$> tasks s !! pid) in
  let c := ch s in
  if vtime_before (vtime_now c) v then
    mkSched (mkChaos (rnd_idx c) v (epoch_start c) (next_decision c) (starve_begin c) (starve_until c) (total_starve_ns c)
       (epoch_seed c) (prio_reroll_at c) (dbg_logged c) (armed c) (events c)) (tasks s) (fair s) (frozen s) (local s)
  else s.
Definition chaos_stopping (pid : Z) (s : sched) : sched :=
  let charge t :=
    let w := if weight t =? 0 then 100 else weight t in
    mkTask (dsq_vtime t +! (u64 ((SLICE_NS -! slice t) * 100) / w)) (weight t) (slice t) in
  mkSched (ch s) (alter charge pid (tasks s)) (fair s) (frozen s) (local s).
Definition chaos_enable (pid : Z) (s : sched) : sched :=
  mkSched (ch s) (alter (λ t, mkTask (vtime_now (ch s)) (weight t) (slice t)) pid (tasks s)) (fair s) (frozen s) (local s).
End Scheduler.
(** [timer_cb]: the processors it kicks. *)
Definition timer_cb (nr : Z) : list Z := seqZ 0 (Z.min nr MAX_CPUS).
Arguments sched : clear implicits.
Arguments mkSched {Q}.

(** ** The service that refreshes the pool *)
(** An answer of [getrandom]: interrupted, a number of bytes, an error. *)
Inductive answer := Interrupted | Served (n : nat) | Failed.
Section Service.
(** The stream of bytes that [getrandom] serves. *)
Context (stream : nat → Z).
(** [get_random] from a position of the stream: the bytes, and what is left of the answers;
    with none left, the rest is served at once. *)
Fixpoint get_random (answers : list answer) (pos len : nat) (buf : list Z) : option (list Z) * nat * list answer :=
  match len with
  | O => (Some buf, pos, answers)
  | S _ =>
      match answers with
      | [] => (Some (buf ++ (stream <$> seq pos len)), (pos + len)%nat, [])
      | Interrupted :: answers => get_random answers pos len buf
      | Failed :: answers => (None, pos, answers)
      | Served n :: answers =>
          let n := Nat.min (S n) len in
          get_random answers (pos + n) (len - n) (buf ++ (stream <$> seq pos n))
      end
  end.
Fixpoint words_of (n : nat) (bs : list Z) : list Z :=
  match n with O => [] | S n => of_le (take 8 bs) :: words_of n (drop 8 bs) end.
(** A refill under way: the next key, the values left to write, and what [last_half] becomes after it. *)
Record refill := mkRefill { r_key : nat; r_words : list Z; r_half : bool }.
(** The pool, the service's variables, its position in the stream, and what is left of the kernel's answers:
    those of [getrandom], and whether each [bpf_map_update_elem] succeeds (with none left, it does). *)
Record service := mkService {
  pool : list Z; last_half : bool; position : nat; answers : list answer; updates : list bool; filling : option refill
}.
Definition half_base (half : bool) : nat := if half then Z.to_nat RND_HALF else 0.
(** [refill_half] up to its loop, [last_half] being set to [next] in the end. *)
Definition begin_refill (half next : bool) (v : service) : bool * service :=
  match get_random (answers v) (position v) (8 * Z.to_nat RND_HALF) [] with
  | (None, pos, a) => (false, mkService (pool v) next pos a (updates v) None)
  | (Some bs, pos, a) =>
      (true, mkService (pool v) (last_half v) pos a (updates v) (Some (mkRefill (half_base half) (words_of (Z.to_nat RND_HALF) bs) next)))
  end.
(** One turn of its loop; the first update that fails ends it. *)
Definition update_elem (v : service) : bool * service :=
  match filling v with
  | Some (mkRefill key (w :: ws) next) =>
      let u := tail (updates v) in
      if updates v is false :: _ then (false, mkService (pool v) next (position v) (answers v) u None)
      else
        let pool := <[key := w]> (pool v) in
        (true, match ws with
               | [] => mkService pool next (position v) (answers v) u None
               | _ => mkService pool (last_half v) (position v) (answers v) u (Some (mkRefill (S key) ws next))
               end)
  | _ => (true, v)
  end.
Fixpoint update_all (n : nat) (v : service) : bool * service :=
  match n with O => (true, v) | S n => let '(ok, v) := update_elem v in if ok then update_all n v else (false, v) end.
Definition refill_half (half : bool) (v : service) : bool * service :=
  let '(ok, v) := begin_refill half (last_half v) v in if ok then update_all (Z.to_nat RND_HALF) v else (false, v).
(** The fill before attaching. *)
Definition fill_pool (v : service) : bool * service :=
  let '(ok, v) := refill_half false v in if ok then refill_half true v else (false, v).
(** One round of the poll loop, up to the updates of the pool, which are steps of their own. *)
Definition poll_round (idx : Z) (v : service) : service :=
  if filling v is Some _ then v
  else
    let half := RND_HALF <=? Z.land idx (RND_POOL_N - 1) in
    if Bool.eqb half (last_half v) then v else (begin_refill (last_half v) half v).2.
End Service.
(** What [bpf_map_lookup_elem] gives for an index. *)
Definition pool_draw (pool : list Z) (idx : Z) : Z := default 0 (pool !! Z.to_nat (Z.land idx (RND_POOL_N - 1))).

(** ** The system *)
Inductive op :=
| Enqueue (pid : Z) (timer : option Z) | Dispatch | Running (pid : Z) | Stopping (pid : Z) | Enable (pid : Z)
| Fields (pid w rest : Z)  (** the kernel's updates of a task *)
| Poll  (** the service begins a round *)
| Update.  (** the service writes the next value of its refill, if there is one *)
Section System.
Context {Q : Type} `{!Dsq Q} (cfg : config) (ring_room : list fuzz_event → bool).
(** A callback, with the random values it finds; [Poll] and [Update] are none. *)
Definition callback (draw : Z → Z) (now : Z) (o : op) (s : sched Q) : sched Q :=
  match o with
  | Enqueue pid timer => chaos_enqueue cfg ring_room draw now pid timer s
  | Dispatch => chaos_dispatch now s
  | Running pid => chaos_running pid s
  | Stopping pid => chaos_stopping pid s
  | Enable pid => chaos_enable pid s
  | Fields pid w rest => mkSched (ch s) (alter (λ t, mkTask (dsq_vtime t) w rest) pid (tasks s)) (fair s) (frozen s) (local s)
  | Poll | Update => s
  end.
Definition system_step (stream : nat → Z) (s : sched Q * service) (e : Z * op) : sched Q * service :=
  let '(sc, v) := s in
  let sc' := callback (pool_draw (pool v)) e.1 e.2 sc in
  (sc', match e.2 with Poll => poll_round stream (rnd_idx (ch sc)) v | Update => (update_elem v).2 | _ => v end).
Definition system_run (stream : nat → Z) (tr : list (Z * op)) (s : sched Q * service) : sched Q * service := foldl (system_step stream) s tr.
(** The start: the pool is filled, the scheduler attached. *)
Definition system_start (create : Z → Z) (has_timer : bool) (stream : nat → Z) (answers : list answer) (updates : list bool) (t : gmap Z task)
    : option (sched Q * service) :=
  let '(ok, v) := fill_pool stream (mkService (replicate (Z.to_nat RND_POOL_N) 0) false 0 answers updates None) in
  if ok then
    let '(ret, sc) := chaos_init (pool_draw (pool v)) create has_timer (mkSched chaos_zero t dsq_empty dsq_empty []) in
    if ret =? 0 then Some (sc, v) else None
  else None.
(** The specification: each value is a word of the stream, in order. *)
Definition word (stream : nat → Z) (k : Z) : Z := of_le (stream <$> seq (8 * Z.to_nat k) 8).
Definition ideal_run (draw : Z → Z) (tr : list (Z * op)) (s : sched Q) : sched Q := foldl (λ s e, callback draw e.1 e.2 s) s tr.

(** * Lemmas *)
(** ** What a computation draws *)
(** [f] draws at most [n] values, in order, and depends on no other. *)
Definition local_to (n : Z) (f : (Z → Z) → chaos → chaos) : Prop := ∀ d s, 0 ≤ rnd_idx s → rnd_idx s + n < 2 ^ 64 →
  rnd_idx s ≤ rnd_idx (f d s) ≤ rnd_idx s + n ∧ ∀ d', (∀ i, rnd_idx s ≤ i < rnd_idx (f d s) → d' i = d i) → f d' s = f d s.
Lemma local_compose n m f g : 0 ≤ n → 0 ≤ m → local_to n f → local_to m g → local_to (n + m) (λ d s, g d (f d s)).
Proof.
  intros Hn Hm Hf Hg d s H0 Hw. destruct (Hf d s H0 ltac:(lia)) as [Hf1 Hf2]. destruct (Hg d (f d s) ltac:(lia) ltac:(lia)) as [Hg1 Hg2].
  split; [lia|]. intros d' Hd. rewrite (Hf2 d') by (intros i Hi; apply Hd; lia). apply Hg2. intros i Hi. apply Hd. lia.
Qed.
Lemma local_none f : (∀ d d' s, f d' s = f d s) → (∀ d s, rnd_idx (f d s) = rnd_idx s) → local_to 0 f.
Proof. intros H1 H2 d s H0 Hw. rewrite H2. split; [lia|]. intros d' _. apply H1. Qed.
Lemma rng_next_idx d s : 0 ≤ rnd_idx s → rnd_idx s + 1 < 2 ^ 64 → rnd_idx (rng_next d s).2 = rnd_idx s + 1.
Proof. intros. cbn. unfold u64. apply wrap_small. unfold in_width. lia. Qed.
(** A part of the schedule that draws once, or not at all, and then sets fields. *)
Lemma local_next (k : chaos → Z → chaos → chaos) : (∀ s0 v s, rnd_idx (k s0 v s) = rnd_idx s) →
  local_to 1 (λ d s, let '(v, s') := rng_next d s in k s v s').
Proof.
  intros Hk d s H0 Hw. cbn [rng_next]. pose proof (rng_next_idx d s H0 ltac:(lia)) as Hi. cbn [rng_next snd] in Hi.
  rewrite Hk, Hi. split; [lia|]. intros d' Hd. by rewrite (Hd (rnd_idx s)) by lia.
Qed.
Lemma local_range min max (k : chaos → Z → chaos → chaos) : (∀ s0 v s, rnd_idx (k s0 v s) = rnd_idx s) →
  local_to 1 (λ d s, let '(v, s') := rng_range d min max s in k s v s').
Proof.
  intros Hk. unfold rng_range. destruct (max <=? min).
  - intros d s H0 Hw. rewrite Hk. split; [lia|]. done.
  - apply (local_next (λ s0 v s, k s0 (u64 (min + v mod (max - min))) s)). intros. by rewrite Hk.
Qed.
Lemma local_if n (b : chaos → bool) f g : 0 ≤ n → local_to n f → local_to n g → local_to n (λ d s, if b s then f d s else g d s).
Proof. intros Hn Hf Hg d s H0 Hw. destruct (b s); [by apply Hf|by apply Hg]. Qed.
Lemma local_id n : 0 ≤ n → local_to n (λ _ s, s).
Proof. intros Hn d s H0 Hw. split; [lia|done]. Qed.
Lemma log_event_idx pid ty now dur s : rnd_idx (log_event cfg ring_room pid ty now dur s) = rnd_idx s.
Proof. unfold log_event. by destruct (_ && _). Qed.
Lemma local_start now : local_to 1 (λ d, start_epoch cfg d now).
Proof.
  apply (local_if 1 (λ s, epoch_start s =? 0)); [lia| |by apply local_id].
  by apply (local_range _ _ (λ _ gap s, mkChaos (rnd_idx s) (vtime_now s) now (now +! gap) (starve_begin s) (starve_until s) (total_starve_ns s)
      (epoch_seed s) (now +! prio_reroll_ns cfg) (dbg_logged s) (armed s) (events s))).
Qed.
Lemma local_reroll now : local_to 1 (λ d, reroll cfg d now).
Proof.
  apply (local_if 1 (λ s, prio_reroll_at s <=? now)); [lia| |by apply local_id].
  by apply (local_next (λ _ seed s, mkChaos (rnd_idx s) (vtime_now s) (epoch_start s) (next_decision s) (starve_begin s) (starve_until s) (total_starve_ns s)
      seed (now +! prio_reroll_ns cfg) (dbg_logged s) (armed s) (events s))).
Qed.
Lemma local_close now : local_to 1 (λ d, close_interval cfg d now).
Proof.
  apply (local_if 1 (λ s, negb (starve_until s =? 0) && (starve_until s <=? now))); [lia| |by apply local_id].
  by apply (local_range _ _ (λ s0 gap s, mkChaos (rnd_idx s) (vtime_now s) (epoch_start s) (now +! gap) (starve_begin s) 0
      (total_starve_ns s0 +! (starve_until s0 -! starve_begin s0)) (epoch_seed s) (prio_reroll_at s) (dbg_logged s) (armed s) (events s))).
Qed.
Lemma local_open pid timer now : local_to 1 (λ d, open_interval cfg ring_room d pid timer now).
Proof.
  apply (local_if 1 (λ s, (starve_until s =? 0) && (next_decision s <=? now))); [lia| |by apply local_id].
  apply (local_if 1 (λ s, u64 (total_starve_ns s * 100) <=? u64 ((now -! epoch_start s) * starve_cap_pct cfg))); [lia| |].
  - apply (local_range _ _ (λ _ len s, log_event cfg ring_room pid FUZZ_EVENT_STARVE_BEGIN now len (arm_release timer now len
      (mkChaos (rnd_idx s) (vtime_now s) (epoch_start s) (next_decision s) now (now +! len) (total_starve_ns s)
         (epoch_seed s) (prio_reroll_at s) (dbg_logged s) (armed s) (events s))))). intros. by rewrite log_event_idx.
  - by apply (local_range _ _ (λ _ gap s, mkChaos (rnd_idx s) (vtime_now s) (epoch_start s) (now +! gap) (starve_begin s) (starve_until s) (total_starve_ns s)
        (epoch_seed s) (prio_reroll_at s) (dbg_logged s) (armed s) (events s))).
Qed.
Lemma local_advance pid timer now : local_to 4 (λ d, advance_schedule cfg ring_room d pid timer now).
Proof.
  pose proof (local_compose 1 1 _ _ ltac:(lia) ltac:(lia) (local_start now) (local_reroll now)) as H2.
  pose proof (local_compose 2 1 _ _ ltac:(lia) ltac:(lia) H2 (local_close now)) as H3.
  exact (local_compose 3 1 _ _ ltac:(lia) ltac:(lia) H3 (local_open pid timer now)).
Qed.

(** A callback draws at most four values, and none but an enqueue draws any. *)
Definition draws (o : op) : Z := if o is Enqueue _ _ then 4 else 0.
Lemma callback_local now o d (s : sched Q) : 0 ≤ rnd_idx (ch s) → rnd_idx (ch s) + draws o < 2 ^ 64 →
  rnd_idx (ch s) ≤ rnd_idx (ch (callback d now o s)) ≤ rnd_idx (ch s) + draws o ∧
  ∀ d', (∀ i, rnd_idx (ch s) ≤ i < rnd_idx (ch (callback d now o s)) → d' i = d i) → callback d' now o s = callback d now o s.
Proof.
  intros H0 Hw. assert (∀ s' : sched Q, rnd_idx (ch s') = rnd_idx (ch s) → rnd_idx (ch s) ≤ rnd_idx (ch s') ≤ rnd_idx (ch s) + 0) as Hsame by (intros; lia).
  destruct o as [pid timer| |pid|pid|pid|pid w rest| |]; cbn [callback draws] in *.
  - destruct (local_advance pid timer now d (ch s) H0 Hw) as [H1 H2].
    assert (rnd_idx (ch (chaos_enqueue cfg ring_room d now pid timer s)) = rnd_idx (advance_schedule cfg ring_room d pid timer now (ch s))) as Hidx.
    { unfold chaos_enqueue. repeat case_match; cbn [ch]; rewrite ?log_event_idx; cbn [rnd_idx]; by rewrite ?log_event_idx. }
    rewrite Hidx. split; [done|]. intros d' Hd. unfold chaos_enqueue. by rewrite H2.
  - split; [|done]. apply Hsame. unfold chaos_dispatch. by repeat case_match.
  - split; [|done]. apply Hsame. unfold chaos_running. by case_match.
  - split; [|done]. by apply Hsame.
  - split; [|done]. by apply Hsame.
  - split; [|done]. by apply Hsame.
  - split; [|done]. by apply Hsame.
  - split; [|done]. by apply Hsame.
Qed.

(** ** The pool and the stream *)
Definition unfailing (l : list answer) : Prop := Forall (λ a, a ≠ Failed) l.
Lemma get_random_stream stream : ∀ l pos len buf, unfailing l →
  ∃ l', get_random stream l pos len buf = (Some (buf ++ (stream <$> seq pos len)), (pos + len)%nat, l') ∧ unfailing l'.
Proof.
  assert (∀ l pos buf, unfailing l → ∃ l', get_random stream l pos 0 buf = (Some (buf ++ (stream <$> seq pos 0)), (pos + 0)%nat, l') ∧ unfailing l') as Hzero.
  { intros l pos buf Hl. exists l. destruct l; cbn; by rewrite app_nil_r, Nat.add_0_r. }
  induction l as [|a l IH]; intros pos [|len] buf Hl; try by apply Hzero.
  - by exists [].
  - apply Forall_cons in Hl as [Ha Hl]. destruct a as [|n|]; [by apply IH| |done]. cbn [get_random]. cbv zeta. set (k := Nat.min (S n) (S len)).
    destruct (IH (pos + k)%nat (S len - k)%nat (buf ++ (stream <$> seq pos k)) Hl) as (l' & -> & Hl'). exists l'. split; [|done]. f_equal. f_equal; [|lia].
    rewrite <- app_assoc, <- fmap_app. do 3 f_equal. rewrite <- seq_app. f_equal. lia.
Qed.
Lemma words_lookup stream n : ∀ pos j, (j < n)%nat → words_of n (stream <$> seq pos (8 * n)) !! j = Some (of_le (stream <$> seq (pos + 8 * j) 8)).
Proof.
  induction n as [|n IH]; intros pos j Hj; [lia|]. cbn [words_of]. replace (8 * S n)%nat with (8 + 8 * n)%nat by lia. rewrite seq_app, fmap_app.
  rewrite take_app_length', drop_app_length' by (by rewrite length_fmap, length_seq).
  destruct j as [|j]; cbn [lookup list_lookup]; [by rewrite Nat.mul_0_r, Nat.add_0_r|]. rewrite IH by lia. do 4 f_equal. lia.
Qed.
Lemma words_length n : ∀ bs, length (words_of n bs) = n.
Proof. induction n as [|n IH]; intros bs; cbn; [done|by rewrite IH]. Qed.
Lemma slot_of_index idx : Z.land idx (RND_POOL_N - 1) = idx mod 4096.
Proof. change (RND_POOL_N - 1) with (Z.ones 12). by rewrite Z.land_ones. Qed.
Lemma slot_of_generation g r : 0 ≤ g → 0 ≤ r < 2048 → (2048 * g + r) mod 4096 = (if Z.odd g then 2048 else 0) + r.
Proof.
  intros Hg Hr. destruct (Z.odd g) eqn:E.
  - apply Zodd_bool_iff in E. destruct (Zodd_ex g E) as [h ->]. replace (2048 * (2 * h + 1) + r) with (2048 + r + h * 4096) by lia.
    rewrite Z.mod_add, Z.mod_small by lia. lia.
  - rewrite <- Z.negb_even in E. apply negb_false_iff, Zeven_bool_iff in E. destruct (Zeven_ex g E) as [h ->].
    replace (2048 * (2 * h) + r) with (r + h * 4096) by lia. rewrite Z.mod_add, Z.mod_small by lia. lia.
Qed.
Definition taken (u : list bool) : Prop := Forall (λ b, b = true) u.
(** The pool holds the last two halves of the first [g] that were read; no refill is under way. *)
Record pool_holds (stream : nat → Z) (g : Z) (v : service) : Prop := {
  ph_gen : 2 ≤ g;
  ph_length : length (pool v) = 4096%nat;
  ph_values k : 2048 * (g - 2) ≤ k < 2048 * g → pool_draw (pool v) k = word stream k;
  ph_half : last_half v = Z.odd g;
  ph_position : Z.of_nat (position v) = 16384 * g;
  ph_answers : unfailing (answers v);
  ph_updates : taken (updates v);
  ph_idle : filling v = None
}.
Lemma draw_of_generation p g r : 0 ≤ g → 0 ≤ r < 2048 → pool_draw p (2048 * g + r) = default 0 (p !! ((if Z.odd g then 2048 else 0) + Z.to_nat r)%nat).
Proof.
  intros Hg Hr. unfold pool_draw. rewrite slot_of_index, slot_of_generation by done. f_equal. f_equal. destruct (Z.odd g); lia.
Qed.
(** Half [g] of the stream is on its way into the pool [p0]: all but the last [k] of its values are there. *)
Record written (stream : nat → Z) (g : Z) (k : nat) (p0 : list Z) (v : service) : Prop := {
  wr_length : length (pool v) = 4096%nat;
  wr_new r : 0 ≤ r < 2048 - Z.of_nat k → pool_draw (pool v) (2048 * g + r) = word stream (2048 * g + r);
  wr_old h r : 0 ≤ h → Z.odd h = negb (Z.odd g) → 0 ≤ r < 2048 → pool_draw (pool v) (2048 * h + r) = pool_draw p0 (2048 * h + r);
  wr_position : Z.of_nat (position v) = 16384 * (g + 1);
  wr_answers : unfailing (answers v);
  wr_updates : taken (updates v)
}.
Definition writing (stream : nat → Z) (g : Z) (k : nat) (next : bool) (v : service) : Prop :=
  ∃ ws, filling v = Some (mkRefill (half_base (Z.odd g) + (2048 - k)) ws next) ∧ length ws = k ∧
    ∀ j w, ws !! j = Some w → w = word stream (2048 * g + (2048 - Z.of_nat k) + Z.of_nat j).
Definition finished (next : bool) (v : service) : Prop := filling v = None ∧ last_half v = next.
Lemma begin_spec stream g next v : 0 ≤ g → length (pool v) = 4096%nat → Z.of_nat (position v) = 16384 * g → unfailing (answers v) → taken (updates v) →
  ∃ v', begin_refill stream (Z.odd g) next v = (true, v') ∧ written stream g 2048 (pool v) v' ∧ writing stream g 2048 next v'.
Proof.
  intros Hg Hlen Hpos Ha Hu. unfold begin_refill. change (Z.to_nat RND_HALF) with 2048%nat.
  destruct (get_random_stream stream (answers v) (position v) (8 * 2048) [] Ha) as (l' & -> & Hl'). cbn [app].
  set (ws := words_of 2048 _). eexists. split; [reflexivity|]. split; [constructor; cbn [pool position answers updates]; [done|lia|done|lia|done|done]|].
  exists ws. cbn [filling]. rewrite Nat.sub_diag, Nat.add_0_r. split; [done|]. split; [apply words_length|]. intros j w Hj.
  assert (j < 2048)%nat as Hlt by (apply lookup_lt_Some in Hj; unfold ws in Hj; by rewrite words_length in Hj).
  unfold ws in Hj. rewrite words_lookup in Hj by done. injection Hj as <-. change (Z.of_nat 2048) with 2048. unfold word. f_equal.
  by replace (8 * Z.to_nat (2048 * g + (2048 - 2048) + Z.of_nat j))%nat with (position v + 8 * j)%nat by lia.
Qed.
Lemma update_spec stream g k next p0 v : 0 ≤ g → (k < 2048)%nat → written stream g (S k) p0 v → writing stream g (S k) next v →
  ∃ v', update_elem v = (true, v') ∧ written stream g k p0 v' ∧ match k with O => finished next v' | S _ => writing stream g k next v' end.
Proof.
  intros Hg Hk [L N O P A U] (ws & Hf & Hl & Hw). destruct ws as [|w ws]; [done|]. injection Hl as Hl. unfold update_elem. rewrite Hf.
  set (key := (half_base (Z.odd g) + (2048 - S k))%nat) in *. pose proof (Hw 0%nat w eq_refl) as Ew.
  assert (key = (if Z.odd g then 2048 else 0) + (2047 - k))%nat as Hkey by (unfold key, half_base; change (Z.to_nat RND_HALF) with 2048%nat; destruct (Z.odd g); lia).
  assert (match updates v with false :: _ => False | _ => True end) as Htk by (destruct (updates v) as [|[] u]; [done|done|]; by apply Forall_cons in U as [? _]).
  assert (taken (tail (updates v))) as Hu by (destruct (updates v); [done|]; by apply Forall_cons in U as [_ ?]).
  assert (∀ v', pool v' = <[key := w]> (pool v) → position v' = position v → answers v' = answers v → updates v' = tail (updates v) → written stream g k p0 v') as Hwr.
  { intros v' E1 E2 E3 E4. constructor; rewrite ?E1, ?E2, ?E3, ?E4; [by rewrite length_insert| | |done..].
    - intros r Hr. rewrite draw_of_generation by lia. destruct (decide (r = 2047 - Z.of_nat k)) as [->|Hne].
      + replace (_ + Z.to_nat _)%nat with key by lia. rewrite list_lookup_insert_eq by (destruct (Z.odd g); lia). change (default 0 (Some w)) with w. rewrite Ew. f_equal. lia.
      + rewrite list_lookup_insert_ne by lia. rewrite <- (N r) by lia. by rewrite draw_of_generation by lia.
    - intros h r Hh Hodd Hr. rewrite <- (O h r) by done. rewrite !draw_of_generation by done. rewrite list_lookup_insert_ne; [done|].
      rewrite Hodd, Hkey. destruct (Z.odd g); cbn [negb]; lia. }
  assert (∀ x, (if updates v is false :: _ then (false, mkService (pool v) next (position v) (answers v) (tail (updates v)) None) else (true, x)) = (true, x)) as Hif
    by (intros x; by destruct (updates v) as [|[] u]). rewrite Hif. eexists. split; [reflexivity|].
  destruct ws as [|w' ws]; (split; [by apply Hwr|]); destruct k as [|k]; try done.
  exists (w' :: ws). cbn [filling]. split; [f_equal; f_equal; unfold key; lia|]. split; [done|]. intros j x Hj. rewrite (Hw (S j) x) by done. f_equal. lia.
Qed.
Lemma update_all_spec stream g next p0 : ∀ k v, 0 ≤ g → (S k ≤ 2048)%nat → written stream g (S k) p0 v → writing stream g (S k) next v →
  ∃ v', update_all (S k) v = (true, v') ∧ written stream g 0 p0 v' ∧ finished next v'.
Proof.
  induction k as [|k IH]; intros v Hg Hk Hw Hf.
  - destruct (update_spec stream g 0 next p0 v Hg ltac:(lia) Hw Hf) as (v' & E & Hw' & Hf'). cbn [update_all]. rewrite E. by exists v'.
  - destruct (update_spec stream g (S k) next p0 v Hg ltac:(lia) Hw Hf) as (v' & E & Hw' & Hf'). change (update_all (S (S k)) v) with (let '(ok, v) := update_elem v in if ok then update_all (S k) v else (false, v)).
    rewrite E. apply IH; [done|lia|done|done].
Qed.
(** A refill replaces the oldest half by the next of the stream. *)
Lemma refill_spec stream g v : 0 ≤ g → length (pool v) = 4096%nat → Z.of_nat (position v) = 16384 * g → unfailing (answers v) → taken (updates v) →
  ∃ v', refill_half stream (Z.odd g) v = (true, v') ∧ written stream g 0 (pool v) v' ∧ finished (last_half v) v'.
Proof.
  intros Hg Hlen Hpos Ha Hu. unfold refill_half. destruct (begin_spec stream g (last_half v) v Hg Hlen Hpos Ha Hu) as (v1 & -> & Hw & Hf).
  change (Z.to_nat RND_HALF) with 2048%nat. apply (update_all_spec stream g (last_half v) (pool v) 2047); [done|lia|done|done].
Qed.
Lemma generation_of k g : 2048 * g ≤ k < 2048 * (g + 1) → k = 2048 * g + (k - 2048 * g).
Proof. lia. Qed.
Lemma odd_pred g : Z.odd (g - 1) = negb (Z.odd g).
Proof. rewrite Z.odd_sub. change (Z.odd 1) with true. apply xorb_true_r. Qed.
(** A half that is complete, next to the one before. *)
Lemma written_holds stream g p0 v : 1 ≤ g → written stream g 0 p0 v → finished (negb (Z.odd g)) v →
  (∀ k, 2048 * (g - 1) ≤ k < 2048 * g → pool_draw p0 k = word stream k) → pool_holds stream (g + 1) v.
Proof.
  intros Hg [L N O P A U] [Hf Hh] Hold. split; [lia|done| |rewrite Hh, Z.odd_add; change (Z.odd 1) with true; by rewrite xorb_true_r|lia|done|done|done].
  intros k Hk. destruct (decide (k < 2048 * g)).
  - rewrite (generation_of k (g - 1)) by lia. rewrite O; [apply Hold; lia|lia|apply odd_pred|lia].
  - rewrite (generation_of k g) by lia. apply N. lia.
Qed.
Lemma fill_spec stream l u : unfailing l → taken u →
  ∃ v, fill_pool stream (mkService (replicate (Z.to_nat RND_POOL_N) 0) false 0 l u None) = (true, v) ∧ pool_holds stream 2 v.
Proof.
  intros Hl Hu. unfold fill_pool. set (v0 := mkService _ _ _ _ _ _).
  destruct (refill_spec stream 0 v0) as (v1 & E1 & [L1 N1 O1 P1 A1 U1] & F1 & H1); [lia|apply length_replicate|done|done|done|]. change (Z.odd 0) with false in E1. rewrite E1.
  destruct (refill_spec stream 1 v1) as (v2 & E2 & W2 & F2 & H2); [lia|done|done|done|done|]. change (Z.odd 1) with true in E2. exists v2. split; [done|].
  apply (written_holds stream 1 (pool v1)); [lia|done|split; [done|by rewrite H2, H1]|]. intros k Hk. rewrite (generation_of k 0) by lia. apply N1. lia.
Qed.
(** A round of the service, while the scheduler is in one of the halves the pool holds: nothing is to be done, or the next half is read and is to be written. *)
Lemma poll_spec stream g v idx : pool_holds stream g v → 2048 * (g - 2) ≤ idx < 2048 * g →
  poll_round stream idx v = v ∧ idx < 2048 * (g - 1) ∨
  2048 * (g - 1) ≤ idx ∧ written stream g 2048 (pool v) (poll_round stream idx v) ∧ writing stream g 2048 (negb (Z.odd g)) (poll_round stream idx v).
Proof.
  intros [Hg Hlen Hval Hhalf Hpos Ha Hu Hf] Hidx. unfold poll_round. rewrite Hf, slot_of_index, Hhalf. change RND_HALF with 2048.
  destruct (decide (idx < 2048 * (g - 1))) as [Hold|Hnew].
  - left. split; [|done]. rewrite (generation_of idx (g - 2)), slot_of_generation, Z.odd_sub by lia. change (Z.odd 2) with false. rewrite xorb_false_r.
    replace (2048 <=? _) with (Z.odd g) by (destruct (Z.odd g); symmetry; [apply Z.leb_le|apply Z.leb_gt]; lia). by rewrite eqb_reflx.
  - right. split; [lia|]. rewrite (generation_of idx (g - 1)), slot_of_generation, odd_pred by lia.
    replace (2048 <=? _) with (negb (Z.odd g)) by (destruct (Z.odd g); symmetry; [apply Z.leb_gt|apply Z.leb_le]; cbn; lia).
    replace (Bool.eqb (negb (Z.odd g)) (Z.odd g)) with false by (by destruct (Z.odd g)).
    destruct (begin_spec stream g (negb (Z.odd g)) v) as (v' & -> & W & F); [lia|done..].
Qed.

(** ** The system follows the stream *)
(** The service keeps pace: a round, with the updates it may have, is over before the scheduler has enqueued
    512 times since the round before it began.  [n] enqueues are left for that, [m] will be when this round is over,
    and [k] updates are left in it. *)
Fixpoint in_pace (n m k : nat) (tr : list (Z * op)) : bool :=
  match tr with
  | [] => true
  | (_, Poll) :: tr => match k with O => in_pace n 512 2048 tr | S _ => false end
  | (_, Update) :: tr => match k with O => in_pace n m 0 tr | S O => in_pace m m 0 tr | S k => in_pace n m k tr end
  | (_, Enqueue _ _) :: tr => match n, m with S n, S m => in_pace n m k tr | _, _ => false end
  | _ :: tr => in_pace n m k tr
  end.
Definition paced (n : nat) (tr : list (Z * op)) : bool := in_pace n n 0 tr.
(** Between rounds or in one that has nothing to do; or with [k] values of half [g] to write. *)
Definition served (stream : nat → Z) (n m k : nat) (idx : Z) (v : service) : Prop := ∃ g,
  (pool_holds stream g v ∧ 2048 * (g - 2) ≤ idx ∧ idx + 4 * Z.of_nat n < 2048 * g ∧ (k ≠ O → idx + 4 * Z.of_nat m < 2048 * g)) ∨
  (2 ≤ g ∧ (0 < k ≤ 2048)%nat ∧ (∃ p0, written stream g k p0 v ∧ ∀ i, 2048 * (g - 1) ≤ i < 2048 * g → pool_draw p0 i = word stream i) ∧ writing stream g k (negb (Z.odd g)) v ∧
   2048 * (g - 1) ≤ idx ∧ idx + 4 * Z.of_nat n < 2048 * g ∧ idx + 4 * Z.of_nat m < 2048 * (g + 1)).
Lemma served_draws stream n m k idx v : served stream n m k idx v → ∀ i, idx ≤ i < idx + 4 * Z.of_nat n → pool_draw (pool v) i = word stream i.
Proof.
  intros [g [(Hp & Hlo & Hhi & _)|(Hg & _ & (p0 & [_ _ O _ _ _] & Hp) & _ & Hlo & Hhi & _)]] i Hi; [apply (ph_values stream g v Hp); lia|].
  rewrite (generation_of i (g - 1)) by lia. rewrite O; [apply Hp; lia|lia|apply odd_pred|lia].
Qed.
(** The scheduler moves on. *)
Lemma served_later stream n m k n' m' idx idx' v : served stream n m k idx v → idx ≤ idx' → idx' + 4 * Z.of_nat n' ≤ idx + 4 * Z.of_nat n →
  idx' + 4 * Z.of_nat m' ≤ idx + 4 * Z.of_nat m → served stream n' m' k idx' v.
Proof.
  intros [g [(Hp & Hlo & Hhi & Hm)|(Hg & Hk & Hw & Hf & Hlo & Hhi & Hm)]] H1 H2 H3; exists g; [left|right]; split_and!; try done; lia || idtac.
Qed.
Lemma served_poll stream n m idx v : served stream n m 0 idx v → served stream n 512 2048 idx (poll_round stream idx v).
Proof.
  intros [g [(Hp & Hlo & Hhi & Hm)|(_ & Hk & _)]]; [|lia]. exists g. destruct (poll_spec stream g v idx Hp ltac:(lia)) as [[-> Hold]|(Hnew & W & F)].
  - left. split_and!; [done|lia|lia|lia].
  - right. split_and!; [apply (ph_gen _ _ _ Hp)|lia|lia| |done|lia|lia|lia]. exists (pool v). split; [done|]. intros i Hi. apply (ph_values _ _ _ Hp). lia.
Qed.
Lemma served_update stream n m k idx v : served stream n m (S k) idx v → served stream (if k is O then m else n) m k idx (update_elem v).2.
Proof.
  intros [g [(Hp & Hlo & Hhi & Hm)|(Hg & Hk & (p0 & W & Hp) & F & Hlo & Hhi & Hm)]].
  - exists g. left. unfold update_elem. rewrite (ph_idle _ _ _ Hp). specialize (Hm ltac:(done)). destruct k; by split_and!.
  - destruct (update_spec stream g k (negb (Z.odd g)) p0 v ltac:(lia) ltac:(lia) W F) as (v' & -> & W' & F'). cbn [snd]. destruct k as [|k].
    + exists (g + 1). left. split_and!; [by apply (written_holds stream g p0); [lia|..]|lia|lia|done].
    + exists g. right. split_and!; [done|lia|lia|by exists p0|done|lia|lia|lia].
Qed.
Lemma served_idle stream n m idx v : served stream n m 0 idx v → (update_elem v).2 = v.
Proof. intros [g [(Hp & _)|(_ & Hk & _)]]; [|lia]. unfold update_elem. by rewrite (ph_idle _ _ _ Hp). Qed.
Definition in_step (stream : nat → Z) (n m k : nat) (s : sched Q * service) : Prop := 0 ≤ rnd_idx (ch s.1) ∧ served stream n m k (rnd_idx (ch s.1)) s.2.
Lemma callback_follows stream n m k now o (s : sched Q * service) : in_step stream n m k s → (draws o ≤ 4 * Z.of_nat n) → rnd_idx (ch s.1) + 4 < 2 ^ 64 →
  callback (pool_draw (pool s.2)) now o s.1 = callback (word stream) now o s.1 ∧
  rnd_idx (ch s.1) ≤ rnd_idx (ch (callback (word stream) now o s.1)) ≤ rnd_idx (ch s.1) + draws o.
Proof.
  intros [H0 Hs] Hd Hw. assert (draws o ≤ 4) by (by destruct o).
  destruct (callback_local now o (word stream) s.1 H0 ltac:(lia)) as [H1 H2]. split; [|done]. apply H2. intros i Hi. apply (served_draws _ _ _ _ _ _ Hs). lia.
Qed.
Lemma system_follows stream tr : ∀ n m k (s : sched Q * service), in_step stream n m k s → in_pace n m k tr = true → rnd_idx (ch s.1) + 4 * Z.of_nat (length tr) < 2 ^ 64 →
  (system_run stream tr s).1 = ideal_run (word stream) tr s.1.
Proof.
  induction tr as [|[now o] tr IH]; intros n m k s Hs Hpaced Hw; [done|]. cbn [length] in Hw.
  assert (∀ n' m' k', in_step stream n' m' k' (system_step stream s (now, o)) → in_pace n' m' k' tr = true → callback (pool_draw (pool s.2)) now o s.1 = callback (word stream) now o s.1 →
    rnd_idx (ch (callback (word stream) now o s.1)) ≤ rnd_idx (ch s.1) + 4 → (system_run stream ((now, o) :: tr) s).1 = ideal_run (word stream) ((now, o) :: tr) s.1) as Hgo.
  { intros n' m' k' Hn' Hp' Heq Hi. cbn [system_run ideal_run foldl]. change (foldl (system_step stream) ?x tr) with (system_run stream tr x).
    destruct s as [sc v]. cbn [fst snd] in *. rewrite (IH n' m' k' _ Hn' Hp').
    - unfold system_step. cbn [fst snd]. by rewrite Heq.
    - unfold system_step. cbn [fst snd]. rewrite Heq. lia. }
  assert ((∃ pid timer, o = Enqueue pid timer) ∨ draws o = 0) as [(pid & timer & ->)|Hd] by (destruct o; eauto).
  - cbn [in_pace] in Hpaced. destruct n as [|n], m as [|m]; [done..|]. destruct (callback_follows stream (S n) (S m) k now (Enqueue pid timer) s Hs) as [Heq Hi]; [cbn; lia|lia|].
    apply (Hgo n m k); [|done|done|cbn in Hi |- *; lia]. destruct Hs as [H0 Hs]. destruct s as [sc v]. unfold in_step, system_step. cbn [fst snd draws] in *. rewrite Heq.
    split; [lia|]. apply (served_later stream (S n) (S m) k n m (rnd_idx (ch sc))); [done|lia..].
  - destruct (callback_follows stream n m k now o s Hs) as [Heq Hi]; [lia|lia|]. rewrite Hd in Hi. destruct Hs as [H0 Hs]. destruct s as [sc v]. cbn [fst snd] in *.
    assert (o = Poll ∨ o = Update ∨ o ≠ Poll ∧ o ≠ Update) as [->|[->|[Hnp Hnu]]] by (destruct o; auto).
    + cbn [in_pace] in Hpaced. destruct k as [|k]; [|done]. apply (Hgo n 512%nat 2048%nat); [|done|done|lia]. split; [done|]. by apply (served_poll stream n m).
    + cbn [in_pace] in Hpaced. destruct k as [|k].
      * apply (Hgo n m 0%nat); [|done|done|lia]. split; [done|]. cbn [system_step fst snd callback] in *. by rewrite (served_idle stream n m (rnd_idx (ch sc))).
      * apply (Hgo (if k is O then m else n) m k); [|by destruct k|done|lia]. split; [done|]. by apply served_update.
    + apply (Hgo n m k); [|by destruct o|done|lia]. unfold in_step, system_step. cbn [fst snd]. rewrite Heq.
      replace (rnd_idx (ch (callback (word stream) now o sc))) with (rnd_idx (ch sc)) by lia. split; [done|]. by destruct o.
Qed.

Lemma ideal_positional d d' tr : ∀ s : sched Q, 0 ≤ rnd_idx (ch s) → rnd_idx (ch s) + 4 * Z.of_nat (length tr) < 2 ^ 64 →
  rnd_idx (ch s) ≤ rnd_idx (ch (ideal_run d tr s)) ∧
  ((∀ i, rnd_idx (ch s) ≤ i < rnd_idx (ch (ideal_run d tr s)) → d' i = d i) → ideal_run d' tr s = ideal_run d tr s).
Proof.
  induction tr as [|[now o] tr IH]; intros s H0 Hw; [split; [cbn; lia|done]|]. cbn [length] in Hw. cbn [ideal_run foldl fst snd].
  change (foldl (λ s e, callback ?d e.1 e.2 s) ?x tr) with (ideal_run d tr x). assert (draws o ≤ 4) as Ho by (by destruct o).
  destruct (callback_local now o d s H0 ltac:(lia)) as [H1 H2]. destruct (IH (callback d now o s) ltac:(lia) ltac:(lia)) as [H3 H4]. split; [lia|].
  intros Hd. rewrite H2 by (intros i Hi; apply Hd; lia). apply H4. intros i Hi. apply Hd. lia.
Qed.
(** The callbacks of a trace, without the rounds of the service. *)
Definition is_callback (e : Z * op) : bool := match e.2 with Poll | Update => false | _ => true end.
Definition callbacks (tr : list (Z * op)) : list (Z * op) := List.filter is_callback tr.
Lemma ideal_callbacks d tr : ∀ s : sched Q, ideal_run d tr s = ideal_run d (callbacks tr) s.
Proof. unfold ideal_run. induction tr as [|[now o] tr IH]; intros s; [done|]. by destruct o; apply IH. Qed.
Lemma callbacks_length tr : (length (callbacks tr) ≤ length tr)%nat.
Proof. unfold callbacks. induction tr as [|e tr IH]; cbn; [lia|]. destruct (is_callback e); cbn; lia. Qed.
(** The kernel has created the queues and has the timer's entry. *)
Definition kernel_ready (create : Z → Z) (has_timer : bool) : Prop := create FAIR_DSQ_ID = 0 ∧ create FROZEN_DSQ_ID = 0 ∧ has_timer = true.
Definition attached (d : Z → Z) (t : gmap Z task) : sched Q := (chaos_init d (λ _, 0) true (mkSched chaos_zero t dsq_empty dsq_empty [])).2.
Lemma attached_idx d t : rnd_idx (ch (attached d t)) = 1.
Proof. done. Qed.
Lemma start_inv create has_timer stream l u t s : system_start create has_timer stream l u t = Some s → ∃ d, s.1 = attached d t.
Proof.
  unfold system_start. destruct (fill_pool _ _) as [[|] v]; [|done]. unfold chaos_init. destruct (Z.eqb_spec (create FAIR_DSQ_ID) 0) as [E1|E1]; cbn [negb].
  2: { by rewrite (proj2 (Z.eqb_neq _ _) E1). }
  destruct (Z.eqb_spec (create FROZEN_DSQ_ID) 0) as [E2|E2]; cbn [negb].
  2: { by rewrite (proj2 (Z.eqb_neq _ _) E2). }
  destruct has_timer; [|done]. intros [= <-]. by eexists.
Qed.
Lemma start_spec create has_timer stream l u t : kernel_ready create has_timer → unfailing l → taken u →
  ∃ v, system_start create has_timer stream l u t = Some (attached (word stream) t, v) ∧ in_step stream 512 512 0 (attached (word stream) t, v).
Proof.
  intros (E1 & E2 & ->) Hl Hu. unfold system_start. destruct (fill_spec stream l u Hl Hu) as (v & -> & Hv). exists v.
  unfold chaos_init. rewrite E1, E2. cbn [negb Z.eqb ch rng_next rnd_idx chaos_zero]. rewrite (ph_values stream 2 v Hv 0) by lia.
  split; [done|]. split; [done|]. exists 2. left. cbn [fst snd]. rewrite attached_idx. split_and!; [done|lia|lia|done].
Qed.
Lemma system_is_ideal create has_timer stream l u t tr : kernel_ready create has_timer → unfailing l → taken u → paced 512 tr = true → Z.of_nat (length tr) < 2 ^ 60 →
  ∃ s, system_start create has_timer stream l u t = Some s ∧ (system_run stream tr s).1 = ideal_run (word stream) (callbacks tr) (attached (word stream) t).
Proof.
  intros Hr Hl Hu Hp Hw. destruct (start_spec create has_timer stream l u t Hr Hl Hu) as (v & Hs & Hin). eexists. split; [exact Hs|].
  rewrite (system_follows stream tr 512 512 0 _ Hin Hp) by (cbn [fst]; rewrite attached_idx; lia). apply ideal_callbacks.
Qed.
Lemma word_agree stream stream' k : (∀ i, (i < 8 * (Z.to_nat k + 1))%nat → stream' i = stream i) → 0 ≤ k → word stream' k = word stream k.
Proof.
  intros H Hk. unfold word. f_equal. apply list_fmap_ext. intros i x [-> Hi]%lookup_seq. apply H. lia.
Qed.

(** ** The share of time spent starving *)
Definition max_len : Z := Z.max (starve_min_ns cfg) (starve_max_ns cfg).
Record config_ok : Prop := {
  co_min : 0 ≤ starve_min_ns cfg; co_len : max_len < 2 ^ 50; co_cap : 0 ≤ starve_cap_pct cfg ≤ 100
}.
(** At a time, the account of the scheduler. *)
Definition account (now : Z) (s : chaos) : Prop :=
  0 ≤ total_starve_ns s ∧
  (if epoch_start s =? 0 then starve_until s = 0 ∧ total_starve_ns s = 0
   else 0 < epoch_start s ≤ now ∧
     if starve_until s =? 0 then 100 * total_starve_ns s ≤ starve_cap_pct cfg * (now - epoch_start s) + 100 * max_len
     else 0 ≤ starve_until s - starve_begin s ≤ max_len ∧ epoch_start s ≤ starve_begin s ≤ now ∧
       100 * total_starve_ns s ≤ starve_cap_pct cfg * (starve_begin s - epoch_start s)).
Definition account_of (s : chaos) : Z * Z * Z * Z := (epoch_start s, starve_begin s, starve_until s, total_starve_ns s).
Lemma account_same now s s' : account_of s' = account_of s → account now s → account now s'.
Proof. unfold account_of, account. by intros [= -> -> -> ->]. Qed.
Lemma account_later now now' s : config_ok → now ≤ now' → account now s → account now' s.
Proof.
  intros Hc Hn. unfold account. intros [H0 H]. split; [done|]. destruct (epoch_start s =? 0); [done|]. destruct H as [He H]. split; [lia|].
  destruct (starve_until s =? 0); [|lia]. pose proof (co_cap Hc). nia.
Qed.
Lemma range_bounds d min max s : 0 ≤ min → Z.max min max < 2 ^ 64 →
  min ≤ (rng_range d min max s).1 ≤ Z.max min max ∧ account_of (rng_range d min max s).2 = account_of s.
Proof.
  intros Hmin Hmax. unfold rng_range. destruct (Z.leb_spec max min); [split; [cbn; lia|done]|]. cbn [rng_next fst snd]. split; [|done].
  pose proof (Z.mod_pos_bound (d (rnd_idx s)) (max - min) ltac:(lia)). unfold u64. rewrite wrap_small by (unfold in_width; lia). lia.
Qed.
Lemma log_account pid ty now dur s : account_of (log_event cfg ring_room pid ty now dur s) = account_of s.
Proof. unfold log_event. by destruct (_ && _). Qed.
Lemma range_account d min max s : account_of (rng_range d min max s).2 = account_of s.
Proof. unfold rng_range. by destruct (_ <=? _). Qed.
Lemma max_len_nonneg : config_ok → 0 ≤ max_len.
Proof. intros Hc. pose proof (co_min Hc). unfold max_len. lia. Qed.
Lemma account_total now s : config_ok → 0 < now < 2 ^ 56 → account now s → 0 ≤ total_starve_ns s < 2 ^ 57.
Proof.
  intros Hc Hn [H0 H]. split; [done|]. pose proof (co_cap Hc). pose proof (co_len Hc). destruct (Z.eqb_spec (epoch_start s) 0); [lia|]. destruct H as [He H].
  destruct (starve_until s =? 0); nia.
Qed.
Lemma start_account d now s : config_ok → 0 < now → account now s → account now (start_epoch cfg d now s) ∧ epoch_start (start_epoch cfg d now s) ≠ 0.
Proof.
  intros Hc Hn [H0 H]. unfold start_epoch. destruct (Z.eqb_spec (epoch_start s) 0) as [E|E]; [|split; [|done]].
  - pose proof (range_account d (gap_min_ns cfg) (gap_max_ns cfg) s) as Hr.
    destruct (rng_range d (gap_min_ns cfg) (gap_max_ns cfg) s) as [gap s']. cbn [snd] in Hr. injection Hr as _ _ Hu Ht.
    unfold account. cbn. rewrite Hu, Ht. destruct H as [-> ->]. rewrite (proj2 (Z.eqb_neq now 0)) by lia. pose proof (max_len_nonneg Hc). split; [|lia]. cbn. lia.
  - unfold account. split; [done|]. by rewrite (proj2 (Z.eqb_neq _ _) E).
Qed.
Lemma reroll_account d now s : account_of (reroll cfg d now s) = account_of s.
Proof. unfold reroll. by destruct (_ <=? _). Qed.
Lemma close_account d now s : config_ok → 0 < now < 2 ^ 56 → account now s → epoch_start s ≠ 0 →
  account now (close_interval cfg d now s) ∧ epoch_start (close_interval cfg d now s) ≠ 0.
Proof.
  intros Hc Hn Hacc He. pose proof (account_total now s Hc Hn Hacc) as Ht. unfold close_interval.
  destruct (Z.eqb_spec (starve_until s) 0) as [E|E]; cbn [negb andb]; [done|]. destruct (Z.leb_spec (starve_until s) now) as [Hle|]; [|done].
  destruct Hacc as [H0 H]. rewrite (proj2 (Z.eqb_neq _ _) He), (proj2 (Z.eqb_neq _ _) E) in H. destruct H as (H1 & H2 & H3 & H4).
  pose proof (range_account d (gap_min_ns cfg) (gap_max_ns cfg) s) as Hr.
  destruct (rng_range d (gap_min_ns cfg) (gap_max_ns cfg) s) as [gap s']. cbn [snd] in Hr. injection Hr as He' _ _ _.
  pose proof (co_len Hc). pose proof (co_cap Hc). unfold account, wrapping_add, wrapping_sub. cbn. rewrite He', (proj2 (Z.eqb_neq _ _) He).
  unfold u64. rewrite !wrap_small by (unfold in_width; rewrite ?wrap_small by (unfold in_width; lia); lia). split; [|done]. split; [lia|]. split; [done|]. nia.
Qed.
Lemma open_account d pid timer now s : config_ok → 0 < now < 2 ^ 56 → account now s → epoch_start s ≠ 0 → account now (open_interval cfg ring_room d pid timer now s).
Proof.
  intros Hc Hn Hacc He. pose proof (account_total now s Hc Hn Hacc) as Ht. unfold open_interval.
  destruct (Z.eqb_spec (starve_until s) 0) as [E|E]; cbn [andb]; [|done]. destruct (next_decision s <=? now); [|done].
  pose proof Hacc as [H0 H]. rewrite (proj2 (Z.eqb_neq _ _) He), E in H. cbn in H. destruct H as (H1 & H2).
  pose proof (co_len Hc). pose proof (co_cap Hc). pose proof (co_min Hc). pose proof (max_len_nonneg Hc).
  unfold wrapping_sub. unfold u64 at 3. rewrite (wrap_small 64 (now - epoch_start s)) by (unfold in_width; lia).
  unfold u64. rewrite (wrap_small 64 (total_starve_ns s * 100)), (wrap_small 64 ((now - epoch_start s) * _)) by (unfold in_width; nia).
  destruct (Z.leb_spec (total_starve_ns s * 100) ((now - epoch_start s) * starve_cap_pct cfg)).
  - pose proof (range_bounds d (starve_min_ns cfg) (starve_max_ns cfg) s ltac:(lia) ltac:(unfold max_len in *; lia)) as [Hl Ha].
    destruct (rng_range d (starve_min_ns cfg) (starve_max_ns cfg) s) as [len s']. cbn [fst snd] in *. change (Z.max _ _) with max_len in Hl.
    eapply account_same; [apply log_account|]. injection Ha as He' _ _ Ht'. unfold account, arm_release, wrapping_add. cbn. rewrite He', Ht', (proj2 (Z.eqb_neq _ _) He).
    unfold u64. rewrite wrap_small by (unfold in_width; lia). rewrite (proj2 (Z.eqb_neq (now + len) 0)) by lia. split; [lia|]. split; [lia|]. split; [lia|]. split; [lia|]. lia.
  - pose proof (range_account d (gap_min_ns cfg) (gap_max_ns cfg) s) as Hr.
    destruct (rng_range d (gap_min_ns cfg) (gap_max_ns cfg) s) as [gap s']. by eapply account_same; [|exact Hacc].
Qed.
Lemma callback_account d now now' o (s : sched Q) : config_ok → 0 < now' < 2 ^ 56 → now ≤ now' → account now (ch s) → account now' (ch (callback d now' o s)).
Proof.
  intros Hc Hn Hle Hacc. apply (account_later now now') in Hacc; [|done|done].
  destruct o as [pid timer| |pid|pid|pid|pid w rest| |]; cbn [callback]; try done.
  - assert (account now' (advance_schedule cfg ring_room d pid timer now' (ch s))) as Ha.
    { destruct (start_account d now' (ch s) Hc ltac:(lia) Hacc) as [H1 H2]. unfold advance_schedule.
      destruct (close_account d now' (reroll cfg d now' (start_epoch cfg d now' (ch s))) Hc Hn) as [H3 H4].
      - by eapply account_same; [apply reroll_account|].
      - pose proof (reroll_account d now' (start_epoch cfg d now' (ch s))) as [= -> _ _ _]. done.
      - by apply open_account. }
    eapply account_same; [|exact Ha]. unfold chaos_enqueue. repeat case_match; cbn [ch]; rewrite ?log_account; unfold account_of; cbn; try done; by rewrite ?log_account.
  - unfold chaos_dispatch. by repeat case_match.
  - unfold chaos_running. by case_match.
Qed.
(** Times that do not go back. *)
Fixpoint timed (now : Z) (tr : list (Z * op)) (last : Z) : Prop :=
  match tr with [] => now ≤ last | (t, _) :: tr => now ≤ t ∧ timed t tr last end.
Lemma timed_last tr : ∀ now last, timed now tr last → now ≤ last.
Proof. induction tr as [|[t o] tr IH]; intros now last; cbn; [done|]. intros [? H%IH]. lia. Qed.
Lemma run_account stream tr : ∀ now last (s : sched Q * service), config_ok → 0 < now → last < 2 ^ 56 → timed now tr last → account now (ch s.1) →
  account last (ch (system_run stream tr s).1).
Proof.
  induction tr as [|[t o] tr IH]; intros now last [sc v] Hc Hn Hl Ht Ha; cbn [system_run foldl]; [by apply (account_later now)|].
  destruct Ht as [Ht1 Ht2]. pose proof (timed_last tr t last Ht2). change (foldl (system_step stream) ?x tr) with (system_run stream tr x).
  apply (IH t); [done|lia|done|done|]. cbn. apply (callback_account _ now); [done|lia|done|done].
Qed.
(** The log has every interval that was opened, with its length. *)
Definition log_kept : Prop := logging cfg = true ∧ ∀ l, ring_room l = true.
Definition begun_ns (l : list fuzz_event) : Z := foldr (λ e n, (if ev_type e is FUZZ_EVENT_STARVE_BEGIN then ev_duration_ns e else 0) + n) 0 l.
Definition opened_ns (s : chaos) : Z := total_starve_ns s + (if starve_until s =? 0 then 0 else starve_until s - starve_begin s).
#[local] Arguments begun_ns : simpl never.
Definition ledger (s : chaos) : Prop := begun_ns (events s) = opened_ns s.
Definition ledger_of (s : chaos) : Z * Z * Z * Z := (begun_ns (events s), starve_begin s, starve_until s, total_starve_ns s).
Lemma ledger_same s s' : ledger_of s' = ledger_of s → ledger s → ledger s'.
Proof. unfold ledger_of, ledger, opened_ns. by intros [= -> -> -> ->]. Qed.
Lemma begun_app l e : begun_ns (l ++ [e]) = begun_ns l + (if ev_type e is FUZZ_EVENT_STARVE_BEGIN then ev_duration_ns e else 0).
Proof. unfold begun_ns. induction l as [|x l IH]; cbn; [lia|]. rewrite IH. lia. Qed.
Lemma log_begun pid ty now dur s : log_kept →
  ledger_of (log_event cfg ring_room pid ty now dur s) = 
    (begun_ns (events s) + (if ty is FUZZ_EVENT_STARVE_BEGIN then dur else 0), starve_begin s, starve_until s, total_starve_ns s).
Proof. intros [Hl Hr]. unfold log_event. rewrite Hl, Hr. cbn [andb]. unfold ledger_of. cbn [events]. by rewrite begun_app. Qed.
Lemma log_ledger pid ty now dur s : log_kept → ty ≠ FUZZ_EVENT_STARVE_BEGIN → ledger_of (log_event cfg ring_room pid ty now dur s) = ledger_of s.
Proof. intros Hk Hty. rewrite log_begun by done. unfold ledger_of. do 3 f_equal. destruct ty; [done|lia|lia]. Qed.
Lemma range_ledger d min max s : ledger_of (rng_range d min max s).2 = ledger_of s.
Proof. unfold rng_range. by destruct (_ <=? _). Qed.
Lemma start_ledger d now s : ledger s → ledger (start_epoch cfg d now s).
Proof.
  intros H. unfold start_epoch. destruct (_ =? 0); [|done]. pose proof (range_ledger d (gap_min_ns cfg) (gap_max_ns cfg) s) as Hr.
  destruct (rng_range _ _ _ _) as [gap s']. cbn [snd] in Hr. by apply (ledger_same s') ; [|eapply ledger_same].
Qed.
Lemma close_ledger d now s : config_ok → 0 < now < 2 ^ 56 → account now s → epoch_start s ≠ 0 → ledger s → ledger (close_interval cfg d now s).
Proof.
  intros Hc Hn Hacc He Hl. pose proof (account_total now s Hc Hn Hacc) as Ht. unfold close_interval.
  destruct (Z.eqb_spec (starve_until s) 0) as [E|E]; cbn [negb andb]; [done|]. destruct (starve_until s <=? now); [|done].
  destruct Hacc as [H0 H]. rewrite (proj2 (Z.eqb_neq _ _) He), (proj2 (Z.eqb_neq _ _) E) in H. destruct H as (H1 & H2 & H3 & H4).
  pose proof (range_ledger d (gap_min_ns cfg) (gap_max_ns cfg) s) as Hr. destruct (rng_range _ _ _ _) as [gap s']. cbn [snd] in Hr. injection Hr as Hb _ _ _.
  pose proof (co_len Hc). unfold ledger, opened_ns, wrapping_add, wrapping_sub in *. cbn. rewrite Hb, Hl, (proj2 (Z.eqb_neq _ _) E).
  unfold u64. rewrite !wrap_small by (unfold in_width; rewrite ?wrap_small by (unfold in_width; lia); lia). lia.
Qed.
Lemma open_ledger d pid timer now s : config_ok → log_kept → 0 < now < 2 ^ 56 → ledger s → ledger (open_interval cfg ring_room d pid timer now s).
Proof.
  intros Hc Hk Hn Hl. unfold open_interval. destruct (Z.eqb_spec (starve_until s) 0) as [E|E]; cbn [andb]; [|done]. destruct (_ <=? now); [|done].
  pose proof (co_len Hc). pose proof (co_min Hc). unfold ledger, opened_ns in Hl. rewrite E in Hl. cbn in Hl. destruct (_ <=? _).
  - pose proof (range_bounds d (starve_min_ns cfg) (starve_max_ns cfg) s ltac:(lia) ltac:(unfold max_len in *; lia)) as [Hb _].
    pose proof (range_ledger d (starve_min_ns cfg) (starve_max_ns cfg) s) as Hr. destruct (rng_range _ _ _ _) as [len s']. cbn [fst snd] in *.
    change (Z.max _ _) with max_len in Hb. injection Hr as Hbe _ _ Ht.
    pose proof (log_begun pid FUZZ_EVENT_STARVE_BEGIN now len (arm_release timer now len (mkChaos (rnd_idx s') (vtime_now s') (epoch_start s') (next_decision s') now (now +! len)
      (total_starve_ns s') (epoch_seed s') (prio_reroll_at s') (dbg_logged s') (armed s') (events s'))) Hk) as Hlog.
    cbn zeta. destruct (log_event _ _ _ _ _ _ _). unfold ledger_of in Hlog. cbn in Hlog. injection Hlog as Hev -> -> ->.
    unfold ledger, opened_ns. cbn. rewrite Hev, Hbe, Hl, Ht. unfold wrapping_add, u64. rewrite wrap_small by (unfold in_width; lia).
    rewrite (proj2 (Z.eqb_neq _ 0)) by lia. lia.
  - pose proof (range_ledger d (gap_min_ns cfg) (gap_max_ns cfg) s) as Hr. destruct (rng_range _ _ _ _) as [gap s']. cbn [snd] in Hr.
    eapply (ledger_same s); [exact Hr|]. unfold ledger, opened_ns. by rewrite E.
Qed.
Lemma advance_ledger d pid timer now s : config_ok → log_kept → 0 < now < 2 ^ 56 → account now s → ledger s → ledger (advance_schedule cfg ring_room d pid timer now s).
Proof.
  intros Hc Hk Hn Hacc Hl. destruct (start_account d now s Hc ltac:(lia) Hacc) as [H1 H2]. unfold advance_schedule.
  apply open_ledger; [done..|]. apply close_ledger; [done|done| | |].
  - by eapply account_same; [apply reroll_account|].
  - pose proof (reroll_account d now (start_epoch cfg d now s)) as [= -> _ _ _]. done.
  - apply (start_ledger d now) in Hl. unfold reroll. by destruct (_ <=? now).
Qed.
Lemma callback_ledger d now now' o (s : sched Q) : config_ok → log_kept → 0 < now' < 2 ^ 56 → now ≤ now' → account now (ch s) → ledger (ch s) →
  ledger (ch (callback d now' o s)).
Proof.
  intros Hc Hk Hn Hle Hacc Hl. apply (account_later now now') in Hacc; [|done|done].
  destruct o as [pid timer| |pid|pid|pid|pid w rest| |]; cbn [callback]; try done.
  - eapply ledger_same; [|exact (advance_ledger d pid timer now' (ch s) Hc Hk Hn Hacc Hl)].
    unfold chaos_enqueue. repeat case_match; cbn [ch]; rewrite ?log_ledger by done; try done; by rewrite ?log_ledger by done.
  - unfold chaos_dispatch. by repeat case_match.
  - unfold chaos_running. by case_match.
Qed.
Lemma run_ledger stream tr : ∀ now last (s : sched Q * service), config_ok → log_kept → 0 < now → last < 2 ^ 56 → timed now tr last →
  account now (ch s.1) → ledger (ch s.1) → ledger (ch (system_run stream tr s).1).
Proof.
  induction tr as [|[t o] tr IH]; intros now last [sc v] Hc Hk Hn Hl Ht Ha Hg; cbn [system_run foldl]; [done|].
  destruct Ht as [Ht1 Ht2]. pose proof (timed_last tr t last Ht2). change (foldl (system_step stream) ?x tr) with (system_run stream tr x).
  apply (IH t last); [done|done|lia|done|done| |]; cbn.
  - apply (callback_account _ now); [done|lia|done|done].
  - apply (callback_ledger _ now); [done|done|lia|done|done|done].
Qed.
Lemma start_books create has_timer stream l u t s : config_ok → system_start create has_timer stream l u t = Some s → account 1 (ch s.1) ∧ ledger (ch s.1).
Proof.
  intros Hc (d & ->)%start_inv. split; [|done]. unfold account. cbn. done.
Qed.
Lemma capped now s : config_ok → 0 < now → account now s → 100 * opened_ns s ≤ starve_cap_pct cfg * (now - epoch_start s) + 100 * max_len.
Proof.
  intros Hc Hn [H0 H]. unfold opened_ns. pose proof (co_cap Hc). pose proof (max_len_nonneg Hc). destruct (Z.eqb_spec (epoch_start s) 0) as [E|E].
  - destruct H as [-> ->]. cbn. nia.
  - destruct H as [He H]. destruct (starve_until s =? 0); [lia|]. nia.
Qed.

(** ** Victims *)
(** The dispatches of a trace that find no interval open. *)
Fixpoint releases (stream : nat → Z) (tr : list (Z * op)) (s : sched Q * service) : nat :=
  match tr with
  | [] => 0
  | e :: tr => (if e.2 is Dispatch then (if starving e.1 (ch s.1) then 0 else 1) else 0) + releases stream tr (system_step stream s e)
  end%nat.
Definition enqueues (p : Z) (o : op) : bool := if o is Enqueue q _ then q =? p else false.
(** All before a time, without an enqueue of [p]. *)
Definition before (u p : Z) (tr : list (Z * op)) : Prop := Forall (λ e, e.1 < u ∧ enqueues p e.2 = false) tr.
Lemma log_schedule pid ty now dur s : let s' := log_event cfg ring_room pid ty now dur s in starve_until s' = starve_until s ∧ armed s' = armed s.
Proof. unfold log_event. by destruct (_ && _). Qed.
Lemma range_schedule d min max s : let s' := (rng_range d min max s).2 in starve_until s' = starve_until s ∧ armed s' = armed s.
Proof. unfold rng_range. by destruct (_ <=? _). Qed.
Lemma begin_schedule d now s : let s' := reroll cfg d now (start_epoch cfg d now s) in starve_until s' = starve_until s ∧ armed s' = armed s.
Proof.
  cbn zeta. unfold reroll, start_epoch. pose proof (range_schedule d (gap_min_ns cfg) (gap_max_ns cfg) s) as Hr.
  destruct (rng_range _ _ _ _) as [gap s']. cbn [snd] in Hr. destruct (epoch_start s =? 0), (_ <=? now); done.
Qed.
Lemma advance_during d pid timer now s : starving now s = true → starve_until (advance_schedule cfg ring_room d pid timer now s) = starve_until s.
Proof.
  unfold starving. intros [H1%negb_true_iff H2%Z.ltb_lt]%andb_true_iff. destruct (begin_schedule d now s) as [Hu _]. unfold advance_schedule, close_interval.
  rewrite Hu, H1, (proj2 (Z.leb_gt _ now) H2). cbn [negb andb]. unfold open_interval. rewrite Hu, H1. done.
Qed.
(** An enqueue does the schedule's work, and logs. *)
Lemma enqueue_schedule d now pid timer (s : sched Q) : let c := ch (chaos_enqueue cfg ring_room d now pid timer s) in
  let c0 := advance_schedule cfg ring_room d pid timer now (ch s) in starve_until c = starve_until c0 ∧ armed c = armed c0.
Proof.
  cbn zeta. set (c0 := advance_schedule _ _ _ _ _ _). unfold chaos_enqueue. fold c0.
  repeat case_match; cbn [ch]; repeat (match goal with |- context [log_event ?a ?b ?c ?d ?e ?f ?g] =>
    destruct (log_schedule c d e f g) as [-> ->] end; cbn [starve_until armed]); done.
Qed.
(** While an interval is open, a callback other than its own enqueue leaves a victim where it is. *)
Lemma callback_during d now o p n (s : sched Q) : starving now (ch s) = true → enqueues p o = false →
  queued (frozen s) !! n = Some p → p ∉ queued (fair s) →
  let s' := callback d now o s in
  starve_until (ch s') = starve_until (ch s) ∧ queued (frozen s') !! n = Some p ∧ (p ∉ queued (fair s')) ∧ List.filter (Z.eqb p) (local s') = List.filter (Z.eqb p) (local s).
Proof.
  intros Hs Ho Hn Hf. cbn zeta. destruct o as [q timer| |q|q|q|q w rest| |]; cbn [callback]; try done.
  - destruct (enqueue_schedule d now q timer s) as [-> _]. rewrite advance_during by done. split; [done|].
    unfold chaos_enqueue. cbv zeta. destruct (_ && _) in |- *; cbn [frozen fair local].
    + split_and!; [|done|done]. rewrite queued_insert. by apply lookup_app_l_Some.
    + split_and!; [done| |done]. rewrite queued_insert_vtime. intros [->|Hin]%elem_of_cons; [cbn in Ho; by rewrite Z.eqb_refl in Ho|done].
  - unfold chaos_dispatch. rewrite Hs. unfold move_to_local. pose proof (queued_pop (fair s)) as Hq. destruct (dsq_pop (fair s)) as [[q f]|]; cbn [ch frozen fair local]; [|done].
    rewrite Hq in Hf. apply not_elem_of_cons in Hf as [Hpq Hf]. split_and!; [done|done|done|]. rewrite List.filter_app. cbn.
    rewrite (proj2 (Z.eqb_neq p q)) by done. by rewrite app_nil_r.
  - unfold chaos_running. by case_match.
Qed.
Lemma run_during stream p n tr : ∀ s : sched Q * service, starve_until (ch s.1) ≠ 0 → before (starve_until (ch s.1)) p tr →
  queued (frozen s.1) !! n = Some p → p ∉ queued (fair s.1) →
  let s' := (system_run stream tr s).1 in queued (frozen s') !! n = Some p ∧ List.filter (Z.eqb p) (local s') = List.filter (Z.eqb p) (local s.1).
Proof.
  induction tr as [|[now o] tr IH]; intros [sc v] Hu Hb Hn Hf; cbn [fst] in *; [done|]. apply Forall_cons in Hb as [[Hnow Ho] Hb]. cbn [fst snd] in *.
  assert (starving now (ch sc) = true) as Hs by (unfold starving; rewrite (proj2 (Z.eqb_neq _ _) Hu), (proj2 (Z.ltb_lt _ _) Hnow); done).
  destruct (callback_during (pool_draw (pool v)) now o p n sc Hs Ho Hn Hf) as (H1 & H2 & H3 & H4).
  cbn [system_run foldl]. change (foldl (system_step stream) ?x tr) with (system_run stream tr x).
  destruct (IH (system_step stream (sc, v) (now, o))) as [H5 H6]; cbn [system_step fst snd]; rewrite ?H1; [done|done|done|done|].
  split; [done|]. etransitivity; [exact H6|exact H4].
Qed.
Lemma callback_local_grows d now o (s : sched Q) : ∃ l, local (callback d now o s) = local s ++ l.
Proof.
  destruct o as [q timer| |q|q|q|q w rest| |]; cbn [callback]; try (exists []; by rewrite app_nil_r).
  - exists []. rewrite app_nil_r. unfold chaos_enqueue. cbv zeta. by destruct (_ && _) in |- *.
  - unfold chaos_dispatch, move_to_local. repeat case_match; simplify_eq; cbn [local]; rewrite <- ?app_assoc; eauto; exists []; by rewrite app_nil_r.
  - exists []. rewrite app_nil_r. unfold chaos_running. by case_match.
Qed.
Lemma run_local_grows stream tr : ∀ s : sched Q * service, ∃ l, local (system_run stream tr s).1 = local s.1 ++ l.
Proof.
  induction tr as [|[now o] tr IH]; intros [sc v]; [exists []; by rewrite app_nil_r|].
  destruct (callback_local_grows (pool_draw (pool v)) now o sc) as [l1 H1]. destruct (IH (system_step stream (sc, v) (now, o))) as [l2 H2].
  exists (l1 ++ l2). cbn [system_run foldl]. change (foldl (system_step stream) ?x tr) with (system_run stream tr x). rewrite H2. cbn [system_step fst snd]. by rewrite H1, app_assoc.
Qed.
(** A dispatch outside an interval moves the head of the frozen queue; nothing else takes from it. *)
Lemma dispatch_releases now (s : sched Q) n p : starving now (ch s) = false → queued (frozen s) !! n = Some p →
  match n with O => p ∈ local (chaos_dispatch now s) | S n => queued (frozen (chaos_dispatch now s)) !! n = Some p end.
Proof.
  intros Hs Hn. unfold chaos_dispatch, move_to_local. rewrite Hs. pose proof (queued_pop (frozen s)) as Hq. destruct (dsq_pop (frozen s)) as [[q f]|]; [|by rewrite Hq in Hn].
  rewrite Hq in Hn. destruct (dsq_pop (fair s)) as [[q' f']|]; cbn [frozen local]; destruct n as [|n]; cbn in Hn; try done; simplify_eq; set_solver.
Qed.
Lemma callback_keeps d now o (s : sched Q) n p : (o = Dispatch → starving now (ch s) = true) → queued (frozen s) !! n = Some p →
  queued (frozen (callback d now o s)) !! n = Some p.
Proof.
  intros Ho Hn. destruct o as [q timer| |q|q|q|q w rest| |]; cbn [callback]; try done.
  - unfold chaos_enqueue. cbv zeta. destruct (_ && _) in |- *; cbn [frozen]; [|done]. rewrite queued_insert. by apply lookup_app_l_Some.
  - unfold chaos_dispatch. rewrite Ho by done. by destruct (move_to_local _ _).
  - unfold chaos_running. by case_match.
Qed.
Lemma run_releases stream p tr : ∀ n (s : sched Q * service), queued (frozen s.1) !! n = Some p → (n < releases stream tr s)%nat → p ∈ local (system_run stream tr s).1.
Proof.
  induction tr as [|[now o] tr IH]; intros n [sc v] Hn Hr; cbn [fst] in *; [cbn in Hr; lia|]. cbn [releases fst snd] in Hr.
  cbn [system_run foldl]. change (foldl (system_step stream) ?x tr) with (system_run stream tr x).
  assert ((o = Dispatch ∧ starving now (ch sc) = false) ∨ ((o = Dispatch → starving now (ch sc) = true) ∧ (n < releases stream tr (system_step stream (sc, v) (now, o)))%nat)) as [[-> Hs]|[Ho Hr']].
  { destruct o; try (by right; split; [done|cbn in Hr |- *; lia]). destruct (starving now (ch sc)); [right; split; [done|exact Hr]|by left]. }
  - pose proof (dispatch_releases now sc n p Hs Hn) as Hd. rewrite Hs in Hr. destruct n as [|n]; [|by apply (IH n); [done|lia]].
    destruct (run_local_grows stream tr (system_step stream (sc, v) (now, Dispatch))) as [l ->]. apply elem_of_app. by left.
  - apply (IH n); [|done]. by apply callback_keeps.
Qed.
(** The release timer fires when the open interval has ended, and not much later. *)
Definition release_armed (L : Z) (s : chaos) : Prop := starve_until s ≠ 0 → ∃ fire, armed s = Some fire ∧ starve_until s ≤ fire ≤ starve_until s + L.
(** Timers start, within [L] of the callback's reading of the clock. *)
Definition prompt (L : Z) (o : op) : Prop := if o is Enqueue _ timer then ∃ lag, timer = Some lag ∧ 0 ≤ lag ≤ L else True.
Lemma advance_armed L d pid lag now s : config_ok → 0 < now < 2 ^ 56 → 0 ≤ lag ≤ L → release_armed L s → release_armed L (advance_schedule cfg ring_room d pid (Some lag) now s).
Proof.
  intros Hc Hn HL Ha. destruct (begin_schedule d now s) as [Hu Hm]. unfold advance_schedule. set (s1 := reroll _ _ _ _) in *.
  assert (release_armed L (close_interval cfg d now s1)) as Ha1.
  { unfold close_interval. case_match; [|unfold release_armed in *; by rewrite Hu, Hm]. destruct (rng_range _ _ _ _) as [gap s']. intros Hz. by destruct Hz. }
  set (s2 := close_interval _ _ _ _) in *. unfold open_interval. case_match; [|done]. case_match.
  - pose proof (co_min Hc). pose proof (co_len Hc). unfold max_len in *.
    pose proof (range_bounds d (starve_min_ns cfg) (starve_max_ns cfg) s2 ltac:(lia) ltac:(lia)) as [Hb _]. destruct (rng_range _ _ _ _) as [len s']. cbn [fst] in Hb.
    match goal with |- release_armed ?L (log_event ?a ?b ?c ?d ?e ?f ?g) => destruct (log_schedule c d e f g) as [E1 E2] end. unfold release_armed. rewrite E1, E2.
    cbn. intros _. unfold wrapping_add, u64. rewrite wrap_small by (unfold in_width; lia). eexists. split; [done|]. lia.
  - pose proof (range_schedule d (gap_min_ns cfg) (gap_max_ns cfg) s2) as [E1 E2]. destruct (rng_range _ _ _ _) as [gap s']. cbn [snd] in *.
    unfold release_armed in *. cbn. by rewrite E1, E2.
Qed.
Lemma run_armed L stream tr : ∀ now last (s : sched Q * service), config_ok → 0 < now → last < 2 ^ 56 → timed now tr last →
  Forall (λ e, prompt L e.2) tr → release_armed L (ch s.1) → release_armed L (ch (system_run stream tr s).1).
Proof.
  induction tr as [|[t o] tr IH]; intros now last [sc v] Hc Hn Hl Ht Hp Ha; cbn [system_run foldl]; [done|]. apply Forall_cons in Hp as [Hp0 Hp].
  destruct Ht as [Ht1 Ht2]. pose proof (timed_last tr t last Ht2). change (foldl (system_step stream) ?x tr) with (system_run stream tr x).
  apply (IH t last); [done|lia|done|done|done|]. cbn [system_step fst snd] in *. destruct o as [q timer| |q|q|q|q w rest| |]; cbn [callback]; try done.
  - destruct (enqueue_schedule (pool_draw (pool v)) t q timer sc) as [E1 E2]. destruct Hp0 as (lag & -> & HL). unfold release_armed. rewrite E1, E2. by apply advance_armed; [done|lia|..].
  - unfold chaos_dispatch. by repeat case_match.
  - unfold chaos_running. by case_match.
Qed.

(** * Properties *)
(** C34: However the random values come out, whatever [getrandom] answers and however the
    callbacks interleave, at any time the length of all the intervals that were ever
    opened, an open one counted in full, is within the cap's share of the time since the
    first enqueue and one interval of the greatest length.  (The lengths are read from the
    scheduler's log, taken to have room for every event.) *)
Theorem starvation_capped create has_timer stream l u t s tr last : config_ok → log_kept → system_start create has_timer stream l u t = Some s → timed 1 tr last → last < 2 ^ 56 →
  let c := ch (system_run stream tr s).1 in
  100 * begun_ns (events c) ≤ starve_cap_pct cfg * (last - epoch_start c) + 100 * max_len.
Proof.
  intros Hc Hk Hs Ht Hl. destruct (start_books create has_timer stream l u t s Hc Hs) as [Ha Hg]. pose proof (timed_last tr 1 last Ht). cbn zeta.
  rewrite (run_ledger stream tr 1 last s) by (done || lia). apply capped; [done|lia|]. apply (run_account stream tr 1); done.
Qed.
(** C32: If the kernel creates the queues, reads and updates of the pool do not fail, and each round of the
    service is over, its updates included, before the scheduler has enqueued 512 times since the round before
    began, then the scheduler makes its k-th random decision from the k-th word of the stream [getrandom]
    serves, however the bytes arrive and the single updates of the pool interleave with the callbacks: the schedule is that of
    the ideal scheduler that reads the stream itself.  Another stream that agrees on the words the schedule used
    gives the same schedule, whenever its service gets its turns. *)
Theorem chaos_follows_stream create has_timer stream l u t tr : kernel_ready create has_timer → unfailing l → taken u → paced 512 tr = true → Z.of_nat (length tr) < 2 ^ 60 →
  ∃ s, system_start create has_timer stream l u t = Some s ∧
    let final := (system_run stream tr s).1 in
    final = ideal_run (word stream) (callbacks tr) (attached (word stream) t) ∧
    ∀ stream' l' u' tr', unfailing l' → taken u' → paced 512 tr' = true → Z.of_nat (length tr') < 2 ^ 60 → callbacks tr' = callbacks tr →
      (∀ i, (i < 8 * Z.to_nat (rnd_idx (ch final)))%nat → stream' i = stream i) →
      ∃ s', system_start create has_timer stream' l' u' t = Some s' ∧ (system_run stream' tr' s').1 = final.
Proof.
  intros Hr Hl Hu Hp Hw. destruct (system_is_ideal create has_timer stream l u t tr Hr Hl Hu Hp Hw) as (s & Hs & Heq). exists s. split; [done|]. cbn zeta. rewrite Heq. split; [done|].
  intros stream' l' u' tr' Hl' Hu' Hp' Hw' Hcb Hagree. destruct (system_is_ideal create has_timer stream' l' u' t tr' Hr Hl' Hu' Hp' Hw') as (s' & Hs' & Heq'). exists s'. split; [done|].
  rewrite Heq', Hcb. pose proof (callbacks_length tr) as Hlen. pose proof (attached_idx (word stream) t) as Hidx.
  destruct (ideal_positional (word stream) (word stream') (callbacks tr) (attached (word stream) t)) as [Hge Hpos]; [lia|lia|].
  assert (attached (word stream') t = attached (word stream) t) as ->.
  { unfold attached, chaos_init. cbn [negb Z.eqb rng_next ch rnd_idx chaos_zero]. rewrite (word_agree stream stream' 0); [done| |lia]. intros i Hi. apply Hagree. lia. }
  apply Hpos. intros k Hk. apply word_agree; [|lia]. intros i Hi. apply Hagree. lia.
Qed.
End System.

(** * Witnesses *)
(** A queue as a list of tasks, each with its virtual time. *)
Fixpoint vtime_insert (p v : Z) (q : list (Z * Z)) : list (Z * Z) :=
  match q with [] => [(p, v)] | (p', v') :: q' => if vtime_before v v' then (p, v) :: q else (p', v') :: vtime_insert p v q' end.
Lemma vtime_insert_perm p v q : (vtime_insert p v q).*1 ≡ₚ p :: q.*1.
Proof. induction q as [|[p' v'] q IH]; cbn; [done|]. destruct (vtime_before v v'); cbn; [done|]. rewrite IH. constructor. Qed.
#[export] Program Instance list_dsq : Dsq (list (Z * Z)) := {
  dsq_empty := [];
  dsq_insert p q := q ++ [(p, 0)];
  dsq_insert_vtime := vtime_insert;
  dsq_pop q := match q with [] => None | (p, _) :: q => Some (p, q) end;
  queued q := q.*1
}.
Next Obligation. done. Qed.
Next Obligation. intros p q. cbn. by rewrite fmap_app. Qed.
Next Obligation. intros p v q. apply vtime_insert_perm. Qed.
Next Obligation. by intros [|[p v] q]. Qed.
Definition zeros : nat → Z := λ _, 0.
Definition three_tasks : gmap Z task := list_to_map [(7, mkTask 0 100 0); (8, mkTask 0 100 0); (9, mkTask 0 100 0)].
(** The kernel creates the queues; nothing fails. *)
#[local] Notation start := (system_start (Q := list (Z * Z)) (λ _, 0) true).
Lemma start_some stream t : ∃ s, start stream [] [] t = Some s.
Proof. destruct (start_spec (λ _, 0) true stream [] [] t) as (v & Hs & _); [by split_and!|constructor|constructor|]. eexists. exact Hs. Qed.
(** The scheduler's part of a short run, without the pool. *)
Lemma sample_run cfg room stream t s tr : start stream [] [] t = Some s → paced 512 tr = true → (Z.of_nat (length tr) <? 2 ^ 60) = true →
  (system_run cfg room stream tr s).1 = ideal_run cfg room (word stream) (callbacks tr) (attached (word stream) t).
Proof.
  intros Hs Hp Hl%Z.ltb_lt. destruct (system_is_ideal cfg room (λ _, 0) true stream [] [] t tr) as (s' & Hs' & Heq); [by split_and!|constructor|constructor|exact Hp|exact Hl|].
  pose proof (eq_trans (eq_sym Hs) Hs') as E. injection E as ->. exact Heq.
Qed.
Definition sample_trace : list (Z * op) := [(1, Enqueue 7 (Some 0)); (2, Poll); (2, Update); (3, Dispatch); (100000001, Enqueue 8 (Some 0)); (100000002, Dispatch)].
(** Everyone is a victim, of intervals of ten. *)
Definition strict_config : config := mkConfig 10 10 0 0 100 1 100 true false.
Lemma strict_config_ok : config_ok strict_config.
Proof. split; vm_compute; intuition congruence. Qed.
Lemma starvation_capped_witness : ∃ s, start zeros [Failed] [] three_tasks = None ∧ start zeros [] [true; false] three_tasks = None ∧ system_start (Q := list (Z * Z)) (λ q, -12 * q) true zeros [] [] three_tasks = None ∧ start zeros [] [] three_tasks = Some s ∧
  let c := ch (system_run fixed_config (λ _, true) zeros sample_trace s).1 in
  begun_ns (events c) = 50000000 ∧ 100 * begun_ns (events c) ≤ 35 * (200000000 - epoch_start c) + 100 * 1500000000.
Proof.
  destruct (start_some zeros three_tasks) as [s Hs]. exists s. do 3 (split; [vm_compute; reflexivity|]). split; [exact Hs|]. split; [rewrite (sample_run _ _ _ _ _ sample_trace Hs eq_refl eq_refl); vm_compute; reflexivity|].
  apply (starvation_capped fixed_config (λ _, true) (λ _, 0) true zeros [] [] three_tasks _ sample_trace 200000000).
  - clear Hs. split; vm_compute; intuition congruence.
  - split; reflexivity.
  - exact Hs.
  - cbn. lia.
  - lia.
Defined.
Definition counting : nat → Z := λ i, Z.of_nat i mod 256.
Lemma chaos_follows_stream_witness : ∃ s, start counting [Interrupted; Served 99] [] three_tasks = Some s ∧
  (system_run fixed_config (λ _, true) counting sample_trace s).1 =
    ideal_run fixed_config (λ _, true) (word counting) (callbacks sample_trace) (attached (word counting) three_tasks).
Proof.
  destruct (chaos_follows_stream fixed_config (λ _, true) (λ _, 0) true counting [Interrupted; Served 99] [] three_tasks sample_trace) as (s & H1 & H2 & _).
  - split_and!; reflexivity.
  - by repeat constructor.
  - constructor.
  - reflexivity.
  - cbn. lia.
  - exists s. split; [exact H1|exact H2].
Defined.

(** * Where the comments say more than the code does *)
(** A victim that was queued before an interval opens runs during it. *)
Definition gap_config : config := mkConfig 10 10 2 2 100 1 100 true false.
Lemma victim_runs_in_interval : ∃ s, start zeros [] [] three_tasks = Some s ∧
  let s1 := (system_run gap_config (λ _, true) zeros [(1, Enqueue 7 (Some 0)); (3, Enqueue 8 (Some 0))] s).1 in
  let s2 := (system_run gap_config (λ _, true) zeros [(1, Enqueue 7 (Some 0)); (3, Enqueue 8 (Some 0)); (4, Dispatch)] s).1 in
  starving 4 (ch s1) = true ∧ task_is_low gap_config 7 (ch s1) = true ∧ local s1 = [] ∧ local s2 = [7].
Proof.
  destruct (start_some zeros three_tasks) as [s Hs]. exists s. split; [exact Hs|].
  rewrite (sample_run _ _ _ _ _ _ Hs (eq_refl : paced 512 [(1, Enqueue 7 (Some 0)); (3, Enqueue 8 (Some 0))] = true) eq_refl).
  rewrite (sample_run _ _ _ _ _ _ Hs (eq_refl : paced 512 [(1, Enqueue 7 (Some 0)); (3, Enqueue 8 (Some 0)); (4, Dispatch)] = true) eq_refl). clear Hs. by vm_compute.
Qed.
(** A victim that a re-roll turns into a task of high priority stays frozen. *)
Definition reroll_config : config := mkConfig 100 100 0 0 5 2 100 true false.
Definition turning : nat → Z := λ i, if (i =? 8)%nat then 1 else 0.
Lemma high_task_stays_frozen : ∃ s, start turning [] [] (list_to_map [(2, mkTask 0 100 0); (9, mkTask 0 100 0)]) = Some s ∧
  let s1 := (system_run reroll_config (λ _, true) turning [(1, Enqueue 2 (Some 0)); (6, Enqueue 9 (Some 0)); (7, Dispatch)] s).1 in
  starving 7 (ch s1) = true ∧ task_is_low reroll_config 2 (ch s1) = false ∧ 2 ∈ queued (frozen s1) ∧ 2 ∉ local s1.
Proof.
  destruct (start_some turning (list_to_map [(2, mkTask 0 100 0); (9, mkTask 0 100 0)])) as [s Hs]. exists s. split; [exact Hs|].
  rewrite (sample_run _ _ _ _ _ _ Hs (eq_refl : paced 512 [(1, Enqueue 2 (Some 0)); (6, Enqueue 9 (Some 0)); (7, Dispatch)] = true) eq_refl). clear Hs.
  split_and!; [by vm_compute|by vm_compute| |].
  - by apply (bool_decide_unpack _); vm_compute.
  - by apply (bool_decide_unpack _); vm_compute.
Qed.
(** A refill that fails in the loop is not tried again: the half's old values are drawn again. *)
Lemma failed_refill_reuses stream v idx : answers v = [Failed] → filling v = None → last_half v = false → RND_HALF ≤ idx < RND_POOL_N →
  let v' := poll_round stream idx v in
  last_half v' = true ∧ poll_round stream idx v' = v' ∧ pool_draw (pool v') RND_POOL_N = pool_draw (pool v) 0.
Proof.
  intros Ha Hf Hl Hi. change RND_HALF with 2048 in Hi. change RND_POOL_N with 4096 in Hi.
  assert ((RND_HALF <=? Z.land idx (RND_POOL_N - 1)) = true) as Hhalf by (rewrite slot_of_index, Z.mod_small by lia; change RND_HALF with 2048; apply Z.leb_le; lia).
  assert (poll_round stream idx v = mkService (pool v) true (position v) [] (updates v) None) as Hp.
  { unfold poll_round, begin_refill. rewrite Hf, Hhalf, Hl, Ha. change (8 * Z.to_nat RND_HALF)%nat with (S (8 * Z.to_nat RND_HALF - 1)). done. }
  cbv zeta. rewrite Hp. split_and!; [done| |done]. unfold poll_round. by rewrite Hhalf.
Qed.
(** The diagnostic counts enqueues: a task is reported again each time it wakes. *)
Lemma governed_task_repeated : ∃ s, start zeros [] [] three_tasks = Some s ∧
  let c := ch (system_run fixed_config (λ _, true) zeros [(1, Enqueue 7 (Some 0)); (2, Dispatch); (3, Enqueue 7 (Some 0))] s).1 in
  ev_pid <$> List.filter (λ e, if ev_type e is FUZZ_EVENT_DEBUG then true else false) (events c) = [7; 7].
Proof.
  destruct (start_some zeros three_tasks) as [s Hs]. exists s. split; [exact Hs|].
  rewrite (sample_run _ _ _ _ _ _ Hs (eq_refl : paced 512 [(1, Enqueue 7 (Some 0)); (2, Dispatch); (3, Enqueue 7 (Some 0))] = true) eq_refl). vm_compute. reflexivity.
Qed.
